(* ===== verification/_CoqProject ===== *)
-Q . S2P
Prelude.v
Hoare.v
PyStr.v
PyDict.v
PyInt.v
Json.v
JsonText.v
PyText.v
Sha1.v
RecordedOrder.v
SearchOrder.v
HistoryOrder.v
Schedule.v
ScheduleSpec.v
ConvertSpec.v
MakeSchedule.v
Driver.v
DriverSpec.v
CodeIndex.v
CodeIndexStore.v
CodeIndexSpec.v
Legacy.v
LegacySpec.v
Mcts.v
MctsSpec.v
Npd.v
NpdSpec.v
Resources.v
ProcessWait.v
ProcessWaitSpec.v
SandboxDriver.v
SandboxDriverSpec.v
DumpPool.v
DumpPoolSpec.v
PageStats.v
Registry.v
Overlay.v
RootOverlay.v
SemanticParser.v
MemoryClassifier.v
Workspace.v
WorkerActions.v
WorkerActionsSpec.v
Worker.v
WorkerSpec.v
WorkerClient.v
Host.v
Program.v
Template.v
TemplateSys.v
TemplatePool.v
TemplateCmd.v
TemplateInv.v
TemplateRequests.v
TemplateSpec.v
Sim.v
Process.v
AsyncResources.v
ResourcesSpec.v
Checkpoint.v
LazyPages.v
AsyncCheckpoint.v
Restore.v
Incremental.v
FsSpec.v
GcSpec.v
AsyncSpec.v
Controller.v
Durability.v
