(* ===== verification/Prelude.v ===== *)
(** * DeltaBox: a verification library for the checkpoint/restore runtime

    DeltaBox keeps a tree of checkpoints of a running sandbox (files and
    processes) so that a search over agent actions can go back to any node.
    [src/backends/deltabox/gsd/] is the runtime inside the sandbox's host:
    [SandboxController] takes checkpoints, restores them and collects garbage;
    files are versioned by switching the layers of an overlay mount through an
    ioctl, memory by CRIU images and by stopped warm templates.  [src/worker/]
    is the agent that lives in the sandbox, [src/npd/] the proxy through which
    it talks to the model, [src/agent/] the tree search that drives both and the
    driver of its sandbox, and [src/replay/] turns recorded searches into schedules and runs them.

    Python objects are records, handlers are functions in a state-and-error
    monad, exceptions are values ([result]), JSON values are [json], floats are
    IEEE binary64, and loops without a bound in the code run on fuel that is
    proved to be enough or are bounded by a deadline ([poll_limit]).  What lies
    outside of the source is an interface (a [Class]) whose laws state its
    documented behaviour, with an executable instance for the witnesses.

    ** Files

    Shared:
    - [Prelude] (this file): exceptions, the monads and their notations, the
      tactics and the hint database of all files.  [Hoare]: weakest
      preconditions for stateful code that can raise.
    - [PyStr], [PyDict], [PyInt], [PyText]: the string methods, the
      insertion-ordered dict, decimal numbers, and the text functions the source
      uses; [Json], [JsonText]: JSON values, printing and parsing; [Sha1]:
      SHA-1 and SHA-256.
    Runtime ([src/backends/deltabox/gsd/]):
    - [Registry]: the entries of [SandboxController.registry], [retained_ids].
      [Overlay]: the layer-switching ioctl as an interface ([KernelOverlay]).
      [RootOverlay]: [root_overlay.py].  [SemanticParser],
      [MemoryClassifier]: the choice of a strategy.  [PageStats]:
      [criu_page_stats.py].  [ProcessWait], [ProcessWaitSpec]:
      [process_wait.py].
    - [Host]: the system calls of the controller as an interface, its state
      ([ctl]) and configuration ([config]); [Sim]: a concrete host.  [Process]:
      process trees, pid namespaces, killing and reaping.  [Checkpoint]:
      [_checkpoint_legacy].  [LazyPages]: lazy-pages daemons.  [Restore]:
      [restore_action], [gc_obsolete_snapshots].  [Incremental]: the search for
      the parent image.  [FsSpec], [GcSpec]: the abstract state of the layer
      stack and one specification per operation.  [Controller]: the transition
      system and the theorems about histories.
    - [Resources], [AsyncResources], [ResourcesSpec]: [async_resources.py].
      [AsyncCheckpoint], [AsyncSpec], [Durability]: asynchronous incremental checkpoints
      ([async_checkpoint.py]), their writers and the barrier before a teardown.
    - [Program], [Template], [TemplateSys], [TemplatePool], [TemplateCmd],
      [TemplateInv], [TemplateRequests], [TemplateSpec]: warm templates
      ([template_fork.py]), the side of the agent as programs of communicating
      processes, the kernel under them, and the pool of the controller.
    Agent ([src/worker/], [src/npd/], [src/agent/]):
    - [Workspace]: files, directories and links as [pathlib] sees them.
      [WorkerActions], [WorkerActionsSpec]: the tools.  [Worker], [WorkerSpec]:
      the main loop of the worker.  [WorkerClient]: the host's end of its FIFOs.
      [Npd], [NpdSpec]: the proxy and its client.  [Mcts], [MctsSpec]: the tree
      search.  [SandboxDriver], [SandboxDriverSpec]: the driver of the sandbox
      the search runs on ([sandbox_driver.py], [local_backend.py]).
    Replay ([src/replay/]):
    - [Schedule], [ScheduleSpec], [ConvertSpec], [MakeSchedule]: from a recorded
      tree to a validated schedule; [Legacy], [LegacySpec]: from older
      trajectories.  [Driver], [DriverSpec]: the guest driver that runs a
      schedule.  [CodeIndex], [CodeIndexStore], [CodeIndexSpec]: the code index
      of the replayed worker ([index_sidecar.py]), its store of shared tables
      and its theorems.  [RecordedOrder], [SearchOrder], [HistoryOrder]: the
      recorded orders of search results and spans.  [DumpPool],
      [DumpPoolSpec]: the pool that owns the dump commands of a replay
      ([lifecycle.py]).

    ** How state and operations correspond

    [ctl] has one field per mutable attribute of [SandboxController]; an
    operation [m : M (ctl * W) A] runs on the controller's state and a host
    [W], and both survive an exception, as Python objects do.  The other
    components follow the same pattern ([client], [chan], [State], [driver],
    [locals]).  A dump runs on a worker thread in the code; here [SubmitDump]
    starts it, [DumpWait] answers what [future.result] saw and whether the
    completion callback had run, and a later callback is the step [step_other]
    of [Controller].  Threads and processes that the code interleaves are steps
    of a transition system ([AsyncSpec], [TemplateSys], [Npd], [WorkerSpec],
    [DumpPool]).
    Where objects are shared and changed in place ([CodeIndex]) they live in a
    store and are referred to by their location.
    The order of the phases inside an operation is the order of the code.

    ** What the theorems show

    - Files: a restore brings back the files of the checkpoint it restores,
      through any interleaving of other operations (also failing ones) and
      writes; the covered system directories likewise; lightweight checkpoints
      under a registered parent redirect in one hop to an entry with an image,
      the others cannot be restored; garbage collection keeps
      the dependency closure and every view; refusals come before effects.
    - Memory: the search for a parent image ends at the nearest usable ancestor;
      the statistics of an image are exact; a warm restore brings back the
      memory of its template, and one process at a time reads the control FIFO;
      an asynchronous checkpoint that is resolved rests on committed images;
      the inspection before it accepts exactly the processes that hold nothing
      a checkpoint would miss, of those that hold still while it looks.
    - Waiting for processes loses none and leaks nothing.
    - Agent: a step is one model call and its reply is taken up once; tools write
      inside the repository only and edits change what they say; the proxy drops
      stale responses as long as it can read the epoch; the tree a search builds is a tree of executions, and
      so are, on the sandbox driver, the checkpoints of the controller, each on
      the checkpoint of its parent; the driver ends with durable dumps and
      without the namespace, or says that it does not.
    - Replay: a schedule that was made reproduces the recorded tree; validation
      accepts exactly the replayable schedules; the driver runs them to their
      end and leaves the agent in the state they ask for; the code index, whose
      snapshots share their tables with it, cannot be told from one that copies
      them, and tells exactly the symbols of the files it holds; aborting the
      dumps of a replay ends, and leaves none running when it returns but
      those that outlived their kill.
    - Where the code does not do what it means to do, a theorem or a finding of
      the manifest says so.

    ** Fuel and bounds

    Structural walks take the size of the value ([jsize]); the walk over
    checkpoints takes the size of the registry; [backprop_loop] and
    [select_loop] the number of nodes; [wait_for_process_exit] a turn per tick
    of its timeout ([wait_total]); [build_dir] the depth of the tree
    ([build_ends]); the readiness handshake of the driver
    [READY_US / 5000 + 1] attempts ([ready_loop_ends]); polling loops of the
    controller their deadline.  Each has a lemma that says it is enough, or the
    theorem quantifies over all fuel above a bound.

    ** Parameters and limits

    The kernel module, CRIU, git, bash, the model and all processes are behind
    interfaces; their laws say that the calls do what they are documented to do
    or fail without effect.  The theorems of [Controller] are for a controller
    without covered system directories; those have theorems of their own.  Drawn
    uuid prefixes are assumed unused ([ids_fresh]).  Templates live in one pid
    namespace, and [fork] succeeds there.  Text is ASCII and globs have no
    character sets; dictionary keys that are booleans or floats, and other
    inputs the model does not cover, raise [OutOfModel].  [DriverSpec] is for
    the agent with its index inside ([sidecar] off).

    ** Not modelled

    - Timing figures, footprints, logging, trace events and statistics: they
      are written, never read by the control flow.
    - Python's recursion limit and memory exhaustion.
    - The bring-up of a guest (mounts, namespaces, staging of repositories and
      environments), the batch runners around a replay and the figures and
      reports made of results ([src/ae/]): I/O around the core.
    - [stage_search_order], [stage_history_order]: they patch a package that is
      not in the repository.
    - The generated protobuf modules and CRIU's Python bindings
      ([src/pycriu/]); [src/agent/worker/], [src/agent/npd/]: copies of
      [src/worker/] and [src/npd/] that differ in import paths only.
    - [src/upper/]: a second search on the data structures of an external
      package. *)

From stdpp Require Export base tactics list gmap strings pretty sorting.
From Stdlib Require Export ZArith Lia.

(** ** Python exceptions and results

    A Python call either returns or raises; [result] keeps both, with the
    class of the exception and the literal part of its message. *)

Inductive exn_class :=
  | ValueError | KeyError | TypeError | RuntimeError | TimeoutError
  | FileNotFoundError | OSError | ProcessLookupError | ChildProcessError | SystemExit
  | AssertionError | UnsupportedAsyncResources | DumpUnavailableError
  | OverlaySwitchUnsupportedError | CalledProcessError
  | AttributeError | OverflowError | IndexError
  | FileExistsError | NotADirectoryError | IsADirectoryError | TimeoutExpired | ReError | InterruptedError
  | OutOfModel (** not a Python class: an input the model does not cover *)
  | OutOfFuel (** not a Python class: a bounded loop of the model ran out *).

#[global] Instance exn_class_eq_dec : EqDecision exn_class.
Proof. solve_decision. Defined.

Record exn := Exn { exn_cls : exn_class; exn_msg : string }.

#[global] Instance exn_eq_dec : EqDecision exn.
Proof. solve_decision. Defined.

Inductive result (A : Type) := Ok (a : A) | Err (e : exn).
Arguments Ok {A} a.
Arguments Err {A} e.

#[global] Instance result_eq_dec `{EqDecision A} : EqDecision (result A).
Proof. solve_decision. Defined.

#[global] Instance result_ret : MRet result := fun A => @Ok A.
#[global] Instance result_bind : MBind result := fun A B f r =>
  match r with Ok a => f a | Err e => Err e end.

Definition is_Ok {A} (r : result A) : bool :=
  match r with Ok _ => true | Err _ => false end.

(** [raise cls msg] is Python's [raise cls(msg)]. *)
Definition raise {A} (c : exn_class) (msg : string) : result A := Err (Exn c msg).
Arguments raise {A} c msg /.

(** [guard_ b e k]: [if b: raise e] followed by the rest of the body. *)
Definition fail_if {A} (b : bool) (c : exn_class) (msg : string) (k : result A) : result A :=
  if b then raise c msg else k.

(** ** Effects

    Stateful code that can raise: a raise keeps the mutations made before it. *)

Definition M (S A : Type) : Type := S → result A * S.

#[global] Instance M_ret {S} : MRet (M S) := fun A a s => (Ok a, s).
#[global] Instance M_bind {S} : MBind (M S) := fun A B f m s =>
  match m s with
  | (Ok a, s') => f a s'
  | (Err e, s') => (Err e, s')
  end.

Definition mraise {S A} (c : exn_class) (msg : string) : M S A := fun s => (raise c msg, s).
Definition mthrow {S A} (e : exn) : M S A := fun s => (Err e, s).
Definition mget {S} : M S S := fun s => (Ok s, s).
Definition mmod {S} (f : S → S) : M S unit := fun s => (Ok tt, f s).
Definition mwhen {S} (b : bool) (m : M S unit) : M S unit := if b then m else mret tt.
Definition lift_result {S A} (r : result A) : M S A := fun s => (r, s).

(** [try m except e: h e]. *)
Definition mcatch {S A} (m : M S A) (h : exn → M S A) : M S A := fun s =>
  match m s with
  | (Ok a, s') => (Ok a, s')
  | (Err e, s') => h e s'
  end.

(** [try m finally f]: [f] runs on both paths; its own raise wins. *)
Definition mfinally {S A} (m : M S A) (f : M S unit) : M S A := fun s =>
  match m s with
  | (r, s') =>
      match f s' with
      | (Ok _, s'') => (r, s'')
      | (Err e, s'') => (Err e, s'')
      end
  end.

Fixpoint mfor {S A} (l : list A) (body : A → M S unit) : M S unit :=
  match l with
  | [] => mret tt
  | x :: l' => _ ← body x; mfor l' body
  end.

Notation "m ;;; k" := (m ≫= fun _ => k) (at level 100, right associativity) : stdpp_scope.

(** ** Boolean connectives over decidable propositions *)

Notation "⌜? P ?⌝" := (bool_decide P) (at level 0, format "⌜? P ?⌝") : stdpp_scope.

(** Membership test of a Python [in] over a list. *)
Definition mem `{EqDecision A} (x : A) (l : list A) : bool := bool_decide (x ∈ l).

Lemma mem_true `{EqDecision A} (x : A) l : mem x l = true ↔ x ∈ l.
Proof. apply bool_decide_eq_true. Qed.
Lemma mem_false `{EqDecision A} (x : A) l : mem x l = false ↔ x ∉ l.
Proof. apply bool_decide_eq_false. Qed.

(** Removal of the first occurrence. *)
Fixpoint list_remove_first `{EqDecision A} (x : A) (l : list A) : list A :=
  match l with
  | [] => []
  | y :: l => if decide (x = y) then l else y :: list_remove_first x l
  end.

(** ** Automation *)

Create HintDb deltabox discriminated.

(** Case analysis on a hypothesis about a monadic computation: splits the
    binds, drops the impossible branches and turns boolean tests into
    propositions. *)
Ltac inv_ok :=
  repeat match goal with
  | H : Ok _ = Ok _ |- _ => injection H as H; try subst
  | H : Err _ = Ok _ |- _ => discriminate H
  | H : Ok _ = Err _ |- _ => discriminate H
  | H : raise _ _ = Ok _ |- _ => discriminate H
  | H : (_, _) = (_, _) |- _ => injection H as H; try subst
  | H : (_ ≫= _) = Ok _ |- _ => unfold mbind, result_bind in H
  | H : mret _ = _ |- _ => unfold mret, result_ret in H
  | H : fail_if ?b _ _ _ = Ok _ |- _ => unfold fail_if in H
  | H : (match ?x with _ => _ end) = Ok _ |- _ => destruct x eqn:?; try discriminate H
  end.

Ltac bool_hyps :=
  repeat match goal with
  | H : (_ && _)%bool = true |- _ => apply andb_true_iff in H as [? ?]
  | H : (_ || _)%bool = false |- _ => apply orb_false_iff in H as [? ?]
  | H : negb _ = true |- _ => apply negb_true_iff in H
  | H : negb _ = false |- _ => apply negb_false_iff in H
  | H : bool_decide _ = true |- _ => apply bool_decide_eq_true in H
  | H : bool_decide _ = false |- _ => apply bool_decide_eq_false in H
  | H : (_ =? _)%Z = true |- _ => apply Z.eqb_eq in H
  | H : (_ =? _)%Z = false |- _ => apply Z.eqb_neq in H
  | H : (_ <? _)%Z = true |- _ => apply Z.ltb_lt in H
  | H : (_ <? _)%Z = false |- _ => apply Z.ltb_ge in H
  | H : (_ <=? _)%Z = true |- _ => apply Z.leb_le in H
  | H : (_ <=? _)%Z = false |- _ => apply Z.leb_gt in H
  end.

(** Evaluates bit operations on closed numerals. *)
Ltac eval_bits :=
  repeat match goal with
  | |- context [Z.land (Zpos ?a) (Zpos ?b)] =>
      let v := eval vm_compute in (Z.land (Zpos a) (Zpos b)) in change (Z.land (Zpos a) (Zpos b)) with v
  | |- context [Z.testbit (Zpos ?a) ?b] =>
      let v := eval vm_compute in (Z.testbit (Zpos a) b) in change (Z.testbit (Zpos a) b) with v
  end.

(** ** Generic lemmas *)

Lemma mfor_app {S A} (l1 l2 : list A) (body : A → M S unit) s :
  mfor (l1 ++ l2) body s = (mfor l1 body ;;; mfor l2 body) s.
Proof.
  revert s; induction l1 as [|x l1 IH]; intros s; simpl; [done|].
  unfold mbind, M_bind in *. destruct (body x s) as [[[]|e] s']; [|done].
  rewrite IH. done.
Qed.

(** A loop whose body preserves a property preserves it, whether or not it
    raises. *)
Lemma mfor_preserves {S A} (P : S → Prop) (l : list A) (body : A → M S unit) :
  (∀ x s, x ∈ l → P s → P (body x s).2) → ∀ s, P s → P (mfor l body s).2.
Proof.
  induction l as [|x l IH]; intros Hb s Hs; simpl; [done|].
  unfold mbind, M_bind.
  pose proof (Hb x s ltac:(left) Hs) as Hx.
  destruct (body x s) as [[[]|e] s'] eqn:E; simpl in *; [|done].
  apply IH; [|done]. intros y t Hy. apply Hb. by right.
Qed.

Lemma mbind_preserves {S A B} (P : S → Prop) (m : M S A) (k : A → M S B) :
  (∀ s, P s → P (m s).2) → (∀ a s, P s → P (k a s).2) → ∀ s, P s → P ((m ≫= k) s).2.
Proof.
  intros Hm Hk s Hs. unfold mbind, M_bind. specialize (Hm s Hs).
  destruct (m s) as [[a|e] s']; simpl in *; auto.
Qed.


(** Sums of integers over a list. *)
Definition zsum (l : list Z) : Z := foldr Z.add 0%Z l.

Lemma zsum_app l1 l2 : zsum (l1 ++ l2) = (zsum l1 + zsum l2)%Z.
Proof. induction l1; simpl; [done|]. unfold zsum in *; simpl. lia. Qed.

Lemma zsum_nonneg l : Forall (fun z => 0 ≤ z)%Z l → (0 ≤ zsum l)%Z.
Proof. induction 1; unfold zsum in *; simpl; lia. Qed.

Lemma size_list_to_set_le `{Countable A} (l : list A) : size (list_to_set l : gset A) ≤ length l.
Proof.
  induction l as [|x l IH]; cbn [list_to_set length]; [by rewrite size_empty|].
  rewrite size_union_alt, size_singleton.
  assert (size (list_to_set l ∖ {[x]} : gset A) ≤ size (list_to_set l : gset A)); [|lia].
  apply subseteq_size. set_solver.
Qed.

(** ** Results over lists *)

Lemma mapM_elem {A B} (f : A → result B) l out y : mapM f l = Ok out → y ∈ out → ∃ x, x ∈ l ∧ f x = Ok y.
Proof.
  revert out. induction l as [|x l IH]; intros out; simpl; [by intros [= <-] ?%elem_of_nil|].
  unfold mbind, result_bind, mret, result_ret.
  destruct (f x) eqn:E; [|done]. destruct (mapM f l) eqn:E'; [|done].
  intros [= <-] [->|Hy]%elem_of_cons; [exists x; split; [left|done]|].
  destruct (IH _ eq_refl Hy) as (x' & ? & ?). exists x'. split; [by right|done].
Qed.
Lemma elem_of_concat {A} (x : A) ls : x ∈ concat ls ↔ ∃ l, x ∈ l ∧ l ∈ ls.
Proof. rewrite list_elem_of_In, in_concat. setoid_rewrite list_elem_of_In. naive_solver. Qed.

(** Not an answer for want of fuel. *)
Definition fuelled {A} (r : result A) : Prop := match r with Err e => exn_cls e ≠ OutOfFuel | Ok _ => True end.
Lemma fuelled_bind {A B} (r : result A) (k : A → result B) :
  fuelled r → (∀ a, r = Ok a → fuelled (k a)) → fuelled (r ≫= k).
Proof. unfold mbind, result_bind. destruct r; simpl; auto. Qed.
Lemma fuelled_mapM {A B} (f : A → result B) l : (∀ x, x ∈ l → fuelled (f x)) → fuelled (mapM f l).
Proof.
  induction l as [|x l IH]; intros H; [done|]. simpl. apply fuelled_bind; [apply H; left|]. intros a _.
  apply fuelled_bind; [|done]. apply IH. intros y Hy. apply H. by right.
Qed.
Lemma fuelled_raise {A} c m : c ≠ OutOfFuel → fuelled (A:=A) (raise c m).
Proof. done. Qed.
