(* ===== verification/Hoare.v ===== *)
(** * Weakest preconditions for stateful code that can raise

    [wp m Q E s]: running [m] from [s] either returns with [Q] or raises with
    [E].  Theorems about handlers are proved by the rules below; loops use an
    invariant. *)

From S2P Require Import Prelude.

Definition wp {S A} (m : M S A) (Q : A → S → Prop) (E : exn → S → Prop) (s : S) : Prop :=
  match m s with (Ok a, s') => Q a s' | (Err e, s') => E e s' end.

Section rules.
Context {S : Type}.

Lemma wp_bind {A B} (m : M S A) (k : A → M S B) Q E s :
  wp m (fun a s' => wp (k a) Q E s') E s → wp (m ≫= k) Q E s.
Proof. unfold wp, mbind, M_bind. by destruct (m s) as [[a|e] s']. Qed.

Lemma wp_mono {A} (m : M S A) (Q Q' : A → S → Prop) (E E' : exn → S → Prop) s :
  wp m Q E s → (∀ a s', Q a s' → Q' a s') → (∀ e s', E e s' → E' e s') → wp m Q' E' s.
Proof. unfold wp. destruct (m s) as [[a|e] s']; auto. Qed.

Lemma wp_and {A} (m : M S A) (Q1 Q2 : A → S → Prop) (E1 E2 : exn → S → Prop) s :
  wp m Q1 E1 s → wp m Q2 E2 s → wp m (fun a s' => Q1 a s' ∧ Q2 a s') (fun e s' => E1 e s' ∧ E2 e s') s.
Proof. unfold wp. destruct (m s) as [[a|e] s']; auto. Qed.

Lemma wp_ret {A} (a : A) (Q : A → S → Prop) E s : Q a s → wp (mret a) Q E s.
Proof. done. Qed.

Lemma wp_mod (f : S → S) (Q : unit → S → Prop) E s : Q tt (f s) → wp (mmod f) Q E s.
Proof. done. Qed.

Lemma wp_get (Q : S → S → Prop) E s : Q s s → wp mget Q E s.
Proof. done. Qed.

Lemma wp_throw {A} e (Q : A → S → Prop) (E : exn → S → Prop) s : E e s → wp (mthrow e) Q E s.
Proof. done. Qed.

Lemma wp_raise {A} c msg (Q : A → S → Prop) (E : exn → S → Prop) s :
  E (Exn c msg) s → wp (mraise c msg) Q E s.
Proof. done. Qed.

Lemma wp_lift {A} (r : result A) (Q : A → S → Prop) (E : exn → S → Prop) s :
  match r with Ok a => Q a s | Err e => E e s end → wp (lift_result r) Q E s.
Proof. by destruct r. Qed.

Lemma wp_catch {A} (m : M S A) h Q E s :
  wp m Q (fun e s' => wp (h e) Q E s') s → wp (mcatch m h) Q E s.
Proof. unfold wp, mcatch. by destruct (m s) as [[a|e] s']. Qed.

Lemma wp_finally {A} (m : M S A) (f : M S unit) (Q : A → S → Prop) (E : exn → S → Prop) s :
  wp m (fun a s' => wp f (fun _ s'' => Q a s'') E s')
       (fun e s' => wp f (fun _ s'' => E e s'') E s') s →
  wp (mfinally m f) Q E s.
Proof.
  unfold wp, mfinally. destruct (m s) as [[a|e] s']; destruct (f s') as [[[]|e'] s'']; auto.
Qed.

Lemma wp_when (b : bool) (m : M S unit) (Q : unit → S → Prop) (E : exn → S → Prop) s :
  (if b then wp m Q E s else Q tt s) → wp (mwhen b m) Q E s.
Proof. by destruct b. Qed.

Lemma wp_for {A} (I : S → Prop) (l : list A) (body : A → M S unit) (E : exn → S → Prop) s :
  I s → (∀ x s', x ∈ l → I s' → wp (body x) (fun _ s'' => I s'') E s') →
  wp (mfor l body) (fun _ s' => I s') E s.
Proof.
  revert s. induction l as [|x l IH]; intros s HI Hb; simpl; [done|].
  apply wp_bind. eapply wp_mono; [apply Hb; [left|done]| |done].
  intros [] s' Hs'. apply IH; [done|]. intros y t Hy. apply Hb. by right.
Qed.

(** A computation that keeps a property of the state on both exits. *)
Definition keeps {A} (P : S → Prop) (m : M S A) : Prop := ∀ s, P s → wp m (fun _ s' => P s') (fun _ s' => P s') s.

Lemma keeps_bind {A B} P (m : M S A) (k : A → M S B) :
  keeps P m → (∀ a, keeps P (k a)) → keeps P (m ≫= k).
Proof. intros Hm Hk s Hs. apply wp_bind. eapply wp_mono; [by apply Hm| |done]. intros a s'. apply Hk. Qed.

Lemma keeps_ret {A} P (a : A) : keeps P (mret a).
Proof. by intros s Hs. Qed.
Lemma keeps_get P : keeps P mget.
Proof. by intros s Hs. Qed.
Lemma keeps_raise {A} P c msg : keeps P (@mraise S A c msg).
Proof. by intros s Hs. Qed.
Lemma keeps_throw {A} P e : keeps P (@mthrow S A e).
Proof. by intros s Hs. Qed.
Lemma keeps_lift {A} P (r : result A) : keeps P (@lift_result S A r).
Proof. intros s Hs. apply wp_lift. by destruct r. Qed.
Lemma keeps_mod P (f : S → S) : (∀ s, P s → P (f s)) → keeps P (mmod f).
Proof. intros H s Hs. by apply H. Qed.
Lemma keeps_catch {A} P (m : M S A) h : keeps P m → (∀ e, keeps P (h e)) → keeps P (mcatch m h).
Proof. intros Hm Hh s Hs. apply wp_catch. eapply wp_mono; [by apply Hm|done|]. intros e s'. apply Hh. Qed.
Lemma keeps_finally {A} P (m : M S A) (f : M S unit) : keeps P m → keeps P f → keeps P (mfinally m f).
Proof.
  intros Hm Hf s Hs. apply wp_finally.
  eapply wp_mono; [by apply Hm|intros a s' Hs'|intros e s' Hs']; apply (Hf _ Hs').
Qed.
Lemma keeps_when P b (m : M S unit) : (b = true → keeps P m) → keeps P (mwhen b m).
Proof. intros H s Hs. apply wp_when. destruct b; [by apply H|done]. Qed.
Lemma keeps_for {A} P (l : list A) (body : A → M S unit) :
  (∀ x, x ∈ l → keeps P (body x)) → keeps P (mfor l body).
Proof. intros H s Hs. apply wp_for; [done|]. intros x s' Hx Hs'. by apply H. Qed.
End rules.

#[export] Hint Resolve keeps_ret keeps_get keeps_raise keeps_throw keeps_lift : deltabox.

(** One step of a [keeps] proof: decomposes the head of the computation. *)
Ltac keeps_step :=
  match goal with
  | |- keeps _ (_ ≫= _) => apply keeps_bind; [|intros ?]
  | |- keeps _ (mcatch _ _) => apply keeps_catch; [|intros ?]
  | |- keeps _ (mfinally _ _) => apply keeps_finally
  | |- keeps _ (mwhen _ _) => apply keeps_when; intros ?
  | |- keeps _ (mfor _ _) => apply keeps_for; intros ? ?
  | |- keeps _ (mmod _) => apply keeps_mod; intros ? ?
  | |- keeps _ (match ?x with _ => _ end) => destruct x eqn:?
  | |- keeps _ (let '(_, _) := ?x in _) => destruct x eqn:?
  | |- keeps _ _ => solve [auto with deltabox nocore]
  end.
Ltac keeps_auto := repeat keeps_step.

(** ** Local variables beside a host

    Code with its own variables [L] that calls into a host [X]. *)

Section local.
Context {L X : Type}.
Definition on_host {A} (m : M X A) : M (L * X) A := fun s => let '(r, x) := m s.2 in (r, (s.1, x)).
Definition locals : M (L * X) L := s ← mget; mret s.1.
Definition set_locals (f : L → L) : M (L * X) unit := mmod (fun s => (f s.1, s.2)).

Lemma wp_host {A} (m : M X A) (Q : A → L * X → Prop) E s :
  wp m (fun a x' => Q a (s.1, x')) (fun e x' => E e (s.1, x')) s.2 → wp (on_host m) Q E s.
Proof. unfold wp, on_host. by destruct (m s.2) as [[a|e] x']. Qed.
Lemma wp_locals {A} (k : L → M (L * X) A) Q E s : wp (k s.1) Q E s → wp (locals ≫= k) Q E s.
Proof. done. Qed.
Lemma wp_set_locals f (Q : unit → L * X → Prop) E s : Q tt (f s.1, s.2) → wp (set_locals f) Q E s.
Proof. done. Qed.
End local.

(** ** Properties of the answer alone *)

Definition rets {S A} (m : M S A) (R : A → Prop) : Prop := ∀ s, wp m (fun a _ => R a) (fun _ _ => True) s.

Lemma rets_bind {S} {A B} (R1 : A → Prop) (m : M S A) (k : A → M S B) R :
  rets m R1 → (∀ a, R1 a → rets (k a) R) → rets (m ≫= k) R.
Proof. intros Hm Hk s. apply wp_bind. eapply wp_mono; [apply Hm| |done]. intros a s' Ha. by apply Hk. Qed.
Lemma rets_any {S} {A} (m : M S A) : rets m (fun _ => True).
Proof. intros s. unfold wp. by destruct (m s) as [[?|?] ?]. Qed.
Lemma rets_then {S} {A B} (m : M S A) (k : A → M S B) R : (∀ a, rets (k a) R) → rets (m ≫= k) R.
Proof. intros Hk. apply (rets_bind (fun _ => True)); [apply rets_any|]. intros a _. apply Hk. Qed.
Lemma rets_ret {S} {A} (a : A) (R : A → Prop) : R a → rets (S:=S) (mret a) R.
Proof. intros H s. by apply wp_ret. Qed.
Lemma rets_raise {S A} c msg (R : A → Prop) : rets (S:=S) (mraise c msg) R.
Proof. intros s. by apply wp_raise. Qed.
Lemma rets_catch {S} {A} (m : M S A) h R : rets m R → (∀ e, rets (h e) R) → rets (mcatch m h) R.
Proof. intros Hm Hh s. apply wp_catch. eapply wp_mono; [apply Hm|done|]. intros e s' _. apply Hh. Qed.
Lemma rets_lift {S} {A} (r : result A) R : (∀ a, r = Ok a → R a) → rets (S:=S) (lift_result r) R.
Proof. intros H s. apply wp_lift. destruct r; auto. Qed.
Lemma rets_throw {S} {A} e (R : A → Prop) : rets (S:=S) (mthrow e) R.
Proof. by intros s. Qed.
Lemma rets_finally {S} {A} (m : M S A) f R : rets m R → rets (mfinally m f) R.
Proof.
  intros Hm s. pose proof (Hm s) as H. unfold wp, mfinally in *.
  destruct (m s) as [[a|e] s']; destruct (f s') as [[[]|e'] s'']; done.
Qed.
