(* ===== verification/PyStr.v ===== *)
(** * Python string operations used by the modelled code

    Strings are sequences of 8-bit characters (the code handles paths,
    commands, identifiers and /proc text, all ASCII); each definition is the
    [str] method of the same name on such strings. *)

From S2P Require Import Prelude.
From Stdlib Require Import Ascii.
From Stdlib Require String.

(** Characters. *)
Definition chr (n : nat) : ascii := ascii_of_nat n.
Definition ch_eq (a b : ascii) : bool := bool_decide (a = b).

(** [str.isspace] on one character: the ASCII whitespace that [str.split()],
    [str.strip()] and the regular-expression class \s recognise. *)
Definition is_space (c : ascii) : bool :=
  let n := nat_of_ascii c in
  ((9 <=? n) && (n <=? 13) || (28 <=? n) && (n <=? 32))%nat%bool.

Definition is_digit (c : ascii) : bool :=
  let n := nat_of_ascii c in ((48 <=? n) && (n <=? 57))%nat%bool.

Definition lower_char (c : ascii) : ascii :=
  let n := nat_of_ascii c in
  if ((65 <=? n) && (n <=? 90))%nat%bool then chr (n + 32) else c.

Fixpoint lower (s : string) : string :=
  match s with EmptyString => EmptyString | String c s' => String (lower_char c) (lower s') end.

Definition startswith (s pre : string) : bool := String.prefix pre s.

Fixpoint sdrop (n : nat) (s : string) : string :=
  match n, s with
  | O, _ => s
  | S n, String _ s' => sdrop n s'
  | S _, EmptyString => EmptyString
  end.

Fixpoint stake (n : nat) (s : string) : string :=
  match n, s with
  | O, _ => EmptyString
  | S n, String c s' => String c (stake n s')
  | S _, EmptyString => EmptyString
  end.

Fixpoint srev_app (s acc : string) : string :=
  match s with EmptyString => acc | String c s' => srev_app s' (String c acc) end.
Definition srev (s : string) : string := srev_app s EmptyString.

Definition endswith (s suf : string) : bool := startswith (srev s) (srev suf).

(** [s[:-n]]. *)
Definition sdrop_end (n : nat) (s : string) : string := stake (String.length s - n) s.

(** [sub in s]. *)
Fixpoint contains (s sub : string) : bool :=
  String.prefix sub s ||
  match s with EmptyString => false | String _ s' => contains s' sub end.

Fixpoint has_char (c : ascii) (s : string) : bool :=
  match s with EmptyString => false | String d s' => ch_eq c d || has_char c s' end.

Fixpoint sforall (p : ascii → bool) (s : string) : bool :=
  match s with EmptyString => true | String c s' => p c && sforall p s' end.

(** [s.isdigit()]: false on the empty string. *)
Definition isdigit (s : string) : bool :=
  negb (bool_decide (s = "")) && sforall is_digit s.

(** [s.lstrip(c...)] for a character class, and its mirror images. *)
Fixpoint lstrip_by (p : ascii → bool) (s : string) : string :=
  match s with
  | EmptyString => EmptyString
  | String c s' => if p c then lstrip_by p s' else s
  end.
Definition rstrip_by (p : ascii → bool) (s : string) : string := srev (lstrip_by p (srev s)).
Definition strip (s : string) : string := rstrip_by is_space (lstrip_by is_space s).

(** [s.split(c)] for a one-character separator: never empty. *)
Fixpoint split_char (c : ascii) (s : string) : list string :=
  match s with
  | EmptyString => [EmptyString]
  | String d s' =>
      if ch_eq c d then EmptyString :: split_char c s'
      else match split_char c s' with
           | [] => [String d EmptyString]
           | w :: ws => String d w :: ws
           end
  end.

(** [s.split()]: words separated by runs of whitespace. *)
Definition split_ws (s : string) : list string :=
  let fix go (s cur : string) : list string :=
    match s with
    | EmptyString => if bool_decide (cur = "") then [] else [srev cur]
    | String c s' =>
        if is_space c then (if bool_decide (cur = "") then go s' "" else srev cur :: go s' "")
        else go s' (String c cur)
    end in go s "".

(** [s.split(None, n)]: at most [n] splits, the rest keeps its inner
    and trailing spaces. *)
Fixpoint split_ws_max (n : nat) (s : string) : list string :=
  let s := lstrip_by is_space s in
  if bool_decide (s = "") then []
  else match n with
       | O => [s]
       | S n =>
           let fix word (s : string) : string * string :=
             match s with
             | EmptyString => (EmptyString, EmptyString)
             | String c s' => if is_space c then (EmptyString, s)
                              else let '(w, r) := word s' in (String c w, r)
             end in
           let '(w, r) := word s in w :: split_ws_max n r
       end.

(** [s.rsplit(c, 1)[-1]]: what follows the last [c]. *)
Definition after_last (c : ascii) (s : string) : string := List.last (split_char c s) s.

(** [sep.join(l)]. *)
Fixpoint join (sep : string) (l : list string) : string :=
  match l with
  | [] => ""
  | [x] => x
  | x :: l' => x +:+ sep +:+ join sep l'
  end.

Definition digit_val (c : ascii) : option Z :=
  let n := nat_of_ascii c in
  if ((48 <=? n) && (n <=? 57))%nat%bool then Some (Z.of_nat n - 48)%Z
  else if ((97 <=? n) && (n <=? 102))%nat%bool then Some (Z.of_nat n - 87)%Z
  else if ((65 <=? n) && (n <=? 70))%nat%bool then Some (Z.of_nat n - 55)%Z
  else None.

Fixpoint digits_loop (base : Z) (s : string) (acc : Z) : option Z :=
  match s with
  | EmptyString => Some acc
  | String c s' =>
      match digit_val c with
      | Some d => if (d <? base)%Z then digits_loop base s' (acc * base + d)%Z else None
      | None => None
      end
  end.

(** [int(s, base)] on an unsigned digit string ([ValueError] otherwise). *)
Definition parse_uint (base : Z) (s : string) : result Z :=
  match s with
  | EmptyString => raise ValueError "invalid literal for int()"
  | _ => match digits_loop base s 0%Z with
         | Some z => Ok z
         | None => raise ValueError "invalid literal for int()"
         end
  end.

(** [int(s)]: surrounding whitespace and a sign are accepted. *)
Definition parse_int (s : string) : result Z :=
  match strip s with
  | String c s' =>
      if ch_eq c "-"%char then z ← parse_uint 10 s'; Ok (- z)%Z
      else if ch_eq c "+"%char then parse_uint 10 s'
      else parse_uint 10 (String c s')
  | EmptyString => raise ValueError "invalid literal for int()"
  end.

(** [os.path.join(a, b)] for a relative [b]. *)
Definition path_join (a b : string) : string :=
  if startswith b "/" then b
  else if bool_decide (a = "") then b
  else if endswith a "/" then a +:+ b
  else a +:+ "/" +:+ b.

(** ** Lemmas *)

Lemma string_app_assoc (a b c : string) : (a +:+ b) +:+ c = a +:+ b +:+ c.
Proof. induction a as [|x a IH]; [done|]. unfold String.app in *. simpl. by rewrite IH. Qed.

Lemma string_app_nil_r (a : string) : a +:+ "" = a.
Proof. induction a as [|x a IH]; [done|]. unfold String.app in *. simpl. by rewrite IH. Qed.

Lemma srev_app_spec s acc : srev_app s acc = srev s +:+ acc.
Proof.
  unfold srev. revert acc. induction s as [|c s IH]; intros acc; [done|].
  simpl. rewrite IH, (IH (String c "")), string_app_assoc. done.
Qed.

Lemma startswith_app s t : startswith (s +:+ t) s = true.
Proof.
  unfold startswith, String.app. induction s as [|c s IH]; simpl; [by destruct t|].
  destruct (Ascii.ascii_dec c c); [|done]. exact IH.
Qed.

Lemma startswith_spec s pre : startswith s pre = true ↔ ∃ t, s = pre +:+ t.
Proof.
  split; [|intros [t ->]; apply startswith_app].
  unfold startswith. revert s. induction pre as [|c pre IH]; intros s H; [by exists s|].
  destruct s as [|d s]; simpl in H; [done|].
  destruct (Ascii.ascii_dec c d) as [->|]; [|done].
  destruct (IH s H) as [t ->]. by exists t.
Qed.

Lemma sdrop_app s t : sdrop (String.length s) (s +:+ t) = t.
Proof. unfold String.app. induction s; simpl; auto. Qed.

Lemma string_app_inj_l (p a b : string) : p +:+ a = p +:+ b → a = b.
Proof. unfold String.app. induction p; simpl; [done|]. intros [=]. auto. Qed.

Lemma string_app_length (a b : string) :
  String.length (a +:+ b) = (String.length a + String.length b)%nat.
Proof. unfold String.app. induction a; simpl; auto. Qed.

Lemma string_app_inj_r (a b s : string) : a +:+ s = b +:+ s → a = b.
Proof.
  revert b. induction a as [|c a IH]; intros [|d b] H; try done; pose proof (f_equal String.length H) as Hl;
    rewrite !string_app_length in Hl; simpl in Hl; try lia.
  unfold String.app in *. simpl in H. injection H as -> H. f_equal. by apply IH.
Qed.

Lemma split_char_nonempty c s : split_char c s ≠ [].
Proof. destruct s as [|d s]; simpl; [done|]. destruct (ch_eq c d); [done|]. by destruct (split_char c s). Qed.

Lemma join_split_char c s : join (String c "") (split_char c s) = s.
Proof.
  induction s as [|d s IH]; simpl; [done|].
  destruct (ch_eq c d) eqn:E.
  - unfold ch_eq in E. apply bool_decide_eq_true in E as <-.
    pose proof (split_char_nonempty c s). destruct (split_char c s) as [|w ws]; [done|].
    cbn [join] in *. by rewrite IH.
  - pose proof (split_char_nonempty c s). destruct (split_char c s) as [|w ws]; [done|].
    destruct ws; cbn [join] in *; by rewrite <- IH.
Qed.

Lemma split_char_none c s : has_char c s = false → split_char c s = [s].
Proof.
  induction s as [|d s IH]; simpl; [done|]. intros [-> H]%orb_false_iff. by rewrite IH.
Qed.

Lemma split_char_app c a b :
  has_char c a = false → split_char c (a +:+ String c b) = a :: split_char c b.
Proof.
  unfold String.app. induction a as [|d a IH]; simpl.
  - intros _. unfold ch_eq. by rewrite bool_decide_eq_true_2.
  - intros [-> H]%orb_false_iff. by rewrite IH.
Qed.

Lemma has_char_app c a b : has_char c (a +:+ b) = has_char c a || has_char c b.
Proof.
  unfold String.app. induction a as [|d a IH]; simpl; [done|]. by rewrite IH, orb_assoc.
Qed.

Lemma split_char_join c l :
  l ≠ [] → Forall (fun s => has_char c s = false) l → split_char c (join (String c "") l) = l.
Proof.
  intros Hne H. induction H as [|x l Hx Hl IH]; [done|]. destruct l as [|y l].
  - by apply split_char_none.
  - change (join (String c "") (x :: y :: l)) with (x +:+ String c (join (String c "") (y :: l))).
    rewrite split_char_app by done. by rewrite IH.
Qed.

Lemma has_char_join c sep l :
  has_char c sep = false → Forall (fun s => has_char c s = false) l → has_char c (join sep l) = false.
Proof.
  intros Hs H. induction H as [|x l Hx Hl IH]; [done|]. destruct l as [|y l]; [done|].
  change (join sep (x :: y :: l)) with (x +:+ sep +:+ join sep (y :: l)).
  rewrite !has_char_app. by rewrite Hx, Hs, IH.
Qed.

(** ** Paths *)

(** [posixpath.normpath]: collapses empty and [.] components, resolves [..];
    one leading slash is kept (two exactly are kept as two). *)
Definition norm_push (absolute : bool) (acc : list string) (comp : string) : list string :=
  if bool_decide (comp = "") || bool_decide (comp = ".") then acc
  else if negb (bool_decide (comp = "..")) || (negb absolute && bool_decide (acc = []))
       || match acc with c :: _ => bool_decide (c = "..") | [] => false end
  then comp :: acc
  else match acc with _ :: acc' => acc' | [] => acc end.

Definition normpath (p : string) : string :=
  if bool_decide (p = "") then "."
  else
    let slashes := if startswith p "//" && negb (startswith p "///") then "//"
                   else if startswith p "/" then "/" else "" in
    let absolute := negb (bool_decide (slashes = "")) in
    let comps := rev (fold_left (norm_push absolute) (split_char "/" p) []) in
    let s := slashes +:+ join "/" comps in
    if bool_decide (s = "") then "." else s.

(** [os.path.relpath(path, start)] of absolute paths. *)
Fixpoint drop_common (a b : list string) : list string * list string :=
  match a, b with
  | x :: a', y :: b' => if bool_decide (x = y) then drop_common a' b' else (a, b)
  | _, _ => (a, b)
  end.
Definition path_parts (p : string) : list string :=
  List.filter (fun x => negb (bool_decide (x = ""))) (split_char "/" (normpath p)).
Definition relpath (path start : string) : string :=
  let '(s, p) := drop_common (path_parts start) (path_parts path) in
  let l := List.app (List.map (fun _ => "..") s) p in
  if bool_decide (l = []) then "." else join "/" l.

(** [s.strip(c)] for one character, and [s.replace(c, d)] for characters. *)
Definition strip_char (c : ascii) (s : string) : string :=
  rstrip_by (ch_eq c) (lstrip_by (ch_eq c) s).
Fixpoint replace_char (c d : ascii) (s : string) : string :=
  match s with
  | EmptyString => EmptyString
  | String x s' => String (if ch_eq c x then d else x) (replace_char c d s')
  end.

Lemma path_join_inj a b b' :
  startswith b "/" = false → startswith b' "/" = false → path_join a b = path_join a b' → b = b'.
Proof.
  unfold path_join. intros -> ->. case_bool_decide; [done|].
  destruct (endswith a "/"); [apply string_app_inj_l|].
  intros H'%string_app_inj_l. by apply string_app_inj_l in H'.
Qed.

Lemma pretty_N_char_digit x : is_digit (pretty_N_char x) = true.
Proof. unfold pretty_N_char. repeat case_match; done. Qed.

Lemma pretty_N_go_digits x s : sforall is_digit s = true → sforall is_digit (pretty_N_go x s) = true.
Proof.
  revert s. induction (N.lt_wf_0 x) as [x _ IH]; intros s Hs.
  destruct (decide (0 < x)%N) as [Hx|Hx].
  - rewrite pretty_N_go_step by done. apply IH; [by apply N.div_lt|].
    simpl. by rewrite pretty_N_char_digit.
  - assert (x = 0%N) as -> by lia. by rewrite pretty_N_go_0.
Qed.

Lemma pretty_nat_digits (n : nat) : sforall is_digit (pretty n) = true.
Proof.
  unfold pretty, pretty_nat, pretty, pretty_N. case_decide; [done|]. by apply pretty_N_go_digits.
Qed.

Lemma digits_no_char c s : is_digit c = false → sforall is_digit s = true → has_char c s = false.
Proof.
  intros Hc. induction s as [|d s IH]; simpl; [done|]. intros [Hd Hs]%andb_true_iff.
  rewrite IH by done. unfold ch_eq. rewrite bool_decide_eq_false_2; [done|]. intros ->. congruence.
Qed.
