(* ===== verification/PyDict.v ===== *)
(** * Insertion-ordered dictionaries

    A Python [dict] whose iteration order the code relies on (the checkpoint
    registry, the prestarted daemons): an association list in insertion order.
    Assigning an existing key keeps its position, as in Python. *)

From S2P Require Import Prelude.

Section dict.
Context {K : Type} `{EqDecision K} {V : Type}.
Implicit Types (d : list (K * V)) (k : K) (v : V).

(** [d.get(k)] *)
Fixpoint dget (k : K) (d : list (K * V)) : option V :=
  match d with
  | [] => None
  | (k', v) :: d => if decide (k = k') then Some v else dget k d
  end.

(** [d[k] = v] *)
Fixpoint dset (k : K) (v : V) (d : list (K * V)) : list (K * V) :=
  match d with
  | [] => [(k, v)]
  | (k', v') :: d => if decide (k = k') then (k', v) :: d else (k', v') :: dset k v d
  end.

(** [d.pop(k, None)], the remaining dictionary *)
Definition dpop (k : K) (d : list (K * V)) : list (K * V) :=
  List.filter (fun p => bool_decide (p.1 ≠ k)) d.

Definition dkeys (d : list (K * V)) : list K := d.*1.
Definition dvals (d : list (K * V)) : list V := d.*2.
Definition dhas (k : K) (d : list (K * V)) : bool := bool_decide (k ∈ dkeys d).

Lemma dget_Some_elem k v d : dget k d = Some v → (k, v) ∈ d.
Proof.
  induction d as [|[k' v'] d IH]; simpl; [done|]. case_decide; subst.
  - intros [= ->]. by left.
  - intros. right. auto.
Qed.

Lemma dget_None k d : dget k d = None ↔ k ∉ dkeys d.
Proof.
  unfold dkeys. induction d as [|[k' v'] d IH]; simpl; [set_solver|].
  case_decide; subst; [set_solver|]. rewrite IH, elem_of_cons. naive_solver.
Qed.

Lemma dget_is_Some k d : is_Some (dget k d) ↔ k ∈ dkeys d.
Proof.
  destruct (dget k d) eqn:E.
  - split; [|eauto]. intros _. apply dget_Some_elem in E. unfold dkeys.
    change k with (k, v).1. by apply list_elem_of_fmap_2.
  - apply dget_None in E. split; [intros [? ?]; done|done].
Qed.

Lemma dhas_true k d : dhas k d = true ↔ is_Some (dget k d).
Proof. unfold dhas. rewrite bool_decide_eq_true. symmetry. apply dget_is_Some. Qed.

Lemma dget_dset_eq k v d : dget k (dset k v d) = Some v.
Proof.
  induction d as [|[k' v'] d IH]; simpl.
  - by rewrite decide_True.
  - case_decide as E; simpl; [by rewrite decide_True|by rewrite decide_False].
Qed.

Lemma dget_dset_ne k k' v d : k ≠ k' → dget k' (dset k v d) = dget k' d.
Proof.
  intros Hne. induction d as [|[k2 v2] d IH]; simpl.
  - by rewrite decide_False.
  - case_decide as E; simpl; subst; repeat case_decide; congruence.
Qed.

Lemma dpop_fresh k d : k ∉ dkeys d → dpop k d = d.
Proof.
  unfold dkeys, dpop. induction d as [|[k' v] d IH]; simpl; [done|]. intros [Hn Hd]%not_elem_of_cons.
  rewrite bool_decide_eq_true_2 by done. by rewrite IH.
Qed.
Lemma dpop_dset_fresh k v d : k ∉ dkeys d → dpop k (dset k v d) = d.
Proof.
  induction d as [|[k' v'] d IH]; intros Hn.
  - unfold dpop. simpl. by rewrite bool_decide_eq_false_2 by (intros H; by apply H).
  - apply not_elem_of_cons in Hn as [Hn Hd]. simpl. rewrite decide_False by done.
    unfold dpop in *. simpl. rewrite bool_decide_eq_true_2 by done. by rewrite IH.
Qed.
Lemma dget_dpop_eq k d : dget k (dpop k d) = None.
Proof.
  apply dget_None. unfold dkeys, dpop. intros ([k' v] & E & Hin)%list_elem_of_fmap.
  simpl in E. subst. apply list_elem_of_In, filter_In in Hin as [_ Hb].
  by apply bool_decide_eq_true in Hb.
Qed.

Lemma dget_dpop_ne k k' d : k ≠ k' → dget k' (dpop k d) = dget k' d.
Proof.
  intros Hne. unfold dpop. induction d as [|[k2 v2] d IH]; simpl; [done|].
  case_bool_decide as E; simpl in *; [by rewrite IH|]. subst.
  by rewrite decide_False.
Qed.

Lemma dkeys_dset k v d : dkeys (dset k v d) = if decide (k ∈ dkeys d) then dkeys d else dkeys d ++ [k].
Proof.
  unfold dkeys. induction d as [|[k' v'] d IH]; cbn [dset fmap list_fmap fst].
  - destruct (decide (k ∈ [])); [set_solver|done].
  - destruct (decide (k = k')) as [->|Hne]; cbn [fmap list_fmap fst].
    + rewrite decide_True by set_solver. done.
    + rewrite IH. repeat case_decide; set_solver.
Qed.

Lemma dkeys_dset_NoDup k v d : NoDup (dkeys d) → NoDup (dkeys (dset k v d)).
Proof.
  intros Hnd. rewrite dkeys_dset. case_decide as E; [done|].
  apply NoDup_app. split_and!; [done|set_solver|apply NoDup_singleton].
Qed.

Lemma elem_of_dkeys_dpop k k' d : k' ∈ dkeys (dpop k d) ↔ k' ∈ dkeys d ∧ k' ≠ k.
Proof.
  rewrite <- !dget_is_Some. destruct (decide (k' = k)) as [->|Hne].
  - rewrite dget_dpop_eq. split; [intros [? [=]]|intros [_ ?]; done].
  - rewrite dget_dpop_ne by done. naive_solver.
Qed.

Lemma dpop_NoDup k d : NoDup (dkeys d) → NoDup (dkeys (dpop k d)).
Proof.
  unfold dkeys, dpop. induction d as [|[k' v] d IH]; simpl; [done|]. intros [Hn Hd]%NoDup_cons.
  case_bool_decide; simpl; [|auto]. apply NoDup_cons; split; [|auto].
  intros ([k2 v2] & E & Hin)%list_elem_of_fmap. apply Hn. simpl in E. subst.
  apply list_elem_of_In, filter_In in Hin as [Hin _]. apply list_elem_of_In in Hin.
  change k2 with (k2, v2).1. by apply list_elem_of_fmap_2.
Qed.

Lemma dget_elem k v d : NoDup (dkeys d) → (k, v) ∈ d → dget k d = Some v.
Proof.
  induction d as [|[k' v'] d IH]; simpl; [set_solver|]. intros [Hn Hd]%NoDup_cons Hin.
  apply elem_of_cons in Hin as [[= -> ->]|Hin]; [by rewrite decide_True|].
  rewrite decide_False; [auto|]. intros ->. apply Hn.
  change k' with (k', v).1. by apply list_elem_of_fmap_2.
Qed.
End dict.

(** Mapping the values. *)
Definition dmap {K V V'} (f : V → V') (d : list (K * V)) : list (K * V') := (fun p => (p.1, f p.2)) <$> d.

Lemma dget_dmap `{EqDecision K} {V V'} (f : V → V') (d : list (K * V)) k : dget k (dmap f d) = f <$> dget k d.
Proof. unfold dmap. induction d as [|[k' v] d IH]; simpl; [done|]. by case_decide. Qed.
Lemma dmap_dset `{EqDecision K} {V V'} (f : V → V') (d : list (K * V)) k v :
  dmap f (dset k v d) = dset k (f v) (dmap f d).
Proof. unfold dmap. induction d as [|[k' v'] d IH]; simpl; [done|]. case_decide; simpl; by f_equal. Qed.
Lemma dmap_dpop `{EqDecision K} {V V'} (f : V → V') (d : list (K * V)) k :
  dmap f (dpop k d) = dpop k (dmap f d).
Proof.
  unfold dmap, dpop. induction d as [|[k' v'] d IH]; simpl; [done|]. case_bool_decide; simpl; by f_equal.
Qed.
Lemma dkeys_dmap {K V V'} (f : V → V') (d : list (K * V)) : dkeys (dmap f d) = dkeys d.
Proof. unfold dmap, dkeys. by rewrite <- list_fmap_compose. Qed.
Lemma elem_of_dvals_dset `{EqDecision K} {V} (d : list (K * V)) k v x :
  x ∈ dvals (dset k v d) → x = v ∨ x ∈ dvals d.
Proof.
  unfold dvals. induction d as [|[k' v'] d IH]; simpl; [set_solver|]. case_decide; simpl; set_solver.
Qed.

Lemma dset_fresh `{EqDecision K} {V} (d : list (K * V)) k v : k ∉ dkeys d → dset k v d = d ++ [(k, v)].
Proof.
  unfold dkeys. induction d as [|[k' v'] d IH]; simpl; [done|]. intros [Hk Hd]%not_elem_of_cons.
  rewrite decide_False by done. by rewrite IH.
Qed.
Lemma fold_dset `{EqDecision K} {V} (d acc : list (K * V)) : NoDup (acc.*1 ++ d.*1) →
  fold_left (fun d kv => dset kv.1 kv.2 d) d acc = acc ++ d.
Proof.
  revert acc. induction d as [|[k v] d IH]; intros acc Hnd; simpl; [by rewrite app_nil_r|].
  assert (k ∉ acc.*1) as Hk.
  { apply NoDup_app in Hnd as (_ & H & _). intros Hin. apply (H k Hin). left. }
  rewrite (dset_fresh acc k v Hk).
  rewrite IH; [by rewrite <-app_assoc|]. rewrite fmap_app. simpl. by rewrite <-app_assoc.
Qed.

(** The order of the items does not matter to a lookup. *)
Lemma dget_perm `{EqDecision K} {V} (d d' : list (K * V)) k : NoDup (dkeys d) → d ≡ₚ d' → dget k d = dget k d'.
Proof.
  intros Hnd Hp. assert (NoDup (dkeys d')) as Hnd' by (unfold dkeys in *; by rewrite <- Hp).
  destruct (dget k d) as [v|] eqn:E.
  - symmetry. apply dget_elem; [done|]. rewrite <- Hp. by apply dget_Some_elem.
  - symmetry. apply dget_None. apply dget_None in E. unfold dkeys in *. by rewrite <- Hp.
Qed.

#[export] Hint Rewrite @dget_dset_eq @dget_dpop_eq : deltabox.
#[export] Hint Resolve dkeys_dset_NoDup dpop_NoDup : deltabox.
