(* ===== verification/PyInt.v ===== *)
(** * Decimal numbers round-trip: [int(str(z)) == z] *)

From S2P Require Import Prelude PyStr.
From Stdlib Require Import Ascii.

Lemma srev_app_app s a b : srev_app s (a +:+ b) = srev_app s a +:+ b.
Proof. revert a. induction s as [|c s IH]; intros a; simpl; [done|]. by rewrite <-(IH (String c a)). Qed.
Lemma srev_cons c s : srev (String c s) = srev s +:+ String c "".
Proof. unfold srev. simpl. by rewrite <-srev_app_app. Qed.
Lemma srev_snoc s c : srev (s +:+ String c "") = String c (srev s).
Proof.
  induction s as [|d s IH]; [done|].
  change (String d s +:+ String c "") with (String d (s +:+ String c "")). by rewrite !srev_cons, IH.
Qed.
Lemma srev_involutive s : srev (srev s) = s.
Proof. induction s as [|c s IH]; [done|]. by rewrite srev_cons, srev_snoc, IH. Qed.

Lemma sforall_app p s t : sforall p (s +:+ t) = sforall p s && sforall p t.
Proof. induction s as [|c s IH]; simpl; [done|]. by rewrite IH, andb_assoc. Qed.
Lemma sforall_srev p s : sforall p (srev s) = sforall p s.
Proof.
  induction s as [|c s IH]; [done|]. rewrite srev_cons, sforall_app, IH. simpl. rewrite andb_true_r. apply andb_comm.
Qed.
Lemma lstrip_none p s : sforall (fun c => negb (p c)) s = true → lstrip_by p s = s.
Proof. destruct s as [|c s]; simpl; [done|]. intros [H _]%andb_true_iff. apply negb_true_iff in H. by rewrite H. Qed.
Lemma strip_none s : sforall (fun c => negb (is_space c)) s = true → strip s = s.
Proof.
  intros H. unfold strip, rstrip_by. rewrite (lstrip_none _ s) by done.
  rewrite lstrip_none by (by rewrite sforall_srev). apply srev_involutive.
Qed.

(** ** Digits *)

Lemma digit_val_char x : (x < 10)%N → digit_val (pretty_N_char x) = Some (Z.of_N x).
Proof. intros H. assert (∃ n, x = N.of_nat n ∧ n < 10) as (n & -> & Hn) by (exists (N.to_nat x); lia). do 10 (destruct n; [done|]). lia. Qed.
Lemma is_digit_char x : is_digit (pretty_N_char x) = true.
Proof. unfold pretty_N_char. repeat case_match; done. Qed.
Lemma digit_not_space c : is_digit c = true → is_space c = false.
Proof.
  unfold is_digit, is_space. cbv zeta. intros H. apply not_true_iff_false. intros E.
  rewrite andb_true_iff, !Nat.leb_le in H. rewrite orb_true_iff, !andb_true_iff, !Nat.leb_le in E. lia.
Qed.

Lemma digits_loop_pretty x s : digits_loop 10 (pretty_N_go x s) 0 = digits_loop 10 s (Z.of_N x).
Proof.
  revert s. induction (N.lt_wf_0 x) as [x _ IH]; intros s. destruct (decide (x = 0)%N) as [->|Hx].
  { by rewrite pretty_N_go_0. }
  rewrite pretty_N_go_step by lia. rewrite IH by (apply N.div_lt; lia). simpl.
  rewrite digit_val_char by (apply N.mod_lt; lia).
  assert ((Z.of_N (x `mod` 10) <? 10)%Z = true) as -> by (apply Z.ltb_lt; pose proof (N.mod_lt x 10); lia).
  f_equal. pose proof (N.div_mod x 10). lia.
Qed.
Lemma sforall_pretty p x s : (∀ y, p (pretty_N_char y) = true) → sforall p s = true → sforall p (pretty_N_go x s) = true.
Proof.
  intros Hp. revert s. induction (N.lt_wf_0 x) as [x _ IH]; intros s Hs. destruct (decide (x = 0)%N) as [->|Hx].
  { by rewrite pretty_N_go_0. }
  rewrite pretty_N_go_step by lia. apply IH; [apply N.div_lt; lia|]. simpl. by rewrite Hp.
Qed.

Lemma pretty_N_digits (x : N) : sforall is_digit (pretty x) = true.
Proof. unfold pretty, pretty_N. case_decide; [done|]. apply sforall_pretty; [apply is_digit_char|done]. Qed.
Lemma pretty_N_nonempty (x : N) : pretty x ≠ "".
Proof.
  unfold pretty, pretty_N. case_decide; [done|]. rewrite pretty_N_go_step by lia.
  assert (∀ s y, s ≠ "" → pretty_N_go y s ≠ "") as Hgo; [|by apply Hgo].
  intros s y. revert s. induction (N.lt_wf_0 y) as [y _ IH]; intros s Hs. destruct (decide (y = 0)%N) as [->|Hy].
  - by rewrite pretty_N_go_0.
  - rewrite pretty_N_go_step by lia. apply IH; [apply N.div_lt; lia|done].
Qed.
Lemma parse_uint_pretty (x : N) : parse_uint 10 (pretty x) = Ok (Z.of_N x).
Proof.
  pose proof (pretty_N_nonempty x) as Hne. unfold parse_uint. destruct (pretty x) as [|c s] eqn:E; [done|].
  rewrite <-E. unfold pretty, pretty_N. case_decide as H0; [by subst|]. by rewrite digits_loop_pretty.
Qed.

Lemma sforall_impl p q s : (∀ c, p c = true → q c = true) → sforall p s = true → sforall q s = true.
Proof. intros H. induction s as [|c s IH]; simpl; [done|]. rewrite !andb_true_iff. naive_solver. Qed.
Lemma digits_not_space s : sforall is_digit s = true → sforall (fun c => negb (is_space c)) s = true.
Proof. apply sforall_impl. intros c H. by rewrite digit_not_space. Qed.

(** [int(str(z))] *)
Lemma parse_int_pretty (z : Z) : parse_int (pretty z) = Ok z.
Proof.
  assert (∀ x : N, ∃ c s, pretty x = String c s ∧ is_digit c = true ∧ sforall (fun c => negb (is_space c)) (pretty x) = true) as Hd.
  { intros x. pose proof (pretty_N_digits x) as H. pose proof (digits_not_space _ H). pose proof (pretty_N_nonempty x).
    destruct (pretty x) as [|c s]; [done|]. simpl in H. apply andb_true_iff in H as [? _]. eauto. }
  destruct z as [|p|p].
  - reflexivity.
  - change (pretty (Z.pos p)) with (pretty (N.pos p)). destruct (Hd (N.pos p)) as (c & s & E & Hc & Hs).
    unfold parse_int. rewrite strip_none by done. rewrite E.
    assert (ch_eq c "-" = false ∧ ch_eq c "+" = false) as [-> ->].
    { unfold ch_eq. split; apply bool_decide_eq_false; intros ->; done. }
    rewrite <-E. apply parse_uint_pretty.
  - change (pretty (Z.neg p)) with (String "-" (pretty (N.pos p))). destruct (Hd (N.pos p)) as (c & s & E & Hc & Hs).
    unfold parse_int. rewrite strip_none by (simpl; by rewrite Hs). simpl. unfold mbind, result_bind.
    by rewrite parse_uint_pretty.
Qed.
