(* ===== verification/Json.v ===== *)
(** * Python values read from JSON

    What [json.loads] returns and how the replay tools read it: [dict.get],
    truth, iteration, dictionary keys, conversion to float.  A float is an IEEE
    binary64 number of [SpecFloat]; strings are their UTF-8 bytes. *)

From S2P Require Import Prelude PyStr PyDict.
From Stdlib Require Export SpecFloat.
From Stdlib Require Import Ascii.

Inductive json :=
  | JNull
  | JBool (b : bool)
  | JInt (z : Z)
  | JFloat (f : spec_float)
  | JStr (s : string)
  | JArr (l : list json)
  | JObj (d : list (string * json)).

(** The number of constructors, the fuel of the recursive readers. *)
Fixpoint jsize (j : json) : nat :=
  match j with
  | JArr l => S (sum_list (jsize <$> l))
  | JObj d => S (sum_list ((fun p => jsize p.2) <$> d))
  | _ => 1
  end.

(** ** Truth and access *)

(** [bool(j)] *)
Definition truth (j : json) : bool :=
  match j with
  | JNull => false
  | JBool b => b
  | JInt z => negb (z =? 0)%Z
  | JFloat f => match f with S754_zero _ => false | _ => true end
  | JStr s => negb (bool_decide (s = ""))
  | JArr l => match l with [] => false | _ => true end
  | JObj d => match d with [] => false | _ => true end
  end.

(** [a or b] *)
Definition por (a b : json) : json := if truth a then a else b.

Definition no_attribute {A} : result A := raise AttributeError "object has no attribute".

(** [j.get(k, dflt)] *)
Definition pget_or (j : json) (k : string) (dflt : json) : result json :=
  match j with
  | JObj d => Ok (match dget k d with Some v => v | None => dflt end)
  | _ => no_attribute
  end.
(** [j.get(k)] *)
Definition pget (j : json) (k : string) : result json := pget_or j k JNull.

(** [j[k]] *)
Definition pitem (j : json) (k : string) : result json :=
  match j with
  | JObj d => match dget k d with Some v => Ok v | None => raise KeyError k end
  | _ => raise TypeError "indices must be integers"
  end.

(** The values a [for] loop over [j] takes. *)
Definition piter (j : json) : result (list json) :=
  match j with
  | JArr l => Ok l
  | JObj d => Ok (JStr <$> dkeys d)
  | JStr s => Ok ((fun c => JStr (String c EmptyString)) <$> String.list_ascii_of_string s)
  | _ => raise TypeError "object is not iterable"
  end.

Definition is_dict (j : json) : bool := match j with JObj _ => true | _ => false end.
Definition is_str (j : json) : bool := match j with JStr _ => true | _ => false end.
(** [j == s] for a string [s]. *)
Definition is_string (j : json) (s : string) : bool :=
  match j with JStr t => bool_decide (t = s) | _ => false end.
(** The receiver of a string method. *)
Definition as_str (j : json) : result string := match j with JStr s => Ok s | _ => no_attribute end.

(** ** Dictionary keys

    Floats and booleans equal to an integer share its hash in Python; such keys
    are left out of the model. *)

Inductive key := KNone | KInt (z : Z) | KStr (s : string).
#[global] Instance key_eq_dec : EqDecision key.
Proof. solve_decision. Defined.

Definition hash_key (j : json) : result key :=
  match j with
  | JNull => Ok KNone
  | JInt z => Ok (KInt z)
  | JStr s => Ok (KStr s)
  | JBool _ | JFloat _ => raise OutOfModel "boolean or float key"
  | JArr _ | JObj _ => raise TypeError "unhashable type"
  end.

(** [str(k)] *)
Definition key_text (k : key) : string :=
  match k with KNone => "None" | KInt z => pretty z | KStr s => s end.

(** Strings are ordered by code points, which is the order of their bytes. *)
Fixpoint str_leb (s t : string) : bool :=
  match s, t with
  | EmptyString, _ => true
  | String _ _, EmptyString => false
  | String a s, String b t =>
      match (nat_of_ascii a ?= nat_of_ascii b)%nat with Lt => true | Eq => str_leb s t | Gt => false end
  end.

(** Keys of different types are never compared: see [sort_keys]. *)
Definition key_le (a b : key) : Prop :=
  match a, b with
  | KInt x, KInt y => (x <= y)%Z
  | KStr s, KStr t => str_leb s t = true
  | KNone, _ | KInt _, KStr _ => True
  | _, _ => False
  end.
#[global] Instance key_le_dec a b : Decision (key_le a b).
Proof. destruct a, b; simpl; apply _. Defined.

Lemma str_leb_trans s t u : str_leb s t = true → str_leb t u = true → str_leb s u = true.
Proof.
  revert t u. induction s as [|a s IH]; intros [|b t] [|c u]; simpl; try done.
  destruct (Nat.compare_spec (nat_of_ascii a) (nat_of_ascii b)) as [->|?|?]; try done;
    destruct (Nat.compare_spec (nat_of_ascii b) (nat_of_ascii c)) as [E|?|?]; try done;
    intros H1 H2; destruct (Nat.compare_spec (nat_of_ascii a) (nat_of_ascii c)); try done;
    destruct (Nat.compare_spec (nat_of_ascii b) (nat_of_ascii c)); try done; try lia; eauto.
Qed.
Lemma str_leb_total s t : str_leb s t = true ∨ str_leb t s = true.
Proof.
  revert t. induction s as [|a s IH]; intros [|b t]; simpl; auto.
  destruct (Nat.compare_spec (nat_of_ascii a) (nat_of_ascii b)) as [->|?|?]; auto.
  - rewrite Nat.compare_refl. apply IH.
  - right. by rewrite (proj2 (Nat.compare_lt_iff _ _)).
Qed.
Lemma str_leb_antisym s t : str_leb s t = true → str_leb t s = true → s = t.
Proof.
  revert t. induction s as [|a s IH]; intros [|b t]; simpl; try done.
  destruct (Nat.compare_spec (nat_of_ascii a) (nat_of_ascii b)) as [E|?|?]; try done.
  - rewrite E, Nat.compare_refl. intros H1 H2. f_equal; [|by apply IH].
    by rewrite <- (ascii_nat_embedding a), <- (ascii_nat_embedding b), E.
  - by rewrite (proj2 (Nat.compare_gt_iff _ _)).
Qed.
#[global] Instance key_le_trans : Transitive key_le.
Proof. intros [|x|s] [|y|t] [|z|u]; simpl; try done; [lia|apply str_leb_trans]. Qed.
#[global] Instance key_le_total : Total key_le.
Proof. intros [|x|s] [|y|t]; simpl; auto; [lia|apply str_leb_total]. Qed.

(** [sorted(keys)] raises on a mixture of types. *)
Definition same_sort (a b : key) : bool :=
  match a, b with KInt _, KInt _ | KStr _, KStr _ => true | _, _ => false end.
Definition sort_keys (l : list key) : result (list key) :=
  match l with
  | [] | [_] => Ok l
  | k :: rest => if forallb (same_sort k) l then Ok (merge_sort key_le l)
                 else raise TypeError "'<' not supported between instances"
  end.

(** ** Floats *)

Definition prec : Z := 53.
Definition emax : Z := 1024.
Notation fadd := (SFadd prec emax).
Notation fsub := (SFsub prec emax).
Notation fmul := (SFmul prec emax).
Notation fdiv := (SFdiv prec emax).
Notation fsqrt := (SFsqrt prec emax).
(** The nearest float of [m * 2^e]. *)
Definition fround (m e : Z) : spec_float := binary_normalize prec emax m e false.
(** [float(z)] *)
Definition int_to_float (z : Z) : result spec_float :=
  match fround z 0 with
  | S754_infinity _ => raise OverflowError "int too large to convert to float"
  | f => Ok f
  end.
Definition isfinite (f : spec_float) : bool :=
  match f with S754_zero _ | S754_finite _ _ _ => true | _ => false end.
Definition fzero : spec_float := S754_zero false.
Definition fneg (f : spec_float) : bool := SFltb f fzero.

(** [float(j)]; parsing a string is left out. *)
Definition to_float (j : json) : result spec_float :=
  match j with
  | JFloat f => Ok f
  | JInt z => int_to_float z
  | JBool b => int_to_float (if b then 1 else 0)
  | JStr _ => raise OutOfModel "float of a string"
  | _ => raise TypeError "float() argument must be a string or a real number"
  end.

(** The value a finite float stands for, as [m * 2^e]. *)
Definition dyadic (f : spec_float) : Z * Z :=
  match f with S754_finite s m e => (if s then Zneg m else Zpos m, e) | _ => (0, 0)%Z end.
Definition dyadic_add (a b : Z * Z) : Z * Z :=
  let e := Z.min a.2 b.2 in (Z.shiftl a.1 (a.2 - e) + Z.shiftl b.1 (b.2 - e), e)%Z.
(** [statistics.fmean] of finite floats: the exact sum, rounded once, divided. *)
Definition fmean (l : list spec_float) : result spec_float :=
  let '(m, e) := foldr (fun f acc => dyadic_add (dyadic f) acc) (0, 0)%Z l in
  match fround m e with
  | S754_infinity _ => raise OverflowError "intermediate overflow in fsum"
  | total => n ← int_to_float (Z.of_nat (length l)); Ok (fdiv total n)
  end.

(** [int(f)] rounds toward zero. *)
Definition float_to_int (f : spec_float) : result Z :=
  match f with
  | S754_zero _ => Ok 0%Z
  | S754_finite s m e => Ok (let n := if (0 <=? e)%Z then Z.shiftl (Zpos m) e else Z.shiftr (Zpos m) (- e) in if s then - n else n)%Z
  | S754_infinity _ => raise OverflowError "cannot convert float infinity to integer"
  | S754_nan => raise ValueError "cannot convert float NaN to integer"
  end.
(** [int(j)] *)
Definition to_int (j : json) : result Z :=
  match j with
  | JInt z => Ok z
  | JBool b => Ok (if b then 1 else 0)%Z
  | JStr s => parse_int s
  | JFloat f => float_to_int f
  | JNull | JArr _ | JObj _ => raise TypeError "int() argument must be a string or a real number"
  end.

(** ** Lemmas *)

Lemma jsize_pos j : 1 <= jsize j.
Proof. destruct j; simpl; lia. Qed.

Lemma sum_list_elem (l : list nat) n : n ∈ l → n <= sum_list l.
Proof. induction 1; simpl; lia. Qed.

Lemma jsize_dget k d v : dget k d = Some v → jsize v < jsize (JObj d).
Proof.
  intros H%dget_Some_elem. simpl. unfold lt. apply le_n_S, sum_list_elem.
  apply list_elem_of_fmap. by exists (k, v).
Qed.

Lemma jsize_arr x l : x ∈ l → jsize x < jsize (JArr l).
Proof. intros H. simpl. apply le_n_S, sum_list_elem. apply list_elem_of_fmap. by exists x. Qed.

Lemma pget_ok j k v : pget j k = Ok v → ∃ d, j = JObj d.
Proof. unfold pget, pget_or. destruct j; try done. eauto. Qed.

(** What [j.get(k) or []] iterates over is smaller than [j]. *)
Lemma piter_children j k l x :
  (v ← pget_or j k (JArr []); piter (por v (JArr []))) = Ok l → x ∈ l → jsize x < jsize j.
Proof.
  unfold pget_or, mbind, result_bind, por. destruct j as [| | | | | |d]; try done.
  destruct (dget k d) as [v|] eqn:E; simpl.
  2: { intros [= <-] H. by apply elem_of_nil in H. }
  apply jsize_dget in E. pose proof (jsize_pos v).
  destruct (truth v) eqn:Ht; [|intros [= <-] H'; by apply elem_of_nil in H'].
  destruct v as [| | | |s|a|o]; simpl; try done; intros [= <-] Hx.
  - apply list_elem_of_fmap in Hx as (c & -> & _). simpl in *. lia.
  - apply jsize_arr in Hx. simpl in *. lia.
  - apply list_elem_of_fmap in Hx as (c & -> & _). simpl in *. lia.
Qed.

Lemma sort_keys_ok l out : sort_keys l = Ok out → out ≡ₚ l ∧ StronglySorted key_le out.
Proof.
  unfold sort_keys. destruct l as [|a [|b l]].
  - intros [= <-]. split; [done|constructor].
  - intros [= <-]. split; [done|]. repeat constructor.
  - destruct (forallb _ _); [|done]. intros [= <-]. split; [apply merge_sort_Permutation|].
    apply (StronglySorted_merge_sort key_le).
Qed.

Lemma hash_key_ok j k : hash_key j = Ok k →
  j = match k with KNone => JNull | KInt z => JInt z | KStr s => JStr s end.
Proof. destruct j; simpl; intros [= <-]; done. Qed.

(** ** Reading JSON takes no fuel *)

Lemma fuelled_pget_or j k d : fuelled (pget_or j k d).
Proof. by destruct j. Qed.
Lemma fuelled_pget j k : fuelled (pget j k).
Proof. apply fuelled_pget_or. Qed.
Lemma fuelled_pitem j k : fuelled (pitem j k).
Proof. destruct j; simpl; try done. by destruct (dget k d). Qed.
Lemma fuelled_piter j : fuelled (piter j).
Proof. by destruct j. Qed.
Lemma fuelled_hash_key j : fuelled (hash_key j).
Proof. by destruct j. Qed.
Lemma fuelled_as_str j : fuelled (as_str j).
Proof. by destruct j. Qed.
#[export] Hint Resolve fuelled_pget_or fuelled_pget fuelled_pitem fuelled_piter fuelled_hash_key fuelled_as_str : deltabox.
Ltac fuelled_auto :=
  repeat match goal with
  | |- fuelled (_ ≫= _) => apply fuelled_bind; [|intros ? ?]
  | |- fuelled (mapM _ _) => apply fuelled_mapM; intros ? ?
  | |- fuelled (Ok _) => exact I
  | |- fuelled (raise _ _) => apply fuelled_raise; discriminate
  | |- fuelled (if ?b then _ else _) => destruct b
  | |- fuelled (match ?x with _ => _ end) => destruct x
  | |- fuelled _ => solve [auto with deltabox nocore]
  end.
