(* ===== verification/JsonText.v ===== *)
(** * JSON text: [json.dumps] and [json.loads]

    The subset the control channels use: ASCII strings, and floats when they are
    read.  Text outside of it (a [\u] escape above 127) is [OutOfModel].  A text that
    is not JSON raises [JSONDecodeError], a [ValueError].  Printing followed by
    parsing gives the value back ([loads_dumps]). *)

From S2P Require Import Prelude PyStr PyDict PyInt Json.
From Stdlib Require Import Ascii.

(** ** Printing *)

Definition quote_char : ascii := PyStr.chr 34.
Definition hex_char (n : nat) : ascii := if (n <? 10)%nat then PyStr.chr (48 + n) else PyStr.chr (87 + n).

(** The escapes of [ensure_ascii]: everything but space to tilde. *)
Definition escape (c : ascii) : string :=
  let n := nat_of_ascii c in
  if ch_eq c quote_char then String "\" (String quote_char "")
  else if ch_eq c "\" then "\\"
  else if (n =? 8)%nat then "\b" else if (n =? 9)%nat then "\t" else if (n =? 10)%nat then "\n"
  else if (n =? 12)%nat then "\f" else if (n =? 13)%nat then "\r"
  else if (32 <=? n)%nat && (n <=? 126)%nat then String c ""
  else "\u00" +:+ String (hex_char (n / 16)) (String (hex_char (n mod 16)) "").
Fixpoint escapes (s : string) : string :=
  match s with EmptyString => "" | String c s => escape c +:+ escapes s end.
Definition quote (s : string) : string := String quote_char (escapes s +:+ String quote_char "").

Fixpoint dumps (j : json) : string :=
  match j with
  | JNull => "null"
  | JBool b => if b then "true" else "false"
  | JInt z => pretty z
  | JFloat _ => "NaN"                      (* outside the model *)
  | JStr s => quote s
  | JArr l => "[" +:+ join ", " (dumps <$> l) +:+ "]"
  | JObj d => "{" +:+ join ", " ((fun p => quote p.1 +:+ ": " +:+ dumps p.2) <$> d) +:+ "}"
  end.

(** ** Parsing *)

Definition decode_error {A} : result A := raise ValueError "JSONDecodeError".
Definition out_of_model {A} : result A := raise OutOfModel "JSON text".

Definition json_space (c : ascii) : bool :=
  let n := nat_of_ascii c in (n =? 32)%nat || (n =? 9)%nat || (n =? 10)%nat || (n =? 13)%nat.
Definition skip_ws (s : string) : string := lstrip_by json_space s.

Definition unescape (c : ascii) : option ascii :=
  if ch_eq c quote_char then Some quote_char else if ch_eq c "\" then Some "\"%char else if ch_eq c "/" then Some "/"%char
  else if ch_eq c "b" then Some (PyStr.chr 8) else if ch_eq c "t" then Some (PyStr.chr 9) else if ch_eq c "n" then Some (PyStr.chr 10)
  else if ch_eq c "f" then Some (PyStr.chr 12) else if ch_eq c "r" then Some (PyStr.chr 13) else None.
Definition hex_val (c : ascii) : option Z :=
  match digit_val c with Some v => if (v <? 16)%Z then Some v else None | None => None end.

(** The rest of a string after its opening quote. *)
Fixpoint parse_chars (s acc : string) : result (string * string) :=
  match s with
  | EmptyString => decode_error
  | String c s =>
      if ch_eq c quote_char then Ok (srev acc, s)
      else if ch_eq c "\" then
        match s with
        | String "u" (String a (String b (String x (String y s)))) =>
            match hex_val a, hex_val b, hex_val x, hex_val y with
            | Some a, Some b, Some x, Some y =>
                if (a =? 0)%Z && (b =? 0)%Z && (x <? 8)%Z
                then parse_chars s (String (PyStr.chr (Z.to_nat (16 * x + y))) acc) else out_of_model
            | _, _, _, _ => decode_error
            end
        | String e s => match unescape e with Some d => parse_chars s (String d acc) | None => decode_error end
        | EmptyString => decode_error
        end
      else if (nat_of_ascii c <? 32)%nat then decode_error
      else parse_chars s (String c acc)
  end.

Fixpoint span_digits (s : string) : string * string :=
  match s with
  | String c s' => if is_digit c then let '(a, b) := span_digits s' in (String c a, b) else (EmptyString, s)
  | EmptyString => (EmptyString, EmptyString)
  end.
(** The fraction and the exponent of a number, when it has one of them. *)
Definition fraction (s : string) : string * string :=
  match s with
  | String c t => if ch_eq c "." then let '(f, r) := span_digits t in if bool_decide (f = "") then (EmptyString, s) else (f, r)
                  else (EmptyString, s)
  | EmptyString => (EmptyString, s)
  end.
Definition exponent (s : string) : option (Z * string) :=
  match s with
  | String c t =>
      if ch_eq c "e" || ch_eq c "E" then
        let '(neg, t) := match t with
                         | String c t' => if ch_eq c "-" then (true, t') else if ch_eq c "+" then (false, t') else (false, t)
                         | EmptyString => (false, t)
                         end in
        let '(es, r) := span_digits t in
        match parse_uint 10 es with Ok z => Some (if (neg : bool) then (- z)%Z else z, r) | Err _ => None end
      else None
  | EmptyString => None
  end.
(** The float nearest to [m * 10^e]; the quotient keeps a sticky bit. *)
Definition decimal (neg : bool) (m e : Z) : spec_float :=
  if (m =? 0)%Z then S754_zero neg else
  let f := if (0 <=? e)%Z then fround (m * 10 ^ e) 0
           else let d := (10 ^ (- e))%Z in
                let k := Z.max 0 (Z.log2 d - Z.log2 m + 66) in
                let n := Z.shiftl m k in
                fround (2 * (n / d) + (if (n mod d =? 0)%Z then 0 else 1)) (- k - 1) in
  if neg then SFopp f else f.
(** A number may not have a leading zero. *)
Definition parse_number (neg : bool) (s : string) : result (json * string) :=
  let '(ds, rest) := span_digits s in
  match ds with
  | EmptyString => decode_error
  | String d ds' =>
      if ch_eq d "0" && negb (bool_decide (ds' = "")) then decode_error
      else
        let '(fr, r) := fraction rest in
        match exponent r with
        | Some (e, r) => m ← parse_uint 10 (ds +:+ fr); Ok (JFloat (decimal neg m (e - Z.of_nat (String.length fr))), r)
        | None =>
            m ← parse_uint 10 (ds +:+ fr);
            if bool_decide (fr = "") then Ok (JInt (if neg then (- m)%Z else m), rest)
            else Ok (JFloat (decimal neg m (- Z.of_nat (String.length fr))), r)
        end
  end.

Definition literal (s lit : string) (j : json) (other : result (json * string)) : result (json * string) :=
  if startswith s lit then Ok (j, sdrop (String.length lit) s) else other.

(** Recursive descent; every call takes one unit of [fuel] and the text is long
    enough to pay for all of them. *)
Fixpoint parse_value (fuel : nat) (s : string) : result (json * string) :=
  match fuel with
  | O => out_of_model
  | S fuel =>
      match s with
      | EmptyString => decode_error
      | String c s' =>
          if ch_eq c quote_char then p ← parse_chars s' ""; Ok (JStr p.1, p.2)
          else if ch_eq c "[" then
            match skip_ws s' with
            | String "]" rest => Ok (JArr [], rest)
            | s => p ← parse_items fuel s; Ok (JArr p.1, p.2)
            end
          else if ch_eq c "{" then
            match skip_ws s' with
            | String "}" rest => Ok (JObj [], rest)
            | s => p ← parse_fields fuel s; Ok (JObj (fold_left (fun d kv => dset kv.1 kv.2 d) p.1 []), p.2)
            end
          else if ch_eq c "-" then literal s "-Infinity" (JFloat (S754_infinity true)) (parse_number true s')
          else if is_digit c then parse_number false s
          else literal s "null" JNull (literal s "true" (JBool true) (literal s "false" (JBool false)
                 (literal s "NaN" (JFloat S754_nan) (literal s "Infinity" (JFloat (S754_infinity false)) decode_error))))
      end
  end
with parse_items (fuel : nat) (s : string) : result (list json * string) :=
  match fuel with
  | O => out_of_model
  | S fuel =>
      p ← parse_value fuel s;
      match skip_ws p.2 with
      | String "," rest => q ← parse_items fuel (skip_ws rest); Ok (p.1 :: q.1, q.2)
      | String "]" rest => Ok ([p.1], rest)
      | _ => decode_error
      end
  end
with parse_fields (fuel : nat) (s : string) : result (list (string * json) * string) :=
  match fuel with
  | O => out_of_model
  | S fuel =>
      match s with
      | String c s =>
          if negb (ch_eq c quote_char) then decode_error else
          k ← parse_chars s "";
          match skip_ws k.2 with
          | String ":" rest =>
              p ← parse_value fuel (skip_ws rest);
              match skip_ws p.2 with
              | String "," rest => q ← parse_fields fuel (skip_ws rest); Ok ((k.1, p.1) :: q.1, q.2)
              | String "}" rest => Ok ([(k.1, p.1)], rest)
              | _ => decode_error
              end
          | _ => decode_error
          end
      | EmptyString => decode_error
      end
  end.

Definition loads (s : string) : result json :=
  p ← parse_value (2 * String.length s + 1) (skip_ws s);
  if bool_decide (skip_ws p.2 = "") then Ok p.1 else decode_error.

Example loads_command : loads (dumps (JObj [("op", JStr "fork"); ("fixed_active_pid", JInt 100); ("l", JArr [JBool true; JNull])]) +:+ String (PyStr.chr 10) "")
  = Ok (JObj [("op", JStr "fork"); ("fixed_active_pid", JInt 100); ("l", JArr [JBool true; JNull])]).
Proof. reflexivity. Qed.

Example loads_floats : loads "[0.1, -2.5e3, 1E-7, 1.5]" = Ok (JArr [JFloat (S754_finite false 7205759403792794 (-56));
  JFloat (S754_finite true 5497558138880000 (-41)); JFloat (S754_finite false 7555786372591432 (-76)); JFloat (S754_finite false 6755399441055744 (-52))]).
Proof. vm_compute. reflexivity. Qed.

(** ** Round trip *)

Definition is_ascii (s : string) : bool := sforall (fun c => (nat_of_ascii c <? 128)%nat) s.
(** The values of the model: no floats, ASCII strings, distinct keys. *)
Fixpoint plain (j : json) : bool :=
  match j with
  | JFloat _ => false
  | JStr s => is_ascii s
  | JArr l => forallb plain l
  | JObj d => bool_decide (NoDup (d.*1)) && forallb (fun p => is_ascii p.1 && plain p.2) d
  | _ => true
  end.

Lemma parse_escape c s acc : (nat_of_ascii c <? 128)%nat = true →
  parse_chars (escape c +:+ s) acc = parse_chars s (String c acc).
Proof. destruct c as [[] [] [] [] [] [] [] []]; intros H; first [done | reflexivity]. Qed.

Lemma parse_escapes s rest acc : is_ascii s = true →
  parse_chars (escapes s +:+ String quote_char rest) acc = Ok (srev (srev_app s acc), rest).
Proof.
  revert acc. induction s as [|c s IH]; intros acc; [done|].
  unfold is_ascii. cbn [sforall]. intros [Hc Hs]%andb_true_iff.
  change (escapes (String c s)) with (escape c +:+ escapes s). rewrite string_app_assoc, parse_escape by done. by apply IH.
Qed.
Lemma parse_quoted s rest : is_ascii s = true →
  parse_chars (escapes s +:+ String quote_char rest) "" = Ok (s, rest).
Proof. intros H. rewrite parse_escapes by done. f_equal. f_equal. apply srev_involutive. Qed.

(** What may follow a value: a digit or a fraction would be read as part of a
    number. *)
Definition ends_number (s : string) : bool :=
  match s with
  | String c _ => negb (is_digit c || ch_eq c "." || ch_eq c "e" || ch_eq c "E")
  | EmptyString => true
  end.
Lemma span_digits_app ds rest : sforall is_digit ds = true → ends_number rest = true →
  span_digits (ds +:+ rest) = (ds, rest).
Proof.
  intros Hd Hr. induction ds as [|c ds IH].
  - destruct rest as [|c rest]; [done|]. simpl in *. by destruct (is_digit c).
  - simpl in Hd. apply andb_true_iff in Hd as [Hc Hd]. change (String c ds +:+ rest) with (String c (ds +:+ rest)).
    simpl. by rewrite Hc, IH.
Qed.

Lemma pretty_N_head (x : N) : (x ≠ 0)%N → ∃ c s, pretty x = String c s ∧ ch_eq c "0" = false ∧ is_digit c = true.
Proof.
  intros Hx. assert (∀ y s, (y ≠ 0)%N → ∃ c t, pretty_N_go y s = String c t ∧ ch_eq c "0" = false ∧ is_digit c = true) as Hgo.
  { intros y. induction (N.lt_wf_0 y) as [y _ IH]; intros s Hy. rewrite pretty_N_go_step by lia.
    destruct (decide (y `div` 10 = 0)%N) as [E|E].
    - rewrite E, pretty_N_go_0. apply N.div_small_iff in E; [|lia]. rewrite N.mod_small by lia.
      do 2 eexists. split; [done|]. assert (∃ n, y = N.of_nat n ∧ n < 10) as (n & -> & Hn) by (exists (N.to_nat y); lia).
      do 10 (destruct n; [done|]). lia.
    - apply IH; [apply N.div_lt; lia|done]. }
  unfold pretty, pretty_N. rewrite decide_False by done. by apply Hgo.
Qed.

Lemma parse_number_pretty neg (x : N) rest : ends_number rest = true →
  parse_number neg (pretty x +:+ rest) = Ok (JInt (if neg then - Z.of_N x else Z.of_N x)%Z, rest).
Proof.
  intros Hr. unfold parse_number. rewrite span_digits_app by (try apply pretty_N_digits; done).
  assert (fraction rest = (EmptyString, rest) ∧ exponent rest = None) as [Hfr Hex].
  { destruct rest as [|d rest]; [done|]. simpl in Hr. apply negb_true_iff in Hr. rewrite !orb_false_iff in Hr.
    destruct Hr as [[[_ H1] H2] H3]. unfold fraction, exponent. by rewrite H1, H2, H3. }
  assert (parse_uint 10 (pretty x) = Ok (Z.of_N x)) as Hp by apply parse_uint_pretty.
  assert (∃ c s, pretty x = String c s ∧ ch_eq c "0" && negb (bool_decide (s = "")) = false) as (c & s & E & H0).
  { destruct (decide (x = 0)%N) as [->|Hx]; [by eexists _, _|].
    destruct (pretty_N_head x Hx) as (c & s & E & H & _). exists c, s. by rewrite H. }
  rewrite E in *. by rewrite H0, Hfr, Hex, string_app_nil_r, Hp.
Qed.

Lemma dumps_head j : plain j = true → ∃ c s, dumps j = String c s ∧ json_space c = false.
Proof.
  destruct j as [|[]|z| |s|l|d]; simpl; try done; intros _; try by do 2 eexists.
  destruct z as [|p|p]; [by do 2 eexists| |by do 2 eexists].
  change (pretty (Z.pos p)) with (pretty (N.pos p)). destruct (pretty_N_head (N.pos p)) as (c & s & -> & _ & Hc); [done|].
  do 2 eexists. split; [done|]. unfold is_digit in Hc. rewrite andb_true_iff, !Nat.leb_le in Hc. unfold json_space. cbv zeta.
  rewrite !orb_false_iff, !Nat.eqb_neq. lia.
Qed.
Lemma skip_ws_dumps j rest : plain j = true → skip_ws (dumps j +:+ rest) = dumps j +:+ rest.
Proof.
  intros H. destruct (dumps_head j H) as (c & s & -> & Hc). change (String c s +:+ rest) with (String c (s +:+ rest)).
  unfold skip_ws. simpl. by rewrite Hc.
Qed.

(** The text of the elements of an array, and of the fields of an object. *)
Abbreviation items l := (join ", " (dumps <$> l)).
Abbreviation field p := (quote p.1 +:+ ": " +:+ dumps p.2).
Abbreviation fields d := (join ", " ((fun p => field p) <$> d)).

Lemma join_cons2 sep a b l : join sep (a :: b :: l) = a +:+ sep +:+ join sep (b :: l).
Proof. done. Qed.

Section parse.
Context (n : nat).
Hypothesis parses : ∀ fuel j rest, jsize j <= n → plain j = true → ends_number rest = true → 2 * jsize j - 1 <= fuel →
  parse_value fuel (dumps j +:+ rest) = Ok (j, rest).

Lemma parse_items_ok l fuel rest : l ≠ [] → sum_list (jsize <$> l) <= n → forallb plain l = true →
  2 * sum_list (jsize <$> l) <= fuel → parse_items fuel (items l +:+ String "]" rest) = Ok (l, rest).
Proof.
  revert fuel. induction l as [|x l IH]; [done|]. intros fuel _ Hn Hp Hf. simpl in Hn, Hp, Hf.
  apply andb_true_iff in Hp as [Hx Hl]. pose proof (jsize_pos x) as Hpos. destruct fuel as [|fuel]; [lia|].
  destruct l as [|y l].
  - cbn [fmap list_fmap join parse_items]. rewrite (parses fuel x) by (simpl in *; first [done|lia]). done.
  - change (dumps <$> (x :: y :: l)) with (dumps x :: dumps y :: (dumps <$> l)). rewrite join_cons2, !string_app_assoc.
    cbn [parse_items]. rewrite (parses fuel x) by (simpl in *; first [done|lia]). cbn [mbind result_bind fst snd].
    change (skip_ws (", " +:+ ?t)) with (", " +:+ t). cbv beta iota.
    change (", " +:+ ?t) with (String "," (String " " t)). cbv beta iota.
    change (skip_ws (String " " ?t)) with (skip_ws t).
    assert (∃ t, items (y :: l) = dumps y +:+ t) as [t Ht].
    { destruct l as [|z l]; [exists ""; symmetry; apply string_app_nil_r|]. by eexists. }
    change (dumps y :: (dumps <$> l)) with (dumps <$> (y :: l)). rewrite Ht, string_app_assoc, skip_ws_dumps, <-string_app_assoc, <-Ht
      by (simpl in Hl; by apply andb_true_iff in Hl as [? _]).
    rewrite IH by (first [done|simpl in *; lia]). done.
Qed.

Lemma parse_fields_ok d fuel rest : d ≠ [] → sum_list ((fun p => jsize p.2) <$> d) <= n →
  forallb (fun p => is_ascii p.1 && plain p.2) d = true → 2 * sum_list ((fun p => jsize p.2) <$> d) <= fuel →
  parse_fields fuel (fields d +:+ String "}" rest) = Ok (d, rest).
Proof.
  revert fuel. induction d as [|[k x] d IH]; [done|]. intros fuel _ Hn Hp Hf. simpl in Hn, Hp, Hf.
  apply andb_true_iff in Hp as [[Hk Hx]%andb_true_iff Hl]. pose proof (jsize_pos x) as Hpos. destruct fuel as [|fuel]; [lia|].
  assert (∀ t, ends_number t = true → skip_ws t = t → parse_fields (S fuel) (field (k, x) +:+ t) =
    match t with
    | String "," rest => q ← parse_fields fuel (skip_ws rest); Ok ((k, x) :: q.1, q.2)
    | String "}" rest => Ok ([(k, x)], rest)
    | _ => decode_error
    end) as Hfield.
  { intros t Ht Hw. rewrite !string_app_assoc. unfold quote. change (String quote_char ?a +:+ ?b) with (String quote_char (a +:+ b)).
    rewrite string_app_assoc. cbn [parse_fields]. change (ch_eq quote_char quote_char) with true. cbn [negb].
    change (String quote_char "" +:+ ?b) with (String quote_char b). rewrite parse_quoted by done. cbn [mbind result_bind fst snd].
    change (": " +:+ ?t) with (String ":" (String " " t)).
    change (skip_ws (String ":" ?t)) with (String ":" t). cbv beta iota. change (skip_ws (String " " ?t)) with (skip_ws t).
    rewrite skip_ws_dumps, (parses fuel x) by (first [done|lia]). cbn [mbind result_bind fst snd]. by rewrite Hw. }
  destruct d as [|[k' y] d].
  - cbn [fmap list_fmap join]. by rewrite Hfield.
  - change ((λ p : string * json, field p) <$> ((k, x) :: (k', y) :: d)) with (field (k, x) :: field (k', y) :: ((λ p : string * json, field p) <$> d)).
    rewrite join_cons2, (string_app_assoc (field (k, x))), Hfield by done. rewrite string_app_assoc.
    change (", " +:+ ?t) with (String "," (String " " t)). cbv beta iota.
    change (skip_ws (String " " ?t)) with (skip_ws t).
    change (field (k', y) :: ((λ p : string * json, field p) <$> d)) with ((λ p : string * json, field p) <$> ((k', y) :: d)).
    assert (∃ t, fields ((k', y) :: d) = String quote_char t) as [t Ht] by (destruct d; by eexists).
    assert (skip_ws (fields ((k', y) :: d) +:+ String "}" rest) = fields ((k', y) :: d) +:+ String "}" rest) as -> by (by rewrite Ht).
    rewrite IH by (first [done|simpl in *; lia]). done.
Qed.
End parse.

Lemma literal_ok lit rest j other : literal (lit +:+ rest) lit j other = Ok (j, rest).
Proof. unfold literal. by rewrite startswith_app, sdrop_app. Qed.

(** The first character of a value other than an array's or an object's end. *)
Lemma dumps_no_close j : plain j = true → ∃ c s, dumps j = String c s ∧ json_space c = false ∧ c ≠ "]"%char.
Proof.
  intros H. destruct (dumps_head j H) as (c & s & E & Hc). exists c, s. split_and!; [done|done|]. intros ->.
  destruct j as [|[]|[|p|p]| |s'|l|d]; try done. change (pretty (N.pos p) = String "]" s) in E.
  destruct (pretty_N_head (N.pos p)) as (c' & s' & E' & _ & Hd); [done|]. rewrite E' in E. injection E as -> _. done.
Qed.
Lemma parse_array fuel s : (∀ rest, skip_ws s ≠ String "]" rest) →
  parse_value (S fuel) (String "[" s) = (p ← parse_items fuel (skip_ws s); Ok (JArr p.1, p.2)).
Proof.
  intros H. cbn [parse_value]. change (ch_eq "[" quote_char) with false. change (ch_eq "["%char "["%char) with true.
  cbv beta iota. destruct (skip_ws s) as [|c t]; [done|]. specialize (H t).
  destruct c as [[] [] [] [] [] [] [] []]; done.
Qed.
Lemma parse_object fuel s : (∀ rest, skip_ws s ≠ String "}" rest) →
  parse_value (S fuel) (String "{" s) =
    (p ← parse_fields fuel (skip_ws s); Ok (JObj (fold_left (fun d kv => dset kv.1 kv.2 d) p.1 []), p.2)).
Proof.
  intros H. cbn [parse_value]. change (ch_eq "{" quote_char) with false. change (ch_eq "{"%char "["%char) with false.
  change (ch_eq "{"%char "{"%char) with true.
  cbv beta iota. destruct (skip_ws s) as [|c t]; [done|]. specialize (H t).
  destruct c as [[] [] [] [] [] [] [] []]; done.
Qed.

Lemma parse_dumps n fuel j rest : jsize j <= n → plain j = true → ends_number rest = true → 2 * jsize j - 1 <= fuel →
  parse_value fuel (dumps j +:+ rest) = Ok (j, rest).
Proof.
  revert fuel j rest. induction n as [|n IH]; intros fuel j rest Hn Hp Hr Hf.
  { pose proof (jsize_pos j). lia. }
  destruct fuel as [|fuel]; [pose proof (jsize_pos j); lia|].
  destruct j as [|b|z| |s|l|d]; try done; cbn [plain] in Hp.
  - exact (literal_ok "null" rest JNull _).
  - destruct b; [exact (literal_ok "true" rest (JBool true) _)|exact (literal_ok "false" rest (JBool false) _)].
  - assert (∀ x neg, parse_number neg (pretty (N.pos x) +:+ rest) = Ok (JInt (if neg then Z.neg x else Z.pos x), rest)) as Hx
      by (intros x neg; by rewrite parse_number_pretty).
    destruct z as [|p|p].
    + pose proof (parse_number_pretty false 0 rest Hr) as H0. change (pretty 0%N +:+ rest) with (String "0" rest) in H0.
      change (dumps (JInt 0) +:+ rest) with (String "0" rest). cbn [parse_value].
      change (ch_eq "0" ?c) with false. change (is_digit "0") with true. cbv beta iota. by rewrite H0.
    + change (dumps (JInt (Z.pos p))) with (pretty (N.pos p)). specialize (Hx p false).
      destruct (pretty_N_head (N.pos p)) as (c & s & E & _ & Hc); [done|]. rewrite E in *.
      change (String c s +:+ rest) with (String c (s +:+ rest)) in *. cbn [parse_value].
      assert (ch_eq c quote_char = false ∧ ch_eq c "[" = false ∧ ch_eq c "{" = false ∧ ch_eq c "-" = false) as (-> & -> & -> & ->).
      { unfold ch_eq. rewrite !bool_decide_eq_false. split_and!; by intros ->. }
      by rewrite Hc, Hx.
    + change (dumps (JInt (Z.neg p)) +:+ rest) with (String "-" (pretty (N.pos p) +:+ rest)).
      change (parse_value (S fuel) (String "-" ?t)) with
        (literal (String "-" t) "-Infinity" (JFloat (S754_infinity true)) (parse_number true t)).
      unfold literal. assert (startswith (String "-" (pretty (N.pos p) +:+ rest)) "-Infinity" = false) as ->; [|by rewrite Hx].
      destruct (pretty_N_head (N.pos p)) as (c & s & -> & _ & Hc); [done|]. unfold startswith.
      change (String.prefix "-Infinity" (String "-" (String c s +:+ rest))) with (String.prefix "Infinity" (String c (s +:+ rest))).
      cbn [String.prefix]. destruct (Ascii.ascii_dec "I" c) as [<-|]; [by vm_compute in Hc|done].
  - change (dumps (JStr s) +:+ rest) with (String quote_char ((escapes s +:+ String quote_char "") +:+ rest)).
    rewrite string_app_assoc. change (String quote_char "" +:+ rest) with (String quote_char rest).
    change (parse_value (S fuel) (String quote_char ?t)) with (q ← parse_chars t ""; Ok (JStr q.1, q.2)). by rewrite parse_quoted.
  - destruct l as [|x l]; [done|]. change (dumps (JArr ?l) +:+ rest) with (String "[" ((items l +:+ "]") +:+ rest)).
    rewrite string_app_assoc. change ("]" +:+ rest) with (String "]" rest).
    assert (∃ c t, items (x :: l) = String c t ∧ json_space c = false ∧ c ≠ "]"%char) as (c & t & E & Hc & Hb).
    { simpl in Hp. apply andb_true_iff in Hp as [Hx _]. destruct (dumps_no_close x Hx) as (c & t & E & ? & ?).
      destruct l as [|y l]; [by exists c, t|]. exists c. eexists. split; [|done].
      change (dumps <$> (x :: y :: l)) with (dumps x :: dumps y :: (dumps <$> l)). rewrite join_cons2, E. done. }
    assert (skip_ws (items (x :: l) +:+ String "]" rest) = items (x :: l) +:+ String "]" rest) as Hw.
    { rewrite E. change (String c t +:+ ?r) with (String c (t +:+ r)). unfold skip_ws. simpl. by rewrite Hc. }
    rewrite parse_array, Hw; [|rewrite Hw, E; intros r [=]; done].
    by rewrite (parse_items_ok n IH (x :: l) fuel rest) by (first [done|simpl in *; lia]).
  - apply andb_true_iff in Hp as [Hnd%bool_decide_eq_true Hp].
    destruct d as [|x d]; [done|]. change (dumps (JObj ?d) +:+ rest) with (String "{" ((fields d +:+ "}") +:+ rest)).
    rewrite string_app_assoc. change ("}" +:+ rest) with (String "}" rest).
    assert (∃ t, fields (x :: d) = String quote_char t) as [t E] by (destruct d; by eexists).
    assert (skip_ws (fields (x :: d) +:+ String "}" rest) = fields (x :: d) +:+ String "}" rest) as Hw by (by rewrite E).
    rewrite parse_object, Hw; [|rewrite Hw, E; by intros r [=]].
    rewrite (parse_fields_ok n IH (x :: d) fuel rest) by (first [done|simpl in *; lia]). cbn [mbind result_bind fst snd].
    by rewrite fold_dset by done.
Qed.

Lemma join_length sep l : sum_list (String.length <$> l) <= String.length (join sep l).
Proof.
  induction l as [|x [|y l] IH]; [simpl; lia|simpl; lia|]. rewrite join_cons2, !string_app_length.
  change (sum_list (String.length <$> (x :: y :: l))) with (String.length x + sum_list (String.length <$> (y :: l))). lia.
Qed.
Lemma sum_list_le {A} (f g : A → nat) l : (∀ x, x ∈ l → f x <= g x) → sum_list (f <$> l) <= sum_list (g <$> l).
Proof.
  induction l as [|x l IH]; intros H; [done|]. rewrite !fmap_cons.
  apply Nat.add_le_mono; [apply H; left|apply IH; intros y Hy; apply H; by right].
Qed.
Lemma dumps_length n j : jsize j <= n → plain j = true → jsize j <= String.length (dumps j).
Proof.
  revert j. induction n as [|n IH]; intros j Hn Hp; [pose proof (jsize_pos j); lia|].
  destruct (dumps_head j Hp) as (c & s & E & _).
  destruct j as [| | | |s'|l|d]; try (rewrite E; simpl; lia).
  - change (dumps (JArr l)) with ("[" +:+ items l +:+ "]"). rewrite !string_app_length.
    pose proof (join_length ", " (dumps <$> l)) as Hj. rewrite <-list_fmap_compose in Hj.
    assert (sum_list (jsize <$> l) <= sum_list ((String.length ∘ dumps) <$> l)); [|change (jsize (JArr l)) with (S (sum_list (jsize <$> l))); cbn [String.length]; lia].
    apply sum_list_le. intros x Hx. apply IH; [pose proof (jsize_arr x l Hx); lia|].
    cbn [plain] in Hp. rewrite forallb_forall in Hp. apply Hp. by apply list_elem_of_In.
  - change (dumps (JObj d)) with ("{" +:+ fields d +:+ "}"). rewrite !string_app_length.
    pose proof (join_length ", " ((fun p => field p) <$> d)) as Hj. rewrite <-list_fmap_compose in Hj.
    assert (sum_list ((fun p => jsize p.2) <$> d) <= sum_list ((String.length ∘ (fun p => field p)) <$> d)); [|change (jsize (JObj d)) with (S (sum_list ((fun p => jsize p.2) <$> d))); cbn [String.length]; lia].
    apply sum_list_le. intros [k x] Hx. cbn [compose fst snd]. rewrite !string_app_length.
    assert (jsize x <= String.length (dumps x)); [|lia]. cbn [plain] in Hp. apply andb_true_iff in Hp as [_ Hp].
    rewrite forallb_forall in Hp. apply list_elem_of_In in Hx as Hx'. apply Hp in Hx'. apply andb_true_iff in Hx' as [_ ?].
    apply IH; [|done]. assert (jsize x <= sum_list ((fun p => jsize p.2) <$> d)); [|change (jsize (JObj d)) with (S (sum_list ((fun p => jsize p.2) <$> d))) in Hn; lia].
    apply sum_list_elem, list_elem_of_fmap. by exists (k, x).
Qed.

Lemma loads_dumps j : plain j = true → loads (dumps j) = Ok j.
Proof.
  intros Hp. unfold loads. rewrite <-(string_app_nil_r (dumps j)) at 2. rewrite skip_ws_dumps by done.
  rewrite (parse_dumps (jsize j)); [done|done|done|done|]. pose proof (dumps_length (jsize j) j (Nat.le_refl _) Hp). lia.
Qed.
