(* ===== verification/PyText.v ===== *)
(** * Text methods used by the tools of the agent

    Occurrences, replacement, lines, formatting and quoting, as [str], [fnmatch]
    and [shlex] define them, on ASCII text. *)

From S2P Require Import Prelude PyStr PyDict PyInt Json.
From Stdlib Require Import Ascii.

(** [s.removeprefix(p)] *)
Definition removeprefix (s p : string) : string :=
  if startswith s p then sdrop (String.length p) s else s.

(** ** Occurrences *)

(** The occurrences of a nonempty [sub] from left to right that do not overlap;
    the next [skip] characters belong to the last one. *)
Fixpoint count_from (skip : nat) (s sub : string) : nat :=
  match s with
  | EmptyString => 0
  | String _ s' =>
      match skip with
      | S k => count_from k s' sub
      | O => if startswith s sub then S (count_from (String.length sub - 1) s' sub) else count_from 0 s' sub
      end
  end.
(** [s.count(sub)] *)
Definition count (s sub : string) : nat :=
  if bool_decide (sub = "") then S (String.length s) else count_from 0 s sub.

(** [s.replace(old, new, 1)] *)
Fixpoint replace1 (s old new : string) : string :=
  if startswith s old then new +:+ sdrop (String.length old) s
  else match s with EmptyString => EmptyString | String c s' => String c (replace1 s' old new) end.

(** ** Lines *)

(** The ASCII characters at which [str.splitlines] breaks. *)
Definition is_break (c : ascii) : bool := mem (nat_of_ascii c) [10; 11; 12; 13; 28; 29; 30].
Definition cr : ascii := PyStr.chr 13.
Definition lf : ascii := PyStr.chr 10.
Definition nl : string := String lf EmptyString.

(** [s.splitlines(keepends=True)] *)
Fixpoint lines_keep (s : string) : list string :=
  match s with
  | EmptyString => []
  | String c s' =>
      if is_break c then
        match s' with
        | String d s'' => if ch_eq c cr && ch_eq d lf then String c (String d EmptyString) :: lines_keep s''
                          else String c EmptyString :: lines_keep s'
        | EmptyString => [String c EmptyString]
        end
      else match lines_keep s' with
           | [] => [String c EmptyString]
           | w :: ws => String c w :: ws
           end
  end.
(** [s.splitlines()] *)
Definition splitlines (s : string) : list string := rstrip_by is_break <$> lines_keep s.

(** What reading in text mode makes of the line endings of a file. *)
Fixpoint universal_newlines (s : string) : string :=
  match s with
  | EmptyString => EmptyString
  | String c s' =>
      if ch_eq c cr then
        match s' with
        | String d s'' => if ch_eq d lf then String lf (universal_newlines s'') else String lf (universal_newlines s')
        | EmptyString => String lf EmptyString
        end
      else String c (universal_newlines s')
  end.

Fixpoint sconcat (l : list string) : string :=
  match l with [] => EmptyString | x :: l => x +:+ sconcat l end.

(** ** Formatting *)

Fixpoint spaces (n : nat) : string := match n with O => EmptyString | S n => String " " (spaces n) end.
(** [format(z, "6")] *)
Definition width6 (z : Z) : string := let s := pretty z in spaces (6 - String.length s) +:+ s.

Definition hex2 (n : nat) : string :=
  let d := fun k => String (if (k <? 10)%nat then PyStr.chr (48 + k) else PyStr.chr (87 + k)) EmptyString in
  d (n / 16)%nat +:+ d (n mod 16)%nat.
Definition dquote : ascii := PyStr.chr 34.
Definition squote : ascii := PyStr.chr 39.
Definition backslash : ascii := PyStr.chr 92.
Definition repr_char (q c : ascii) : string :=
  let n := nat_of_ascii c in
  if ch_eq c q || ch_eq c backslash then String backslash (String c EmptyString)
  else if (n =? 10)%nat then String backslash "n"
  else if (n =? 13)%nat then String backslash "r"
  else if (n =? 9)%nat then String backslash "t"
  else if ((n <? 32) || (n =? 127))%nat then String backslash ("x" +:+ hex2 n)
  else String c EmptyString.
(** [repr(s)] of an ASCII string *)
Definition py_repr (s : string) : string :=
  let q := if has_char squote s && negb (has_char dquote s) then dquote else squote in
  String q (sconcat (repr_char q <$> String.list_ascii_of_string s) +:+ String q EmptyString).

Fixpoint repr_json (j : json) : result string :=
  match j with
  | JNull => Ok "None"
  | JBool b => Ok (if b then "True" else "False")
  | JInt z => Ok (pretty z)
  | JFloat _ => raise OutOfModel "repr of a float"
  | JStr s => Ok (py_repr s)
  | JArr l =>
      items ← (fix all (l : list json) : result (list string) :=
                 match l with [] => Ok [] | x :: l => t ← repr_json x; ts ← all l; Ok (t :: ts) end) l;
      Ok ("[" +:+ join ", " items +:+ "]")
  | JObj d =>
      items ← (fix all (d : list (string * json)) : result (list string) :=
                 match d with [] => Ok [] | (k, x) :: d => t ← repr_json x; ts ← all d; Ok ((py_repr k +:+ ": " +:+ t) :: ts) end) d;
      Ok ("{" +:+ join ", " items +:+ "}")
  end.
(** [str(j)] *)
Definition str_json (j : json) : result string := match j with JStr s => Ok s | j => repr_json j end.

(** [shlex.quote(s)] *)
Definition shell_safe (c : ascii) : bool :=
  let n := nat_of_ascii c in
  is_digit c || ((65 <=? n) && (n <=? 90))%nat || ((97 <=? n) && (n <=? 122))%nat
  || has_char c "_@%+=:,./-".
Fixpoint quote_singles (s : string) : string :=
  match s with
  | EmptyString => EmptyString
  | String c s => (if ch_eq c squote then String squote (String dquote (String squote (String dquote (String squote EmptyString))))
                   else String c EmptyString) +:+ quote_singles s
  end.
Definition shlex_quote (s : string) : string :=
  if bool_decide (s = "") then String squote (String squote EmptyString)
  else if sforall shell_safe s then s
  else String squote (quote_singles s +:+ String squote EmptyString).

(** [fnmatch.fnmatch(s, p)] for a pattern without character sets. *)
Fixpoint fnmatch (p s : string) : bool :=
  match p with
  | EmptyString => bool_decide (s = "")
  | String c p =>
      if ch_eq c "*" then
        (fix star (s : string) : bool :=
           fnmatch p s || match s with EmptyString => false | String _ s => star s end) s
      else match s with
           | EmptyString => false
           | String d s => (ch_eq c "?" || ch_eq c d) && fnmatch p s
           end
  end.

(** ** Lemmas *)

Lemma app_String c a b : String c a +:+ b = String c (a +:+ b).
Proof. done. Qed.

Lemma sconcat_app l k : sconcat (l ++ k) = sconcat l +:+ sconcat k.
Proof. induction l as [|x l IH]; [done|]. cbn [sconcat app]. by rewrite IH, string_app_assoc. Qed.

Lemma lines_keep_concat s : sconcat (lines_keep s) = s.
Proof.
  remember (String.length s) as n eqn:Hn. assert (String.length s ≤ n) as Hle by lia. clear Hn. revert s Hle.
  induction n as [|n IH]; intros [|c s] Hle; cbn [String.length] in Hle; try done; [lia|]. cbn [lines_keep].
  destruct (is_break c).
  - destruct s as [|d s]; [done|]. cbn [String.length] in Hle.
    destruct (ch_eq c cr && ch_eq d lf); cbn [sconcat]; rewrite IH; cbn [String.length]; done || lia.
  - assert (sconcat (lines_keep s) = s) as E by (apply IH; lia).
    destruct (lines_keep s) as [|w ws]; cbn [sconcat] in *; rewrite <- E; [done|]. by rewrite app_String.
Qed.

Lemma startswith_length s p : startswith s p = true → String.length p ≤ String.length s.
Proof. intros [t ->]%startswith_spec. rewrite string_app_length. lia. Qed.

Lemma sdrop_length n s : String.length (sdrop n s) = String.length s - n.
Proof. revert s. induction n as [|n IH]; intros [|c s]; simpl; try done; apply IH. Qed.

Lemma count_from_zero s sub : count_from 0 s sub = 0 → sub ≠ "" → ∀ a b, s ≠ a +:+ sub +:+ b.
Proof.
  intros H Hsub. revert H. induction s as [|c s IH]; cbn [count_from].
  - intros _ a b. destruct a, sub; simpl; done.
  - destruct (startswith (String c s) sub) eqn:E; [done|]. intros H [|d a] b He.
    + assert (startswith (String c s) sub = true) by (apply startswith_spec; by exists b). congruence.
    + rewrite app_String in He. injection He as -> ->. by eapply IH.
Qed.

(** The skipped characters do not matter. *)
Lemma count_from_skip k s sub : count_from k s sub = count_from 0 (sdrop k s) sub.
Proof. revert s. induction k as [|k IH]; intros [|c s]; try done. apply (IH s). Qed.

(** One replacement acts on the leftmost occurrence. *)
Lemma replace1_first s old new : (∃ a b, s = a +:+ old +:+ b) →
  ∃ a b, s = a +:+ old +:+ b ∧ replace1 s old new = a +:+ new +:+ b ∧
    ∀ a' b', s = a' +:+ old +:+ b' → String.length a ≤ String.length a'.
Proof.
  induction s as [|c s IH]; intros (a & b & He).
  - destruct a, old, b; try done. exists "", "". cbn. split_and!; try done. intros; lia.
  - cbn [replace1]. destruct (startswith (String c s) old) eqn:E.
    + apply startswith_spec in E as [t Ht]. exists "", t. rewrite Ht, sdrop_app. split_and!; try done. intros; cbn; lia.
    + destruct a as [|d a].
      { assert (startswith (String c s) old = true) by (apply startswith_spec; by exists b). congruence. }
      rewrite app_String in He. injection He as <- He.
      destruct IH as (a1 & b1 & H1 & H2 & H3); [by exists a, b|]. exists (String c a1), b1.
      rewrite !app_String, <- H1, H2. split_and!; try done. intros [|d a'] b' He'.
      * assert (startswith (String c s) old = true) by (apply startswith_spec; by exists b'). congruence.
      * rewrite app_String in He'. injection He' as <- He'. cbn. apply le_n_S. by eapply H3.
Qed.

(** When [count] is one, every other occurrence overlaps the first. *)
Lemma count_one_overlap s sub : sub ≠ "" → count s sub = 1 →
  ∃ a b, s = a +:+ sub +:+ b ∧
    ∀ a' b', s = a' +:+ sub +:+ b' → String.length a ≤ String.length a' < String.length a + String.length sub.
Proof.
  unfold count. intros Hsub. rewrite bool_decide_eq_false_2 by done.
  assert (0 < String.length sub) as Hlen by (destruct sub; simpl; [done|lia]).
  induction s as [|c s IH]; cbn [count_from]; [done|].
  destruct (startswith (String c s) sub) eqn:E.
  - intros [= H0]. apply startswith_spec in E as [t Ht]. exists "", t. split; [done|]. intros a' b' He. split; [cbn; lia|].
    rewrite count_from_skip in H0.
    assert (sdrop (String.length sub - 1) s = t) as Hd.
    { pose proof (sdrop_app sub t) as Hs. rewrite <- Ht in Hs.
      destruct (String.length sub) as [|k]; [lia|]. replace (S k - 1) with k by lia. done. }
    rewrite Hd in H0. destruct (decide (String.length a' < String.length sub)) as [|Hge]; [cbn; lia|]. exfalso.
    apply (count_from_zero t sub H0 Hsub (sdrop (String.length sub) a') b').
    assert (∀ p x y z : string, p +:+ x = y +:+ z → String.length p ≤ String.length y → x = sdrop (String.length p) y +:+ z) as Hcut.
    { intros p. induction p as [|d p IHp]; intros x [|e y] z; cbn [String.length sdrop]; try (intros; done || lia).
      rewrite !app_String. intros [= -> Hr] ?. apply IHp; [done|lia]. }
    apply Hcut; [|lia]. by rewrite <- Ht.
  - intros H. destruct (IH H) as (a & b & He & Hmin). exists (String c a), b. rewrite app_String, <- He. split; [done|].
    intros [|d a'] b' He'.
    + assert (startswith (String c s) sub = true) by (apply startswith_spec; by exists b'). congruence.
    + rewrite app_String in He'. injection He' as <- He'. specialize (Hmin _ _ He'). cbn. lia.
Qed.

Lemma count_from_pos s sub : 0 < count_from 0 s sub → ∃ a b, s = a +:+ sub +:+ b.
Proof.
  induction s as [|c s IH]; cbn [count_from]; [lia|]. destruct (startswith (String c s) sub) eqn:E.
  - apply startswith_spec in E as [t Ht]. intros _. by exists "", t.
  - intros (a & b & ->)%IH. by exists (String c a), b.
Qed.

(** Two that are counted do not overlap. *)
Lemma count_two s sub : sub ≠ "" → 2 ≤ count s sub → ∃ a b c, s = a +:+ sub +:+ b +:+ sub +:+ c.
Proof.
  unfold count. intros Hsub. rewrite bool_decide_eq_false_2 by done. induction s as [|c s IH]; cbn [count_from]; [lia|].
  destruct (startswith (String c s) sub) eqn:E.
  - apply startswith_spec in E as [t Ht]. rewrite count_from_skip. intros Hc.
    assert (sdrop (String.length sub - 1) s = t) as Hd.
    { pose proof (sdrop_app sub t) as Hs. rewrite <- Ht in Hs. destruct sub; [done|]. cbn [String.length sdrop] in *.
      by replace (S (String.length sub) - 1) with (String.length sub) by lia. }
    rewrite Hd in Hc. destruct (count_from_pos t sub) as (a & b & ->); [lia|]. by exists "", a, b.
  - intros (a & b & d & ->)%IH. by exists (String c a), b, d.
Qed.

(** ** Lines *)

Lemma startswith_drop s p : startswith s p = true → s = p +:+ sdrop (String.length p) s.
Proof. intros [t ->]%startswith_spec. by rewrite sdrop_app. Qed.

Definition ended_line (w : string) : Prop := ∃ v c, w = v +:+ String c "" ∧ sforall (fun c => negb (is_break c)) v = true ∧ is_break c = true ∧ c ≠ cr.
Notation unbroken v := (sforall (fun c => negb (is_break c)) v = true).
Lemma lines_keep_ended v c t : unbroken v → is_break c = true → c ≠ cr → lines_keep (v +:+ String c t) = (v +:+ String c "") :: lines_keep t.
Proof.
  intros Hv Hc Hcr. induction v as [|d v IH]; rewrite ?app_String; cbn [lines_keep].
  - assert ((""%string +:+ String c t) = String c t) as -> by done. cbn [lines_keep]. rewrite Hc.
    assert (ch_eq c cr = false) as -> by (by apply bool_decide_eq_false_2). by destruct t.
  - cbn [sforall] in Hv. apply andb_true_iff in Hv as [Hd Hv]. apply negb_true_iff in Hd. rewrite Hd, IH by done. done.
Qed.
Lemma lines_keep_unbroken v : unbroken v → v ≠ "" → lines_keep v = [v].
Proof.
  induction v as [|d v IH]; [done|]. cbn [sforall lines_keep]. intros [Hd Hv]%andb_true_iff _. apply negb_true_iff in Hd. rewrite Hd.
  destruct v as [|e v]; [done|]. by rewrite IH.
Qed.
Lemma lines_keep_app l t : Forall ended_line l → lines_keep (sconcat l +:+ t) = l ++ lines_keep t.
Proof.
  induction 1 as [|w l (v & c & -> & Hv & Hc & Hcr) _ IH]; [done|].
  cbn [sconcat]. rewrite !string_app_assoc, app_String, lines_keep_ended by done.
  assert ((""%string +:+ (sconcat l +:+ t)) = sconcat l +:+ t) as -> by done. by rewrite IH.
Qed.

(** Text without carriage returns: lines that end, and perhaps one that does not. *)
Inductive Lined : list string → Prop :=
  | Lined_nil : Lined []
  | Lined_last w : w ≠ "" → unbroken w → Lined [w]
  | Lined_cons w l : ended_line w → Lined l → Lined (w :: l).

Lemma lines_keep_Lined s : has_char cr s = false → Lined (lines_keep s).
Proof.
  induction s as [|c s IH]; cbn [has_char lines_keep]; [constructor|]. intros [Hc Hs]%orb_false_iff. specialize (IH Hs).
  unfold ch_eq in Hc. apply bool_decide_eq_false in Hc. assert (ch_eq c cr = false) as Hcc by (apply bool_decide_eq_false_2; congruence).
  destruct (is_break c) eqn:Hb.
  - rewrite Hcc. cbn. assert (ended_line (String c "")) as He by (exists "", c; split_and!; done || congruence).
    destruct s as [|d s]; [by constructor 3; [|constructor]|]. by constructor 3.
  - destruct IH as [|w Hw Hu|w l (v & d & -> & Hv & Hd & Hcd) Hl].
    + constructor 2; [done|]. cbn. by rewrite Hb.
    + constructor 2; [done|]. cbn. by rewrite Hb, Hu.
    + constructor 3; [|done]. exists (String c v), d. split_and!; try done. cbn. by rewrite Hb, Hv.
Qed.
Lemma Lined_drop l i : Lined l → Lined (drop i l).
Proof. intros H. revert i. induction H; intros [|i]; simpl; eauto using Lined. destruct i; constructor. Qed.
Lemma Lined_take l i : Lined l → i < length l → Forall ended_line (take i l).
Proof.
  intros H. revert i. induction H as [|w|w l Hw Hl IH]; intros [|i] Hi; simpl in *; try (constructor; done || lia); try lia.
  constructor; [done|]. apply IH. lia.
Qed.
Lemma Lined_concat l : Lined l → lines_keep (sconcat l) = l.
Proof.
  induction 1 as [|w Hw Hu|w l Hw Hl IH]; [done| |].
  - cbn [sconcat]. rewrite string_app_nil_r. by apply lines_keep_unbroken.
  - pose proof (lines_keep_app [w] (sconcat l)) as Hk. cbn [sconcat] in *. rewrite string_app_nil_r in Hk. rewrite Hk, IH; [done|]. by constructor.
Qed.

(** Text that ends with a newline has lines that all end. *)
Lemma lines_keep_closed s c : has_char cr (s +:+ String c "") = false → is_break c = true → Forall ended_line (lines_keep (s +:+ String c "")).
Proof.
  intros Hcr Hb. pose proof (lines_keep_Lined _ Hcr) as Hl. pose proof (lines_keep_concat (s +:+ String c "")) as Hc.
  clear Hcr. revert Hl Hc. generalize (lines_keep (s +:+ String c "")) as l. intros l Hl. revert s.
  induction Hl as [|w Hw Hu|w l Hw Hl IH]; intros s Hc; [constructor| |].
  - exfalso. cbn [sconcat] in Hc. rewrite string_app_nil_r in Hc. subst w.
    rewrite sforall_app in Hu. cbn [sforall] in Hu. rewrite Hb in Hu. simpl in Hu. by rewrite andb_false_r in Hu.
  - constructor; [done|]. cbn [sconcat] in Hc. destruct (decide (l = [])) as [->|Hne]; [constructor|].
    assert (sconcat l ≠ "") as Hn.
    { destruct Hl as [|v Hv|v l' (u & d & -> & _)]; [done| |]; cbn [sconcat]; [by destruct v|]. by destruct u. }
    assert (∀ (x y : string) z, y ≠ "" → x +:+ y = z +:+ String c "" → ∃ y', y = y' +:+ String c "") as Hcut.
    { clear. intros x. induction x as [|a x IHx]; intros y z Hy He; [by exists z|].
      destruct z as [|b z]; rewrite ?app_String in He; cbn in He; injection He as -> He; [|by eapply IHx].
      destruct x, y; done. }
    destruct (Hcut _ _ _ Hn Hc) as [y Hy]. by apply (IH y).
Qed.

Lemma universal_no_cr s : has_char cr (universal_newlines s) = false.
Proof.
  remember (String.length s) as n eqn:Hn. assert (String.length s ≤ n) as Hle by lia. clear Hn. revert s Hle.
  induction n as [|n IH]; intros [|c s] Hle; cbn [String.length] in Hle; try done; [lia|]. cbn [universal_newlines].
  destruct (ch_eq c cr) eqn:E.
  - destruct s as [|d s]; [done|]. cbn [String.length] in Hle. destruct (ch_eq d lf); cbn [has_char];
      (rewrite IH by (cbn [String.length]; lia)); done.
  - cbn [has_char]. rewrite IH by lia. rewrite orb_false_r. unfold ch_eq in *. apply bool_decide_eq_false in E. by apply bool_decide_eq_false_2.
Qed.
Lemma universal_id s : has_char cr s = false → universal_newlines s = s.
Proof.
  induction s as [|c s IH]; [done|]. cbn [has_char universal_newlines]. intros [Hc Hs]%orb_false_iff. unfold ch_eq in *. apply bool_decide_eq_false in Hc.
  rewrite bool_decide_eq_false_2 by congruence. f_equal. by apply IH.
Qed.
Lemma has_char_sconcat c l : has_char c (sconcat l) = existsb (has_char c) l.
Proof. induction l as [|x l IH]; [done|]. cbn [sconcat existsb]. by rewrite has_char_app, IH. Qed.
Lemma endswith_nl s : endswith s nl = true → ∃ t, s = t +:+ nl.
Proof.
  unfold endswith. intros [t Ht]%startswith_spec. exists (srev t). rewrite <- (srev_involutive s), Ht.
  change (srev (String lf t) = srev t +:+ nl). apply srev_cons.
Qed.

(** [str] of a value fails only on what the model leaves out. *)
Lemma repr_json_err n j e : jsize j ≤ n → repr_json j = Err e → exn_cls e = OutOfModel.
Proof.
  revert j e. induction n as [|n IH]; intros j e Hn; [pose proof (jsize_pos j); lia|].
  destruct j as [| | |f|s|l|d]; try done; [by intros [= <-]| |]; cbn [repr_json jsize] in *.
  - match goal with |- context [?f l] => set (all := f) end.
    assert (∀ e, all l = Err e → exn_cls e = OutOfModel) as Hall.
    { clear e. revert Hn. induction l as [|x l IHl]; intros Hn e; [done|]. cbn. unfold mbind, result_bind. rewrite fmap_cons in Hn. cbn [sum_list_with id snd] in Hn.
      destruct (repr_json x) as [t|e'] eqn:Ex; [|intros [= ->]; apply (IH x); [lia|done]].
      fold all. destruct (all l) as [ts|e'] eqn:El; [done|]. intros [= ->]. apply IHl; [unfold sum_list in *; lia|done]. }
    unfold mbind, result_bind. destruct (all l); [done|]. intros [= ->]. by apply Hall.
  - match goal with |- context [?f d] => set (all := f) end.
    assert (∀ e, all d = Err e → exn_cls e = OutOfModel) as Hall.
    { clear e. revert Hn. induction d as [|[k x] d IHl]; intros Hn e; [done|]. cbn. unfold mbind, result_bind. rewrite fmap_cons in Hn. cbn [sum_list_with id snd] in Hn.
      destruct (repr_json x) as [t|e'] eqn:Ex; [|intros [= ->]; apply (IH x); [lia|done]].
      fold all. destruct (all d) as [ts|e'] eqn:El; [done|]. intros [= ->]. apply IHl; [unfold sum_list in *; lia|done]. }
    unfold mbind, result_bind. destruct (all d); [done|]. intros [= ->]. by apply Hall.
Qed.
Lemma str_json_err j e : str_json j = Err e → exn_cls e = OutOfModel.
Proof. destruct j; try done; intros H; by eapply repr_json_err. Qed.
