(* ===== verification/Sha1.v ===== *)
(** * SHA-1 and SHA-256 ([hashlib])

    The digests from which the replay schedules name their checkpoints and
    recognise recorded diffs, on byte strings, with 32-bit words as [Z] reduced
    modulo [2^32]. *)

From S2P Require Import Prelude.
From Stdlib Require Import Ascii.

Module Sha1.
#[local] Open Scope Z_scope.

Definition w32 (x : Z) : Z := Z.land x 4294967295.
Definition rotl (n x : Z) : Z := w32 (Z.lor (Z.shiftl x n) (Z.shiftr x (32 - n))).
Definition add32 (x y : Z) : Z := w32 (x + y).

Definition bytes (s : string) : list Z :=
  (fun c => Z.of_nat (nat_of_ascii c)) <$> String.list_ascii_of_string s.
Definition be_bytes (n : nat) (x : Z) : list Z :=
  (fun i => Z.land (Z.shiftr x (8 * Z.of_nat i)) 255) <$> rev (seq 0 n).
Definition pad (msg : list Z) : list Z :=
  let zeros := ((119 - length msg mod 64) mod 64)%nat in
  msg ++ 128 :: replicate zeros 0 ++ be_bytes 8 (8 * Z.of_nat (length msg)).

Fixpoint words (msg : list Z) : list Z :=
  match msg with
  | a :: b :: c :: d :: msg => (Z.shiftl a 24 + Z.shiftl b 16 + Z.shiftl c 8 + d) :: words msg
  | _ => []
  end.

(** The message schedule, newest word first. *)
Fixpoint extend (n : nat) (ws : list Z) : list Z :=
  match n with
  | O => ws
  | S n =>
      let x := Z.lxor (Z.lxor (nth 2 ws 0) (nth 7 ws 0)) (Z.lxor (nth 13 ws 0) (nth 15 ws 0)) in
      extend n (rotl 1 x :: ws)
  end.

Record state := St { sa : Z; sb : Z; sc : Z; sd : Z; se : Z }.
Definition init : state := St 1732584193 4023233417 2562383102 271733878 3285377520.

Definition mix (t : nat) (s : state) : Z * Z :=
  let '(St _ b c d _) := s in
  if (t <? 20)%nat then (Z.lor (Z.land b c) (Z.land (w32 (Z.lnot b)) d), 1518500249)
  else if (t <? 40)%nat then (Z.lxor b (Z.lxor c d), 1859775393)
  else if (t <? 60)%nat then (Z.lor (Z.land b c) (Z.lor (Z.land b d) (Z.land c d)), 2400959708)
  else (Z.lxor b (Z.lxor c d), 3395469782).
Fixpoint rounds (t : nat) (ws : list Z) (s : state) : state :=
  match ws with
  | [] => s
  | w :: ws =>
      let '(f, k) := mix t s in
      let tmp := w32 (rotl 5 (sa s) + f + se s + w + k) in
      rounds (S t) ws (St tmp (sa s) (rotl 30 (sb s)) (sc s) (sd s))
  end.
Definition block (s : state) (ws : list Z) : state :=
  let r := rounds 0 (rev (extend 64 (rev ws))) s in
  St (add32 (sa s) (sa r)) (add32 (sb s) (sb r)) (add32 (sc s) (sc r)) (add32 (sd s) (sd r)) (add32 (se s) (se r)).
Fixpoint blocks (n : nat) (ws : list Z) (s : state) : state :=
  match n with
  | O => s
  | S n => blocks n (drop 16 ws) (block s (take 16 ws))
  end.

Definition hex_digit (x : Z) : ascii :=
  ascii_of_nat (Z.to_nat (if x <? 10 then 48 + x else 87 + x)).
Definition hex (bs : list Z) : string :=
  String.string_of_list_ascii (b ← bs; [hex_digit (Z.shiftr b 4); hex_digit (Z.land b 15)]).

(** [hashlib.sha1(text.encode()).hexdigest()] *)
Definition sha1_hex (text : string) : string :=
  let ws := words (pad (bytes text)) in
  let '(St a b c d e) := blocks (length ws / 16)%nat ws init in
  hex (h ← [a; b; c; d; e]; be_bytes 4 h).

(** The test vectors of RFC 3174. *)
Example sha1_empty : sha1_hex "" = "da39a3ee5e6b4b0d3255bfef95601890afd80709".
Proof. by vm_compute. Qed.
Example sha1_abc : sha1_hex "abc" = "a9993e364706816aba3e25717850c26c9cd0d89d".
Proof. by vm_compute. Qed.
Example sha1_two_blocks :
  sha1_hex "abcdbcdecdefdefgefghfghighijhijkijkljklmklmnlmnomnopnopq" = "84983e441c3bd26ebaae4aa1f95129e5e54670f1".
Proof. by vm_compute. Qed.

End Sha1.

Module Sha256.
Import Sha1.
#[local] Open Scope Z_scope.

(** The fractional parts of the cube roots of the first 64 primes, and of the
    square roots of the first 8. *)
Definition round_constants : list Z := [
    1116352408; 1899447441; 3049323471; 3921009573; 961987163; 1508970993; 2453635748; 2870763221;
    3624381080; 310598401; 607225278; 1426881987; 1925078388; 2162078206; 2614888103; 3248222580;
    3835390401; 4022224774; 264347078; 604807628; 770255983; 1249150122; 1555081692; 1996064986;
    2554220882; 2821834349; 2952996808; 3210313671; 3336571891; 3584528711; 113926993; 338241895;
    666307205; 773529912; 1294757372; 1396182291; 1695183700; 1986661051; 2177026350; 2456956037;
    2730485921; 2820302411; 3259730800; 3345764771; 3516065817; 3600352804; 4094571909; 275423344;
    430227734; 506948616; 659060556; 883997877; 958139571; 1322822218; 1537002063; 1747873779;
    1955562222; 2024104815; 2227730452; 2361852424; 2428436474; 2756734187; 3204031479; 3329325298].
Definition init : list Z := [
    1779033703; 3144134277; 1013904242; 2773480762; 1359893119; 2600822924; 528734635; 1541459225].

Definition rotr (n x : Z) : Z := rotl (32 - n) x.
Definition sigma (a b c x : Z) : Z := Z.lxor (rotr a x) (Z.lxor (rotr b x) (rotr c x)).
Definition small_sigma (a b c x : Z) : Z := Z.lxor (rotr a x) (Z.lxor (rotr b x) (Z.shiftr x c)).

(** The message schedule, newest word first. *)
Fixpoint extend (n : nat) (ws : list Z) : list Z :=
  match n with
  | O => ws
  | S n =>
      let x := small_sigma 17 19 10 (nth 1 ws 0) + nth 6 ws 0 + small_sigma 7 18 3 (nth 14 ws 0) + nth 15 ws 0 in
      extend n (w32 x :: ws)
  end.

Definition round (st : list Z) (wk : Z * Z) : list Z :=
  match st with
  | [a; b; c; d; e; f; g; h] =>
      let ch := Z.lxor (Z.land e f) (Z.land (w32 (Z.lnot e)) g) in
      let maj := Z.lxor (Z.land a b) (Z.lxor (Z.land a c) (Z.land b c)) in
      let t1 := h + sigma 6 11 25 e + ch + wk.2 + wk.1 in
      [w32 (t1 + sigma 2 13 22 a + maj); a; b; c; w32 (d + t1); e; f; g]
  | _ => st
  end.
Definition block (st ws : list Z) : list Z :=
  zip_with add32 st (foldl round st (zip (rev (extend 48 (rev ws))) round_constants)).
Fixpoint blocks (n : nat) (ws st : list Z) : list Z :=
  match n with O => st | S n => blocks n (drop 16 ws) (block st (take 16 ws)) end.

(** [hashlib.sha256(text.encode()).hexdigest()] *)
Definition sha256_hex (text : string) : string :=
  let ws := words (pad (bytes text)) in
  hex (h ← blocks (length ws / 16)%nat ws init; be_bytes 4 h).

Example sha256_abc : sha256_hex "abc" = "ba7816bf8f01cfea414140de5dae2223b00361a396177a9cb410ff61f20015ad".
Proof. by vm_compute. Qed.
Example sha256_two_blocks :
  sha256_hex "abcdbcdecdefdefgefghfghighijhijkijkljklmklmnlmnomnopnopq" =
  "248d6a61d20638b8e5c026930c3e6039a33ce45964ff2167f6ecedd419db06c1".
Proof. by vm_compute. Qed.

End Sha256.
