(* ===== verification/RecordedOrder.v ===== *)
(** * Orders taken from a recording

    What the two replay adapters share: the entry a recording agrees on
    ([unanimous]), the reference their tables are compared with, and the stable
    sort by a number that [sorted(..., key=...)] is. *)

From S2P Require Import Prelude PyDict Json.

(** [j == 1] *)
Definition is_one (j : json) : bool :=
  match j with
  | JInt z => (z =? 1)%Z
  | JBool b => b
  | JFloat f => match SFcompare f (fround 1 0) with Some Eq => true | _ => false end
  | _ => false
  end.

Lemma concat_mapM_elem {A B} (f : A → result (list B)) l out r :
  (m ← mapM f l; Ok (concat m)) = Ok out → r ∈ out → ∃ x ys, x ∈ l ∧ f x = Ok ys ∧ r ∈ ys.
Proof.
  unfold mbind at 1, result_bind. destruct (mapM f l) as [m|] eqn:E; [|done]. intros [= <-] (ys & Hr & Hm)%elem_of_concat.
  destruct (mapM_elem _ _ _ _ E Hm) as (x & Hx & Hf). eauto.
Qed.

(** ** Agreement *)

Section unanimous.
Context {K V : Type} `{EqDecision K, EqDecision V}.

Definition occurrences (k : K) (recs : list (K * V)) : list V := (filter (fun r => r.1 = k) recs).*2.
(** What is recorded for [k], when all its recordings are the same. *)
Definition unanimous (recs : list (K * V)) (k : K) : option V :=
  match occurrences k recs with
  | [] => None
  | v :: vs => if forallb (fun w => bool_decide (w = v)) vs then Some v else None
  end.

Lemma unanimous_Some recs k v :
  unanimous recs k = Some v ↔ (k, v) ∈ recs ∧ ∀ w, (k, w) ∈ recs → w = v.
Proof.
  unfold unanimous. assert (∀ w, w ∈ occurrences k recs ↔ (k, w) ∈ recs) as Hocc.
  { intros w. unfold occurrences. rewrite list_elem_of_fmap. setoid_rewrite list_elem_of_filter.
    split; [intros ([k' w'] & -> & Hk & ?); simpl in *; by subst|intros ?; by exists (k, w)]. }
  setoid_rewrite <- Hocc. destruct (occurrences k recs) as [|x xs].
  { split; [done|intros [[]%not_elem_of_nil _]]. }
  destruct (forallb _ xs) eqn:E.
  - rewrite forallb_forall in E. split.
    + intros [= <-]. split; [left|]. intros w [->|Hw]%elem_of_cons; [done|].
      apply list_elem_of_In in Hw. apply E in Hw. by apply bool_decide_eq_true in Hw.
    + intros [_ Hall]. rewrite (Hall x); [done|left].
  - split; [done|]. intros [_ Hall]. apply not_true_iff_false in E. destruct E.
    apply forallb_forall. intros w Hw%list_elem_of_In. apply bool_decide_eq_true.
    rewrite (Hall w), (Hall x); [done|left|by right].
Qed.

(** The key has two different recordings. *)
Definition disputed (recs : list (K * V)) (k : K) : Prop := ∃ v w, (k, v) ∈ recs ∧ (k, w) ∈ recs ∧ v ≠ w.

Lemma disputed_snoc recs k v k' :
  disputed (recs ++ [(k, v)]) k' ↔ disputed recs k' ∨ (k' = k ∧ ∃ w, (k, w) ∈ recs ∧ w ≠ v).
Proof.
  unfold disputed. setoid_rewrite elem_of_app. setoid_rewrite list_elem_of_singleton. split.
  - intros (a & b & [Ha|[= -> ->]] & [Hb|E] & Hne); [left; eauto| | |].
    + injection E as -> ->. right. split; [done|]. eauto.
    + right. split; [done|]. exists b. split; [done|]. congruence.
    + injection E as ->. done.
  - intros [(a & b & ? & ? & ?)|(-> & w & ? & ?)]; [exists a, b; auto|exists w, v; auto].
Qed.

Lemma unanimous_None_disputed recs k v : (k, v) ∈ recs → unanimous recs k = None → disputed recs k.
Proof.
  intros Hin Hn. unfold unanimous, occurrences in Hn.
  assert (∀ w, w ∈ (filter (fun r : K * V => r.1 = k) recs).*2 → (k, w) ∈ recs) as Hback.
  { intros w ([k' w'] & -> & [Hk Hw]%list_elem_of_filter)%list_elem_of_fmap. simpl in *. by subst. }
  destruct (filter _ recs).*2 as [|x xs] eqn:E.
  - assert (v ∈ (filter (fun r : K * V => r.1 = k) recs).*2) as Hv; [|rewrite E in Hv; by apply not_elem_of_nil in Hv].
    apply list_elem_of_fmap. exists (k, v). split; [done|]. by apply list_elem_of_filter.
  - destruct (forallb _ xs) eqn:F; [done|]. apply not_true_iff_false in F.
    destruct (decide (Forall (fun w => w = x) xs)) as [Ha|Hx].
    + destruct F. apply forallb_forall. intros w Hw%list_elem_of_In. apply bool_decide_eq_true. by apply (proj1 (Forall_forall _ _) Ha).
    + apply not_Forall_Exists in Hx; [|apply _]. apply Exists_exists in Hx as (w & Hw & Hne). simpl in Hne.
      exists w, x. split_and!; [apply Hback; by right|apply Hback; left|done].
Qed.

Lemma disputed_not_unanimous recs k : disputed recs k → unanimous recs k = None.
Proof.
  intros (v & w & Hv & Hw & Hne). destruct (unanimous recs k) as [u|] eqn:E; [|done].
  apply unanimous_Some in E as [_ Hall]. destruct Hne. by rewrite (Hall v), (Hall w).
Qed.
Lemma unrecorded recs k v : unanimous recs k = None → ¬ disputed recs k → (k, v) ∉ recs.
Proof. intros Hn Hd Hin. by eapply Hd, unanimous_None_disputed. Qed.
Lemma unanimous_ext recs recs' k : (∀ v, (k, v) ∈ recs ↔ (k, v) ∈ recs') → unanimous recs k = unanimous recs' k.
Proof.
  intros H. apply option_eq. intros v. rewrite !unanimous_Some. setoid_rewrite H. done.
Qed.
Lemma unanimous_snoc_ne recs k v k' : k' ≠ k → unanimous (recs ++ [(k, v)]) k' = unanimous recs k'.
Proof.
  intros Hne. apply unanimous_ext. intros w. rewrite elem_of_app, list_elem_of_singleton. naive_solver.
Qed.
Lemma unanimous_snoc_same recs k v :
  (∀ w, (k, w) ∈ recs → w = v) → unanimous (recs ++ [(k, v)]) k = Some v.
Proof.
  intros H. apply unanimous_Some. setoid_rewrite elem_of_app. setoid_rewrite list_elem_of_singleton. split; [auto|].
  intros w [|[= ->]]; auto.
Qed.
End unanimous.

(** ** The stable sort *)

Section sort.
Context {A : Type} (key : A → nat).

Fixpoint insert_by (x : A) (l : list A) : list A :=
  match l with
  | [] => [x]
  | y :: l => if (key x <=? key y)%nat then x :: y :: l else y :: insert_by x l
  end.
(** [sorted(l, key=key)]: equal elements keep their order. *)
Fixpoint sort_by (l : list A) : list A :=
  match l with [] => [] | x :: l => insert_by x (sort_by l) end.

Definition bucket (l : list A) (k : nat) : list A := List.filter (fun x => (key x =? k)%nat) l.

Lemma insert_by_app x l1 l2 :
  (∀ y, y ∈ l1 → key y < key x) → insert_by x (l1 ++ l2) = l1 ++ insert_by x l2.
Proof.
  induction l1 as [|y l1 IH]; intros H; [done|]. simpl.
  destruct (Nat.leb_spec (key x) (key y)) as [Hle|_].
  - assert (key y < key x) by (apply H; left). lia.
  - f_equal. apply IH. intros z Hz. apply H. by right.
Qed.
Lemma insert_by_head x l : (∀ y, y ∈ l → key x <= key y) → insert_by x l = x :: l.
Proof.
  destruct l as [|y l]; [done|]. intros H. simpl. destruct (Nat.leb_spec (key x) (key y)) as [|Hlt]; [done|].
  assert (key x <= key y) by (apply H; left). lia.
Qed.

Lemma elem_bucket x l k : x ∈ bucket l k ↔ x ∈ l ∧ key x = k.
Proof. unfold bucket. rewrite !list_elem_of_In, List.filter_In, Nat.eqb_eq. done. Qed.

(** The sorted list is its buckets in order. *)
Lemma sort_by_buckets l n :
  (∀ x, x ∈ l → key x < n) → sort_by l = concat (bucket l <$> seq 0 n).
Proof.
  induction l as [|x l IH]; intros H.
  { simpl. clear H. induction (seq 0 n); [done|]. simpl. done. }
  simpl. rewrite IH by (intros y Hy; apply H; by right).
  assert (key x < n) as Hx by (apply H; left).
  assert (seq 0 n = seq 0 (key x) ++ key x :: seq (S (key x)) (n - S (key x))) as ->.
  { replace n with (key x + S (n - S (key x))) at 1 by lia. by rewrite seq_app. }
  rewrite !fmap_app, !concat_app, !fmap_cons. cbn [concat].
  assert (∀ ks : list nat, key x ∉ ks → bucket (x :: l) <$> ks = bucket l <$> ks) as Hother.
  { intros ks. induction ks as [|k ks IHk]; [done|]. intros [Hk Hks]%not_elem_of_cons. rewrite !fmap_cons, IHk by done.
    unfold bucket at 1. simpl. by rewrite (proj2 (Nat.eqb_neq _ _)). }
  rewrite !Hother by (rewrite elem_of_seq; lia).
  assert (∀ (ks : list nat) y, y ∈ concat (bucket l <$> ks) → key y ∈ ks) as Hkey.
  { intros ks y (b & Hb%list_elem_of_In & Hy)%list_elem_of_In%in_concat. apply list_elem_of_In in Hy. apply list_elem_of_fmap in Hb as (k & -> & Hk). by apply elem_bucket in Hy as [_ ->]. }
  rewrite insert_by_app by (intros y Hy; apply Hkey, elem_of_seq in Hy; lia). f_equal.
  unfold bucket at 3. simpl. rewrite Nat.eqb_refl. simpl. fold (bucket l (key x)).
  apply insert_by_head. intros y [Hy|Hy]%elem_of_app; [apply elem_bucket in Hy; lia|].
  apply Hkey, elem_of_seq in Hy. lia.
Qed.

Lemma insert_by_perm x l : insert_by x l ≡ₚ x :: l.
Proof. induction l as [|y l IH]; [done|]. simpl. case_match; [done|]. rewrite IH. apply Permutation_swap. Qed.
Lemma sort_by_perm l : sort_by l ≡ₚ l.
Proof. induction l as [|x l IH]; [done|]. simpl. by rewrite insert_by_perm, IH. Qed.
End sort.
