(* ===== verification/SearchOrder.v ===== *)
(** * Recorded file order of literal searches ([replay/search_order.py])

    A recording keeps, for each literal search, the files its context showed.
    [build_table] freezes them, [restore_search_order] puts those files first in
    a live search.  Text is ASCII; reading and writing the frozen table is JSON
    at the level of values.  [stage_search_order], which patches a copy of a
    package that is not part of the repository, is left out. *)

From S2P Require Import Prelude PyStr PyDict Json PyText RecordedOrder.

Module SearchOrder.

(** ** The table *)

Definition query : Type := key * key.
Definition key_json (k : key) : json :=
  match k with KNone => JNull | KInt z => JInt z | KStr s => JStr s end.
(** [set(l)] of JSON values, as the list of its hashed elements *)
Definition hash_all (l : list json) : result (list key) := mapM hash_key l.

Definition FIND_CODE_SNIPPET : string := "moatless.actions.find_code_snippet.FindCodeSnippetArgs".

(** What one action step records: its query and the files in order. *)
Definition step_record (step : json) : result (list (query * list key)) :=
  a ← pget step "action";
  let args := por a (JObj []) in
  cls ← pget args "action_args_class";
  if negb (is_string cls FIND_CODE_SNIPPET) then Ok [] else
  obs ← pget step "observation"; props ← pget (por obs (JObj [])) "properties";
  hits ← pget (por props (JObj [])) "search_hits";
  if negb (is_dict hits) then Ok [] else
  rows ← pget_or hits "files" (JArr []); rows ← piter rows;
  files ← mapM (fun f => pitem f "file_path") rows;
  match files with
  | [] => Ok []
  | _ =>
      files ← hash_all files;
      if negb (bool_decide (NoDup files)) then raise ValueError "Duplicate recorded search file" else
      code ← pitem args "code_snippet"; pat ← pget args "file_pattern";
      code ← hash_key code; pat ← hash_key pat;
      Ok [((code, pat), files)]
  end.

Fixpoint walk (fuel : nat) (node : json) : result (list (query * list key)) :=
  match fuel with
  | O => raise OutOfFuel ""
  | S fuel =>
      steps ← pget node "action_steps"; steps ← piter (por steps (JArr []));
      mine ← mapM step_record steps;
      children ← pget node "children"; children ← piter (por children (JArr []));
      rest ← mapM (walk fuel) children;
      Ok (concat mine ++ concat rest)
  end.

Record orders := Orders { by_query : list (query * list key); ambiguous : list query }.
Definition learn (st : orders) (rec : query * list key) : orders :=
  let '(k, files) := rec in
  let amb := match dget k (by_query st) with
             | Some f => if bool_decide (f = files) then ambiguous st
                         else if mem k (ambiguous st) then ambiguous st else k :: ambiguous st
             | None => ambiguous st
             end in
  Orders (dset k files (by_query st)) amb.

Definition repr_key (k : key) : string :=
  match k with KNone => "None" | KInt z => pretty z | KStr s => py_repr s end.
(** [repr] of the pair *)
Definition repr_query (k : query) : string := "(" +:+ repr_key k.1 +:+ ", " +:+ repr_key k.2 +:+ ")".
Definition row_le (a b : query * list key) : Prop := str_leb (repr_query a.1) (repr_query b.1) = true.
#[local] Instance row_le_dec a b : Decision (row_le a b).
Proof. unfold row_le. apply _. Defined.

Definition rows (st : orders) : list (query * list key) :=
  merge_sort row_le (List.filter (fun r => negb (mem r.1 (ambiguous st))) (by_query st)).
Definition row_json (r : query * list key) : json :=
  JObj [("search_text", key_json r.1.1); ("file_pattern", key_json r.1.2); ("files", JArr (key_json <$> r.2))].
Definition SCOPE : string := "recorded bounded-context file priority; live literal matches unchanged".
Definition records (trace : json) : result (list (query * list key)) :=
  root ← pitem trace "root"; walk (jsize root) root.
(** [sha]: the digest of the recording *)
Definition build_table (sha : string) (trace : json) : result json :=
  recs ← records trace;
  let st := foldl learn (Orders [] []) recs in
  Ok (JObj [("schema_version", JInt 1); ("trace_sha256", JStr sha); ("scope", JStr SCOPE);
            ("ambiguous_queries_passthrough", JInt (Z.of_nat (length (ambiguous st))));
            ("orders", JArr (row_json <$> rows st))]).

(** ** Live searches *)

Definition read_row (r : json) : result (query * json) :=
  text ← pitem r "search_text"; text ← hash_key text;
  pat ← pitem r "file_pattern"; pat ← hash_key pat;
  files ← pitem r "files"; Ok ((text, pat), files).
(** The table of a staged package, from the value of its file. *)
Definition table (value : json) : result (list (query * json)) :=
  version ← pitem value "schema_version";
  if negb (is_one version) then raise ValueError "Unsupported search order schema" else
  rs ← pitem value "orders"; rs ← piter rs;
  rs ← mapM read_row rs;
  Ok (fold_left (fun d r => dset r.1 r.2 d) rs []).

Section live.
(** The rest of a match: its line. *)
Context {L : Type}.
Abbreviation found := (list (string * L)).

Definition covers (files : list key) (matches : found) : bool :=
  forallb (fun f => mem f (KStr <$> matches.*1)) files.
Definition priority (files : list key) : list (key * nat) :=
  fold_left (fun d r => dset r.1 r.2 d) (imap (fun i f => (f, i)) files) [].
Definition rank (p : list (key * nat)) (m : string * L) : nat := default (length p) (dget (KStr m.1) p).
Definition reorder (matches : found) (files : json) : result found :=
  l ← piter files; l ← hash_all l;
  if negb (covers l matches) then raise ValueError "Recorded search priority file has no live literal match" else
  Ok (sort_by (rank (priority l)) matches).

Definition restore_search_order (tbl : list (query * json)) (matches : found) (search_text file_pattern : json) : result found :=
  text ← hash_key search_text; pat ← hash_key file_pattern;
  match dget (text, pat) tbl with
  | None | Some JNull => Ok matches
  | Some files =>
      l ← piter files; l ← hash_all l;
      if negb (covers l matches) then Ok matches else reorder matches files
  end.

(** ** What it comes to *)

(** The matches of a file, and of no recorded file. *)
Definition of_file (matches : found) (f : key) : found := List.filter (fun m => bool_decide (KStr m.1 = f)) matches.
Definition of_none (matches : found) (files : list key) : found := List.filter (fun m => negb (mem (KStr m.1) files)) matches.
Definition prioritized (files : list key) (matches : found) : found :=
  concat (of_file matches <$> files) ++ of_none matches files.

Lemma indexed_keys (files : list key) : (imap (fun i f => (f, i)) files).*1 = files.
Proof. apply list_eq. intros i. rewrite list_lookup_fmap, list_lookup_imap. by destruct (files !! i). Qed.
Lemma priority_spec files : NoDup files → priority files = imap (fun i f => (f, i)) files.
Proof.
  intros Hnd. unfold priority. rewrite (fold_dset (imap (fun i f => (f, i)) files) []); [done|].
  simpl. by rewrite indexed_keys.
Qed.
Lemma rank_in files (m : string * L) i : NoDup files → files !! i = Some (KStr m.1) → rank (priority files) m = i.
Proof.
  intros Hnd Hi. unfold rank. rewrite priority_spec by done. rewrite (dget_elem _ i); [done| |].
  - unfold dkeys. by rewrite indexed_keys.
  - apply list_elem_of_lookup. exists i. by rewrite list_lookup_imap, Hi.
Qed.
Lemma rank_out files (m : string * L) : NoDup files → KStr m.1 ∉ files → rank (priority files) m = length files.
Proof.
  intros Hnd Hm. unfold rank. rewrite priority_spec by done. rewrite (proj2 (dget_None _ _)); [by rewrite length_imap|].
  unfold dkeys. by rewrite indexed_keys.
Qed.

Lemma sort_prioritized files matches :
  NoDup files → sort_by (rank (priority files)) matches = prioritized files matches.
Proof.
  intros Hnd. rewrite (sort_by_buckets _ _ (S (length files))).
  - rewrite seq_S, fmap_app, concat_app. simpl. rewrite app_nil_r. unfold prioritized. f_equal; [f_equal|].
    + apply list_eq. intros i. rewrite !list_lookup_fmap. destruct (decide (i < length files)) as [Hi|Hi].
      * rewrite lookup_seq_lt by done. simpl. destruct (lookup_lt_is_Some_2 files i Hi) as [f Hf]. rewrite Hf. simpl. f_equal.
        apply List.filter_ext. intros m. destruct (decide (KStr m.1 = f)) as [<-|Hne].
        { rewrite (rank_in _ _ i), Nat.eqb_refl by done. by rewrite bool_decide_eq_true_2. }
        rewrite bool_decide_eq_false_2 by done. apply Nat.eqb_neq. intros Hr.
        destruct (decide (KStr m.1 ∈ files)) as [[j Hj]%list_elem_of_lookup|Hout].
        -- rewrite (rank_in _ _ j) in Hr by done. subst j. congruence.
        -- rewrite rank_out in Hr by done. lia.
      * rewrite lookup_seq_ge by lia. rewrite lookup_ge_None_2 by lia. done.
    + apply List.filter_ext. intros m. destruct (decide (KStr m.1 ∈ files)) as [Hin|Hout].
      * rewrite (proj2 (mem_true _ _)) by done. apply Nat.eqb_neq. destruct (proj1 (list_elem_of_lookup _ _) Hin) as [j Hj].
        rewrite (rank_in _ _ j) by done. apply lookup_lt_Some in Hj. lia.
      * rewrite (proj2 (mem_false _ _)) by done. by rewrite rank_out, Nat.eqb_refl.
  - intros m _. destruct (decide (KStr m.1 ∈ files)) as [[j Hj]%list_elem_of_lookup|Hout].
    + rewrite (rank_in _ _ j) by done. apply lookup_lt_Some in Hj. lia.
    + rewrite rank_out by done. lia.
Qed.
End live.

(** ** The table holds what the recording agrees on *)

(** After the records [recs]. *)
Record learned (recs : list (query * list key)) (st : orders) : Prop := {
  learned_keys : NoDup (dkeys (by_query st));
  learned_in : ∀ k f, dget k (by_query st) = Some f → (k, f) ∈ recs;
  learned_has : ∀ k f, (k, f) ∈ recs → is_Some (dget k (by_query st));
  learned_amb : ∀ k, k ∈ ambiguous st ↔ disputed recs k
}.

Lemma learned_one k recs st f : learned recs st → ¬ disputed recs k → (k, f) ∈ recs → dget k (by_query st) = Some f.
Proof.
  intros [_ Hin Hhas _] Hd Hf. destruct (Hhas _ _ Hf) as [g Hg]. rewrite Hg. f_equal. apply dec_stable. intros Hne.
  apply Hd. exists g, f. auto.
Qed.

Lemma learn_step recs st rec : learned recs st → learned (recs ++ [rec]) (learn st rec).
Proof.
  destruct rec as [k f]. intros Hl. split; unfold learn; cbn [by_query ambiguous].
  - apply dkeys_dset_NoDup, Hl.
  - intros k' g Hg. apply elem_of_app. destruct (decide (k = k')) as [<-|Hne].
    + rewrite dget_dset_eq in Hg. injection Hg as ->. right. apply list_elem_of_singleton. done.
    + rewrite dget_dset_ne in Hg by done. left. by apply Hl.
  - intros k' g [Hg|Hg%list_elem_of_singleton]%elem_of_app; [|injection Hg as -> ->; rewrite dget_dset_eq; eauto].
    destruct (decide (k = k')) as [<-|Hne]; [rewrite dget_dset_eq; eauto|]. rewrite dget_dset_ne by done. by apply (learned_has _ _ Hl k' g).
  - intros k'. rewrite disputed_snoc, <- (learned_amb _ _ Hl). destruct (dget k (by_query st)) as [g|] eqn:E.
    + pose proof (learned_in _ _ Hl _ _ E) as Hg. case_bool_decide as Hf.
      * subst g. split; [auto|]. intros [|(-> & w & Hw & Hne)]; [done|]. apply (learned_amb _ _ Hl). exists f, w. auto.
      * assert (k' = k ∧ (∃ w, (k, w) ∈ recs ∧ w ≠ f) ↔ k' = k) as Heq by (split; [tauto|]; intros ->; split; [done|]; exists g; auto).
        rewrite Heq. destruct (mem k (ambiguous st)) eqn:Em; [apply mem_true in Em|rewrite elem_of_cons; tauto].
        split; [auto|]. by intros [?| ->].
    + split; [auto|]. intros [|(-> & w & Hw & _)]; [done|]. destruct (learned_has _ _ Hl _ _ Hw) as [? Hs]. congruence.
Qed.
Lemma learn_all recs : learned recs (foldl learn (Orders [] []) recs).
Proof.
  induction recs as [|rec recs IH] using rev_ind.
  - split; simpl; [constructor|done|by intros ? ? ?%not_elem_of_nil|]. intros k. split; [by intros ?%not_elem_of_nil|].
    intros (v & w & Hv & _). by apply not_elem_of_nil in Hv.
  - rewrite foldl_app. by apply learn_step.
Qed.

Lemma rows_unanimous recs st k : learned recs st → dget k (rows st) = unanimous recs k ∧ NoDup (dkeys (rows st)).
Proof.
  intros Hl. unfold rows. set (kept := List.filter _ _).
  assert (NoDup (dkeys kept)) as Hnd.
  { unfold kept. pose proof (learned_keys _ _ Hl) as H. clear -H. induction (by_query st) as [|[q f] d IH]; [constructor|].
    apply NoDup_cons in H as [Hn H]. simpl. case_match; [|auto]. apply NoDup_cons. split; [|auto].
    intros ([q' f'] & E & Hin)%list_elem_of_fmap. simpl in E. subst q'.
    apply list_elem_of_In, List.filter_In in Hin as [Hin _]. apply Hn.
    apply list_elem_of_fmap. exists (q, f'). by rewrite list_elem_of_In. }
  assert (merge_sort row_le kept ≡ₚ kept) as Hp by apply merge_sort_Permutation.
  split; [|unfold dkeys in *; by rewrite Hp]. rewrite <- (dget_perm kept _ k Hnd) by done.
  assert (∀ f, dget k kept = Some f ↔ dget k (by_query st) = Some f ∧ k ∉ ambiguous st) as Hk.
  { intros f. split.
    - intros H%dget_Some_elem. apply list_elem_of_In, List.filter_In in H as [H Ha]. simpl in Ha.
      apply negb_true_iff, mem_false in Ha. split; [|done]. apply dget_elem; [apply Hl|by apply list_elem_of_In].
    - intros [H%dget_Some_elem Ha]. apply dget_elem; [done|]. apply list_elem_of_In, List.filter_In. split; [by apply list_elem_of_In|].
      apply negb_true_iff, mem_false. done. }
  destruct (unanimous recs k) as [f|] eqn:Eu.
  - apply unanimous_Some in Eu as [Hin Hall]. apply Hk.
    assert (¬ disputed recs k) as Hd by (intros (v & w & Hv & Hw & Hne); apply Hne; by rewrite (Hall v), (Hall w)).
    split; [by eapply learned_one|]. by rewrite (learned_amb _ _ Hl).
  - destruct (dget k kept) as [f|]; [|done]. destruct (proj1 (Hk f) eq_refl) as [Hg Ha]. exfalso. apply Ha, (learned_amb _ _ Hl).
    apply (unanimous_None_disputed _ _ f); [by apply Hl|done].
Qed.

Lemma hash_key_json k : hash_key (key_json k) = Ok k.
Proof. by destruct k. Qed.
Lemma hash_all_json l : hash_all (key_json <$> l) = Ok l.
Proof. unfold hash_all. induction l as [|k l IH]; [done|]. rewrite fmap_cons. cbn [mapM]. by rewrite IH, hash_key_json. Qed.
Lemma read_rows l : mapM read_row (row_json <$> l) = Ok ((fun r => (r.1, JArr (key_json <$> r.2))) <$> l).
Proof.
  induction l as [|[[a b] f] l IH]; [done|]. rewrite !fmap_cons. cbn [mapM]. rewrite IH.
  unfold read_row, row_json. simpl. by rewrite !hash_key_json.
Qed.

Lemma table_built sha trace recs v : records trace = Ok recs → build_table sha trace = Ok v →
  ∃ tbl, table v = Ok tbl ∧ ∀ k, dget k tbl = (fun fs => JArr (key_json <$> fs)) <$> unanimous recs k.
Proof.
  intros Hr. unfold build_table. rewrite Hr. cbn [mbind result_bind]. intros [= <-].
  pose proof (learn_all recs) as Hl. set (st := foldl learn _ recs) in *.
  unfold table. change (pitem _ "schema_version") with (Ok (JInt 1)). cbn [mbind result_bind]. change (negb (is_one (JInt 1))) with false.
  cbv iota. change (pitem _ "orders") with (Ok (JArr (row_json <$> rows st))). cbn [mbind result_bind piter]. rewrite read_rows.
  cbn [mbind result_bind]. set (l := (fun r => _) <$> rows st).
  assert (l.*1 = dkeys (rows st)) as Hk by (unfold l, dkeys; rewrite <- list_fmap_compose; apply list_fmap_ext; by intros ? []).
  eexists. split; [done|]. intros k. destruct (rows_unanimous recs st k Hl) as [Hu Hnd]. rewrite fold_dset by (simpl; by rewrite Hk).
  simpl. rewrite <- Hu. unfold l. apply (dget_dmap (fun fs => JArr (key_json <$> fs))).
Qed.

Lemma step_record_files step recs k fs : step_record step = Ok recs → (k, fs) ∈ recs → NoDup fs.
Proof.
  unfold step_record. intros H Hin. inv_ok; try (by apply not_elem_of_nil in Hin).
  apply list_elem_of_singleton in Hin. injection Hin as -> ->. by bool_hyps.
Qed.
Lemma walk_files fuel node recs k fs : walk fuel node = Ok recs → (k, fs) ∈ recs → NoDup fs.
Proof.
  revert node recs. induction fuel as [|fuel IH]; intros node recs; [done|]. cbn [walk]. intros H Hin. inv_ok.
  apply elem_of_app in Hin as [Hin|Hin]; apply elem_of_concat in Hin as (l & Hl & Hm).
  - destruct (mapM_elem _ _ _ _ Heqr1 Hm) as (step & _ & Hs). by eapply step_record_files.
  - destruct (mapM_elem _ _ _ _ Heqr4 Hm) as (c & _ & Hw). by eapply IH.
Qed.
Lemma step_record_fuelled step : fuelled (step_record step).
Proof. unfold step_record, hash_all. fuelled_auto. Qed.
Lemma walk_fuelled fuel node : jsize node ≤ fuel → fuelled (walk fuel node).
Proof.
  revert node. induction fuel as [|fuel IH]; intros node Hf; [pose proof (jsize_pos node); lia|]. cbn [walk].
  apply fuelled_bind; [auto with deltabox nocore|]. intros steps Hs. apply fuelled_bind; [auto with deltabox nocore|]. intros l Hl.
  apply fuelled_bind; [apply fuelled_mapM; intros; apply step_record_fuelled|]. intros mine _.
  apply fuelled_bind; [auto with deltabox nocore|]. intros ch Hc. apply fuelled_bind; [auto with deltabox nocore|]. intros cs Hcs.
  apply fuelled_bind; [|done]. apply fuelled_mapM. intros c Hin. apply IH.
  assert (jsize c < jsize node); [|lia]. apply (piter_children node "children" cs); [|done].
  unfold pget, pget_or in *. destruct node as [| | | | | |d]; try done. by destruct (dget "children" d) as [v|]; injection Hc as <-.
Qed.

Lemma unanimous_files (recs : list (query * list key)) k fs : (∀ k fs, (k, fs) ∈ recs → NoDup fs) → unanimous recs k = Some fs → NoDup fs.
Proof. intros H [Hin _]%unanimous_Some. by eapply H. Qed.

(** C20: a recording is read to its end, and a table built from it makes a live
    literal search show its matches in the recorded order: for a query on which
    all recorded searches agree, and whose files all have live matches, the
    matches of the first recorded file come first, then those of the second, and
    so on, the other matches last, each group in its live order; for any other
    query the matches are left as they are.  No match is ever added, lost or
    changed. *)
Theorem restored_order (sha : string) (trace v : json) {L} (matches : list (string * L)) (text pat : key) :
  build_table sha trace = Ok v →
  ∃ recs tbl, records trace = Ok recs ∧ table v = Ok tbl ∧
    ∃ out, restore_search_order tbl matches (key_json text) (key_json pat) = Ok out ∧ out ≡ₚ matches ∧
      out = match unanimous recs (text, pat) with
            | Some files => if covers files matches then prioritized files matches else matches
            | None => matches
            end.
Proof.
  intros Hb. assert (∃ recs, records trace = Ok recs) as [recs Hr] by (unfold build_table in Hb; inv_ok; eauto).
  destruct (table_built _ _ _ _ Hr Hb) as (tbl & Ht & Hk). exists recs, tbl. split_and!; [done..|].
  assert (∀ k fs, (k, fs) ∈ recs → NoDup fs) as Hnd.
  { unfold records in Hr. inv_ok. intros k fs. by apply walk_files with (1 := Hr). }
  unfold restore_search_order. rewrite !hash_key_json. cbn [mbind result_bind]. rewrite Hk.
  destruct (unanimous recs (text, pat)) as [fs|] eqn:Eu; [|by exists matches]. cbn [fmap option_fmap option_map piter mbind result_bind].
  rewrite hash_all_json. cbn [mbind result_bind]. destruct (covers fs matches) eqn:Ec; [|by exists matches].
  exists (prioritized fs matches). cbn [negb]. unfold reorder. cbn [piter mbind result_bind]. rewrite hash_all_json. cbn [mbind result_bind].
  rewrite Ec. pose proof (unanimous_files _ _ _ Hnd Eu) as Hfs. rewrite sort_prioritized by done. split_and!; [done| |done].
  rewrite <- sort_prioritized by done. apply sort_by_perm.
Qed.

(** ** An example: two searches agree, two others do not *)

Definition search_step (code : string) (files : list string) : json :=
  JObj [("action", JObj [("action_args_class", JStr FIND_CODE_SNIPPET); ("code_snippet", JStr code); ("file_pattern", JNull)]);
        ("observation", JObj [("properties", JObj [("search_hits",
           JObj [("files", JArr ((fun f => JObj [("file_path", JStr f)]) <$> files))])])])].
Definition demo_trace : json :=
  JObj [("root", JObj [("action_steps", JArr [search_step "x" ["b"; "a"]; search_step "y" ["a"]]);
                       ("children", JArr [JObj [("action_steps", JArr [search_step "x" ["b"; "a"]; search_step "y" ["b"]])]])])].
Definition demo_table : json := match build_table "0" demo_trace with Ok v => v | Err _ => JNull end.
Definition demo_matches : list (string * Z) := [("a", 1%Z); ("c", 2%Z); ("b", 3%Z); ("a", 4%Z)].
Example demo_live (tbl := match table demo_table with Ok t => t | Err _ => [] end) :
  restore_search_order tbl demo_matches (JStr "x") JNull = Ok [("b", 3%Z); ("a", 1%Z); ("a", 4%Z); ("c", 2%Z)] ∧
  restore_search_order tbl demo_matches (JStr "y") JNull = Ok demo_matches.
Proof. vm_compute. done. Qed.

Lemma restored_order_witness :
  build_table "0" demo_trace = Ok demo_table ∧
  ∃ recs tbl, records demo_trace = Ok recs ∧ table demo_table = Ok tbl ∧
    ∃ out, restore_search_order tbl demo_matches (key_json (KStr "x")) (key_json KNone) = Ok out ∧ out ≡ₚ demo_matches ∧
      out = match unanimous recs (KStr "x", KNone) with
            | Some files => if covers files demo_matches then prioritized files demo_matches else demo_matches
            | None => demo_matches
            end.
Proof. split; [vm_compute; reflexivity|]. apply (restored_order "0" demo_trace demo_table demo_matches (KStr "x") KNone). vm_compute. reflexivity. Defined.
End SearchOrder.
