(* ===== verification/HistoryOrder.v ===== *)
(** * Recorded order of viewed spans ([replay/history_order.py])

    The agent prints the spans of a file from a Python set; the recording keeps
    the order its run happened to have.  [build_order_table] learns that order
    from the synthetic ViewCode messages, [restore_span_order] applies it.  Text
    is ASCII; the staged table is JSON at the level of values.
    [stage_history_order], which patches a copy of a package that is not part of
    the repository, is left out. *)

From S2P Require Import Prelude PyStr PyDict Json JsonText PyText RecordedOrder.
From Stdlib Require Import Ascii.

Module HistoryOrder.

(** ** Printing with an indentation ([json.dumps(j, indent=2, ensure_ascii=False)]) *)

Definition raw_escape (c : ascii) : string :=
  if (nat_of_ascii c =? 127)%nat then String c "" else escape c.
Definition raw_quote (s : string) : string :=
  String quote_char (sconcat (raw_escape <$> String.list_ascii_of_string s) +:+ String quote_char "").
Definition block (level : nat) (l r : string) (items : list string) : string :=
  let pad n := nl +:+ spaces (2 * n) in
  match items with
  | [] => l +:+ r
  | _ => l +:+ pad (S level) +:+ join ("," +:+ pad (S level)) items +:+ pad level +:+ r
  end.
Fixpoint dumps2 (level : nat) (j : json) : result string :=
  match j with
  | JFloat _ => raise OutOfModel "text of a float"
  | JStr s => Ok (raw_quote s)
  | JArr l =>
      items ← (fix all (l : list json) : result (list string) :=
                 match l with [] => Ok [] | x :: l => t ← dumps2 (S level) x; ts ← all l; Ok (t :: ts) end) l;
      Ok (block level "[" "]" items)
  | JObj d =>
      items ← (fix all (d : list (string * json)) : result (list string) :=
                 match d with
                 | [] => Ok []
                 | (k, x) :: d => t ← dumps2 (S level) x; ts ← all d; Ok ((raw_quote k +:+ ": " +:+ t) :: ts)
                 end) d;
      Ok (block level "{" "}" items)
  | j => Ok (dumps j)
  end.

(** ** The recorded messages *)

Definition SYNTHETIC_PREFIX : string :=
  "Thought: <thoughts>Let's view the content in the updated files</thoughts>" +:+ nl +:+ "Action: ViewCode" +:+ nl.

(** What a generator yields before it ends or raises. *)
Definition yields : Type := list json * result unit.
Definition yapp (a b : yields) : yields := match a with (l, Ok _) => (l ++ b.1, b.2) | _ => a end.
Definition yerr {A} (r : result A) (k : A → yields) : yields := match r with Ok a => k a | Err e => ([], Err e) end.
Definition ynil : yields := ([], Ok tt).
Fixpoint yall {A} (f : A → yields) (l : list A) : yields := match l with [] => ynil | x :: l => yapp (f x) (yall f l) end.

Definition input_of (completion : json) : yields :=
  if is_dict completion then yerr (pget completion "input") (fun i => ([por i (JArr [])], Ok tt)) else ynil.
Definition dict_values (j : json) : result (list json) := match j with JObj d => Ok (dvals d) | _ => no_attribute end.
Definition completion_inputs (value : json) : yields :=
  match value with JArr l => yall input_of l | v => input_of v end.

Fixpoint recorded_inputs (fuel : nat) (node : json) : yields :=
  match fuel with
  | O => ([], raise OutOfFuel "")
  | S fuel =>
      yapp (yerr (c ← pget node "completions"; dict_values (por c (JObj []))) (yall completion_inputs))
     (yapp (yerr (s ← pget node "action_steps"; piter (por s (JArr [])))
             (yall (fun step => yerr (o ← pget step "observation"; pget (por o (JObj [])) "execution_completion") input_of)))
           (yerr (c ← pget node "children"; piter (por c (JArr []))) (yall (recorded_inputs fuel))))
  end.

(** ** Learning *)

Definition signature : Type := string * list string.
Definition strs (l : list json) : option (list string) := mapM (fun j => match j with JStr s => Some s | _ => None end) l.
Definition span_le (a b : string) : Prop := str_leb a b = true.
#[local] Instance span_le_dec a b : Decision (span_le a b).
Proof. unfold span_le. apply _. Defined.
(** [_signature], with the spans as strings *)
Definition _signature (file_path span_ids : json) : result (signature * list string) :=
  match file_path, span_ids with
  | JStr path, JArr l =>
      match strs l with
      | Some spans => Ok ((path, merge_sort span_le spans), spans)
      | None => raise ValueError "synthetic ViewCode span IDs must be strings"
      end
  | _, _ => raise ValueError "synthetic ViewCode requires a path and span list"
  end.

Record learned := Learned { orders : list (signature * list string); ambiguous : list signature; messages : nat }.
Definition set_orders (st : learned) (o : list (signature * list string)) : learned := Learned o (ambiguous st) (messages st).

(** One observed order. *)
Definition learn (strict : bool) (st : learned) (k : signature) (spans : list string) : result learned :=
  if mem k (ambiguous st) then Ok st else
  match dget k (orders st) with
  | Some known =>
      if bool_decide (known = spans) then Ok (set_orders st (dset k spans (orders st)))
      else if strict then raise ValueError "ambiguous historical span order"
      else Ok (Learned (dpop k (orders st)) (k :: ambiguous st) (messages st))
  | None => Ok (set_orders st (dset k spans (orders st)))
  end.

(** [set(j) == names] *)
Definition has_exactly (j : json) (names : list string) : result bool :=
  l ← piter j; l ← mapM hash_key l;
  Ok (forallb (fun k => mem k (KStr <$> names)) l && forallb (fun n => mem (KStr n) l) names).
(** The order a file of a message shows, unless all its spans are shown. *)
Definition file_order (file : json) : result (option (signature * list string)) :=
  ok ← has_exactly file ["file_path"; "start_line"; "end_line"; "span_ids"];
  if negb ok then raise ValueError "unsupported synthetic ViewCode file schema" else
  spans ← pitem file "span_ids";
  match spans with
  | JNull | JArr [] => Ok None
  | _ => path ← pitem file "file_path"; s ← _signature path spans; Ok (Some s)
  end.
Fixpoint learn_files (strict : bool) (st : learned) (files : list json) : result learned :=
  match files with
  | [] => Ok st
  | f :: files =>
      o ← file_order f;
      st ← match o with Some (k, spans) => learn strict st k spans | None => Ok st end;
      learn_files strict st files
  end.
(** The files of a synthetic ViewCode message, [None] for any other message. *)
Definition view_files (message : json) : result (option (list json)) :=
  content ← pget message "content"; role ← pget message "role";
  match content with
  | JStr text =>
      if negb (is_string role "assistant" && startswith text SYNTHETIC_PREFIX) then Ok None else
      args ← loads (sdrop (String.length SYNTHETIC_PREFIX) text);
      ok ← has_exactly args ["files"];
      if negb ok then raise ValueError "unsupported synthetic ViewCode schema" else
      files ← pitem args "files";
      match files with
      | JArr l =>
          printed ← dumps2 0 args;
          if negb (bool_decide (text = SYNTHETIC_PREFIX +:+ printed))
          then raise ValueError "unsupported synthetic ViewCode serialization" else Ok (Some l)
      | _ => raise ValueError "unsupported synthetic ViewCode schema"
      end
  | _ => Ok None
  end.
Fixpoint learn_messages (strict : bool) (st : learned) (l : list json) : result learned :=
  match l with
  | [] => Ok st
  | m :: l =>
      v ← view_files m;
      st ← match v with
           | Some files => learn_files strict (Learned (orders st) (ambiguous st) (S (messages st))) files
           | None => Ok st
           end;
      learn_messages strict st l
  end.
Fixpoint learn_inputs (strict : bool) (st : learned) (inputs : list json) : result learned :=
  match inputs with
  | [] => Ok st
  | i :: inputs => l ← piter i; st ← learn_messages strict st l; learn_inputs strict st inputs
  end.

Definition SCOPE : string := "synthetic ViewCode span order only; message differences follow replay message policy".
(** Paths, then sorted spans in the order of lists. *)
Fixpoint strs_leb (a b : list string) : bool :=
  match a, b with
  | [], _ => true
  | _ :: _, [] => false
  | x :: a, y :: b => if bool_decide (x = y) then strs_leb a b else str_leb x y
  end.
Definition entry_le (a b : signature * list string) : Prop :=
  (if bool_decide (a.1.1 = b.1.1) then strs_leb a.1.2 b.1.2 else str_leb a.1.1 b.1.1) = true.
#[local] Instance entry_le_dec a b : Decision (entry_le a b).
Proof. unfold entry_le. apply _. Defined.
Definition row_json (r : signature * list string) : json :=
  JObj [("file_path", JStr r.1.1); ("span_ids", JArr (JStr <$> r.2))].
(** [sha]: the digest of the recording *)
Definition build_order_table (sha : string) (strict : bool) (trace : json) : result json :=
  root ← pitem trace "root";
  let '(inputs, last) := recorded_inputs (jsize root) root in
  st ← learn_inputs strict (Learned [] [] 0) inputs;
  _ ← last;
  Ok (JObj [("schema_version", JInt 1); ("scope", JStr SCOPE); ("trace_sha256", JStr sha);
            ("synthetic_messages", JInt (Z.of_nat (messages st)));
            ("ambiguous_keys_passthrough", JInt (Z.of_nat (length (ambiguous st))));
            ("orders", JArr (row_json <$> merge_sort entry_le (orders st)))]).

(** ** Live messages *)

Fixpoint read_rows (o : list (signature * list string)) (rows : list json) : result (list (signature * list string)) :=
  match rows with
  | [] => Ok o
  | r :: rows =>
      path ← pitem r "file_path"; spans ← pitem r "span_ids";
      s ← _signature path spans;
      match dget s.1 o with
      | Some known => if bool_decide (known = s.2) then read_rows (dset s.1 s.2 o) rows
                      else raise ValueError "ambiguous staged history order table"
      | None => read_rows (dset s.1 s.2 o) rows
      end
  end.
Definition _runtime_table (value : json) : result (list (signature * list string)) :=
  version ← pitem value "schema_version";
  if negb (is_one version) then raise ValueError "unsupported history order table version" else
  rows ← pitem value "orders"; rows ← piter rows;
  o ← read_rows [] rows;
  _ ← pitem value "trace_sha256";
  Ok o.

Record counts := Counts { lookups : Z; reordered : Z; misses : Z }.
(** [strict]: MOCK_MESSAGE_POLICY asks for it *)
Definition restore_span_order (strict : bool) (tbl : list (signature * list string)) (file_path span_ids : json) : M counts (list string) :=
  s ← lift_result (_signature file_path span_ids);
  _ ← mmod (fun c => Counts (lookups c + 1) (reordered c) (misses c));
  match dget s.1 tbl with
  | None =>
      _ ← mmod (fun c => Counts (lookups c) (reordered c) (misses c + 1));
      if strict then mraise ValueError "unrecorded synthetic ViewCode span signature" else mret s.2
  | Some ordered =>
      _ ← mmod (fun c => Counts (lookups c) (reordered c + (if bool_decide (ordered = s.2) then 0 else 1)) (misses c));
      mret ordered
  end.

(** ** What was observed *)

(** Every order a recording shows, as it is read. *)
Definition files_orders (files : list json) : result (list (signature * list string)) :=
  l ← mapM file_order files; Ok (omap id l).
Definition message_orders (m : json) : result (list (signature * list string)) :=
  v ← view_files m; match v with Some files => files_orders files | None => Ok [] end.
Definition input_orders (i : json) : result (list (signature * list string)) :=
  l ← piter i; l ← mapM message_orders l; Ok (concat l).
Definition observed (trace : json) : result (list (signature * list string)) :=
  root ← pitem trace "root";
  let '(inputs, last) := recorded_inputs (jsize root) root in
  l ← mapM input_orders inputs; _ ← last; Ok (concat l).

Record learned_ok (strict : bool) (recs : list (signature * list string)) (st : learned) : Prop := {
  ok_keys : NoDup (dkeys (orders st));
  ok_orders : ∀ k, dget k (orders st) = unanimous recs k;
  ok_ambiguous : ∀ k, k ∈ ambiguous st ↔ disputed recs k;
  ok_strict : strict = true → ambiguous st = []
}.

Lemma learn_ok strict recs st k spans st' :
  learned_ok strict recs st → learn strict st k spans = Ok st' → learned_ok strict (recs ++ [(k, spans)]) st'.
Proof.
  intros [Hk Ho Ha Hs] H. unfold learn in H. destruct (mem k (ambiguous st)) eqn:Em.
  - injection H as <-. apply mem_true, Ha in Em. split; [done| | |done]; intros k'.
    + rewrite Ho. destruct (decide (k' = k)) as [->|Hne]; [|by rewrite unanimous_snoc_ne].
      rewrite !disputed_not_unanimous; [done| |done]. apply disputed_snoc. by left.
    + rewrite Ha, disputed_snoc. split; [auto|]. intros [|[-> _]]; done.
  - apply mem_false in Em. rewrite Ha in Em. pose proof (Ho k) as Hok. destruct (dget k (orders st)) as [known|] eqn:E.
    + symmetry in Hok. apply unanimous_Some in Hok as [Hin Hall]. case_bool_decide as Hks; [|destruct strict; [done|]]; injection H as <-.
      * subst known. split; cbn [set_orders orders ambiguous]; [by apply dkeys_dset_NoDup| | |done]; intros k'.
        -- destruct (decide (k' = k)) as [->|Hne]; [rewrite dget_dset_eq; symmetry; by apply unanimous_snoc_same|].
           rewrite dget_dset_ne, Ho by done. by rewrite unanimous_snoc_ne.
        -- rewrite Ha, disputed_snoc. split; [auto|]. intros [|(-> & w & Hw & Hne)]; [done|]. destruct Hne. by apply Hall.
      * assert (disputed (recs ++ [(k, spans)]) k) as Hd by (apply disputed_snoc; right; split; [done|]; by exists known).
        split; cbn [orders ambiguous]; [by apply dpop_NoDup| | |done]; intros k'.
        -- destruct (decide (k' = k)) as [->|Hne]; [by rewrite dget_dpop_eq, disputed_not_unanimous|].
           rewrite dget_dpop_ne, Ho by done. by rewrite unanimous_snoc_ne.
        -- rewrite elem_of_cons, Ha, disputed_snoc. split; [|intros [|[? _]]; auto].
           intros [->|]; [|auto]. by apply disputed_snoc in Hd.
    + injection H as <-. assert (∀ w, (k, w) ∉ recs) as Hnew by (intros w; by apply unrecorded).
      split; cbn [set_orders orders ambiguous]; [by apply dkeys_dset_NoDup| | |done]; intros k'.
      * destruct (decide (k' = k)) as [->|Hne].
        -- rewrite dget_dset_eq. symmetry. apply unanimous_snoc_same. by intros w ?%Hnew.
        -- rewrite dget_dset_ne, Ho by done. by rewrite unanimous_snoc_ne.
      * rewrite Ha, disputed_snoc. split; [auto|]. intros [|(-> & w & Hw & _)]; [done|]. by apply Hnew in Hw.
Qed.
Lemma learned_count strict recs st n : learned_ok strict recs st → learned_ok strict recs (Learned (orders st) (ambiguous st) n).
Proof. by intros []. Qed.

Lemma learn_files_ok strict files : ∀ recs st st', learned_ok strict recs st → learn_files strict st files = Ok st' →
  ∃ more, files_orders files = Ok more ∧ learned_ok strict (recs ++ more) st'.
Proof.
  unfold files_orders. induction files as [|f files IH]; intros recs st st' Hst H; cbn [learn_files mapM] in *.
  { injection H as <-. exists []. by rewrite app_nil_r. }
  destruct (file_order f) as [o|]; [|done]. cbn [mbind result_bind] in *.
  destruct o as [[k spans]|]; cbn [mbind result_bind] in H.
  - destruct (learn strict st k spans) as [st1|] eqn:El; [|done]. apply (learn_ok _ _ _ _ _ _ Hst) in El.
    destruct (IH _ _ _ El H) as (more & Hm & Hok). destruct (mapM file_order files) as [l|]; [|done]. cbn [mbind result_bind] in *.
    injection Hm as <-. exists ((k, spans) :: omap id l). split; [done|]. by rewrite <- app_assoc in Hok.
  - destruct (IH _ _ _ Hst H) as (more & Hm & Hok). destruct (mapM file_order files) as [l|]; [|done]. cbn [mbind result_bind] in *.
    injection Hm as <-. by exists (omap id l).
Qed.
Lemma learn_messages_ok strict l : ∀ recs st st', learned_ok strict recs st → learn_messages strict st l = Ok st' →
  ∃ more, (m ← mapM message_orders l; Ok (concat m)) = Ok more ∧ learned_ok strict (recs ++ more) st'.
Proof.
  induction l as [|m l IH]; intros recs st st' Hst H; cbn [learn_messages mapM] in *.
  { injection H as <-. exists []. by rewrite app_nil_r. }
  destruct (view_files m) as [v|] eqn:Ev; [|done]. cbn [mbind result_bind] in H.
  assert (∃ more st1, message_orders m = Ok more ∧
    learned_ok strict (recs ++ more) st1 ∧ learn_messages strict st1 l = Ok st') as (more & st1 & Hm & Hst1 & H1).
  { unfold message_orders. rewrite Ev. destruct v as [files|]; [|exists [], st; by rewrite app_nil_r].
    destruct (learn_files _ _ files) as [st1|] eqn:Ef; [|done].
    destruct (learn_files_ok _ _ _ _ _ (learned_count _ _ _ _ Hst) Ef) as (more & Hm & Hst1). eauto. }
  rewrite Hm. cbn [mbind result_bind]. destruct (IH _ _ _ Hst1 H1) as (rest & Hr & Hok).
  destruct (mapM message_orders l) as [ls|]; [|done]. cbn [mbind result_bind] in *. injection Hr as <-.
  exists (more ++ concat ls). split; [done|]. by rewrite app_assoc.
Qed.
Lemma learn_inputs_ok strict l : ∀ recs st st', learned_ok strict recs st → learn_inputs strict st l = Ok st' →
  ∃ more, (m ← mapM input_orders l; Ok (concat m)) = Ok more ∧ learned_ok strict (recs ++ more) st'.
Proof.
  induction l as [|i l IH]; intros recs st st' Hst H; cbn [learn_inputs mapM] in *.
  { injection H as <-. exists []. by rewrite app_nil_r. }
  destruct (piter i) as [ms|] eqn:Ei; [|done]. cbn [mbind result_bind] in H.
  destruct (learn_messages strict st ms) as [st1|] eqn:Em; [|done]. cbn [mbind result_bind] in H.
  destruct (learn_messages_ok _ _ _ _ _ Hst Em) as (more & Hm & Hst1).
  assert (input_orders i = Ok more) as -> by (unfold input_orders; rewrite Ei; exact Hm). cbn [mbind result_bind].
  destruct (IH _ _ _ Hst1 H) as (rest & Hr & Hok).
  destruct (mapM input_orders l) as [ks|]; [|done]. cbn [mbind result_bind] in *. injection Hr as <-.
  exists (more ++ concat ks). split; [done|]. by rewrite app_assoc.
Qed.

(** ** Signatures *)

#[local] Instance span_le_trans : Transitive span_le.
Proof. intros x y z. apply str_leb_trans. Qed.
#[local] Instance span_le_total : Total span_le.
Proof. intros x y. apply str_leb_total. Qed.
#[local] Instance span_le_antisymm : AntiSymm (=) span_le.
Proof. intros x y. apply str_leb_antisym. Qed.

Definition sign (path : string) (spans : list string) : signature := (path, merge_sort span_le spans).
Lemma sign_perm path s t : sign path s = sign path t ↔ s ≡ₚ t.
Proof.
  unfold sign. split.
  - intros [= H]. by rewrite <- (merge_sort_Permutation span_le s), H, merge_sort_Permutation.
  - intros H. f_equal. apply (StronglySorted_unique span_le); try apply (StronglySorted_merge_sort span_le).
    by rewrite !merge_sort_Permutation.
Qed.
Lemma strs_JStr l : strs (JStr <$> l) = Some l.
Proof. unfold strs. induction l as [|x l IH]; [done|]. rewrite fmap_cons. cbn [mapM]. by rewrite IH. Qed.
Lemma signature_str path l : _signature (JStr path) (JArr (JStr <$> l)) = Ok (sign path l, l).
Proof. unfold _signature. by rewrite strs_JStr. Qed.
Lemma signature_sign path spans r : _signature path spans = Ok r → r.1 = sign r.1.1 r.2.
Proof. unfold _signature. intros H. by inv_ok. Qed.

Lemma file_order_sign f r : file_order f = Ok (Some r) → r.1 = sign r.1.1 r.2.
Proof.
  unfold file_order. intros H. inv_ok; try discriminate; by eapply signature_sign.
Qed.
Lemma files_orders_sign files out r : files_orders files = Ok out → r ∈ out → r.1 = sign r.1.1 r.2.
Proof.
  unfold files_orders. destruct (mapM file_order files) as [os|] eqn:E; [|done]. intros [= <-].
  intros ([q|] & Ho & Hq)%list_elem_of_omap; [|done]. injection Hq as ->. destruct (mapM_elem _ _ _ _ E Ho) as (f & _ & Hf).
  by eapply file_order_sign.
Qed.
Lemma message_orders_sign m out r : message_orders m = Ok out → r ∈ out → r.1 = sign r.1.1 r.2.
Proof.
  unfold message_orders. destruct (view_files m) as [[files|]|]; [|by intros [= <-] ?%not_elem_of_nil|done]. apply files_orders_sign.
Qed.
Lemma input_orders_sign i out r : input_orders i = Ok out → r ∈ out → r.1 = sign r.1.1 r.2.
Proof.
  unfold input_orders. destruct (piter i) as [l|]; [|done]. intros H Hr.
  destruct (concat_mapM_elem _ _ _ _ H Hr) as (m & ys & _ & Hm & Hy). by eapply message_orders_sign.
Qed.
Lemma observed_sign trace recs r : observed trace = Ok recs → r ∈ recs → r.1 = sign r.1.1 r.2.
Proof.
  unfold observed. destruct (pitem trace "root") as [root|]; [|done]. cbn [mbind result_bind].
  destruct (recorded_inputs _ _) as [inputs [[]|]]; [|destruct (mapM _ _); done]. intros H Hr.
  destruct (concat_mapM_elem input_orders inputs recs r) as (i & ys & _ & Hi & Hy); [exact H|done|]. by eapply input_orders_sign.
Qed.

(** ** The staged table *)

Lemma read_rows_ok rows : ∀ o, NoDup (dkeys o ++ dkeys rows) → (∀ r, r ∈ rows → r.1 = sign r.1.1 r.2) →
  read_rows o (row_json <$> rows) = Ok (o ++ rows).
Proof.
  induction rows as [|[k spans] rows IH]; intros o Hnd Hs; [by rewrite app_nil_r|].
  rewrite fmap_cons. cbn [read_rows]. change (pitem (row_json (k, spans)) "file_path") with (Ok (JStr k.1)).
  change (pitem (row_json (k, spans)) "span_ids") with (Ok (JArr (JStr <$> spans))). cbn [mbind result_bind].
  rewrite signature_str. cbn [mbind result_bind fst snd].
  assert (k = sign k.1 spans) as Hk by (apply (Hs (k, spans)); left). rewrite <- Hk.
  assert (k ∉ dkeys o) as Hf.
  { apply NoDup_app in Hnd as (_ & H & _). intros Hin. apply (H k Hin). left. }
  rewrite (proj2 (dget_None _ _)) by done. rewrite dset_fresh by done. rewrite IH.
  - by rewrite <- app_assoc.
  - unfold dkeys in *. rewrite fmap_app, <- app_assoc. done.
  - intros r Hr. apply Hs. by right.
Qed.

Lemma table_staged sha strict trace v : build_order_table sha strict trace = Ok v →
  ∃ recs tbl, observed trace = Ok recs ∧ _runtime_table v = Ok tbl ∧ (∀ k, dget k tbl = unanimous recs k) ∧
    (strict = true → ∀ k, ¬ disputed recs k).
Proof.
  unfold build_order_table. intros H. destruct (pitem trace "root") as [root|] eqn:Et; [|done]. cbn [mbind result_bind] in *.
  destruct (recorded_inputs (jsize root) root) as [inputs last] eqn:Ei. destruct (learn_inputs strict _ inputs) as [st|] eqn:El; [|done].
  destruct last as [[]|]; [|done]. cbn [mbind result_bind] in *. injection H as <-.
  assert (learned_ok strict [] (Learned [] [] 0)) as H0.
  { split; simpl; [constructor|done| |done]. intros k. split; [by intros ?%not_elem_of_nil|]. intros (a & b & Hin & _). by apply not_elem_of_nil in Hin. }
  destruct (learn_inputs_ok _ _ _ _ _ H0 El) as (recs & Hr & Hok). cbn [app] in Hok.
  assert (observed trace = Ok recs) as Hobs.
  { unfold observed. rewrite Et. cbn [mbind result_bind]. rewrite Ei. destruct (mapM input_orders inputs); [exact Hr|done]. }
  rewrite Hobs. set (sorted := merge_sort entry_le (orders st)).
  assert (sorted ≡ₚ orders st) as Hp by apply merge_sort_Permutation.
  assert (NoDup (dkeys sorted)) as Hnd by (unfold dkeys; rewrite Hp; apply Hok).
  exists recs, sorted. split_and!; [done| | |].
  - unfold _runtime_table. change (pitem _ "schema_version") with (Ok (JInt 1)). cbn [mbind result_bind].
    change (negb (is_one (JInt 1))) with false. cbv iota. change (pitem _ "orders") with (Ok (JArr (row_json <$> sorted))).
    cbn [mbind result_bind piter]. rewrite read_rows_ok; [done|done|].
    intros [k spans] Hin. apply (observed_sign trace recs); [done|].
    apply (dget_elem k) in Hin; [|done]. rewrite (dget_perm _ (orders st) k) in Hin by done.
    rewrite (ok_orders _ _ _ Hok) in Hin. by apply unanimous_Some in Hin as [? _].
  - intros k. rewrite (dget_perm _ (orders st) k) by done. apply Hok.
  - intros Hs k Hd. apply (ok_ambiguous _ _ _ Hok) in Hd. rewrite (ok_strict _ _ _ Hok Hs) in Hd. by apply not_elem_of_nil in Hd.
Qed.

(** ** What a live message prints *)

(** The recording shows [spans] in this order for the file. *)
Definition recorded (recs : list (signature * list string)) (path : string) (spans : list string) : Prop :=
  ∃ k, (k, spans) ∈ recs ∧ k.1 = path.
Lemma recorded_live trace recs path live s : observed trace = Ok recs →
  recorded recs path s ∧ s ≡ₚ live ↔ (sign path live, s) ∈ recs.
Proof.
  intros Ho. split.
  - intros [(k & Hk & <-) Hp]. pose proof (observed_sign _ _ _ Ho Hk) as Hs. simpl in Hs.
    by rewrite <- (proj2 (sign_perm k.1 s live) Hp), <- Hs.
  - intros Hin. split; [by exists (sign path live)|]. apply (sign_perm path). symmetry. exact (observed_sign _ _ _ Ho Hin).
Qed.

(** C21: a table built from a recording prints the spans of a file in their
    recorded order, and never other spans: if the recording shows these spans of
    this file in one order only, that order is printed; if it shows them in no
    order or in several, the live order is kept, or refused under the strict
    message policy; and a table built under the strict policy comes from a
    recording without two orders of the same spans. *)
Theorem restored_spans (sha : string) (strict strict' : bool) (trace v : json) (path : string) (live : list string) (c : counts) :
  build_order_table sha strict trace = Ok v →
  ∃ recs tbl, observed trace = Ok recs ∧ _runtime_table v = Ok tbl ∧
    let out := (restore_span_order strict' tbl (JStr path) (JArr (JStr <$> live)) c).1 in
    (∀ s, recorded recs path s → s ≡ₚ live → (∀ t, recorded recs path t → t ≡ₚ live → t = s) → out = Ok s) ∧
    ((∀ s, recorded recs path s → s ≡ₚ live → ∃ t, recorded recs path t ∧ t ≡ₚ live ∧ t ≠ s) →
       out = if strict' then raise ValueError "unrecorded synthetic ViewCode span signature" else Ok live) ∧
    (strict = true → ∀ s t, recorded recs path s → recorded recs path t → s ≡ₚ t → s = t).
Proof.
  intros Hb. destruct (table_staged _ _ _ _ Hb) as (recs & tbl & Ho & Ht & Hu & Hs). exists recs, tbl. split_and!; [done..|].
  unfold restore_span_order, lift_result, mbind, M_bind, mmod. rewrite signature_str. cbv beta iota zeta. cbn [fst snd]. rewrite Hu.
  split_and!.
  - intros s Hr Hp Hall. assert (unanimous recs (sign path live) = Some s) as ->; [|done].
    apply unanimous_Some. split; [by apply (recorded_live trace)|]. intros w Hw. apply (recorded_live trace) in Hw as [? ?]; auto.
  - intros Hmany. assert (unanimous recs (sign path live) = None) as ->; [|by destruct strict'].
    destruct (unanimous _ _) as [s|] eqn:E; [|done]. apply unanimous_Some in E as [Hin Hall].
    destruct (proj2 (recorded_live _ _ _ _ _ Ho) Hin) as [Hr Hp]. destruct (Hmany s Hr Hp) as (t & Hrt & Hpt & Hne).
    destruct Hne. apply Hall. by apply (recorded_live trace).
  - intros Hstrict s t Hr1 Hr2 Hp. apply dec_stable. intros Hne. apply (Hs Hstrict (sign path t)). exists s, t.
    split_and!; [by apply (recorded_live trace)|by apply (recorded_live trace)|done].
Qed.

(** The fuel of the walk is enough. *)
Lemma yapp_fuelled a b : fuelled a.2 → fuelled b.2 → fuelled (yapp a b).2.
Proof. destruct a as [l [[]|e]], b; simpl; auto. Qed.
Lemma yerr_fuelled {A} (r : result A) k : fuelled r → (∀ a, r = Ok a → fuelled (k a).2) → fuelled (yerr r k).2.
Proof. destruct r; simpl; auto. Qed.
Lemma yall_fuelled {A} (f : A → yields) l : (∀ x, x ∈ l → fuelled (f x).2) → fuelled (yall f l).2.
Proof.
  induction l as [|x l IH]; intros H; [done|]. cbn [yall]. apply yapp_fuelled; [apply H; left|]. apply IH. intros y Hy. apply H. by right.
Qed.
Lemma input_of_fuelled c : fuelled (input_of c).2.
Proof. unfold input_of. case_match; [|done]. apply yerr_fuelled; [auto with deltabox nocore|done]. Qed.
Lemma recorded_inputs_fuelled fuel node : jsize node ≤ fuel → fuelled (recorded_inputs fuel node).2.
Proof.
  revert node. induction fuel as [|fuel IH]; intros node Hf; [pose proof (jsize_pos node); lia|]. cbn [recorded_inputs].
  apply yapp_fuelled; [|apply yapp_fuelled]; apply yerr_fuelled; try (fuelled_auto; by destruct (por _ _)).
  - intros cs _. apply yall_fuelled. intros v _. unfold completion_inputs.
    destruct v; try apply input_of_fuelled. apply yall_fuelled. intros; apply input_of_fuelled.
  - intros steps _. apply yall_fuelled. intros step _. apply yerr_fuelled; [fuelled_auto|]. intros; apply input_of_fuelled.
  - intros cs Hcs. apply yall_fuelled. intros c Hin. apply IH. assert (jsize c < jsize node); [|lia].
    apply (piter_children node "children" cs); [|done].
    unfold pget, pget_or in *. destruct node as [| | | | | |d]; try done. cbn [mbind result_bind] in *. by destruct (dget "children" d).
Qed.

(** ** An example *)

Definition view_message (files : list (string * list string)) : json :=
  let args := JObj [("files", JArr ((fun f => JObj [("file_path", JStr f.1); ("start_line", JNull); ("end_line", JNull);
                                                    ("span_ids", JArr (JStr <$> f.2))]) <$> files))] in
  JObj [("role", JStr "assistant"); ("content", JStr (SYNTHETIC_PREFIX +:+ match dumps2 0 args with Ok t => t | Err _ => "" end))].
Definition completion (l : list json) : json := JObj [("input", JArr l)].
Definition demo_trace : json :=
  JObj [("root", JObj [("completions", JObj [("build_action", completion [view_message [("a.py", ["g"; "f"])]])]);
    ("children", JArr [JObj [("completions", JObj [("build_action",
        JArr [completion [view_message [("a.py", ["g"; "f"]); ("b.py", ["x"; "y"])]]; completion [view_message [("b.py", ["y"; "x"])]]])])]])])].
Definition demo_table : json := match build_order_table "0" false demo_trace with Ok v => v | Err _ => JNull end.
Example demo_spans (tbl := match _runtime_table demo_table with Ok t => t | Err _ => [] end) (c := Counts 0 0 0) :
  restore_span_order false tbl (JStr "a.py") (JArr [JStr "f"; JStr "g"]) c = (Ok ["g"; "f"], Counts 1 1 0) ∧
  restore_span_order false tbl (JStr "b.py") (JArr [JStr "x"; JStr "y"]) c = (Ok ["x"; "y"], Counts 1 0 1) ∧
  build_order_table "0" true demo_trace = raise ValueError "ambiguous historical span order".
Proof. vm_compute. done. Qed.

Lemma restored_spans_witness :
  build_order_table "0" false demo_trace = Ok demo_table ∧
  ∃ recs tbl, observed demo_trace = Ok recs ∧ _runtime_table demo_table = Ok tbl ∧
    let out := (restore_span_order true tbl (JStr "a.py") (JArr (JStr <$> ["f"; "g"])) (Counts 0 0 0)).1 in
    (∀ s, recorded recs "a.py" s → s ≡ₚ ["f"; "g"] → (∀ t, recorded recs "a.py" t → t ≡ₚ ["f"; "g"] → t = s) → out = Ok s) ∧
    ((∀ s, recorded recs "a.py" s → s ≡ₚ ["f"; "g"] → ∃ t, recorded recs "a.py" t ∧ t ≡ₚ ["f"; "g"] ∧ t ≠ s) →
       out = raise ValueError "unrecorded synthetic ViewCode span signature") ∧
    (false = true → ∀ s t, recorded recs "a.py" s → recorded recs "a.py" t → s ≡ₚ t → s = t).
Proof.
  split; [vm_compute; reflexivity|].
  apply (restored_spans "0" false true demo_trace demo_table "a.py" ["f"; "g"] (Counts 0 0 0)). vm_compute. reflexivity.
Defined.
End HistoryOrder.
