(* ===== verification/Schedule.v ===== *)
(** * From a recorded search tree to a replay schedule ([tree_to_schedule.py])

    [convert] walks the nodes of a trajectory in the order the search expanded
    them and emits the checkpoints and restores that reproduce it.  Events,
    nodes and worker operations are the dictionaries of the code ([json]).

    Not modelled: Python's recursion limit, and node ids, token counts and
    times of model calls that are booleans or floats. *)

From S2P Require Import Prelude PyStr PyDict Json Sha1.

Module Schedule.
Import Sha1.

(** ** Worker operations *)

Definition FS_MUTATING_ACTIONS : list string :=
  ["StringReplaceArgs"; "CreateFileArgs"; "AppendStringArgs"; "InsertLineArgs"; "RewriteFileArgs";
   "RunTestsArgs"; "EditCode"].

(** [s.rsplit(".", 1)[-1]] *)
Definition short_name (s : string) : string := after_last (PyStr.chr 46) s.

Definition obj (l : list (string * json)) : json := JObj l.

Fixpoint view_ops (cls : string) (rows : list json) : result (list json) :=
  match rows with
  | [] => Ok []
  | row :: rows =>
      path ← pget row "file_path";
      op ← (if truth path then
              a ← pget row "start_line"; b ← pget row "end_line";
              Ok [obj [("action_class", JStr cls); ("type", JStr "view_file"); ("path", path);
                       ("start_line", a); ("end_line", b)]]
            else Ok []);
      rest ← view_ops cls rows;
      Ok (op ++ rest)
  end.

Definition noop (cls note : string) : json :=
  obj [("action_class", JStr cls); ("type", JStr "noop"); ("note", JStr note)].

Definition find_symbol (cls kind : string) (action : json) (name_key : string) : result (list json) :=
  pat ← pget action "file_pattern"; name ← pget action name_key;
  Ok [obj [("action_class", JStr cls); ("type", JStr "find_symbol"); ("symbol_kind", JStr kind);
           ("file_pattern", por pat (JStr "**/*.py")); ("name", por name (JStr ""))]].

Definition file_op (cls type : string) (action : json) (content_field content_key : string) : result (list json) :=
  path ← pget action "path"; text ← pget_or action content_key (JStr "");
  Ok [obj [("action_class", JStr cls); ("type", JStr type); ("path", path); (content_field, text)]].

Definition action_to_worker_ops (action : json) : result (list json) :=
  if negb (is_dict action) then Ok [] else
  raw ← pget action "action_args_class";
  name ← as_str (por raw (JStr ""));
  let cls := short_name name in
  if bool_decide (cls = "ViewCodeArgs") then
    files ← pget action "files";
    rows ← piter (por files (JArr []));
    ops ← view_ops cls rows;
    Ok (match ops with [] => [noop cls "view_code_no_files"] | _ => ops end)
  else if bool_decide (cls = "FindClassArgs") then find_symbol cls "class" action "class_name"
  else if bool_decide (cls = "FindFunctionArgs") then find_symbol cls "function" action "function_name"
  else if bool_decide (cls = "FindCodeSnippetArgs") then
    pat ← pget action "file_pattern"; code ← pget action "code_snippet";
    Ok [obj [("action_class", JStr cls); ("type", JStr "grep"); ("file_pattern", por pat (JStr "**/*"));
             ("pattern", por code (JStr ""))]]
  else if bool_decide (cls = "StringReplaceArgs") then
    path ← pget action "path"; old ← pget_or action "old_str" (JStr ""); new ← pget_or action "new_str" (JStr "");
    Ok [obj [("action_class", JStr cls); ("type", JStr "replace"); ("path", path); ("old_str", old); ("new_str", new)]]
  else if bool_decide (cls = "CreateFileArgs") then file_op cls "write_file" action "content" "file_text"
  else if bool_decide (cls = "AppendStringArgs") then file_op cls "append_file" action "content" "new_str"
  else if bool_decide (cls = "RunTestsArgs") then
    files ← pget action "test_files";
    Ok [obj [("action_class", JStr cls); ("type", JStr "run_tests"); ("test_files", por files (JArr []))]]
  else if bool_decide (cls = "VerifiedFinishArgs") then Ok [noop cls "verified_finish"]
  else Ok [noop cls ("unhandled_action:" +:+ cls)].

(** The names of a non-empty list of non-empty strings. *)
Definition named_files (files : json) : option (list string) :=
  match files with
  | JArr ((_ :: _) as l) => mapM (fun j => match j with JStr (String _ _ as s) => Some s | _ => None end) l
  | _ => None
  end.

(** [op[k] = v] *)
Definition jset (op : json) (k : string) (v : json) : json :=
  match op with JObj d => JObj (dset k v d) | _ => op end.

(** The recorded failure an operation is expected to reproduce. *)
Definition expected_outcome (op observation : json) : result json :=
  let observation := if is_dict observation then observation else obj [] in
  properties ← pget observation "properties";
  let properties := por properties (obj []) in
  type ← pget op "type"; files ← pget op "test_files";
  match named_files files with
  | Some names =>
      if is_string type "run_tests" && is_dict properties then
        reason ← pget properties "fail_reason";
        if is_string reason "no_test_files" then
          message ← pget observation "message";
          let mark op (row : string * string) :=
            if is_string message ("Unable to run tests: " +:+ row.2 +:+ join ", " names)
            then jset op "expected_outcome"
                   (obj [("kind", JStr row.1); ("test_files", files); ("recorded_message", message);
                         ("recorded_fail_reason", JStr "no_test_files")])
            else op in
          Ok (foldl mark op [("missing_test_files", "Files not found: ");
                             ("test_directories", "Directories provided instead of files: ")])
        else Ok op
      else Ok op
  | None => Ok op
  end.

Definition step_worker_ops (idx : nat) (step : json) : result (list json) :=
  action ← pget step "action";
  ops ← action_to_worker_ops (por action (obj []));
  mapM (fun op => observation ← pget step "observation";
                  expected_outcome (jset op "action_step_idx" (JInt (Z.of_nat idx))) (por observation (obj [])))
       ops.

Definition action_steps (node : json) : result (list json) :=
  steps ← pget_or node "action_steps" (JArr []); piter (por steps (JArr [])).

Definition node_worker_ops (node : json) : result (list json) :=
  steps ← action_steps node;
  ops ← mapM (fun p => step_worker_ops p.1 p.2) (imap pair steps);
  Ok (concat ops).

(** ** The walk *)

Definition children (node : json) : result (list json) :=
  c ← pget_or node "children" (JArr []); piter (por c (JArr [])).

(** Pre-order, each node with its parent; the fuel bounds the depth. *)
Fixpoint walk (fuel : nat) (root : json) (parent : option json) : result (list (json * option json)) :=
  match fuel with
  | O => raise OutOfFuel ""
  | S fuel =>
      cs ← children root;
      rest ← mapM (fun c => walk fuel c (Some root)) cs;
      Ok ((root, parent) :: concat rest)
  end.
Definition walk_with_parents (root : json) : result (list (json * option json)) := walk (jsize root) root None.

(** ** Strategy *)

(** [j in names], a set of strings *)
Definition in_names (j : json) (names : list string) : result bool :=
  match j with
  | JStr s => Ok (mem s names)
  | JArr _ | JObj _ => raise TypeError "unhashable type"
  | _ => Ok false
  end.

Fixpoint steps_strategy (steps : list json) : result string :=
  match steps with
  | [] => Ok "lightweight"
  | step :: steps =>
      a ← pget step "action";
      let act := por a (obj []) in
      if negb (is_dict act) then steps_strategy steps else
      cls ← pget act "action_args_class";
      let mutating := match cls with JStr s => mem (short_name s) FS_MUTATING_ACTIONS | _ => false end in
      if mutating then Ok "standard" else
      name ← pget act "name";
      legacy ← in_names name FS_MUTATING_ACTIONS;
      if (legacy : bool) then Ok "standard" else steps_strategy steps
  end.
Definition node_strategy (node : json) : result string := steps ← action_steps node; steps_strategy steps.

(** ** Model calls *)

(** [created], [prompt_tokens], [completion_tokens] *)
Definition call : Type := json * json * json.

Definition call_of (c : json) : result (list call) :=
  if negb (is_dict c) then Ok [] else
  response ← pget c "response"; usage ← pget c "usage";
  let r := por response (obj []) in
  let u := por usage (obj []) in
  ts ← (if is_dict r then pget r "created" else Ok JNull);
  if truth ts then
    p ← pget_or u "prompt_tokens" (JInt 0); q ← pget_or u "completion_tokens" (JInt 0);
    Ok [(ts, p, q)]
  else Ok [].

Definition pvalues (j : json) : result (list json) :=
  match j with JObj d => Ok (dvals d) | _ => no_attribute end.

Definition node_calls (node : json) : result (list call) :=
  completions ← pget node "completions";
  cs ← pvalues (por completions (obj []));
  a ← mapM call_of cs;
  steps ← pget node "action_steps";
  steps ← piter (por steps (JArr []));
  b ← mapM (fun step => c ← pget step "completion"; call_of (por c (obj []))) steps;
  Ok (concat a ++ concat b).

Definition ckey : Type := key * key * key.
Definition call_key (c : call) : result ckey :=
  t ← hash_key c.1.1; p ← hash_key c.1.2; q ← hash_key c.2; Ok (t, p, q).
Fixpoint unique_calls (seen : list ckey) (l : list call) : result (list ckey) :=
  match l with
  | [] => Ok []
  | c :: l =>
      k ← call_key c;
      if mem k seen then unique_calls seen l else rest ← unique_calls (k :: seen) l; Ok (k :: rest)
  end.

Definition created_le (a b : ckey) : Prop := key_le a.1.1 b.1.1.
#[local] Instance created_le_dec a b : Decision (created_le a b).
Proof. unfold created_le. apply _. Defined.

Definition collect_llm_calls (l : list (json * option json)) : result (list ckey) :=
  calls ← mapM (fun p => node_calls p.1) l;
  uniq ← unique_calls [] (concat calls);
  match uniq with
  | [] | [_] => Ok uniq
  | c :: _ => if forallb (fun d => same_sort c.1.1 d.1.1) uniq then Ok (merge_sort created_le uniq)
              else raise TypeError "'<' not supported between instances"
  end.

Record llm_rtt := LlmRtt {
  n_calls : nat; n_deltas : nat; n_same_second_imputed : nat; mean_rtt_s : spec_float;
  deltas_s : list spec_float; first_call_ts : option key;
}.
(** [0.5] *)
Definition half : spec_float := S754_finite false 4503599627370496 (-53).

(** The gaps kept between consecutive calls, and how many were imputed. *)
Fixpoint deltas (l : list ckey) : result (list spec_float * nat) :=
  match l with
  | a :: (b :: _) as l' =>
      match b.1.1, a.1.1 with
      | KInt y, KInt x =>
          '(ds, n) ← deltas l';
          let d := (y - x)%Z in
          if (d =? 0)%Z then Ok (half :: ds, S n)
          else if (0 <? d)%Z && (d <? 600)%Z then Ok (fround d 0 :: ds, n)
          else Ok (ds, n)
      | _, _ => raise TypeError "unsupported operand"
      end
  | _ => Ok ([], 0)
  end.

Definition rtt_record (calls : list ckey) : result llm_rtt :=
  '(ds, imputed) ← deltas calls;
  Ok (LlmRtt (length calls) (length ds) imputed
        (fdiv (foldl (fun acc d => fadd acc d) fzero ds) (fround (Z.of_nat (Nat.max 1 (length ds))) 0))
        ds (match calls with c :: _ => Some c.1.1 | [] => None end)).

(** ** Conversion *)

(** [f"{instance_id}::{node_id}"], hashed *)
Definition _ckpt_id (node_id : key) (instance_id : string) : string :=
  stake 8 (sha1_hex (instance_id +:+ "::" +:+ key_text node_id)).

(** [7.8] *)
Definition dump_size : spec_float := S754_finite false 8782019273372467 (-50).

Definition root_event (iter : Z) (cid : string) : json :=
  obj [("type", JStr "ckpt"); ("iter", JInt iter); ("ckpt_id", JStr cid); ("strategy", JStr "standard");
       ("dump_size_mb", JFloat dump_size); ("worker_ops", JArr []); ("worker_ops_required", JBool false)].
Definition restore_event (iter : Z) (target : string) : json :=
  obj [("type", JStr "restore"); ("iter", JInt iter); ("restore_to_ckpt_id", JStr target)].
Definition node_event (iter : Z) (cid strat : string) (nid : json) (ops : list json) : json :=
  obj [("type", JStr "ckpt"); ("iter", JInt iter); ("ckpt_id", JStr cid); ("strategy", JStr strat);
       ("dump_size_mb", JFloat (if bool_decide (strat = "standard") then dump_size else fzero));
       ("node_id", nid); ("worker_ops", JArr ops); ("worker_ops_required", JBool true)].

Definition key_json (k : key) : json :=
  match k with KNone => JNull | KInt z => JInt z | KStr s => JStr s end.

Definition nodes := list (json * option json).

(** [{n.get("node_id"): (n, p) ... if n.get("node_id") is not None}] *)
Fixpoint index_nodes (l : nodes) (by_id : list (key * (json * option json))) :
    result (list (key * (json * option json))) :=
  match l with
  | [] => Ok by_id
  | (n, p) :: l =>
      nid ← pget n "node_id"; k ← hash_key nid;
      index_nodes l (if bool_decide (k = KNone) then by_id else dset k (n, p) by_id)
  end.

(** The local variables of the loop of [convert]. *)
Record cstate := CState {
  c_schedule : list json; c_node_to_ckpt : list (key * string); c_iter : Z; c_prev : key;
}.

Definition convert_node (instance : string) (by_id : list (key * (json * option json))) (st : cstate) (nid : key)
    : result cstate :=
  match dget nid by_id with
  | None => raise KeyError "node id"
  | Some (_, None) =>
      let cid := _ckpt_id nid instance in
      Ok (CState (c_schedule st ++ [root_event (c_iter st) cid]) (dset nid cid (c_node_to_ckpt st)) (c_iter st + 1) nid)
  | Some (node, Some parent) =>
      pid ← pget parent "node_id"; parent_id ← hash_key pid;
      let st := match (if bool_decide (c_prev st = parent_id) then None else dget parent_id (c_node_to_ckpt st)) with
                | Some target =>
                    CState (c_schedule st ++ [restore_event (c_iter st) target]) (c_node_to_ckpt st) (c_iter st + 1) (c_prev st)
                | None => st
                end in
      dup ← pget node "is_duplicate";
      if truth dup then Ok (CState (c_schedule st) (c_node_to_ckpt st) (c_iter st) nid) else
      let cid := _ckpt_id nid instance in
      strat ← node_strategy node;
      ops ← node_worker_ops node;
      Ok (CState (c_schedule st ++ [node_event (c_iter st) cid strat (key_json nid) ops])
                 (dset nid cid (c_node_to_ckpt st)) (c_iter st + 1) nid)
  end.

Fixpoint convert_nodes (instance : string) (by_id : list (key * (json * option json))) (st : cstate) (order : list key)
    : result cstate :=
  match order with
  | [] => Ok st
  | nid :: order => st ← convert_node instance by_id st nid; convert_nodes instance by_id st order
  end.

(** [convert]; [t] is the parsed trajectory. *)
Definition convert (t : json) (instance : string) : result (list json * llm_rtt) :=
  root ← pget t "root";
  match root with
  | JNull => raise SystemExit "trajectory has no root node"
  | _ =>
      l ← walk_with_parents root;
      by_id ← index_nodes l [];
      match by_id with
      | [] => raise SystemExit "no nodes with node_id found"
      | _ =>
          order ← sort_keys (dkeys by_id);
          st ← convert_nodes instance by_id (CState [] [] 1 KNone) order;
          calls ← collect_llm_calls l;
          rtt ← rtt_record calls;
          Ok (c_schedule st, rtt)
      end
  end.

End Schedule.
