(* ===== verification/ScheduleSpec.v ===== *)
(** * What a replay schedule promises

    The contract between the schedules and the guest that runs them
    ([replay/guest/trace_replay_main.py]): a [ckpt] event executes its worker
    operations on the live state and saves the result under its id, a [restore]
    event brings a saved state back.  [Context] leaves the states and the
    effect of operations open: whatever a worker does, replaying the converted
    schedule reproduces the recorded tree. *)

From S2P Require Import Prelude PyStr PyDict Json Sha1 Schedule.

Module ScheduleSpec.
Import Schedule.

(** ** Reading events *)

Definition field (e : json) (k : string) : option json := match e with JObj d => dget k d | _ => None end.
Definition event_is (e : json) (type : string) : bool :=
  match field e "type" with Some j => is_string j type | None => false end.
Definition key_field (e : json) (k : string) : option key :=
  match field e k with
  | Some j => match hash_key j with Ok k => Some k | Err _ => None end
  | None => None
  end.
Definition event_ops (e : json) : option (list json) :=
  match field e "worker_ops" with Some (JArr l) => Some l | _ => None end.

(** The checkpoint ids of a schedule, in order. *)
Definition ckpt_ids (evs : list json) : list key :=
  omap (fun e => if event_is e "ckpt" then key_field e "ckpt_id" else None) evs.

Section replay.
Context {S : Type} (exec : list json → S → S).

Record world := World { live : S; saved : list (key * S) }.

Definition replay_event (e : json) (w : world) : option world :=
  if event_is e "ckpt" then
    c ← key_field e "ckpt_id"; ops ← event_ops e;
    let s := exec ops (live w) in
    Some (World s (dset c s (saved w)))
  else if event_is e "restore" then
    c ← key_field e "restore_to_ckpt_id"; s ← dget c (saved w);
    Some (World s (saved w))
  else None.

Fixpoint replay (evs : list json) (w : world) : option world :=
  match evs with [] => Some w | e :: evs => w' ← replay_event e w; replay evs w' end.

(** ** The recorded tree *)

Definition node_id (n : json) : result key := nid ← pget n "node_id"; hash_key nid.
Definition duplicate (n : json) : bool := match pget n "is_duplicate" with Ok d => truth d | Err _ => false end.
(** The nodes that ran: the root and every node that is not a duplicate. *)
Definition executed (np : json * option json) : bool :=
  match np.2 with None => true | Some _ => negb (duplicate np.1) end.

(** The state a node of the recorded search ended in: its operations, run on
    the state of its parent. *)
Inductive node_state (L : nodes) (s0 : S) : key → S → Prop :=
  | root_state n k : (n, None) ∈ L → node_id n = Ok k → node_state L s0 k (exec [] s0)
  | child_state n p k pk ops s :
      (n, Some p) ∈ L → node_id n = Ok k → node_id p = Ok pk → node_worker_ops n = Ok ops →
      node_state L s0 pk s → node_state L s0 k (exec ops s).

(** What the recorder guarantees: integer ids, each used once, handed out in
    the order of expansion, and no node below one that was not expanded. *)
Record well_numbered (L : nodes) : Prop := {
  wn_int : ∀ np, np ∈ L → ∃ z, node_id np.1 = Ok (KInt z);
  wn_nodup : NoDup ((fun np => node_id np.1) <$> L);
  wn_order : ∀ n p zn zp, (n, Some p) ∈ L → node_id n = Ok (KInt zn) → node_id p = Ok (KInt zp) → (zp < zn)%Z;
  wn_leaf : ∀ n p, (n, Some p) ∈ L → ∀ q, (p, Some q) ∈ L → duplicate p = false;
}.

(** ** Replaying *)

Lemma replay_app evs1 evs2 w : replay (evs1 ++ evs2) w = replay evs1 w ≫= replay evs2.
Proof.
  revert w. induction evs1 as [|e evs IH]; intros w; simpl; [done|].
  destruct (replay_event e w); simpl; [apply IH|done].
Qed.

Lemma ckpt_ids_app evs1 evs2 : ckpt_ids (evs1 ++ evs2) = ckpt_ids evs1 ++ ckpt_ids evs2.
Proof. apply omap_app. Qed.

(** A schedule with distinct ids saves exactly its checkpoints. *)
Lemma replay_saved evs w w' :
  replay evs w = Some w' → NoDup (dkeys (saved w) ++ ckpt_ids evs) →
  dkeys (saved w') = dkeys (saved w) ++ ckpt_ids evs ∧
  (∀ c s, dget c (saved w) = Some s → dget c (saved w') = Some s).
Proof.
  revert w. induction evs as [|e evs IH]; intros w; simpl.
  { intros [= <-]. by rewrite app_nil_r. }
  unfold replay_event, ckpt_ids. simpl.
  destruct (event_is e "ckpt"); simpl.
  - destruct (key_field e "ckpt_id") as [c|]; [|done]. destruct (event_ops e) as [ops|]; [|done]. simpl.
    intros Hr Hnd. assert (c ∉ dkeys (saved w)) as Hc.
    { apply NoDup_app in Hnd as (_ & Hd & _). intros Hin. apply (Hd _ Hin). by left. }
    destruct (IH _ Hr) as [Hk Hg]; simpl.
    + rewrite dkeys_dset, decide_False by done. by rewrite <-app_assoc.
    + simpl in *. rewrite dkeys_dset, decide_False in Hk by done. rewrite Hk, <-app_assoc. split; [done|].
      intros c' s Hs. apply Hg. rewrite dget_dset_ne; [done|]. intros <-. apply Hc.
      apply dget_is_Some. eauto.
  - destruct (event_is e "restore"); [|done]. destruct (key_field e "restore_to_ckpt_id") as [c|]; [|done].
    simpl. destruct (dget c (saved w)) as [s|]; [|done]. intros Hr Hnd. by apply (IH _ Hr).
Qed.

Lemma replay_root iter cid w : replay_event (root_event iter cid) w =
  Some (World (exec [] (live w)) (dset (KStr cid) (exec [] (live w)) (saved w))).
Proof. done. Qed.
Lemma replay_node iter cid strat nid ops w : replay_event (node_event iter cid strat nid ops) w =
  Some (World (exec ops (live w)) (dset (KStr cid) (exec ops (live w)) (saved w))).
Proof. done. Qed.
Lemma replay_restore iter cid w s : dget (KStr cid) (saved w) = Some s →
  replay_event (restore_event iter cid) w = Some (World s (saved w)).
Proof. intros H. unfold replay_event. simpl. by rewrite H. Qed.

End replay.
Arguments world : clear implicits.
Arguments World {S} _ _.

End ScheduleSpec.
