(* ===== verification/ConvertSpec.v ===== *)
(** * Replaying a converted schedule

    The loop of [Schedule.convert] keeps this invariant: replaying the events
    emitted so far succeeds, every executed node visited so far is saved in the
    state it had in the recorded tree, and the live state is that of the node
    visited last.  [convert_replays] is what [MakeSchedule] builds on. *)

From S2P Require Import Prelude PyStr PyDict Json Sha1 Schedule ScheduleSpec.

Module ConvertSpec.
Import Schedule ScheduleSpec.

(** ** The walk *)

Lemma mapM_total {A B} (f : A → result B) l :
  (∀ x, x ∈ l → f x ≠ Err (Exn OutOfFuel "")) → mapM f l ≠ Err (Exn OutOfFuel "").
Proof.
  induction l as [|x l IH]; intros H; simpl; [done|].
  unfold mbind, result_bind, mret, result_ret. pose proof (H x ltac:(left)) as Hx.
  destruct (f x); [|congruence].
  destruct (mapM f l) eqn:E; [done|]. intros [= ->]. apply IH; [|done]. intros y Hy. apply H. by right.
Qed.

(** The fuel of the walk is enough. *)
Lemma walk_total fuel root p : jsize root <= fuel → walk fuel root p ≠ Err (Exn OutOfFuel "").
Proof.
  revert root p. induction fuel as [|fuel IH]; intros root p Hf.
  { pose proof (jsize_pos root). lia. }
  simpl. destruct (children root) as [cs|e] eqn:E.
  - unfold mbind at 1, result_bind. simpl.
    assert (mapM (fun c => walk fuel c (Some root)) cs ≠ Err (Exn OutOfFuel "")) as Hm.
    { apply mapM_total. intros c Hc. apply IH. pose proof (piter_children root _ _ _ E Hc). lia. }
    destruct (mapM _ cs); [done|]. unfold mbind, result_bind. congruence.
  - unfold mbind, result_bind. intros [= ->]. unfold children, pget_or, mbind, result_bind in E.
    destruct root as [| | | | | |d]; try done.
    destruct (por _ _); simpl in E; done.
Qed.

(** A walk starts at its root, and every other node comes with a parent of the
    same walk. *)
Lemma walk_spec fuel root p L : walk fuel root p = Ok L →
  (root, p) ∈ L ∧ ∀ n q, (n, q) ∈ L → (n, q) = (root, p) ∨ ∃ m r, q = Some m ∧ (m, r) ∈ L.
Proof.
  revert root p L. induction fuel as [|fuel IH]; intros root p L; simpl; [done|].
  unfold mbind, result_bind. destruct (children root) as [cs|]; [|done].
  destruct (mapM _ cs) as [rest|] eqn:E; [|done]. intros [= <-]. split; [left|].
  intros n q [?|Hin]%elem_of_cons; [by left|]. right.
  apply elem_of_concat in Hin as (l & Hnl & Hl).
  destruct (mapM_elem _ _ _ _ E Hl) as (c & Hc & Hw).
  apply IH in Hw as [_ Hp]. destruct (Hp n q Hnl) as [[= -> ->]|(m & r & -> & Hm)].
  - exists root, p. split; [done|left].
  - exists m, r. split; [done|]. right. apply elem_of_concat. eauto.
Qed.

(** ** The index *)

Lemma index_nodes_ok L acc out :
  index_nodes L acc = Ok out →
  (∀ np, np ∈ L → ∃ z, node_id np.1 = Ok (KInt z)) →
  NoDup ((fun np => node_id np.1) <$> L) →
  (∀ np k, np ∈ L → node_id np.1 = Ok k → k ∉ dkeys acc) →
  (∀ k np, dget k out = Some np ↔ dget k acc = Some np ∨ np ∈ L ∧ node_id np.1 = Ok k).
Proof.
  revert acc. induction L as [|[n p] L IH]; intros acc; simpl.
  { intros [= <-] _ _ _ k np. set_solver. }
  intros Hi Hint Hnd Hfr k np.
  destruct (Hint (n, p) ltac:(left)) as [z Hz]. simpl in Hz. pose proof Hz as Hz'.
  unfold node_id, mbind, result_bind in Hz'. unfold mbind, result_bind in Hi.
  destruct (pget n "node_id") as [j|]; [|done]. rewrite Hz' in Hi.
  rewrite bool_decide_eq_false_2 in Hi by done.
  apply NoDup_cons in Hnd as [Hn Hnd].
  assert (KInt z ∉ dkeys acc) as Hz0 by (by apply (Hfr (n, p)); [left|]).
  rewrite (IH _ Hi); [|set_solver|done|].
  - destruct (decide (k = KInt z)) as [->|Hne].
    + rewrite dget_dset_eq. split.
      * intros [[= <-]|[Hin Hk]]; [right; split; [left|done]|].
        exfalso. apply Hn, list_elem_of_fmap. exists np. split; [by rewrite Hz, Hk|done].
      * intros [Hd|[[->|Hin]%elem_of_cons Hk]]; [|by left|].
        -- exfalso. apply Hz0, dget_is_Some. eauto.
        -- right. done.
    + rewrite dget_dset_ne by done. split; [intros [?|[? ?]]; [by left|right; split; [by right|done]]|].
      intros [?|[[->|Hin]%elem_of_cons Hk]]; [by left| |by right]. simpl in Hk. congruence.
  - intros np' k' Hin Hk'. rewrite dkeys_dset. rewrite decide_False by done.
    intros [Hd|Hd]%elem_of_app; [by eapply (Hfr np'); [right| |]|].
    apply list_elem_of_singleton in Hd as ->. apply Hn, list_elem_of_fmap. exists np'.
    split; [by rewrite Hz, Hk'|done].
Qed.

Lemma index_nodes_nodup L acc out : index_nodes L acc = Ok out → NoDup (dkeys acc) → NoDup (dkeys out).
Proof.
  revert acc. induction L as [|[n p] L IH]; intros acc; simpl; [by intros [= <-]|].
  unfold mbind, result_bind. destruct (pget n "node_id") as [j|]; [|done]. destruct (hash_key j) as [k|]; [|done].
  intros Hi Hnd. apply (IH _ Hi). case_bool_decide; [done|]. by apply dkeys_dset_NoDup.
Qed.

(** ** The loop *)

Section loop.
Context {S : Type} (exec : list json → S → S) (s0 : S) (inst : string) (L : nodes)
        (by_id : list (key * (json * option json))).
Hypothesis WN : well_numbered L.
Hypothesis Hparent : ∀ n q, (n, q) ∈ L → q = None ∨ ∃ m r, q = Some m ∧ (m, r) ∈ L.
Hypothesis Hindex : ∀ k np, dget k by_id = Some np ↔ np ∈ L ∧ node_id np.1 = Ok k.

(** A node visited so far is saved in the state it had in the recorded tree. *)
Definition saved_node (w : world S) (ckpts : list (key * string)) (np : json * option json) (k : key) : Prop :=
  ∃ s, node_state exec L s0 k s ∧ dget k ckpts = Some (_ckpt_id k inst) ∧ dget (KStr (_ckpt_id k inst)) (saved w) = Some s.

Record loop_mid (done : list key) (st : cstate) (w : world S) : Prop := {
  lo_replay : replay exec (c_schedule st) (World s0 []) = Some w;
  lo_keys : dkeys (saved w) = ckpt_ids (c_schedule st);
  lo_saved : ∀ np k, np ∈ L → node_id np.1 = Ok k → k ∈ done → executed np = true → saved_node w (c_node_to_ckpt st) np k;
}.
(** Where the live state stands. *)
Inductive loop_prev : list key → cstate → world S → Prop :=
  | prev_start w : live w = s0 → loop_prev [] (CState [] [] 1 KNone) w
  | prev_node done st w np r kr :
      np ∈ L → node_id np.1 = Ok (c_prev st) → c_prev st ∈ done →
      (executed np = true → node_state exec L s0 (c_prev st) (live w)) →
      (r, None) ∈ L → node_id r = Ok kr → kr ∈ done → loop_prev done st w.
Definition loop_ok done st w : Prop := loop_mid done st w ∧ loop_prev done st w.

Lemma same_node np np' k : np ∈ L → np' ∈ L → node_id np.1 = Ok k → node_id np'.1 = Ok k → np = np'.
Proof.
  intros H H' Hk Hk'. assert (dget k by_id = Some np) as E by (by apply Hindex).
  assert (dget k by_id = Some np') as E' by (by apply Hindex). congruence.
Qed.

Lemma parent_executed n p q : (n, Some p) ∈ L → (p, q) ∈ L → executed (p, q) = true.
Proof.
  intros Hn Hp. destruct q as [q|]; [|done]. unfold executed. simpl.
  by rewrite (wn_leaf _ WN _ _ Hn _ Hp).
Qed.

(** Saving one more node. *)
Lemma saved_more w st np k cid s s' :
  KStr cid ∉ dkeys (saved w) → saved_node w (c_node_to_ckpt st) np k → ∀ nid, k ≠ nid →
  saved_node (World s' (dset (KStr cid) s (saved w))) (dset nid cid (c_node_to_ckpt st)) np k.
Proof.
  intros Hc (t & Ht & Hd & Hs) nid Hne. exists t. split; [done|]. rewrite dget_dset_ne by done.
  split; [done|]. simpl. rewrite dget_dset_ne; [done|]. intros [= ->]. apply Hc, dget_is_Some. eauto.
Qed.

(** A checkpoint of node [nid] emitted when the live state is its parent's (or
    the initial one). *)
Lemma loop_ckpt done st w nid np e s r kr :
  loop_mid done st w → np ∈ L → node_id np.1 = Ok nid → nid ∉ done →
  replay_event exec e w = Some (World s (dset (KStr (_ckpt_id nid inst)) s (saved w))) →
  ckpt_ids [e] = [KStr (_ckpt_id nid inst)] → NoDup (ckpt_ids (c_schedule st ++ [e])) →
  node_state exec L s0 nid s →
  (r, None) ∈ L → node_id r = Ok kr → kr ∈ done ++ [nid] →
  loop_ok (done ++ [nid]) (CState (c_schedule st ++ [e]) (dset nid (_ckpt_id nid inst) (c_node_to_ckpt st)) (c_iter st + 1) nid)
    (World s (dset (KStr (_ckpt_id nid inst)) s (saved w))).
Proof.
  intros [Hr Hk Hs] Hin Hid Hnew He Hce Hnd Hst HrL Hkr Hkd.
  assert (KStr (_ckpt_id nid inst) ∉ dkeys (saved w)) as Hfresh.
  { rewrite ckpt_ids_app, Hce in Hnd. apply NoDup_app in Hnd as (_ & Hd & _). rewrite Hk.
    intros Hx. apply (Hd _ Hx). by left. }
  split; [constructor; simpl|].
  - rewrite replay_app, Hr. simpl. by rewrite He.
  - rewrite dkeys_dset, decide_False by done. by rewrite ckpt_ids_app, Hce, Hk.
  - intros np' k Hin' Hk' Hd Hex'. apply elem_of_app in Hd as [Hd| ->%list_elem_of_singleton].
    + eapply saved_more; [done|by apply Hs|]. by intros ->.
    + exists s. simpl. by rewrite !dget_dset_eq.
  - eapply (prev_node _ _ _ np r kr); try done. simpl. apply elem_of_app. right. left.
Qed.

(** The restore in front of a node, where one is needed, brings its parent's
    state back. *)
Definition rewind (st : cstate) (pid : key) : cstate :=
  match (if bool_decide (c_prev st = pid) then None else dget pid (c_node_to_ckpt st)) with
  | Some target =>
      CState (c_schedule st ++ [restore_event (c_iter st) target]) (c_node_to_ckpt st) (c_iter st + 1) (c_prev st)
  | None => st
  end.

Lemma loop_rewind done st w n p q pid :
  loop_ok done st w → (n, Some p) ∈ L → (p, q) ∈ L → node_id p = Ok pid → pid ∈ done →
  ∃ w', loop_mid done (rewind st pid) w' ∧ node_state exec L s0 pid (live w') ∧
        ckpt_ids (c_schedule (rewind st pid)) = ckpt_ids (c_schedule st).
Proof.
  intros [[Hr Hk Hs] Hp] Hn Hpq Hid Hd. pose proof (parent_executed _ _ _ Hn Hpq) as Hex.
  destruct (Hs (p, q) pid Hpq Hid Hd Hex) as (s & Hst & Hg & Hsv).
  unfold rewind. case_bool_decide as Eq.
  - exists w. split; [done|]. split; [|done].
    inversion Hp as [w0 Hl|d' st' w' np r kr Hin Hidp Hind Hstate HrL Hkr Hkd]; subst; [by apply elem_of_nil in Hd|].
    assert (np = (p, q)) as -> by (eapply same_node; [done..|simpl; congruence]). auto.
  - rewrite Hg. exists (World s (saved w)). split; [|split; [done|]].
    + constructor; simpl.
      * rewrite replay_app, Hr. simpl. by rewrite (replay_restore exec _ _ _ s).
      * by rewrite ckpt_ids_app, app_nil_r.
      * intros np k Hnp Hk' Hkd He. destruct (Hs np k Hnp Hk' Hkd He) as (t & ? & ? & ?). by exists t.
    + simpl. by rewrite ckpt_ids_app, app_nil_r.
Qed.

Hypothesis Hroot : ∀ n m, (n, None) ∈ L → (m, None) ∈ L → n = m.

Lemma convert_node_ok done st w nid st' :
  loop_ok done st w → convert_node inst by_id st nid = Ok st' → nid ∉ done →
  (∀ n p pid, (n, Some p) ∈ L → node_id n = Ok nid → node_id p = Ok pid → pid ∈ done) →
  NoDup (ckpt_ids (c_schedule st')) →
  ∃ w', loop_ok (done ++ [nid]) st' w'.
Proof.
  intros Hok Hc Hnew Hpar Hnd. unfold convert_node in Hc.
  destruct (dget nid by_id) as [[n [p|]]|] eqn:E; [| |done]; apply Hindex in E as [Hin Hid]; simpl in Hid.
  - destruct (Hparent _ _ Hin) as [?|(m & q & [= <-] & Hpq)]; [done|].
    destruct (wn_int _ WN _ Hpq) as [zp Hzp]. simpl in Hzp.
    pose proof (Hpar _ _ _ Hin Hid Hzp) as Hd. pose proof Hzp as Hzp'.
    unfold node_id, mbind, result_bind in Hzp'. unfold mbind, result_bind in Hc.
    destruct (pget p "node_id") as [j|]; [|done]. rewrite Hzp' in Hc.
    fold (rewind st (KInt zp)) in Hc.
    destruct (loop_rewind _ _ _ _ _ _ _ Hok Hin Hpq Hzp Hd) as (w' & Hmid & Hlive & Hids).
    assert (∃ r kr, (r, None) ∈ L ∧ node_id r = Ok kr ∧ kr ∈ done) as (r & kr & HrL & Hkr & Hkd).
    { destruct Hok as [_ Hp]. destruct Hp as [|? ? ? ? r kr]; [by apply elem_of_nil in Hd|by exists r, kr]. }
    destruct (pget n "is_duplicate") as [dup|] eqn:Hdup; [|done].
    destruct (truth dup) eqn:Ht.
    + injection Hc as <-. exists w'. destruct Hmid as [H1 H2 H3].
      assert (executed (n, Some p) = false) as Hx by (unfold executed, duplicate; simpl; by rewrite Hdup, Ht).
      split; [constructor; simpl; try done|].
      * intros np k Hnp Hk Hkd' He. apply elem_of_app in Hkd' as [?| ->%list_elem_of_singleton]; [by apply H3|].
        assert (np = (n, Some p)) as -> by (eapply same_node; [done..|simpl; congruence]). congruence.
      * eapply (prev_node _ _ _ (n, Some p) r kr); simpl; try done; [| |]; try (apply elem_of_app; auto using list_elem_of_here).
        by rewrite Hx.
    + destruct (node_strategy n) as [strat|]; [|done]. destruct (node_worker_ops n) as [ops|] eqn:Hops; [|done].
      injection Hc as <-. simpl in Hnd. eexists.
      eapply (loop_ckpt _ _ _ _ (n, Some p) _ _ r kr Hmid); try done; [..|set_solver].
      by eapply child_state.
  - injection Hc as <-. eexists.
    destruct Hok as [Hmid Hp].
    destruct Hp as [w Hl|done st w np r kr _ _ _ _ HrL Hkr Hkd].
    2: { exfalso. apply Hnew. pose proof (Hroot _ _ Hin HrL) as <-. congruence. }
    eapply (loop_ckpt [] _ _ _ (n, None) _ _ n nid Hmid); try done; [|by left].
    rewrite Hl. by eapply root_state.
Qed.

Lemma convert_nodes_extends st order out :
  convert_nodes inst by_id st order = Ok out → ∃ evs, c_schedule out = c_schedule st ++ evs.
Proof.
  revert st. induction order as [|nid order IH]; intros st; simpl.
  { intros [= <-]. exists []. by rewrite app_nil_r. }
  unfold mbind, result_bind. destruct (convert_node inst by_id st nid) as [st'|] eqn:E; [|done].
  intros (evs & ->)%IH. assert (∃ e, c_schedule st' = c_schedule st ++ e) as [e ->].
  { unfold convert_node in E.
    repeat first [progress simpl in E | progress unfold mbind, result_bind in E | case_match | discriminate E];
      injection E as <-; simpl; rewrite <-?app_assoc; eauto; exists []; by rewrite app_nil_r. }
  rewrite <-app_assoc. eauto.
Qed.

(** The whole loop, over keys in ascending order. *)
Lemma convert_nodes_ok order done st w out :
  loop_ok done st w → convert_nodes inst by_id st order = Ok out →
  NoDup (done ++ order) → StronglySorted key_le (done ++ order) →
  (∀ np k, np ∈ L → node_id np.1 = Ok k → k ∈ done ++ order) →
  NoDup (ckpt_ids (c_schedule out)) →
  ∃ w', loop_ok (done ++ order) out w'.
Proof.
  revert done st w. induction order as [|nid order IH]; intros done st w Hok Hc Hnd Hss Hall Hids.
  { injection Hc as <-. rewrite app_nil_r. eauto. }
  simpl in Hc. unfold mbind, result_bind in Hc.
  destruct (convert_node inst by_id st nid) as [st'|] eqn:E; [|done].
  destruct (convert_nodes_extends _ _ _ Hc) as [evs Hevs].
  assert (nid ∉ done) as Hnew.
  { apply NoDup_app in Hnd as (_ & Hd & _). intros Hx. apply (Hd _ Hx). by left. }
  destruct (convert_node_ok _ _ _ _ _ Hok E Hnew) as [w' Hok'].
  - intros n p pid Hn Hid Hpid. destruct (Hparent _ _ Hn) as [?|(m & q & [= <-] & Hpq)]; [done|].
    destruct (wn_int _ WN _ Hn) as [zn Hzn]. destruct (wn_int _ WN _ Hpq) as [zp Hzp]. simpl in *.
    pose proof (wn_order _ WN _ _ _ _ Hn Hzn Hzp). rewrite Hid in Hzn. rewrite Hpid in Hzp.
    injection Hzn as ->. injection Hzp as ->.
    destruct (proj1 (elem_of_app _ _ _) (Hall _ _ Hpq Hpid)) as [?|[[= ?]|Hin]%elem_of_cons]; [done|lia|].
    apply StronglySorted_app in Hss as (_ & _ & [Hle _]%StronglySorted_cons).
    pose proof (proj1 (Forall_forall _ _) Hle _ Hin) as Hlt. simpl in Hlt. lia.
  - rewrite Hevs, ckpt_ids_app in Hids. by apply NoDup_app in Hids as (? & _).
  - replace (done ++ nid :: order) with ((done ++ [nid]) ++ order) in * by (by rewrite <-app_assoc).
    by eapply (IH (done ++ [nid])).
Qed.

End loop.

(** ** The whole conversion *)

Lemma well_numbered_same L np np' :
  well_numbered L → np ∈ L → np' ∈ L → node_id np.1 = node_id np'.1 → np = np'.
Proof.
  intros WN H H' E. apply list_elem_of_lookup in H as [i Hi]. apply list_elem_of_lookup in H' as [j Hj].
  assert (i = j) as ->; [|congruence].
  eapply (NoDup_lookup _ _ _ (node_id np.1) (wn_nodup _ WN)); rewrite list_lookup_fmap, ?Hi, ?Hj; simpl; congruence.
Qed.

(** The recorded tree gives every node one state. *)
Lemma node_state_det {S} (exec : list json → S → S) L s0 k s s' :
  well_numbered L → node_state exec L s0 k s → node_state exec L s0 k s' → s = s'.
Proof.
  intros WN H. revert s'. induction H as [n k Hn Hk|n p k pk ops s Hn Hk Hp Hops Hs IH]; intros s' H'.
  - inversion H' as [n' k' Hn' Hk'|n' p' k' pk' ops' t Hn' Hk' Hp' Hops' Ht]; subst; [done|].
    assert ((n, None) = (n', Some p')); [|done]. eapply well_numbered_same; [done..|simpl; congruence].
  - inversion H' as [n' k' Hn' Hk'|n' p' k' pk' ops' t Hn' Hk' Hp' Hops' Ht]; subst.
    + assert ((n, Some p) = (n', None)); [|done]. eapply well_numbered_same; [done..|simpl; congruence].
    + assert ((n, Some p) = (n', Some p')) as [= -> ->] by (eapply well_numbered_same; [done..|simpl; congruence]).
      rewrite Hp in Hp'. rewrite Hops in Hops'. simplify_eq. f_equal. by apply IH.
Qed.

(** Replaying a schedule from [s0] succeeds and saves every executed node in
    the one state it had in the recorded tree. *)
Definition reproduces {S} (exec : list json → S → S) (inst : string) (L : nodes) (s0 : S) (evs : list json) : Prop :=
  ∃ w, replay exec evs (World s0 []) = Some w ∧
    ∀ np k, np ∈ L → node_id np.1 = Ok k → executed np = true →
      ∃ s, (∀ s', node_state exec L s0 k s' ↔ s' = s) ∧ dget (KStr (_ckpt_id k inst)) (saved w) = Some s.

Lemma convert_replays {S} (exec : list json → S → S) t inst root L evs rtt s0 :
  pget t "root" = Ok root → walk_with_parents root = Ok L → well_numbered L →
  convert t inst = Ok (evs, rtt) → NoDup (ckpt_ids evs) → reproduces exec inst L s0 evs.
Proof.
  intros Ht HL WN Hc Hids. unfold convert, mbind, result_bind in Hc. rewrite Ht in Hc.
  assert (∃ by_id st, index_nodes L [] = Ok by_id ∧ ∃ order, sort_keys (dkeys by_id) = Ok order ∧
            convert_nodes inst by_id (CState [] [] 1 KNone) order = Ok st ∧ c_schedule st = evs) as
    (by_id & st & Hi & order & Ho & Hcn & <-).
  { rewrite HL in Hc. destruct root; try discriminate Hc;
      (destruct (index_nodes L []) as [by_id|] eqn:Hi; [|discriminate Hc]);
      (destruct by_id as [|? ?]; [discriminate Hc|]);
      (destruct (sort_keys _) as [order|] eqn:Ho; [|discriminate Hc]);
      (destruct (convert_nodes _ _ _ _) as [st|] eqn:Hcn; [|discriminate Hc]);
      (destruct (collect_llm_calls L) as [calls|]; [|discriminate Hc]);
      (destruct (rtt_record calls); [|discriminate Hc]); injection Hc as <- <-; eauto 10. }
  destruct (walk_spec _ _ _ _ HL) as [Hroot Hpar].
  pose proof (index_nodes_ok _ _ _ Hi (wn_int _ WN) (wn_nodup _ WN)) as Hix.
  assert (∀ k np, dget k by_id = Some np ↔ np ∈ L ∧ node_id np.1 = Ok k) as Hindex.
  { intros k np. rewrite Hix; [naive_solver|]. intros ? ? _ _. apply not_elem_of_nil. }
  apply sort_keys_ok in Ho as [Hperm Hss].
  destruct (convert_nodes_ok exec s0 inst L by_id WN) with (order := order) (done := @nil key)
    (st := CState [] [] 1 KNone) (w := World s0 []) (out := st) as [w [[Hr _ Hs] _]]; try done.
  - intros n q Hn. destruct (Hpar _ _ Hn) as [[= -> ->]|(m & r & -> & Hm)]; [by left|right; eauto].
  - intros n m Hn Hm. destruct (Hpar _ _ Hn) as [[= ->]|(? & ? & ? & _)]; [|done].
    by destruct (Hpar _ _ Hm) as [[= ->]|(? & ? & ? & _)].
  - split; [constructor; simpl; try done; intros ? ? _ _ ?%elem_of_nil; done|by constructor].
  - simpl. rewrite Hperm. by apply (index_nodes_nodup _ _ _ Hi), NoDup_nil_2.
  - intros np k Hnp Hk. simpl. rewrite Hperm. apply dget_is_Some. exists np. by apply Hindex.
  - exists w. split; [done|]. intros np k Hnp Hk Hex. destruct (Hs np k Hnp Hk) as (s & Hst & _ & Hsv); [|done|].
    + simpl. rewrite Hperm. apply dget_is_Some. exists np. by apply Hindex.
    + exists s. split; [|done]. intros s'. split; [|by intros ->]. intros Hst'. by eapply node_state_det.
Qed.

(** A decision procedure for [well_numbered], to use it on a given tree. *)
Definition node_num (n : json) : option Z := match node_id n with Ok (KInt z) => Some z | _ => None end.
Definition check_numbers (L : nodes) : bool :=
  forallb (fun np => bool_decide (is_Some (node_num np.1))) L &&
  bool_decide (NoDup ((fun np => node_num np.1) <$> L)) &&
  forallb (fun np => match np.2 with
    | Some p => match node_num p, node_num np.1 with Some zp, Some zn => (zp <? zn)%Z | _, _ => false end &&
                (negb (duplicate p) ||
                 forallb (fun mq => match mq.2 with Some _ => negb (bool_decide (node_num mq.1 = node_num p)) | None => true end) L)
    | None => true
    end) L.

Lemma node_num_id n z : node_num n = Some z ↔ node_id n = Ok (KInt z).
Proof. unfold node_num. destruct (node_id n) as [[]|]; naive_solver. Qed.

Lemma check_numbers_ok L : check_numbers L = true → well_numbered L.
Proof.
  unfold check_numbers. intros [[Hi Hn]%andb_true_iff Hp]%andb_true_iff.
  rewrite forallb_forall in Hi. rewrite forallb_forall in Hp. apply bool_decide_eq_true in Hn.
  assert (∀ np, np ∈ L → ∃ z, node_num np.1 = Some z) as Hint.
  { intros np H. apply list_elem_of_In, Hi in H. by apply bool_decide_eq_true in H as [z Hz]; exists z. }
  assert (∀ n p, (n, Some p) ∈ L → _) as Hp' by (intros n p H; apply list_elem_of_In, Hp in H; exact H).
  simpl in Hp'. constructor.
  - intros np H. destruct (Hint _ H) as [z Hz]. exists z. by apply node_num_id.
  - clear -Hn Hint. induction L as [|np L IH]; simpl in *; [constructor|].
    apply NoDup_cons in Hn as [Hn1 Hn2]. apply NoDup_cons. split; [|apply IH; [done|set_solver]].
    intros (np' & E & Hin)%list_elem_of_fmap. apply Hn1. apply list_elem_of_fmap. exists np'. split; [|done].
    unfold node_num. by rewrite E.
  - intros n p zn zp H Hzn%node_num_id Hzp%node_num_id. specialize (Hp' _ _ H) as [Hlt _]%andb_true_iff.
    rewrite Hzn, Hzp in Hlt. lia.
  - intros n p H q Hq. specialize (Hp' _ _ H) as [_ [?|Hd]%orb_true_iff]%andb_true_iff; [by apply negb_true_iff|].
    rewrite forallb_forall in Hd. apply list_elem_of_In, Hd in Hq. simpl in Hq. by rewrite bool_decide_eq_true_2 in Hq.
Qed.

End ConvertSpec.
