(* ===== verification/MakeSchedule.v ===== *)
(** * Validated replay schedules ([make_schedule.py])

    [make_schedule] converts a trajectory, stamps every checkpoint with its
    recorded latency and validates the result.  Theorems: [validate_schedule]
    accepts exactly the replayable schedules of well-formed events; a schedule
    that was made reproduces the recorded tree.

    The two input files are parameters, already parsed; the files written are
    the value returned.  [\d] of the instance pattern is a digit of ASCII. *)

From S2P Require Import Prelude PyStr PyDict Json Sha1 Schedule ScheduleSpec ConvertSpec.
From Stdlib Require Import Ascii.

Module MakeSchedule.
Import Schedule ScheduleSpec ConvertSpec.

(** ** Validation *)

Definition allowed_strategies (adaptive : bool) : list string :=
  if adaptive then ["standard"; "lightweight"; "predump"] else ["standard"].

Definition check_latency (latency : json) : result unit :=
  match latency with
  | JInt z => _ ← int_to_float z; fail_if (z <? 0)%Z ValueError "invalid latency_ms" (Ok tt)
  | JFloat f => fail_if (negb (isfinite f) || fneg f) ValueError "invalid latency_ms" (Ok tt)
  | _ => raise ValueError "invalid latency_ms"
  end.

Fixpoint check_operations (ops : list json) : result unit :=
  match ops with
  | [] => Ok tt
  | op :: ops =>
      n ← pget_or op "note" (JStr ""); note ← as_str n;
      fail_if (startswith note "unhandled_action:") ValueError "unsupported recorded action" (check_operations ops)
  end.

Definition check_worker_ops (e : json) : result unit :=
  operations ← pget e "worker_ops"; required ← pget e "worker_ops_required";
  match operations with
  | JArr ops =>
      fail_if (truth required && bool_decide (length ops = 0)) ValueError "missing worker operations"
        (check_operations ops)
  | _ => raise ValueError "missing worker operations"
  end.

Fixpoint validate_events (adaptive : bool) (checkpoints : list key) (events : list json) : result unit :=
  match events with
  | [] => Ok tt
  | e :: events =>
      type ← pget e "type";
      if is_string type "restore" then
        target ← pget e "restore_to_ckpt_id"; k ← hash_key target;
        fail_if (negb (mem k checkpoints)) ValueError "restore references a missing checkpoint"
          (validate_events adaptive checkpoints events)
      else if is_string type "ckpt" then
        checkpoint ← pget e "ckpt_id";
        if negb (truth checkpoint) then raise ValueError "missing or duplicate checkpoint ID" else
        k ← hash_key checkpoint;
        if mem k checkpoints then raise ValueError "missing or duplicate checkpoint ID" else
        strategy ← pget e "strategy";
        if negb (existsb (is_string strategy) (allowed_strategies adaptive))
        then raise ValueError "schedule strategy is not allowed by the selected adaptive policy" else
        latency ← pget e "latency_ms";
        _ ← check_latency latency;
        _ ← check_worker_ops e;
        validate_events adaptive (k :: checkpoints) events
      else raise ValueError "unknown event type"
  end.
Definition validate_schedule (events : list json) (adaptive : bool) : result unit :=
  if bool_decide (length events = 0) then raise ValueError "schedule is empty" else validate_events adaptive [] events.

(** ** Making a schedule *)

Fixpoint splits {A} (l : list A) : list (list A * list A) :=
  ([], l) :: match l with [] => [] | x :: l => (fun p => (x :: p.1, p.2)) <$> splits l end.
Definition name_char (c : ascii) : bool :=
  let n := nat_of_ascii c in
  ((65 <=? n) && (n <=? 90) || (97 <=? n) && (n <=? 122) || is_digit c || mem n [95; 46; 45])%nat.
Definition word (l : list ascii) : bool := negb (bool_decide (length l = 0)) && forallb name_char l.
(** [[A-Za-z0-9_.-]+__[A-Za-z0-9_.-]+-\d+] *)
Definition valid_instance (instance : string) : bool :=
  existsb (fun p => word p.1 && match p.2 with
    | a :: b :: rest =>
        ch_eq a "_" && ch_eq b "_" &&
        existsb (fun q => word q.1 && match q.2 with
          | d :: ((_ :: _) as ds) => ch_eq d "-" && forallb is_digit ds
          | _ => false
          end) (splits rest)
    | _ => false
    end) (splits (String.list_ascii_of_string instance)).
Definition hex_char (c : ascii) : bool :=
  let n := nat_of_ascii c in ((97 <=? n) && (n <=? 102) || (65 <=? n) && (n <=? 70) || is_digit c)%nat.
(** [[0-9a-fA-F]{40}] *)
Definition full_commit (commit : string) : bool :=
  bool_decide (String.length commit = 40) && forallb hex_char (String.list_ascii_of_string commit).

(** [1000] *)
Definition thousand : spec_float := fround 1000 0.
Fixpoint read_latencies (lines : list json) : result (list spec_float) :=
  match lines with
  | [] => Ok []
  | line :: lines =>
      duration ← pget line "dur_s";
      match duration with
      | JNull => read_latencies lines
      | _ =>
          f ← to_float duration;
          let latency := fmul f thousand in
          if negb (isfinite latency) || fneg latency then raise ValueError "invalid LLM duration" else
          rest ← read_latencies lines; Ok (latency :: rest)
      end
  end.

(** The loop over the events; [idx] is [checkpoint_index]. *)
Fixpoint stamp (adaptive : bool) (latencies : list spec_float) (idx : nat) (events : list json) : result (list json * nat) :=
  match events with
  | [] => Ok ([], idx)
  | e :: events =>
      type ← pitem e "type";
      if negb (is_string type "ckpt") then '(es, n) ← stamp adaptive latencies idx events; Ok (e :: es, n) else
      let e := if adaptive then e else jset e "strategy" (JStr "standard") in
      let e := jset e "dump_size_mb" (JFloat dump_size) in
      latency ← match latencies !! idx with Some l => Ok l | None => fmean latencies end;
      let e := jset e "latency_ms" (JFloat latency) in
      let source := if bool_decide (idx < length latencies) then "ms_trace" else "ms_trace_mean_fill" in
      let e := jset e "latency_source" (JStr source) in
      '(es, n) ← stamp adaptive latencies (S idx) events; Ok (e :: es, n)
  end.

Record metadata := Metadata {
  md_instance : string; md_conversion_policy : string; md_repository_commit : string;
  md_n_ckpt : nat; md_n_restore : nat; md_recorded_expected_failures : nat;
}.

Definition count_restores (events : list json) : result nat :=
  types ← mapM (fun e => pitem e "type") events;
  Ok (length (List.filter (fun j => is_string j "restore") types)).
Definition count_expected (events : list json) : result nat :=
  rows ← mapM (fun e => ops ← pget_or e "worker_ops" (JArr []); ops ← piter ops;
                        mapM (fun op => pget op "expected_outcome") ops) events;
  Ok (length (List.filter truth (concat rows))).

Definition make_schedule (trajectory : json) (ms_trace : list json) (instance : string) (adaptive : bool)
    : result (list json * metadata) :=
  if negb (valid_instance instance) then raise ValueError "invalid SWE-bench instance ID" else
  repository ← pget_or trajectory "repository" (JObj []);
  c ← pget repository "commit";
  match c with
  | JStr commit =>
      if negb (full_commit commit) then raise ValueError "trajectory has no full repository commit" else
      latencies ← read_latencies ms_trace;
      match latencies with
      | [] => raise ValueError "ms_trace.jsonl contains no LLM durations"
      | _ =>
          '(events, _) ← convert trajectory instance;
          '(events, n) ← stamp adaptive latencies 0 events;
          _ ← validate_schedule events adaptive;
          n_restore ← count_restores events;
          expected ← count_expected events;
          Ok (events, Metadata instance (if adaptive then "recorded-action-adaptive" else "all-standard")
                        commit n n_restore expected)
      end
  | _ => raise ValueError "trajectory has no full repository commit"
  end.

(** ** A small trajectory

    The search expands 1 below the root, meets a duplicate, goes back to the
    root for 3 and returns to 1 for 4. *)

Definition demo_step (cls : string) (args : list (string * json)) : json :=
  JObj [("action", JObj (("action_args_class", JStr ("moatless.actions." +:+ cls)) :: args)); ("observation", JObj [])].
Definition demo_node (id : Z) (steps : list json) (cs : list json) : json :=
  JObj [("node_id", JInt id); ("action_steps", JArr steps); ("completions", JNull); ("children", JArr cs)].
Definition demo_edit (text : string) : json :=
  demo_step "StringReplaceArgs" [("path", JStr "a.py"); ("old_str", JStr "x"); ("new_str", JStr text)].
Definition demo_dup : json := JObj [("node_id", JInt 2); ("is_duplicate", JBool true); ("children", JArr [])].
Definition demo_root : json :=
  demo_node 0 []
    [demo_node 1 [demo_edit "one"] [demo_dup; demo_node 4 [demo_edit "four"; demo_step "VerifiedFinishArgs" []] []];
     demo_node 3 [demo_step "ViewCodeArgs" [("files", JArr [JObj [("file_path", JStr "b.py")]])]] []].
Definition demo_trajectory : json :=
  JObj [("root", demo_root);
        ("repository", JObj [("commit", JStr "0123456789abcdef0123456789abcdef01234567")])].
(** Two latencies for four checkpoints. *)
Definition demo_trace : list json := [JObj [("dur_s", JInt 2)]; JObj [("dur_s", JNull)]; JObj [("dur_s", JFloat half)]].
(** A worker that writes down what it is told. *)
Definition demo_exec (ops : list json) (s : list json) : list json := s ++ ops.

Example demo_kinds :
  match make_schedule demo_trajectory demo_trace "psf__requests-1" true with
  | Ok (evs, md) => Some ((fun e => match pget e "type" with Ok (JStr t) => t | _ => "" end) <$> evs, md_n_ckpt md, md_n_restore md)
  | Err _ => None
  end = Some (["ckpt"; "ckpt"; "restore"; "ckpt"; "restore"; "ckpt"], 4, 2).
Proof. by vm_compute. Qed.

(** ** What validation promises *)

Definition get (e : json) (k : string) : json := match field e k with Some v => v | None => JNull end.

Definition latency_ok (latency : json) : Prop :=
  match latency with
  | JInt z => (0 <= z)%Z ∧ is_Ok (int_to_float z) = true
  | JFloat f => isfinite f = true ∧ fneg f = false
  | _ => False
  end.
Definition operation_ok (op : json) : Prop :=
  ∃ note, pget_or op "note" (JStr "") = Ok (JStr note) ∧ startswith note "unhandled_action:" = false.
Definition worker_ops_ok (e : json) : Prop :=
  ∃ ops, get e "worker_ops" = JArr ops ∧ (truth (get e "worker_ops_required") = true → ops ≠ []) ∧ Forall operation_ok ops.
(** What is asked of one event by itself. *)
Definition event_ok (adaptive : bool) (e : json) : Prop :=
  is_dict e = true ∧
  (event_is e "restore" = true ∨
   event_is e "ckpt" = true ∧ truth (get e "ckpt_id") = true ∧
   (∃ s, get e "strategy" = JStr s ∧ s ∈ allowed_strategies adaptive) ∧
   latency_ok (get e "latency_ms") ∧ worker_ops_ok e).

Lemma check_latency_ok l : check_latency l = Ok tt ↔ latency_ok l.
Proof.
  destruct l; simpl; try (split; [done|tauto]).
  - unfold mbind, result_bind, fail_if. destruct (int_to_float z); simpl; [|by split; [|intros [_ ?]]].
    destruct (z <? 0)%Z eqn:E; bool_hyps; (split; [intros ?|intros [? ?]]); first [done|lia|split; [lia|done]].
  - unfold fail_if. destruct (isfinite f), (fneg f); simpl; (split; [intros ?|intros [? ?]]); done.
Qed.

Lemma check_operations_ok ops : check_operations ops = Ok tt ↔ Forall operation_ok ops.
Proof.
  induction ops as [|op ops IH]; simpl; [split; [constructor|done]|].
  rewrite Forall_cons, <-IH. unfold operation_ok, mbind, result_bind, fail_if.
  destruct (pget_or op "note" (JStr "")) as [j|]; [|by split; [|intros [(? & [=] & _) _]]].
  destruct j as [| | | |note| |]; simpl; try by (split; [|intros [(? & [=] & _) _]]).
  destruct (startswith note "unhandled_action:") eqn:E; split.
  - done.
  - intros [(? & [= <-] & ?) _]. congruence.
  - intros H. split; [by exists note|done].
  - by intros [_ H].
Qed.

Lemma check_worker_ops_ok d : check_worker_ops (JObj d) = Ok tt ↔ worker_ops_ok (JObj d).
Proof.
  unfold check_worker_ops, worker_ops_ok, pget, pget_or, get, field, mbind, result_bind.
  set (req := match dget "worker_ops_required" d with Some v => v | None => JNull end).
  destruct (match dget "worker_ops" d with Some v => v | None => JNull end) as [| | | | |ops|]; try naive_solver.
  unfold fail_if. destruct (truth req); simpl; [case_bool_decide as E|].
  - apply nil_length_inv in E as ->. naive_solver.
  - rewrite check_operations_ok. split; [|naive_solver]. intros H. exists ops. split; [done|]. split; [|done]. by intros _ ->.
  - rewrite check_operations_ok. naive_solver.
Qed.

Lemma strategy_ok j a : existsb (is_string j) (allowed_strategies a) = true ↔ ∃ s, j = JStr s ∧ s ∈ allowed_strategies a.
Proof.
  rewrite existsb_exists. split.
  - intros (s & Hs & E). exists s. destruct j; try done. simpl in E. apply bool_decide_eq_true in E as ->.
    split; [done|]. by apply list_elem_of_In.
  - intros (s & -> & Hs). exists s. split; [by apply list_elem_of_In|]. simpl. by apply bool_decide_eq_true.
Qed.

Lemma pget_field d k : pget (JObj d) k = Ok (get (JObj d) k).
Proof. done. Qed.
Lemma event_type d type : event_is (JObj d) type = is_string (get (JObj d) "type") type.
Proof. unfold event_is, get, field. by destruct (dget "type" d). Qed.
Lemma key_field_get d k x : key_field (JObj d) k = Some x → hash_key (get (JObj d) k) = Ok x.
Proof. unfold key_field, get, field. destruct (dget k d) as [j|]; [|done]. destruct (hash_key j); congruence. Qed.
Lemma get_key_field d k x : hash_key (get (JObj d) k) = Ok x → x ≠ KNone → key_field (JObj d) k = Some x.
Proof.
  unfold key_field, get, field. destruct (dget k d) as [j|]; [by intros ->|]. simpl. congruence.
Qed.
Lemma truth_not_none j k : truth j = true → hash_key j = Ok k → k ≠ KNone.
Proof. intros Ht Hk ->. by apply hash_key_ok in Hk as ->. Qed.

Section validation.
Context {S : Type} (exec : list json → S → S) (adaptive : bool).
Implicit Types (w : world S) (seen : list key).

Lemma not_both d : event_is (JObj d) "restore" = true → event_is (JObj d) "ckpt" = false.
Proof.
  rewrite !event_type. destruct (get (JObj d) "type"); simpl; try done. intros ?. bool_hyps. by subst.
Qed.

(** One event at a time: what the validator asks ... *)
Lemma validate_restore d evs seen :
  event_is (JObj d) "restore" = true →
  validate_events adaptive seen (JObj d :: evs) = Ok tt ↔
  (∃ k, hash_key (get (JObj d) "restore_to_ckpt_id") = Ok k ∧ k ∈ seen) ∧ validate_events adaptive seen evs = Ok tt.
Proof.
  intros Hev. cbn [validate_events]. rewrite event_type in Hev. rewrite !pget_field. unfold mbind, result_bind.
  rewrite Hev. destruct (hash_key _) as [k|]; [|by split; [|intros [(? & [=] & _) _]]].
  unfold fail_if. destruct (mem k seen) eqn:Hm; simpl.
  - apply mem_true in Hm. naive_solver.
  - apply mem_false in Hm. split; [done|]. by intros [(? & [= <-] & ?) _].
Qed.
Lemma validate_ckpt d evs seen :
  event_is (JObj d) "ckpt" = true →
  validate_events adaptive seen (JObj d :: evs) = Ok tt ↔
  event_ok adaptive (JObj d) ∧
  ∃ k, hash_key (get (JObj d) "ckpt_id") = Ok k ∧ k ∉ seen ∧ validate_events adaptive (k :: seen) evs = Ok tt.
Proof.
  intros Hev. assert (is_string (get (JObj d) "type") "restore" = false) as Hr.
  { destruct (is_string _ "restore") eqn:E; [|done]. rewrite <-event_type in E. by rewrite (not_both _ E) in Hev. }
  unfold event_ok. rewrite Hev, event_type, Hr, <-strategy_ok, <-check_latency_ok, <-check_worker_ops_ok.
  cbn [validate_events]. rewrite event_type in Hev. rewrite !pget_field. unfold mbind, result_bind. rewrite Hr, Hev.
  destruct (truth _); simpl; [|naive_solver]. destruct (hash_key _) as [k|]; [|naive_solver].
  destruct (mem k seen) eqn:Hm; [apply mem_true in Hm; naive_solver|apply mem_false in Hm].
  destruct (existsb _ _); simpl; [|naive_solver].
  destruct (check_latency _) as [[]|]; [|naive_solver]. destruct (check_worker_ops _) as [[]|]; naive_solver.
Qed.

(** ... and what the guest does. *)
Lemma run_restore d evs w seen :
  event_is (JObj d) "restore" = true → (∀ k, k ∈ seen ↔ k ∈ dkeys (saved w)) → KNone ∉ seen →
  is_Some (replay exec (JObj d :: evs) w) ↔
  (∃ k, hash_key (get (JObj d) "restore_to_ckpt_id") = Ok k ∧ k ∈ seen) ∧
  ∃ s, replay_event exec (JObj d) w = Some (World s (saved w)) ∧ is_Some (replay exec evs (World s (saved w))).
Proof.
  intros Hev Hseen Hnone. cbn [replay]. unfold replay_event. rewrite (not_both _ Hev), Hev.
  destruct (key_field (JObj d) "restore_to_ckpt_id") as [k|] eqn:Hk; simpl.
  - apply key_field_get in Hk. destruct (dget k (saved w)) as [s|] eqn:Hd; simpl.
    + split; [|naive_solver]. intros H. split; [|by exists s]. exists k. split; [done|].
      apply Hseen, dget_is_Some. eauto.
    + split; [by intros [? ?]|]. by intros [_ (? & ? & _)].
  - split; [by intros [? ?]|]. by intros [_ (? & ? & _)].
Qed.
Lemma run_ckpt d w k :
  event_is (JObj d) "ckpt" = true → event_ok adaptive (JObj d) → hash_key (get (JObj d) "ckpt_id") = Ok k →
  key_field (JObj d) "ckpt_id" = Some k ∧
  ∃ s, replay_event exec (JObj d) w = Some (World s (dset k s (saved w))).
Proof.
  intros Hev [_ [Hr|(_ & Ht & _ & _ & ops & Hops & _)]] Hk; [by rewrite (not_both _ Hr) in Hev|].
  pose proof (get_key_field _ _ _ Hk (truth_not_none _ _ Ht Hk)) as Hf. split; [done|].
  unfold replay_event, event_ops. rewrite Hev, Hf. unfold get in Hops.
  destruct (field (JObj d) "worker_ops") as [j|]; [|done]. subst j. simpl. eauto.
Qed.

(** Validation from a set of ids already seen. *)
Lemma validate_events_iff evs seen w :
  (∀ k, k ∈ seen ↔ k ∈ dkeys (saved w)) → KNone ∉ seen →
  validate_events adaptive seen evs = Ok tt ↔
  Forall (event_ok adaptive) evs ∧ NoDup (ckpt_ids evs) ∧ (∀ k, k ∈ ckpt_ids evs → k ∉ seen) ∧ is_Some (replay exec evs w).
Proof.
  revert seen w. induction evs as [|e evs IH]; intros seen w Hseen Hnone.
  { simpl. split; [|done]. intros _. split; [constructor|]. split; [constructor|]. split; [by intros k ?%elem_of_nil|eauto]. }
  rewrite Forall_cons. destruct e as [| | | | | |d]; try (split; [done|]; by intros [[[? _] _] _]).
  destruct (event_is (JObj d) "restore") eqn:Hr; [|destruct (event_is (JObj d) "ckpt") eqn:Hc].
  - rewrite validate_restore, run_restore by done. unfold ckpt_ids. cbn [omap list_omap]. rewrite (not_both _ Hr).
    fold (ckpt_ids evs). split.
    + intros [Hk Hv]. pose proof Hk as (k & Hh & Hin).
      assert (∃ s, replay_event exec (JObj d) w = Some (World s (saved w))) as [s Hs].
      { unfold replay_event. rewrite (not_both _ Hr), Hr, (get_key_field _ _ _ Hh) by (by intros ->).
        apply Hseen, dget_is_Some in Hin as [s Hs]. exists s. simpl. by rewrite Hs. }
      rewrite (IH seen (World s (saved w))) in Hv by done. destruct Hv as (? & ? & ? & ?).
      repeat split; try done; [by left|]. by exists s.
    + intros ((_ & ?) & ? & ? & Hk & s & Hs & ?). split; [done|]. by apply (IH seen (World s (saved w))).
  - rewrite validate_ckpt by done. unfold ckpt_ids. cbn [omap list_omap]. rewrite Hc. fold (ckpt_ids evs). split.
    + intros (Hok & k & Hk & Hn & Hv). destruct (run_ckpt d w k Hc Hok Hk) as [Hf [s Hs]].
      rewrite (IH (k :: seen) (World s (dset k s (saved w)))) in Hv.
      * destruct Hv as (? & Hnd & Hdis & ?). rewrite Hf. simpl. rewrite Hs. simpl.
        repeat split; try done; [apply Hok..| |].
        -- apply NoDup_cons. split; [|done]. intros Hin. apply (Hdis _ Hin). by left.
        -- intros k' [->|Hin]%elem_of_cons; [done|]. specialize (Hdis _ Hin). set_solver.
      * intros k'. simpl. rewrite dkeys_dset, elem_of_cons, Hseen. case_decide; set_solver.
      * apply not_elem_of_cons. split; [|done]. intros <-.
        destruct Hok as [_ [Hx|(_ & Ht & _)]]; [by rewrite Hx in Hr|]. by eapply truth_not_none.
    + intros ([Hok Hall] & Hnd & Hdis & Hrun). cbn [replay] in Hrun.
      destruct (key_field (JObj d) "ckpt_id") as [k|] eqn:Hf.
      2: { unfold replay_event in Hrun. rewrite Hc, Hf in Hrun. by destruct Hrun. }
      apply key_field_get in Hf. destruct (run_ckpt d w k Hc Hok Hf) as [_ [s Hs]]. rewrite Hs in Hrun. simpl in Hrun.
      apply NoDup_cons in Hnd as [Hnk Hnd]. split; [done|]. exists k. split; [done|]. split; [apply Hdis; by left|].
      apply (IH (k :: seen) (World s (dset k s (saved w)))).
      * intros k'. simpl. rewrite dkeys_dset, elem_of_cons, Hseen. case_decide; set_solver.
      * apply not_elem_of_cons. split; [|done]. intros <-.
        destruct Hok as [_ [Hx|(_ & Ht & _)]]; [by rewrite Hx in Hr|]. by eapply truth_not_none.
      * repeat split; try done. intros k' Hin. apply not_elem_of_cons. split; [by intros ->|]. apply Hdis. by right.
  - split; [|intros [[[_ [?|[? _]]] _] _]; congruence].
    cbn [validate_events]. rewrite !pget_field. unfold mbind, result_bind.
    rewrite event_type in Hr, Hc. by rewrite Hr, Hc.
Qed.
End validation.

(** ** Stamping *)

Lemma field_jset_ne d k v k' : k ≠ k' → field (jset (JObj d) k v) k' = field (JObj d) k'.
Proof. intros. simpl. by rewrite dget_dset_ne. Qed.

(** Two events the guest replays alike. *)
Definition alike (e e' : json) : Prop :=
  Forall (fun k => field e' k = field e k) ["type"; "ckpt_id"; "worker_ops"; "restore_to_ckpt_id"].
Lemma alike_replay {S} (exec : list json → S → S) e e' w :
  alike e e' → replay_event exec e' w = replay_event exec e w ∧
  (if event_is e' "ckpt" then key_field e' "ckpt_id" else None) = (if event_is e "ckpt" then key_field e "ckpt_id" else None).
Proof.
  unfold alike. rewrite !Forall_cons. intros (E1 & E2 & E3 & E4 & _).
  unfold replay_event, event_is, key_field, event_ops. by rewrite E1, E2, E3, E4.
Qed.

(** Stamping an event leaves these fields alone. *)
Lemma alike_jset e d k v : alike e (JObj d) → k ∉ ["type"; "ckpt_id"; "worker_ops"; "restore_to_ckpt_id"] →
  alike e (jset (JObj d) k v).
Proof.
  intros He Hk. unfold alike in *. rewrite Forall_forall in *. intros k' Hk'. rewrite field_jset_ne; [by apply He|].
  by intros ->.
Qed.

Lemma stamp_alike adaptive ls idx evs out n : stamp adaptive ls idx evs = Ok (out, n) → Forall2 alike evs out.
Proof.
  revert idx out n. induction evs as [|e evs IH]; intros idx out n; simpl; [by intros [= <- _]; constructor|].
  unfold mbind, result_bind. destruct e as [| | | | | |d]; try done. simpl.
  destruct (dget "type" d) as [type|]; [|done]. destruct (is_string type "ckpt"); simpl.
  - destruct (match ls !! idx with Some l => _ | None => _ end) as [latency|]; [|done].
    destruct (stamp adaptive ls (S idx) evs) as [[es m]|] eqn:E; [|done]. intros [= <- _].
    constructor; [|by eapply IH].
    assert (∀ d', alike (JObj d) (JObj d') → alike (JObj d) (jset (jset (jset (JObj d') "dump_size_mb" (JFloat dump_size))
      "latency_ms" (JFloat latency)) "latency_source"
      (JStr (if bool_decide (idx < length ls) then "ms_trace" else "ms_trace_mean_fill")))) as Hd.
    { intros d' Hd. do 3 (apply alike_jset; [|set_solver]). done. }
    assert (alike (JObj d) (JObj d)) as Hrefl by (unfold alike; by rewrite !Forall_cons).
    destruct adaptive; [by apply Hd|]. apply (Hd (dset "strategy" (JStr "standard") d)).
    apply (alike_jset _ d); [done|set_solver].
  - destruct (stamp adaptive ls idx evs) as [[es m]|] eqn:E; [|done]. intros [= <- _].
    constructor; [|by eapply IH]. unfold alike. by rewrite !Forall_cons.
Qed.

Lemma alike_replays {S} (exec : list json → S → S) evs evs' w :
  Forall2 alike evs evs' → replay exec evs' w = replay exec evs w ∧ ckpt_ids evs' = ckpt_ids evs.
Proof.
  intros H. revert w. induction H as [|e e' evs evs' He H IH]; intros w; [done|].
  destruct (alike_replay exec _ _ w He) as [Hr Hi]. split.
  - simpl. rewrite Hr. destruct (replay_event exec e w) as [w'|]; [apply IH|done].
  - change (e' :: evs') with ([e'] ++ evs'). change (e :: evs) with ([e] ++ evs). rewrite !ckpt_ids_app.
    f_equal; [unfold ckpt_ids; simpl; by rewrite Hi|apply (IH w)].
Qed.

Lemma validated_iff {S} (exec : list json → S → S) (s0 : S) adaptive evs :
  validate_schedule evs adaptive = Ok tt ↔
  evs ≠ [] ∧ Forall (event_ok adaptive) evs ∧ NoDup (ckpt_ids evs) ∧ is_Some (replay exec evs (World s0 [])).
Proof.
  unfold validate_schedule. case_bool_decide as E.
  - apply nil_length_inv in E as ->. naive_solver.
  - rewrite (validate_events_iff exec adaptive evs [] (World s0 [])) by (simpl; set_solver).
    split; [|intros (_ & ? & ? & ?); repeat split; try done; by intros ? _ ?%elem_of_nil].
    intros (? & ? & _ & ?). repeat split; try done. by intros ->.
Qed.

(** C34: validation accepts exactly the schedules that can be replayed: every
    event is well formed by itself (a known type, a truthy id, an allowed
    strategy, a finite non-negative latency, supported worker operations), no
    checkpoint id occurs twice, and, whatever worker runs the operations from
    whatever state, every restore finds the checkpoint it names. *)
Theorem validate_schedule_iff {S} (exec : list json → S → S) (s0 : S) adaptive evs :
  validate_schedule evs adaptive = Ok tt ↔
  evs ≠ [] ∧ Forall (event_ok adaptive) evs ∧ NoDup (ckpt_ids evs) ∧ is_Some (replay exec evs (World s0 [])).
Proof. apply validated_iff. Qed.

(** C33: a schedule that was made reproduces the recorded search: if the
    recorder numbered the nodes in the order of their expansion, then for every
    worker and every initial state the guest runs the whole schedule, and each
    node that was executed is saved in the state its operations give on the
    state of its parent - whatever jumps the search made, and also if only a
    prefix of the latencies was recorded. *)
Theorem make_schedule_reproduces {S} (exec : list json → S → S) (s0 : S) t ms inst adaptive evs md root L :
  make_schedule t ms inst adaptive = Ok (evs, md) →
  pget t "root" = Ok root → walk_with_parents root = Ok L → well_numbered L →
  reproduces exec inst L s0 evs.
Proof.
  intros Hm Hroot HL WN. unfold make_schedule in Hm. inv_ok.
  match goal with
  | Hc : convert _ _ = Ok (?raw, _), Hs : stamp _ _ _ ?raw = Ok (?out, _), Hv : validate_schedule ?out _ = Ok ?u |- _ =>
      destruct u; apply stamp_alike in Hs; apply (validated_iff exec s0) in Hv as (_ & _ & Hnd & _);
      destruct (alike_replays exec _ _ (World s0 []) Hs) as [Hr Hi]; rewrite Hi in Hnd;
      destruct (convert_replays exec _ _ _ _ _ _ s0 Hroot HL WN Hc Hnd) as (w & Hw & Hsaved)
  end.
  exists w. split; [congruence|done].
Qed.

Lemma make_schedule_reproduces_witness :
  ∃ evs md root L, make_schedule demo_trajectory demo_trace "psf__requests-1" true = Ok (evs, md) ∧
    pget demo_trajectory "root" = Ok root ∧ walk_with_parents root = Ok L ∧ length L = 5 ∧
    reproduces demo_exec "psf__requests-1" L [] evs.
Proof.
  do 4 eexists. split; [vm_compute; reflexivity|]. split; [reflexivity|]. split; [vm_compute; reflexivity|].
  split; [reflexivity|].
  eapply (make_schedule_reproduces demo_exec [] demo_trajectory demo_trace "psf__requests-1" true);
    [vm_compute; reflexivity|reflexivity|vm_compute; reflexivity|].
  apply check_numbers_ok. vm_compute. reflexivity.
Defined.

End MakeSchedule.
