(* ===== verification/Driver.v ===== *)
(** * The guest driver of a replay ([replay/guest/trace_replay_main.py])

    [_run_replay] feeds the events of a schedule to the controller and to the
    agent's control channel, and records a row per event.  Controller, channel,
    dump futures and measurements are an interface ([Class Guest]).  Timing
    figures and footprints of the rows are left out, as are the bring-up of the
    guest before the loop and the summary after it. *)

From S2P Require Import Prelude Hoare PyStr PyDict Json.

Module Driver.

(** What [checkpoint_action] returns that the driver looks at. *)
Record ckpt_info := CkptInfo {
  ci_id : string; ci_strategy : string; ci_future : option Z; ci_validation : bool;
}.
(** What [restore_action] returns that the driver looks at; [None] for a key
    that is missing. *)
Record restored := Restored { r_path : option string; r_replay_cmds : json }.

Class Guest (X : Type) := {
  (** seconds *)
  sleep : spec_float → M X unit;
  monotonic : M X Z;
  write_dirty : Z → Z → M X unit;
  (** the measurements of a row *)
  footprints : M X unit;
  memcurve_sample : M X unit;
  probe : Z → string → M X json;
  control : json → M X json;
  control_fresh : json → M X json;
  reset : M X unit;
  epoch : M X Z;
  checkpoint_action : option string → json → json → M X ckpt_info;
  restore_action : string → M X restored;
  ns_init_pid : M X (option Z);
  own_namespace : option Z → M X unit;
  registered : string → M X bool;
  gc_obsolete_snapshots : list string → M X unit;
  dump_result : Z → M X unit;
  abort_dumps : M X unit;
  shutdown_dumps : M X unit
}.

Record config := Config {
  require_real : bool; real_agent : bool; worker_exec_required : bool; active_worker_required : bool;
  agent_probe : bool; sync_dump : bool; sidecar : bool; keep_channel : bool;
  memcurve : bool; memcurve_gc : bool; memcurve_skip : bool; active_load_request : json;
}.

Inductive row :=
  | RowCkpt (ev_i step_idx : Z) (sched : json) (runtime strategy : string) (worker_exec : option json) (test_timeout : bool)
            (index : option json)
  | RowRestore (ev_i : Z) (sched : json) (target : string) (path : string) (replayed : option json) (index : option json)
  | RowUnknown (ev_i : Z) (raw : json)
  | RowFailed (ev_i : Z) (kind : json) (err : exn)
  | RowMemcurve (ev_i : Z) (err : option exn)
  | RowGcFailed (err : exn)
  | RowDump (id : string) (err : option exn).

(** The variables of the loop. *)
Record driver := Driver_ {
  results : list row; pending_dumps : list (string * Z); last_ckpt_id : option string;
  schedule_to_runtime : list (key * string); runtime_index_status : list (string * json);
  validation_ckpts : list string; step_idx : Z; had_error : bool;
}.
Definition start : driver := Driver_ [] [] None [] [] [] 0 false.
Definition add_row (r : row) (d : driver) : driver :=
  Driver_ (results d ++ [r]) (pending_dumps d) (last_ckpt_id d) (schedule_to_runtime d) (runtime_index_status d)
    (validation_ckpts d) (step_idx d) (had_error d).
Definition add_dump (p : string * Z) (d : driver) : driver :=
  Driver_ (results d) (pending_dumps d ++ [p]) (last_ckpt_id d) (schedule_to_runtime d) (runtime_index_status d)
    (validation_ckpts d) (step_idx d) (had_error d).
Definition set_last (id : string) (d : driver) : driver :=
  Driver_ (results d) (pending_dumps d) (Some id) (schedule_to_runtime d) (runtime_index_status d)
    (validation_ckpts d) (step_idx d) (had_error d).
Definition set_runtime (k : key) (id : string) (d : driver) : driver :=
  Driver_ (results d) (pending_dumps d) (last_ckpt_id d) (dset k id (schedule_to_runtime d)) (runtime_index_status d)
    (validation_ckpts d) (step_idx d) (had_error d).
Definition set_index (id : string) (status : json) (d : driver) : driver :=
  Driver_ (results d) (pending_dumps d) (last_ckpt_id d) (schedule_to_runtime d) (dset id status (runtime_index_status d))
    (validation_ckpts d) (step_idx d) (had_error d).
Definition add_validation (id : string) (d : driver) : driver :=
  Driver_ (results d) (pending_dumps d) (last_ckpt_id d) (schedule_to_runtime d) (runtime_index_status d)
    (validation_ckpts d ++ [id]) (step_idx d) (had_error d).
Definition next_step (d : driver) : driver :=
  Driver_ (results d) (pending_dumps d) (last_ckpt_id d) (schedule_to_runtime d) (runtime_index_status d)
    (validation_ckpts d) (step_idx d + 1) (had_error d).
Definition fail (d : driver) : driver :=
  Driver_ (results d) (pending_dumps d) (last_ckpt_id d) (schedule_to_runtime d) (runtime_index_status d)
    (validation_ckpts d) (step_idx d) true.

(** ** Answers of the agent *)

Definition obj (l : list (string * json)) : json := JObj l.
(** [j.get(k)] of an answer; [int(j.get(k) or 0)] *)
Definition int_or0 (j : json) (k : string) : result Z := v ← pget j k; to_int (por v (JInt 0)).

Definition require_nonempty_worker_index (status : json) : result unit :=
  n_files ← int_or0 status "n_files";
  classes ← int_or0 status "n_classes"; functions ← int_or0 status "n_functions";
  let bad := raise RuntimeError "worker code index invalid/nonempty gate failed" in
  ok ← pget status "ok"; if negb (truth ok) then bad else
  loaded ← pget status "loaded"; if negb (truth loaded) then bad else
  fingerprint ← pget status "fingerprint"; if negb (truth fingerprint) then bad else
  if (n_files <=? 0)%Z then bad else
  bytes ← int_or0 status "total_bytes"; if (bytes <=? 0)%Z then bad else
  if (classes + functions <=? 0)%Z then bad else Ok tt.

(** [j == z] *)
Definition eq_int (j : json) (z : Z) : bool :=
  match j with
  | JInt x => (x =? z)%Z
  | JBool b => ((if b then 1 else 0) =? z)%Z
  | JFloat f =>
      let '(m, e) := dyadic f in
      isfinite f && (if (0 <=? e)%Z then (Z.shiftl m e =? z)%Z else (m =? Z.shiftl z (- e))%Z)
  | _ => false
  end.
(** [j.get(k)] as a condition *)
Definition flag (j : json) (k : string) : bool := match pget j k with Ok v => truth v | Err _ => false end.
(** A [run_tests] command that reached its timeout, and nothing else failed. *)
Definition worker_exec_is_test_timeout (res : json) : result bool :=
  if negb (is_dict res) || flag res "ok" then Ok false else
  rs ← pget res "results"; rs ← piter (por rs (JArr []));
  match List.filter (fun r => is_dict r && negb (flag r "ok")) rs with
  | [] => Ok false
  | failed =>
      Ok (forallb (fun r => match pget r "type", pget r "err" with
                            | Ok t, Ok e => is_string t "run_tests" && is_string e "TimeoutExpired"
                            | _, _ => false
                            end) failed)
  end.

Definition OVERLAY_MOUNT : string := "/testbed".
Definition exec_request (ops : json) (step : Z) (ckpt : json) : json :=
  obj [("ctrl", JStr "worker_exec"); ("ops", ops); ("root", JStr OVERLAY_MOUNT); ("step_idx", JInt step); ("ckpt_id", ckpt)].
Definition replay_request (ops : json) (index : Z) (action : json) : json :=
  obj [("ctrl", JStr "worker_exec"); ("ops", ops); ("root", JStr OVERLAY_MOUNT); ("replay_index", JInt index);
       ("replay_action", action)].
Definition index_status_request : json := obj [("ctrl", JStr "worker_index_status")].
Definition active_status_request : json := obj [("ctrl", JStr "active_worker_status")].
Definition index_build_request : json := obj [("ctrl", JStr "worker_index_build"); ("root", JStr OVERLAY_MOUNT)].
Definition index_snapshot_request (id : string) : json := obj [("ctrl", JStr "worker_index_snapshot"); ("snapshot_id", JStr id)].
Definition index_restore_request (id : string) : json :=
  obj [("ctrl", JStr "worker_index_restore_snapshot"); ("snapshot_id", JStr id)].
Definition ready_request : json := obj [("ctrl", JStr "replay_ready")].

Definition _MEMCURVE_READONLY_OPS : list string :=
  ["find_symbol"; "grep"; "view_file"; "noop"; "list_files"; "view_code"; "find_files"; "semantic_search"].
Fixpoint all_read_only (ops : list json) : result bool :=
  match ops with
  | [] => Ok true
  | op :: ops =>
      t ← pget (por op (JObj [])) "type";
      match por t (JStr "") with
      | JStr s => if mem s _MEMCURVE_READONLY_OPS then all_read_only ops else Ok false
      | JArr _ | JObj _ => raise TypeError "unhashable type"
      | _ => Ok false
      end
  end.
Definition _memcurve_ops_read_only (worker_ops : json) : result bool :=
  match worker_ops with
  | JArr ((_ :: _) as ops) => all_read_only ops
  | _ => Ok false
  end.

(** [a == b] *)
Fixpoint json_eqb (a b : json) {struct a} : bool :=
  match a, b with
  | JNull, JNull => true
  | JBool x, (JBool _ | JInt _ | JFloat _) => eq_int b (if x then 1 else 0)
  | JInt x, (JBool _ | JInt _ | JFloat _) => eq_int b x
  | JFloat _, JInt y => eq_int a y
  | JFloat _, JBool y => eq_int a (if y then 1 else 0)
  | JFloat x, JFloat y => match SFcompare x y with Some Eq => true | _ => false end
  | JStr x, JStr y => bool_decide (x = y)
  | JArr x, JArr y =>
      (fix all (x y : list json) : bool :=
         match x, y with
         | [], [] => true
         | a :: x, b :: y => json_eqb a b && all x y
         | _, _ => false
         end) x y
  | JObj x, JObj y =>
      bool_decide (length x = length y) &&
      (fix all (x : list (string * json)) : bool :=
         match x with
         | [] => true
         | (k, a) :: x => match dget k y with Some b => json_eqb a b && all x | None => false end
         end) x
  | _, _ => false
  end.

Section run.
Context {X : Type} `{!Guest X} (cfg : config).
Notation D := (M (driver * X)).

(** An answer that has to say ok and loaded. *)
Definition loaded (j : json) : bool := flag j "ok" && flag j "loaded".

(** ** Restoring *)

(** The readiness handshake: retried while the pipe breaks, until the deadline. *)
Fixpoint ready_loop (fuel : nat) (deadline : Z) (ready : json) : D json :=
  match fuel with
  | O => mraise OutOfFuel "replay_ready"
  | S fuel =>
      now ← on_host monotonic;
      if (deadline - now <=? 0)%Z then mret ready else
      ready ← on_host (control_fresh ready_request);
      err ← lift_result (pget ready "err");
      if negb (is_string err "BrokenPipeError") then mret ready else
      now ← on_host monotonic;
      if (deadline - now <=? 0)%Z then mret ready else
      _ ← on_host (sleep (fdiv (fround (Z.min 5000 (deadline - now)) 0) (fround 1000000 0)));
      ready_loop fuel deadline ready
  end.
Definition READY_US : Z := 5000000.

Definition restore_with_ready (fuel : nat) (target : string) : D restored :=
  before ← on_host ns_init_pid;
  let own (strict : bool) : D unit :=
    after ← on_host ns_init_pid;
    if bool_decide (after = before) then mret tt else
    mcatch (on_host (own_namespace after))
      (fun e => if strict || mem (exn_cls e) [SystemExit; OutOfModel; OutOfFuel] then mthrow e else mret tt) in
  r ← mcatch (on_host (restore_action target)) (fun e => _ ← own false; mthrow e);
  _ ← own true;
  _ ← (if real_agent cfg && negb (bool_decide (r_path r = Some "warm-template")) then
         started ← on_host monotonic;
         ready ← ready_loop fuel (started + READY_US) (obj [("ok", JBool false); ("err", JStr "timeout")]);
         ok ← lift_result (pget ready "ok");
         if negb (truth ok) then mraise RuntimeError "restored agent activation failed" else
         said ← lift_result (pget ready "epoch"); ep ← on_host epoch;
         if eq_int said ep then mret tt
         else mraise RuntimeError "restored agent activation failed"
       else mret tt);
  mret r.

(** ** The index beside the agent *)

Definition _snapshot_sidecar_index (id : string) : D (option json) :=
  if negb (sidecar cfg) || negb (real_agent cfg) then mret None else
  status ← on_host (control (index_snapshot_request id));
  _ ← lift_result (require_nonempty_worker_index status); mret (Some status).
Definition _rebuild_sidecar_index_after_restore : D (option json) :=
  if negb (sidecar cfg) || negb (real_agent cfg) then mret None else
  _ ← on_host reset; status ← on_host (control index_build_request);
  _ ← lift_result (require_nonempty_worker_index status); mret (Some status).
Definition _restore_sidecar_index_snapshot (id : string) : D (option json) :=
  if negb (sidecar cfg) || negb (real_agent cfg) then mret None else
  _ ← on_host reset; status ← on_host (control (index_restore_request id));
  ok ← lift_result (pget status "ok"); missing ← lift_result (pget status "missing_snapshot");
  if truth ok && negb (truth missing)
  then _ ← lift_result (require_nonempty_worker_index status); mret (Some status)
  else _rebuild_sidecar_index_after_restore.

(** ** Lightweight checkpoints: their operations run again after a restore *)

Record replayed := Replayed { rp_ok : bool; rp_ops : Z; rp_rows : list json; rp_first_bad : option json }.
Fixpoint replay_cmds (i : Z) (cmds : list json) (out : replayed) : D replayed :=
  match cmds with
  | [] => mret out
  | item :: cmds =>
      v ← lift_result (pget item "worker_ops");
      let ops := match por v (JArr []) with JArr l => l | _ => [] end in
      let out := Replayed (rp_ok out) (rp_ops out + Z.of_nat (length ops)) (rp_rows out) (rp_first_bad out) in
      match ops with
      | [] => replay_cmds (i + 1) cmds out
      | _ =>
          action ← lift_result (pget item "action");
          res ← on_host (control (replay_request (JArr ops) i action));
          ok ← lift_result (pget res "ok");
          if truth ok then replay_cmds (i + 1) cmds (Replayed (rp_ok out) (rp_ops out) (rp_rows out ++ [res]) (rp_first_bad out))
          else mret (Replayed false (rp_ops out) (rp_rows out ++ [res]) (Some res))
      end
  end.
Definition replay_lightweight_worker_ops (cmds : json) : D replayed :=
  l ← lift_result (piter cmds); replay_cmds 0 l (Replayed true 0 [] None).

(** ** Events *)

Definition check_probe (phase : string) : D unit :=
  if negb (agent_probe cfg && real_agent cfg) then mret tt else
  d ← locals; r ← on_host (probe (step_idx d) phase);
  ok ← lift_result (pget r "ok"); if negb (truth ok) then mraise RuntimeError "agent probe failed" else
  mismatch ← lift_result (pget r "mismatch"); if truth mismatch then mraise RuntimeError "agent probe mismatch" else mret tt.

(** The operations of a checkpoint, in the agent; the answer, and whether a test
    ran out of time. *)
Definition run_worker_ops (ev worker_ops : json) : D (option json * bool) :=
  if worker_exec_required cfg then
    required ← lift_result (pget_or ev "worker_ops_required" (JBool true));
    match worker_ops with
    | JArr ops =>
        if truth required && bool_decide (ops = []) then mraise RuntimeError "worker-exec mode got empty worker_ops for required ckpt" else
        ckpt ← lift_result (pget ev "ckpt_id"); d ← locals;
        res ← on_host (control (exec_request worker_ops (step_idx d) ckpt));
        timeout ← lift_result (worker_exec_is_test_timeout res);
        ok ← lift_result (pget res "ok");
        if negb (truth ok) && negb timeout then mraise RuntimeError "worker exec failed" else mret (Some res, timeout)
    | _ => mraise RuntimeError "worker-exec mode requires worker_ops on ckpt event"
    end
  else
    dirty ← lift_result (v ← pget_or ev "dirty_mb" (JInt 0); to_int v);
    d ← locals; _ ← on_host (write_dirty dirty (step_idx d)); mret (None, false).

Definition check_active_worker (kept : bool) : D unit :=
  if negb (active_worker_required cfg) then mret tt else
  _ ← mwhen (negb kept) (on_host reset);
  status ← on_host (control_fresh active_status_request);
  if loaded status then mret tt else mraise RuntimeError "active worker status invalid".
Definition index_status : D (option json) :=
  if negb (worker_exec_required cfg) then mret None else
  status ← on_host (control_fresh index_status_request);
  _ ← lift_result (require_nonempty_worker_index status); mret (Some status).

(** The bookkeeping of a checkpoint that was taken. *)
Definition record_ckpt (ev_i : Z) (ev : json) (exec : option json * bool) (index : option json) (info : ckpt_info) : D unit :=
  _ ← match ci_future info with
      | Some f =>
          _ ← set_locals (add_dump (ci_id info, f));
          mwhen (sync_dump cfg) (on_host (dump_result f))
      | None => mret tt
      end;
  _ ← mwhen (ci_validation info) (set_locals (add_validation (ci_id info)));
  _ ← set_locals (set_last (ci_id info));
  sched ← lift_result (pget ev "ckpt_id");
  _ ← mwhen (truth sched) (k ← lift_result (hash_key sched); set_locals (set_runtime k (ci_id info)));
  index ← match index with
          | Some status =>
              snap ← _snapshot_sidecar_index (ci_id info);
              let status := default status snap in
              _ ← set_locals (set_index (ci_id info) status); mret (Some status)
          | None => mret None
          end;
  d ← locals;
  _ ← set_locals (add_row (RowCkpt ev_i (step_idx d) sched (ci_id info) (ci_strategy info) exec.1 exec.2 index));
  set_locals next_step.

Definition ckpt_event (ev_i : Z) (ev : json) : D unit :=
  lat ← lift_result (v ← pget_or ev "latency_ms" (JFloat fzero); to_float v);
  _ ← lift_result (v ← pget_or ev "dirty_mb" (JInt 0); to_int v);
  _ ← mwhen (SFltb fzero lat) (on_host (sleep (fdiv lat (fround 1000 0))));
  _ ← check_probe "ckpt";
  ops ← lift_result (pget ev "worker_ops");
  exec ← run_worker_ops ev ops;
  _ ← on_host footprints;
  _ ← check_active_worker true;
  index ← index_status;
  strategy ← lift_result (pget_or ev "strategy" (JStr "standard"));
  let tag := por strategy (JStr "standard") in
  skip ← (if memcurve_skip cfg && is_string tag "standard" then lift_result (_memcurve_ops_read_only ops) else mret false);
  let tag := if (skip : bool) then JStr "lightweight" else tag in
  d ← locals;
  info ← on_host (checkpoint_action (last_ckpt_id d) tag (if is_string tag "lightweight" then ops else JNull));
  record_ckpt ev_i ev exec index info.

(** What the index must still say after a restore. *)
Definition INDEX_KEYS : list string := ["fingerprint"; "n_files"; "n_classes"; "n_functions"; "total_bytes"; "sample_query"].
Definition same_fields (a b : json) : result bool :=
  l ← mapM (fun k => x ← pget a k; y ← pget b k; Ok (json_eqb x y)) INDEX_KEYS; Ok (forallb id l).

(** A lightweight checkpoint is its image and the operations after it. *)
Definition replay_restored (cmds : json) : D (option replayed) :=
  if worker_exec_required cfg && truth cmds then
    _ ← on_host reset; rp ← replay_lightweight_worker_ops cmds;
    bad ← (if rp_ok rp then mret false
           else match rp_first_bad rp with
                | Some res => t ← lift_result (worker_exec_is_test_timeout res); mret (negb t)
                | None => mret true
                end);
    if (bad : bool) then mraise RuntimeError "lightweight replay worker_exec failed" else mret (Some rp)
  else mret None.
(** The index is the one the checkpoint was taken with. *)
Definition check_restored_index (target : string) : D (option json) :=
  if worker_exec_required cfg then
    _ ← mwhen (negb (keep_channel cfg)) (on_host reset);
    index ← index_status;
    d ← locals;
    match index, dget target (runtime_index_status d) with
    | Some now, Some expected =>
        if negb (truth expected) then mraise RuntimeError "missing expected worker index status" else
        same ← lift_result (same_fields now expected);
        if (same : bool) then mret (Some now) else mraise RuntimeError "worker code index mismatch after restore"
    | _, _ => mraise RuntimeError "missing expected worker index status"
    end
  else mret None.

Definition restore_event (fuel : nat) (ev_i : Z) (ev : json) : D unit :=
  a ← lift_result (pget ev "restore_to_ckpt_id"); b ← lift_result (if truth a then Ok JNull else pget ev "target_ckpt_id");
  let sched := por a b in
  k ← lift_result (hash_key sched); d ← locals;
  match dget k (schedule_to_runtime d) with
  | None => mraise KeyError "restore target not yet checkpointed"
  | Some target =>
      r ← restore_with_ready fuel target;
      _ ← set_locals (set_last target);
      _ ← (if worker_exec_required cfg then _restore_sidecar_index_snapshot target else mret None);
      let cmds := por (r_replay_cmds r) (JArr []) in
      rp ← replay_restored cmds;
      _ ← (if agent_probe cfg && real_agent cfg then on_host reset else mret tt);
      _ ← check_probe ("restore-" +:+ pretty ev_i);
      _ ← on_host footprints;
      _ ← check_active_worker (keep_channel cfg);
      index ← check_restored_index target;
      _ ← on_host footprints;
      set_locals (add_row (RowRestore ev_i sched target (default "criu" (r_path r)) (JArr ∘ rp_rows <$> rp) index))
  end.

Definition catchable (e : exn) : bool := negb (mem (exn_cls e) [SystemExit; OutOfModel; OutOfFuel]).
(** [except Exception as e: handler] *)
Definition except (m : D unit) (h : exn → D unit) : D unit := mcatch m (fun e => if catchable e then h e else mthrow e).

(** The checkpoint an event brings back, [None] if it names none. *)
Definition future_target (ev : json) : result (option key) :=
  a ← pget ev "restore_to_ckpt_id"; b ← (if truth a then Ok JNull else pget ev "target_ckpt_id");
  let t := por a b in if truth t then k ← hash_key t; Ok (Some k) else Ok None.
Definition _memcurve_reachability_gc (rest : list json) : D unit :=
  future ← lift_result (mapM future_target rest);
  d ← locals;
  let keep := omap (fun k => dget k (schedule_to_runtime d)) (omap id future) in
  keep ← match last_ckpt_id d with
         | Some c => r ← on_host (registered c); mret (if (r : bool) then keep ++ [c] else keep)
         | None => mret keep
         end;
  on_host (gc_obsolete_snapshots (remove_dups keep)).

Definition event (fuel : nat) (ev_i : Z) (ev : json) (rest : list json) : D unit :=
  t ← lift_result (pget ev "type"); k ← lift_result (if truth t then Ok JNull else pget ev "kind");
  let kind := por t k in
  _ ← except
        (if is_string kind "ckpt" then ckpt_event ev_i ev
         else if is_string kind "restore" then restore_event fuel ev_i ev
         else set_locals (add_row (RowUnknown ev_i ev)))
        (fun e => _ ← set_locals (add_row (RowFailed ev_i kind e)); set_locals fail);
  mwhen (memcurve cfg)
    (_ ← except (_ ← on_host memcurve_sample; set_locals (add_row (RowMemcurve ev_i None)))
           (fun e => set_locals (add_row (RowMemcurve ev_i (Some e))));
     mwhen (memcurve_gc cfg && (is_string kind "ckpt" || is_string kind "restore"))
       (except (_memcurve_reachability_gc rest)
          (fun e => _ ← set_locals (add_row (RowGcFailed e)); set_locals fail))).

(** The loop over the schedule; an error ends it. *)
Fixpoint events (fuel : nat) (ev_i : Z) (schedule : list json) : D unit :=
  match schedule with
  | [] => mret tt
  | ev :: rest =>
      _ ← event fuel ev_i ev rest;
      d ← locals;
      if had_error d then mret tt else events fuel (ev_i + 1) rest
  end.

(** ** Before and after the loop *)

Definition initialize : D unit :=
  _ ← mwhen (worker_exec_required cfg)
        (status ← on_host (control index_build_request); lift_result (require_nonempty_worker_index status));
  mwhen (active_worker_required cfg)
    (status ← on_host (control (active_load_request cfg));
     if negb (flag status "ok") then mraise RuntimeError "active worker load failed"
     else if negb (flag status "loaded") then mraise RuntimeError "active worker did not report loaded state" else mret tt).

Fixpoint settle_dumps (l : list (string * Z)) : D unit :=
  match l with
  | [] => mret tt
  | (id, f) :: l =>
      _ ← except (_ ← on_host (dump_result f); set_locals (add_row (RowDump id None)))
            (fun e => _ ← set_locals (add_row (RowDump id (Some e))); set_locals fail);
      settle_dumps l
  end.
Definition finish : D unit :=
  d ← locals;
  _ ← on_host (if had_error d then abort_dumps else shutdown_dumps);
  _ ← settle_dumps (pending_dumps d);
  d ← locals;
  if had_error d then mraise SystemExit "1" else mret tt.

Definition check_modes : result unit :=
  if require_real cfg && negb (real_agent cfg) then raise SystemExit "report/final replay requires --agent-mode=real" else
  if active_worker_required cfg && negb (real_agent cfg) then raise SystemExit "active worker replay requires --agent-mode=real" else
  if worker_exec_required cfg && negb (real_agent cfg) then raise SystemExit "worker-exec replay requires --agent-mode=real" else
  Ok tt.

Definition _run_replay (fuel : nat) (schedule : list json) : D unit :=
  _ ← lift_result check_modes; _ ← initialize; _ ← events fuel 0 schedule; finish.
End run.
End Driver.
