(* ===== verification/DriverSpec.v ===== *)
(** * The driver replays the schedule

    [ScheduleSpec.replay] says what a schedule asks for; here the loop of the
    driver is proved to do it, on any guest that keeps its promises
    ([GuestLaws]): lightweight checkpoints included, which are images of an
    ancestor and operations to run again, and with the collection of checkpoints
    the rest of the schedule does not need. *)

From S2P Require Import Prelude Hoare PyStr PyDict Json Schedule ScheduleSpec ConvertSpec MakeSchedule Driver.

Module DriverSpec.
Import ScheduleSpec MakeSchedule Driver.

(** ** What the driver relies on *)

Definition op_is_test (op : json) : bool := match pget op "type" with Ok t => is_string t "run_tests" | Err _ => false end.
Definition has_tests (ops : list json) : bool := existsb op_is_test ops.
(** The operations of one command of a lightweight checkpoint. *)
Definition item_ops (item : json) : list json :=
  match pget item "worker_ops" with Ok v => match por v (JArr []) with JArr l => l | _ => [] end | Err _ => [] end.

(** The request that loads the worker, whose other fields come from the environment. *)
Definition is_load (req : json) : Prop := field req "ctrl" = Some (JStr "active_worker_load").
(** [time.sleep] refuses a negative time, and one beyond its clock. *)
Definition sleepable (f : spec_float) : bool := SFltb fzero f && SFltb f (fround (2 ^ 33) 0).

(** [look]: the state of the agent's process and files; [image]: what a restore
    of a checkpoint brings back, and the commands it returns; [index_of]: the
    status of the code index, which is part of the agent.  Operations are done,
    or a test among them ran out of time. *)
Class GuestLaws (X : Type) `{Guest X} (S : Type) (exec : list json → S → S) := {
  look : X → S;
  image : X → string → option (S * list json);
  now : X → Z;
  the_epoch : X → Z;
  index_of : S → json;
  still (x y : X) : Prop := ∀ id, image y id = image x id;
  quiet (x y : X) : Prop := look y = look x ∧ still x y ∧ the_epoch y = the_epoch x;
  ran (ops : list json) (x : X) (r : json) (y : X) : Prop :=
    look y = exec ops (look x) ∧ still x y ∧ is_dict r = true ∧
    (flag r "ok" = true ∨ has_tests ops = true ∧ flag r "ok" = false ∧ worker_exec_is_test_timeout r = Ok true);
  law_no_ops s : exec [] s = s;
  law_index s : require_nonempty_worker_index (index_of s) = Ok tt ∧ truth (index_of s) = true ∧
                same_fields (index_of s) (index_of s) = Ok true;
  law_sleep f x : sleepable f = true → wp (sleep f) (fun _ y => quiet x y) (fun _ _ => False) x;
  law_monotonic x : wp monotonic (fun t y => quiet x y ∧ t = now x ∧ (now y < now x + 1000000)%Z) (fun _ _ => False) x;
  law_footprints x : wp footprints (fun _ y => quiet x y) (fun _ _ => False) x;
  law_sample x : wp memcurve_sample (fun _ y => quiet x y) (fun e y => catchable e = true ∧ quiet x y) x;
  law_probe n phase x :
    wp (probe n phase) (fun r y => quiet x y ∧ is_dict r = true ∧ flag r "ok" = true ∧ flag r "mismatch" = false) (fun _ _ => False) x;
  law_reset x : wp reset (fun _ y => quiet x y) (fun _ _ => False) x;
  law_epoch x : wp epoch (fun e y => quiet x y ∧ e = the_epoch x) (fun _ _ => False) x;
  law_exec ops step ckpt x : wp (control (exec_request (JArr ops) step ckpt)) (ran ops x) (fun _ _ => False) x;
  law_replay ops i action x : wp (control (replay_request (JArr ops) i action)) (ran ops x) (fun _ _ => False) x;
  law_status x : wp (control_fresh index_status_request) (fun r y => quiet x y ∧ r = index_of (look x)) (fun _ _ => False) x;
  law_active x : wp (control_fresh active_status_request) (fun r y => quiet x y ∧ loaded r = true) (fun _ _ => False) x;
  law_ready x : wp (control_fresh ready_request)
    (fun r y => quiet x y ∧ flag r "ok" = true ∧ pget r "epoch" = Ok (JInt (the_epoch x)) ∧
                ∃ err, pget r "err" = Ok err ∧ is_string err "BrokenPipeError" = false) (fun _ _ => False) x;
  law_full last tag ops x : is_string tag "lightweight" = false →
    wp (checkpoint_action last tag ops)
       (fun info y => look y = look x ∧ image x (ci_id info) = None ∧ image y (ci_id info) = Some (look x, []) ∧
                      ∀ id, id ≠ ci_id info → image y id = image x id) (fun _ _ => False) x;
  law_light p s cmds ops x : image x p = Some (s, cmds) →
    wp (checkpoint_action (Some p) (JStr "lightweight") (JArr ops))
       (fun info y => look y = look x ∧ image x (ci_id info) = None ∧
                      (∃ item, is_dict item = true ∧ item_ops item = ops ∧ image y (ci_id info) = Some (s, cmds ++ [item])) ∧
                      ∀ id, id ≠ ci_id info → image y id = image x id) (fun _ _ => False) x;
  law_dump f x : wp (dump_result f) (fun _ y => quiet x y) (fun _ _ => False) x;
  law_restore id s cmds x : image x id = Some (s, cmds) →
    wp (restore_action id) (fun r y => look y = s ∧ still x y ∧ por (r_replay_cmds r) (JArr []) = JArr cmds) (fun _ _ => False) x;
  law_namespace x : wp ns_init_pid (fun _ y => quiet x y) (fun _ _ => False) x;
  law_own p x : wp (own_namespace p) (fun _ y => quiet x y) (fun _ _ => False) x;
  law_build x : wp (control index_build_request) (fun r y => quiet x y ∧ require_nonempty_worker_index r = Ok tt) (fun _ _ => False) x;
  law_load req x : is_load req → wp (control req) (fun r y => quiet x y ∧ loaded r = true) (fun _ _ => False) x;
  law_shutdown x : wp shutdown_dumps (fun _ y => quiet x y) (fun _ _ => False) x;
  law_registered id x : wp (registered id) (fun b y => quiet x y ∧ (b = false → image x id = None)) (fun _ _ => False) x;
  law_gc keep x : wp (gc_obsolete_snapshots keep)
    (fun _ y => look y = look x ∧ ∀ id, id ∈ keep → image y id = image x id) (fun _ _ => False) x
}.

(** Runs a call of the guest by its law. *)
Ltac host L := apply wp_host; eapply wp_mono; [apply L| |done]; cbn [fst snd].

Section driver.
Context {X S : Type} {exec : list json → S → S} `{GuestLaws X S exec} (cfg : config).
Hypothesis Hreal : real_agent cfg = true.
Hypothesis Hexec : worker_exec_required cfg = true.
Hypothesis Hside : sidecar cfg = false.
Notation D := (M (driver * X)).

#[local] Instance still_refl : Reflexive (still (X:=X)).
Proof. by intros x id. Qed.
#[local] Instance still_trans : Transitive (still (X:=X)).
Proof. intros x y z H1 H2 id. by rewrite H2, H1. Qed.
#[local] Instance quiet_refl : Reflexive (quiet (X:=X)).
Proof. by intros x. Qed.
#[local] Instance quiet_trans : Transitive (quiet (X:=X)).
Proof. intros x y z (H1 & H2 & H3) (H4 & H5 & H6). split_and!; [congruence|by etrans|congruence]. Qed.

Definition no_exn {A} (m : D A) (Q : A → driver * X → Prop) s := wp m Q (fun _ _ => False) s.

(** The state a command list gives on the state of an image. *)
Definition run_cmds (cmds : list json) (s : S) : S := foldl (fun s item => exec (item_ops item) s) s cmds.
Definition item_ok (item : json) : Prop := is_dict item = true ∧ has_tests (item_ops item) = false.
(** The checkpoint can be brought back, to the state [st]. *)
Definition good (x : X) (id : string) (st : S) : Prop :=
  ∃ s cmds, image x id = Some (s, cmds) ∧ run_cmds cmds s = st ∧ Forall item_ok cmds.

Lemma flag_get j k : is_dict j = true → ∃ v, pget j k = Ok v ∧ flag j k = truth v.
Proof. unfold flag. destruct j; try done. intros _. simpl. eauto. Qed.

Lemma replay_cmds_ok cmds d : ∀ i out x, Forall item_ok cmds →
  no_exn (replay_cmds i cmds out) (fun rp s' => s'.1 = d ∧ look s'.2 = run_cmds cmds (look x) ∧ still x s'.2 ∧ rp_ok rp = rp_ok out) (d, x).
Proof.
  unfold no_exn. induction cmds as [|item cmds IH]; intros i out x Hc; cbn [replay_cmds]; [by apply wp_ret|].
  apply Forall_cons in Hc as [[Hi Ht] Hc]. destruct item as [| | | | | |fs]; try done.
  change (run_cmds (JObj fs :: cmds) (look x)) with (run_cmds cmds (exec (item_ops (JObj fs)) (look x))).
  unfold item_ops in *. destruct (pget (JObj fs) "worker_ops") as [v|] eqn:Ev; [|done].
  apply wp_bind, wp_lift. set (ops := match por v (JArr []) with JArr l => l | _ => [] end) in *.
  destruct ops as [|op ops'] eqn:Eo.
  { eapply wp_mono; [by apply IH| |done]. intros rp s' (? & Hl & ? & ?). split_and!; [done| |done|done]. by rewrite law_no_ops. }
  rewrite <- Eo in *. destruct (flag_get (JObj fs) "action" eq_refl) as (a & -> & _). apply wp_bind, wp_lift, wp_bind.
  host law_replay. intros r y (Hl & Hs & Hd & Hr). destruct (flag_get r "ok" Hd) as (okv & Hok & Hf). rewrite Hok. apply wp_bind, wp_lift.
  destruct Hr as [Hr|(Hr & _)]; [|congruence]. rewrite <- Hf, Hr.
  eapply wp_mono; [by apply IH| |done]. cbn [fst snd]. intros rp s' (? & Hl' & Hs' & ?).
  split_and!; [done|by rewrite Hl', Hl|by etrans|done].
Qed.

(** ** The invariant *)

Definition targets (rest : list json) : list key :=
  omap (fun e => if event_is e "restore" then key_field e "restore_to_ckpt_id" else None) rest.
(** The saved checkpoint is kept: all of them, or those still needed. *)
Definition needed (c : key) (rest : list json) : Prop := memcurve cfg && memcurve_gc cfg = true → c ∈ targets rest.

(** An id that counts as one. *)
Definition truthy (c : key) : Prop := ∀ j, hash_key j = Ok c → truth j = true.
Record sim (rest : list json) (w : world S) (d : driver) (x : X) : Prop := {
  sim_live : look x = live w;
  sim_error : had_error d = false;
  sim_last : match last_ckpt_id d with Some id => good x id (live w) | None => saved w = [] end;
  sim_saved : ∀ c st, dget c (saved w) = Some st → needed c rest →
    ∃ id, dget c (schedule_to_runtime d) = Some id ∧ good x id st ∧ dget id (runtime_index_status d) = Some (index_of st);
  sim_truthy : ∀ c, c ∈ dkeys (saved w) → truthy c
}.

Lemma good_still x y id st : still x y → good x id st → good y id st.
Proof. intros Hs (s & cmds & Hi & ?). exists s, cmds. by rewrite Hs. Qed.
Lemma sim_quiet rest w d x y : quiet x y → sim rest w d x → sim rest w d y.
Proof.
  intros (Hl & Hs & _) [S1 S2 S3 S4 S5]. split; [congruence|done| | |done].
  - destruct (last_ckpt_id d); [by eapply good_still|done].
  - intros c st Hc Hn. destruct (S4 c st Hc Hn) as (id & ? & ? & ?). exists id. split_and!; [done|by eapply good_still|done].
Qed.
(** Rows, pending dumps, validations and the step number do not matter. *)
Definition same_vars (d d' : driver) : Prop :=
  had_error d' = had_error d ∧ last_ckpt_id d' = last_ckpt_id d ∧ schedule_to_runtime d' = schedule_to_runtime d ∧
  runtime_index_status d' = runtime_index_status d.
Lemma sim_vars rest w d d' x : same_vars d d' → sim rest w d x → sim rest w d' x.
Proof. intros (E1 & E2 & E3 & E4) [S1 S2 S3 S4 S5]. by split; rewrite ?E1, ?E2, ?E3, ?E4. Qed.
Lemma sim_rest e rest w d x : sim (e :: rest) w d x → sim rest w d x.
Proof.
  intros [S1 S2 S3 S4 S5]. split; [done..| |done]. intros c st Hc Hn. apply S4; [done|]. intros Hg. specialize (Hn Hg).
  unfold targets in *. cbn [omap list_omap]. destruct (if event_is e "restore" then _ else _); [by right|done].
Qed.

(** ** One event *)

(** What the driver asks of a checkpoint event, beyond what the validation of
    schedules checks. *)
Definition drivable (e : json) : Prop :=
  is_Ok (future_target e) = true ∧ (event_is e "ckpt" = true →
  (∃ v z, pget_or e "dirty_mb" (JInt 0) = Ok v ∧ to_int v = Ok z) ∧
  (∀ v f, pget_or e "latency_ms" (JFloat fzero) = Ok v → to_float v = Ok f → SFltb fzero f = true →
     sleepable (fdiv f (fround 1000 0)) = true) ∧
  (∀ ops, event_ops e = Some ops → (∀ v, pget_or e "worker_ops_required" (JBool true) = Ok v → truth v = true → ops ≠ []) ∧
     (has_tests ops = true → field e "strategy" ≠ Some (JStr "lightweight")) ∧
     (memcurve_skip cfg = true → is_Ok (_memcurve_ops_read_only (JArr ops)) = true))).

Lemma check_probe_ok phase d x : no_exn (check_probe cfg phase) (fun _ s' => s'.1 = d ∧ quiet x s'.2) (d, x).
Proof.
  unfold no_exn, check_probe. case_match; [by apply wp_ret|]. apply wp_locals. cbn [fst]. apply wp_bind.
  host law_probe. intros r y (Hq & Hd & Hok & Hmis).
  destruct (flag_get r "ok" Hd) as (o & -> & Ho). destruct (flag_get r "mismatch" Hd) as (m & -> & Hm).
  apply wp_bind, wp_lift. rewrite <- Ho, Hok. apply wp_bind, wp_lift. rewrite <- Hm, Hmis. by apply wp_ret.
Qed.
Lemma check_active_ok kept d x : no_exn (check_active_worker cfg kept) (fun _ s' => s'.1 = d ∧ quiet x s'.2) (d, x).
Proof.
  unfold no_exn, check_active_worker. case_match; [by apply wp_ret|]. apply wp_bind, wp_when.
  assert (∀ y, quiet x y → wp (status ← on_host (control_fresh active_status_request);
    if loaded status then mret tt else mraise RuntimeError "active worker status invalid")
    (fun _ s' => s'.1 = d ∧ quiet x s'.2) (fun _ _ => False) (d, y)) as Hnext.
  { intros y Hy. apply wp_bind. host law_active. intros r z [Hz ->]. apply wp_ret. split; [done|by etrans]. }
  case_match; [host law_reset; intros [] y Hy|]; by apply Hnext.
Qed.
Lemma index_status_ok d x : no_exn (index_status cfg) (fun r s' => s'.1 = d ∧ quiet x s'.2 ∧ r = Some (index_of (look x))) (d, x).
Proof.
  unfold no_exn, index_status. rewrite Hexec. cbn [negb]. apply wp_bind. host law_status. intros r y [Hy ->].
  apply wp_bind, wp_lift. destruct (law_index (look x)) as (-> & _). by apply wp_ret.
Qed.

Lemma run_worker_ops_ok ev ops d x : event_is ev "ckpt" = true → is_dict ev = true → drivable ev →
  field ev "worker_ops" = Some (JArr ops) →
  no_exn (run_worker_ops cfg ev (JArr ops))
    (fun _ s' => s'.1 = d ∧ look s'.2 = exec ops (look x) ∧ still x s'.2) (d, x).
Proof.
  intros Hck Hd Hdr Hops. unfold no_exn, run_worker_ops. rewrite Hexec. destruct ev as [| | | | | |fs]; try done.
  destruct (proj2 Hdr Hck) as (_ & _ & Hreq). destruct (Hreq ops) as [Hne _]; [unfold event_ops; by rewrite Hops|].
  unfold pget_or at 1. apply wp_bind, wp_lift. specialize (Hne _ eq_refl). set (v := match dget _ fs with Some v => v | None => _ end) in *.
  destruct (truth v && bool_decide (ops = [])) eqn:Eb; [bool_hyps; exfalso; by apply Hne|].
  destruct (flag_get (JObj fs) "ckpt_id" eq_refl) as (c & -> & _). apply wp_bind, wp_lift, wp_locals. cbn [fst].
  apply wp_bind. host law_exec. intros r y (Hl & Hs & Hdict & Hr).
  assert (∃ t, worker_exec_is_test_timeout r = Ok t ∧ (flag r "ok" = true ∨ t = true)) as (t & -> & Ht).
  { destruct Hr as [Hr|(_ & Hf & Hr)]; [|eauto]. exists false. split; [|by left]. unfold worker_exec_is_test_timeout. by rewrite Hdict, Hr. }
  apply wp_bind, wp_lift. destruct (flag_get r "ok" Hdict) as (o & -> & Ho). apply wp_bind, wp_lift. rewrite <- Ho.
  destruct Ht as [-> | ->]; [|rewrite andb_false_r]; by apply wp_ret.
Qed.

(** The checkpoint itself: a new image of the live state. *)
Lemma checkpoint_good tag ops last x live0 :
  (is_string tag "lightweight" = true → has_tests ops = false ∧ tag = JStr "lightweight" ∧
     ∃ p, last = Some p ∧ good x p live0 ∧ look x = exec ops live0) →
  wp (checkpoint_action last tag (if is_string tag "lightweight" then JArr ops else JNull))
     (fun info y => look y = look x ∧ image x (ci_id info) = None ∧ good y (ci_id info) (look x) ∧
                    ∀ id, id ≠ ci_id info → image y id = image x id) (fun _ _ => False) x.
Proof.
  intros Hlw. destruct (is_string tag "lightweight") eqn:Et.
  - destruct Hlw as (Ht & -> & p & -> & (s & cmds & Hi & Hr & Hc) & Hl); [done|].
    eapply wp_mono; [by apply law_light| |done]. intros info y (? & ? & (item & Hd & Hio & Hiy) & ?). split_and!; [done..| |done].
    exists s, (cmds ++ [item]). split_and!; [done| |].
    + unfold run_cmds in *. rewrite foldl_app. simpl. by rewrite Hr, Hio.
    + apply Forall_app. split; [done|]. apply Forall_singleton. split; [done|]. by rewrite Hio.
  - eapply wp_mono; [by apply law_full| |done]. intros info y (? & ? & Hiy & ?). split_and!; [done..| |done].
    exists (look x), []. split_and!; [done|done|constructor].
Qed.

(** The strategy of a checkpoint, with read-only steps skipped when asked. *)
Definition skips (s : string) (ops : list json) : bool :=
  memcurve_skip cfg && bool_decide (s = "standard") && match _memcurve_ops_read_only (JArr ops) with Ok b => b | Err _ => false end.
Definition made_light (s : string) (ops : list json) : bool := bool_decide (s = "lightweight") || skips s ops.

Lemma all_read_only_no_tests ops : all_read_only ops = Ok true → has_tests ops = false.
Proof.
  induction ops as [|op ops IH]; [done|]. simpl. unfold op_is_test.
  destruct (pget (por op (JObj [])) "type") as [t|] eqn:Et; [|done]. cbn [mbind result_bind].
  assert (match pget op "type" with Ok t => is_string t "run_tests" | Err _ => false end = is_string t "run_tests" ∨
          match pget op "type" with Ok t => is_string t "run_tests" | Err _ => false end = false) as Hop.
  { unfold por in Et. destruct (truth op) eqn:Hto; [left; by rewrite Et|right].
    destruct op as [| | | | | |[|]]; try done. }
  intros Hr. destruct (por t (JStr "")) as [| | | |s| |] eqn:Ep; try discriminate.
  destruct (mem s _MEMCURVE_READONLY_OPS) eqn:Em; [|discriminate]. rewrite (IH Hr), orb_false_r.
  destruct Hop as [->| ->]; [|done]. unfold por in Ep. destruct (truth t) eqn:Htt; [|by destruct t as [| | | |[]| |]]. subst t.
  simpl. apply bool_decide_eq_false. intros ->. by vm_compute in Em.
Qed.
Lemma read_only_no_tests ops : _memcurve_ops_read_only (JArr ops) = Ok true → has_tests ops = false.
Proof. intros Hr. apply all_read_only_no_tests. unfold _memcurve_ops_read_only in Hr. by destruct ops. Qed.

Lemma wp_tag s ops (k : bool → D unit) Q E st :
  is_Ok (_memcurve_ops_read_only (JArr ops)) = true ∨ memcurve_skip cfg = false →
  wp (k (skips s ops)) Q E st →
  wp (skip ← (if memcurve_skip cfg && is_string (JStr s) "standard" then lift_result (_memcurve_ops_read_only (JArr ops)) else mret false);
      k skip) Q E st.
Proof.
  unfold skips. change (is_string (JStr s) "standard") with (bool_decide (s = "standard")). intros Hok Hk. apply wp_bind.
  destruct (memcurve_skip cfg); [|by apply wp_ret]. destruct (bool_decide (s = "standard")); [|by apply wp_ret].
  destruct Hok as [Hok|]; [|done]. apply wp_lift. by destruct (_memcurve_ops_read_only (JArr ops)).
Qed.

(** A checkpoint without a predecessor must be a full one. *)
Definition full_first (e : json) : Prop :=
  ∀ s ops, field e "strategy" = Some (JStr s) → event_ops e = Some ops → made_light s ops = false.

Lemma truth_key j k : truth j = true → hash_key j = Ok k → truthy k.
Proof. intros Ht Hk j' Hk'. apply hash_key_ok in Hk. apply hash_key_ok in Hk'. by subst. Qed.

(** The driver after a checkpoint [id] of the schedule's [c]. *)
Lemma sim_new rest w d x y c id ops :
  sim rest w d x → c ∉ dkeys (saved w) → truthy c → image y id = None → (∀ i, image y i = image x i) →
  ∀ z, look z = exec ops (live w) → good z id (exec ops (live w)) → (∀ i, i ≠ id → image z i = image y i) →
  ∀ d', had_error d' = false → last_ckpt_id d' = Some id → schedule_to_runtime d' = dset c id (schedule_to_runtime d) →
    runtime_index_status d' = dset id (index_of (exec ops (live w))) (runtime_index_status d) →
  sim rest (World (exec ops (live w)) (dset c (exec ops (live w)) (saved w))) d' z.
Proof.
  intros [S1 S2 S3 S4 S5] Hc Ht Hn Hy z Hz Hg Hzi d' D1 D2 D3 D4. split; cbn [live saved]; [done|done|by rewrite D2| |].
  - intros c' st Hst Hne. rewrite D3, D4. destruct (decide (c' = c)) as [->|Hcc].
    + rewrite dget_dset_eq in Hst. injection Hst as <-. exists id. rewrite !dget_dset_eq. done.
    + rewrite dget_dset_ne in Hst by done. destruct (S4 c' st Hst Hne) as (i & Hi & (s & cmds & Him & Hr & Hok) & Hix).
    assert (i ≠ id) as Hii by (intros ->; rewrite Hy, Him in Hn; done).
    exists i. rewrite !dget_dset_ne by done. split_and!; [done| |done]. exists s, cmds. rewrite Hzi, Hy by done. done.
  - intros c'. rewrite dkeys_dset, decide_False by done. intros [?| ->%list_elem_of_singleton]%elem_of_app; [by apply S5|done].
Qed.

Lemma record_ckpt_ok i fs ex index info c d z (Q : unit → driver * X → Prop) :
  key_field (JObj fs) "ckpt_id" = Some c → truth (get (JObj fs) "ckpt_id") = true →
  (∀ d' y, quiet z y → had_error d' = had_error d → last_ckpt_id d' = Some (ci_id info) →
     schedule_to_runtime d' = dset c (ci_id info) (schedule_to_runtime d) →
     runtime_index_status d' = dset (ci_id info) index (runtime_index_status d) → Q tt (d', y)) →
  no_exn (record_ckpt cfg i (JObj fs) ex (Some index) info) Q (d, z).
Proof.
  intros Hc Ht HQ. apply key_field_get in Hc. unfold no_exn, record_ckpt. apply wp_bind.
  eapply (wp_mono _ (fun _ s' => same_vars d s'.1 ∧ quiet z s'.2) _ (fun _ _ => False)); [|intros [] [d1 y1] [Hd1 Hy1]|done].
  { destruct (ci_future info); [|by split]. apply wp_bind, wp_set_locals, wp_when.
    destruct (sync_dump cfg); [|by split]. host law_dump. by intros []. }
  apply wp_bind, wp_when.
  assert (∀ d2, same_vars d d2 → wp (_ ← set_locals (set_last (ci_id info)); sched ← lift_result (pget (JObj fs) "ckpt_id");
    _ ← mwhen (truth sched) (k ← lift_result (hash_key sched); set_locals (set_runtime k (ci_id info)));
    index ← (snap ← _snapshot_sidecar_index cfg (ci_id info);
             _ ← set_locals (set_index (ci_id info) (default index snap)); mret (Some (default index snap)));
    d ← locals;
    _ ← set_locals (add_row (RowCkpt i (step_idx d) sched (ci_id info) (ci_strategy info) ex.1 ex.2 index));
    set_locals next_step) Q (fun _ _ => False) (d2, y1)) as Hrest.
  { intros d2 (E1 & E2 & E3 & E4). apply wp_bind, wp_set_locals. rewrite pget_field. apply wp_bind, wp_lift, wp_bind, wp_when.
    rewrite Ht. apply wp_bind, wp_lift. rewrite Hc. apply wp_set_locals. unfold _snapshot_sidecar_index. rewrite Hside. cbn [negb orb].
    apply wp_bind, wp_bind, wp_ret. cbn [default from_option id]. apply wp_bind, wp_set_locals, wp_ret, wp_locals, wp_bind, wp_set_locals, wp_set_locals.
    by apply HQ; rewrite <- ?E1, <- ?E3, <- ?E4. }
  destruct (ci_validation info); [apply wp_set_locals|]; by apply Hrest.
Qed.

Lemma strategy_field fs st adaptive : get (JObj fs) "strategy" = JStr st → st ∈ allowed_strategies adaptive →
  field (JObj fs) "strategy" = Some (JStr st) ∧ pget_or (JObj fs) "strategy" (JStr "standard") = Ok (JStr st) ∧
  por (JStr st) (JStr "standard") = JStr st.
Proof.
  unfold get, field, pget_or. destruct (dget "strategy" fs); [|done]. intros -> Hin. split_and!; [done..|].
  destruct adaptive; cbv [allowed_strategies] in Hin; rewrite ?elem_of_cons, elem_of_nil in Hin; naive_solver.
Qed.

Lemma light_tag s ops : let tag := if skips s ops then JStr "lightweight" else JStr s in
  is_string tag "lightweight" = true → (has_tests ops = true → s = "lightweight" → False) →
  has_tests ops = false ∧ tag = JStr "lightweight".
Proof.
  intros tag Hl Ht. unfold tag in *. destruct (skips s ops) eqn:E.
  - split; [|done]. unfold skips in E. apply read_only_no_tests.
    destruct (_memcurve_ops_read_only (JArr ops)) as [[]|]; [done|..]; by rewrite andb_false_r in E.
  - simpl in Hl. apply bool_decide_eq_true in Hl as ->. destruct (has_tests ops); [by exfalso; apply Ht|done].
Qed.

(** A checkpoint event. *)
Lemma ckpt_event_ok adaptive i fs rest w w' d x :
  let e := JObj fs in
  event_ok adaptive e → event_is e "ckpt" = true → drivable e → replay_event exec e w = Some w' →
  (∀ c, key_field e "ckpt_id" = Some c → c ∉ dkeys (saved w)) → (last_ckpt_id d = None → full_first e) →
  sim rest w d x →
  no_exn (Driver.ckpt_event cfg i e) (fun _ s' => sim rest w' s'.1 s'.2 ∧ last_ckpt_id s'.1 ≠ None) (d, x).
Proof.
  intros e Hok Hck Hdr Hrun Hfresh Hfull Hsim. subst e. set (e := JObj fs) in *.
  unfold replay_event in Hrun. rewrite Hck in Hrun.
  destruct (key_field e "ckpt_id") as [c|] eqn:Hc; [|done]. destruct (event_ops e) as [ops|] eqn:Hops; [|done].
  injection Hrun as <-. destruct (proj2 Hdr Hck) as ((vd & zd & Hvd & Hzd) & Hlat & Hreq). destruct (Hreq ops Hops) as (Hne & Htests & Hskip).
  destruct Hok as (_ & [Hr|(_ & Htc & (st & Hst & Hin) & Hl & _)]); [by pose proof (not_both fs Hr : event_is e "ckpt" = false); congruence|].
  assert (∃ v f, pget_or e "latency_ms" (JFloat fzero) = Ok v ∧ to_float v = Ok f) as (vl & fl & Hvl & Hfl).
  { unfold get, field, e, pget_or in *. destruct (dget "latency_ms" fs) as [v|]; [|done]. exists v.
    destruct v; simpl in *; try done; [|eauto]. destruct Hl as [_ Hl]. destruct (int_to_float z); [eauto|done]. }
  assert (field e "worker_ops" = Some (JArr ops)) as Hf.
  { unfold event_ops in Hops. destruct (field e "worker_ops") as [[| | | | | |]|]; try done. by injection Hops as ->. }
  unfold no_exn, Driver.ckpt_event. rewrite Hvl. cbn [mbind result_bind]. rewrite Hfl. apply wp_bind, wp_lift.
  rewrite Hvd. cbn [mbind result_bind]. rewrite Hzd. apply wp_bind, wp_lift, wp_bind.
  eapply (wp_mono _ (fun _ s' => s'.1 = d ∧ quiet x s'.2) _ (fun _ _ => False)); [|intros [] [d' x1] [Ed Hq1]; cbn in Ed, Hq1; subst d'|done].
  { apply wp_when. destruct (SFltb fzero fl) eqn:El; [|by split]. host law_sleep; [by eapply Hlat|by intros [] y]. }
  apply wp_bind. eapply wp_mono; [apply check_probe_ok|intros [] [d' x2] [Ed Hq2]; cbn in Ed, Hq2; subst d'|done].
  replace (pget e "worker_ops") with (Ok (JArr ops) : result json)
    by (unfold field, e, pget, pget_or in *; by rewrite Hf).
  apply wp_bind, wp_lift, wp_bind.
  eapply wp_mono; [by apply run_worker_ops_ok|intros ex [d' x3] (Ed & Hl3 & Hs3); cbn in Ed, Hl3, Hs3; subst d'|done].
  apply wp_bind. host law_footprints. intros [] x4 Hq4.
  apply wp_bind. eapply wp_mono; [apply check_active_ok|intros [] [d' x5] [Ed Hq5]; cbn in Ed, Hq5; subst d'|done].
  apply wp_bind. eapply wp_mono; [apply index_status_ok|intros ix [d' x6] (Ed & Hq6 & ->); cbn in Ed, Hq6; subst d'|done].
  assert (quiet x3 x6) as Hq36 by (by do 2 (etrans; [eassumption|])).
  assert (quiet x x2) as Hq02 by (by etrans).
  assert (still x x6) as Hstill by (etrans; [apply Hq02|]; etrans; [apply Hs3|]; apply Hq36).
  assert (look x6 = exec ops (live w)) as Hlook.
  { destruct Hq36 as [-> _]. rewrite Hl3. destruct Hq02 as [-> _]. by rewrite (sim_live _ _ _ _ Hsim). }
  destruct (strategy_field fs st adaptive Hst Hin) as (Hfs & Hgs & Hpor).
  fold e in Hfs, Hgs. rewrite Hgs. apply wp_bind, wp_lift. rewrite Hpor.
  apply wp_tag; [destruct (memcurve_skip cfg); auto|]. apply wp_locals, wp_bind. cbn [fst].
  set (tag := if skips st ops then _ else _).
  assert (is_string tag "lightweight" = made_light st ops) as Htag by (unfold tag, made_light; destruct (skips st ops); [by rewrite orb_true_r|by rewrite orb_false_r]).
  host (checkpoint_good tag ops (last_ckpt_id d) x6 (live w)).
  { intros Hlw. destruct (light_tag st ops Hlw) as [Hnt Et]; [intros Ht ->; by apply Htests|].
    split_and!; [done|done|]. pose proof (sim_last _ _ _ _ Hsim) as Hlast. destruct (last_ckpt_id d) as [p|].
    - exists p. split_and!; [done|by eapply good_still|done].
    - rewrite Htag in Hlw. by rewrite (Hfull eq_refl st ops Hfs Hops) in Hlw. }
  intros info x7 (Hl7 & Hn7 & Hg7 & Hi7). rewrite Hlook in Hg7, Hl7.
  eapply record_ckpt_ok; [done|done|]. intros d' y Hq D1 D2 D3 D4. cbn [fst snd]. split; [|by rewrite D2].
  eapply sim_quiet; [done|]. replace (look x5) with (exec ops (live w)) in D4 by (destruct Hq6; congruence).
  eapply (sim_new rest w d x x6); [done|by apply Hfresh|by eapply truth_key, key_field_get|done|exact Hstill|done|done|exact Hi7|rewrite D1; apply Hsim|done|done|done].
Qed.

(** The driver after a restore of [id]. *)
Lemma sim_restored rest w d x y id st d' : sim rest w d x → still x y → look y = st → good x id st →
  had_error d' = had_error d → last_ckpt_id d' = Some id → schedule_to_runtime d' = schedule_to_runtime d →
  runtime_index_status d' = runtime_index_status d →
  sim rest (World st (saved w)) d' y.
Proof.
  intros [S1 S2 S3 S4 S5] Hs Hl Hg D1 D2 D3 D4. split; cbn [live saved]; rewrite ?D1, ?D2, ?D3, ?D4; [done|done|by eapply good_still| |done].
  intros c st' Hc Hn. destruct (S4 c st' Hc Hn) as (i & ? & ? & ?). exists i. split_and!; [done|by eapply good_still|done].
Qed.

(** ** Restoring *)

Lemma flag_true j k : flag j k = true → ∃ v, pget j k = Ok v ∧ truth v = true.
Proof. unfold flag. destruct (pget j k); [eauto|done]. Qed.

Lemma ready_ok fuel deadline ready d x : 0 < fuel → (now x + 1000000 ≤ deadline)%Z →
  no_exn (ready_loop fuel deadline ready) (fun r s' => s'.1 = d ∧ quiet x s'.2 ∧ flag r "ok" = true ∧ pget r "epoch" = Ok (JInt (the_epoch x))) (d, x).
Proof.
  intros Hf Hd. destruct fuel as [|fuel]; [lia|]. unfold no_exn. cbn [ready_loop]. apply wp_bind. host law_monotonic.
  intros t y (Hq & -> & _). destruct (Z.leb_spec (deadline - now x) 0); [lia|]. apply wp_bind. host law_ready.
  intros r z (Hq' & Hok & Hep & err & -> & Herr). apply wp_bind, wp_lift. rewrite Herr. apply wp_ret.
  split_and!; [done|by etrans|done|]. rewrite Hep. by destruct Hq as (_ & _ & ->).
Qed.
Lemma restore_with_ready_ok fuel id s cmds d x : 0 < fuel → image x id = Some (s, cmds) →
  no_exn (restore_with_ready cfg fuel id)
    (fun r s' => s'.1 = d ∧ look s'.2 = s ∧ still x s'.2 ∧ por (r_replay_cmds r) (JArr []) = JArr cmds) (d, x).
Proof.
  intros Hf Hi. unfold no_exn, restore_with_ready. apply wp_bind. host law_namespace. intros before x1 Hq1.
  apply wp_bind, wp_catch. host law_restore; [destruct Hq1 as (_ & -> & _); exact Hi|]. intros r x2 (Hl & Hs & Hr).
  apply wp_bind, wp_bind. host law_namespace. intros after x3 Hq3.
  eapply (wp_mono _ (fun _ s' => s'.1 = d ∧ quiet x3 s'.2) _ (fun _ _ => False)); [|intros [] [d' x4] [Ed Hq4]; cbn in Ed, Hq4; subst d'|done].
  { cbv beta. case_bool_decide; [by split|]. apply wp_catch. host law_own. by intros []. }
  assert (look x4 = s ∧ still x x4) as [Hl4 Hs4].
  { destruct Hq3 as (E3 & S3 & _), Hq4 as (E4 & S4 & _). split; [congruence|]. etrans; [apply Hq1|]. etrans; [exact Hs|]. by etrans. }
  apply wp_bind. eapply (wp_mono _ (fun _ s' => s'.1 = d ∧ quiet x4 s'.2) _ (fun _ _ => False)); [|intros [] [d' x5] [Ed (E5 & S5 & _)]; cbn in Ed, E5, S5; subst d'|done].
  { case_match; [|by split]. apply wp_bind. host law_monotonic. intros t y (Hy & -> & Ht).
    apply wp_bind. eapply wp_mono; [apply ready_ok; [done|]|intros ready [d' y2] (Ed & Hy2 & Hok & Hep); cbn in Ed, Hy2; subst d'|done].
    { unfold READY_US. lia. }
    apply flag_true in Hok as (v & -> & Hv). apply wp_bind, wp_lift. rewrite Hv, Hep. apply wp_bind, wp_lift, wp_bind.
    host law_epoch. intros ep y3 [Hy3 ->]. destruct Hy2 as (El2 & Es2 & Ee2). rewrite Ee2. cbn [eq_int]. rewrite Z.eqb_refl. apply wp_ret.
    split; [done|]. etrans; [exact Hy|]. etrans; [|exact Hy3]. by split_and!. }
  apply wp_ret. split_and!; [done|cbn; congruence|by etrans|done].
Qed.

Lemma replay_restored_ok cmds d x : Forall item_ok cmds →
  no_exn (replay_restored cfg (JArr cmds)) (fun _ s' => s'.1 = d ∧ look s'.2 = run_cmds cmds (look x) ∧ still x s'.2) (d, x).
Proof.
  intros Hc. unfold no_exn, replay_restored. rewrite Hexec. cbn [andb]. destruct (truth (JArr cmds)) eqn:E.
  - apply wp_bind. host law_reset. intros [] y (Hl & Hs & _). unfold replay_lightweight_worker_ops. apply wp_bind, wp_bind, wp_lift.
    eapply wp_mono; [by apply (replay_cmds_ok cmds d)|intros rp [d' z] (Ed & Hl' & Hs' & Hok); cbn in Ed, Hl', Hs'|done].
    rewrite Hok. apply wp_bind, wp_ret, wp_ret. cbn. split_and!; [done|by rewrite Hl', Hl|by etrans].
  - destruct cmds; [|done]. by apply wp_ret.
Qed.
Lemma restored_index_ok id d x : dget id (runtime_index_status d) = Some (index_of (look x)) →
  no_exn (check_restored_index cfg id) (fun _ s' => s'.1 = d ∧ quiet x s'.2) (d, x).
Proof.
  intros Hix. unfold no_exn, check_restored_index. rewrite Hexec. apply wp_bind, wp_when.
  assert (∀ y, quiet x y → wp (index ← index_status cfg; d ← locals;
    match index, dget id (runtime_index_status d) with
    | Some now, Some expected =>
        if negb (truth expected) then mraise RuntimeError "missing expected worker index status" else
        same ← lift_result (same_fields now expected);
        if (same : bool) then mret (Some now) else mraise RuntimeError "worker code index mismatch after restore"
    | _, _ => mraise RuntimeError "missing expected worker index status"
    end) (fun _ s' => s'.1 = d ∧ quiet x s'.2) (fun _ _ => False) (d, y)) as Hnext.
  { intros y Hy. apply wp_bind. eapply wp_mono; [apply index_status_ok|intros ix [d' z] (Ed & Hz & ->); cbn in Ed, Hz; subst d'|done].
    apply wp_locals. cbn [fst]. rewrite Hix. destruct Hy as [El ?]. rewrite El. destruct (law_index (look x)) as (_ & -> & ->).
    apply wp_bind, wp_lift, wp_ret. split; [done|]. etrans; [|done]. by split. }
  case_match; [host law_reset; intros [] y Hy|]; by apply Hnext.
Qed.

(** A restore event. *)
Lemma restore_event_ok fuel i fs rest w w' d x : 0 < fuel →
  let e := JObj fs in
  event_is e "restore" = true → replay_event exec e w = Some w' → sim (e :: rest) w d x →
  no_exn (Driver.restore_event cfg fuel i e) (fun _ s' => sim rest w' s'.1 s'.2 ∧ last_ckpt_id s'.1 ≠ None) (d, x).
Proof.
  intros Hfuel e Hre Hrun Hsim. unfold replay_event in Hrun. rewrite (not_both fs Hre : event_is e "ckpt" = false), Hre in Hrun.
  destruct (key_field e "restore_to_ckpt_id") as [c|] eqn:Hc; [|done].
  cbn [mbind option_bind] in Hrun. destruct (dget c (saved w)) as [st|] eqn:Hst; [|done].
  injection Hrun as <-.
  destruct (sim_saved _ _ _ _ Hsim c st Hst) as (id & Hid & Hgood & Hix).
  { intros _. unfold targets. cbn [omap list_omap]. rewrite Hre, Hc. by left. }
  pose proof (sim_truthy _ _ _ _ Hsim c (proj1 (dget_is_Some _ _) (ex_intro _ _ Hst))) as Ht. apply sim_rest in Hsim.
  apply key_field_get in Hc. unfold no_exn, Driver.restore_event. unfold e. rewrite !pget_field.
  apply wp_bind, wp_lift. rewrite (Ht _ Hc). apply wp_bind, wp_lift. 
  replace (por (get (JObj fs) "restore_to_ckpt_id") JNull) with (get (JObj fs) "restore_to_ckpt_id") by (unfold por; by rewrite (Ht _ Hc)).
  rewrite Hc.
  apply wp_bind, wp_lift, wp_locals. cbn [fst]. rewrite Hid. destruct Hgood as (s & cmds & Him & Hrc & Hcok).
  apply wp_bind. eapply wp_mono; [by eapply restore_with_ready_ok|intros r [d' x1] (Ed & Hl1 & Hs1 & Hr1); cbn in Ed, Hl1, Hs1; subst d'|done].
  apply wp_bind, wp_set_locals. cbn [fst snd]. set (d1 := set_last id d).
  rewrite Hr1, Hexec. unfold _restore_sidecar_index_snapshot. rewrite Hside. cbn [negb orb andb]. apply wp_bind, wp_ret.
  apply wp_bind. eapply wp_mono; [by apply replay_restored_ok|intros rp [d' x2] (Ed & Hl2 & Hs2); cbn in Ed, Hl2, Hs2; subst d'|done].
  apply wp_bind. eapply (wp_mono _ (fun _ s' => s'.1 = d1 ∧ quiet x2 s'.2) _ (fun _ _ => False));
    [|intros [] [d' x3] [Ed Hq3]; cbn in Ed, Hq3; subst d'|done].
  { case_match; [|by split]. host law_reset. by intros []. }
  apply wp_bind. eapply wp_mono; [apply check_probe_ok|intros [] [d' x4] [Ed Hq4]; cbn in Ed, Hq4; subst d'|done].
  apply wp_bind. host law_footprints. intros [] x5 Hq5.
  apply wp_bind. eapply wp_mono; [apply check_active_ok|intros [] [d' x6] [Ed Hq6]; cbn in Ed, Hq6; subst d'|done].
  assert (quiet x2 x6) as Hq26 by (do 3 (etrans; [eassumption|]); done).
  assert (look x6 = st) as Hl6 by (destruct Hq26 as [-> _]; by rewrite Hl2, Hl1).
  apply wp_bind. eapply wp_mono; [apply restored_index_ok; by rewrite Hl6|intros ix [d' x7] [Ed Hq7]; cbn in Ed, Hq7; subst d'|done].
  apply wp_bind. host law_footprints. intros [] x8 Hq8. apply wp_set_locals. cbn [fst snd]. split; [|done].
  assert (quiet x2 x8) as Hq28 by (do 2 (etrans; [eassumption|]); done).
  assert (still x x8) as Hs8 by (etrans; [exact Hs1|]; etrans; [exact Hs2|]; apply Hq28).
  eapply sim_restored; [exact Hsim|exact Hs8|by rewrite (proj1 Hq28), Hl2, Hl1|by exists s, cmds|done..].
Qed.


(** ** Collecting what is not needed *)

Lemma mapM_ok_elem {A B} (f : A → result B) l : Forall (fun a => is_Ok (f a) = true) l →
  ∃ bs, mapM f l = Ok bs ∧ ∀ a b, a ∈ l → f a = Ok b → b ∈ bs.
Proof.
  induction 1 as [|a l Ha _ (bs & IH & Hin)]; [exists []; split; [done|by intros ? ? ?%elem_of_nil]|].
  destruct (f a) as [b|] eqn:E; [|done]. exists (b :: bs). simpl. rewrite E, IH. split; [done|].
  intros a' b' [->|Ha']%elem_of_cons Hb; [|right; by eapply Hin]. rewrite E in Hb. injection Hb as ->. by left.
Qed.
Lemma target_future e rest c : truthy c → c ∈ targets (e :: rest) → c ∈ targets rest ∨ future_target e = Ok (Some c).
Proof.
  intros Ht. unfold targets. cbn [omap list_omap]. destruct (event_is e "restore"); [|by left].
  destruct (key_field e "restore_to_ckpt_id") as [k|] eqn:Ek; [|by left]. intros [<-|?]%elem_of_cons; [right|by left].
  destruct e as [| | | | | |fs]; try done. apply key_field_get in Ek. unfold future_target. rewrite !pget_field.
  unfold mbind, result_bind, por. by rewrite !(Ht _ Ek), Ek.
Qed.
Lemma targets_future rest c : truthy c → c ∈ targets rest → ∃ e, e ∈ rest ∧ future_target e = Ok (Some c).
Proof.
  intros Ht. induction rest as [|e rest IH]; [by intros ?%elem_of_nil|]. intros [Hc|He]%(target_future _ _ _ Ht).
  - destruct (IH Hc) as (e' & ? & ?). exists e'. split; [by right|done].
  - exists e. split; [by left|done].
Qed.
Lemma sim_collected (keep : list string) x y rest w d z : sim rest w d x → quiet x y →
  (∀ id, last_ckpt_id d = Some id → image x id = None ∨ id ∈ keep) →
  (∀ c id, c ∈ dkeys (saved w) → needed c rest → dget c (schedule_to_runtime d) = Some id → id ∈ keep) →
  look z = look x → (∀ id, id ∈ keep → image z id = image y id) → sim rest w d z.
Proof.
  intros [S1 S2 S3 S4 S5] (_ & Hs & _) Hlast Hkeep Hl Hi.
  assert (∀ id st, id ∈ keep → good x id st → good z id st) as Hgood.
  { intros id st Hid (s & cmds & ? & ? & ?). exists s, cmds. by rewrite Hi, Hs. }
  split; [congruence|done| | |done].
  - destruct (last_ckpt_id d) as [id|]; [|done]. destruct (Hlast id eq_refl) as [Hn|]; [|by apply Hgood].
    destruct S3 as (s & cmds & Him & _). by rewrite Him in Hn.
  - intros c st Hc Hn. destruct (S4 c st Hc Hn) as (id & ? & ? & ?). exists id. split_and!; [done| |done].
    apply Hgood; [|done]. eapply Hkeep; [apply dget_is_Some; eauto|done|done].
Qed.
Lemma gc_ok rest w d x : memcurve cfg && memcurve_gc cfg = true → Forall drivable rest → sim rest w d x →
  no_exn (_memcurve_reachability_gc rest) (fun _ s' => s'.1 = d ∧ sim rest w d s'.2) (d, x).
Proof.
  intros Hgc Hdr Hsim. unfold no_exn, _memcurve_reachability_gc.
  destruct (mapM_ok_elem future_target rest) as (future & -> & Hin); [eapply Forall_impl; [done|]; by intros e []|].
  apply wp_bind, wp_lift, wp_locals. cbn [fst]. set (keep := omap _ (omap id future)).
  assert (∀ (keep' : list string) y, quiet x y → (∀ id, id ∈ keep → id ∈ keep') →
    (∀ id, last_ckpt_id d = Some id → image x id = None ∨ id ∈ keep') →
    wp (on_host (gc_obsolete_snapshots (remove_dups keep'))) (fun _ s' => s'.1 = d ∧ sim rest w d s'.2) (fun _ _ => False) (d, y)) as Hnext.
  { intros keep' y Hq Hsub Hlast. host law_gc. intros [] z [Hl Hi]. split; [done|]. cbn [snd].
    apply (sim_collected keep' x y); [done..| |by rewrite Hl; apply Hq|intros id Hid; apply Hi; by apply elem_of_remove_dups].
    intros c id Hc Hn Hid. apply Hsub. unfold keep. apply list_elem_of_omap. exists c. split; [|done].
    apply list_elem_of_omap. exists (Some c). split; [|done].
    destruct (targets_future rest c) as (e & He & Hfut); [by apply (sim_truthy _ _ _ _ Hsim)|by apply Hn|]. by eapply Hin. }
  destruct (last_ckpt_id d) as [id|] eqn:Elast.
  - apply wp_bind, wp_bind. host law_registered. intros b y [Hq Hb]. apply wp_ret. apply Hnext; [done|destruct b; set_solver|].
    intros ? [= <-]. destruct b; [right; set_solver|left; by apply Hb].
  - apply wp_bind, wp_ret. by apply Hnext.
Qed.

(** ** The loop *)

Lemma wp_except (m : D unit) h (Q : unit → driver * X → Prop) s :
  wp m Q (fun e s' => catchable e = true ∧ wp (h e) Q (fun _ _ => False) s') s → wp (except m h) Q (fun _ _ => False) s.
Proof. intros Hm. apply wp_catch. eapply wp_mono; [exact Hm|done|]. by intros e s' [-> ?]. Qed.
Lemma wp_except_no (m : D unit) h (Q : unit → driver * X → Prop) s : no_exn m Q s → wp (except m h) Q (fun _ _ => False) s.
Proof. intros Hm. apply wp_except. eapply wp_mono; [exact Hm|done|done]. Qed.

Definition settled (rest : list json) (w : world S) (s : driver * X) : Prop := sim rest w s.1 s.2 ∧ last_ckpt_id s.1 ≠ None.

(** The measurements and the collection after an event. *)
Lemma after_event_ok i (act : bool) rest w d x : Forall drivable rest → settled rest w (d, x) →
  no_exn (mwhen (memcurve cfg)
    (_ ← except (_ ← on_host memcurve_sample; set_locals (add_row (RowMemcurve i None)))
           (fun e => set_locals (add_row (RowMemcurve i (Some e))));
     mwhen (memcurve_gc cfg && act)
       (except (_memcurve_reachability_gc rest)
          (fun e => _ ← set_locals (add_row (RowGcFailed e)); set_locals fail))))
    (fun _ s' => settled rest w s') (d, x).
Proof.
  intros Hdr [Hsim Hlast]. cbn in Hsim, Hlast. apply wp_when. destruct (memcurve cfg) eqn:Emc; [|done]. apply wp_bind.
  eapply (wp_mono _ (fun _ s' => settled rest w s') _ (fun _ _ => False)); [|intros [] [d' y] [Hs Hl]; cbn in Hs, Hl|done].
  - assert (∀ r y, quiet x y → settled rest w (add_row r d, y)) as Hrow.
    { intros r y Hq. split; [|done]. eapply sim_quiet; [done|]. eapply (sim_vars _ _ d); [by repeat split|done]. }
    apply wp_except, wp_bind. apply wp_host. eapply wp_mono; [apply law_sample| |].
    + intros [] y Hq. apply wp_set_locals. by apply Hrow.
    + intros e y [Hc Hq]. split; [done|]. apply wp_set_locals. by apply Hrow.
  - apply wp_when. destruct (memcurve_gc cfg && act) eqn:Eg; [|by split]. apply wp_except_no.
    eapply wp_mono; [apply gc_ok; [bool_hyps; by rewrite Emc|done|done]| |done]. intros [] [d2 z] [Ed Hz]. cbn in Ed, Hz. subst d2. by split.
Qed.

Lemma kind_of fs type : event_is (JObj fs) type = true → truth (JStr type) = true → get (JObj fs) "type" = JStr type.
Proof. rewrite event_type. destruct (get (JObj fs) "type"); try done. simpl. intros ?. bool_hyps. by subst. Qed.

Lemma driver_step_ok adaptive fuel i e rest w w' d x : 0 < fuel →
  event_ok adaptive e → Forall drivable (e :: rest) → replay_event exec e w = Some w' →
  (∀ c, event_is e "ckpt" = true → key_field e "ckpt_id" = Some c → c ∉ dkeys (saved w)) →
  (last_ckpt_id d = None → full_first e) → sim (e :: rest) w d x →
  no_exn (event cfg fuel i e rest) (fun _ s' => settled rest w' s') (d, x).
Proof.
  intros Hfuel Hok Hdr Hrun Hfresh Hfull Hsim. apply Forall_cons in Hdr as [Hd Hdr].
  pose proof Hok as [Hdict Htype]. destruct e as [| | | | | |fs]; try done.
  assert (∃ type, get (JObj fs) "type" = JStr type ∧ truth (JStr type) = true ∧
    no_exn (if is_string (JStr type) "ckpt" then Driver.ckpt_event cfg i (JObj fs)
            else if is_string (JStr type) "restore" then Driver.restore_event cfg fuel i (JObj fs)
            else set_locals (add_row (RowUnknown i (JObj fs)))) (fun _ s' => settled rest w' s') (d, x)) as (type & Hty & Ht & Hbody).
  { destruct Htype as [Hr|(Hck & _)].
    - exists "restore". split; [by apply kind_of|]. split; [done|]. by eapply restore_event_ok.
    - exists "ckpt". split; [by apply kind_of|]. split; [done|]. eapply ckpt_event_ok; [done..| |done|by eapply sim_rest].
      intros c Hc. by apply Hfresh. }
  unfold no_exn, event. rewrite !pget_field, Hty. apply wp_bind, wp_lift. rewrite Ht. apply wp_bind, wp_lift.
  replace (por (JStr type) JNull) with (JStr type) by (unfold por; by rewrite Ht).
  apply wp_bind, wp_except_no. eapply wp_mono; [exact Hbody|intros [] [d' y] Hs|done]. by apply after_event_ok.
Qed.

Lemma step_nodup e evs w w' : replay_event exec e w = Some w' → NoDup (dkeys (saved w) ++ ckpt_ids (e :: evs)) →
  NoDup (dkeys (saved w') ++ ckpt_ids evs).
Proof.
  unfold replay_event, ckpt_ids. cbn [omap list_omap]. destruct (event_is e "ckpt").
  - destruct (key_field e "ckpt_id") as [c|]; [|done]. destruct (event_ops e) as [ops|]; [|done]. intros [= <-] Hnd.
    cbn [saved]. rewrite dkeys_dset, decide_False; [by rewrite <- app_assoc|].
    intros Hin. apply NoDup_app in Hnd as (_ & Hdis & _). apply (Hdis c Hin). by left.
  - destruct (event_is e "restore"); [|done]. destruct (key_field e "restore_to_ckpt_id") as [c|]; [|done]. simpl.
    destruct (dget c (saved w)); [|done]. by intros [= <-].
Qed.
Lemma events_ok adaptive fuel evs : 0 < fuel → ∀ i w w' d x,
  Forall (event_ok adaptive) evs → Forall drivable evs → NoDup (dkeys (saved w) ++ ckpt_ids evs) →
  replay exec evs w = Some w' → (last_ckpt_id d = None → ∀ e rest, evs = e :: rest → full_first e) → sim evs w d x →
  no_exn (events cfg fuel i evs) (fun _ s' => sim [] w' s'.1 s'.2) (d, x).
Proof.
  intros Hfuel. induction evs as [|e evs IH]; intros i w w' d x Hok Hdr Hnd Hrun Hfull Hsim; cbn [events].
  { injection Hrun as <-. by apply wp_ret. }
  cbn [replay] in Hrun. destruct (replay_event exec e w) as [w1|] eqn:E; [|done]. simpl in Hrun.
  pose proof Hok as [He Hok']%Forall_cons. apply wp_bind.
  eapply wp_mono; [eapply (driver_step_ok adaptive fuel i e evs w w1); try done|intros [] [d' y] [Hs Hl]; cbn in Hs, Hl|done].
  { intros c Hck Hc Hin. unfold ckpt_ids in Hnd. cbn [omap list_omap] in Hnd. rewrite Hck, Hc in Hnd.
    apply NoDup_app in Hnd as (_ & Hdis & _). apply (Hdis c Hin). by left. }
  { intros Hn. by eapply Hfull. }
  apply wp_locals. cbn [fst]. rewrite (sim_error _ _ _ _ Hs).
  apply (IH (i + 1)%Z w1 w'); [done|by apply Forall_cons in Hdr as [_ ?]| |done|intros Hn; by rewrite Hn in Hl|done].
  by eapply step_nodup.
Qed.

(** ** Before and after it *)

Lemma initialize_ok d x : (active_worker_required cfg = true → is_load (active_load_request cfg)) →
  no_exn (initialize cfg) (fun _ s' => s'.1 = d ∧ quiet x s'.2) (d, x).
Proof.
  intros Hload. unfold no_exn, initialize. rewrite Hexec. apply wp_bind, wp_when, wp_bind. host law_build. intros r y [Hq Hr].
  rewrite Hr. apply wp_lift, wp_when. destruct (active_worker_required cfg); [|done]. apply wp_bind.
  host law_load; [by apply Hload|]. intros st z [Hz Hl]. unfold loaded in Hl. bool_hyps.
  match goal with H1 : flag st "ok" = true, H2 : flag st "loaded" = true |- _ => rewrite H1, H2 end.
  apply wp_ret. split; [done|by etrans].
Qed.
Lemma settle_dumps_ok l : ∀ d x, no_exn (settle_dumps l) (fun _ s' => same_vars d s'.1 ∧ quiet x s'.2) (d, x).
Proof.
  unfold no_exn. induction l as [|[id f] l IH]; intros d x; cbn [settle_dumps]; [by apply wp_ret|]. apply wp_bind, wp_except_no.
  unfold no_exn. apply wp_bind. host law_dump. intros [] y Hy. apply wp_set_locals. cbn [fst snd].
  eapply wp_mono; [apply IH| |done]. intros [] s' [Hv Hq]. split; [exact Hv|by etrans].
Qed.
Lemma finish_ok w d x : sim [] w d x → no_exn (finish) (fun _ s' => sim [] w s'.1 s'.2) (d, x).
Proof.
  intros Hsim. unfold no_exn, finish. apply wp_locals, wp_bind. cbn [fst]. rewrite (sim_error _ _ _ _ Hsim).
  host law_shutdown. intros [] y Hy. apply wp_bind. eapply wp_mono; [apply settle_dumps_ok|intros [] [d' z] [Hv Hz]; cbn in Hv, Hz|done].
  assert (sim [] w d' z) as Hs by (apply (sim_quiet _ _ _ x); [etrans; [exact Hy|exact Hz]|by apply (sim_vars _ _ d)]).
  apply wp_locals. cbn [fst]. rewrite (sim_error _ _ _ _ Hs). by apply wp_ret.
Qed.
End driver.

(** The handshake ends: on a clock that does not go back and on which a sleep
    takes its time, within [READY_US / 5000 + 1] attempts. *)
Section clock.
Context {X : Type} `{Guest X} (time : X → Z).
Hypothesis clock_reads : ∀ x, wp monotonic (fun t y => t = time x ∧ (time x ≤ time y)%Z) (fun _ _ => False) x.
Hypothesis clock_sleeps : ∀ z x, (0 < z ≤ 5000)%Z →
  wp (sleep (fdiv (fround z 0) (fround 1000000 0))) (fun _ y => (time x + z ≤ time y)%Z) (fun _ _ => False) x.
Hypothesis clock_asks : ∀ x, wp (control_fresh ready_request) (fun r y => is_dict r = true ∧ (time x ≤ time y)%Z) (fun _ _ => False) x.
Lemma ready_loop_ends fuel : ∀ deadline ready d x, (deadline - time x ≤ 5000 * (Z.of_nat fuel - 1))%Z → 0 < fuel →
  wp (ready_loop fuel deadline ready) (fun _ _ => True) (fun _ _ => False) (d, x).
Proof.
  induction fuel as [|fuel IH]; intros deadline ready d x Hf Hp; [lia|]. cbn [ready_loop]. apply wp_bind.
  host clock_reads. intros t y [-> Hy]. destruct (Z.leb_spec (deadline - time x) 0); [done|].
  apply wp_bind. host clock_asks. intros r z [Hr Hz]. destruct (flag_get r "err" Hr) as (err & -> & _). apply wp_bind, wp_lift.
  destruct (is_string err "BrokenPipeError"); [|done]. apply wp_bind. host clock_reads. intros t z' [-> Hz'].
  destruct (Z.leb_spec (deadline - time z) 0); [done|]. apply wp_bind. host clock_sleeps; [lia|]. intros [] u Hu.
  apply IH; lia.
Qed.
End clock.

(** ** A guest that keeps its promises *)

Record toy := Toy { ops_done : list json; images : list (option (list json * list json)) }.
Definition toy_exec (ops s : list json) : list json := s ++ ops.
Fixpoint toy_name (n : nat) : string := match n with O => "" | S n => "x" +:+ toy_name n end.
Definition toy_image (x : toy) (id : string) : option (list json * list json) :=
  if bool_decide (toy_name (String.length id) = id) then mjoin (images x !! String.length id) else None.
Definition toy_status : json :=
  obj [("ok", JBool true); ("loaded", JBool true); ("fingerprint", JStr "f"); ("n_files", JInt 1); ("n_classes", JInt 1);
       ("n_functions", JInt 1); ("total_bytes", JInt 1); ("err", JNull); ("epoch", JInt 0)].
Definition toy_answer (req : json) : M toy json := fun x =>
  match field req "ctrl", field req "ops" with
  | Some c, Some (JArr ops) => (Ok toy_status, if is_string c "worker_exec" then Toy (toy_exec ops (ops_done x)) (images x) else x)
  | _, _ => (Ok toy_status, x)
  end.
Definition toy_save (last : option string) (tag ops : json) : M toy ckpt_info := fun x =>
  let id := toy_name (length (images x)) in
  let im := match last ≫= toy_image x, ops with
            | Some (s, cmds), JArr l => if is_string tag "lightweight" then (s, cmds ++ [obj [("worker_ops", ops)]]) else (ops_done x, [])
            | _, _ => (ops_done x, [])
            end in
  (Ok (CkptInfo id "toy" (Some 0%Z) false), Toy (ops_done x) (images x ++ [Some im])).
Definition toy_restore (id : string) : M toy restored := fun x =>
  match toy_image x id with
  | Some (s, cmds) => (Ok (Restored (Some "criu") (JArr cmds)), Toy s (images x))
  | None => (raise KeyError "no such checkpoint", x)
  end.
Definition toy_gc (keep : list string) : M toy unit := fun x =>
  (Ok tt, Toy (ops_done x) (imap (fun n im => if mem (toy_name n) keep then im else None) (images x))).
#[export] Instance toy_guest : Guest toy := {
  sleep _ := mret tt; monotonic := mret 0%Z; write_dirty _ _ := mret tt; footprints := mret tt; memcurve_sample := mret tt;
  probe _ _ := mret toy_status; control := toy_answer; control_fresh _ := mret toy_status; reset := mret tt; epoch := mret 0%Z;
  checkpoint_action := toy_save; restore_action := toy_restore; ns_init_pid := mret (Some 1%Z); own_namespace _ := mret tt;
  registered id := x ← mget; mret (bool_decide (is_Some (toy_image x id))); gc_obsolete_snapshots := toy_gc;
  dump_result _ := mret tt; abort_dumps := mret tt; shutdown_dumps := mret tt
}.

Lemma toy_name_length n : String.length (toy_name n) = n.
Proof. induction n as [|n IH]; [done|]. exact (f_equal Datatypes.S IH). Qed.
Lemma toy_name_eq id : (∃ n, id = toy_name n) ∨ ∀ n, toy_name n ≠ id.
Proof.
  destruct (decide (toy_name (String.length id) = id)) as [?|Hn]; [by left; eexists|right]. intros n <-. by rewrite toy_name_length in Hn.
Qed.
Lemma toy_image_name x n : toy_image x (toy_name n) = mjoin (images x !! n).
Proof. unfold toy_image. by rewrite toy_name_length, bool_decide_true. Qed.
Lemma toy_image_app x s im id : id ≠ toy_name (length (images x)) → toy_image (Toy s (images x ++ [im])) id = toy_image x id.
Proof.
  intros Hne. destruct (toy_name_eq id) as [[n ->]|Hn].
  - rewrite !toy_image_name. cbn [images].
    destruct (decide (n = length (images x))) as [E|]; [by rewrite E in Hne|]. destruct (decide (n < length (images x))).
    + by rewrite lookup_app_l.
    + rewrite !lookup_ge_None_2; [done|lia|]. rewrite length_app. simpl. lia.
  - unfold toy_image. by rewrite bool_decide_false.
Qed.
Lemma toy_save_wp last tag ops x im :
  match last ≫= toy_image x, ops with
  | Some (s, cmds), JArr l => if is_string tag "lightweight" then (s, cmds ++ [obj [("worker_ops", ops)]]) else (ops_done x, [])
  | _, _ => (ops_done x, [])
  end = im →
  wp (toy_save last tag ops)
     (fun info y => ops_done y = ops_done x ∧ toy_image x (ci_id info) = None ∧ toy_image y (ci_id info) = Some im ∧
                    ∀ id, id ≠ ci_id info → toy_image y id = toy_image x id) (fun _ _ => False) x.
Proof.
  intros E. unfold wp, toy_save. cbn [ci_id ops_done]. rewrite E, !toy_image_name. cbn [images]. split_and!; [done| | |].
  - by rewrite lookup_ge_None_2.
  - by rewrite lookup_app_r, Nat.sub_diag.
  - intros id Hid. by apply toy_image_app.
Qed.
#[export] Program Instance toy_laws : GuestLaws toy (list json) toy_exec := {
  look := ops_done; image := toy_image; now _ := 0%Z; the_epoch _ := 0%Z; index_of _ := toy_status
}.
Solve Obligations with (cbn; intros; try done; by split_and!).
Next Obligation. intros s. apply app_nil_r. Qed.
Next Obligation. intros ops step ckpt x. split_and!; [done..|by left]. Qed.
Next Obligation. intros ops i action x. split_and!; [done..|by left]. Qed.
Next Obligation. intros x. split_and!; [done..|]. by exists JNull. Qed.
Next Obligation. intros last tag ops x Ht. apply toy_save_wp. rewrite Ht. by destruct (last ≫= _) as [[]|], ops. Qed.
Next Obligation.
  intros p s cmds ops x Hp. eapply wp_mono; [apply (toy_save_wp _ _ _ _ (s, cmds ++ [obj [("worker_ops", JArr ops)]]))| |done].
  - simpl. by rewrite Hp.
  - intros info y (? & ? & ? & ?). split_and!; [done|done| |done]. eexists. split_and!; [| |done]; [done|]. by destruct ops.
Qed.
Next Obligation. intros id s cmds x Hi. unfold wp. simpl. unfold toy_restore. rewrite Hi. split_and!; [done..|]. by destruct cmds. Qed.
Next Obligation.
  intros req x Hl. unfold wp. simpl. unfold toy_answer. rewrite Hl. destruct (field req "ops") as [[]|]; by split_and!.
Qed.
Next Obligation.
  intros id x. split_and!; [done..|]. intros Hb. apply bool_decide_eq_false in Hb. by apply eq_None_not_Some.
Qed.
Next Obligation.
  intros keep x. split; [done|]. intros id Hid. destruct (toy_name_eq id) as [[n ->]|Hn].
  - rewrite !toy_image_name. cbn [images]. rewrite list_lookup_imap. destruct (images x !! n) as [im|]; [|done]. simpl.
    by rewrite (proj2 (mem_true _ _) Hid).
  - unfold toy_image. by rewrite bool_decide_false.
Qed.

(** Two branches below a root; a read-only step is skipped, an edit is not. *)
Definition toy_ckpt (id strategy op : string) : json :=
  obj [("type", JStr "ckpt"); ("ckpt_id", JStr id); ("strategy", JStr strategy); ("latency_ms", JInt 5);
       ("worker_ops", JArr [obj [("type", JStr op)]])].
Definition toy_schedule : list json :=
  [toy_ckpt "root" "standard" "apply_patch"; toy_ckpt "a" "standard" "view_file"; toy_ckpt "b" "lightweight" "grep";
   obj [("type", JStr "restore"); ("restore_to_ckpt_id", JStr "root")]; toy_ckpt "c" "predump" "run_tests";
   obj [("type", JStr "restore"); ("restore_to_ckpt_id", JStr "b")]; toy_ckpt "d" "standard" "apply_patch"].
Definition toy_config (gc : bool) : config :=
  Config true true true true true false false false true gc true (obj [("ctrl", JStr "active_worker_load")]).
Definition toy_ops (names : list string) : list json := (fun n => obj [("type", JStr n)]) <$> names.

(** C28: the driver replays the schedules that validation accepts: on a guest
    that keeps its promises, with the agent and its worker, a valid schedule
    whose events the driver accepts ([drivable]) and whose first checkpoint is a
    full one runs to its end - no event fails, no error is recorded, the exit
    code is not 1 - and the agent is left in the state the schedule asks for,
    although lightweight checkpoints are not dumped and obsolete ones are
    collected on the way; without the collection every checkpoint of the
    schedule can still be brought back to the state it was taken in. *)
Theorem driver_replays {X S} {exec : list json → S → S} `{GuestLaws X S exec} cfg adaptive fuel evs (x : X) :
  real_agent cfg = true → worker_exec_required cfg = true → sidecar cfg = false →
  (active_worker_required cfg = true → is_load (active_load_request cfg)) → 0 < fuel →
  validate_schedule evs adaptive = Ok tt → Forall (drivable cfg) evs →
  (∀ e rest, evs = e :: rest → full_first cfg e) →
  ∃ w, replay exec evs (World (look x) []) = Some w ∧
    wp (_run_replay cfg fuel evs)
       (fun _ s' => look s'.2 = live w ∧ had_error s'.1 = false ∧
          (memcurve cfg && memcurve_gc cfg = false → ∀ c st, dget c (saved w) = Some st →
             ∃ id, dget c (schedule_to_runtime s'.1) = Some id ∧ good s'.2 id st))
       (fun _ _ => False) (start, x).
Proof.
  intros Hreal Hexec Hside Hload Hfuel Hv Hdr Hfull.
  apply (validated_iff exec (look x)) in Hv as (_ & Hok & Hnd & w & Hw). exists w. split; [done|].
  unfold _run_replay, check_modes. rewrite Hreal, Hexec, !andb_false_r. apply wp_bind, wp_lift, wp_bind.
  eapply wp_mono; [by apply (initialize_ok cfg)|intros [] [d y] [Ed Hy]; cbn in Ed, Hy; subst d|done].
  apply wp_bind. eapply wp_mono; [eapply (events_ok cfg Hreal Hexec Hside adaptive fuel evs Hfuel 0 (World (look x) []) w)|intros [] [d z] Hz; cbn in Hz|done].
  1,2,3,4: done.
  { intros _. exact Hfull. }
  { split; [apply Hy|done..|]. by intros c ?%elem_of_nil. }
  eapply wp_mono; [by eapply finish_ok|intros [] [d' z'] Hs; cbn in Hs|done]. destruct Hs as [S1 S2 _ S4 _].
  split_and!; [done|done|]. intros Hgc c st Hst. destruct (S4 c st Hst) as (id & ? & ? & _); [unfold needed; by rewrite Hgc|eauto].
Qed.

Lemma driver_replays_witness :
  (∃ w, replay toy_exec toy_schedule (World [] []) = Some w ∧
     live w = toy_ops ["apply_patch"; "view_file"; "grep"; "apply_patch"] ∧
     dget (KStr "c") (saved w) = Some (toy_ops ["apply_patch"; "run_tests"]) ∧
     wp (_run_replay (toy_config false) 1 toy_schedule)
        (fun _ s' => look s'.2 = live w ∧ had_error s'.1 = false ∧
           (true && false = false → ∀ c st, dget c (saved w) = Some st →
              ∃ id, dget c (schedule_to_runtime s'.1) = Some id ∧ good s'.2 id st))
        (fun _ _ => False) (start, Toy [] [])) ∧
  (∃ w, replay toy_exec toy_schedule (World [] []) = Some w ∧
     wp (_run_replay (toy_config true) 1 toy_schedule)
        (fun _ s' => look s'.2 = live w ∧ had_error s'.1 = false ∧
           (true && true = false → ∀ c st, dget c (saved w) = Some st →
              ∃ id, dget c (schedule_to_runtime s'.1) = Some id ∧ good s'.2 id st))
        (fun _ _ => False) (start, Toy [] [])).
Proof.
  assert (∀ gc, Forall (drivable (toy_config gc)) toy_schedule) as Hdr.
  { intros gc. repeat (constructor; [split; [done|]; intros Hck; first [done|split_and!;
      [by exists (JInt 0), 0%Z|intros v f [= <-] [= <-] _; by vm_compute|intros ops [= <-]; by split_and!]]|]). constructor. }
  assert (∀ gc e rest, toy_schedule = e :: rest → full_first (toy_config gc) e) as Hfull.
  { intros gc e rest [= <- _] s ops [= <-] [= <-]. done. }
  split.
  - edestruct (driver_replays (toy_config false) true 1 toy_schedule (Toy [] [])) as (w & Hw & H);
      [done..|lia|by vm_compute|apply Hdr|apply Hfull|]. exists w. split; [exact Hw|]. split; [|split; [|exact H]].
    + vm_compute in Hw. by injection Hw as <-.
    + vm_compute in Hw. by injection Hw as <-.
  - edestruct (driver_replays (toy_config true) true 1 toy_schedule (Toy [] [])) as (w & Hw & H);
      [done..|lia|by vm_compute|apply Hdr|apply Hfull|]. exists w. split; [exact Hw|exact H].
Defined.
End DriverSpec.
