(* ===== verification/CodeIndex.v ===== *)
(** * The code index of a replayed worker ([replay/guest/index_sidecar.py])

    The index maps the files of a repository to their text and symbols, and the
    symbols back to files.  It lives in a process of its own and is saved and
    brought back with the checkpoints of the worker.  A snapshot is a shallow
    copy: it shares its tables with the index until [_cow_for_update] detaches
    them.  [Memory] is what the handlers need of the index; [shared] is the
    index of the code, with its tables in a store of mutable objects, and
    [by_value] one whose snapshots are values.  The index inside the agent
    ([replay/guest/agent.py]) is at the end.  The time and memory figures of a
    status are left out. *)

From S2P Require Import Prelude Hoare PyStr PyDict Json PyText Sha1.
From Stdlib Require Import Ascii.

Module CodeIndex.

(** ** The index *)

Record entry := Entry {
  e_path : string; e_size : Z; e_mtime_ns : Z; e_text_sha256 : string; e_text : string;
  e_classes : list string; e_functions : list string
}.
(** INDEX_STATE; a key that is not there is [None]. *)
Record index := Index {
  root : option string; files : option (list (string * entry));
  classes : option (list (string * list string)); functions : option (list (string * list string));
  total_bytes : option Z; truncated : option bool
}.
Definition unloaded : index := Index None None None None None None.
Definition is_some {A} (o : option A) : bool := match o with Some _ => true | None => false end.
(** [bool(INDEX_STATE)] *)
Definition loaded (x : index) : bool :=
  is_some (root x) || is_some (files x) || is_some (classes x) || is_some (functions x) || is_some (total_bytes x) || is_some (truncated x).
(** [INDEX_STATE.get("files", {})] *)
Definition get_files (x : index) : list (string * entry) := default [] (files x).
Inductive kind := Classes | Functions.
Definition table (k : kind) (x : index) : option (list (string * list string)) :=
  match k with Classes => classes x | Functions => functions x end.
Definition get_table (k : kind) (x : index) : list (string * list string) := default [] (table k x).
Definition symbols (k : kind) (e : entry) : list string := match k with Classes => e_classes e | Functions => e_functions e end.

(** What the handlers do to the index; none of it raises. *)
Class Memory (S : Type) := {
  current : S → index;
  fresh : string → S → S;                        (* the assignment of [_build] *)
  cow : S → S; remove : string → S → S; add : string → entry → S → S;
  set_total : Z → S → S; set_truncated : S → S;
  save : string → S → S; back : string → S → option S; saved_count : S → nat
}.

(** ** The index of the code: tables are objects *)

(** A state holds the locations of its tables. *)
Record state := State {
  s_root : option string; s_files : option nat; s_classes : option nat; s_functions : option nat;
  s_total : option Z; s_truncated : option bool
}.
(** The objects - the dictionaries of files, those of symbols, and the lists of
    paths these hold -, INDEX_STATE and INDEX_SNAPSHOTS. *)
Record side := Side {
  file_dicts : list (list (string * entry)); symbol_dicts : list (list (string * nat)); row_lists : list (list string);
  INDEX_STATE : state; INDEX_SNAPSHOTS : list (string * state)
}.
Definition new_state : state := State None None None None None None.
Definition new_side : side := Side [] [] [] new_state [].

Definition set_state (st : state) (s : side) : side := Side (file_dicts s) (symbol_dicts s) (row_lists s) st (INDEX_SNAPSHOTS s).
Definition set_snapshots (d : list (string * state)) (s : side) : side := Side (file_dicts s) (symbol_dicts s) (row_lists s) (INDEX_STATE s) d.
Definition s_table (k : kind) (st : state) : option nat := match k with Classes => s_classes st | Functions => s_functions st end.
Definition with_files (l : nat) (st : state) : state := State (s_root st) (Some l) (s_classes st) (s_functions st) (s_total st) (s_truncated st).
Definition with_table (k : kind) (l : nat) (st : state) : state :=
  match k with
  | Classes => State (s_root st) (s_files st) (Some l) (s_functions st) (s_total st) (s_truncated st)
  | Functions => State (s_root st) (s_files st) (s_classes st) (Some l) (s_total st) (s_truncated st)
  end.
Definition with_total (n : Z) (st : state) : state := State (s_root st) (s_files st) (s_classes st) (s_functions st) (Some n) (s_truncated st).
Definition with_truncated (st : state) : state := State (s_root st) (s_files st) (s_classes st) (s_functions st) (s_total st) (Some true).

Definition files_at (s : side) (l : nat) : list (string * entry) := default [] (file_dicts s !! l).
Definition symbols_at (s : side) (l : nat) : list (string * nat) := default [] (symbol_dicts s !! l).
Definition rows_at (s : side) (l : nat) : list string := default [] (row_lists s !! l).
(** What a state means. *)
Definition view (s : side) (st : state) : index :=
  Index (s_root st) (files_at s <$> s_files st)
    ((fun l => dmap (rows_at s) (symbols_at s l)) <$> s_classes st) ((fun l => dmap (rows_at s) (symbols_at s l)) <$> s_functions st)
    (s_total st) (s_truncated st).

Definition new_files (d : list (string * entry)) (s : side) : side :=
  Side (file_dicts s ++ [d]) (symbol_dicts s) (row_lists s) (with_files (length (file_dicts s)) (INDEX_STATE s)) (INDEX_SNAPSHOTS s).
Definition new_table (k : kind) (d : list (string * nat)) (s : side) : side :=
  Side (file_dicts s) (symbol_dicts s ++ [d]) (row_lists s) (with_table k (length (symbol_dicts s)) (INDEX_STATE s)) (INDEX_SNAPSHOTS s).
(** A new list of paths, and where it is. *)
Definition new_rows (l : list string) (s : side) : nat * side :=
  (length (row_lists s), Side (file_dicts s) (symbol_dicts s) (row_lists s ++ [l]) (INDEX_STATE s) (INDEX_SNAPSHOTS s)).
(** In-place changes of the current tables. *)
Definition cur_files (s : side) : list (string * entry) := default [] (files_at s <$> s_files (INDEX_STATE s)).
Definition cur_table (k : kind) (s : side) : list (string * nat) := default [] (symbols_at s <$> s_table k (INDEX_STATE s)).
Definition put_files (d : list (string * entry)) (s : side) : side :=
  match s_files (INDEX_STATE s) with
  | Some l => Side (<[l := d]> (file_dicts s)) (symbol_dicts s) (row_lists s) (INDEX_STATE s) (INDEX_SNAPSHOTS s)
  | None => s
  end.
Definition put_table (k : kind) (d : list (string * nat)) (s : side) : side :=
  match s_table k (INDEX_STATE s) with
  | Some l => Side (file_dicts s) (<[l := d]> (symbol_dicts s)) (row_lists s) (INDEX_STATE s) (INDEX_SNAPSHOTS s)
  | None => s
  end.
Definition append_row (l : nat) (rel : string) (s : side) : side :=
  Side (file_dicts s) (symbol_dicts s) (alter (fun rows => rows ++ [rel]) l (row_lists s)) (INDEX_STATE s) (INDEX_SNAPSHOTS s).

Definition others (rel : string) (rows : list string) : list string := List.filter (fun r => negb (bool_decide (r = rel))) rows.
Definition remove_symbol (k : kind) (rel : string) (s : side) (name : string) : side :=
  match others rel (default [] (rows_at s <$> dget name (cur_table k s))) with
  | [] => put_table k (dpop name (cur_table k s)) s
  | rows => let '(l, s) := new_rows rows s in put_table k (dset name l (cur_table k s)) s
  end.
Definition _remove (rel : string) (s : side) : side :=
  match dget rel (cur_files s) with
  | None => s
  | Some e =>
      let s := put_files (dpop rel (cur_files s)) s in
      let s := fold_left (remove_symbol Classes rel) (e_classes e) s in
      fold_left (remove_symbol Functions rel) (e_functions e) s
  end.

(** [{name: list(rows) for name, rows in d.items()}] *)
Fixpoint copy_rows (d : list (string * nat)) (s : side) : list (string * nat) * side :=
  match d with
  | [] => ([], s)
  | (name, l) :: d => let '(l', s) := new_rows (rows_at s l) s in let '(d', s) := copy_rows d s in ((name, l') :: d', s)
  end.
Definition cow_table (k : kind) (s : side) : side := let '(d, s) := copy_rows (cur_table k s) s in new_table k d s.
Definition _cow_for_update (s : side) : side :=
  if negb (loaded (view s (INDEX_STATE s))) then s else cow_table Functions (cow_table Classes (new_files (cur_files s) s)).

Definition need_table (k : kind) (s : side) : side := match s_table k (INDEX_STATE s) with Some _ => s | None => new_table k [] s end.
(** [INDEX_STATE.setdefault(t, {}).setdefault(name, []).append({"path": rel})] *)
Definition add_symbol (k : kind) (rel : string) (s : side) (name : string) : side :=
  let s := need_table k s in
  match dget name (cur_table k s) with
  | Some l => append_row l rel s
  | None => let '(l, s) := new_rows [] s in append_row l rel (put_table k (dset name l (cur_table k s)) s)
  end.
Definition add_entry (rel : string) (e : entry) (s : side) : side :=
  let s := match s_files (INDEX_STATE s) with Some _ => s | None => new_files [] s end in
  let s := put_files (dset rel e (cur_files s)) s in
  let s := fold_left (add_symbol Classes rel) (e_classes e) s in
  fold_left (add_symbol Functions rel) (e_functions e) s.

Definition fresh_state (r : string) (s : side) : side :=
  new_table Functions [] (new_table Classes [] (new_files [] (set_state (State (Some r) None None None (Some 0%Z) (Some false)) s))).

#[export] Instance shared : Memory side := {
  current s := view s (INDEX_STATE s);
  fresh := fresh_state; cow := _cow_for_update; remove := _remove; add := add_entry;
  set_total n s := set_state (with_total n (INDEX_STATE s)) s;
  set_truncated s := set_state (with_truncated (INDEX_STATE s)) s;
  save id s := set_snapshots (dset id (INDEX_STATE s) (INDEX_SNAPSHOTS s)) s;
  back id s := (fun st => set_state st s) <$> dget id (INDEX_SNAPSHOTS s);
  saved_count s := length (INDEX_SNAPSHOTS s)
}.

(** ** An index whose snapshots are values *)

Record plain := Plain { p_current : index; p_saved : list (string * index) }.
Definition new_plain : plain := Plain unloaded [].
Definition set_files (d : list (string * entry)) (x : index) : index := Index (root x) (Some d) (classes x) (functions x) (total_bytes x) (truncated x).
Definition set_table (k : kind) (d : list (string * list string)) (x : index) : index :=
  match k with
  | Classes => Index (root x) (files x) (Some d) (functions x) (total_bytes x) (truncated x)
  | Functions => Index (root x) (files x) (classes x) (Some d) (total_bytes x) (truncated x)
  end.
Definition v_total (n : Z) (x : index) : index := Index (root x) (files x) (classes x) (functions x) (Some n) (truncated x).
Definition v_truncated (x : index) : index := Index (root x) (files x) (classes x) (functions x) (total_bytes x) (Some true).
(** What is left of a table without the rows of a file. *)
Definition v_remove_symbol (rel : string) (d : list (string * list string)) (name : string) : list (string * list string) :=
  match others rel (default [] (dget name d)) with [] => dpop name d | rows => dset name rows d end.
Definition v_add_symbol (rel : string) (d : list (string * list string)) (name : string) : list (string * list string) :=
  dset name (default [] (dget name d) ++ [rel]) d.
Definition v_remove_table (rel : string) (e : entry) (k : kind) (x : index) : index :=
  match table k x with Some d => set_table k (fold_left (v_remove_symbol rel) (symbols k e) d) x | None => x end.
Definition v_add_table (rel : string) (e : entry) (k : kind) (x : index) : index :=
  match symbols k e with [] => x | l => set_table k (fold_left (v_add_symbol rel) l (get_table k x)) x end.
Definition v_remove (rel : string) (x : index) : index :=
  match dget rel (get_files x) with
  | None => x
  | Some e => v_remove_table rel e Functions (v_remove_table rel e Classes (set_files (dpop rel (get_files x)) x))
  end.
Definition v_add (rel : string) (e : entry) (x : index) : index :=
  v_add_table rel e Functions (v_add_table rel e Classes (set_files (dset rel e (get_files x)) x)).
Definition v_fresh (r : string) : index := Index (Some r) (Some []) (Some []) (Some []) (Some 0%Z) (Some false).
(** [_cow_for_update] adds the tables that are missing. *)
Definition v_cow (x : index) : index :=
  if negb (loaded x) then x
  else Index (root x) (Some (get_files x)) (Some (get_table Classes x)) (Some (get_table Functions x)) (total_bytes x) (truncated x).
Definition on_current (f : index → index) (p : plain) : plain := Plain (f (p_current p)) (p_saved p).
#[export] Instance by_value : Memory plain := {
  current := p_current; fresh r := on_current (fun _ => v_fresh r); cow := on_current v_cow; remove rel := on_current (v_remove rel);
  add rel e := on_current (v_add rel e); set_total n := on_current (v_total n); set_truncated := on_current v_truncated;
  save id p := Plain (p_current p) (dset id (p_current p) (p_saved p));
  back id p := (fun x => Plain x (p_saved p)) <$> dget id (p_saved p); saved_count p := length (p_saved p)
}.

(** ** Surroundings *)

(** Calls of [os]; what [open(path, errors="ignore")] reads.  [scandir] gives the
    directories and the other entries of one level of [os.walk]. *)
Class Disk (X : Type) := {
  os_stat : string → M X (Z * Z); getsize : string → M X Z;
  exists_ : string → M X bool; isfile : string → M X bool; isdir : string → M X bool; ismount : string → M X bool; islink : string → M X bool;
  read_file : string → M X string; listdir : option string → M X (list string);
  scandir : string → M X (list string * list string)
}.
(** [ast.parse] with the names [ast.walk] finds, [None] on a SyntaxError; and
    [re.compile], [None] on [re.error], as the search in a line. *)
Class Lang := { parse : string → result (option (list string * list string)); compile : string → option (string → bool) }.
Record settings := Settings { cwd : string; MAX_FILE_BYTES : Z; MAX_TOTAL_BYTES : Z }.

(** ** Paths *)

Definition abspath (cfg : settings) (p : string) : string := normpath (path_join (cwd cfg) p).
Definition os_relpath (cfg : settings) (p start : string) : string := relpath (abspath cfg p) (abspath cfg start).
Definition lstrip_slash (p : string) : string := lstrip_by (ch_eq "/"%char) p.
Definition _abspath (cfg : settings) (r path : string) : result string :=
  let rel := if startswith path "/" then lstrip_slash path else path in
  let full := abspath cfg (path_join r rel) in
  let root_abs := abspath cfg r in
  if negb (bool_decide (full = root_abs)) && negb (startswith full (root_abs +:+ "/")) then raise ValueError "path escapes worker root"
  else Ok full.
Definition SKIPPED_DIRS : list string := [".git"; "__pycache__"; ".tox"; ".venv"; "node_modules"].
Definition SKIPPED_SUFFIXES : list string :=
  [".pyc"; ".pyo"; ".so"; ".o"; ".a"; ".png"; ".jpg"; ".jpeg"; ".gif"; ".pdf"; ".zip"; ".tar"; ".gz"].
Definition _index_should_skip (path : string) : bool :=
  existsb (fun part => mem part SKIPPED_DIRS) (split_char "/"%char path) || existsb (endswith path) SKIPPED_SUFFIXES.

(** ** Requests *)

(** An argument that should be a string; other types are left out. *)
Definition str_arg (j : json) : result string := match j with JStr s => Ok s | _ => raise OutOfModel "argument that is not a string" end.
Definition opt_arg (j : json) : result (option string) := match j with JNull => Ok None | _ => s ← str_arg j; Ok (Some s) end.
(** [kwargs.get(k) or d] *)
Definition arg_or (kwargs : json) (k d : string) : result string := v ← pget kwargs k; if truth v then str_arg v else Ok d.
(** [a or b] of strings that may be [None] *)
Definition or_str (a : option string) (b : string) : string := match a with None | Some EmptyString => b | Some a => a end.

#[export] Instance str_leb_dec : RelDecision (fun a b : string => str_leb a b = true).
Proof. intros a b. apply _. Defined.
Definition sorted_strings (l : list string) : list string := merge_sort (fun a b => str_leb a b = true) l.

(** The bytes the two fingerprints are made of. *)
Definition marked (mark : string) (names : list string) : string := sconcat ((fun n => mark +:+ n) <$> sorted_strings names).
Definition entry_bytes (metadata : bool) (p : string * entry) : string :=
  p.1 +:+ pretty (e_size p.2) +:+ e_text_sha256 p.2 +:+ (if metadata then pretty (e_mtime_ns p.2) else "") +:+
  marked "C" (e_classes p.2) +:+ marked "F" (e_functions p.2).
Definition fingerprint (metadata : bool) (x : index) : string :=
  Sha256.sha256_hex (sconcat ((fun rel => match dget rel (get_files x) with Some e => entry_bytes metadata (rel, e) | None => "" end)
                       <$> sorted_strings (dkeys (get_files x)))).
Definition row_json (rel : string) : json := JObj [("path", JStr rel)].
Definition sample (k : string) (t : list (string * list string)) : json :=
  match sorted_strings (dkeys t) with
  | [] => JNull
  | name :: _ => JObj [("kind", JStr k); ("name", JStr name); ("hits", JArr (row_json <$> take 8 (default [] (dget name t))))]
  end.
Definition sample_query (x : index) : json :=
  match get_table Classes x with [] => sample "function" (get_table Functions x) | t => sample "class" t end.

Section handlers.
Context {S X : Type} `{!Memory S, !Disk X, !Lang} (cfg : settings).
Notation W := (M (S * X)).
Definition index_now : W index := s ← locals; mret (current s).
Definition count_now : W nat := s ← locals; mret (saved_count s).
Definition is_OSError (e : exn) : bool :=
  mem (exn_cls e) [OSError; FileNotFoundError; ProcessLookupError; ChildProcessError; TimeoutError; InterruptedError;
                   FileExistsError; NotADirectoryError; IsADirectoryError].
(** [except OSError: return None] *)
Definition os_try {A} (m : M X A) : W (option A) :=
  mcatch (a ← on_host m; mret (Some a)) (fun e => if is_OSError e then mret None else mthrow e).

Definition _resolve_rel (path : string) (r : option string) : W (string * string) :=
  x ← index_now;
  let r := or_str r (or_str (root x) "/testbed") in
  full ← lift_result (_abspath cfg r path);
  let rel := os_relpath cfg full (abspath cfg r) in
  there ← on_host (exists_ full);
  if there || dhas rel (get_files x) then mret (full, rel) else
  let suffix := lstrip_slash rel in
  match List.filter (fun f => bool_decide (f = suffix) || endswith f ("/" +:+ suffix)) (dkeys (get_files x)) with
  | [] => mret (full, rel)
  | [rel] => full ← lift_result (_abspath cfg r rel); mret (full, rel)
  | _ => mraise ValueError "ambiguous indexed path"
  end.

(** A SyntaxError means no symbols. *)
Definition _extract_python_symbols (text : string) : result (list string * list string) :=
  t ← parse text; Ok (default ([], []) t).
Definition _index_one (path r : string) : W (option entry) :=
  st ← os_try (os_stat path);
  match st with
  | None => mret None
  | Some (size, mtime) =>
      file ← on_host (isfile path);
      if negb file || (MAX_FILE_BYTES cfg <? size)%Z then mret None else
      let rel := os_relpath cfg path r in
      if _index_should_skip rel then mret None else
      text ← os_try (read_file path);
      match text with
      | None => mret None
      | Some text =>
          names ← lift_result (if endswith rel ".py" then _extract_python_symbols text else Ok ([], []));
          let e := Entry rel size mtime (Sha256.sha256_hex text) text names.1 names.2 in
          _ ← set_locals (remove rel); _ ← set_locals (add rel e); mret (Some e)
      end
  end.

(** Without the figures of time and memory. *)
Definition _status : W json :=
  x ← index_now;
  let r := if loaded x then root x else Some "/testbed" in
  names ← os_try (listdir r);
  match r with
  | None => mraise TypeError "stat: path should be string, bytes, os.PathLike or integer, not NoneType"
  | Some r =>
      there ← on_host (isdir r); mounted ← on_host (ismount r);
      mret (JObj [("ok", JBool true); ("loaded", JBool (loaded x)); ("root", JStr r); ("root_exists", JBool there);
        ("root_is_mount", JBool mounted); ("root_entries", JArr (JStr <$> take 16 (sorted_strings (default [] names))));
        ("n_files", JInt (Z.of_nat (length (get_files x)))); ("n_classes", JInt (Z.of_nat (length (get_table Classes x))));
        ("n_functions", JInt (Z.of_nat (length (get_table Functions x)))); ("total_bytes", JInt (default 0%Z (total_bytes x)));
        ("truncated", JBool (default false (truncated x)));
        ("fingerprint", if loaded x then JStr (fingerprint false x) else JNull);
        ("metadata_fingerprint", if loaded x then JStr (fingerprint true x) else JNull);
        ("sample_query", if loaded x then sample_query x else JNull)])
  end.

(** A loop with [break]: [true] stops it. *)
Fixpoint each {A B} (body : A → B → W (B * bool)) (l : list A) (b : B) : W (B * bool) :=
  match l with
  | [] => mret (b, false)
  | a :: l => r ← body a b; if (r.2 : bool) then mret r else each body l r.1
  end.
(** One file of [_build], with the bytes indexed so far. *)
Definition build_file (r top name : string) (total : Z) : W (Z * bool) :=
  let path := path_join top name in
  if _index_should_skip (os_relpath cfg path r) then mret (total, false) else
  size ← os_try (getsize path);
  match size with
  | None => mret (total, false)
  | Some size =>
      if (MAX_TOTAL_BYTES cfg <? total + size)%Z then _ ← set_locals set_truncated; mret (total, true) else
      e ← _index_one path r;
      mret (match e with Some e => (total + e_size e)%Z | None => total end, false)
  end.
(** [os.walk] from [top] and the loops over it, [fuel] levels deep; a directory
    that cannot be read is passed over. *)
Fixpoint build_dir (fuel : nat) (r top : string) (total : Z) : W (Z * bool) :=
  match fuel with
  | O => mraise OutOfFuel "os.walk"
  | Datatypes.S fuel =>
      level ← os_try (scandir top);
      match level with
      | None => mret (total, false)
      | Some (dirs, names) =>
          res ← each (build_file r top) names total;
          if (res.2 : bool) then mret res else
          each (fun d total => link ← on_host (islink (path_join top d));
                               if (link : bool) then mret (total, false) else build_dir fuel r (path_join top d) total)
            (List.filter (fun d => negb (mem d SKIPPED_DIRS)) dirs) res.1
      end
  end.
Definition _build (fuel : nat) (r : string) : W json :=
  _ ← set_locals (fresh r);
  res ← build_dir fuel r r 0%Z;
  _ ← set_locals (set_total res.1);
  _status.

(** [out[k] = v] for two more keys *)
Definition with_snapshot (id : string) (out : json) (n : nat) : json :=
  match out with JObj d => JObj (dset "snapshot_count" (JInt (Z.of_nat n)) (dset "snapshot_id" (JStr id) d)) | out => out end.
Definition _snapshot (id : string) : W json :=
  if bool_decide (id = "") then mraise ValueError "snapshot_id is required" else
  x ← index_now;
  if negb (loaded x) then mraise RuntimeError "cannot snapshot unloaded index" else
  _ ← set_locals (save id); out ← _status; n ← count_now; mret (with_snapshot id out n).
Definition _restore_snapshot (id : string) : W json :=
  if bool_decide (id = "") then mraise ValueError "snapshot_id is required" else
  s ← locals;
  match back id s with
  | None => mret (JObj [("ok", JBool false); ("missing_snapshot", JBool true); ("snapshot_id", JStr id); ("snapshot_count", JInt (Z.of_nat (saved_count s)))])
  | Some s => _ ← set_locals (fun _ => s); out ← _status; n ← count_now; mret (with_snapshot id out n)
  end.

(** Patterns with a set of characters are left out. *)
Definition _match_paths (pattern : option string) (x : index) : result (list string) :=
  match pattern with
  | None | Some EmptyString => Ok (dkeys (get_files x))
  | Some p => if has_char "["%char p then raise OutOfModel "character set"
              else Ok (List.filter (fun rel => fnmatch p rel || fnmatch p ("/" +:+ rel)) (dkeys (get_files x)))
  end.

Definition refresh_rest (path r : string) : W json :=
  p ← _resolve_rel path (Some r);
  _ ← set_locals (remove p.2);
  there ← on_host (exists_ p.1);
  e ← (if (there : bool) then _index_one p.1 r else mret None);
  x ← index_now;
  let total := zsum ((fun p => e_size p.2) <$> get_files x) in
  _ ← set_locals (set_total total);
  mret (JObj [("ok", JBool true); ("path", JStr p.2); ("indexed", JBool (is_some e)); ("total_bytes", JInt total)]).
Definition _refresh_path (path : string) (r : option string) : W json :=
  x ← index_now;
  _ ← set_locals cow;
  refresh_rest path (or_str r (or_str (root x) "/testbed")).

(** The search for a pattern, up to 64 hits. *)
Definition hit (rel : string) (lineno : nat) (line : string) : json :=
  JObj [("path", JStr rel); ("line", JInt (Z.of_nat lineno)); ("text", JStr (stake 300 (rstrip_by is_space line)))].
Fixpoint grep_lines (matched : string → bool) (rel : string) (lineno : nat) (lines : list string) (hits : list json) : list json :=
  match lines with
  | [] => hits
  | line :: lines =>
      if matched line then
        let hits := hits ++ [hit rel lineno line] in
        if (64 <=? length hits)%nat then hits else grep_lines matched rel (Datatypes.S lineno) lines hits
      else grep_lines matched rel (Datatypes.S lineno) lines hits
  end.
Fixpoint grep_files (matched : string → bool) (x : index) (rels : list string) (hits : list json) : list json :=
  match rels with
  | [] => hits
  | rel :: rels =>
      let hits := grep_lines matched rel 1 (splitlines (default "" (e_text <$> dget rel (get_files x)))) hits in
      if (64 <=? length hits)%nat then hits else grep_files matched x rels hits
  end.
Definition grep_in (x : index) (pattern : string) (rels : list string) : json :=
  let hits := match compile pattern with
              | Some search => grep_files search x rels []
              | None => grep_files (fun line => contains line pattern) x rels []
              end in
  JObj [("ok", JBool true); ("from_index", JBool true); ("pattern_mode", JStr (if is_some (compile pattern) then "regex" else "literal"));
        ("n_hits", JInt (Z.of_nat (length hits))); ("hits", JArr hits)].
Definition _grep (pattern : string) (file_pattern : option string) : W json :=
  x ← index_now;
  rels ← lift_result (_match_paths (Some (or_str file_pattern "**/*")) x);
  mret (grep_in x pattern rels).

Definition symbol_kind (k : option string) : kind := if bool_decide (k = Some "class") then Classes else Functions.
Definition find_in (x : index) (name : string) (k file_pattern : option string) : result json :=
  let rows := default [] (dget name (get_table (symbol_kind k) x)) in
  rows ← match file_pattern with
         | None | Some EmptyString => Ok rows
         | Some p => allowed ← _match_paths (Some p) x; Ok (List.filter (fun r => mem r allowed) rows)
         end;
  Ok (JObj [("ok", JBool true); ("from_index", JBool true); ("symbol", JStr name);
            ("symbol_kind", match k with None => JNull | Some k => JStr k end);
            ("n_hits", JInt (Z.of_nat (length rows))); ("hits", JArr (row_json <$> take 64 rows))]).
Definition _find_symbol (name : string) (k file_pattern : option string) : W json :=
  x ← index_now; lift_result (find_in x name k file_pattern).

(** [kwargs.get("rel") in files] *)
Definition has_file (rel : json) (x : index) : result bool :=
  k ← hash_key rel; Ok match k with KStr s => dhas s (get_files x) | _ => false end.
Definition _call (fuel : nat) (method : string) (kwargs : json) : W json :=
  if bool_decide (method = "build") then r ← lift_result (arg_or kwargs "root" "/testbed"); _build fuel r
  else if bool_decide (method = "status") then _status
  else if bool_decide (method = "snapshot") then id ← lift_result (arg_or kwargs "snapshot_id" ""); _snapshot id
  else if bool_decide (method = "restore_snapshot") then id ← lift_result (arg_or kwargs "snapshot_id" ""); _restore_snapshot id
  else if bool_decide (method = "resolve_rel") then
    path ← lift_result (arg_or kwargs "path" ""); r ← lift_result (v ← pget kwargs "root"; opt_arg v);
    p ← _resolve_rel path r; mret (JObj [("full", JStr p.1); ("rel", JStr p.2)])
  else if bool_decide (method = "match_paths") then
    p ← lift_result (v ← pget kwargs "file_pattern"; opt_arg v);
    x ← index_now; l ← lift_result (_match_paths p x); mret (JObj [("matches", JArr (JStr <$> l))])
  else if bool_decide (method = "has_file") then
    x ← index_now; b ← lift_result (v ← pget kwargs "rel"; has_file v x); mret (JObj [("exists", JBool b)])
  else if bool_decide (method = "refresh_path") then
    path ← lift_result (arg_or kwargs "path" ""); r ← lift_result (v ← pget kwargs "root"; opt_arg v); _refresh_path path r
  else if bool_decide (method = "grep") then
    pattern ← lift_result (arg_or kwargs "pattern" ""); p ← lift_result (v ← pget kwargs "file_pattern"; opt_arg v); _grep pattern p
  else if bool_decide (method = "find_symbol") then
    name ← lift_result (arg_or kwargs "name" ""); k ← lift_result (v ← pget kwargs "symbol_kind"; opt_arg v);
    p ← lift_result (v ← pget kwargs "file_pattern"; opt_arg v); _find_symbol name k p
  else mraise ValueError "unsupported method".

(** The requests of a client, one after the other; a request that raises is
    answered with the error, and the process goes on. *)
Fixpoint serve (fuel : nat) (reqs : list (string * json)) (s : S * X) : list (result json) * (S * X) :=
  match reqs with
  | [] => ([], s)
  | (method, kwargs) :: reqs =>
      let '(r, s) := _call fuel method kwargs s in let '(rs, s) := serve fuel reqs s in (r :: rs, s)
  end.

(** ** The index inside the agent

    Without a sidecar the agent keeps the index itself, with the same code for
    [remove], [add] and [_index_one]; there are no snapshots, its memory is part
    of the checkpoint. *)

Definition _worker_abspath (path r : string) : result string :=
  let rel := if bool_decide (path = "") || startswith path "/" then lstrip_slash path else path in
  let full := abspath cfg (path_join r rel) in
  let root_abs := abspath cfg r in
  if negb (bool_decide (full = root_abs)) && negb (startswith full (root_abs +:+ "/")) then raise ValueError "path escapes worker root"
  else Ok full.
Definition _worker_relpath (path r : string) : result string :=
  full ← _worker_abspath path r; Ok (os_relpath cfg full (abspath cfg r)).
Definition _worker_index_refresh_path (path r : string) : W unit :=
  rel ← lift_result (_worker_relpath path r);
  _ ← set_locals (remove rel);
  full ← lift_result (_worker_abspath path r);
  there ← on_host (exists_ full);
  if (there : bool) then full ← lift_result (_worker_abspath path r); _ ← _index_one full r; mret tt else mret tt.
Definition _worker_index_grep (pattern : string) (file_pattern : option string) : W json :=
  x ← index_now; rels ← lift_result (_match_paths file_pattern x); mret (grep_in x pattern rels).
Definition _worker_index_find_symbol (name : string) (k file_pattern : option string) : W json :=
  x ← index_now; lift_result (find_in x name k file_pattern).
End handlers.
End CodeIndex.
