(* ===== verification/CodeIndexStore.v ===== *)
(** * The store of the code index

    The tables of the index are objects that snapshots share.  [becomes]: an
    operation on tables that no snapshot refers to changes the current index as
    it should and nothing below it; [related]: the store and an index whose
    snapshots are values mean the same; [detached]: moreover the current tables
    are in no snapshot, which [_cow_for_update] brings about. *)

From S2P Require Import Prelude Hoare PyStr PyDict Json PyText CodeIndex.
From Stdlib Require Import Ascii.

Module CodeIndexStore.
Import CodeIndex.

(** ** Dictionaries of locations *)

Lemma dvals_dset {V} (k : string) (v : V) d : dvals (dset k v d) ⊆+ v :: dvals d.
Proof.
  unfold dvals. induction d as [|[k' v'] d IH]; cbn; [done|]. case_decide; cbn.
  - apply submseteq_skip, submseteq_cons. done.
  - rewrite Permutation_swap. by apply submseteq_skip.
Qed.
Lemma dvals_dpop {V} (k : string) (d : list (string * V)) : dvals (dpop k d) ⊆+ dvals d.
Proof.
  unfold dvals, dpop. induction d as [|[k' v'] d IH]; cbn; [done|]. case_bool_decide; cbn; [by apply submseteq_skip|by apply submseteq_cons].
Qed.
Lemma dget_dvals {V} (k : string) (d : list (string * V)) v : dget k d = Some v → v ∈ dvals d.
Proof. intros H%dget_Some_elem. unfold dvals. apply list_elem_of_fmap. by exists (k, v). Qed.
Lemma NoDup_sub {V} (l k m : list V) : l ⊆+ k → NoDup (k ++ m) → NoDup (l ++ m).
Proof.
  intros Hs Hn. assert (l ++ m ⊆+ k ++ m) as Hsub by (by apply submseteq_app). clear Hs.
  apply submseteq_Permutation in Hsub as [r Hr]. rewrite Hr in Hn. by apply NoDup_app in Hn as [? _].
Qed.
Lemma dmap_ext {V W} (f g : V → W) (d : list (string * V)) : (∀ v, v ∈ dvals d → f v = g v) → dmap f d = dmap g d.
Proof.
  unfold dmap, dvals. induction d as [|[k v] d IH]; intros H; [done|]. cbn. f_equal.
  - f_equal. apply H. left.
  - apply IH. intros w Hw. apply H. by right.
Qed.
Lemma dmap_alter {V W} (f g : V → W) (d : list (string * V)) k v :
  NoDup (dvals d) → dget k d = Some v → (∀ w, w ∈ dvals d → w ≠ v → g w = f w) → dmap g d = dset k (g v) (dmap f d).
Proof.
  unfold dmap, dvals. induction d as [|[k' v'] d IH]; cbn; [done|]. intros [Hn Hd]%NoDup_cons Hg Ho. case_decide.
  - injection Hg as ->. f_equal. apply dmap_ext. intros w Hw. apply Ho; [by right|]. intros ->. by apply Hn.
  - f_equal.
    + f_equal. apply Ho; [left|]. intros ->. apply Hn. by eapply dget_dvals.
    + apply IH; [done|done|]. intros w Hw. apply Ho. by right.
Qed.

Lemma dset_twice {V} (k : string) (v w : V) d : dset k v (dset k w d) = dset k v d.
Proof.
  induction d as [|[k' v'] d IH]; cbn; [by rewrite decide_True|]. case_decide; cbn; [by rewrite decide_True|]. rewrite decide_False by done. by f_equal.
Qed.

(** ** Sharing *)

Definition other (k : kind) : kind := match k with Classes => Functions | Functions => Classes end.

Section bounds.
Context (bf bs br : nat).
(** What [st] refers to lies below the bounds. *)
Definition bounded (s : side) (st : state) : Prop :=
  (∀ l, s_files st = Some l → l < bf) ∧
  ∀ k l, s_table k st = Some l → l < bs ∧ ∀ v, v ∈ dvals (symbols_at s l) → v < br.
(** Nothing below the bounds has changed. *)
Definition agree (s s' : side) : Prop :=
  (∀ l, l < bf → file_dicts s' !! l = file_dicts s !! l) ∧ (∀ l, l < bs → symbol_dicts s' !! l = symbol_dicts s !! l) ∧
  ∀ l, l < br → row_lists s' !! l = row_lists s !! l.
(** The current tables are above the bounds and apart from each other. *)
Record own (s : side) : Prop := {
  own_len : bf ≤ length (file_dicts s) ∧ bs ≤ length (symbol_dicts s) ∧ br ≤ length (row_lists s);
  own_files : ∀ l, s_files (INDEX_STATE s) = Some l → bf ≤ l < length (file_dicts s);
  own_table : ∀ k l, s_table k (INDEX_STATE s) = Some l → bs ≤ l < length (symbol_dicts s) ∧ s_table (other k) (INDEX_STATE s) ≠ Some l;
  own_rows : ∀ k v, v ∈ dvals (cur_table k s) → br ≤ v < length (row_lists s);
  own_apart : ∀ k, NoDup (dvals (cur_table k s) ++ dvals (cur_table (other k) s))
}.
Definition now (s : side) : index := view s (INDEX_STATE s).
Definition becomes (s s' : side) (x : index) : Prop :=
  own s' ∧ agree s s' ∧ INDEX_SNAPSHOTS s' = INDEX_SNAPSHOTS s ∧ now s' = x.

#[global] Instance agree_refl : Reflexive agree.
Proof. by intros s. Qed.
#[global] Instance agree_trans : Transitive agree.
Proof. intros s1 s2 s3 (A & B & C) (A' & B' & C'). split_and!; intros l Hl; [rewrite A', A|rewrite B', B|rewrite C', C]; done. Qed.
Lemma becomes_trans s s' s'' x y : becomes s s' x → becomes s' s'' y → becomes s s'' y.
Proof. intros (? & ? & ? & ?) (? & ? & ? & ?). split_and!; [done|by etrans|congruence|done]. Qed.
Lemma becomes_refl s : own s → becomes s s (now s).
Proof. intros H. split; [done|]. split; [apply agree_refl|done]. Qed.

Lemma view_frame s s' st : bounded s st → agree s s' → view s' st = view s st ∧ bounded s' st.
Proof.
  intros [Hf Ht] (Af & As & Ar). assert (∀ k l, s_table k st = Some l → symbols_at s' l = symbols_at s l) as Hs.
  { intros k l Hl. unfold symbols_at. rewrite As; [done|]. by eapply Ht. }
  assert (∀ k l, s_table k st = Some l → dmap (rows_at s') (symbols_at s' l) = dmap (rows_at s) (symbols_at s l)) as Hd.
  { intros k l Hl. rewrite (Hs k l Hl). apply dmap_ext. intros v Hv. unfold rows_at. rewrite Ar; [done|]. by eapply Ht. }
  split.
  - unfold view. f_equal.
    + destruct (s_files st) as [l|] eqn:E; [|done]. cbn. unfold files_at. rewrite Af; [done|]. by apply Hf.
    + destruct (s_classes st) as [l|] eqn:E; [|done]. cbn. f_equal. by apply (Hd Classes).
    + destruct (s_functions st) as [l|] eqn:E; [|done]. cbn. f_equal. by apply (Hd Functions).
  - split; [done|]. intros k l Hl. rewrite (Hs k l Hl). by apply Ht in Hl.
Qed.

Lemma get_table_view k s : get_table k (now s) = dmap (rows_at s) (cur_table k s).
Proof. unfold get_table, now, cur_table. destruct k; cbn; [by destruct (s_classes _)|by destruct (s_functions _)]. Qed.
Lemma get_files_view s : get_files (now s) = cur_files s.
Proof. done. Qed.

Lemma new_files_ok d s : own s → becomes s (new_files d s) (set_files d (now s)).
Proof.
  intros [(Lf & Ls & Lr) Hf Ht Hr Hn]. split_and!; [split|..]; cbn.
  - rewrite length_app. cbn. lia.
  - intros l [= <-]. rewrite length_app. cbn. lia.
  - intros []; [apply (Ht Classes)|apply (Ht Functions)].
  - intros []; [apply (Hr Classes)|apply (Hr Functions)].
  - intros []; [apply (Hn Classes)|apply (Hn Functions)].
  - split_and!; [|done|done]. intros l Hl. cbn. by rewrite lookup_app_l by lia.
  - done.
  - unfold now, view, set_files. cbn. f_equal. unfold files_at. cbn. by rewrite lookup_app_r, Nat.sub_diag by lia.
Qed.
Lemma put_files_ok d s : own s → is_Some (s_files (INDEX_STATE s)) → becomes s (put_files d s) (set_files d (now s)).
Proof.
  intros [(Lf & Ls & Lr) Hf Ht Hr Hn] [l El]. unfold put_files. rewrite El. pose proof (Hf l El). split_and!; [split|..]; cbn.
  - rewrite length_insert. lia.
  - intros ? [= <-]%(eq_trans (eq_sym El)). rewrite length_insert. lia.
  - intros []; [apply (Ht Classes)|apply (Ht Functions)].
  - intros []; [apply (Hr Classes)|apply (Hr Functions)].
  - intros []; [apply (Hn Classes)|apply (Hn Functions)].
  - split_and!; [|done|done]. intros l' Hl. cbn. by rewrite list_lookup_insert_ne by lia.
  - done.
  - unfold now, view, set_files. cbn. rewrite El. cbn. f_equal. f_equal. unfold files_at. cbn. by rewrite list_lookup_insert_eq by lia.
Qed.
Lemma set_table_view k d s s' l : INDEX_STATE s' = with_table k l (INDEX_STATE s) → file_dicts s' = file_dicts s →
  symbols_at s' l = d → cur_table (other k) s' = cur_table (other k) s →
  (∀ v, v ∈ dvals (cur_table (other k) s) → rows_at s' v = rows_at s v) →
  now s' = set_table k (dmap (rows_at s') d) (now s).
Proof.
  intros Est Ef Ed Eo Er. unfold now, view, set_table, files_at. rewrite Est, Ef.
  destruct k; cbn; rewrite Ed; f_equal; unfold cur_table in *; cbn in *.
  - destruct (s_functions (INDEX_STATE s)) as [l'|] eqn:E; [|done]. rewrite Est in Eo. cbn in *. f_equal.
    rewrite Eo. by apply dmap_ext.
  - destruct (s_classes (INDEX_STATE s)) as [l'|] eqn:E; [|done]. rewrite Est in Eo. cbn in *. f_equal.
    rewrite Eo. by apply dmap_ext.
Qed.

(** A table that can become the current one. *)
Definition fits (k : kind) (d : list (string * nat)) (s : side) : Prop :=
  NoDup (dvals d ++ dvals (cur_table (other k) s)) ∧ ∀ v, v ∈ dvals d → br ≤ v < length (row_lists s).
Lemma other_other k : other (other k) = k.
Proof. by destruct k. Qed.
Lemma other_ne k : other k ≠ k.
Proof. by destruct k. Qed.
Lemma s_table_with k l st : s_table k (with_table k l st) = Some l ∧ s_table (other k) (with_table k l st) = s_table (other k) st.
Proof. by destruct k. Qed.
Lemma other_cases k k' : k' = k ∨ k' = other k.
Proof. destruct k, k'; auto. Qed.
Lemma own_set_table k l d s s' : own s → fits k d s → bs ≤ l < length (symbol_dicts s') → s_table (other k) (INDEX_STATE s) ≠ Some l →
  INDEX_STATE s' = with_table k l (INDEX_STATE s) → file_dicts s' = file_dicts s → row_lists s' = row_lists s →
  length (symbol_dicts s) ≤ length (symbol_dicts s') → symbols_at s' l = d →
  (∀ l', l' ≠ l → l' < length (symbol_dicts s) → symbols_at s' l' = symbols_at s l') →
  own s' ∧ now s' = set_table k (dmap (rows_at s) d) (now s).
Proof.
  intros [(Lf & Ls & Lr) Hf Ht Hr Hn] [Fn Fr] Hl Hne Est Ef Er Hlen Ed Hs. destruct (s_table_with k l (INDEX_STATE s)) as [Tk To].
  assert (cur_table k s' = d) as Ck by (unfold cur_table; rewrite Est, Tk; done).
  assert (cur_table (other k) s' = cur_table (other k) s) as Co.
  { unfold cur_table. rewrite Est, To. destruct (s_table (other k) (INDEX_STATE s)) as [l'|] eqn:E; [|done]. cbn. apply Hs; [congruence|].
    by apply (Ht _ _ E). }
  assert (∀ v, rows_at s' v = rows_at s v) as Hrows by (intros v; unfold rows_at; by rewrite Er).
  split; [split|].
  - rewrite Ef, Er. lia.
  - intros l' H. rewrite Ef. apply Hf. rewrite Est in H. by destruct k.
  - intros k' l' H. rewrite Est in H |- *. destruct (other_cases k k') as [->| ->].
    + rewrite Tk in H. injection H as <-. by rewrite To.
    + rewrite To in H. rewrite other_other, Tk. pose proof (Ht _ _ H). split; [lia|]. intros [= ->]. done.
  - intros k' v Hv. rewrite Er. destruct (other_cases k k') as [->| ->]; [rewrite Ck in Hv; by apply Fr|rewrite Co in Hv; by eapply Hr].
  - intros k'. destruct (other_cases k k') as [->| ->]; [by rewrite Ck, Co|]. rewrite other_other, Ck, Co. by rewrite (comm (++)).
  - rewrite (set_table_view k d s s' l); try done. f_equal. by apply dmap_ext.
Qed.
Lemma new_table_ok k d s : own s → fits k d s → becomes s (new_table k d s) (set_table k (dmap (rows_at s) d) (now s)).
Proof.
  intros Ho Hfit. pose proof Ho as [(Lf & Ls & Lr) Hf Ht Hr Hn].
  destruct (own_set_table k (length (symbol_dicts s)) d s (new_table k d s)) as [? ?]; try done; cbn.
  - rewrite length_app. cbn. lia.
  - intros H. apply Ht in H. lia.
  - rewrite length_app. lia.
  - unfold symbols_at. cbn. by rewrite lookup_app_r, Nat.sub_diag by lia.
  - intros l' _ Hl'. unfold symbols_at. cbn. by rewrite lookup_app_l by lia.
  - split_and!; [done| |done|done]. split_and!; [done| |done]. intros l Hl. cbn. by rewrite lookup_app_l by lia.
Qed.
Lemma put_table_ok k d s : own s → is_Some (s_table k (INDEX_STATE s)) → fits k d s →
  becomes s (put_table k d s) (set_table k (dmap (rows_at s) d) (now s)).
Proof.
  intros Ho [l El] Hfit. pose proof Ho as [(Lf & Ls & Lr) Hf Ht Hr Hn]. destruct (Ht _ _ El) as [Hl Hne].
  unfold put_table. rewrite El. set (s' := Side _ _ _ _ _).
  destruct (own_set_table k l d s s') as [? ?]; try done; cbn.
  - by rewrite length_insert.
  - destruct (INDEX_STATE s), k; cbn in El; by subst.
  - rewrite length_insert. lia.
  - unfold symbols_at. cbn. by rewrite list_lookup_insert_eq by lia.
  - intros l' Hl' _. unfold symbols_at. cbn. by rewrite list_lookup_insert_ne by done.
  - split_and!; [done| |done|done]. split_and!; [done| |done]. intros l' Hl'. cbn. by rewrite list_lookup_insert_ne by lia.
Qed.

Lemma new_rows_ok rows s : own s → let s' := (new_rows rows s).2 in
  becomes s s' (now s) ∧ rows_at s' (length (row_lists s)) = rows ∧ ∀ k, cur_table k s' = cur_table k s.
Proof.
  intros [(Lf & Ls & Lr) Hf Ht Hr Hn]. cbn.
  assert (∀ v, v < length (row_lists s) → rows_at (new_rows rows s).2 v = rows_at s v) as Hv.
  { intros v Hv. unfold rows_at. cbn. by rewrite lookup_app_l. }
  split_and!; [split_and!; [split|..]|..]; cbn; try done.
  - rewrite length_app. lia.
  - intros k v H. rewrite length_app. specialize (Hr k v H). lia.
  - split_and!; [done|done|]. intros l Hl. cbn. by rewrite lookup_app_l by lia.
  - unfold now, view. cbn. f_equal.
    + destruct (s_classes (INDEX_STATE s)) as [l|] eqn:E; [|done]. cbn. f_equal. apply dmap_ext. intros v Hin. apply Hv. apply (Hr Classes).
      unfold cur_table. cbn. by rewrite E.
    + destruct (s_functions (INDEX_STATE s)) as [l|] eqn:E; [|done]. cbn. f_equal. apply dmap_ext. intros v Hin. apply Hv. apply (Hr Functions).
      unfold cur_table. cbn. by rewrite E.
  - unfold rows_at. cbn. by rewrite lookup_app_r, Nat.sub_diag by lia.
Qed.

Lemma becomes_own s s' x : becomes s s' x → own s'.
Proof. by intros [? _]. Qed.
Lemma fits_dpop k name s : own s → fits k (dpop name (cur_table k s)) s.
Proof.
  intros [_ _ _ Hr Hn]. split; [eapply NoDup_sub; [apply dvals_dpop|done]|]. intros v Hv. apply (Hr k).
  eapply elem_of_submseteq; [done|apply dvals_dpop].
Qed.
(** A fresh list under a name. *)
Lemma fits_dset k name rows s : own s → let s' := (new_rows rows s).2 in
  fits k (dset name (length (row_lists s)) (cur_table k s')) s'.
Proof.
  intros Ho s'. destruct (new_rows_ok rows s Ho) as ((Ho' & _) & _ & Hc). fold s' in Ho', Hc. pose proof Ho as [(_ & _ & Lr) _ _ Hr Hn].
  split.
  - eapply NoDup_sub; [apply dvals_dset|]. rewrite !Hc. cbn. apply NoDup_cons. split; [|apply Hn].
    rewrite elem_of_app. intros [H|H]; apply Hr in H; lia.
  - intros v Hv. apply (elem_of_submseteq _ (length (row_lists s) :: dvals (cur_table k s'))) in Hv; [|apply dvals_dset].
    apply elem_of_cons in Hv as [->|Hv]; [cbn; rewrite length_app; cbn; lia|by apply (own_rows _ Ho' k)].
Qed.
Lemma remove_symbol_ok k rel s name : own s → is_Some (s_table k (INDEX_STATE s)) →
  becomes s (remove_symbol k rel s name) (set_table k (v_remove_symbol rel (get_table k (now s)) name) (now s)).
Proof.
  intros Ho Hk. unfold remove_symbol, v_remove_symbol. rewrite get_table_view, dget_dmap.
  set (rows := others rel _). destruct rows as [|r rows'] eqn:Er.
  - rewrite <- dmap_dpop. apply put_table_ok; [done|done|by apply fits_dpop].
  - rewrite <- Er. clear Er. destruct (new_rows_ok rows s Ho) as (H1 & Hrow & Hc). pose proof (becomes_own _ _ _ H1) as Ho1.
    pose proof (fits_dset k name rows s Ho) as Hfit. cbn zeta in *. set (s1 := (new_rows rows s).2) in *.
    change (let '(l, s) := new_rows rows s in put_table k (dset name l (cur_table k s)) s)
      with (put_table k (dset name (length (row_lists s)) (cur_table k s1)) s1).
    eapply becomes_trans; [exact H1|]. assert (now s1 = now s) as <- by apply H1. rewrite Hc in Hfit |- *.
    replace (dset name rows (dmap (rows_at s) (cur_table k s))) with (dmap (rows_at s1) (dset name (length (row_lists s)) (cur_table k s))).
    + by apply put_table_ok.
    + rewrite dmap_dset, Hrow. f_equal. apply dmap_ext. intros v Hv. apply (own_rows _ Ho k) in Hv.
      unfold rows_at, s1. cbn. by rewrite lookup_app_l by lia.
Qed.

Lemma with_table_same k l st : s_table k st = Some l → with_table k l st = st.
Proof. destruct st, k; cbn; by intros ->. Qed.
Lemma cur_table_Some k l s : s_table k (INDEX_STATE s) = Some l → cur_table k s = symbols_at s l.
Proof. unfold cur_table. by intros ->. Qed.
Lemma append_row_ok k name l rel s : own s → dget name (cur_table k s) = Some l →
  becomes s (append_row l rel s) (set_table k (dset name (rows_at s l ++ [rel]) (get_table k (now s))) (now s)).
Proof.
  intros Ho Hl. pose proof Ho as [(Lf & Ls & Lr) Hf Ht Hr Hn]. pose proof (dget_dvals _ _ _ Hl) as Hin. pose proof (Hr _ _ Hin) as Hlen.
  assert (∀ v, v ≠ l → rows_at (append_row l rel s) v = rows_at s v) as Hne.
  { intros v Hv. unfold rows_at. cbn. by rewrite list_lookup_alter_ne. }
  destruct (s_table k (INDEX_STATE s)) as [t|] eqn:Et; [|unfold cur_table in Hl; by rewrite Et in Hl].
  split_and!; [split|..]; cbn; try done.
  - rewrite length_alter. lia.
  - intros k' v Hv. rewrite length_alter. by eapply Hr.
  - split_and!; [done|done|]. intros v Hv. cbn. by rewrite list_lookup_alter_ne by lia.
  - rewrite (set_table_view k (cur_table k s) s _ t); cbn.
    + f_equal. rewrite get_table_view. erewrite dmap_alter; [..|exact Hl|intros w _ Hw; by apply Hne]; [|by specialize (Hn k); apply NoDup_app in Hn as [? _]].
      f_equal. unfold rows_at. cbn. rewrite list_lookup_alter_eq. destruct (lookup_lt_is_Some_2 (row_lists s) l) as [rows ->]; [lia|done].
    + by rewrite with_table_same.
    + done.
    + by rewrite (cur_table_Some _ _ _ Et).
    + done.
    + intros v Hv. apply Hne. intros ->. specialize (Hn k). apply NoDup_app in Hn as (_ & Hn & _). by eapply Hn.
Qed.

Lemma set_table_twice k d d' x : set_table k d (set_table k d' x) = set_table k d x.
Proof. by destruct k. Qed.
Lemma get_set_table k d x : get_table k (set_table k d x) = d.
Proof. by destruct k. Qed.
Lemma table_set_table k d x : table k (set_table k d x) = Some d.
Proof. by destruct k. Qed.
Lemma table_view k s : is_Some (table k (now s)) ↔ is_Some (s_table k (INDEX_STATE s)).
Proof. destruct k; cbn; [destruct (s_classes _)|destruct (s_functions _)]; cbn; split; intros []; eauto; done. Qed.
Lemma set_table_same k x : is_Some (table k x) → set_table k (get_table k x) x = x.
Proof. destruct k, x; intros [d Hd]; cbn in *; subst; done. Qed.
Lemma need_table_ok k s : own s → becomes s (need_table k s) (set_table k (get_table k (now s)) (now s)) ∧ is_Some (s_table k (INDEX_STATE (need_table k s))).
Proof.
  intros Ho. unfold need_table. destruct (s_table k (INDEX_STATE s)) as [l|] eqn:E.
  - rewrite E. split; [|done]. rewrite set_table_same by (apply table_view; by rewrite E). by apply becomes_refl.
  - split.
    + replace (get_table k (now s)) with (dmap (rows_at s) ([] : list (string * nat))) by (rewrite get_table_view; unfold cur_table; by rewrite E).
      apply new_table_ok; [done|]. pose proof Ho as [_ _ _ Hr Hn]. split; [specialize (Hn k); cbn; by apply NoDup_app in Hn as (_ & _ & ?)|].
      intros v Hv. by apply elem_of_nil in Hv.
    + cbn. destruct (s_table_with k (length (symbol_dicts s)) (INDEX_STATE s)) as [-> _]. done.
Qed.
Lemma add_symbol_ok k rel s name : own s →
  becomes s (add_symbol k rel s name) (set_table k (v_add_symbol rel (get_table k (now s)) name) (now s)) ∧
  is_Some (s_table k (INDEX_STATE (add_symbol k rel s name))).
Proof.
  intros Ho. cut (becomes s (add_symbol k rel s name) (set_table k (v_add_symbol rel (get_table k (now s)) name) (now s))).
  { intros H. split; [done|]. apply table_view. destruct H as (_ & _ & _ & ->). by rewrite table_set_table. }
  destruct (need_table_ok k s Ho) as [H0 Hsome]. unfold add_symbol. set (s0 := need_table k s) in *. pose proof (becomes_own _ _ _ H0) as Ho0.
  eapply becomes_trans; [exact H0|]. assert (now s0 = set_table k (get_table k (now s)) (now s)) as En by apply H0.
  assert (set_table k (v_add_symbol rel (get_table k (now s)) name) (now s) = set_table k (v_add_symbol rel (get_table k (now s0)) name) (now s0)) as ->.
  { by rewrite En, get_set_table, set_table_twice. }
  unfold v_add_symbol. destruct (dget name (cur_table k s0)) as [l|] eqn:El.
  - rewrite get_table_view, dget_dmap, El. cbn. rewrite <- get_table_view. by apply append_row_ok.
  - rewrite get_table_view, dget_dmap, El. change (default [] (rows_at s0 <$> None) ++ [rel]) with [rel]. rewrite <- get_table_view.
    destruct (new_rows_ok [] s0 Ho0) as (H1 & Hrow & Hc). pose proof (fits_dset k name [] s0 Ho0) as Hfit. cbn zeta in *.
    set (s1 := (new_rows [] s0).2) in *. change (length (row_lists s0)) with (new_rows [] s0).1 in *.
    set (l := (new_rows [] s0).1) in *. pose proof (becomes_own _ _ _ H1) as Ho1.
    assert (is_Some (s_table k (INDEX_STATE s1))) as Hs1 by done.
    change (let '(l0, s3) := new_rows [] s0 in append_row l0 rel (put_table k (dset name l0 (cur_table k s3)) s3))
      with (append_row l rel (put_table k (dset name l (cur_table k s1)) s1)). clearbody s1 l.
    pose proof (put_table_ok k _ s1 Ho1 Hs1 Hfit) as H2. set (s2 := put_table k (dset name l (cur_table k s1)) s1) in *.
    eapply becomes_trans; [exact H1|]. eapply becomes_trans; [exact H2|]. pose proof (becomes_own _ _ _ H2) as Ho2.
    assert (now s2 = set_table k (dmap (rows_at s1) (dset name l (cur_table k s1))) (now s1)) as E2 by apply H2.
    assert (now s1 = now s0) as E1 by apply H1.
    assert (row_lists s2 = row_lists s1) as Er by (unfold s2, put_table; by destruct (s_table k (INDEX_STATE s1))).
    assert (cur_table k s2 = dset name l (cur_table k s1)) as Ec.
    { unfold s2, put_table. destruct Hs1 as [t Et]. rewrite Et. unfold cur_table, symbols_at. cbn. rewrite Et. cbn.
      rewrite list_lookup_insert_eq; [done|]. destruct (own_table _ Ho1 _ _ Et). lia. }
    assert (dget name (cur_table k s2) = Some l) as Hg by (by rewrite Ec, dget_dset_eq).
    pose proof (append_row_ok k name l rel s2 Ho2 Hg) as H3. rewrite E2, get_set_table, set_table_twice in H3.
    rewrite dmap_dset, Hrow, <- get_table_view, E1 in H3.
    assert (rows_at s2 l = []) as Hl2 by (unfold rows_at; rewrite Er; exact Hrow). rewrite Hl2 in H3.
    cbn [app] in H3. rewrite dset_twice in H3. exact H3.
Qed.

Lemma becomes_eq s s' x y : becomes s s' x → x = y → becomes s s' y.
Proof. by intros ? <-. Qed.
Lemma remove_table_ok k rel e s : own s → becomes s (fold_left (remove_symbol k rel) (symbols k e) s) (v_remove_table rel e k (now s)).
Proof.
  intros Ho. unfold v_remove_table. destruct (table k (now s)) as [d|] eqn:Ed.
  - assert (is_Some (table k (now s))) as Hs by done. replace d with (get_table k (now s)) by (unfold get_table; by rewrite Ed). clear d Ed.
    generalize (symbols k e). intros names. revert s Ho Hs. induction names as [|n names IH]; intros s Ho Hs; cbn.
    + rewrite set_table_same by done. by apply becomes_refl.
    + pose proof (remove_symbol_ok k rel s n Ho (proj1 (table_view k s) Hs)) as H1. pose proof H1 as (Ho1 & _ & _ & E1).
      eapply becomes_trans; [exact H1|]. eapply becomes_eq; [apply IH; [done|by rewrite E1, table_set_table]|].
      by rewrite E1, get_set_table, set_table_twice.
  - assert (s_table k (INDEX_STATE s) = None) as En.
    { destruct (s_table k (INDEX_STATE s)) eqn:E; [|done]. assert (is_Some (table k (now s))) as [? ?] by (apply table_view; by rewrite E). congruence. }
    assert (∀ names, fold_left (remove_symbol k rel) names s = s) as ->; [|by apply becomes_refl].
    intros names. induction names as [|n names IH]; cbn; [done|]. unfold remove_symbol at 2, cur_table, put_table. by rewrite En.
Qed.
Lemma add_table_ok k rel e s : own s → becomes s (fold_left (add_symbol k rel) (symbols k e) s) (v_add_table rel e k (now s)).
Proof.
  intros Ho. unfold v_add_table. destruct (symbols k e) as [|n names]; [by apply becomes_refl|]. cbn.
  destruct (add_symbol_ok k rel s n Ho) as [H1 _]. eapply becomes_trans; [exact H1|]. pose proof H1 as (Ho1 & _ & _ & E1).
  set (x := set_table k (v_add_symbol rel (get_table k (now s)) n) (now s)) in *.
  assert (is_Some (table k (now (add_symbol k rel s n)))) as Hs by (by rewrite E1; unfold x; rewrite table_set_table).
  replace (v_add_symbol rel (get_table k (now s)) n) with (get_table k (now (add_symbol k rel s n))) by (rewrite E1; apply get_set_table).
  assert (∀ d, set_table k d (now s) = set_table k d (now (add_symbol k rel s n))) as Hset by (intros d; by rewrite E1; unfold x; rewrite set_table_twice).
  rewrite Hset. clear Hset E1 H1 x. revert Ho1 Hs. generalize (add_symbol k rel s n). clear s Ho n. induction names as [|n names IH]; intros s Ho Hs; cbn.
  - rewrite set_table_same by done. by apply becomes_refl.
  - destruct (add_symbol_ok k rel s n Ho) as [H1 _]. pose proof H1 as (Ho1 & _ & _ & E1).
    eapply becomes_trans; [exact H1|]. eapply becomes_eq; [apply IH; [done|by rewrite E1, table_set_table]|].
    by rewrite E1, get_set_table, set_table_twice.
Qed.
Lemma entry_removed_ok rel s : own s → becomes s (_remove rel s) (v_remove rel (now s)).
Proof.
  intros Ho. unfold _remove, v_remove. change (get_files (now s)) with (cur_files s). destruct (dget rel (cur_files s)) as [e|] eqn:E; [|by apply becomes_refl].
  assert (is_Some (s_files (INDEX_STATE s))) as Hf by (unfold cur_files in E; by destruct (s_files (INDEX_STATE s))).
  pose proof (put_files_ok (dpop rel (cur_files s)) s Ho Hf) as H1. pose proof H1 as (Ho1 & _ & _ & E1).
  pose proof (remove_table_ok Classes rel e _ Ho1) as H2. rewrite E1 in H2. pose proof H2 as (Ho2 & _ & _ & E2).
  pose proof (remove_table_ok Functions rel e _ Ho2) as H3. rewrite E2 in H3.
  eapply becomes_trans; [exact H1|]. eapply becomes_trans; [exact H2|exact H3].
Qed.
Lemma add_ok rel e s : own s → becomes s (add_entry rel e s) (v_add rel e (now s)).
Proof.
  intros Ho. unfold add_entry, v_add. set (s0 := match s_files (INDEX_STATE s) with Some _ => s | None => new_files [] s end).
  assert (becomes s s0 (set_files (get_files (now s)) (now s)) ∧ is_Some (s_files (INDEX_STATE s0))) as [H0 Hf].
  { unfold s0. destruct (s_files (INDEX_STATE s)) as [l|] eqn:El.
    - rewrite El. split; [|done]. eapply becomes_eq; [by apply becomes_refl|]. unfold set_files, get_files, now, view. cbn. by rewrite El.
    - split; [|done]. eapply becomes_eq; [by apply new_files_ok|]. unfold set_files, get_files, now, view. cbn. by rewrite El. }
  pose proof H0 as (Ho0 & _ & _ & E0).
  pose proof (put_files_ok (dset rel e (cur_files s0)) s0 Ho0 Hf) as H1. pose proof H1 as (Ho1 & _ & _ & E1).
  assert (now (put_files (dset rel e (cur_files s0)) s0) = set_files (dset rel e (get_files (now s))) (now s)) as Ex.
  { rewrite E1, <- get_files_view, E0. done. }
  pose proof (add_table_ok Classes rel e _ Ho1) as H2. pose proof H2 as (Ho2 & _ & _ & E2). rewrite Ex in H2, E2.
  pose proof (add_table_ok Functions rel e _ Ho2) as H3. rewrite E2 in H3.
  eapply becomes_trans; [exact H0|]. eapply becomes_trans; [exact H1|]. eapply becomes_trans; [exact H2|exact H3].
Qed.
Lemma set_state_ok s st : own s → s_files st = s_files (INDEX_STATE s) → (∀ k, s_table k st = s_table k (INDEX_STATE s)) →
  becomes s (set_state st s) (view s st).
Proof.
  intros [Hl Hf Ht Hr Hn] Ef Et. assert (∀ k, cur_table k (set_state st s) = cur_table k s) as Hc by (intros k; unfold cur_table; cbn; by rewrite Et).
  split_and!; [split|..]; cbn; try done.
  - intros l. rewrite Ef. apply Hf.
  - intros k l. rewrite !Et. apply Ht.
  - intros k v. rewrite Hc. apply Hr.
  - intros k. rewrite !Hc. apply Hn.
Qed.
End bounds.

(** ** The relation *)

Definition bounded_here (s : side) (st : state) : Prop :=
  bounded (length (file_dicts s)) (length (symbol_dicts s)) (length (row_lists s)) s st.
(** The state of the code, and the one whose snapshots are values. *)
Record related (s : side) (p : plain) : Prop := {
  r_current : now s = p_current p;
  r_saved : dmap (view s) (INDEX_SNAPSHOTS s) = p_saved p;
  r_bounded : ∀ st, st = INDEX_STATE s ∨ st ∈ dvals (INDEX_SNAPSHOTS s) → bounded_here s st
}.
(** Moreover the current tables are in no snapshot. *)
Definition detached (s : side) (p : plain) : Prop :=
  related s p ∧ ∃ bf bs br, own bf bs br s ∧ ∀ st, st ∈ dvals (INDEX_SNAPSHOTS s) → bounded bf bs br s st.

Lemma bounded_mono bf bs br bf' bs' br' s st : bf ≤ bf' → bs ≤ bs' → br ≤ br' → bounded bf bs br s st → bounded bf' bs' br' s st.
Proof.
  intros ? ? ? [Hf Ht]. split; [intros l Hl; specialize (Hf l Hl); lia|]. intros k l Hl. destruct (Ht k l Hl) as [? Hv]. split; [lia|].
  intros v H'. specialize (Hv v H'). lia.
Qed.
Lemma own_bounded bf bs br s : own bf bs br s → bounded_here s (INDEX_STATE s).
Proof.
  intros [Hl Hf Ht Hr _]. split; [intros l H; specialize (Hf l H); lia|]. intros k l H. split; [destruct (Ht k l H); lia|]. intros v Hv. apply (Hr k).
  by rewrite (cur_table_Some _ _ _ H).
Qed.
Lemma saved_kept bf bs br s s' p : related s p → (∀ st, st ∈ dvals (INDEX_SNAPSHOTS s) → bounded bf bs br s st) →
  agree bf bs br s s' → INDEX_SNAPSHOTS s' = INDEX_SNAPSHOTS s →
  dmap (view s') (INDEX_SNAPSHOTS s') = p_saved p ∧ ∀ st, st ∈ dvals (INDEX_SNAPSHOTS s') → bounded bf bs br s' st.
Proof.
  intros [_ Hs _] Hb Ha ->. rewrite <- Hs. split.
  - apply dmap_ext. intros st Hst. by eapply view_frame, Ha; apply Hb.
  - intros st Hst. by eapply view_frame, Ha; apply Hb.
Qed.
Lemma detach bf bs br s s' p x : related s p → (∀ st, st ∈ dvals (INDEX_SNAPSHOTS s) → bounded bf bs br s st) →
  becomes bf bs br s s' x → detached s' (Plain x (p_saved p)).
Proof.
  intros Hr Hb (Ho & Ha & Hs & Hx). destruct (saved_kept _ _ _ _ _ _ Hr Hb Ha Hs) as [Hv Hb'].
  split; [split; [done|done|]|by exists bf, bs, br]. intros st [->|Hst]; [by eapply own_bounded|].
  destruct (own_len _ _ _ _ Ho) as (? & ? & ?). by eapply bounded_mono, Hb'.
Qed.
Lemma detached_step (f : side → side) (g : index → index) :
  (∀ bf bs br s, own bf bs br s → becomes bf bs br s (f s) (g (now s))) → ∀ s p, detached s p → detached (f s) (on_current g p).
Proof.
  intros H s p [Hr (bf & bs & br & Ho & Hb)]. pose proof (r_current _ _ Hr) as Hc. unfold on_current. rewrite <- Hc.
  eapply detach; [done|exact Hb|by apply H].
Qed.

Lemma copy_rows_ok d : ∀ s, let '(d', s') := copy_rows d s in
  file_dicts s' = file_dicts s ∧ symbol_dicts s' = symbol_dicts s ∧ INDEX_STATE s' = INDEX_STATE s ∧ INDEX_SNAPSHOTS s' = INDEX_SNAPSHOTS s ∧
  dvals d' = seq (length (row_lists s)) (length d) ∧
  ∃ m, row_lists s' = row_lists s ++ m ∧ length m = length d ∧
  ((∀ v, v ∈ dvals d → v < length (row_lists s)) → dmap (rows_at s') d' = dmap (rows_at s) d).
Proof.
  induction d as [|[k l] d IH]; intros s; cbn.
  { split_and!; try done. exists []. by rewrite app_nil_r. }
  set (s1 := Side _ _ _ _ _). specialize (IH s1). destruct (copy_rows d s1) as [d' s'].
  destruct IH as (Ef & Es & Est & Esn & Ev & m & Er & Hm & Hd). cbn in *. split_and!; try done.
  - unfold dvals in *. cbn. rewrite Ev, length_app. cbn. f_equal. f_equal. lia.
  - exists (rows_at s l :: m). rewrite Er, <- app_assoc. cbn. split_and!; [done|by rewrite Hm|]. intros Hv. f_equal.
    + f_equal. unfold rows_at at 1. rewrite Er, <- app_assoc, lookup_app_r, Nat.sub_diag by lia. done.
    + change (dmap (rows_at s') d' = dmap (rows_at s) d). rewrite Hd.
      * apply dmap_ext. intros v Hin. unfold rows_at, s1. cbn. rewrite lookup_app_l; [done|]. apply Hv. by right.
      * intros v Hin. rewrite length_app. assert (v < length (row_lists s)) by (apply Hv; by right). lia.
Qed.

Notation here P s := (P (length (file_dicts s)) (length (symbol_dicts s)) (length (row_lists s))).
Lemma related_bounded s p : related s p → ∀ st, st ∈ dvals (INDEX_SNAPSHOTS s) → bounded_here s st.
Proof. intros H st Hst. apply (r_bounded _ _ H). by right. Qed.
Lemma own_bare s st : s_files st = None → (∀ k, s_table k st = None) → here own s (set_state st s).
Proof.
  intros Hf Ht. assert (∀ k, cur_table k (set_state st s) = []) as Hc by (intros k; unfold cur_table; cbn; by rewrite Ht).
  split; cbn; [done|by rewrite Hf|intros k l; by rewrite Ht|intros k v; rewrite Hc; by intros ?%elem_of_nil|intros k; rewrite !Hc; constructor].
Qed.
Lemma fits_nil bf bs br k s : own bf bs br s → fits br k [] s.
Proof.
  intros [_ _ _ _ Hn]. split; [specialize (Hn k); cbn; by apply NoDup_app in Hn as (_ & _ & ?)|]. by intros v ?%elem_of_nil.
Qed.
Lemma fresh_ok r s p : related s p → detached (fresh_state r s) (on_current (fun _ => v_fresh r) p).
Proof.
  intros Hr. eapply (detach _ _ _ s); [done|exact (related_bounded _ _ Hr)|]. unfold fresh_state.
  set (st := State _ _ _ _ _ _). set (s0 := set_state st s).
  assert (here own s s0) as H0 by (apply own_bare; [done|by intros []]).
  pose proof (new_files_ok _ _ _ [] s0 H0) as H1. pose proof H1 as (Ho1 & _ & _ & E1).
  pose proof (new_table_ok _ _ _ Classes [] _ Ho1 (fits_nil _ _ _ _ _ Ho1)) as H2. pose proof H2 as (Ho2 & _ & _ & E2).
  pose proof (new_table_ok _ _ _ Functions [] _ Ho2 (fits_nil _ _ _ _ _ Ho2)) as H3.
  destruct (becomes_trans _ _ _ _ _ _ _ _ H1 (becomes_trans _ _ _ _ _ _ _ _ H2 H3)) as (? & ? & ? & E). split_and!; [done..|].
  rewrite E, E2, E1. done.
Qed.

Lemma view_unloaded s st : loaded (view s st) = false → s_files st = None ∧ (∀ k, s_table k st = None) ∧ view s st = unloaded.
Proof.
  destruct st as [r f c g t u]. unfold loaded, view. cbn. destruct r, f, c, g, t, u; cbn; intros H; try done. split_and!; [done|by intros []|done].
Qed.
(** New tables at the end of the store. *)
Lemma layout_becomes s s' f d1 d2 m r n t :
  file_dicts s' = file_dicts s ++ [f] → symbol_dicts s' = symbol_dicts s ++ [d1; d2] → row_lists s' = row_lists s ++ m →
  INDEX_SNAPSHOTS s' = INDEX_SNAPSHOTS s →
  INDEX_STATE s' = State r (Some (length (file_dicts s))) (Some (length (symbol_dicts s))) (Some (Datatypes.S (length (symbol_dicts s)))) n t →
  NoDup (dvals d1 ++ dvals d2) → (∀ v, v ∈ dvals d1 ++ dvals d2 → length (row_lists s) ≤ v < length (row_lists s')) →
  here becomes s s s' (Index r (Some f) (Some (dmap (rows_at s') d1)) (Some (dmap (rows_at s') d2)) n t).
Proof.
  intros F S R Sn St Hnd Hv.
  assert (symbols_at s' (length (symbol_dicts s)) = d1 ∧ symbols_at s' (Datatypes.S (length (symbol_dicts s))) = d2) as [A1 A2].
  { unfold symbols_at. rewrite S. split; [by rewrite lookup_app_r, Nat.sub_diag by lia|].
    rewrite lookup_app_r by lia. by replace (Datatypes.S _ - _) with 1 by lia. }
  assert (cur_table Classes s' = d1) as C1 by (unfold cur_table; rewrite St; exact A1).
  assert (cur_table Functions s' = d2) as C2 by (unfold cur_table; rewrite St; exact A2).
  split_and!; [split|..].
  - rewrite F, S, R, !length_app. lia.
  - intros l. rewrite St, F, length_app. cbn. intros [= <-]. lia.
  - intros [] l; rewrite St, S, length_app; cbn; intros [= <-]; (split; [lia|]); intros [=]; lia.
  - intros [] v; rewrite ?C1, ?C2; intros Hin; apply Hv, elem_of_app; auto.
  - intros []; [change (other Classes) with Functions|change (other Functions) with Classes]; rewrite C1, C2; [done|by rewrite (comm (++))].
  - split_and!; intros l H; [rewrite F|rewrite S|rewrite R]; by rewrite lookup_app_l by lia.
  - exact Sn.
  - unfold now, view. rewrite St. cbn. rewrite A1, A2. f_equal. unfold files_at. by rewrite F, lookup_app_r, Nat.sub_diag by lia.
Qed.
Lemma cow_becomes s p : related s p → loaded (now s) = true → here becomes s s (_cow_for_update s) (v_cow (now s)).
Proof.
  intros Hr Hl. unfold _cow_for_update, v_cow. change (view s (INDEX_STATE s)) with (now s). rewrite Hl. cbn [negb].
  destruct (r_bounded _ _ Hr (INDEX_STATE s) (or_introl eq_refl)) as [_ Ht].
  unfold cow_table. set (s1 := new_files (cur_files s) s).
  assert (∀ k, cur_table k s1 = cur_table k s) as C1 by (by intros []).
  assert (∀ k v, v ∈ dvals (cur_table k s) → v < length (row_lists s)) as Hrow.
  { intros k v. unfold cur_table. destruct (s_table k (INDEX_STATE s)) as [l|] eqn:E; [apply (Ht k l E)|by intros ?%elem_of_nil]. }
  pose proof (copy_rows_ok (cur_table Classes s1) s1) as H1. destruct (copy_rows (cur_table Classes s1) s1) as [d1 s2].
  destruct H1 as (F1 & S1 & St1 & Sn1 & V1 & m1 & R1 & M1 & D1). rewrite (C1 Classes) in *. cbn in F1, S1, St1, Sn1, R1.
  set (s3 := new_table Classes d1 s2). assert (cur_table Functions s3 = cur_table Functions s) as C3.
  { unfold cur_table, s3. cbn. rewrite St1. cbn. destruct (s_functions (INDEX_STATE s)) as [l|] eqn:E; [|done]. cbn. unfold symbols_at. cbn.
    rewrite S1, lookup_app_l; [done|]. by apply (Ht Functions). }
  pose proof (copy_rows_ok (cur_table Functions s3) s3) as H2. destruct (copy_rows (cur_table Functions s3) s3) as [d2 s4].
  destruct H2 as (F2 & S2 & St2 & Sn2 & V2 & m2 & R2 & M2 & D2). rewrite C3 in *. cbn in F2, S2, St2, Sn2, R2.
  rewrite <- M1 in V1. rewrite <- M2 in V2. change (row_lists s1) with (row_lists s) in V1, D1. change (row_lists s3) with (row_lists s2) in V2, D2.
  change (rows_at s1) with (rows_at s) in D1. change (rows_at s3) with (rows_at s2) in D2.
  rewrite R1, length_app in V2. rewrite R1, <- app_assoc in R2. rewrite St1, S1 in St2. set (s5 := new_table Functions d2 s4).
  assert (dmap (rows_at s5) d1 = get_table Classes (now s)) as <-.
  { rewrite get_table_view, <- D1 by (intros v Hv; by apply (Hrow Classes)). apply dmap_ext. intros v Hv. rewrite V1 in Hv. apply elem_of_seq in Hv.
    unfold rows_at. cbn. rewrite R1, R2, app_assoc. by rewrite lookup_app_l by (rewrite length_app; lia). }
  assert (dmap (rows_at s5) d2 = get_table Functions (now s)) as <-.
  { rewrite get_table_view. change (rows_at s5) with (rows_at s4). rewrite D2 by (intros v Hv; rewrite R1, length_app; apply Hrow in Hv; lia).
    apply dmap_ext. intros v Hv. unfold rows_at. rewrite R1. rewrite lookup_app_l; [done|]. by apply (Hrow Functions). }
  apply (layout_becomes s s5 (cur_files s) d1 d2 (m1 ++ m2)); cbn; [by rewrite F2, F1|by rewrite S2, S1, <- app_assoc|done|by rewrite Sn2, Sn1|..].
  - rewrite St2, S2, S1, length_app. cbn. f_equal. f_equal. lia.
  - rewrite V1, V2, <- seq_app. apply NoDup_seq.
  - intros v. rewrite V1, V2, <- seq_app, R2, !length_app, elem_of_seq. lia.
Qed.
Lemma cow_ok s p : related s p → detached (_cow_for_update s) (on_current v_cow p).
Proof.
  intros Hr. unfold on_current. rewrite <- (r_current _ _ Hr). destruct (loaded (now s)) eqn:Hl.
  - eapply (detach _ _ _ s); [done|exact (related_bounded _ _ Hr)|by eapply cow_becomes].
  - unfold _cow_for_update, v_cow. change (view s (INDEX_STATE s)) with (now s). rewrite Hl. cbn [negb].
    destruct (view_unloaded _ _ Hl) as (Ef & Et & _). eapply (detach _ _ _ s); [done|exact (related_bounded _ _ Hr)|]. apply becomes_refl.
    by destruct s; apply (own_bare (Side _ _ _ _ _) _ Ef Et).
Qed.
End CodeIndexStore.
