(* ===== verification/CodeIndexSpec.v ===== *)
(** * What the code index guarantees

    Sharing cannot be seen: the sidecar answers as one that copies the whole
    index at every snapshot and restore.  Over values the rest is simple:
    snapshots come back as they were, and the symbols an index tells are the
    ones of the files it holds.  The index inside the agent gives the same. *)

From S2P Require Import Prelude Hoare PyStr PyDict Json PyText Driver CodeIndex CodeIndexStore.
From Stdlib Require Import Ascii.

Module CodeIndexSpec.
Import CodeIndex CodeIndexStore.

(** ** The handlers *)

Section simulation.
Context {X : Type} {disk : Disk X} {lang : Lang} (cfg : settings).

(** The same answer, the same effects outside, and related states. *)
Definition sim {A} (P Q : side → plain → Prop) (m1 : M (side * X) A) (m2 : M (plain * X) A) : Prop :=
  ∀ s p x, P s p → ∃ r s' p' x', m1 (s, x) = (r, (s', x')) ∧ m2 (p, x) = (r, (p', x')) ∧ Q s' p'.
Lemma sim_weaken {A} (P P' Q Q' : side → plain → Prop) (m1 : M (side * X) A) m2 :
  (∀ s p, P' s p → P s p) → (∀ s p, Q s p → Q' s p) → sim P Q m1 m2 → sim P' Q' m1 m2.
Proof. intros HP HQ H s p x HP'. destruct (H s p x (HP _ _ HP')) as (r & s' & p' & x' & ? & ? & ?). exists r, s', p', x'. auto. Qed.
Lemma sim_bind {A B} (P Q T : side → plain → Prop) (m1 : M (side * X) A) m2 (k1 : A → M (side * X) B) k2 :
  (∀ s p, Q s p → T s p) → sim P Q m1 m2 → (∀ a, sim Q T (k1 a) (k2 a)) → sim P T (m1 ≫= k1) (m2 ≫= k2).
Proof.
  intros HQT Hm Hk s p x HP. destruct (Hm s p x HP) as ([a|e] & s' & p' & x' & E1 & E2 & HQ); unfold mbind, M_bind; rewrite E1, E2.
  - by apply Hk.
  - exists (Err e), s', p', x'. auto.
Qed.
Lemma sim_ret {A} (P : side → plain → Prop) (a : A) : sim P P (mret a) (mret a).
Proof. intros s p x HP. by exists (Ok a), s, p, x. Qed.
Lemma sim_throw {A} (P : side → plain → Prop) e : sim (A:=A) P P (mthrow e) (mthrow e).
Proof. intros s p x HP. by exists (Err e), s, p, x. Qed.
Lemma sim_raise {A} (P : side → plain → Prop) c msg : sim (A:=A) P P (mraise c msg) (mraise c msg).
Proof. intros s p x HP. by exists (Err (Exn c msg)), s, p, x. Qed.
Lemma sim_lift {A} (P : side → plain → Prop) (r : result A) : sim P P (lift_result r) (lift_result r).
Proof. intros s p x HP. by exists r, s, p, x. Qed.
Lemma sim_host {A} (P : side → plain → Prop) (m : M X A) : sim P P (on_host m) (on_host m).
Proof. intros s p x HP. unfold on_host. cbn. destruct (m x) as [r x']. by exists r, s, p, x'. Qed.
Lemma sim_catch {A} (P : side → plain → Prop) (m1 : M (side * X) A) m2 h1 h2 :
  sim P P m1 m2 → (∀ e, sim P P (h1 e) (h2 e)) → sim P P (mcatch m1 h1) (mcatch m2 h2).
Proof.
  intros Hm Hh s p x HP. destruct (Hm s p x HP) as ([a|e] & s' & p' & x' & E1 & E2 & HQ); unfold mcatch; rewrite E1, E2.
  - by exists (Ok a), s', p', x'.
  - by apply Hh.
Qed.
Lemma sim_set (P Q : side → plain → Prop) f g : (∀ s p, P s p → Q (f s) (g p)) → sim P Q (set_locals f) (set_locals g).
Proof. intros H s p x HP. exists (Ok tt), (f s), (g p), x. split_and!; [done|done|auto]. Qed.
Lemma detached_related s p : detached s p → related s p.
Proof. by intros [? _]. Qed.
Lemma sim_now (P : side → plain → Prop) : (∀ s p, P s p → related s p) → sim P P index_now index_now.
Proof.
  intros H s p x HP. exists (Ok (now s)), s, p, x. split_and!; [done| |done]. unfold index_now, locals, mget, mbind, M_bind, mret, M_ret. cbn.
  by rewrite (r_current _ _ (H _ _ HP)).
Qed.
Lemma sim_count (P : side → plain → Prop) : (∀ s p, P s p → related s p) →
  sim P P count_now count_now.
Proof.
  intros H s p x HP. exists (Ok (length (INDEX_SNAPSHOTS s))), s, p, x. split_and!; [done| |done].
  unfold count_now, locals, mget, mbind, M_bind, mret, M_ret. cbn. rewrite <- (r_saved _ _ (H _ _ HP)). unfold dmap. by rewrite length_fmap.
Qed.

Lemma set_total_ok n s p : detached s p → detached (set_total n s) (set_total n p).
Proof. apply (detached_step (set_total n) (v_total n)). intros bf bs br t Ht. apply set_state_ok; [done|done|by intros []]. Qed.
Lemma set_truncated_ok s p : detached s p → detached (set_truncated s) (set_truncated p).
Proof. apply (detached_step set_truncated v_truncated). intros bf bs br t Ht. apply set_state_ok; [done|done|by intros []]. Qed.
Lemma remove_detached rel s p : detached s p → detached (remove rel s) (remove rel p).
Proof. apply detached_step. intros. by apply entry_removed_ok. Qed.
Lemma add_detached rel e s p : detached s p → detached (add rel e s) (add rel e p).
Proof. apply detached_step. intros. by apply add_ok. Qed.
Lemma fresh_detached r s p : related s p → detached (fresh r s) (fresh r p).
Proof. apply fresh_ok. Qed.
Lemma cow_detached s p : related s p → detached (cow s) (cow p).
Proof. apply cow_ok. Qed.
Hint Resolve set_total_ok set_truncated_ok remove_detached add_detached detached_related cow_detached fresh_detached : sim.

Ltac sim_step :=
  lazymatch goal with
  | |- sim _ _ (_ ≫= _) (_ ≫= _) => eapply sim_bind; [| |intros ?]; [by auto with sim| |]
  | |- sim _ _ (mret _) _ => apply sim_ret
  | |- sim _ _ (mthrow _) _ => apply sim_throw
  | |- sim _ _ (mraise _ _) _ => apply sim_raise
  | |- sim _ _ (lift_result _) _ => apply sim_lift
  | |- sim _ _ (on_host _) _ => apply sim_host
  | |- sim _ _ (mcatch _ _) _ => apply sim_catch; [|intros ?]
  | |- sim _ _ (set_locals _) _ => apply sim_set; by auto with sim
  | |- sim _ _ index_now _ => apply sim_now; by auto with sim
  | |- sim _ _ count_now _ => apply sim_count; by auto with sim
  | |- sim _ _ (match ?x with _ => _ end) _ => destruct x
  | |- sim _ _ _ _ => by auto with sim
  end.
Ltac sim_auto := repeat sim_step.


Lemma sim_os_try {A} (P : side → plain → Prop) (m : M X A) : sim P P (os_try m) (os_try m).
Proof. unfold os_try. sim_auto. Qed.
Hint Resolve sim_os_try : sim.
Lemma sim_resolve (P : side → plain → Prop) path r : (∀ s p, P s p → related s p) → sim P P (_resolve_rel cfg path r) (_resolve_rel cfg path r).
Proof. intros HP. unfold _resolve_rel. sim_auto. Qed.
Lemma sim_status (P : side → plain → Prop) : (∀ s p, P s p → related s p) → sim P P _status _status.
Proof. intros HP. unfold _status. sim_auto. Qed.
Lemma sim_index_one path r : sim detached detached (_index_one cfg path r) (_index_one cfg path r).
Proof. unfold _index_one. sim_auto. Qed.
Hint Resolve sim_resolve sim_status sim_index_one : sim.

Lemma sim_each {A B} (P : side → plain → Prop) (f1 : A → B → M (side * X) (B * bool)) f2 l :
  (∀ a b, sim P P (f1 a b) (f2 a b)) → ∀ b, sim P P (each f1 l b) (each f2 l b).
Proof. intros Hf. induction l as [|a l IH]; intros b; cbn [each]; sim_auto. Qed.
Lemma sim_build_file r top name total : sim detached detached (build_file cfg r top name total) (build_file cfg r top name total).
Proof. unfold build_file. sim_auto. Qed.
Lemma sim_build_dir fuel r : ∀ top total, sim detached detached (build_dir cfg fuel r top total) (build_dir cfg fuel r top total).
Proof.
  induction fuel as [|fuel IH]; intros top total; cbn [build_dir]; [apply sim_raise|]. sim_auto.
  - apply sim_each. intros. apply sim_build_file.
  - apply sim_each. intros d b'. sim_auto.
Qed.
Hint Resolve sim_build_dir : sim.
(** The calls leave related states. *)
Notation R := (sim related related).
Lemma sim_attached {A} (m1 : M (side * X) A) m2 : sim detached detached m1 m2 → sim detached related m1 m2.
Proof. apply sim_weaken; [done|apply detached_related]. Qed.
Lemma sim_build fuel r : R (_build cfg fuel r) (_build cfg fuel r).
Proof.
  unfold _build. eapply (sim_bind _ detached); [apply detached_related|apply sim_set; auto with sim|intros _]. apply sim_attached. sim_auto.
Qed.
Lemma saved_related id s p : related s p → related (save id s) (save id p).
Proof.
  intros [Hc Hs Hb]. split; [done| |].
  - change (dmap (view s) (dset id (INDEX_STATE s) (INDEX_SNAPSHOTS s)) = dset id (p_current p) (p_saved p)).
    rewrite dmap_dset, Hs. f_equal. exact Hc.
  - intros st [->|Hst]; [apply (Hb _ (or_introl eq_refl))|]. apply elem_of_dvals_dset in Hst as [->|Hst]; [apply (Hb _ (or_introl eq_refl))|].
    apply (Hb st). by right.
Qed.
Lemma back_related id s p : related s p →
  match back id s, back id p with Some s', Some p' => related s' p' | None, None => True | _, _ => False end.
Proof.
  intros [Hc Hs Hb]. cbn [back shared by_value]. rewrite <- Hs, dget_dmap. destruct (dget id (INDEX_SNAPSHOTS s)) as [st|] eqn:E; [|done]. cbn. split; cbn; [done|done|].
  intros st' [->|Hst]; [apply (Hb st); right; by eapply dget_dvals|apply (Hb st'); by right].
Qed.
Hint Resolve saved_related : sim.
Lemma sim_snapshot id : R (_snapshot id) (_snapshot id).
Proof. unfold _snapshot. sim_auto. Qed.
Lemma sim_restore id : R (_restore_snapshot id) (_restore_snapshot id).
Proof.
  unfold _restore_snapshot. case_bool_decide; [apply sim_raise|]. intros s p x Hr. pose proof (back_related id s p Hr) as Hb.
  unfold locals, mget, mbind, M_bind, mret, M_ret. cbn [fst snd]. destruct (back id s) as [s'|], (back id p) as [p'|]; try done.
  - assert (sim (fun _ _ => related s' p') related
              (_ ← set_locals (fun _ => s'); out ← _status; n ← count_now; mret (with_snapshot id out n))
              (_ ← set_locals (fun _ => p'); out ← _status; n ← count_now; mret (with_snapshot id out n))) as Hsim.
    { eapply (sim_bind _ related); [done|by apply sim_set|]. intros _. sim_auto. }
    exact (Hsim s p x Hb).
  - do 4 eexists. split_and!; [done| |done]. cbn. rewrite <- (r_saved _ _ Hr). unfold dmap. by rewrite length_fmap.
Qed.
Lemma sim_refresh_rest path r : sim detached detached (refresh_rest cfg path r) (refresh_rest cfg path r).
Proof. unfold refresh_rest. sim_auto. Qed.
Lemma sim_refresh path r : R (_refresh_path cfg path r) (_refresh_path cfg path r).
Proof.
  unfold _refresh_path. sim_step; [sim_step|]. eapply (sim_bind _ detached); [apply detached_related|apply sim_set; auto with sim|intros _].
  apply sim_attached, sim_refresh_rest.
Qed.
Hint Resolve sim_build sim_snapshot sim_restore sim_refresh : sim.
Lemma sim_call fuel method kwargs : R (_call cfg fuel method kwargs) (_call cfg fuel method kwargs).
Proof. unfold _call, _grep, _find_symbol. sim_auto. Qed.
Lemma sim_serve fuel reqs : ∀ s p x, related s p → ∃ rs s' p' x',
  serve cfg fuel reqs (s, x) = (rs, (s', x')) ∧ serve cfg fuel reqs (p, x) = (rs, (p', x')) ∧ related s' p'.
Proof.
  induction reqs as [|[method kwargs] reqs IH]; intros s p x Hr; cbn; [by exists [], s, p, x|].
  destruct (sim_call fuel method kwargs s p x Hr) as (r & s1 & p1 & x1 & -> & -> & H1).
  destruct (IH s1 p1 x1 H1) as (rs & s' & p' & x' & -> & -> & H'). by exists (r :: rs), s', p', x'.
Qed.
Lemma related_new : related new_side new_plain.
Proof. split; [done|done|]. intros st [->|Hst]; [|by apply elem_of_nil in Hst]. split; [done|by intros []]. Qed.
End simulation.

(** C29: snapshots that share their tables with the index cannot be told from
    copies: whatever requests the sidecar serves - also ones that raise on the
    way - and whatever the file system answers, its answers, its effects and the
    index it ends with are those of a sidecar that copies the whole index at
    every snapshot and every restore. *)
Theorem sharing_unseen {X : Type} {disk : Disk X} {lang : Lang} (cfg : settings) (fuel : nat) (reqs : list (string * json)) (x : X) :
  ∃ rs s p x', serve cfg fuel reqs (new_side, x) = (rs, (s, x')) ∧ serve cfg fuel reqs (new_plain, x) = (rs, (p, x')) ∧
    current s = p_current p ∧ dmap (view s) (INDEX_SNAPSHOTS s) = p_saved p.
Proof.
  destruct (sim_serve cfg fuel reqs _ _ x related_new) as (rs & s & p & x' & E1 & E2 & [Hc Hs _]). by exists rs, s, p, x'.
Qed.

(** ** Invariants of an index with values *)

(** What the operations of the handlers keep; [_index_one] adds an entry only
    after it has removed the old one. *)
Record closed (Q : plain → Prop) := {
  c_fresh : ∀ r p, Q p → Q (fresh r p); c_cow : ∀ p, Q p → Q (cow p); c_remove : ∀ rel p, Q p → Q (remove rel p);
  c_replace : ∀ rel e p, Q p → Q (add rel e (remove rel p)); c_total : ∀ n p, Q p → Q (set_total n p);
  c_truncated : ∀ p, Q p → Q (set_truncated p); c_back : ∀ id p p', Q p → back id p = Some p' → Q p'
}.
Section closed.
Context {X : Type} {disk : Disk X} {lang : Lang} (cfg : settings) (Q : plain → Prop) (HQ : closed Q).
Notation K := (keeps (fun s : plain * X => Q s.1)).

Lemma keeps_host {A} (m : M X A) : K (on_host m).
Proof. intros s Hs. unfold wp, on_host. by destruct (m s.2) as [[a|e] x']. Qed.
Lemma keeps_set f : (∀ p, Q p → Q (f p)) → K (set_locals f).
Proof. intros Hf. apply keeps_mod. intros s Hs. by apply Hf. Qed.
Lemma keeps_now : K index_now.
Proof. unfold index_now, locals. keeps_auto. Qed.
Lemma keeps_count : K count_now.
Proof. unfold count_now, locals. keeps_auto. Qed.
Hint Resolve keeps_host keeps_now keeps_count : deltabox.
Lemma keeps_os_try {A} (m : M X A) : K (os_try m).
Proof. unfold os_try. keeps_auto. Qed.
Hint Resolve keeps_os_try : deltabox.
Lemma keeps_status : K _status.
Proof. unfold _status. keeps_auto. Qed.
Lemma keeps_resolve path r : K (_resolve_rel cfg path r).
Proof. unfold _resolve_rel. keeps_auto. Qed.
Lemma keeps_replace {A} rel e (a : A) : K (_ ← set_locals (remove rel); _ ← set_locals (add rel e); mret a).
Proof. intros s Hs. unfold wp, mbind, M_bind, mret, M_ret. cbn. by apply (c_replace _ HQ). Qed.
Hint Resolve keeps_status keeps_resolve keeps_replace : deltabox.
Lemma keeps_index_one path r : K (_index_one cfg path r).
Proof.
  unfold _index_one. repeat lazymatch goal with |- keeps _ (set_locals _ ≫= _) => apply keeps_replace | _ => keeps_step end.
Qed.
Hint Resolve keeps_index_one : deltabox.
Lemma keeps_each {A B} (f : A → B → M (plain * X) (B * bool)) l : (∀ a b, K (f a b)) → ∀ b, K (each f l b).
Proof. intros Hf. induction l as [|a l IH]; intros b; cbn [each]; keeps_auto. Qed.
Lemma keeps_build_dir fuel r : ∀ top total, K (build_dir cfg fuel r top total).
Proof.
  induction fuel as [|fuel IH]; intros top total; cbn [build_dir]; [apply keeps_raise|]. keeps_auto; apply keeps_each; intros ? ?.
  - unfold build_file. keeps_auto. apply keeps_set, (c_truncated _ HQ).
  - keeps_auto.
Qed.
Lemma keeps_restore id : K (_restore_snapshot id).
Proof.
  unfold _restore_snapshot, locals. case_bool_decide; [apply keeps_raise|]. intros s Hs. unfold wp, mget, mbind, M_bind, mret, M_ret. cbn [fst snd].
  destruct (back id s.1) as [p'|] eqn:E; [|done]. pose proof (c_back _ HQ id _ _ Hs E) as Hp'.
  assert (K (out ← _status; n ← count_now; mret (with_snapshot id out n))) as Hk by keeps_auto. apply (Hk (p', s.2)). exact Hp'.
Qed.
Lemma call_keeps fuel m kw : (m = "snapshot" → ∀ id p, arg_or kw "snapshot_id" "" = Ok id → Q p → Q (save id p)) → K (_call cfg fuel m kw).
Proof.
  intros Hsave. unfold _call. case_bool_decide as E1; [|case_bool_decide as E2; [|case_bool_decide as E3; [|case_bool_decide as E4]]].
  - unfold _build. keeps_auto; [apply keeps_set; intros; by apply (c_fresh _ HQ)|apply keeps_build_dir|apply keeps_set; intros; by apply (c_total _ HQ)].
  - apply keeps_status.
  - intros s Hs. apply wp_bind, wp_lift. destruct (arg_or kw "snapshot_id" "") as [id|e] eqn:Ea; [|done]. revert s Hs. change (K (_snapshot id)).
    unfold _snapshot. keeps_auto. apply keeps_set. intros p. by apply Hsave.
  - keeps_auto. apply keeps_restore.
  - unfold _refresh_path, refresh_rest, _grep, _find_symbol. keeps_auto;
      (apply keeps_set; intros; first [by apply (c_cow _ HQ)|by apply (c_remove _ HQ)|by apply (c_total _ HQ)]).
Qed.
Lemma serve_keeps fuel reqs :
  (∀ m kw, (m, kw) ∈ reqs → m = "snapshot" → ∀ id p, arg_or kw "snapshot_id" "" = Ok id → Q p → Q (save id p)) →
  ∀ s, Q s.1 → Q (serve cfg fuel reqs s).2.1.
Proof.
  induction reqs as [|[m kw] reqs IH]; intros Hsave s Hs; [done|]. cbn [serve].
  pose proof (call_keeps fuel m kw (Hsave m kw ltac:(left)) s Hs) as Hc. unfold wp in Hc. destruct (_call cfg fuel m kw s) as [r s1].
  assert (Q s1.1) as H1 by (by destruct r). specialize (IH (fun m' kw' Hin => Hsave m' kw' ltac:(by right)) s1 H1).
  destruct (serve cfg fuel reqs s1) as [rs s2]. exact IH.
Qed.
End closed.

(** ** Snapshots come back *)

Lemma json_eqb_str t : Driver.json_eqb (JStr t) (JStr t) = true.
Proof. by apply bool_decide_eq_true_2. Qed.
Lemma json_eqb_rows l : Driver.json_eqb (JArr (row_json <$> l)) (JArr (row_json <$> l)) = true.
Proof.
  induction l as [|r l IH]; [done|].
  change (Driver.json_eqb (row_json r) (row_json r) && Driver.json_eqb (JArr (row_json <$> l)) (JArr (row_json <$> l)) = true).
  rewrite IH, andb_true_r. change (bool_decide (r = r) && true = true). by rewrite bool_decide_eq_true_2.
Qed.
Lemma json_eqb_sample x : Driver.json_eqb (sample_query x) (sample_query x) = true.
Proof.
  assert (∀ k t, Driver.json_eqb (sample k t) (sample k t) = true) as H.
  { intros k t. unfold sample. destruct (sorted_strings (dkeys t)) as [|n ?]; [done|]. set (rows := JArr _).
    change (bool_decide (k = k) && (bool_decide (n = n) && (Driver.json_eqb rows rows && true)) = true).
    unfold rows. by rewrite json_eqb_rows, !bool_decide_eq_true_2. }
  unfold sample_query. destruct (get_table Classes x); apply H.
Qed.
(** What a status says of the index. *)
Lemma status_fields {S X : Type} {mem : Memory S} {disk : Disk X} (s s' : S) (x x' : X) out : _status (s, x) = (Ok out, (s', x')) →
  s' = s ∧ ∃ d, out = JObj d ∧
  dget "fingerprint" d = Some (if loaded (current s) then JStr (fingerprint false (current s)) else JNull) ∧
  dget "n_files" d = Some (JInt (Z.of_nat (length (get_files (current s))))) ∧
  dget "n_classes" d = Some (JInt (Z.of_nat (length (get_table Classes (current s))))) ∧
  dget "n_functions" d = Some (JInt (Z.of_nat (length (get_table Functions (current s))))) ∧
  dget "total_bytes" d = Some (JInt (default 0%Z (total_bytes (current s)))) ∧
  dget "sample_query" d = Some (if loaded (current s) then sample_query (current s) else JNull).
Proof.
  unfold _status, index_now, os_try, on_host, locals, mget, mbind, M_bind, mret, M_ret, mcatch. cbn [fst snd].
  destruct (listdir _ x) as [[names|e] x1].
  2: destruct (is_OSError e); [|done].
  all: (destruct (if loaded (current s) then _ else _) as [r|]; [|done]); cbn [fst snd];
    (destruct (isdir r x1) as [[there|] x2]; [|done]); cbn [fst snd]; (destruct (ismount r x2) as [[m|] x3]; [|done]);
    intros [= <- <- <-]; (split; [done|]); eexists; (split; [reflexivity|]); done.
Qed.
Lemma same_status {S X : Type} {mem : Memory S} {disk : Disk X} (s t s' t' : S) (x y x' y' : X) out out' id n n' :
  _status (s, x) = (Ok out, (s', x')) → _status (t, y) = (Ok out', (t', y')) → current s = current t →
  Driver.same_fields (with_snapshot id out n) (with_snapshot id out' n') = Ok true.
Proof.
  intros (_ & d & -> & A1 & A2 & A3 & A4 & A5 & A6)%status_fields (_ & e & -> & B1 & B2 & B3 & B4 & B5 & B6)%status_fields E.
  unfold Driver.same_fields, Driver.INDEX_KEYS, with_snapshot, pget, pget_or. cbn [mapM mbind result_bind].
  rewrite !dget_dset_ne by done. rewrite A1, A2, A3, A4, A5, A6, B1, B2, B3, B4, B5, B6, E. cbn [mbind result_bind mret result_ret].
  assert (∀ z, Driver.json_eqb (JInt z) (JInt z) = true) as Hi by (intros z; cbn; apply Z.eqb_refl).
  assert (Driver.json_eqb (if loaded (current t) then JStr (fingerprint false (current t)) else JNull) (if loaded (current t) then JStr (fingerprint false (current t)) else JNull) = true) as ->
    by (destruct (loaded (current t)); [apply json_eqb_str|done]).
  assert (Driver.json_eqb (if loaded (current t) then sample_query (current t) else JNull) (if loaded (current t) then sample_query (current t) else JNull) = true) as ->
    by (destruct (loaded (current t)); [apply json_eqb_sample|done]).
  by rewrite !Hi.
Qed.

Lemma status_state {S X : Type} {mem : Memory S} {disk : Disk X} (s : S) (x : X) : (_status (s, x)).2.1 = s.
Proof.
  unfold _status, index_now, os_try, on_host, locals, mget, mbind, M_bind, mret, M_ret, mcatch. cbn [fst snd].
  destruct (listdir _ x) as [[names|e] x1]; cbn [fst snd]; [|destruct (is_OSError e); [|done]];
    (destruct (if loaded (current s) then _ else _) as [r|]; [|done]); cbn [fst snd];
    (destruct (isdir r x1) as [[there|] x2]; [|done]); cbn [fst snd]; by destruct (ismount r x2) as [[m|] x3].
Qed.
(** Taking and bringing back a snapshot of the index whose snapshots are values. *)
Lemma snapshot_ok {X : Type} {disk : Disk X} id (p p' : plain) (x x' : X) out : _snapshot id (p, x) = (Ok out, (p', x')) →
  id ≠ "" ∧ p' = save id p ∧ ∃ o n, _status (save id p, x) = (Ok o, (save id p, x')) ∧ out = with_snapshot id o n.
Proof.
  unfold _snapshot. case_bool_decide as Eid; [done|]. unfold index_now, locals, set_locals, mmod, mget, count_now, mbind, M_bind, mret, M_ret. cbn [fst snd].
  destruct (negb (loaded (current p))); [done|]. pose proof (status_state (save id p) x) as Hst. cbn [fst snd] in Hst |- *.
  destruct (_status (save id p, x)) as [[o|] [p1 x1]] eqn:E; [|done]. cbn in Hst. subst p1. intros [= <- <- <-]. split_and!; [done|done|].
  eexists _, _. split; reflexivity.
Qed.
Lemma restore_ok {X : Type} {disk : Disk X} id (p p' : plain) (x x' : X) v r : id ≠ "" → dget id (p_saved p) = Some v →
  _restore_snapshot id (p, x) = (r, (p', x')) →
  p_current p' = v ∧ ∀ out, r = Ok out → ∃ o n q, current q = v ∧ _status (q, x) = (Ok o, (q, x')) ∧ out = with_snapshot id o n.
Proof.
  intros Hid Hv. unfold _restore_snapshot. rewrite bool_decide_eq_false_2 by done.
  unfold locals, set_locals, mmod, mget, count_now, mbind, M_bind, mret, M_ret. cbn [fst snd]. cbn [back by_value]. rewrite Hv. cbn [fmap option_fmap option_map].
  set (q := Plain v (p_saved p)). pose proof (status_state q x) as Hst. cbn [fst snd] in Hst |- *.
  destruct (_status (q, x)) as [[o|e] [p1 x1]] eqn:E; cbn in Hst; subst p1; intros [= <- <- <-]; (split; [done|]); [|done].
  intros out [= <-]. eexists _, _, q. split_and!; [done|exact E|reflexivity].
Qed.
Lemma closed_saved id v : closed (fun p => dget id (p_saved p) = Some v).
Proof.
  split; try done. cbn. intros id' p p' Hp Hb. destruct (dget id' (p_saved p)); [|done]. by injection Hb as <-.
Qed.

(** C30: a snapshot comes back as it was taken: after any requests before it and
    any requests that follow - builds, refreshes of edited files, other snapshots
    and restores, also requests that raise - which do not take a snapshot under
    the same id, restoring it makes the index what it was when it was taken, and
    the status that is returned agrees with the one returned then in every figure
    that the replay driver compares after a restore. *)
Theorem snapshot_restored {X : Type} {disk : Disk X} {lang : Lang} (cfg : settings) (fuel : nat) (before after : list (string * json)) (id : string)
    (x x1 : X) (s1 : side) (out : json) :
  _snapshot id (serve cfg fuel before (new_side, x)).2 = (Ok out, (s1, x1)) →
  (∀ kw, ("snapshot", kw) ∈ after → arg_or kw "snapshot_id" "" ≠ Ok id) →
  let '(r, (s3, x3)) := _restore_snapshot id (serve cfg fuel after (s1, x1)).2 in
  current s3 = current s1 ∧ ∀ out', r = Ok out' → Driver.same_fields out' out = Ok true.
Proof.
  intros Hs Hafter. destruct (sim_serve cfg fuel before _ _ x related_new) as (rs0 & s0 & p0 & x0 & E1 & _ & H0). rewrite E1 in Hs. cbn [snd] in Hs.
  destruct (sim_snapshot id s0 p0 x0 H0) as (r1 & s1' & p1 & x1' & Es & Ep & H1). rewrite Es in Hs. injection Hs as -> -> ->.
  apply snapshot_ok in Ep as (Hid & -> & o & n & Est & ->).
  destruct (sim_serve cfg fuel after s1 _ x1 H1) as (rs2 & s2 & p2 & x2 & E2 & E2' & H2). rewrite E2. cbn [snd].
  assert (dget id (p_saved p2) = Some (p_current p0)) as Hsaved.
  { pose proof (serve_keeps cfg _ (closed_saved id (p_current p0)) fuel after) as Hk.
    specialize (Hk ltac:(intros m kw Hin -> id' p Ha Hp; cbn; rewrite dget_dset_ne; [done|]; intros ->; by eapply Hafter) (save id p0, x1)).
    rewrite E2' in Hk. apply Hk. cbn. apply dget_dset_eq. }
  destruct (sim_restore id s2 p2 x2 H2) as (r & s3 & p3 & x3 & E3 & E3' & H3). rewrite E3.
  destruct (restore_ok id p2 p3 x2 x3 _ r Hid Hsaved E3') as [Hc Ho].
  change (current s3) with (now s3). change (current s1) with (now s1). rewrite (r_current _ _ H3), (r_current _ _ H1). split; [done|].
  intros out' ->. destruct (Ho out' eq_refl) as (o' & n' & q & Hq & Est' & ->). by eapply same_status.
Qed.

(** ** Symbols and files *)

Definition rows (k : kind) (name : string) (x : index) : list string := default [] (dget name (get_table k x)).
(** A name has exactly the rows of the files that define it, and is there only
    if it has one. *)
Definition exact_index (x : index) : Prop := ∀ k name,
  (∀ rel, rel ∈ rows k name x ↔ ∃ e, dget rel (get_files x) = Some e ∧ name ∈ symbols k e) ∧ dget name (get_table k x) ≠ Some [].

Lemma elem_others rel l r : r ∈ others rel l ↔ r ∈ l ∧ r ≠ rel.
Proof. unfold others. rewrite !list_elem_of_In, List.filter_In, negb_true_iff, bool_decide_eq_false. done. Qed.
(** One table: the rows of a name, and that none is empty. *)
Definition rows_in (name : string) (d : list (string * list string)) : list string := default [] (dget name d).
Lemma remove_symbol_rows rel n d name : (∀ m, dget m d ≠ Some []) →
  rows_in name (v_remove_symbol rel d n) = (if decide (name = n) then others rel (rows_in name d) else rows_in name d) ∧
  ∀ m, dget m (v_remove_symbol rel d n) ≠ Some [].
Proof.
  intros Hne. unfold v_remove_symbol, rows_in. destruct (others rel (default [] (dget n d))) as [|r l] eqn:E; split.
  - case_decide as En; [subst; by rewrite dget_dpop_eq, E|by rewrite dget_dpop_ne].
  - intros m. destruct (decide (m = n)) as [->|]; [by rewrite dget_dpop_eq|by rewrite dget_dpop_ne].
  - case_decide as En; [subst; by rewrite dget_dset_eq, E|by rewrite dget_dset_ne].
  - intros m. destruct (decide (m = n)) as [->|]; [by rewrite dget_dset_eq|by rewrite dget_dset_ne].
Qed.
Lemma remove_fold rel names : ∀ d, (∀ m, dget m d ≠ Some []) →
  (∀ m, dget m (fold_left (v_remove_symbol rel) names d) ≠ Some []) ∧
  ∀ name r, r ∈ rows_in name (fold_left (v_remove_symbol rel) names d) ↔ r ∈ rows_in name d ∧ (name ∈ names → r ≠ rel).
Proof.
  induction names as [|n names IH]; intros d Hd; cbn [fold_left].
  { split; [done|]. intros name r. split; [intros H; split; [done|by intros ?%elem_of_nil]|by intros [? _]]. }
  destruct (remove_symbol_rows rel n d n Hd) as [_ Hd']. destruct (IH _ Hd') as [Hne Hin]. split; [done|]. intros name r. rewrite Hin.
  destruct (remove_symbol_rows rel n d name Hd) as [-> _]. case_decide as En.
  - subst. rewrite elem_others, elem_of_cons. naive_solver.
  - rewrite elem_of_cons. naive_solver.
Qed.
Lemma add_fold rel names : ∀ d, (∀ m, dget m d ≠ Some []) →
  (∀ m, dget m (fold_left (v_add_symbol rel) names d) ≠ Some []) ∧
  ∀ name r, r ∈ rows_in name (fold_left (v_add_symbol rel) names d) ↔ r ∈ rows_in name d ∨ (r = rel ∧ name ∈ names).
Proof.
  induction names as [|n names IH]; intros d Hd; cbn [fold_left].
  { split; [done|]. intros name r. rewrite elem_of_nil. naive_solver. }
  assert (∀ m, dget m (v_add_symbol rel d n) ≠ Some []) as Hd'.
  { intros m. unfold v_add_symbol. destruct (decide (m = n)) as [->|]; [|by rewrite dget_dset_ne]. rewrite dget_dset_eq. by destruct (default [] (dget n d)). }
  destruct (IH _ Hd') as [Hne Hin]. split; [done|]. intros name r. rewrite Hin. unfold rows_in at 1, v_add_symbol. destruct (decide (name = n)) as [->|En].
  - rewrite dget_dset_eq. cbn. rewrite elem_of_app, list_elem_of_singleton, elem_of_cons. unfold rows_in. naive_solver.
  - rewrite dget_dset_ne by done. rewrite elem_of_cons. naive_solver.
Qed.
(** The tables of an index, once the files are taken care of. *)
Lemma get_table_other k k' d x : k ≠ k' → get_table k (set_table k' d x) = get_table k x.
Proof. by destruct k, k'. Qed.
Lemma get_files_set k d x : get_files (set_table k d x) = get_files x.
Proof. by destruct k. Qed.
Lemma remove_table_spec rel e k x : let x' := v_remove_table rel e k x in
  get_files x' = get_files x ∧ (∀ k', k' ≠ k → get_table k' x' = get_table k' x) ∧
  get_table k x' = fold_left (v_remove_symbol rel) (symbols k e) (get_table k x).
Proof.
  unfold v_remove_table. destruct (table k x) as [d|] eqn:E; cbn zeta.
  - split_and!; [apply get_files_set|intros; by apply get_table_other|]. rewrite get_set_table. f_equal. unfold get_table. by rewrite E.
  - split_and!; [done|done|]. unfold get_table. rewrite E. cbn. induction (symbols k e) as [|n l IH]; cbn; [done|exact IH].
Qed.
Lemma add_table_spec rel e k x : let x' := v_add_table rel e k x in
  get_files x' = get_files x ∧ (∀ k', k' ≠ k → get_table k' x' = get_table k' x) ∧
  get_table k x' = fold_left (v_add_symbol rel) (symbols k e) (get_table k x).
Proof.
  unfold v_add_table. destruct (symbols k e) as [|n l] eqn:E; cbn zeta; [done|].
  split_and!; [apply get_files_set|intros; by apply get_table_other|apply get_set_table].
Qed.
Lemma v_remove_spec rel e x : dget rel (get_files x) = Some e →
  get_files (v_remove rel x) = dpop rel (get_files x) ∧
  ∀ k, get_table k (v_remove rel x) = fold_left (v_remove_symbol rel) (symbols k e) (get_table k x).
Proof.
  intros E. unfold v_remove. rewrite E. set (x0 := set_files _ x). destruct (remove_table_spec rel e Classes x0) as (F1 & O1 & T1).
  set (x1 := v_remove_table rel e Classes x0) in *. destruct (remove_table_spec rel e Functions x1) as (F2 & O2 & T2).
  split; [by rewrite F2, F1|]. intros [].
  - rewrite O2 by done. exact T1.
  - rewrite T2, O1 by done. done.
Qed.
Lemma v_add_spec rel e x : get_files (v_add rel e x) = dset rel e (get_files x) ∧
  ∀ k, get_table k (v_add rel e x) = fold_left (v_add_symbol rel) (symbols k e) (get_table k x).
Proof.
  unfold v_add. set (x0 := set_files _ x). destruct (add_table_spec rel e Classes x0) as (F1 & O1 & T1).
  set (x1 := v_add_table rel e Classes x0) in *. destruct (add_table_spec rel e Functions x1) as (F2 & O2 & T2).
  split; [by rewrite F2, F1|]. intros [].
  - rewrite O2 by done. exact T1.
  - rewrite T2, O1 by done. done.
Qed.
Lemma exact_ne x k : exact_index x → ∀ m, dget m (get_table k x) ≠ Some [].
Proof. intros H m. apply H. Qed.
Lemma exact_remove rel x : exact_index x → exact_index (v_remove rel x) ∧ dget rel (get_files (v_remove rel x)) = None.
Proof.
  intros Hx. destruct (dget rel (get_files x)) as [e|] eqn:E; [|unfold v_remove; rewrite E; by rewrite E].
  destruct (v_remove_spec rel e x E) as [Ef Et]. split; [|by rewrite Ef, dget_dpop_eq]. intros k name.
  destruct (remove_fold rel (symbols k e) (get_table k x) (exact_ne x k Hx)) as [Hne Hin]. split; [|rewrite Et; apply Hne].
  intros r. unfold rows. rewrite Et. fold (rows_in name (fold_left (v_remove_symbol rel) (symbols k e) (get_table k x))). rewrite Hin.
  change (rows_in name (get_table k x)) with (rows k name x). rewrite (proj1 (Hx k name)), Ef. split.
  - intros ((e' & He' & Hs) & Hn). destruct (decide (r = rel)) as [->|]; [|exists e'; by rewrite dget_dpop_ne].
    rewrite E in He'. injection He' as <-. by destruct (Hn Hs).
  - intros (e' & He' & Hs). destruct (decide (r = rel)) as [->|]; [by rewrite dget_dpop_eq in He'|]. rewrite dget_dpop_ne in He' by done. split; [by exists e'|done].
Qed.
Lemma exact_add rel e x : exact_index x → dget rel (get_files x) = None → exact_index (v_add rel e x).
Proof.
  intros Hx E. destruct (v_add_spec rel e x) as [Ef Et]. intros k name.
  destruct (add_fold rel (symbols k e) (get_table k x) (exact_ne x k Hx)) as [Hne Hin]. split; [|rewrite Et; apply Hne].
  intros r. unfold rows. rewrite Et. fold (rows_in name (fold_left (v_add_symbol rel) (symbols k e) (get_table k x))). rewrite Hin.
  change (rows_in name (get_table k x)) with (rows k name x). rewrite (proj1 (Hx k name)), Ef. destruct (decide (r = rel)) as [->|Hr].
  - rewrite dget_dset_eq. split.
    + intros [(e' & He' & _)|[_ Hs]]; [congruence|by exists e].
    + intros (e' & [= <-] & Hs). by right.
  - rewrite dget_dset_ne by done. split; [by intros [H|[? _]]|by left].
Qed.
(** The figures of an index do not matter, nor that it has its tables. *)
Lemma exact_same x x' : get_files x' = get_files x → (∀ k, get_table k x' = get_table k x) → exact_index x → exact_index x'.
Proof. intros Ef Et H k name. unfold rows. rewrite Ef, Et. apply H. Qed.
Definition all_exact (p : plain) : Prop := exact_index (p_current p) ∧ ∀ id x, dget id (p_saved p) = Some x → exact_index x.
Lemma exact_bare x : get_files x = [] → (∀ k, get_table k x = []) → exact_index x.
Proof.
  intros Ef Et k name. unfold rows. rewrite Ef, Et. cbn. split; [|done]. intros rel. rewrite elem_of_nil. split; [done|]. by intros (? & ? & _).
Qed.
Lemma closed_exact : closed all_exact.
Proof.
  split.
  - intros r p [_ Hs]. split; [by apply exact_bare; [|intros []]|done].
  - intros p [Hx Hs]. split; [|done]. cbn. unfold v_cow. destruct (loaded (p_current p)); [|done]. cbn. by eapply exact_same; [| |exact Hx]; [|intros []].
  - intros rel p [Hx Hs]. split; [by apply exact_remove|done].
  - intros rel e p [Hx Hs]. split; [|done]. destruct (exact_remove rel _ Hx) as [H1 H2]. by apply exact_add.
  - intros n p [Hx Hs]. split; [|done]. by eapply exact_same; [| |exact Hx]; [|intros []].
  - intros p [Hx Hs]. split; [|done]. by eapply exact_same; [| |exact Hx]; [|intros []].
  - intros id p p' [Hx Hs]. cbn. destruct (dget id (p_saved p)) as [x|] eqn:E; [|done]. cbn. intros [= <-]. split; [by apply (Hs id)|done].
Qed.

(** C31: the symbols are those of the files: after any requests, also ones that
    fail half-way, a search for a class or a function answers with exactly the
    files of the index that define it - none is forgotten when a file is
    refreshed, removed or brought back by a snapshot, and none stays behind -, and
    every name the index counts is defined somewhere. *)
Theorem symbols_exact {X : Type} {disk : Disk X} {lang : Lang} (cfg : settings) (fuel : nat) (reqs : list (string * json)) (x : X)
    (name : string) (kd : option string) :
  let ix := current (serve cfg fuel reqs (new_side, x)).2.1 in
  ∃ found, find_in ix name kd None = Ok (JObj [("ok", JBool true); ("from_index", JBool true); ("symbol", JStr name);
      ("symbol_kind", match kd with None => JNull | Some k => JStr k end);
      ("n_hits", JInt (Z.of_nat (length found))); ("hits", JArr (row_json <$> take 64 found))]) ∧
    (∀ rel, rel ∈ found ↔ ∃ e, dget rel (get_files ix) = Some e ∧ name ∈ symbols (symbol_kind kd) e) ∧
    (name ∈ dkeys (get_table (symbol_kind kd) ix) ↔ ∃ rel e, dget rel (get_files ix) = Some e ∧ name ∈ symbols (symbol_kind kd) e).
Proof.
  destruct (sim_serve cfg fuel reqs _ _ x related_new) as (rs & s & p & x' & -> & Ep & Hr). cbn [fst snd].
  change (current s) with (now s). rewrite (r_current _ _ Hr). pose proof (serve_keeps cfg _ closed_exact fuel reqs) as Hk.
  specialize (Hk ltac:(intros m kw _ _ id q _ [Hx Hs]; split; [done|]; cbn; intros i y;
                       destruct (decide (i = id)) as [->|]; [rewrite dget_dset_eq; by intros [= <-]|rewrite dget_dset_ne by done; apply Hs]) (new_plain, x)).
  rewrite Ep in Hk. assert (all_exact new_plain) as Hnew by (split; [by apply exact_bare; [|intros []]|done]). specialize (Hk Hnew) as [Hx _].
  destruct (Hx (symbol_kind kd) name) as [Hin Hne]. exists (rows (symbol_kind kd) name (p_current p)). split_and!; [done|exact Hin|].
  setoid_rewrite <- Hin. unfold rows. rewrite <- dget_is_Some. destruct (dget name _) as [[|r l]|] eqn:E; [done| |].
  - split; [intros _; exists r; left|done].
  - split; [by intros []|]. by intros (? & ?%elem_of_nil).
Qed.

(** ** The index inside the agent *)

(** The lines of a file that match, and those of all files. *)
Fixpoint line_hits (matched : string → bool) (rel : string) (lineno : nat) (lines : list string) : list json :=
  match lines with
  | [] => []
  | line :: lines => (if matched line then [hit rel lineno line] else []) ++ line_hits matched rel (S lineno) lines
  end.
Definition all_hits (matched : string → bool) (x : index) (rels : list string) : list json :=
  rels ≫= fun rel => line_hits matched rel 1 (splitlines (default "" (e_text <$> dget rel (get_files x)))).
Lemma grep_lines_spec matched rel lines : ∀ lineno hits, length hits < 64 →
  grep_lines matched rel lineno lines hits = take 64 (hits ++ line_hits matched rel lineno lines).
Proof.
  induction lines as [|line lines IH]; intros lineno hits Hl; cbn [grep_lines line_hits].
  { by rewrite app_nil_r, take_ge by lia. }
  destruct (matched line); cbn [app]; [|by apply IH]. rewrite (app_assoc hits [hit rel lineno line] _ : hits ++ hit rel lineno line :: line_hits matched rel (S lineno) lines = _). destruct (Nat.leb_spec 64 (length (hits ++ [hit rel lineno line]))) as [Hge|Hlt].
  - assert (length (hits ++ [hit rel lineno line]) = 64) as E by (rewrite length_app in Hge |- *; cbn in *; lia). by rewrite take_app_le, take_ge by lia.
  - by apply IH.
Qed.
Lemma grep_files_spec matched x rels : ∀ hits, length hits < 64 → grep_files matched x rels hits = take 64 (hits ++ all_hits matched x rels).
Proof.
  induction rels as [|rel rels IH]; intros hits Hl; cbn [grep_files all_hits mbind list_bind].
  { by rewrite app_nil_r, take_ge by lia. }
  rewrite grep_lines_spec by done. set (now_ := hits ++ line_hits _ _ _ _). change (mbind _ rels) with (all_hits matched x rels). rewrite app_assoc. fold now_.
  destruct (Nat.leb_spec 64 (length (take 64 now_))) as [Hge|Hlt]; rewrite length_take in *.
  - by rewrite take_app_le by lia.
  - rewrite (take_ge now_) by lia. apply IH. lia.
Qed.

(** ["**/*"] takes every path. *)
Lemma fnmatch_star p s : fnmatch p s = true → fnmatch (String "*" p) s = true.
Proof. intros H. destruct s; cbn [fnmatch]; unfold ch_eq; rewrite bool_decide_eq_true_2 by done; by rewrite H. Qed.
Lemma fnmatch_any s : fnmatch "*" s = true.
Proof.
  induction s as [|c s IH]; [done|]. cbn [fnmatch] in IH |- *. unfold ch_eq in *. rewrite bool_decide_eq_true_2 in * by done.
  destruct s; cbn in IH |- *; [done|]. exact IH.
Qed.
Lemma every_path rel : fnmatch "**/*" ("/" +:+ rel) = true.
Proof.
  apply fnmatch_star, fnmatch_star. change ("/" +:+ rel) with (String "/" rel). cbn [fnmatch]. unfold ch_eq.
  rewrite bool_decide_eq_false_2 by done. rewrite bool_decide_eq_false_2 by done. rewrite bool_decide_eq_true_2 by done. apply fnmatch_any.
Qed.
Lemma match_every x : _match_paths (Some "**/*") x = Ok (dkeys (get_files x)).
Proof.
  unfold _match_paths. cbn [has_char]. f_equal. induction (dkeys (get_files x)) as [|rel l IH]; [done|]. cbn [List.filter].
  rewrite every_path, orb_true_r. by f_equal.
Qed.
Lemma grep_same {S X : Type} {mem : Memory S} {lang : Lang} pattern fp (s : S * X) : _grep pattern fp s = _worker_index_grep pattern fp s.
Proof.
  unfold _grep, _worker_index_grep, index_now, locals, mget, mbind, M_bind, mret, M_ret. cbn [fst snd].
  assert (_match_paths (Some (or_str fp "**/*")) (current s.1) = _match_paths fp (current s.1)) as ->; [|done].
  destruct fp as [[|c p]|]; [apply match_every|done|apply match_every].
Qed.
Lemma worker_abspath_same cfg path r : _worker_abspath cfg path r = _abspath cfg r path.
Proof.
  unfold _worker_abspath, _abspath. destruct (decide (path = "")) as [->|E]; [done|]. by rewrite (bool_decide_eq_false_2 (path = "")) by done.
Qed.

(** A refresh of a path in both, when asking for the path does not change it. *)
Lemma refresh_same {X : Type} {disk : Disk X} {lang : Lang} (cfg : settings) (path r full : string) (b : bool) (p : plain) (x : X) :
  r ≠ "" → v_cow (p_current p) = p_current p → _abspath cfg r path = Ok full → exists_ full x = (Ok b, x) →
  b = true ∨ dhas (os_relpath cfg full (abspath cfg r)) (get_files (p_current p)) = true →
  let '(r1, (p1, x1)) := _refresh_path cfg path (Some r) (p, x) in
  let '(r2, (p2, x2)) := _worker_index_refresh_path cfg path r (p, x) in
  x1 = x2 ∧ match r1, r2 with
            | Ok _, Ok _ => p1 = set_total (zsum ((fun q => e_size q.2) <$> get_files (p_current p2))) p2
            | Err e1, Err e2 => e1 = e2 ∧ p1 = p2
            | _, _ => False
            end.
Proof.
  intros Hr Hcow Hfull Hex Hin.
  assert (cow p = p) as Hp by (cbn; unfold on_current; rewrite Hcow; by destruct p).
  assert (or_str (Some r) (or_str (root (p_current p)) "/testbed") = r) as Er by (by destruct r).
  unfold _refresh_path, refresh_rest, _resolve_rel, _worker_index_refresh_path, _worker_relpath, index_now, locals, set_locals, mmod, mget,
    on_host, lift_result, mbind, M_bind, mret, M_ret. cbn [fst snd]. rewrite !Hp. change (current p) with (p_current p).
  rewrite worker_abspath_same, Hfull. cbn [mbind result_bind]. unfold on_host. rewrite Er. cbn [fst snd].
  assert (or_str (Some r) (or_str (root (p_current p)) "/testbed") = r) as -> by done. rewrite Hfull. cbn [fst snd]. rewrite Hex. cbn [fst snd].
  assert (b || dhas (os_relpath cfg full (abspath cfg r)) (get_files (p_current p)) = true) as -> by (destruct Hin as [->| ->]; [done|by rewrite orb_true_r]).
  cbn [fst snd]. rewrite Hex. cbn [fst snd]. destruct b; [|done].
  destruct (_index_one cfg full r (remove (os_relpath cfg full (abspath cfg r)) p, x)) as [[e|e] [p1 x1]]; cbn [fst snd]; done.
Qed.

(** The indexed files whose path ends in a path. *)
Definition same_suffix (rel : string) (x : index) : list string :=
  let suffix := lstrip_slash rel in
  List.filter (fun f => bool_decide (f = suffix) || endswith f ("/" +:+ suffix)) (dkeys (get_files x)).

(** A refresh of a path that neither is there nor is indexed. *)
Lemma refresh_absent {X : Type} {disk : Disk X} {lang : Lang} (cfg : settings) (path r full : string) (p : plain) (x : X) :
  let rel := os_relpath cfg full (abspath cfg r) in
  r ≠ "" → v_cow (p_current p) = p_current p → _abspath cfg r path = Ok full → (∀ q, ∃ b, exists_ q x = (Ok b, x)) →
  exists_ full x = (Ok false, x) → dhas rel (get_files (p_current p)) = false →
  _worker_index_refresh_path cfg path r (p, x) = (Ok tt, (p, x)) ∧
  match same_suffix rel (p_current p) with
  | [] => ∃ out, _refresh_path cfg path (Some r) (p, x) = (Ok out, (set_total (zsum ((fun q => e_size q.2) <$> get_files (p_current p))) p, x))
  | [f] => ∀ ff, _abspath cfg r f = Ok ff → os_relpath cfg ff (abspath cfg r) = f →
             _refresh_path cfg path (Some r) (p, x) = _refresh_path cfg f (Some r) (p, x)
  | _ => _refresh_path cfg path (Some r) (p, x) = (raise ValueError "ambiguous indexed path", (p, x))
  end.
Proof.
  intros rel Hr Hcow Hfull Hpure Hex Hin.
  assert (cow p = p) as Hp by (cbn; unfold on_current; rewrite Hcow; by destruct p).
  assert (remove rel p = p) as Hrem.
  { cbn. unfold on_current, v_remove. assert (dget rel (get_files (p_current p)) = None) as ->; [|by destruct p].
    destruct (dget rel _) eqn:E; [|done]. assert (dhas rel (get_files (p_current p)) = true) by (apply dhas_true; eauto). congruence. }
  assert (or_str (Some r) (or_str (root (p_current p)) "/testbed") = r) as Er by (by destruct r).
  assert (∀ f, _refresh_path cfg f (Some r) (p, x) = refresh_rest cfg f r (p, x)) as Hsplit.
  { intros f. unfold _refresh_path, index_now, locals, set_locals, mmod, mget, mbind, M_bind, mret, M_ret. cbn [fst snd]. rewrite Hp.
    change (current p) with (p_current p). by rewrite Er. }
  assert (_resolve_rel cfg path (Some r) (p, x) = match same_suffix rel (p_current p) with
      | [] => (Ok (full, rel), (p, x)) | [f] => (full ← lift_result (_abspath cfg r f); mret (full, f)) (p, x)
      | _ => (raise ValueError "ambiguous indexed path", (p, x)) end) as Hres.
  { unfold _resolve_rel, index_now, locals, mget, on_host, lift_result, mbind, M_bind, mret, M_ret. cbn [fst snd].
    change (current p) with (p_current p). rewrite Er, Hfull. cbn [fst snd]. rewrite Hex. cbn [fst snd]. fold rel. rewrite Hin. cbn [orb].
    fold (same_suffix rel (p_current p)). by destruct (same_suffix rel (p_current p)) as [|f [|g l]]. }
  split.
  - unfold _worker_index_refresh_path, _worker_relpath, set_locals, mmod, on_host, lift_result, mbind, M_bind, mret, M_ret.
    rewrite worker_abspath_same, Hfull. cbn [mbind result_bind fst snd]. fold rel. rewrite Hrem. cbn [fst snd]. rewrite Hex. done.
  - rewrite Hsplit. destruct (same_suffix rel (p_current p)) as [|f [|g l]] eqn:Es.
    + unfold refresh_rest, mbind, M_bind. rewrite Hres. unfold set_locals, mmod, on_host, index_now, locals, mget, mret, M_ret, mbind, M_bind.
      cbn [fst snd]. rewrite Hrem. cbn [fst snd]. rewrite Hex. cbn [fst snd]. eauto.
    + intros ff Hff Hf. rewrite Hsplit.
      assert (_resolve_rel cfg path (Some r) (p, x) = (Ok (ff, f), (p, x))) as Hres'.
      { rewrite Hres. unfold lift_result, mbind, M_bind, mret, M_ret. by rewrite Hff. }
      assert (_resolve_rel cfg f (Some r) (p, x) = (Ok (ff, f), (p, x))) as Hresf.
      { assert (f ∈ dkeys (get_files (p_current p))) as Hd.
        { apply list_elem_of_In. assert (In f (same_suffix rel (p_current p))) as Hi by (rewrite Es; by left). by apply List.filter_In in Hi as [Hi _]. }
        unfold _resolve_rel, index_now, locals, mget, on_host, lift_result, mbind, M_bind, mret, M_ret. cbn [fst snd].
        change (current p) with (p_current p). rewrite Er, Hff. cbn [fst snd]. destruct (Hpure ff) as [b ->]. cbn [fst snd]. rewrite Hf.
        assert (dhas f (get_files (p_current p)) = true) as -> by (by apply dhas_true, dget_is_Some). by rewrite orb_true_r. }
      unfold refresh_rest, mbind, M_bind. by rewrite Hres', Hresf.
    + unfold refresh_rest, mbind, M_bind. by rewrite Hres.
Qed.

(** What [os.path.exists] says. *)
Definition is_there {X : Type} {disk : Disk X} (full : string) (x : X) : bool :=
  match (exists_ full x).1 with Ok b => b | Err _ => false end.

(** C32: how the sidecar mirrors the index of the agent, from equal indexes.  A
    search for a pattern or for a symbol answers the same, though the sidecar
    puts ["**/*"] for a pattern of files that is not given.  A refresh of a
    path that is there or is indexed leaves the same index and raises the same
    errors, but for the number of bytes, which only the sidecar brings up to
    date.  A refresh of any other path changes nothing in the agent; the sidecar
    does the same when no indexed path ends in it, refreshes that file instead
    when one does, and raises when several do. *)
Theorem sidecar_mirrors_agent {X : Type} {disk : Disk X} {lang : Lang} (cfg : settings) (path r full : string) (p : plain) (x : X) :
  r ≠ "" → v_cow (p_current p) = p_current p → _abspath cfg r path = Ok full → (∀ q, ∃ b, exists_ q x = (Ok b, x)) →
  (∀ pattern file_pattern, _grep pattern file_pattern (p, x) = _worker_index_grep pattern file_pattern (p, x)) ∧
  (∀ name k file_pattern, _find_symbol name k file_pattern (p, x) = _worker_index_find_symbol name k file_pattern (p, x)) ∧
  let rel := os_relpath cfg full (abspath cfg r) in
  let total q := zsum ((fun f => e_size f.2) <$> get_files (p_current q)) in
  let '(r1, (p1, x1)) := _refresh_path cfg path (Some r) (p, x) in
  let '(r2, (p2, x2)) := _worker_index_refresh_path cfg path r (p, x) in
  if is_there full x || dhas rel (get_files (p_current p))
  then x1 = x2 ∧ match r1, r2 with
                 | Ok _, Ok _ => p1 = set_total (total p2) p2
                 | Err e1, Err e2 => e1 = e2 ∧ p1 = p2
                 | _, _ => False
                 end
  else (r2, (p2, x2)) = (Ok tt, (p, x)) ∧
       match same_suffix rel (p_current p) with
       | [] => is_Ok r1 = true ∧ p1 = set_total (total p) p ∧ x1 = x
       | [f] => ∀ ff, _abspath cfg r f = Ok ff → os_relpath cfg ff (abspath cfg r) = f →
                  (r1, (p1, x1)) = _refresh_path cfg f (Some r) (p, x)
       | _ => r1 = raise ValueError "ambiguous indexed path" ∧ p1 = p ∧ x1 = x
       end.
Proof.
  intros Hr Hcow Hfull Hpure. split; [intros; apply grep_same|]. split; [done|]. cbv zeta. destruct (Hpure full) as [b Hex].
  assert (is_there full x = b) as -> by (unfold is_there; by rewrite Hex).
  destruct (b || dhas (os_relpath cfg full (abspath cfg r)) (get_files (p_current p))) eqn:Hb.
  { exact (refresh_same cfg path r full b p x Hr Hcow Hfull Hex (proj1 (orb_true_iff _ _) Hb)). }
  apply orb_false_iff in Hb as [-> Hb].
  destruct (refresh_absent cfg path r full p x Hr Hcow Hfull Hpure Hex Hb) as [-> Hs].
  destruct (_refresh_path cfg path (Some r) (p, x)) as [r1 [p1 x1]]. split; [done|].
  destruct (same_suffix _ _) as [|f [|g l]]; [|done|].
  - destruct Hs as [out [= -> -> ->]]. done.
  - by injection Hs as -> -> ->.
Qed.

(** ** Building ends within its bound *)

Section build.
Context {X : Type} {disk : Disk X} {lang : Lang} (cfg : settings) (x : X).
(** A call that changes nothing outside. *)
Definition calm {A} (m : M X A) : Prop := (m x).2 = x ∧ ∀ e, (m x).1 = Err e → exn_cls e ≠ OutOfFuel.
(** The file system as it stands at [x]; the directories [inside] have a depth. *)
Record steady (inside : string → Prop) (depth : string → nat) : Prop := {
  y_stat : ∀ p, calm (os_stat p); y_size : ∀ p, calm (getsize p); y_exists : ∀ p, calm (exists_ p); y_file : ∀ p, calm (isfile p);
  y_dir : ∀ p, calm (isdir p); y_mount : ∀ p, calm (ismount p); y_link : ∀ p, calm (islink p); y_read : ∀ p, calm (read_file p);
  y_list : ∀ p, calm (listdir p); y_scan : ∀ p, calm (scandir p);
  y_sizes : ∀ p n m t, (getsize p x).1 = Ok n → (os_stat p x).1 = Ok (m, t) → m = n;
  y_parse : ∀ text e, parse text = Err e → exn_cls e ≠ OutOfFuel;
  y_depth : ∀ top dirs names d, inside top → (scandir top x).1 = Ok (dirs, names) → d ∈ dirs → (islink (path_join top d) x).1 = Ok false →
    inside (path_join top d) ∧ depth (path_join top d) < depth top
}.
Definition fine (e : exn) (_ : plain * X) : Prop := exn_cls e ≠ OutOfFuel.
Definition at_x (P : plain → Prop) (s : plain * X) : Prop := P s.1 ∧ s.2 = x.
Lemma wp_calm {A} (m : M X A) p (Q : A → plain * X → Prop) : calm m → (∀ a, (m x).1 = Ok a → Q a (p, x)) → wp (on_host m) Q fine (p, x).
Proof.
  unfold wp, on_host, calm, fine. cbn. intros [Hx He] HQ. destruct (m x) as [[a|e] x']; cbn in *; subst x'; [by apply HQ|by apply He].
Qed.
Lemma wp_os_try {A} (m : M X A) p (Q : option A → plain * X → Prop) : calm m → (∀ a, (m x).1 = Ok a → Q (Some a) (p, x)) → Q None (p, x) →
  wp (os_try m) Q fine (p, x).
Proof.
  intros Hm HQ HN. unfold os_try. apply wp_catch, wp_bind. unfold wp, on_host, calm in *. cbn. destruct Hm as [Hx He].
  destruct (m x) as [[a|e] x'] eqn:E; cbn in *; subst x'; [by apply HQ|]. destruct (is_OSError e); [done|]. by apply He.
Qed.
Lemma wp_each {A B} (f : A → B → M (plain * X) (B * bool)) l (I : B → Prop) :
  (∀ a b p, a ∈ l → I b → wp (f a b) (fun r s => I r.1 ∧ s.2 = x) fine (p, x)) →
  ∀ b p, I b → wp (each f l b) (fun r s => I r.1 ∧ s.2 = x) fine (p, x).
Proof.
  induction l as [|a l IH]; intros Hf b p Hb; cbn [each]; [by apply wp_ret|]. apply wp_bind. eapply wp_mono; [apply Hf; [left|done]| |done].
  intros r [p' y] [Hr Hy]. cbn in Hy. subst y. destruct r as [b' []]; [by apply wp_ret|]. apply IH; [|done]. intros a' b'' p'' Ha. apply Hf. by right.
Qed.
Lemma wp_now p (Q : index → plain * X → Prop) : Q (p_current p) (p, x) → wp index_now Q fine (p, x).
Proof. done. Qed.

Context (inside : string → Prop) (depth : string → nat) (Hx : steady inside depth).
Lemma index_one_ok path r p : wp (_index_one cfg path r)
  (fun e s => s.2 = x ∧ ∀ e', e = Some e' → ∃ t, (os_stat path x).1 = Ok (e_size e', t)) fine (p, x).
Proof.
  unfold _index_one. apply wp_bind, wp_os_try; [apply Hx| |by apply wp_ret]. intros [size mtime] Hst.
  apply wp_bind, wp_calm; [apply Hx|]. intros file _. destruct (negb file || _); [by apply wp_ret|]. destruct (_index_should_skip _); [by apply wp_ret|].
  apply wp_bind, wp_os_try; [apply Hx| |by apply wp_ret]. intros text _. apply wp_bind, wp_lift.
  assert (∀ e, (if endswith (os_relpath cfg path r) ".py" then _extract_python_symbols text else Ok ([], [])) = Err e → exn_cls e ≠ OutOfFuel) as He.
  { intros e. destruct (endswith _ _); [|done]. unfold _extract_python_symbols. destruct (parse text) as [|e'] eqn:Ep; [done|]. cbn. intros [= <-]. by apply (y_parse _ _ Hx text). }
  destruct (if endswith _ _ then _ else _) as [names|e]; [|by apply He].
  apply wp_bind, wp_set_locals, wp_bind, wp_set_locals, wp_ret. split; [done|]. intros e' [= <-]. by exists mtime.
Qed.
Definition within (total : Z) : Prop := (total <= MAX_TOTAL_BYTES cfg)%Z.
Lemma build_file_ok r top name total p : within total → wp (build_file cfg r top name total) (fun res s => within res.1 ∧ s.2 = x) fine (p, x).
Proof.
  intros Hw. unfold build_file. destruct (_index_should_skip _); [by apply wp_ret|]. apply wp_bind, wp_os_try; [apply Hx| |by apply wp_ret].
  intros size Hsize. destruct (Z.ltb_spec (MAX_TOTAL_BYTES cfg) (total + size)); [by apply wp_bind, wp_set_locals, wp_ret|].
  apply wp_bind. eapply wp_mono; [apply index_one_ok| |done]. intros e [p' y] [Hy He]. cbn in Hy. subst y. apply wp_ret. split; [|done]. cbn. destruct e as [e|]; [|done].
  destruct (He e eq_refl) as [t Ht]. rewrite (y_sizes _ _ Hx _ _ _ _ Hsize Ht). unfold within. lia.
Qed.
Lemma build_dir_ok fuel r : ∀ top total p, inside top → depth top < fuel → within total →
  wp (build_dir cfg fuel r top total) (fun res s => within res.1 ∧ s.2 = x) fine (p, x).
Proof.
  induction fuel as [|fuel IH]; intros top total p Hi Hd Hw; cbn [build_dir]; [lia|].
  apply wp_bind, wp_os_try; [apply Hx| |by apply wp_ret]. intros [dirs names] Hscan. apply wp_bind.
  eapply wp_mono; [apply (wp_each (build_file cfg r top) names within); [intros; by apply build_file_ok|done]| |done].
  intros [total' stop] [p' y] [Hw' Hy]. cbn in Hy. subst y. destruct stop; [by apply wp_ret|]. apply wp_each; [|done]. intros d b p'' Hin Hb.
  assert (d ∈ dirs) as Hdir by (rewrite list_elem_of_In in *; by apply List.filter_In in Hin as [? _]).
  apply wp_bind, wp_calm; [apply Hx|]. intros [] Hlink; [by apply wp_ret|].
  destruct (y_depth _ _ Hx _ _ _ _ Hi Hscan Hdir Hlink). apply IH; [done|lia|done].
Qed.
End build.

(** Building ends: on a file system that stands still, and whose directories
    from the root down - links to directories are not followed - have a depth, a
    build with more fuel than the depth of the root never runs out, whatever cannot be read on the
    way; if it answers, the bytes it counts are within the limit. *)
Theorem build_ends {X : Type} {disk : Disk X} {lang : Lang} (cfg : settings) (fuel : nat) (r : string) (inside : string → Prop) (depth : string → nat) (p : plain) (x : X) :
  steady x inside depth → inside r → depth r < fuel → (0 <= MAX_TOTAL_BYTES cfg)%Z →
  wp (_build cfg fuel r) (fun _ s => s.2 = x ∧ ∃ n, total_bytes (p_current s.1) = Some n ∧ (n <= MAX_TOTAL_BYTES cfg)%Z)
    (fun e _ => exn_cls e ≠ OutOfFuel) (p, x).
Proof.
  intros Hx Hi Hd Hmax. unfold _build. apply wp_bind, wp_set_locals, wp_bind.
  eapply wp_mono; [by apply (build_dir_ok cfg x inside depth Hx fuel r r 0%Z)| |done]. intros res [p' y] [Hw Hy]. cbn in Hy. subst y.
  apply wp_bind, wp_set_locals. cbn [fst snd]. set (p2 := set_total res.1 p').
  unfold _status. apply wp_bind, wp_now, wp_bind.
  assert (∃ n, total_bytes (p_current p2) = Some n ∧ (n <= MAX_TOTAL_BYTES cfg)%Z) as Hn by (by exists res.1).
  destruct (if loaded _ then _ else _) as [r'|]; (apply wp_os_try; [apply Hx|intros names _|]).
  all: try (by apply wp_raise).
  all: apply wp_bind, wp_calm; [apply Hx|]; intros there _; apply wp_bind, wp_calm; [apply Hx|]; intros mounted _; by apply wp_ret.
Qed.

(** ** A file system and a language for examples *)

(** The files with their texts; directories are the ones the paths need. *)
Definition tree : Type := list (string * string).
Definition below (top : string) (t : tree) : list (list string) :=
  omap (fun p : string * string => if startswith p.1 (top +:+ "/") then Some (split_char "/"%char (sdrop (String.length top + 1) p.1)) else None) t.
Definition tree_dirs (top : string) (t : tree) : list string := remove_dups (omap (fun l => match l with d :: _ :: _ => Some d | _ => None end) (below top t)).
Definition tree_names (top : string) (t : tree) : list string := omap (fun l => match l with [n] => Some n | _ => None end) (below top t).
Definition text_of (p : string) (t : tree) : result string := match dget p t with Some s => Ok s | None => raise FileNotFoundError p end.
Definition is_dir (p : string) (t : tree) : bool := negb (bool_decide (below p t = [])).
#[export] Instance tree_disk : Disk tree := {
  os_stat p t := (s ← text_of p t; Ok (Z.of_nat (String.length s), 0%Z), t); getsize p t := (s ← text_of p t; Ok (Z.of_nat (String.length s)), t);
  exists_ p t := (Ok (dhas p t || is_dir p t), t); isfile p t := (Ok (dhas p t), t); isdir p t := (Ok (is_dir p t), t);
  ismount _ t := (Ok false, t); islink _ t := (Ok false, t); read_file p t := (text_of p t, t);
  listdir p t := (Ok (tree_dirs (default "." p) t ++ tree_names (default "." p) t), t);
  scandir p t := (if is_dir p t then Ok (tree_dirs p t, tree_names p t) else raise NotADirectoryError p, t)
}.
(** Names after [class] and [def] at the start of a line; searches are literal. *)
Definition after (word : string) (lines : list string) : list string :=
  omap (fun l => if startswith l word then Some (sdrop (String.length word) l) else None) lines.
#[export] Instance toy_lang : Lang := {
  parse text := Ok (Some (after "class " (splitlines text), after "def " (splitlines text)));
  compile _ := None
}.
Definition demo_cfg : settings := Settings "/" 1000 10000.
Definition demo_tree : tree := [("/r/a.py", "class A" +:+ nl +:+ "def f"); ("/r/b/c.py", "def f" +:+ nl +:+ "class A")].
Definition call_ (m : string) (kw : list (string * json)) : string * json := (m, JObj kw).
Definition demo_requests : list (string * json) :=
  [call_ "build" [("root", JStr "/r")]; call_ "snapshot" [("snapshot_id", JStr "s")]; call_ "refresh_path" [("path", JStr "a.py")];
   call_ "find_symbol" [("name", JStr "A"); ("symbol_kind", JStr "class")]; call_ "restore_snapshot" [("snapshot_id", JStr "s")];
   call_ "grep" [("pattern", JStr "class")]].
Lemma demo_answers : (serve demo_cfg 10 demo_requests (new_side, demo_tree)).1 !! 3 =
  Some (Ok (JObj [("ok", JBool true); ("from_index", JBool true); ("symbol", JStr "A"); ("symbol_kind", JStr "class"); ("n_hits", JInt 2);
                  ("hits", JArr [row_json "b/c.py"; row_json "a.py"])])).
Proof. vm_compute. reflexivity. Qed.

Definition demo_build : list (string * json) := [call_ "build" [("root", JStr "/r")]].
Lemma snapshot_restored_witness :
  ∃ out s1, _snapshot "s" (serve demo_cfg 10 demo_build (new_side, demo_tree)).2 = (Ok out, (s1, demo_tree)) ∧
    let '(r, (s3, x3)) := _restore_snapshot "s" (serve demo_cfg 10 [call_ "refresh_path" [("path", JStr "a.py")]] (s1, demo_tree)).2 in
    current s3 = current s1 ∧ ∀ out', r = Ok out' → Driver.same_fields out' out = Ok true.
Proof.
  assert (∃ out s1, _snapshot "s" (serve demo_cfg 10 demo_build (new_side, demo_tree)).2 = (Ok out, (s1, demo_tree))) as (out & s1 & H)
    by (do 2 eexists; vm_compute; reflexivity).
  exists out, s1. split; [exact H|]. apply (snapshot_restored demo_cfg 10 demo_build _ "s" demo_tree _ _ _ H).
  intros kw Hin. exfalso. apply list_elem_of_singleton in Hin. discriminate Hin.
Defined.
Definition demo_plain : plain := (serve demo_cfg 10 demo_build (new_plain, demo_tree)).2.1.
Lemma demo_pure q : ∃ b, exists_ q demo_tree = (Ok b, demo_tree).
Proof. by eexists. Qed.
(** A file that was edited, and one asked for by the end of its path. *)
Lemma sidecar_mirrors_agent_witness :
  (∃ p1 p2 x1 j, _refresh_path demo_cfg "a.py" (Some "/r") (demo_plain, demo_tree) = (Ok j, (p1, x1)) ∧
    _worker_index_refresh_path demo_cfg "a.py" "/r" (demo_plain, demo_tree) = (Ok tt, (p2, x1)) ∧
    p1 = set_total (zsum ((fun q => e_size q.2) <$> get_files (p_current p2))) p2) ∧
  _refresh_path demo_cfg "c.py" (Some "/r") (demo_plain, demo_tree) = _refresh_path demo_cfg "b/c.py" (Some "/r") (demo_plain, demo_tree).
Proof.
  split.
  - assert (∃ j p1 x1, _refresh_path demo_cfg "a.py" (Some "/r") (demo_plain, demo_tree) = (Ok j, (p1, x1))) as (j & p1 & x1 & E1)
      by (do 3 eexists; vm_compute; reflexivity).
    assert (∃ p2 x2, _worker_index_refresh_path demo_cfg "a.py" "/r" (demo_plain, demo_tree) = (Ok tt, (p2, x2))) as (p2 & x2 & E2)
      by (do 2 eexists; vm_compute; reflexivity).
    destruct (sidecar_mirrors_agent demo_cfg "a.py" "/r" "/r/a.py" demo_plain demo_tree ltac:(done) ltac:(vm_compute; reflexivity)
                ltac:(vm_compute; reflexivity) demo_pure) as (_ & _ & H).
    cbv zeta in H. rewrite E1, E2 in H. change (is_there "/r/a.py" demo_tree) with true in H. cbn [orb] in H.
    destruct H as [-> H]. exists p1, p2, x2, j. split; [exact E1|]. split; [exact E2|exact H].
  - destruct (sidecar_mirrors_agent demo_cfg "c.py" "/r" "/r/c.py" demo_plain demo_tree ltac:(done) ltac:(vm_compute; reflexivity)
                ltac:(vm_compute; reflexivity) demo_pure) as (_ & _ & H).
    cbv zeta in H. destruct (_refresh_path demo_cfg "c.py" (Some "/r") (demo_plain, demo_tree)) as [r1 [p1 x1]].
    destruct (_worker_index_refresh_path demo_cfg "c.py" "/r" (demo_plain, demo_tree)) as [r2 [p2 x2]].
    assert (is_there "/r/c.py" demo_tree || dhas (os_relpath demo_cfg "/r/c.py" (abspath demo_cfg "/r")) (get_files (p_current demo_plain)) = false)
      as Hb by (vm_compute; reflexivity).
    rewrite Hb in H. destruct H as [_ H].
    assert (same_suffix (os_relpath demo_cfg "/r/c.py" (abspath demo_cfg "/r")) (p_current demo_plain) = ["b/c.py"]) as Hs by (vm_compute; reflexivity).
    rewrite Hs in H. apply (H "/r/b/c.py"); vm_compute; reflexivity.
Defined.
Definition demo_inside (p : string) : Prop := p = "/r" ∨ p = "/r/b".
Definition demo_depth (p : string) : nat := if bool_decide (p = "/r") then 1 else 0.
Lemma demo_steady : steady demo_tree demo_inside demo_depth.
Proof.
  assert (∀ p e, text_of p demo_tree = Err e → exn_cls e ≠ OutOfFuel) as Ht.
  { intros p e. unfold text_of. destruct (dget p demo_tree); [done|]. by intros [= <-]. }
  split; try (intros p; split; [done|]; cbn; done).
  - intros p. split; [done|]. cbn. intros e. destruct (text_of p demo_tree) eqn:E; [done|]. cbn. intros [= <-]. by eapply Ht.
  - intros p. split; [done|]. cbn. intros e. destruct (text_of p demo_tree) eqn:E; [done|]. cbn. intros [= <-]. by eapply Ht.
  - intros p. split; [done|]. cbn. intros e. apply Ht.
  - intros p. split; [done|]. cbn. intros e. destruct (is_dir p demo_tree); [done|]. by intros [= <-].
  - intros p n m t. cbn. destruct (text_of p demo_tree); [|done]. cbn. by intros [= <-] [= <- _].
  - done.
  - intros top dirs names d [->| ->].
    + assert ((scandir "/r" demo_tree).1 = Ok (["b"], ["a.py"])) as -> by (vm_compute; reflexivity). intros [= <- <-] ->%list_elem_of_singleton _.
      split; [right; vm_compute; reflexivity|]. vm_compute. lia.
    + assert ((scandir "/r/b" demo_tree).1 = Ok ([], ["c.py"])) as -> by (vm_compute; reflexivity). by intros [= <- <-] ?%elem_of_nil.
Qed.
Lemma build_ends_witness :
  wp (_build demo_cfg 2 "/r") (fun _ s => total_bytes (p_current s.1) = Some 26%Z) (fun _ _ => False) (new_plain, demo_tree) ∧
  wp (_build demo_cfg 2 "/r") (fun _ s => s.2 = demo_tree ∧ ∃ n, total_bytes (p_current s.1) = Some n ∧ (n <= MAX_TOTAL_BYTES demo_cfg)%Z)
    (fun e _ => exn_cls e ≠ OutOfFuel) (new_plain, demo_tree).
Proof.
  split; [by vm_compute|]. apply (build_ends demo_cfg 2 "/r" demo_inside demo_depth new_plain demo_tree demo_steady); [by left|vm_compute; lia|by vm_compute].
Defined.

(** ** A refresh is not atomic

    The server answers every request in a thread of its own.  A snapshot that is
    taken between the copy of the tables and the update of a refresh shares the
    copied tables, and changes with them. *)
Lemma refresh_not_atomic :
  let edited := [("/r/a.py", "class B"); ("/r/b/c.py", "def f")] in
  let s0 := (serve demo_cfg 10 demo_build (new_side, demo_tree)).2 in
  let s1 := (set_locals cow s0).2 in
  let s2 := (_snapshot "s" s1).2 in
  let s3 := (refresh_rest demo_cfg "a.py" "/r" (s2.1, edited)).2 in
  let s4 := (_restore_snapshot "s" s3).2 in
  dget "a.py" (get_files (current s2.1)) ≠ dget "a.py" (get_files (current s4.1)).
Proof. vm_compute. done. Qed.
End CodeIndexSpec.
