(* ===== verification/Legacy.v ===== *)
(** * Replaying legacy state transitions ([legacy_schedule.py])

    Older trajectories are lists of transitions, each naming its previous
    state.  [convert_legacy] replays the recorded diffs and file reads of the
    transitions that ran, below a bootstrap checkpoint.

    Timestamps: [datetime.fromisoformat] on what [isoformat] prints
    ([YYYY-MM-DD?HH:MM:SS], optionally with 3 or 6 decimals and an offset
    [+HH:MM]); other forms are left out of the model. *)

From S2P Require Import Prelude PyStr PyDict Json Sha1 Schedule.
From Stdlib Require Import Ascii.

Module Legacy.
Import Sha1 Sha256 Schedule.

(** ** Timestamps *)

#[local] Open Scope Z_scope.

Fixpoint digits (n : nat) (l : list ascii) (acc : Z) : option (Z * list ascii) :=
  match n, l with
  | O, _ => Some (acc, l)
  | S n, c :: l => if is_digit c then digits n l (10 * acc + Z.of_nat (nat_of_ascii c - 48)) else None
  | S _, [] => None
  end.
Definition expect (c : ascii) (l : list ascii) : option (list ascii) :=
  match l with d :: l => if ch_eq c d then Some l else None | [] => None end.

Definition leap (y : Z) : bool := (y mod 4 =? 0) && (negb (y mod 100 =? 0) || (y mod 400 =? 0)).
Definition month_days (y m : Z) : Z :=
  if m =? 2 then (if leap y then 29 else 28) else if mem m [4; 6; 9; 11] then 30 else 31.
Definition ordinal (y m d : Z) : Z :=
  let p := y - 1 in
  365 * p + p / 4 - p / 100 + p / 400 + zsum (month_days y <$> seqZ 1 (m - 1)) + d.

(** Decimals of a second, in microseconds. *)
Definition decimals (l : list ascii) : option (Z * list ascii) :=
  match expect "." l with
  | None => Some (0, l)
  | Some l =>
      match digits 6 l 0 with
      | Some r => Some r
      | None => '(ms, l) ← digits 3 l 0; Some (1000 * ms, l)
      end
  end.
(** Offset from UTC in seconds, of an aware time. *)
Definition offset (l : list ascii) : option (option Z) :=
  match l with
  | [] => Some None
  | sign :: l =>
      '(h, l) ← digits 2 l 0; l ← expect ":" l; '(m, l) ← digits 2 l 0;
      match l with
      | [] => let o := 3600 * h + 60 * m in
              if ch_eq sign "+" then Some (Some o) else if ch_eq sign "-" then Some (Some (- o)) else None
      | _ => None
      end
  end.
Record datetime := Datetime { dt_us : Z; dt_offset : option Z }.
Definition parse_time (text : string) : option (result datetime) :=
  '(y, l) ← digits 4 (String.list_ascii_of_string text) 0; l ← expect "-" l;
  '(mo, l) ← digits 2 l 0; l ← expect "-" l; '(d, l) ← digits 2 l 0;
  l ← match l with _ :: l => Some l | [] => None end;
  '(h, l) ← digits 2 l 0; l ← expect ":" l; '(mi, l) ← digits 2 l 0; l ← expect ":" l; '(s, l) ← digits 2 l 0;
  '(us, l) ← decimals l; o ← offset l;
  Some (if (1 <=? y) && (1 <=? mo) && (mo <=? 12) && (1 <=? d) && (d <=? month_days y mo) &&
           (h <? 24) && (mi <? 60) && (s <? 60)
        then Ok (Datetime ((86400 * ordinal y mo d + 3600 * h + 60 * mi + s) * 1000000 + us) o)
        else raise ValueError "out of range").
Definition fromisoformat (j : json) : result datetime :=
  match j with
  | JStr text => match parse_time text with Some r => r | None => raise OutOfModel "timestamp format" end
  | _ => raise TypeError "fromisoformat: argument must be str"
  end.

(** [max(0., (end - start).total_seconds() * 1000)] *)
Definition fdiv_int (a : Z) (b : positive) : spec_float :=
  match a with
  | Z0 => fzero
  | Zpos p => fdiv (S754_finite false p 0) (S754_finite false b 0)
  | Zneg p => fdiv (S754_finite true p 0) (S754_finite false b 0)
  end.
Definition elapsed_ms (start stop : datetime) : result spec_float :=
  diff ← match dt_offset start, dt_offset stop with
         | None, None => Ok (dt_us stop - dt_us start)
         | Some a, Some b => Ok ((dt_us stop - 1000000 * b) - (dt_us start - 1000000 * a))
         | _, _ => raise TypeError "can't subtract offset-naive and offset-aware datetimes"
         end;
  let ms := fmul (fdiv_int diff 1000000) (fround 1000 0) in
  Ok (if SFltb fzero ms then ms else fzero).

#[local] Close Scope Z_scope.

(** ** Recorded diffs *)

Definition identifier (instance : string) (tid : key) : string :=
  stake 8 (sha1_hex (instance +:+ "::" +:+ key_text tid)).

(** [j == k] for a dictionary key [k] *)
Definition equals_key (j : json) (k : key) : result bool :=
  match j with
  | JArr _ | JObj _ => Ok false
  | _ => k' ← hash_key j; Ok (bool_decide (k' = k))
  end.

Definition hex64 (j : json) : result bool :=
  match j with
  | JStr s => Ok (bool_decide (String.length s = 64) &&
                  forallb (fun c => is_digit c || mem (nat_of_ascii c) [97; 98; 99; 100; 101; 102])
                          (String.list_ascii_of_string s))
  | _ => raise TypeError "expected string or bytes-like object"
  end.

Definition repair_matches (sha instance : string) (tid : key) (digest : string) (r : json) : result bool :=
  a ← pitem r "trace_sha256"; b ← pitem r "instance"; c ← pitem r "transition"; d ← pitem r "original_diff_sha256";
  if is_string a sha && is_string b instance then
    same ← equals_key c tid; Ok ((same : bool) && is_string d digest)
  else Ok false.

Fixpoint filterM {A} (f : A → result bool) (l : list A) : result (list A) :=
  match l with
  | [] => Ok []
  | x :: l => b ← f x; rest ← filterM f l; Ok (if (b : bool) then x :: rest else rest)
  end.

(** [{k: repair[k] for k in keys}] *)
Definition pick (repair : json) (keys : list string) : result json :=
  vs ← mapM (fun k => v ← pitem repair k; Ok (k, v)) keys; Ok (JObj vs).

Definition recorded_diff_op (diff_json : json) (trace_sha256 instance : string) (tid : key) (repairs : list json) : result json :=
  diff ← as_str diff_json;
  let digest := sha256_hex diff in
  matches ← filterM (repair_matches trace_sha256 instance tid digest) repairs;
  let op := [("type", JStr "apply_recorded_diff"); ("diff", JStr diff)] in
  match matches with
  | [] => Ok (JObj op)
  | [repair] =>
      rd ← pitem repair "repaired_diff"; repaired ← as_str rd; sha ← pitem repair "repaired_diff_sha256";
      if negb (is_string sha (sha256_hex repaired)) then raise ValueError "Changed recorded diff repair" else
      before ← pitem repair "before_sha256"; b ← hex64 before;
      ok ← (if negb b then Ok false else after ← pitem repair "after_sha256"; hex64 after);
      if negb ok then raise ValueError "Recorded diff repair requires complete file hashes" else
      validation ← pick repair ["path"; "before_sha256"; "after_sha256"];
      evidence ← pick repair ["trace_sha256"; "transition"; "original_diff_sha256"; "repaired_diff_sha256";
                              "pre_snapshot_sha256"; "post_snapshot_sha256"; "corroborating_successor_ids"];
      Ok (JObj (dset "diff" (JStr repaired) op ++
                [("original_diff", JStr diff); ("recorded_file_validation", validation); ("repair_evidence", evidence)]))
  | _ => raise ValueError "Ambiguous recorded diff repair"
  end.

(** ** Transitions *)

Definition skipped (tr : json) : result bool :=
  name ← pget tr "name"; Ok (existsb (is_string name) ["Pending"; "Rejected"; "Finished"]).

(** [parent_checkpoint]: the nearest state before [tid] that has a checkpoint;
    the fuel bounds the walk by the number of transitions. *)
Fixpoint parent_loop (fuel : nat) (root_id : string) (by_id : list (key * json)) (known : list (key * string))
    (seen : list key) (tid : json) : result string :=
  match fuel with
  | O => raise OutOfFuel ""
  | S fuel =>
      match tid with
      | JNull => Ok root_id
      | _ =>
          k ← hash_key tid;
          match dget k known with
          | Some c => Ok c
          | None =>
              if mem k seen then raise ValueError "Cycle in legacy state parents" else
              match dget k by_id with
              | None => raise ValueError "Missing legacy state parent"
              | Some t => next ← pget t "previous_state_id"; parent_loop fuel root_id by_id known (k :: seen) next
              end
          end
      end
  end.
Definition parent_checkpoint (root_id : string) (by_id : list (key * json)) (known : list (key * string)) (tr : json) : result string :=
  tid ← pget tr "previous_state_id";
  parent_loop (S (S (length by_id))) root_id by_id known [] tid.

Fixpoint view_context (items : list json) : result (list json) :=
  match items with
  | [] => Ok []
  | item :: items =>
      path ← pget item "file_path"; rest ← view_context items;
      Ok (if truth path then obj [("type", JStr "view_file"); ("path", path)] :: rest else rest)
  end.

Definition diff_of (action : json) : result json :=
  response ← pget action "response"; output ← pget (por response (obj [])) "output";
  pget (por output (obj [])) "diff".
Fixpoint diff_ops (sha instance : string) (tid : key) (repair_data : json) (actions : list json) : result (list json) :=
  match actions with
  | [] => Ok []
  | action :: actions =>
      diff ← diff_of action;
      op ← (if truth diff then
              rs ← pitem repair_data "repairs"; repairs ← piter rs;
              op ← recorded_diff_op diff sha instance tid repairs; Ok [op]
            else Ok []);
      rest ← diff_ops sha instance tid repair_data actions;
      Ok (op ++ rest)
  end.

Definition is_diff (op : json) : bool := match pget op "type" with Ok t => is_string t "apply_recorded_diff" | Err _ => false end.

(** The worker operations of one transition. *)
Definition transition_ops (sha instance : string) (repair_data tr : json) : result (list json) :=
  snapshot ← pget_or tr "snapshot" (obj []); fc ← pget snapshot "file_context";
  files ← pget_or (por fc (obj [])) "files" (JArr []);
  items ← piter files; views ← view_context items;
  acts ← pget_or tr "actions" (JArr []); actions ← piter acts;
  id ← pitem tr "id"; tid ← hash_key id;
  diffs ← diff_ops sha instance tid repair_data actions;
  let ops := match views ++ diffs with
             | [] => [obj [("type", JStr "noop"); ("note", JStr "legacy state has no recorded file IO; classifier boundary only")]]
             | ops => ops
             end in
  name ← pget tr "name";
  if negb (is_string name "EditCode") && existsb is_diff ops
  then raise ValueError "Legacy read-only classification contains a recorded write"
  else Ok ops.

Definition latency (tr : json) (next : option json) : result spec_float :=
  match next with
  | None => Ok fzero
  | Some next =>
      a ← pitem tr "created_at"; start ← fromisoformat a;
      b ← pitem next "created_at"; stop ← fromisoformat b;
      elapsed_ms start stop
  end.

(** ** Conversion *)

Definition bootstrap_ops : list json :=
  [obj [("type", JStr "noop"); ("note", JStr "initial physical state for legacy read-only roots")]].
Definition bootstrap (root_id : string) : json :=
  obj [("type", JStr "ckpt"); ("iter", JInt 0); ("ckpt_id", JStr root_id); ("strategy", JStr "standard");
       ("latency_ms", JFloat fzero); ("bootstrap", JBool true); ("worker_ops", JArr bootstrap_ops);
       ("worker_ops_required", JBool true)].
Definition transition_event (iter : nat) (cid : string) (adaptive paper_zero : bool) (tr : json) (tid : json)
    (l : spec_float) (ops : list json) : result json :=
  name ← pget tr "name"; state ← pitem tr "name";
  Ok (obj [("type", JStr "ckpt"); ("iter", JInt (Z.of_nat iter)); ("ckpt_id", JStr cid);
           ("strategy", JStr (if adaptive && negb (is_string name "EditCode") then "lightweight" else "standard"));
           ("latency_ms", JFloat (if paper_zero then fzero else l)); ("recorded_inter_transition_ms", JFloat l);
           ("latency_source", JStr (if paper_zero then "paper-zero" else "recorded-inter-transition-elapsed-not-isolated-LLM-RTT"));
           ("worker_ops", JArr ops); ("worker_ops_required", JBool true);
           ("legacy_transition_id", tid); ("legacy_state", state)]).

(** [{t['id']: t for t in transitions}] *)
Fixpoint index_transitions (l : list json) (by_id : list (key * json)) : result (list (key * json)) :=
  match l with
  | [] => Ok by_id
  | t :: l => id ← pitem t "id"; k ← hash_key id; index_transitions l (dset k t by_id)
  end.

(** The local variables of the loop of [convert_legacy]. *)
Record lstate := LState { l_events : list json; l_known : list (key * string); l_active : string }.

Section conversion.
Context (sha instance root_id : string) (repair_data : json) (adaptive paper_zero : bool) (by_id : list (key * json)).

Definition legacy_step (st : lstate) (tr : json) (next : option json) : result lstate :=
  skip ← skipped tr;
  if (skip : bool) then Ok st else
  parent ← parent_checkpoint root_id by_id (l_known st) tr;
  let events := if bool_decide (l_active st = parent) then l_events st
                else l_events st ++ [restore_event (Z.of_nat (length (l_events st))) parent] in
  ops ← transition_ops sha instance repair_data tr;
  l ← latency tr next;
  id ← pitem tr "id"; tid ← hash_key id;
  let cid := identifier instance tid in
  e ← transition_event (length events) cid adaptive paper_zero tr id l ops;
  Ok (LState (events ++ [e]) (dset tid cid (l_known st)) cid).

Fixpoint legacy_loop (st : lstate) (trs : list json) : result lstate :=
  match trs with
  | [] => Ok st
  | tr :: trs => st ← legacy_step st tr (head trs); legacy_loop st trs
  end.
End conversion.

(** [str(commit)] against [[0-9a-f]{40}] *)
Definition full_commit (commit : json) : bool :=
  let text := match commit with JStr s => s | JInt z => pretty z | _ => "" end in
  bool_decide (String.length text = 40) &&
  forallb (fun c => is_digit c || mem (nat_of_ascii c) [97; 98; 99; 100; 101; 102]) (String.list_ascii_of_string text).

(** [data] is the parsed trajectory, [sha] the digest of its file, [repair_data]
    the parsed fixture; the result is the list of events. *)
Definition convert_legacy (data : json) (sha : string) (repair_data : json) (instance : string) (adaptive : bool) (timing_policy : string)
    : result (list json) :=
  if negb (mem timing_policy ["paper-zero"; "recorded-wall"])
  then raise ValueError "legacy timing policy must be paper-zero or recorded-wall" else
  ts ← pitem data "transitions";
  version ← pitem repair_data "schema_version";
  match version with
  | JInt 1 =>
      workspace ← pget_or data "workspace" (obj []); repository ← pget workspace "repository";
      commit ← pget (por repository (obj [])) "commit";
      if negb (full_commit commit) then raise ValueError "Legacy trace has no full base commit" else
      let root_id := identifier instance (KStr "bootstrap") in
      trs ← piter ts;
      by_id ← index_transitions trs [];
      st ← legacy_loop sha instance root_id repair_data adaptive (bool_decide (timing_policy = "paper-zero")) by_id
             (LState [bootstrap root_id] [] root_id) trs;
      Ok (l_events st)
  | _ => raise ValueError "Unsupported legacy diff repair schema"
  end.

End Legacy.
