(* ===== verification/LegacySpec.v ===== *)
(** * Replaying a legacy schedule

    The state of a legacy transition is given by its worker operations on the
    state of the transition before it; transitions that did not run have the
    state of their predecessor.  The guest, running the converted schedule,
    saves exactly these states. *)

From S2P Require Import Prelude PyStr PyDict Json Sha1 Schedule ScheduleSpec ConvertSpec MakeSchedule Legacy.

Module LegacySpec.
Import Schedule ScheduleSpec Legacy.

Definition tr_key (t : json) : result key := id ← pitem t "id"; hash_key id.
Definition prev_id (t : json) : json := MakeSchedule.get t "previous_state_id".

(** ** The parent search ends *)

Lemma parent_loop_some fuel root_id by_id known seen tid : tid ≠ JNull →
  parent_loop (S fuel) root_id by_id known seen tid =
  (k ← hash_key tid;
   match dget k known with
   | Some c => Ok c
   | None =>
       if mem k seen then raise ValueError "Cycle in legacy state parents" else
       match dget k by_id with
       | None => raise ValueError "Missing legacy state parent"
       | Some t => next ← pget t "previous_state_id"; parent_loop fuel root_id by_id known (k :: seen) next
       end
   end).
Proof. by destruct tid. Qed.

Lemma parent_loop_total fuel root_id by_id known seen tid :
  NoDup seen → (∀ k, k ∈ seen → k ∈ dkeys by_id) → length by_id < fuel + length seen →
  parent_loop fuel root_id by_id known seen tid ≠ Err (Exn OutOfFuel "").
Proof.
  revert seen tid. induction fuel as [|fuel IH]; intros seen tid Hnd Hsub Hf; simpl.
  { pose proof (submseteq_length _ _ (NoDup_submseteq _ _ Hnd Hsub)) as Hl.
    unfold dkeys in Hl. rewrite length_fmap in Hl. lia. }
  destruct tid as [|b|z|f|s|l|d]; try done; unfold mbind, result_bind; simpl;
    (destruct (dget _ known); [done|]); (destruct (mem _ seen) eqn:Hm; [done|apply mem_false in Hm]);
    (destruct (dget _ by_id) as [t|] eqn:Hd; [|done]);
    (destruct (pget t _) as [next|] eqn:E; [|unfold pget, pget_or, no_attribute, raise in E; destruct t; congruence]);
    (apply IH; [by apply NoDup_cons| |simpl; lia]); intros k [->|?]%elem_of_cons; auto; apply dget_is_Some; eauto.
Qed.

(** The fuel of [parent_checkpoint] is enough. *)
Lemma parent_checkpoint_total root_id by_id known tr :
  parent_checkpoint root_id by_id known tr ≠ Err (Exn OutOfFuel "").
Proof.
  unfold parent_checkpoint, mbind, result_bind. destruct (pget tr _) eqn:E.
  - apply parent_loop_total; [constructor|by intros k ?%elem_of_nil|simpl; lia].
  - unfold pget, pget_or, no_attribute, raise in E. destruct tr; congruence.
Qed.

(** ** The recorded states *)

(** The key a value of [previous_state_id] names; [None] for the start. *)
Definition names (tid : json) (p : option key) : Prop :=
  match p with None => tid = JNull | Some k => tid ≠ JNull ∧ hash_key tid = Ok k end.
Definition prev_key (t : json) (p : option key) : Prop := names (prev_id t) p.

Lemma names_det tid p q : names tid p → names tid q → p = q.
Proof. destruct p, q; simpl; intros; destruct_and?; congruence. Qed.

Lemma index_transitions_ok l acc out :
  index_transitions l acc = Ok out → NoDup (tr_key <$> l) → (∀ t k, t ∈ l → tr_key t = Ok k → k ∉ dkeys acc) →
  (∀ t, t ∈ l → ∃ k, tr_key t = Ok k) ∧
  (∀ k t, dget k out = Some t ↔ dget k acc = Some t ∨ t ∈ l ∧ tr_key t = Ok k).
Proof.
  revert acc. induction l as [|t l IH]; intros acc; simpl.
  { intros [= <-] _ _. split; [by intros t ?%elem_of_nil|]. intros k t. set_solver. }
  unfold mbind, result_bind. destruct (pitem t "id") as [id|] eqn:Hid; [|done].
  destruct (hash_key id) as [k|] eqn:Hk; [|done]. intros Hi [Hn Hnd]%NoDup_cons Hfr.
  assert (tr_key t = Ok k) as Ht by (unfold tr_key, mbind, result_bind; by rewrite Hid).
  assert (k ∉ dkeys acc) as Hk0 by (by apply (Hfr t); [left|]).
  destruct (IH _ Hi Hnd) as [Hall Hix].
  { intros t' k' Hin Hk'. rewrite dkeys_dset, decide_False by done. intros [Hd|Hd]%elem_of_app; [by eapply (Hfr t'); [right| |]|].
    apply list_elem_of_singleton in Hd as ->. apply Hn, list_elem_of_fmap. exists t'. split; [by rewrite Ht, Hk'|done]. }
  split; [intros t' [->|?]%elem_of_cons; [by exists k|by apply Hall]|].
  intros k' t'. rewrite Hix. destruct (decide (k' = k)) as [->|Hne].
  - rewrite dget_dset_eq. split.
    + intros [[= <-]|[Hin Hk']]; [right; split; [left|done]|]. exfalso. apply Hn, list_elem_of_fmap. exists t'.
      split; [by rewrite Ht, Hk'|done].
    + intros [Hd|[[->|Hin]%elem_of_cons Hk']]; [|by left|by right]. exfalso. apply Hk0, dget_is_Some. eauto.
  - rewrite dget_dset_ne by done. split; [intros [?|[? ?]]; [by left|right; split; [by right|done]]|].
    intros [?|[[->|Hin]%elem_of_cons Hk']]; [by left|congruence|by right].
Qed.

Section replay.
Context {S : Type} (exec : list json → S → S) (s0 : S) (sha inst : string) (repair_data : json) (trs : list json).

(** The state after the transition of a key; [None] is the start. *)
Inductive recorded : option key → S → Prop :=
  | rec_start : recorded None (exec bootstrap_ops s0)
  | rec_skip t k p s :
      t ∈ trs → tr_key t = Ok k → skipped t = Ok true → prev_key t p → recorded p s → recorded (Some k) s
  | rec_run t k p s ops :
      t ∈ trs → tr_key t = Ok k → skipped t = Ok false → transition_ops sha inst repair_data t = Ok ops →
      prev_key t p → recorded p s → recorded (Some k) (exec ops s).

Context (by_id : list (key * json)) (root_id : string).
Hypothesis Hindex : ∀ k t, dget k by_id = Some t ↔ t ∈ trs ∧ tr_key t = Ok k.

Lemma same_transition t t' k : t ∈ trs → t' ∈ trs → tr_key t = Ok k → tr_key t' = Ok k → t = t'.
Proof.
  intros H H' Hk Hk'. assert (dget k by_id = Some t) by (by apply Hindex).
  assert (dget k by_id = Some t') by (by apply Hindex). congruence.
Qed.

(** Every transition has one recorded state. *)
Lemma recorded_det o s s' : recorded o s → recorded o s' → s = s'.
Proof.
  intros H. revert s'. induction H as [|t k p s Ht Hk Hs Hp _ IH|t k p s ops Ht Hk Hs Ho Hp _ IH]; intros s' H'.
  - by inversion H'.
  - inversion H' as [|t' k' p' u Ht' Hk' Hs' Hp' Hr|t' k' p' u ops' Ht' Hk' Hs' Ho' Hp' Hr]; subst;
      pose proof (same_transition _ _ _ Ht Ht' Hk Hk') as <-; [|congruence].
    pose proof (names_det _ _ _ Hp Hp') as <-. by apply IH.
  - inversion H' as [|t' k' p' u Ht' Hk' Hs' Hp' Hr|t' k' p' u ops' Ht' Hk' Hs' Ho' Hp' Hr]; subst;
      pose proof (same_transition _ _ _ Ht Ht' Hk Hk') as <-; [congruence|].
    pose proof (names_det _ _ _ Hp Hp') as <-. rewrite Ho in Ho'. injection Ho' as <-. f_equal. by apply IH.
Qed.

(** ** The loop *)

Definition saved_transition (w : world S) (k : key) : Prop :=
  ∃ s, recorded (Some k) s ∧ dget (KStr (identifier inst k)) (saved w) = Some s.

Record loop_inv (pre : list json) (st : lstate) (w : world S) : Prop := {
  li_replay : replay exec (l_events st) (World s0 []) = Some w;
  li_keys : dkeys (saved w) = ckpt_ids (l_events st);
  li_skip : ∀ t, t ∈ pre → is_Ok (skipped t) = true;
  li_known : ∀ t k, t ∈ pre → tr_key t = Ok k → skipped t = Ok false →
    dget k (l_known st) = Some (identifier inst k) ∧ saved_transition w k;
  li_only : ∀ k c, dget k (l_known st) = Some c → ∃ t, t ∈ pre ∧ tr_key t = Ok k ∧ skipped t = Ok false;
  li_root : dget (KStr root_id) (saved w) = Some (exec bootstrap_ops s0);
  li_active : dget (KStr (l_active st)) (saved w) = Some (live w);
}.

(** Every predecessor that is named is among the transitions before. *)
Definition closed (pre : list json) (tid : json) : Prop :=
  ∀ k, names tid (Some k) → ∃ p, p ∈ pre ∧ tr_key p = Ok k.

(** The search ends at the checkpoint of the state that is named. *)
Lemma parent_loop_ok pre st w fuel seen tid c :
  loop_inv pre st w → (∀ t, t ∈ pre → t ∈ trs) → (∀ t, t ∈ pre → closed pre (prev_id t)) → closed pre tid →
  parent_loop fuel root_id by_id (l_known st) seen tid = Ok c →
  ∃ p s, names tid p ∧ recorded p s ∧ dget (KStr c) (saved w) = Some s.
Proof.
  intros Hinv Hpre Hcl. revert seen tid. induction fuel as [|fuel IH]; intros seen tid Htid; [done|].
  assert (tid = JNull ∨ tid ≠ JNull) as [->|Hne] by (destruct tid; auto).
  { intros [= <-]. exists None, (exec bootstrap_ops s0). split; [done|]. split; [constructor|apply (li_root _ _ _ Hinv)]. }
  rewrite parent_loop_some by done. unfold mbind, result_bind. destruct (hash_key tid) as [k|] eqn:Hk; [|done].
  assert (names tid (Some k)) as Hn by done. destruct (Htid k Hn) as (t & Ht & Htk).
  destruct (dget k (l_known st)) as [c'|] eqn:Hd.
  - intros [= <-]. destruct (li_only _ _ _ Hinv _ _ Hd) as (t' & Ht' & Htk' & Hs).
    destruct (li_known _ _ _ Hinv _ _ Ht' Htk' Hs) as [Hd' (s & Hr & Hsv)]. rewrite Hd in Hd'. injection Hd' as ->.
    by exists (Some k), s.
  - destruct (mem k seen); [done|]. destruct (dget k by_id) as [t'|] eqn:Hb; [|done].
    apply Hindex in Hb as [Hin' Htk']. pose proof (same_transition _ _ _ (Hpre _ Ht) Hin' Htk Htk') as <-.
    destruct (pget t "previous_state_id") as [next|] eqn:Hnx; [|done]. intros Hc.
    assert (next = prev_id t) as -> by (destruct t; try done; by injection Hnx as <-).
    destruct (IH _ _ (Hcl _ Ht) Hc) as (p & s & Hp & Hr & Hsv). exists (Some k), s. split; [done|]. split; [|done].
    assert (is_Ok (skipped t) = true) as Hsk by (by apply (li_skip _ _ _ Hinv)).
    destruct (skipped t) as [[]|] eqn:Es; [| |done].
    + eapply rec_skip; try done.
    + destruct (li_known _ _ _ Hinv _ _ Ht Htk Es) as [Hkn _]. congruence.
Qed.

(** The state and the saved state of one more transition. *)
Lemma known_more st w pre t k cid s s' :
  loop_inv pre st w → KStr cid ∉ dkeys (saved w) → cid = identifier inst k → tr_key t = Ok k → t ∈ trs → (∀ t, t ∈ pre → t ∈ trs) →
  skipped t = Ok false → recorded (Some k) s →
  ∀ t' k', t' ∈ pre ++ [t] → tr_key t' = Ok k' → skipped t' = Ok false →
  dget k' (dset k cid (l_known st)) = Some (identifier inst k') ∧ saved_transition (World s' (dset (KStr cid) s (saved w))) k'.
Proof.
  intros Hinv Hfresh -> Hk Ht Hpre Hs Hr t' k' Hin Hk' Hs'. destruct (decide (k' = k)) as [->|Hne].
  - rewrite dget_dset_eq. split; [done|]. exists s. split; [done|]. simpl. by rewrite dget_dset_eq.
  - apply elem_of_app in Hin as [Hin| ->%list_elem_of_singleton]; [|congruence].
    destruct (li_known _ _ _ Hinv _ _ Hin Hk' Hs') as [Hd (u & Hu & Hsv)]. rewrite dget_dset_ne by done. split; [done|].
    exists u. split; [done|]. simpl. rewrite dget_dset_ne; [done|]. intros [= E]. apply Hfresh. rewrite E.
    apply dget_is_Some. eauto.
Qed.

(** What the restore in front of a transition achieves. *)
Definition rewind (st : lstate) (parent : string) : list json :=
  if bool_decide (l_active st = parent) then l_events st
  else l_events st ++ [restore_event (Z.of_nat (length (l_events st))) parent].
Lemma rewind_ok pre st w parent s :
  loop_inv pre st w → dget (KStr parent) (saved w) = Some s →
  replay exec (rewind st parent) (World s0 []) = Some (World s (saved w)) ∧
  ckpt_ids (rewind st parent) = ckpt_ids (l_events st).
Proof.
  intros Hinv Hs. unfold rewind. case_bool_decide as E.
  - split; [|done]. rewrite (li_replay _ _ _ Hinv). pose proof (li_active _ _ _ Hinv) as Ha.
    destruct w as [lv sv]. simpl in *. congruence.
  - rewrite replay_app, (li_replay _ _ _ Hinv), ckpt_ids_app. simpl. rewrite (replay_restore exec _ _ _ s) by done.
    by rewrite app_nil_r.
Qed.

Context (adaptive paper_zero : bool).
Notation step := (legacy_step sha inst root_id repair_data adaptive paper_zero by_id).

Lemma replay_transition n cid tr id l ops e (w : world S) :
  transition_event n cid adaptive paper_zero tr id l ops = Ok e →
  replay_event exec e w = Some (World (exec ops (live w)) (dset (KStr cid) (exec ops (live w)) (saved w))) ∧
  ckpt_ids [e] = [KStr cid].
Proof.
  unfold transition_event, mbind, result_bind. destruct (pget tr "name"); [|done]. destruct (pitem tr "name"); [|done].
  by intros [= <-].
Qed.

Lemma step_ok pre st w t next st' :
  loop_inv pre st w → (∀ t, t ∈ pre → t ∈ trs) → (∀ t, t ∈ pre → closed pre (prev_id t)) →
  t ∈ trs → closed pre (prev_id t) → step st t next = Ok st' → NoDup (ckpt_ids (l_events st')) →
  ∃ w', loop_inv (pre ++ [t]) st' w'.
Proof.
  intros Hinv Hpre Hcl Ht Hct Hst Hnd. unfold legacy_step, mbind, result_bind in Hst.
  destruct (skipped t) as [skip|] eqn:Hskip; [|done]. destruct skip.
  { injection Hst as <-. exists w. destruct Hinv as [H1 H2 H3 H4 H5 H6 H7]. constructor; try done.
    - intros t' [?| ->%list_elem_of_singleton]%elem_of_app; [by apply H3|by rewrite Hskip].
    - intros t' k' [Hin| ->%list_elem_of_singleton]%elem_of_app Hk' Hs'; [by apply (H4 _ _ Hin)|congruence].
    - intros k c Hd. destruct (H5 _ _ Hd) as (t' & ? & ? & ?). exists t'. set_solver. }
  destruct (parent_checkpoint root_id by_id (l_known st) t) as [parent|] eqn:Hp; [|done].
  fold (rewind st parent) in Hst.
  destruct (transition_ops sha inst repair_data t) as [ops|] eqn:Hops; [|done].
  destruct (latency t next) as [l|]; [|done].
  destruct (pitem t "id") as [id|] eqn:Hid; [|done]. destruct (hash_key id) as [k|] eqn:Hk; [|done].
  destruct (transition_event _ _ _ _ _ _ _ _) as [e|] eqn:He; [|done]. injection Hst as <-. simpl in Hnd.
  assert (tr_key t = Ok k) as Htk by (unfold tr_key, mbind, result_bind; by rewrite Hid).
  assert (∃ p s, prev_key t p ∧ recorded p s ∧ dget (KStr parent) (saved w) = Some s) as (p & s & Hpk & Hr & Hsv).
  { unfold parent_checkpoint, mbind, result_bind in Hp. destruct (pget t "previous_state_id") as [tid|] eqn:Hnx; [|done].
    assert (tid = prev_id t) as -> by (destruct t; try done; by injection Hnx as <-).
    by eapply parent_loop_ok. }
  destruct (rewind_ok _ _ _ _ _ Hinv Hsv) as [Hrw Hids].
  destruct (replay_transition _ _ _ _ _ _ _ (World s (saved w)) He) as [Hre Hce].
  assert (KStr (identifier inst k) ∉ dkeys (saved w)) as Hfresh.
  { rewrite ckpt_ids_app, Hce, Hids in Hnd. apply NoDup_app in Hnd as (_ & Hd & _). rewrite (li_keys _ _ _ Hinv).
    intros Hx. apply (Hd _ Hx). by left. }
  eexists (World (exec ops s) (dset (KStr (identifier inst k)) (exec ops s) (saved w))). constructor; simpl.
  - rewrite replay_app, Hrw. simpl. by rewrite Hre.
  - rewrite dkeys_dset, decide_False by done. by rewrite ckpt_ids_app, Hce, Hids, (li_keys _ _ _ Hinv).
  - intros t' [?| ->%list_elem_of_singleton]%elem_of_app; [by apply (li_skip _ _ _ Hinv)|by rewrite Hskip].
  - eapply known_more; try done. by eapply rec_run.
  - intros k' c. destruct (decide (k' = k)) as [->|Hne]; [intros _; exists t; set_solver|].
    rewrite dget_dset_ne by done. intros Hd. destruct (li_only _ _ _ Hinv _ _ Hd) as (t' & ? & ? & ?). exists t'. set_solver.
  - rewrite dget_dset_ne; [apply (li_root _ _ _ Hinv)|]. intros [= E]. apply Hfresh. rewrite E.
    apply dget_is_Some. rewrite (li_root _ _ _ Hinv). eauto.
  - by rewrite dget_dset_eq.
Qed.

Notation loop := (legacy_loop sha inst root_id repair_data adaptive paper_zero by_id).

Lemma step_extends st t next st' : step st t next = Ok st' → ∃ evs, l_events st' = l_events st ++ evs.
Proof.
  unfold legacy_step, mbind, result_bind. intros H. inv_ok.
  - exists []. by rewrite app_nil_r.
  - simpl. case_bool_decide; rewrite <-?app_assoc; eauto.
Qed.
Lemma loop_extends st post out : loop st post = Ok out → ∃ evs, l_events out = l_events st ++ evs.
Proof.
  revert st. induction post as [|t post IH]; intros st; simpl.
  { intros [= <-]. exists []. by rewrite app_nil_r. }
  unfold mbind, result_bind. destruct (step st t (head post)) as [st'|] eqn:E; [|done].
  intros (evs & ->)%IH. destruct (step_extends _ _ _ _ E) as [e ->]. rewrite <-app_assoc. eauto.
Qed.

Lemma loop_ok pre post st w out :
  loop_inv pre st w → trs = pre ++ post → loop st post = Ok out →
  (∀ pre t post, trs = pre ++ t :: post → closed pre (prev_id t)) →
  NoDup (ckpt_ids (l_events out)) → ∃ w', loop_inv trs out w'.
Proof.
  revert pre st w. induction post as [|t post IH]; intros pre st w Hinv Heq Hl Hcl Hnd.
  { injection Hl as <-. rewrite app_nil_r in Heq. subst pre. eauto. }
  simpl in Hl. unfold mbind, result_bind in Hl. destruct (step st t (head post)) as [st'|] eqn:E; [|done].
  destruct (step_ok pre st w t (head post) st') as [w' Hinv']; try done.
  - intros t' Ht'. rewrite Heq. set_solver.
  - intros t' Ht' k Hk. apply list_elem_of_split in Ht' as (p1 & p2 & ->).
    destruct (Hcl p1 t' (p2 ++ t :: post)) with (k := k) as (p & Hp & ?); [by rewrite Heq, <-app_assoc|done|].
    exists p. set_solver.
  - rewrite Heq. set_solver.
  - by apply (Hcl pre t post).
  - destruct (loop_extends _ _ _ Hl) as [evs Hevs]. rewrite Hevs, ckpt_ids_app in Hnd. by apply NoDup_app in Hnd as (? & _).
  - apply (IH (pre ++ [t]) st' w'); try done. by rewrite <-app_assoc.
Qed.
End replay.

(** ** The whole conversion *)

(** Each transition names a transition before it, or the start. *)
Fixpoint parents_first (seen : list key) (trs : list json) : bool :=
  match trs with
  | [] => true
  | t :: trs =>
      match prev_id t with
      | JNull => true
      | j => match hash_key j with Ok k => mem k seen | Err _ => true end
      end &&
      match tr_key t with Ok k => parents_first (k :: seen) trs | Err _ => false end
  end.

Lemma parents_first_ok seen trs : parents_first seen trs = true → ∀ pre t post, trs = pre ++ t :: post →
  ∀ k, names (prev_id t) (Some k) → k ∈ seen ∨ ∃ p, p ∈ pre ∧ tr_key p = Ok k.
Proof.
  revert seen. induction trs as [|t0 trs IH]; intros seen H pre t post E k [Hne Hk]; [by destruct pre|].
  cbn [parents_first] in H. apply andb_true_iff in H as [H1 H2]. destruct (tr_key t0) as [k0|] eqn:Hk0; [|done].
  destruct pre as [|p pre]; injection E as -> E.
  - left. destruct (prev_id _); simplify_eq/=; by apply mem_true in H1.
  - destruct (IH _ H2 _ _ _ E k) as [[->|?]%elem_of_cons|(q & ? & ?)]; [done|right; exists p; split; [left|done]|by left|].
    right. exists q. split; [by right|done].
Qed.

(** A small legacy trajectory: a search, a rejected state, an edit below it,
    and a plan that goes back to the search. *)
Definition demo_transition (id : Z) (prev : json) (name time : string) (files actions : list json) : json :=
  JObj [("id", JInt id); ("previous_state_id", prev); ("name", JStr name); ("created_at", JStr time);
        ("snapshot", JObj [("file_context", JObj [("files", JArr files)])]); ("actions", JArr actions)].
Definition demo_transitions : list json :=
  [demo_transition 1 JNull "SearchCode" "2024-05-01T10:00:00.250000" [JObj [("file_path", JStr "a.py")]] [];
   demo_transition 2 (JInt 1) "Rejected" "2024-05-01T10:00:01" [] [];
   demo_transition 3 (JInt 2) "EditCode" "2024-05-01T10:00:02" []
     [JObj [("response", JObj [("output", JObj [("diff", JStr "-x")])])]];
   demo_transition 4 (JInt 1) "PlanToCode" "2024-05-01T10:00:04" [] []].
Definition demo_data : json :=
  JObj [("transitions", JArr demo_transitions);
        ("workspace", JObj [("repository", JObj [("commit", JStr "0123456789abcdef0123456789abcdef01234567")])])].
Definition demo_repairs : json := JObj [("schema_version", JInt 1); ("repairs", JArr [])].

(** C35: a legacy schedule reproduces the recorded transitions: when the
    transitions have distinct ids and each follows the one it names, the guest
    runs the validated schedule whatever the worker and the initial state are,
    and every transition that ran is saved in its recorded state: its diffs and
    file reads on the state of the nearest transition before it that ran, the
    bootstrap checkpoint if there is none. *)
Theorem convert_legacy_reproduces {S} (exec : list json → S → S) (s0 : S) data sha repair_data inst adaptive policy evs trs :
  convert_legacy data sha repair_data inst adaptive policy = Ok evs →
  MakeSchedule.validate_schedule evs adaptive = Ok tt →
  pitem data "transitions" = Ok (JArr trs) → NoDup (tr_key <$> trs) → parents_first [] trs = true →
  ∃ w, replay exec evs (World s0 []) = Some w ∧
    ∀ t k, t ∈ trs → tr_key t = Ok k → skipped t = Ok false →
      ∃ s, (∀ s', recorded exec s0 sha inst repair_data trs (Some k) s' ↔ s' = s) ∧
           dget (KStr (identifier inst k)) (saved w) = Some s.
Proof.
  intros Hc Hv Htr Hnd Hpf. apply (MakeSchedule.validated_iff exec s0) in Hv as (_ & _ & Hids & _).
  unfold convert_legacy in Hc. inv_ok.
  match goal with Ht : piter (JArr trs) = Ok ?x |- _ => injection Ht as <- end.
  rename Heqr5 into Hi, Heqr6 into Hl, a4 into b.
  destruct (index_transitions_ok _ _ _ Hi Hnd) as [_ Hix]; [by intros ? ? _ _ ?%elem_of_nil|].
  assert (∀ k t, dget k b = Some t ↔ t ∈ trs ∧ tr_key t = Ok k) as Hindex by (intros k t; rewrite Hix; naive_solver).
  set (r := identifier inst (KStr "bootstrap")) in *.
  assert (loop_inv exec s0 sha inst repair_data trs r [] (LState [bootstrap r] [] r)
            (World (exec bootstrap_ops s0) [(KStr r, exec bootstrap_ops s0)])) as Hinv.
  { constructor; try done; [by intros t ?%elem_of_nil|by intros t k ?%elem_of_nil|simpl; by rewrite decide_True..]. }
  destruct (loop_ok exec s0 sha inst repair_data trs b r Hindex _ _ [] trs _ _ _ Hinv eq_refl Hl) as [w Hw].
  - intros pre t post E k Hk. by destruct (parents_first_ok _ _ Hpf _ _ _ E k Hk) as [?%elem_of_nil|?].
  - done.
  - exists w. split; [apply (li_replay _ _ _ _ _ _ _ _ _ _ Hw)|]. intros t k Ht Hk Hs.
    destruct (li_known _ _ _ _ _ _ _ _ _ _ Hw _ _ Ht Hk Hs) as [_ (s & Hr & Hsv)].
    exists s. split; [|done]. intros s'. split; [|by intros ->]. intros Hr'.
    by eapply (recorded_det exec s0 sha inst repair_data trs).
Qed.

Lemma convert_legacy_reproduces_witness :
  ∃ evs, convert_legacy demo_data "" demo_repairs "psf__requests-1" true "recorded-wall" = Ok evs ∧ length evs = 5 ∧
    ∃ w, replay MakeSchedule.demo_exec evs (World [] []) = Some w ∧
      ∀ t k, t ∈ demo_transitions → tr_key t = Ok k → skipped t = Ok false →
        ∃ s, (∀ s', recorded MakeSchedule.demo_exec [] "" "psf__requests-1" demo_repairs demo_transitions (Some k) s' ↔ s' = s) ∧
             dget (KStr (identifier "psf__requests-1" k)) (saved w) = Some s.
Proof.
  eexists. split; [vm_compute; reflexivity|]. split; [reflexivity|].
  eapply (convert_legacy_reproduces MakeSchedule.demo_exec [] demo_data "" demo_repairs "psf__requests-1" true "recorded-wall");
    [vm_compute; reflexivity|vm_compute; reflexivity|reflexivity| |vm_compute; reflexivity].
  apply (bool_decide_unpack _). vm_compute. exact I.
Defined.

End LegacySpec.
