(* ===== verification/Mcts.v ===== *)
(** * The host-side tree search ([agent/host/decoupled_mcts.py])

    The host keeps a tree of nodes, each with the checkpoint of the sandbox it
    stands for, selects a node by UCT, brings the sandbox back to it, lets the
    worker take one step and checkpoints the result.  Nodes are objects that
    refer to each other; here they are the entries of the list [nodes], in the
    order of their creation, and a reference is an index ([Node.id]).

    The sandbox driver, the worker client and the model proxy are the interface
    [Driver].  The logarithm is the platform's ([log]); all other floating
    point is IEEE binary64.  [str.lower] is that of ASCII. *)

From S2P Require Import Prelude Hoare PyStr PyDict Json.

Module Mcts.

Record node := Node {
  n_parent : option nat; n_ckpt : string; n_action : json; n_obs : json; n_finished : bool;
  n_depth : nat; n_children : list nat; n_visits : nat; n_value_sum : spec_float; n_reward : spec_float;
}.
Definition new_node (parent : option nat) (ckpt : string) (action obs : json) (finished : bool) (depth : nat) : node :=
  Node parent ckpt action obs finished depth [] 0 fzero fzero.

Definition infinity : spec_float := S754_infinity false.
(** The doubles nearest to 1.4, 1.0, 0.7, 0.6, 0.4, 0.3, 0.2 and 0.15. *)
Definition UCT_C : spec_float := S754_finite false 6305039478318694 (-52).
Definition f10 : spec_float := S754_finite false 4503599627370496 (-52).
Definition f07 : spec_float := S754_finite false 6305039478318694 (-53).
Definition f06 : spec_float := S754_finite false 5404319552844595 (-53).
Definition f04 : spec_float := S754_finite false 7205759403792794 (-54).
Definition f03 : spec_float := S754_finite false 5404319552844595 (-54).
Definition f02 : spec_float := S754_finite false 7205759403792794 (-55).
Definition f015 : spec_float := S754_finite false 5404319552844595 (-55).

(** An int of the code as a float, far below the range where that rounds. *)
Definition of_nat (n : nat) : spec_float := fround (Z.of_nat n) 0.

(** ** Selection *)

Section uct.
Context (log : nat → spec_float).

Definition q (n : node) : spec_float :=
  match n_visits n with O => fzero | v => fdiv (n_value_sum n) (of_nat v) end.

Definition _uct (child : node) (parent_visits : nat) : spec_float :=
  match n_visits child with
  | O => infinity
  | v => fadd (q child) (fmul UCT_C (fsqrt (fdiv (log (parent_visits + 1)) (of_nat v))))
  end.

(** [max(l, key=f)]: the first of the greatest. *)
Fixpoint max_by {A} (lt : spec_float * nat → spec_float * nat → bool) (f : A → spec_float * nat) (best : A) (l : list A) : A :=
  match l with
  | [] => best
  | x :: l => max_by lt f (if lt (f best) (f x) then x else best) l
  end.
Definition float_lt (a b : spec_float * nat) : bool := SFltb a.1 b.1.

Definition expandable (max_expansions : Z) (n : node) : bool :=
  negb (n_finished n) && (Z.of_nat (length (n_children n)) <? max_expansions)%Z.

Definition uct_of (nodes : list node) (parent_visits : nat) (c : nat) : spec_float * nat :=
  (match nodes !! c with Some n => _uct n parent_visits | None => fzero end, 0).

(** The outer option is the fuel, the inner one the result. *)
Fixpoint select_loop (fuel : nat) (nodes : list node) (max_expansions : Z) (id : nat) : option (option nat) :=
  match fuel with
  | O => None
  | S fuel =>
      match nodes !! id with
      | None => None
      | Some n =>
          if expandable max_expansions n then Some (Some id) else
          match n_children n with
          | [] => Some None
          | c :: cs => select_loop fuel nodes max_expansions (max_by float_lt (uct_of nodes (n_visits n)) c cs)
          end
      end
  end.
Definition _select (nodes : list node) (max_expansions : Z) : option (option nat) :=
  select_loop (length nodes) nodes max_expansions 0.
End uct.

(** ** Backpropagation *)

Definition visit (value : spec_float) (n : node) : node :=
  Node (n_parent n) (n_ckpt n) (n_action n) (n_obs n) (n_finished n) (n_depth n) (n_children n)
       (S (n_visits n)) (fadd (n_value_sum n) value) (n_reward n).
Fixpoint backprop_loop (fuel : nat) (nodes : list node) (cur : option nat) (value : spec_float) : option (list node) :=
  match cur with
  | None => Some nodes
  | Some i =>
      match fuel with
      | O => None
      | S fuel => match nodes !! i with
                  | None => None
                  | Some n => backprop_loop fuel (<[i := visit value n]> nodes) (n_parent n) value
                  end
      end
  end.
Definition _backprop (nodes : list node) (id : nat) (value : spec_float) : option (list node) :=
  backprop_loop (length nodes) nodes (Some id) value.

(** ** The sandbox *)

(** The driver, the worker client and the model proxy; the calls that can
    raise return in [M D]. *)
Class Driver (D : Type) := {
  d_start : M D unit;                      (* driver.start, client.connect *)
  d_init : M D json;                       (* client.init *)
  d_checkpoint : string → M D string;      (* driver.checkpoint: its ckpt_id *)
  d_restore : string → M D string;         (* driver.restore: fork_or_criu *)
  d_reopen : M D unit;                     (* client.reopen *)
  d_step : M D json;                       (* client.step *)
  d_verify : M D (Z * string);             (* one run of the verification: status, output *)
  d_git_diff : M D string;                 (* _git_diff *)
  d_write_out : string → M D unit;         (* Path(out).write_text *)
  d_close : M D unit; d_shutdown : M D unit; d_npd_stop : M D unit;
}.

(** The local variables of [run_decoupled]. *)
Record search := Search {
  s_nodes : list node; s_current : nat; s_candidates : list nat;
  s_restores : nat; s_forks : nat; s_step_failures : nat;
}.
Definition set_nodes f (s : search) := Search (f (s_nodes s)) (s_current s) (s_candidates s) (s_restores s) (s_forks s) (s_step_failures s).
Definition set_current i (s : search) := Search (s_nodes s) i (s_candidates s) (s_restores s) (s_forks s) (s_step_failures s).
Definition add_candidate i (s : search) := Search (s_nodes s) (s_current s) (s_candidates s ++ [i]) (s_restores s) (s_forks s) (s_step_failures s).
Definition count_restore (fork : bool) (s : search) :=
  Search (s_nodes s) (s_current s) (s_candidates s) (S (s_restores s)) (if fork then S (s_forks s) else s_forks s) (s_step_failures s).
Definition count_failure (s : search) := Search (s_nodes s) (s_current s) (s_candidates s) (s_restores s) (s_forks s) (S (s_step_failures s)).

Record mcts_config := Config {
  c_max_iter : Z; c_max_expansions : Z; c_verify : bool (* verify_cmd is set *); c_out : bool (* out is set *);
}.

Section run.
Context {D : Type} `{!Driver D} (log : nat → spec_float) (cfg : mcts_config).
Abbreviation C := (M (search * D)).

Definition on_driver {A} (m : M D A) : C A := fun s => let '(r, d) := m s.2 in (r, (s.1, d)).
Definition local (f : search → search) : C unit := mmod (fun s => (f s.1, s.2)).
Definition the_search : C search := s ← mget; mret s.1.
Definition node_at (id : nat) : C node :=
  s ← the_search; match s_nodes s !! id with Some n => mret n | None => mraise OutOfModel "dangling node" end.
Definition fuel_of {A} (o : option A) : C A := match o with Some a => mret a | None => mraise OutOfFuel "" end.

(** ** Evaluation *)

Definition edit_actions : list string :=
  ["stringreplace"; "replacelines"; "regexreplace"; "applypatch"; "createfile"; "appendstring"].

(** [((action or {}).get("action") or "").lower()] *)
Definition action_name (action : json) : result string :=
  a ← pget (por action (JObj [])) "action"; s ← as_str (por a (JStr "")); Ok (lower s).

(** The verification, tried again while it looks transient. *)
Fixpoint verify_loop (attempts : nat) (rc : Z) : C Z :=
  match attempts with
  | O => mret rc
  | S attempts =>
      '(rc, out) ← on_driver d_verify;
      if (rc =? 0)%Z || negb (contains out "not found") && negb (contains out "no tests ran") then mret rc
      else verify_loop attempts rc
  end.

Definition set_reward (id : nat) (r : spec_float) : C unit :=
  local (set_nodes (alter (fun n => Node (n_parent n) (n_ckpt n) (n_action n) (n_obs n) (n_finished n) (n_depth n)
                                         (n_children n) (n_visits n) (n_value_sum n) r) id)).

Definition _evaluate (id : nat) : C spec_float :=
  child ← node_at id;
  act ← lift_result (action_name (n_action child));
  if n_finished child then
    if c_verify cfg then
      rc ← verify_loop 3 1;
      let r := if (rc =? 0)%Z then f10 else f02 in
      _ ← set_reward id r; mret r
    else
      diff ← on_driver d_git_diff;
      let r := if bool_decide (strip diff = "") then f03 else f07 in
      _ ← set_reward id r; mret r
  else
    obs ← lift_result (as_str (por (n_obs child) (JStr "")));
    let obs_low := lower obs in
    if mem act edit_actions && negb (contains obs_low "not found") && negb (contains obs_low "error") then mret f06
    else if contains obs_low "not found" || contains obs_low "raised" || contains obs_low "invalid" then mret f015
    else mret f04.

(** ** The loop *)

(** Going back to a node that is not the current one. *)
Definition go_to (id : nat) : C unit :=
  n ← node_at id;
  how ← on_driver (d_restore (n_ckpt n));
  _ ← local (count_restore (bool_decide (how = "fork")));
  _ ← on_driver d_reopen;
  local (set_current id).

(** One worker step; every failure counts and aborts the search. *)
Definition worker_step : C json :=
  r ← mcatch (on_driver d_step) (fun _ => _ ← local count_failure; mraise RuntimeError "worker step failed; aborting to avoid a late action");
  ok ← lift_result (pget r "ok");
  if truth ok then mret r else _ ← local count_failure; mraise RuntimeError "worker step failed".

(** The child of [target]: appended to the nodes and to its parent's list. *)
Definition add_child (target : nat) (ckpt : string) (action obs : json) (finished : bool) : C nat :=
  s ← the_search;
  parent ← node_at target;
  let id := length (s_nodes s) in
  _ ← local (set_nodes (fun l =>
        alter (fun n => Node (n_parent n) (n_ckpt n) (n_action n) (n_obs n) (n_finished n) (n_depth n)
                             (n_children n ++ [id]) (n_visits n) (n_value_sum n) (n_reward n)) target l ++
        [new_node (Some target) ckpt action obs finished (S (n_depth parent))]));
  mret id.

Definition iteration (it : nat) (target : nat) : C unit :=
  s ← the_search;
  _ ← mwhen (negb (bool_decide (target = s_current s))) (go_to target);
  r ← worker_step;
  action ← lift_result (pget r "action");
  obs ← lift_result (pget_or r "observation" (JStr ""));
  fin ← lift_result (pget r "finished");
  ck ← on_driver (d_checkpoint ("n" +:+ pretty it));
  child ← add_child target ck action (por obs (JStr "")) (truth fin);
  _ ← local (set_current child);
  value ← _evaluate child;
  s ← the_search;
  nodes ← fuel_of (_backprop (s_nodes s) child value);
  _ ← local (set_nodes (fun _ => nodes));
  mwhen (truth fin) (local (add_candidate child)).

(** [for it in range(max_iter)], with its [break]. *)
Fixpoint iterations (n it : nat) : C unit :=
  match n with
  | O => mret tt
  | S n =>
      s ← the_search;
      target ← fuel_of (_select log (s_nodes s) (c_max_expansions cfg));
      match target with
      | None => mret tt
      | Some t => _ ← iteration it t; iterations n (S it)
      end
  end.

(** ** The result *)

(** [(reward, depth)] as tuples compare. *)
Definition better (a b : spec_float * nat) : bool :=
  if SFeqb a.1 b.1 then (a.2 <? b.2)%nat else SFltb a.1 b.1.
Definition reward_depth (nodes : list node) (i : nat) : spec_float * nat :=
  match nodes !! i with Some n => (n_reward n, n_depth n) | None => (fzero, 0) end.
Definition just_depth (nodes : list node) (i : nat) : spec_float * nat :=
  match nodes !! i with Some n => (fzero, n_depth n) | None => (fzero, 0) end.

(** The nodes whose action edited a file. *)
Fixpoint edited (l : list node) (i : nat) : result (list nat) :=
  match l with
  | [] => Ok []
  | n :: l =>
      keep ← (if truth (n_action n) then a ← action_name (n_action n); Ok (mem a edit_actions) else Ok false);
      rest ← edited l (S i);
      Ok (if (keep : bool) then i :: rest else rest)
  end.

Definition choose_best (s : search) : result (option nat) :=
  match s_candidates s with
  | c :: cs => Ok (Some (max_by better (reward_depth (s_nodes s)) c cs))
  | [] =>
      d ← edited (s_nodes s) 0;
      Ok (match d with c :: cs => Some (max_by better (just_depth (s_nodes s)) c cs) | [] => None end)
  end.

(** What [run_decoupled] returns; a run with [r_error] reports nothing else but
    [r_ok] and [r_restores]. *)
Record outcome := Outcome {
  r_ok : bool; r_solved : bool; r_step_failures : nat; r_best : option nat; r_patch : string;
  r_nodes : nat; r_restores : nat; r_finished : nat; r_error : option exn;
}.

Definition materialise (best : nat) : C string :=
  s ← the_search;
  _ ← mwhen (negb (bool_decide (best = s_current s)))
        (n ← node_at best;
         how ← on_driver (d_restore (n_ckpt n));
         _ ← local (count_restore (bool_decide (how = "fork")));
         local (set_current best));
  on_driver d_git_diff.

Definition body : C outcome :=
  _ ← on_driver d_start;
  ri ← on_driver d_init;
  ok ← lift_result (pget ri "ok");
  _ ← (if truth ok then mret tt else mraise RuntimeError "worker init failed");
  root_ck ← on_driver (d_checkpoint "root");
  _ ← local (fun s => set_current 0 (set_nodes (fun l => l ++ [new_node None root_ck JNull (JStr "") false 0]) s));
  _ ← iterations (Z.to_nat (c_max_iter cfg)) 0;
  s ← the_search;
  best ← lift_result (choose_best s);
  patch ← match best with Some b => materialise b | None => mret "" end;
  s ← the_search;
  let solved := match best with
                | Some b => match s_nodes s !! b with
                            | Some n => n_finished n && c_verify cfg && SFeqb (n_reward n) f10
                            | None => false
                            end
                | None => false
                end in
  _ ← mwhen (c_out cfg && negb (bool_decide (patch = ""))) (on_driver (d_write_out patch));
  mret (Outcome ((1 <? length (s_nodes s))%nat && bool_decide (s_step_failures s = 0)) solved (s_step_failures s) best patch
          (length (s_nodes s)) (s_restores s) (length (s_candidates s)) None).

Definition start : search := Search [] 0 [] 0 0 0.

(** The exceptions [except OSError] catches. *)
Definition os_error (e : exn) : bool :=
  mem (exn_cls e) [OSError; FileNotFoundError; ProcessLookupError; ChildProcessError; TimeoutError].

(** The body, its [except] and its [finally]: the three tear-downs run on
    every path; a failed one clears [ok], unless the proxy cannot be waited
    for, which is raised. *)
Definition run_decoupled : M D outcome := fun d =>
  let '(r, (s, d)) := body (start, d) in
  let result := match r with
                | Ok o => o
                | Err e => Outcome false false 0 None "" 0 (s_restores s) 0 (Some e)
                end in
  let '(_, d) := d_close d in
  let '(r1, d) := d_shutdown d in
  let '(r2, d) := d_npd_stop d in
  let fail := negb (is_Ok r1) || negb (is_Ok r2) in
  (match r2 with Err e => if os_error e then Ok tt else Err e | Ok _ => Ok tt end ≫= fun _ =>
   Ok (if fail then Outcome false (r_solved result) (r_step_failures result) (r_best result) (r_patch result)
                      (r_nodes result) (r_restores result) (r_finished result) (r_error result) else result), d).

End run.

(** ** A concrete sandbox

    Its state is the list of the steps taken; its worker follows a script, and
    a verification always passes.  A checkpoint is kept with the one before it. *)

Record toy := Toy {
  t_live : list json; t_current : option string; t_saved : list (string * (list json * option string));
  t_script : list json; t_dirty : bool;
}.

Definition toy_save (_ : string) : M toy string := fun d =>
  let c := pretty (length (t_saved d)) in
  if dhas c (t_saved d) then mraise OSError "exists" d
  else (Ok c, Toy (t_live d) (Some c) (dset c (t_live d, t_current d) (t_saved d)) (t_script d) (t_dirty d)).
Definition toy_back (c : string) : M toy string := fun d =>
  match dget c (t_saved d) with
  | Some (s, _) => (Ok "fork", Toy s (Some c) (t_saved d) (t_script d) false)
  | None => mraise KeyError c d
  end.
Definition toy_step : M toy json := fun d =>
  match t_script d with
  | [] => mraise RuntimeError "no reply" d
  | r :: rs => (Ok r, Toy (t_live d ++ [r]) (t_current d) (t_saved d) rs (t_dirty d))
  end.
Definition toy_touch {A} (a : A) : M toy A := fun d => (Ok a, Toy (t_live d) (t_current d) (t_saved d) (t_script d) true).

#[global] Instance toy_driver : Driver toy := {|
  d_start := mret tt; d_init := mret (JObj [("ok", JBool true)]);
  d_checkpoint := toy_save; d_restore := toy_back; d_reopen := mret tt; d_step := toy_step;
  d_verify := toy_touch (0%Z, ""); d_git_diff := toy_touch "diff"; d_write_out _ := mret tt;
  d_close := mret tt; d_shutdown := mret tt; d_npd_stop := mret tt;
|}.

Definition demo_reply (action : string) (finished : bool) : json :=
  JObj [("ok", JBool true); ("action", JObj [("action", JStr action)]); ("observation", JStr "done"); ("finished", JBool finished)].
Definition demo_toy (script : list json) : toy := Toy [] None [] script false.
(** [math.log] at 2 and 3. *)
Definition demo_log (n : nat) : spec_float :=
  match n with
  | 2 => S754_finite false 6243314768165359 (-53)
  | 3 => S754_finite false 4947709893870347 (-52)
  | _ => fzero
  end.

End Mcts.
