(* ===== verification/MctsSpec.v ===== *)
(** * What the tree search guarantees

    The sandbox promises the search to save and bring back states
    ([DriverLaws]); its worker may do anything ([worker] is a relation), and a
    verification or a diff may disturb the live state.  The tree the search
    builds is then a tree of executions: every node was saved in a state that
    one worker step made from the state saved for its parent. *)

From S2P Require Import Prelude Hoare PyStr PyDict Json Mcts.

Module MctsSpec.
Import Mcts.

(** ** The contract of the sandbox *)

(** [current]: the checkpoint the live sandbox started from, the next one's
    parent; a checkpoint is a state and its parent. *)
Class DriverLaws (D S : Type) `{!Driver D} := {
  sem : D → S;                                   (* the live sandbox: files and worker *)
  current : D → option string;
  saved : D → string → option (S * option string);
  worker : S → json → S → Prop;                  (* a step and its reply *)
  kept (d d' : D) : Prop := current d' = current d ∧ ∀ x, saved d' x = saved d x;
  law_checkpoint label d c d' : d_checkpoint label d = (Ok c, d') →
    saved d c = None ∧ sem d' = sem d ∧ current d' = Some c ∧
    ∀ x, saved d' x = if decide (x = c) then Some (sem d, current d) else saved d x;
  law_restore c d how d' s : d_restore c d = (Ok how, d') → saved d c = Some s →
    sem d' = s.1 ∧ current d' = Some c ∧ ∀ x, saved d' x = saved d x;
  law_step d r d' : d_step d = (Ok r, d') → worker (sem d) r (sem d') ∧ kept d d';
  law_reopen d d' : d_reopen d = (Ok tt, d') → sem d' = sem d ∧ kept d d';
  law_verify d r d' : d_verify d = (Ok r, d') → kept d d';
  law_diff d r d' : d_git_diff d = (Ok r, d') → kept d d';
}.

(** ** The shape of the tree *)

(** Parents come before their children, the lists of children are the nodes
    that name the parent, and nothing is below a finished node. *)
Record shape (max : Z) (nodes : list node) : Prop := {
  sh_root : ∃ r, nodes !! 0 = Some r ∧ n_parent r = None;
  sh_parent : ∀ i n, nodes !! i = Some n → i ≠ 0 → ∃ p pn, n_parent n = Some p ∧ p < i ∧ nodes !! p = Some pn ∧ i ∈ n_children pn;
  sh_children : ∀ i n c, nodes !! i = Some n → c ∈ n_children n → i < c ∧ ∃ m, nodes !! c = Some m ∧ n_parent m = Some i;
  sh_bounded : ∀ i n, nodes !! i = Some n → n_children n ≠ [] → n_finished n = false ∧ (Z.of_nat (length (n_children n)) <= max)%Z;
}.

(** ** Selection *)

Lemma max_by_elem {A} lt (f : A → spec_float * nat) best l : max_by lt f best l ∈ best :: l.
Proof.
  revert best. induction l as [|x l IH]; intros best; simpl; [left|].
  specialize (IH (if lt (f best) (f x) then x else best)). destruct (lt _ _); set_solver.
Qed.

Section select.
Context (log : nat → spec_float) (max : Z) (nodes : list node).
Hypothesis Hshape : shape max nodes.

(** The path of a selection: from a node that cannot be expanded to one of its
    children. *)
Inductive descends : nat → nat → Prop :=
  | desc_here i : descends i i
  | desc_child i j c n : nodes !! i = Some n → expandable max n = false → c ∈ n_children n → descends c j → descends i j.

Lemma select_loop_ok fuel i n : nodes !! i = Some n → length nodes - i <= fuel →
  ∃ r, select_loop log fuel nodes max i = Some r ∧
    match r with
    | Some t => descends i t ∧ ∃ m, nodes !! t = Some m ∧ expandable max m = true
    | None => ∃ t m, descends i t ∧ nodes !! t = Some m ∧ n_children m = [] ∧ expandable max m = false
    end.
Proof.
  revert i n. induction fuel as [|fuel IH]; intros i n Hi Hf.
  { apply lookup_lt_Some in Hi. lia. }
  simpl. rewrite Hi. destruct (expandable max n) eqn:He.
  { exists (Some i). split; [done|]. split; [constructor|]. by exists n. }
  destruct (n_children n) as [|c cs] eqn:Hcs.
  { exists None. split; [done|]. exists i, n. split; [constructor|]. done. }
  pose proof (max_by_elem float_lt (uct_of log nodes (n_visits n)) c cs) as Hin.
  set (b := max_by _ _ c cs) in *. rewrite <-Hcs in Hin.
  destruct (sh_children _ _ Hshape _ _ _ Hi Hin) as (Hlt & m & Hm & _).
  destruct (IH b m Hm) as (r & Hr & Hpost); [lia|]. exists r. split; [done|].
  destruct r as [t|].
  - destruct Hpost as [Hd ?]. split; [by eapply desc_child|done].
  - destruct Hpost as (t & m' & Hd & ?). exists t, m'. split; [by eapply desc_child|done].
Qed.

Lemma on_path i t m : descends i t → nodes !! t = Some m → n_children m = [] → expandable max m = false →
  ∀ n, nodes !! i = Some n → expandable max n = false.
Proof. intros Hd Ht _ He n Hi. inversion Hd; subst; congruence. Qed.

(** With at most one child each, the nodes form a chain, and a selection that
    comes to its end has seen them all. *)
Lemma chain_covered t m : (max <= 1)%Z → descends 0 t → nodes !! t = Some m → n_children m = [] → expandable max m = false →
  ∀ j n, nodes !! j = Some n → expandable max n = false ∧ descends j t.
Proof.
  intros Hmax H0 Ht Hc He. induction j as [j IH] using lt_wf_ind. intros n Hj.
  assert (descends j t) as Hd; [|split; [by eapply on_path|done]].
  destruct (decide (j = 0)) as [->|Hne]; [done|].
  destruct (sh_parent _ _ Hshape _ _ Hj Hne) as (p & pn & Hp & Hlt & Hpn & Hin).
  destruct (IH p Hlt pn Hpn) as [_ Hdp]. inversion Hdp as [|? ? c n' Hn' _ Hcin Hcd]; subst.
  - assert (pn = m) as -> by congruence. rewrite Hc in Hin. by apply elem_of_nil in Hin.
  - assert (n' = pn) as -> by congruence.
    assert (n_children pn ≠ []) as Hnil by (intros E; rewrite E in Hin; by apply elem_of_nil in Hin).
    destruct (sh_bounded _ _ Hshape _ _ Hpn Hnil) as [_ Hlen].
    destruct (n_children pn) as [|a [|b l]]; [done| |simpl in Hlen; lia].
    apply list_elem_of_singleton in Hin as ->. by apply list_elem_of_singleton in Hcin as ->.
Qed.
End select.

(** C39: the selection ends, with a node that can be expanded and is reached
    through nodes that cannot, or with [None], which stands for a leaf on the
    path of greatest UCT that cannot be expanded.  Only a search of at most one
    expansion per node (the default) is then exhausted. *)
Theorem select_spec log max nodes : shape max nodes →
  ∃ r, _select log nodes max = Some r ∧
    match r with
    | Some t => descends max nodes 0 t ∧ ∃ n, nodes !! t = Some n ∧ expandable max n = true
    | None => (∃ t n, descends max nodes 0 t ∧ nodes !! t = Some n ∧ n_children n = [] ∧ expandable max n = false) ∧
              ((max <= 1)%Z → ∀ j n, nodes !! j = Some n → expandable max n = false)
    end.
Proof.
  intros Hs. destruct (sh_root _ _ Hs) as (r0 & Hr & _).
  destruct (select_loop_ok log max nodes Hs (length nodes) 0 r0 Hr) as (r & Hsel & Hpost); [lia|].
  exists r. split; [done|]. destruct r as [t|]; [done|]. split; [done|]. intros Hmax j n Hj.
  destruct Hpost as (t & m & Hd & Ht & Hc & He). by eapply (chain_covered max nodes Hs t m).
Qed.

(** ** What keeps the shape *)

Definition static (n : node) := (n_parent n, n_ckpt n, n_action n, n_finished n, n_children n).
Definition same_tree (l l' : list node) : Prop := static <$> l = static <$> l'.

Lemma same_lookup l l' i n : same_tree l l' → l !! i = Some n → ∃ n', l' !! i = Some n' ∧ static n' = static n.
Proof.
  intros H Hi. assert ((static <$> l') !! i = Some (static n)) as E by (rewrite <-H, list_lookup_fmap, Hi; done).
  rewrite list_lookup_fmap in E. destruct (l' !! i) as [n'|]; [|done]. apply (inj Some) in E. eauto.
Qed.

Lemma same_length l l' : same_tree l l' → length l' = length l.
Proof. intros H. apply (f_equal length) in H. by rewrite !length_fmap in H. Qed.

Lemma same_sym l l' : same_tree l l' → same_tree l' l.
Proof. by intros. Qed.

Lemma shape_same max l l' : same_tree l l' → shape max l → shape max l'.
Proof.
  intros H [(r & Hr & Hn) H2 H3 H4].
  assert (∀ i n', l' !! i = Some n' → ∃ n, l !! i = Some n ∧ static n = static n') as Hback
    by (intros i n'; apply same_lookup, same_sym, H).
  constructor.
  - destruct (same_lookup _ _ _ _ H Hr) as (r' & ? & [= E _ _ _ _]). exists r'. split; [done|]. congruence.
  - intros i n' Hi Hne. destruct (Hback _ _ Hi) as (n & Hi0 & [= E1 _ _ _ _]).
    destruct (H2 _ _ Hi0 Hne) as (p & pn & ? & ? & Hp & ?).
    destruct (same_lookup _ _ _ _ H Hp) as (pn' & ? & [= _ _ _ _ E2]). exists p, pn'. repeat split; congruence.
  - intros i n' c Hi Hc. destruct (Hback _ _ Hi) as (n & Hi0 & [= _ _ _ _ E1]).
    destruct (H3 i n c Hi0) as (? & m & Hm & ?); [congruence|]. split; [done|].
    destruct (same_lookup _ _ _ _ H Hm) as (m' & ? & [= E2 _ _ _ _]). exists m'. split; congruence.
  - intros i n' Hi Hc. destruct (Hback _ _ Hi) as (n & Hi0 & [= _ _ _ E2 E1]).
    destruct (H4 i n Hi0) as [? ?]; [congruence|]. split; congruence.
Qed.

Lemma same_insert l i n n' : l !! i = Some n → static n' = static n → same_tree l (<[i := n']> l).
Proof.
  intros Hi E. unfold same_tree. rewrite list_fmap_insert, E. symmetry. apply list_insert_id.
  by rewrite list_lookup_fmap, Hi.
Qed.
Lemma same_alter l i f : (∀ n, static (f n) = static n) → same_tree l (alter f i l).
Proof.
  intros Hf. apply list_eq. intros j. rewrite !list_lookup_fmap, list_lookup_alter.
  case_decide as E; [subst j|done]. destruct (l !! i) as [n|]; [|done]. cbn [fmap option_fmap option_map]. by rewrite Hf.
Qed.

(** Backpropagation ends at the root and changes visits and values only. *)
Lemma backprop_ok max fuel nodes i v : shape max nodes → i < length nodes → i < fuel →
  ∃ out, backprop_loop fuel nodes (Some i) v = Some out ∧ same_tree nodes out.
Proof.
  revert nodes i. induction fuel as [|fuel IH]; intros nodes i Hs Hi Hf; [lia|]. simpl.
  destruct (lookup_lt_is_Some_2 _ _ Hi) as [n Hn]. rewrite Hn.
  assert (same_tree nodes (<[i := visit v n]> nodes)) as Hsame by (by eapply same_insert).
  destruct (decide (i = 0)) as [->|Hne].
  - destruct (sh_root _ _ Hs) as (r & Hr & Hrp). assert (r = n) as -> by congruence. rewrite Hrp.
    exists (<[0 := visit v n]> nodes). split; [by destruct fuel|done].
  - destruct (sh_parent _ _ Hs _ _ Hn Hne) as (p & pn & -> & Hlt & _ & _).
    destruct (IH (<[i := visit v n]> nodes) p) as (out & Ho & Hsame'); [by eapply shape_same|rewrite length_insert; lia|lia|].
    exists out. split; [done|]. by etrans.
Qed.

(** ** Growing the tree *)

(** The nodes after [add_child]. *)
Definition add_to (id : nat) (n : node) : node :=
  Node (n_parent n) (n_ckpt n) (n_action n) (n_obs n) (n_finished n) (n_depth n) (n_children n ++ [id]) (n_visits n)
       (n_value_sum n) (n_reward n).
Definition grow (l : list node) (t : nat) (child : node) : list node := alter (add_to (length l)) t l ++ [child].

Lemma grow_new l t child : grow l t child !! length l = Some child.
Proof. unfold grow. rewrite lookup_app_r; rewrite length_alter; [by rewrite Nat.sub_diag|lia]. Qed.
Lemma grow_old l t child i n : l !! i = Some n →
  grow l t child !! i = Some (if decide (i = t) then add_to (length l) n else n).
Proof.
  intros Hi. unfold grow. rewrite lookup_app_l by (rewrite length_alter; by eapply lookup_lt_Some).
  rewrite list_lookup_alter. repeat case_decide; subst; try done; by rewrite Hi.
Qed.
Lemma grow_lookup l t child i n : grow l t child !! i = Some n →
  (i = length l ∧ n = child) ∨ ∃ m, l !! i = Some m ∧ n = if decide (i = t) then add_to (length l) m else m.
Proof.
  intros H. destruct (decide (i < length l)) as [Hlt|Hge].
  - right. destruct (lookup_lt_is_Some_2 _ _ Hlt) as [m Hm]. exists m. split; [done|].
    rewrite (grow_old _ _ _ _ _ Hm) in H. by injection H.
  - left. apply lookup_lt_Some in H as Hl. unfold grow in Hl. rewrite length_app, length_alter in Hl. simpl in Hl.
    assert (i = length l) as -> by lia. rewrite grow_new in H. split; [done|]. by injection H.
Qed.

Lemma shape_grow max l t n child : shape max l → l !! t = Some n → expandable max n = true →
  n_parent child = Some t → n_children child = [] → shape max (grow l t child).
Proof.
  intros Hs Ht He Hp Hc. apply lookup_lt_Some in Ht as Hlt. constructor.
  - destruct (sh_root _ _ Hs) as (r & Hr & Hrp). eexists. split; [by apply grow_old|]. by case_decide.
  - intros i m Hi Hne. apply grow_lookup in Hi as [[-> ->]|(m0 & Hm & ->)].
    + exists t, (add_to (length l) n). rewrite (grow_old _ _ _ _ _ Ht), decide_True by done.
      repeat split; try done. simpl. apply elem_of_app. right. left.
    + destruct (sh_parent _ _ Hs _ _ Hm Hne) as (p & pn & Hpp & Hpi & Hpn & Hin).
      exists p, (if decide (p = t) then add_to (length l) pn else pn). rewrite (grow_old _ _ _ _ _ Hpn).
      repeat split; try done; [by case_decide|]. case_decide; [|done]. simpl. apply elem_of_app. by left.
  - intros i m c Hi Hin. apply grow_lookup in Hi as [[-> ->]|(m0 & Hm & ->)].
    + rewrite Hc in Hin. by apply elem_of_nil in Hin.
    + assert (c ∈ n_children m0 ∨ i = t ∧ c = length l) as [Hc0|[-> ->]].
      { case_decide as E; [|by left]. simpl in Hin. apply elem_of_app in Hin as [?|Hx%list_elem_of_singleton]; [by left|by right]. }
      * destruct (sh_children _ _ Hs _ _ _ Hm Hc0) as (? & k & Hk & Hkp). split; [done|].
        exists (if decide (c = t) then add_to (length l) k else k). rewrite (grow_old _ _ _ _ _ Hk). split; [done|]. by destruct (decide (c = t)).
      * split; [done|]. exists child. by rewrite grow_new.
  - intros i m Hi Hnil. apply grow_lookup in Hi as [[-> ->]|(m0 & Hm & ->)]; [done|].
    case_decide as E; [|by apply (sh_bounded _ _ Hs i)]. subst i. assert (m0 = n) as -> by congruence.
    unfold expandable in He. bool_hyps. simpl. split; [done|]. rewrite length_app. simpl. lia.
Qed.

(** ** The run *)

Section run.
Context {D S : Type} `{!Driver D} `{!DriverLaws D S} (log : nat → spec_float) (cfg : mcts_config).
Notation max := (c_max_expansions cfg).
Notation fine := (fun (_ : exn) (_ : search * D) => True).

(** Node [n] is what the reply of the worker said. *)
Definition reply_of (r : json) (n : node) : Prop :=
  ∃ fin, pget r "action" = Ok (n_action n) ∧ pget r "finished" = Ok fin ∧ n_finished n = truth fin.

(** Node [n] was saved in a state that one step made from the state saved for
    its parent, as the successor of its parent's checkpoint. *)
Definition executed (d : D) (l : list node) (n : node) : Prop :=
  ∃ p pn s0 s1 r, n_parent n = Some p ∧ l !! p = Some pn ∧ n_finished pn = false ∧
    saved d (n_ckpt pn) = Some s0 ∧ saved d (n_ckpt n) = Some s1 ∧ worker s0.1 r s1.1 ∧ s1.2 = Some (n_ckpt pn) ∧ reply_of r n.

Record inv (s : search) (d : D) : Prop := {
  i_shape : shape max (s_nodes s);
  i_saved : ∀ i n, s_nodes s !! i = Some n → is_Some (saved d (n_ckpt n));
  i_executed : ∀ i n, s_nodes s !! i = Some n → i ≠ 0 → executed d (s_nodes s) n;
  i_current : ∃ n, s_nodes s !! s_current s = Some n ∧ current d = Some (n_ckpt n) ∧
    (n_finished n = false → fst <$> saved d (n_ckpt n) = Some (sem d));
  i_candidates : ∀ i, i ∈ s_candidates s ↔ ∃ n, s_nodes s !! i = Some n ∧ n_finished n = true;
}.

Lemma wp_on_driver {A} (m : M D A) (Q : A → search * D → Prop) s d :
  (∀ r d', m d = (Ok r, d') → Q r (s, d')) → wp (on_driver m) Q fine (s, d).
Proof. intros H. unfold wp, on_driver. simpl. destruct (m d) as [[a|e] d'] eqn:E; auto. Qed.
Lemma wp_local f (Q : unit → search * D → Prop) s d : Q tt (f s, d) → wp (local f) Q fine (s, d).
Proof. done. Qed.
Lemma wp_the_search (Q : search → search * D → Prop) s d : Q s (s, d) → wp the_search Q fine (s, d).
Proof. done. Qed.
Lemma wp_node_at i (Q : node → search * D → Prop) s d :
  (∀ n, s_nodes s !! i = Some n → Q n (s, d)) → wp (node_at i) Q fine (s, d).
Proof. intros H. unfold wp, node_at, mbind, M_bind. simpl. destruct (s_nodes s !! i); simpl; auto. Qed.

Lemma go_to_ok s d t n : inv s d → s_nodes s !! t = Some n →
  wp (go_to t) (fun _ st => s_nodes st.1 = s_nodes s ∧ s_current st.1 = t ∧ s_candidates st.1 = s_candidates s ∧
                 (∀ x, saved st.2 x = saved d x) ∧ current st.2 = Some (n_ckpt n) ∧
                 fst <$> saved d (n_ckpt n) = Some (sem st.2)) fine (s, d).
Proof.
  intros Hinv Ht. destruct (i_saved _ _ Hinv _ _ Ht) as [st Hst]. unfold go_to.
  apply wp_bind, wp_node_at. intros n' Hn'. assert (n' = n) as -> by congruence.
  apply wp_bind, wp_on_driver. intros how d1 Hr. destruct (law_restore _ _ _ _ _ Hr Hst) as (Hsem & Hcu & Hsv).
  apply wp_bind, wp_local. apply wp_bind, wp_on_driver. intros [] d2 Ho. destruct (law_reopen _ _ Ho) as [Hsem' [Hcu' Hsv']].
  apply wp_local. simpl. repeat split; try done.
  - intros x. by rewrite Hsv', Hsv.
  - by rewrite Hcu', Hcu.
  - by rewrite Hst, Hsem', Hsem.
Qed.

Lemma worker_step_ok s d : wp worker_step (fun r st => st.1 = s ∧ worker (sem d) r (sem st.2) ∧ kept d st.2) fine (s, d).
Proof.
  unfold worker_step. apply wp_bind, wp_catch.
  unfold wp at 1, on_driver. simpl. destruct (d_step d) as [[r|e] d'] eqn:E.
  - destruct (law_step _ _ _ E) as [Hw Hs]. apply wp_bind, wp_lift. destruct (pget r "ok") as [ok|]; [|done].
    destruct (truth ok); [by apply wp_ret|]. apply wp_bind, wp_local. by apply wp_raise.
  - apply wp_bind, wp_local. by apply wp_raise.
Qed.

Lemma verify_loop_ok n rc s d :
  wp (verify_loop n rc) (fun _ st => st.1 = s ∧ kept d st.2) fine (s, d).
Proof.
  revert rc d. induction n as [|n IH]; intros rc d; simpl; [by apply wp_ret|].
  apply wp_bind, wp_on_driver. intros [rc' out] d' E. pose proof (law_verify _ _ _ E) as Hs.
  destruct (_ || _); [by apply wp_ret|]. eapply wp_mono; [apply IH| |done].
  intros ? ? [-> [Hc Hx]]. destruct Hs as [Hc' Hs]. split; [done|]. split; [congruence|]. intros x. by rewrite Hx.
Qed.

(** Evaluating changes rewards only, and leaves the live state of a node that
    is not finished alone. *)
Lemma evaluate_ok s d id n : s_nodes s !! id = Some n →
  wp (_evaluate cfg id) (fun _ st => same_tree (s_nodes s) (s_nodes st.1) ∧ s_current st.1 = s_current s ∧
    s_candidates st.1 = s_candidates s ∧ kept d st.2 ∧ (n_finished n = false → sem st.2 = sem d)) fine (s, d).
Proof.
  intros Hn. unfold _evaluate. apply wp_bind, wp_node_at. intros n' Hn'. assert (n' = n) as -> by congruence.
  apply wp_bind, wp_lift. destruct (action_name (n_action n)) as [act|]; [|done].
  destruct (n_finished n) eqn:Hf; [destruct (c_verify cfg)|].
  - apply wp_bind. eapply wp_mono; [apply verify_loop_ok| |done]. intros rc [s' d'] [E Hs]. simpl in *. subst s'.
    apply wp_bind, wp_local, wp_ret. simpl. split_and!; try done; by apply same_alter.
  - apply wp_bind, wp_on_driver. intros diff d' E. pose proof (law_diff _ _ _ E) as Hs.
    apply wp_bind, wp_local, wp_ret. simpl. split_and!; try done; by apply same_alter.
  - apply wp_bind, wp_lift. destruct (as_str _) as [obs|]; [|done].
    destruct (_ && _); [by apply wp_ret|]. destruct (_ || _); by apply wp_ret.
Qed.

(** ** One iteration *)

Definition core (n : node) := (n_parent n, n_ckpt n, n_action n, n_finished n).

Lemma executed_mono d d' l l' n n' :
  executed d l n → core n' = core n → (∀ x v, saved d x = Some v → saved d' x = Some v) →
  (∀ i m, l !! i = Some m → ∃ m', l' !! i = Some m' ∧ core m' = core m) → executed d' l' n'.
Proof.
  intros (p & pn & s0 & s1 & r & Hp & Hpn & Hf & Hs0 & Hs1 & Hw & Hpar & fin & Ha & Hfin & Hnf) [= E1 E2 E3 E4] Hsv Hl.
  destruct (Hl _ _ Hpn) as (pn' & Hpn' & [= F1 F2 F3 F4]). exists p, pn', s0, s1, r.
  repeat split; try congruence; [apply Hsv; congruence..|]. exists fin. repeat split; congruence.
Qed.

Lemma core_static n n' : static n' = static n → core n' = core n.
Proof. unfold static, core. congruence. Qed.

(** What one more node does to the tree and the candidates. *)
Lemma inv_grow s d s' d' t n child r st0 st1 :
  inv s d → s_nodes s !! t = Some n → expandable max n = true →
  fst <$> saved d (n_ckpt n) = Some st0 → worker st0 r st1 → reply_of r child →
  n_parent child = Some t → n_children child = [] →
  saved d (n_ckpt child) = None → (∀ x, saved d' x = if decide (x = n_ckpt child) then Some (st1, Some (n_ckpt n)) else saved d x) →
  current d' = Some (n_ckpt child) →
  (n_finished child = false → sem d' = st1) →
  same_tree (grow (s_nodes s) t child) (s_nodes s') → s_current s' = length (s_nodes s) →
  s_candidates s' = s_candidates s ++ (if n_finished child then [length (s_nodes s)] else []) →
  inv s' d'.
Proof.
  intros Hinv Ht He Hst0 Hw Hr Hp Hch Hfresh Hsv Hcd Hsem Hsame Hcur Hcand.
  apply fmap_Some in Hst0 as (sp0 & Hst0 & ->).
  set (l := s_nodes s) in *. set (g := grow l t child) in *.
  assert (∀ x v, saved d x = Some v → saved d' x = Some v) as Hmono.
  { intros x v Hx. rewrite Hsv. case_decide; [congruence|done]. }
  assert (∀ i m, l !! i = Some m → ∃ m', g !! i = Some m' ∧ core m' = core m) as Hold.
  { intros i m Hi. exists (if decide (i = t) then add_to (length l) m else m). split; [by apply grow_old|by case_decide]. }
  assert (∀ i m', s_nodes s' !! i = Some m' → ∃ m, g !! i = Some m ∧ core m = core m') as Hback.
  { intros i m' Hi. destruct (same_lookup _ _ _ _ (same_sym _ _ Hsame) Hi) as (m & ? & ?%core_static). eauto. }
  assert (∀ i m, g !! i = Some m → ∃ m', s_nodes s' !! i = Some m' ∧ core m' = core m) as Hfwd.
  { intros i m Hi. destruct (same_lookup _ _ _ _ Hsame Hi) as (m' & ? & ?%core_static). eauto. }
  assert (∀ i m, g !! i = Some m → (i = length l ∧ m = child) ∨ ∃ m0, l !! i = Some m0 ∧ core m = core m0) as Hg.
  { intros i m [[-> ->]|(m0 & ? & ->)]%grow_lookup; [by left|right]. exists m0. split; [done|by case_decide]. }
  constructor.
  - eapply shape_same; [exact Hsame|]. by eapply shape_grow; [apply Hinv|..].
  - intros i m' Hi. destruct (Hback _ _ Hi) as (m & Hm & [= _ <- _ _]). destruct (Hg _ _ Hm) as [[-> ->]|(m0 & Hm0 & [= _ -> _ _])].
    + rewrite Hsv, decide_True by done. eauto.
    + destruct (i_saved _ _ Hinv _ _ Hm0) as [v Hv]. rewrite (Hmono _ _ Hv). eauto.
  - intros i m' Hi Hne. destruct (Hback _ _ Hi) as (m & Hm & Hcore).
    destruct (Hg _ _ Hm) as [[-> ->]|(m0 & Hm0 & Hcore0)].
    + destruct (Hold _ _ Ht) as (n1 & Hn1 & Hc1). destruct (Hfwd _ _ Hn1) as (n2 & Hn2 & Hc2).
      destruct Hr as (fin & Ha & Hfin & Hf). injection Hcore as E1 E2 E3 E4. rewrite Hc1 in Hc2. injection Hc2 as F1 F2 F3 F4.
      unfold expandable in He. bool_hyps.
      exists t, n2, sp0, (st1, Some (n_ckpt n)), r. split_and!; try done; try congruence.
      * rewrite F2. by apply Hmono.
      * by rewrite Hsv, <-E2, decide_True.
      * simpl. congruence.
      * exists fin. repeat split; congruence.
    + eapply executed_mono; [by apply (i_executed _ _ Hinv i)|by rewrite <-Hcore|done|].
      intros k x Hk. destruct (Hold _ _ Hk) as (x1 & Hx1 & ?). destruct (Hfwd _ _ Hx1) as (x2 & ? & ?). exists x2. split; [done|congruence].
  - destruct (Hfwd (length l) child) as (c' & Hc' & [= E1 E2 E3 E4]); [apply grow_new|].
    exists c'. rewrite Hcur, E2. split_and!; [done|done|]. intros Hf. rewrite Hsv, decide_True by done. simpl. f_equal. symmetry. apply Hsem. congruence.
  - intros i. rewrite Hcand, elem_of_app, (i_candidates _ _ Hinv). split.
    + intros [(m & Hm & Hf)|Hi].
      * destruct (Hold _ _ Hm) as (m1 & Hm1 & Hc1). destruct (Hfwd _ _ Hm1) as (m2 & Hm2 & Hc2). exists m2. split; [done|].
        rewrite Hc1 in Hc2. by injection Hc2 as _ _ _ ->.
      * destruct (n_finished child) eqn:Hf; [|by apply elem_of_nil in Hi]. apply list_elem_of_singleton in Hi as ->.
        destruct (Hfwd (length l) child) as (c' & Hc' & [= E1 E2 E3 E4]); [apply grow_new|]. exists c'. split; [done|congruence].
    + intros (m' & Hm' & Hf). destruct (Hback _ _ Hm') as (m & Hm & [= _ _ _ E4]).
      destruct (Hg _ _ Hm) as [[-> ->]|(m0 & Hm0 & [= _ _ _ F4])].
      * right. rewrite E4, Hf. left.
      * left. exists m0. split; [done|congruence].
Qed.

Lemma iteration_ok it t n s d : inv s d → s_nodes s !! t = Some n → expandable max n = true →
  wp (iteration cfg it t) (fun _ st => inv st.1 st.2 ∧ length (s_nodes st.1) = Datatypes.S (length (s_nodes s))) fine (s, d).
Proof.
  intros Hinv Ht He. unfold iteration. apply wp_bind, wp_the_search. apply wp_bind.
  eapply (wp_mono _ (fun _ st => s_nodes st.1 = s_nodes s ∧ s_current st.1 = t ∧ s_candidates st.1 = s_candidates s ∧
                 (∀ x, saved st.2 x = saved d x) ∧ current st.2 = Some (n_ckpt n) ∧ fst <$> saved d (n_ckpt n) = Some (sem st.2))).
  { apply wp_when. destruct (decide (t = s_current s)) as [E|E].
    - rewrite bool_decide_eq_true_2 by done. simpl. destruct (i_current _ _ Hinv) as (n' & Hn' & Hcu & Hc).
      rewrite <-E in Hn'. assert (n' = n) as -> by congruence. unfold expandable in He. bool_hyps. by rewrite Hc.
    - rewrite bool_decide_eq_false_2 by done. simpl. by apply go_to_ok. }
  2: done. intros [] [s1 d1] (Hn1 & Hcur1 & Hcand1 & Hsv1 & Hcu1 & Hst1). simpl in *.
  apply wp_bind. eapply wp_mono; [apply worker_step_ok| |done]. intros r [s2 d2] (E & Hw & Hcu2 & Hsv2). simpl in *. subst s2.
  apply wp_bind, wp_lift. destruct (pget r "action") as [action|] eqn:Hact; [|done].
  apply wp_bind, wp_lift. destruct (pget_or r "observation" _) as [obs|]; [|done].
  apply wp_bind, wp_lift. destruct (pget r "finished") as [fin|] eqn:Hfin; [|done].
  apply wp_bind, wp_on_driver. intros ck d3 Hck. destruct (law_checkpoint _ _ _ _ Hck) as (Hfresh & Hsem3 & Hcu3 & Hsv3).
  apply wp_bind. unfold add_child. apply wp_bind, wp_the_search. apply wp_bind, wp_node_at.
  intros n' Hn'. rewrite Hn1 in Hn'. assert (n' = n) as -> by congruence. clear Hn'.
  apply wp_bind, wp_local. apply wp_ret. rewrite Hn1. cbn [fst snd].
  set (child := new_node (Some t) ck action (por obs (JStr "")) (truth fin) (Datatypes.S (n_depth n))).
  apply wp_bind, wp_local. apply wp_bind. unfold set_nodes, set_current. cbn.
  fold (add_to (length (s_nodes s))). rewrite Hn1. fold (grow (s_nodes s) t child).
  eapply wp_mono; [apply (evaluate_ok _ _ _ child); apply grow_new| |done].
  intros value [s4 d4] (Hsame & Hcur4 & Hcand4 & [Hcu4 Hsv4] & Hsem4). cbn in Hsame, Hcur4, Hcand4, Hcu4, Hsv4, Hsem4.
  apply wp_bind, wp_the_search. apply wp_bind. cbn [fst snd].
  assert (shape max (s_nodes s4)) as Hshape.
  { eapply shape_same; [exact Hsame|]. by eapply shape_grow; [apply Hinv|..]. }
  assert (length (s_nodes s4) = Datatypes.S (length (s_nodes s))) as Hlen.
  { rewrite (same_length _ _ Hsame). unfold grow. rewrite length_app, length_alter. simpl. lia. }
  destruct (backprop_ok max (length (s_nodes s4)) (s_nodes s4) (length (s_nodes s)) value Hshape) as (out & Hout & Hsame'); [lia..|].
  unfold _backprop. rewrite Hout. apply wp_ret. apply wp_bind, wp_local. apply wp_when. cbn [fst snd].
  assert (∀ s5, s_nodes s5 = out → s_current s5 = s_current s4 →
    s_candidates s5 = s_candidates s4 ++ (if truth fin then [length (s_nodes s)] else []) →
    inv s5 d4 ∧ length (s_nodes s5) = Datatypes.S (length (s_nodes s))) as Hfinal.
  { intros s5 E1 E2 E3. split; [|rewrite E1, (same_length _ _ Hsame'); done].
    eapply (inv_grow s d s5 d4 t n child r (sem d1) (sem d2)); try done.
    - by exists fin.
    - by rewrite <-Hsv1, <-Hsv2.
    - intros x. change (n_ckpt child) with ck. rewrite Hsv4, Hsv3, Hcu2, Hcu1. case_decide; [done|]. by rewrite Hsv2, Hsv1.
    - rewrite Hcu4. exact Hcu3.
    - intros Hf. by rewrite Hsem4.
    - rewrite E1. by etrans.
    - congruence.
    - rewrite E3, Hcand4, Hcand1. done. }
  destruct (truth fin) eqn:Htf.
  - apply wp_local. by apply Hfinal.
  - apply Hfinal; try done. cbn. by rewrite app_nil_r.
Qed.

Lemma iterations_ok k it s d : inv s d →
  wp (iterations log cfg k it) (fun _ st => inv st.1 st.2 ∧ length (s_nodes st.1) <= k + length (s_nodes s)) fine (s, d).
Proof.
  revert it s d. induction k as [|k IH]; intros it s d Hinv; simpl; [apply wp_ret; split; [done|simpl; lia]|].
  apply wp_bind, wp_the_search. apply wp_bind.
  destruct (sh_root _ _ (i_shape _ _ Hinv)) as (r0 & Hr0 & _).
  destruct (select_loop_ok log max (s_nodes s) (i_shape _ _ Hinv) (length (s_nodes s)) 0 r0 Hr0) as (o & Ho & Hpost); [lia|].
  unfold _select. rewrite Ho. apply wp_ret. destruct o as [t|]; [|apply wp_ret; split; [done|simpl; lia]].
  destruct Hpost as [_ (n & Hn & He)]. apply wp_bind. eapply wp_mono; [by apply (iteration_ok it t n)| |done].
  intros [] [s1 d1] [Hinv1 Hlen1]. simpl in *. eapply wp_mono; [by apply IH| |done].
  intros [] [s2 d2] [Hinv2 Hlen2]. simpl in *. split; [done|lia].
Qed.

(** The tree that stands at the end. *)
Record search_done (s : search) (d : D) : Prop := {
  sd_shape : shape max (s_nodes s);
  sd_length : length (s_nodes s) <= Datatypes.S (Z.to_nat (c_max_iter cfg));
  sd_saved : ∀ i n, s_nodes s !! i = Some n → is_Some (saved d (n_ckpt n));
  sd_executed : ∀ i n, s_nodes s !! i = Some n → i ≠ 0 → executed d (s_nodes s) n;
  sd_candidates : ∀ i, i ∈ s_candidates s ↔ ∃ n, s_nodes s !! i = Some n ∧ n_finished n = true;
}.

Lemma done_mono s s' d d' : search_done s d → s_nodes s' = s_nodes s → s_candidates s' = s_candidates s →
  (∀ x, saved d' x = saved d x) → search_done s' d'.
Proof.
  intros [H1 H2 H3 H4 H5] En Ec Hs. constructor; rewrite ?En, ?Ec; try done.
  - intros i n Hi. rewrite Hs. by eapply H3.
  - intros i n Hi Hne. eapply executed_mono; [by apply (H4 i)|done|intros x v; by rewrite Hs|eauto].
Qed.

Lemma choose_best_spec s b : choose_best s = Ok (Some b) → (∀ i, i ∈ s_candidates s → ∃ n, s_nodes s !! i = Some n ∧ n_finished n = true) →
  s_candidates s ≠ [] → ∃ n, s_nodes s !! b = Some n ∧ n_finished n = true.
Proof.
  unfold choose_best. destruct (s_candidates s) as [|c cs] eqn:E; [done|]. intros [= <-] Hc _. apply Hc.
  apply max_by_elem.
Qed.

Lemma materialise_ok b s d : search_done s d →
  wp (materialise b) (fun _ st => s_nodes st.1 = s_nodes s ∧ search_done st.1 st.2) fine (s, d).
Proof.
  intros Hd. unfold materialise. apply wp_bind, wp_the_search. apply wp_bind.
  eapply (wp_mono _ (fun _ st => s_nodes st.1 = s_nodes s ∧ search_done st.1 st.2)).
  - apply wp_when. destruct (negb _); [|done]. apply wp_bind, wp_node_at. intros n Hn.
    destruct (sd_saved _ _ Hd _ _ Hn) as [v Hv]. apply wp_bind, wp_on_driver. intros how d1 Hr.
    destruct (law_restore _ _ _ _ _ Hr Hv) as (_ & _ & Hs). apply wp_bind, wp_local, wp_local. split; [done|].
    by eapply done_mono.
  - intros [] [s1 d1] [E H1]. apply wp_on_driver. intros p d2 Hp. destruct (law_diff _ _ _ Hp) as [_ Hs]. split; [done|].
    by eapply done_mono.
  - done.
Qed.

(** What a run that was not aborted reports. *)
Definition reported (o : outcome) (s : search) : Prop :=
  r_nodes o = length (s_nodes s) ∧ r_finished o = length (s_candidates s) ∧ r_error o = None ∧
  (r_ok o = true → 1 < length (s_nodes s)) ∧
  (s_candidates s ≠ [] → ∃ b n, r_best o = Some b ∧ s_nodes s !! b = Some n ∧ n_finished n = true) ∧
  (r_solved o = true → ∃ b n, r_best o = Some b ∧ s_nodes s !! b = Some n ∧ n_finished n = true ∧ SFeqb (n_reward n) f10 = true).

Context {law_out : ∀ patch d d' x, d_write_out patch d = (Ok tt, d') → saved d' x = saved d x}.

Lemma body_ok d : wp (body log cfg) (fun o st => search_done st.1 st.2 ∧ reported o st.1) fine (start, d).
Proof.
  unfold body. apply wp_bind, wp_on_driver. intros [] d0 _. apply wp_bind, wp_on_driver. intros ri d1 _.
  apply wp_bind, wp_lift. destruct (pget ri "ok") as [ok|]; [|done]. apply wp_bind.
  destruct (truth ok); [apply wp_ret|by apply wp_raise].
  apply wp_bind, wp_on_driver. intros ck d2 Hck. destruct (law_checkpoint _ _ _ _ Hck) as (_ & Hsem & Hcu & Hsv).
  apply wp_bind, wp_local. unfold start, set_nodes, set_current. cbn.
  set (root := new_node None ck JNull (JStr "") false 0). apply wp_bind.
  eapply wp_mono; [apply iterations_ok| |done].
  - constructor; simpl.
    + constructor.
      * by exists root.
      * intros i n Hi Hne. destruct i; [done|by destruct i].
      * intros i n c Hi Hc. destruct i; [injection Hi as <-; by apply elem_of_nil in Hc|by destruct i].
      * intros i n Hi Hc. destruct i; [by injection Hi as <-|by destruct i].
    + intros i n Hi. destruct i; [injection Hi as <-|by destruct i]. simpl. rewrite Hsv, decide_True by done. eauto.
    + intros i n Hi Hne. destruct i; [done|by destruct i].
    + exists root. split_and!; [done|done|]. intros _. simpl. by rewrite Hsv, decide_True, Hsem by done.
    + intros i. split; [by intros ?%elem_of_nil|]. intros (n & Hi & Hf). destruct i; [by injection Hi as <-|by destruct i].
  - intros [] [s d3] [Hinv Hlen]. cbn in Hinv, Hlen.
    assert (search_done s d3) as Hd.
    { destruct Hinv. constructor; try done. simpl in Hlen. lia. }
    apply wp_bind, wp_the_search. apply wp_bind, wp_lift. destruct (choose_best s) as [best|] eqn:Hb; [|done].
    assert (s_candidates s ≠ [] → ∃ b n, best = Some b ∧ s_nodes s !! b = Some n ∧ n_finished n = true) as Hbest.
    { intros Hne. assert (∃ b, best = Some b) as [b ->].
      { unfold choose_best in Hb. destruct (s_candidates s); [done|]. injection Hb as <-. eauto. }
      destruct (choose_best_spec _ _ Hb) as (n & ? & ?); [intros i; by apply (sd_candidates _ _ Hd)|done|]. eauto. }
    apply wp_bind. eapply (wp_mono _ (fun _ st => s_nodes st.1 = s_nodes s ∧ search_done st.1 st.2)).
    { destruct best as [b|]; [by apply materialise_ok|by apply wp_ret]. }
    2: done. intros patch [s1 d4] [En Hd1]. apply wp_bind, wp_the_search. apply wp_bind. cbn in En, Hd1.
    eapply (wp_mono _ (fun _ st => st.1 = s1 ∧ search_done st.1 st.2)).
    { apply wp_when. destruct (_ && _); [|done]. apply wp_on_driver. intros [] d5 Ho. split; [done|].
      eapply done_mono; [exact Hd1|done..|]. intros x. exact (law_out _ _ _ x Ho). }
    2: done. intros [] [s2 d5] [E2 Hd2]. cbn in E2, Hd2. subst s2. apply wp_ret. cbn. split; [done|]. repeat split; cbn; try done.
    + intros [H _]%andb_true_iff. by apply Nat.ltb_lt.
    + intros Hne. destruct Hbest as (b & n & -> & Hn & Hf).
      { intros E. apply Hne. destruct (s_candidates s1) as [|i l] eqn:Ei; [done|].
        assert (i ∈ s_candidates s1) as Hi by (rewrite Ei; left). apply (sd_candidates _ _ Hd1) in Hi as (m & Hm & Hmf).
        rewrite En in Hm. assert (i ∈ s_candidates s) as Hi by (apply (sd_candidates _ _ Hd); eauto).
        rewrite E in Hi. by apply elem_of_nil in Hi. }
      exists b, n. by rewrite En.
    + destruct best as [b|]; [|done]. destruct (s_nodes s1 !! b) as [n|] eqn:Hn; [|done].
      intros [[Hf _]%andb_true_iff Hr]%andb_true_iff. by exists b, n.
Qed.

End run.

(** C36: the tree a search builds is a tree of executions: in a run that ends
    without an error every node but the root was saved in a state that one
    worker step made, with the action, observation and verdict recorded in the
    node, from exactly the state saved for its parent, and as the successor of its
    parent's checkpoint - however the search
    jumped between branches, and although verifying a finished node may spoil
    the live state.  The candidates are the finished nodes, one of which is
    chosen if there is any. *)
Theorem search_tree_executions {D S} `{!Driver D} `{!DriverLaws D S}
    (Hout : ∀ patch d d' x, d_write_out patch d = (Ok tt, d') → saved d' x = saved d x)
    log cfg d o s d' :
  body log cfg (start, d) = (Ok o, (s, d')) → search_done cfg s d' ∧ reported o s.
Proof.
  intros H. pose proof (body_ok log cfg (law_out := Hout) d) as Hwp. unfold wp in Hwp. by rewrite H in Hwp.
Qed.

(** ** The concrete sandbox *)

#[global] Program Instance toy_laws : DriverLaws toy (list json) := {|
  sem := t_live; current := t_current; saved d c := dget c (t_saved d); worker s r s' := s' = s ++ [r];
|}.
Next Obligation.
  intros label d c d'. simpl. unfold toy_save. destruct (dhas _ _) eqn:E; [done|]. intros [= <- <-]. simpl. split.
  - apply dget_None. intros Hin. unfold dhas in E. by rewrite bool_decide_eq_true_2 in E.
  - split_and!; [done..|]. intros x. case_decide as Ex; [subst; by rewrite dget_dset_eq|by rewrite dget_dset_ne].
Qed.
Next Obligation. intros c d how d' s. simpl. unfold toy_back. intros H Hs. rewrite Hs in H. destruct s. by injection H as _ <-. Qed.
Next Obligation. intros d r d'. simpl. unfold toy_step. destruct (t_script d); [done|]. by intros [= <- <-]. Qed.
Next Obligation. intros d d'. by intros [= <-]. Qed.
Next Obligation. intros d r d'. by intros [= _ <-]. Qed.
Next Obligation. intros d r d'. by intros [= _ <-]. Qed.

Definition demo_script : list json := [demo_reply "ViewCode" false; demo_reply "StringReplace" false; demo_reply "Finish" true].
Lemma search_tree_executions_witness :
  ∃ o s d', body demo_log (Config 3 2 true false) (start, demo_toy demo_script) = (Ok o, (s, d')) ∧
    length (s_nodes s) = 4 ∧ search_done (Config 3 2 true false) s d' ∧ reported o s.
Proof.
  assert (∃ o s d', body demo_log (Config 3 2 true false) (start, demo_toy demo_script) = (Ok o, (s, d')) ∧ length (s_nodes s) = 4)
    as (o & s & d' & H & Hl) by (do 3 eexists; split; [vm_compute; reflexivity|reflexivity]).
  exists o, s, d'. split; [exact H|]. split; [exact Hl|].
  refine (search_tree_executions _ _ _ _ _ _ _ H). by intros patch d0 d1 x [= <-].
Defined.

(** The tree after one expansion. *)
Definition demo_nodes : list node :=
  [add_to 1 (new_node None "0" JNull (JStr "") false 0); new_node (Some 0) "1" JNull (JStr "") false 1].
Lemma demo_shape : shape 1 demo_nodes.
Proof.
  constructor.
  - eexists. split; reflexivity.
  - intros [|[|i]] n H Hi; [done| |done]. injection H as <-. exists 0, (add_to 1 (new_node None "0" JNull (JStr "") false 0)).
    repeat split; [lia|simpl; left].
  - intros [|[|i]] n c H Hc; [| |done]; injection H as <-; simpl in Hc; [|by apply elem_of_nil in Hc].
    apply list_elem_of_singleton in Hc as ->. split; [lia|]. eexists. split; reflexivity.
  - intros [|[|i]] n H Hc; [| |done]; injection H as <-; [split; [done|simpl; lia]|done].
Qed.
Lemma select_spec_witness :
  _select demo_log demo_nodes 1 = Some (Some 1) ∧ ∃ r, _select demo_log demo_nodes 1 = Some r ∧
    match r with
    | Some t => descends 1 demo_nodes 0 t ∧ ∃ n, demo_nodes !! t = Some n ∧ expandable 1 n = true
    | None => (∃ t n, descends 1 demo_nodes 0 t ∧ demo_nodes !! t = Some n ∧ n_children n = [] ∧ expandable 1 n = false) ∧
              ((1 <= 1)%Z → ∀ j n, demo_nodes !! j = Some n → expandable 1 n = false)
    end.
Proof. split; [reflexivity|]. apply (select_spec demo_log 1 demo_nodes demo_shape). Defined.

(** with two expansions per node a search can give up while a node can
    still be expanded: here it stops after three of eight iterations because the
    branch of greatest UCT has finished, although node 2 is not finished and
    has no child. *)
Theorem search_gives_up :
  ∃ o s d', body demo_log (Config 8 2 true false)
      (start, demo_toy (demo_reply "Finish" true :: replicate 7 (demo_reply "ViewCode" false))) = (Ok o, (s, d')) ∧
    length (s_nodes s) = 3 ∧ ∃ n, s_nodes s !! 2 = Some n ∧ expandable 2 n = true.
Proof.
  do 3 eexists. split; [vm_compute; reflexivity|]. split; [reflexivity|]. eexists. split; reflexivity.
Qed.

End MctsSpec.
