(* ===== verification/Npd.v ===== *)
(** * The network proxy daemon and its polling client ([npd/npd.py], [npd/npd_client.py])

    The daemon owns the connection to the model.  Requests and responses are
    files named after a request id; two FIFOs carry the ids, one per line.  A
    restore of the sandbox bumps the epoch file, and responses to requests of an
    older epoch are to be dropped.

    The state is what the two sides share ([chan]); a worker thread of the
    daemon is a job that other activity can interleave with after each of its
    calls.  A failed call is a [false] in the label of a step.  Lines are ASCII,
    as the ids are. *)

From S2P Require Import Prelude PyStr PyDict Json.
From Stdlib Require Import Ascii.

Module Npd.

(** ** The model call *)

(** What one HTTP request comes to. *)
Inductive fetched :=
  | Body (j : json)                (* decoded JSON *)
  | HTTPError (status : Z)
  | Transport                      (* URLError, TimeoutError, ConnectionError *)
  | Raised (e : exn).              (* any other exception *)

Record npd_config := NpdConfig { api_key : string; api_base : string; max_attempts : Z; timeout_ok : bool }.

(** [j[0]] *)
Definition first_item (j : json) : result json :=
  match j with
  | JArr (x :: _) => Ok x
  | JStr (String c _) => Ok (JStr (String c EmptyString))
  | JArr [] | JStr EmptyString => raise IndexError "index out of range"
  | JObj _ => raise KeyError "0"
  | _ => raise TypeError "object is not subscriptable"
  end.

Definition read_reply (r : json) : result json :=
  choices ← pitem r "choices"; choice ← first_item choices;
  message ← pitem choice "message"; content ← pitem message "content";
  if negb (is_str content) then raise ValueError "LLM response has no text content" else
  usage ← pget_or r "usage" (JObj []); finish ← pget choice "finish_reason";
  Ok (JObj [("ok", JBool true); ("content", content); ("usage", usage); ("finish_reason", finish)]).

(** [except (ValueError, KeyError, IndexError, TypeError)] *)
Definition bad_reply (e : exn) : bool := mem (exn_cls e) [ValueError; KeyError; IndexError; TypeError].

Definition transient (status : Z) : bool := mem status [408; 429]%Z || (500 <=? status)%Z.

Section chat.
Context {W : Type} (fetch : json → M W fetched) (args : json).

(** What one attempt decides: a result, an exception, or another attempt. *)
Definition attempt : M W (option json) :=
  o ← fetch args;
  match o with
  | Body r => match read_reply r with
              | Ok v => mret (Some v)
              | Err e => if bad_reply e then mraise RuntimeError "LLM returned an invalid chat-completions response" else mthrow e
              end
  | HTTPError status => if transient status then mret None else mraise RuntimeError "LLM HTTP; request rejected"
  | Transport => mret None
  | Raised e => if bad_reply e then mraise RuntimeError "LLM returned an invalid chat-completions response" else mthrow e
  end.

(** [for attempt in range(attempts)], of which [n] are left. *)
Fixpoint attempts_loop (n : nat) : M W json :=
  match n with
  | O => mraise OutOfModel "no attempt"
  | S n =>
      o ← attempt;
      match o with
      | Some v => mret v
      | None => match n with
                | O => mraise RuntimeError "LLM unavailable"
                | S _ => attempts_loop n
                end
      end
  end.

Definition _chat (cfg : npd_config) : M W json :=
  if bool_decide (api_key cfg = "") || bool_decide (api_key cfg = "EMPTY") || bool_decide (api_base cfg = "")
  then mraise ValueError "API_KEY and API_BASE must be configured" else
  if negb ((1 <=? max_attempts cfg) && (max_attempts cfg <=? 10))%Z || negb (timeout_ok cfg)
  then mraise ValueError "invalid NPD retry/timeout configuration"
  else attempts_loop (Z.to_nat (max_attempts cfg)).
End chat.

(** ** Request ids and the epoch *)

(** [rid.find(".")], if there is one *)
Fixpoint find_dot (s : string) : option nat :=
  match s with
  | EmptyString => None
  | String c s => if ch_eq c "." then Some 0 else S <$> find_dot s
  end.

Definition _parse_rid_epoch (rid : string) : option Z :=
  if negb (startswith rid "ep") then None else
  match find_dot rid with
  | Some dot => if (dot <? 3)%nat then None
                else match parse_int (stake (dot - 2) (sdrop 2 rid)) with Ok z => Some z | Err _ => None end
  | None => None
  end.

(** What opening and reading the epoch file gave: [None] for an [OSError]. *)
Definition _read_current_epoch (got : option string) : Z :=
  match got with
  | None => 0
  | Some text =>
      let t := strip text in
      match parse_int (if bool_decide (t = "") then "0" else t) with Ok z => z | Err _ => 0 end
  end.

(** ** The shared state *)

(** [None] in a directory is a file that cannot be read as JSON; [epoch_file] is
    [None] before the first restore has written it. *)
Record chan := Chan {
  req_dir : list (string * option json); resp_dir : list (string * option json);
  req_fifo : string; notify : list string; epoch_file : option string;
}.
Definition set_req d (c : chan) := Chan d (resp_dir c) (req_fifo c) (notify c) (epoch_file c).
Definition set_resp d (c : chan) := Chan (req_dir c) d (req_fifo c) (notify c) (epoch_file c).
Definition set_fifo s (c : chan) := Chan (req_dir c) (resp_dir c) s (notify c) (epoch_file c).
Definition push_notify r (c : chan) := Chan (req_dir c) (resp_dir c) (req_fifo c) (notify c ++ [r]) (epoch_file c).
Definition set_epoch e (c : chan) := Chan (req_dir c) (resp_dir c) (req_fifo c) (notify c) e.

(** One call of [_read_current_epoch]; [ok] tells whether the file could be
    opened and read. *)
Definition read_epoch (ok : bool) (c : chan) : Z := _read_current_epoch (if ok then epoch_file c else None).

(** ** A worker thread

    [_process], cut where another thread or process can act in between. *)

Inductive phase :=
  | Loading
  | Asking (req : json)
  | Checking (resp : json)        (* about to read the epoch *)
  | Writing (resp : json)         (* has passed the filter *)
  | Notifying.
Record job := Job { j_rid : string; j_phase : phase }.

(** What the agent is told of an exception; its text is left out. *)
Definition error_response : json :=
  JObj [("ok", JBool false); ("content", JStr ""); ("error", JStr "")].

(** The arguments of [_chat] from a request: [float] and [int] of its fields. *)
Definition request_args (req : json) : result json :=
  messages ← pget_or req "messages" (JArr []);
  t ← pget_or req "temperature" (JFloat fzero); temperature ← to_float t;
  n ← pget_or req "max_tokens" (JInt 4000);
  match n with
  | JInt k => Ok (JObj [("messages", messages); ("temperature", JFloat temperature); ("max_tokens", JInt k)])
  | JNull | JArr _ | JObj _ => raise TypeError "int() argument must be a string or a real number"
  | _ => raise OutOfModel "max_tokens"
  end.
(** [_chat] on the fields of a request. *)
Definition ask {W} (fetch : json → M W fetched) (cfg : npd_config) (req : json) : M W json :=
  args ← lift_result (request_args req); _chat fetch args cfg.

Section process.
Context {W : Type} (chat : json → M W json).

(** One step of a job; [ok] tells whether its file operation succeeds. *)
Definition job_step (ok : bool) (j : job) (s : chan * W) : (chan * W) * option job :=
  let '(c, w) := s in
  let rid := j_rid j in
  match j_phase j with
  | Loading =>
      match dget rid (req_dir c) with
      | Some (Some req) =>
          ((if ok then set_req (dpop rid (req_dir c)) c else c, w), Some (Job rid (Asking req)))
      | _ => ((c, w), None)
      end
  | Asking req =>
      let '(r, w) := chat req w in
      let resp := match r with Ok v => v | Err _ => error_response end in
      ((c, w), Some (Job rid (Checking resp)))
  | Checking resp =>
      match _parse_rid_epoch rid with
      | Some sub_epoch => if (sub_epoch <? read_epoch ok c)%Z then ((c, w), None)
                          else ((c, w), Some (Job rid (Writing resp)))
      | None => ((c, w), Some (Job rid (Writing resp)))
      end
  | Writing resp =>
      if ok then ((set_resp (dset rid (Some resp) (resp_dir c)) c, w), Some (Job rid Notifying)) else ((c, w), None)
  | Notifying => ((if ok then push_notify rid c else c, w), None)
  end.

End process.

(** ** The dispatcher *)

Definition newline : ascii := PyStr.chr 10.

(** The [while] loop over complete lines: the lines and what is left over. *)
Fixpoint take_lines (buf cur : string) : list string * string :=
  match buf with
  | EmptyString => ([], srev cur)
  | String c buf =>
      if ch_eq c newline then let '(ls, rest) := take_lines buf "" in (srev cur :: ls, rest)
      else take_lines buf (String c cur)
  end.
(** [line.decode().strip()], dropped when empty *)
Definition rids_of (lines : list string) : list string :=
  List.filter (fun r => negb (bool_decide (r = ""))) (strip <$> lines).

(** One turn of the main loop on a chunk of the FIFO: the ids submitted to the
    pool and the new buffer. *)
Definition on_chunk (buf chunk : string) : list string * string :=
  let '(lines, rest) := take_lines (buf +:+ chunk) "" in (rids_of lines, rest).
Fixpoint on_chunks (buf : string) (chunks : list string) : list string * string :=
  match chunks with
  | [] => ([], buf)
  | c :: chunks =>
      let '(rids, buf) := on_chunk buf c in
      let '(more, buf) := on_chunks buf chunks in (rids ++ more, buf)
  end.

(** ** The client *)

Definition rid_of (epoch_exempt : bool) (epoch : Z) (uuid : string) : string :=
  if epoch_exempt then uuid else "ep" +:+ pretty epoch +:+ "." +:+ uuid.

(** [submit], when its writes succeed; [ok] tells whether the epoch could be read. *)
Definition submit (ok epoch_exempt : bool) (uuid : string) (req : json) (c : chan) : chan * (string * Z) :=
  let epoch := if epoch_exempt then (-1)%Z else read_epoch ok c in
  let rid := rid_of epoch_exempt epoch uuid in
  (set_fifo (req_fifo c +:+ rid +:+ String newline "") (set_req (dset rid (Some req) (req_dir c)) c), (rid, epoch)).

Inductive polled := Got (resp : json) | Cancelled | Again.

(** One turn of the loop of [wait]; [ok] tells whether its last call succeeds:
    the unlink of a response, or the read of the epoch. *)
Definition poll (ok : bool) (rid : string) (submit_epoch : Z) (c : chan) : chan * polled :=
  match dget rid (resp_dir c) with
  | Some (Some resp) => (if ok then set_resp (dpop rid (resp_dir c)) c else c, Got resp)
  | Some None => (c, Again)
  | None => (c, if (0 <=? submit_epoch)%Z && (submit_epoch <? read_epoch ok c)%Z then Cancelled else Again)
  end.

End Npd.
