(* ===== verification/NpdSpec.v ===== *)
(** * What the proxy guarantees

    Framing: however the bytes of the request FIFO are cut into reads, the
    daemon starts one job per submitted id, in order.  Epochs: once the epoch
    has moved past a request, nobody ever sees a response to it - provided its
    job had not passed the filter yet and the filter can read the epoch file;
    [stale_race] shows the first window, [unread_epoch_passes] the second. *)

From S2P Require Import Prelude PyStr PyDict PyInt Json Npd.
From Stdlib Require Import Ascii.

Module NpdSpec.
Import Npd.

(** ** Framing *)

Definition no_newline (s : string) : bool := sforall (fun c => negb (ch_eq c newline)) s.

Lemma append_nil_r (s : string) : s +:+ "" = s.
Proof. induction s as [|c s IH]; [done|]. change (String c s +:+ "") with (String c (s +:+ "")). by rewrite IH. Qed.
Lemma append_assoc (a b c : string) : a +:+ (b +:+ c) = (a +:+ b) +:+ c.
Proof.
  induction a as [|x a IH]; [done|]. change (String x a +:+ (b +:+ c)) with (String x (a +:+ (b +:+ c))).
  rewrite IH. done.
Qed.

(** A prefix without a newline only moves to the line being read. *)
Lemma take_lines_prefix r t cur : no_newline r = true → take_lines (r +:+ t) cur = take_lines t (srev r +:+ cur).
Proof.
  revert cur. induction r as [|c r IH]; intros cur H; [done|].
  unfold no_newline in H. simpl in H. apply andb_true_iff in H as [Hc Hr]. apply negb_true_iff in Hc.
  change (String c r +:+ t) with (String c (r +:+ t)). simpl. rewrite Hc, IH by done.
  by rewrite srev_cons, <-append_assoc.
Qed.

Lemma take_lines_rest s cur : no_newline cur = true → no_newline (take_lines s cur).2 = true.
Proof.
  revert cur. induction s as [|c s IH]; intros cur H; simpl; [unfold no_newline; by rewrite sforall_srev|].
  destruct (ch_eq c newline) eqn:E.
  - specialize (IH "" eq_refl). by destruct (take_lines s "").
  - apply IH. unfold no_newline in *. simpl. by rewrite E.
Qed.

(** Reading in two parts is reading at once. *)
Lemma take_lines_app s t cur :
  take_lines (s +:+ t) cur =
  let '(l1, r) := take_lines s cur in let '(l2, r') := take_lines t (srev r) in (l1 ++ l2, r').
Proof.
  revert cur. induction s as [|c s IH]; intros cur.
  - simpl. rewrite srev_involutive. change ("" +:+ t) with t. by destruct (take_lines t cur).
  - change (String c s +:+ t) with (String c (s +:+ t)). simpl. destruct (ch_eq c newline).
    + rewrite IH. destruct (take_lines s "") as [l1 r]. by destruct (take_lines t (srev r)).
    + apply IH.
Qed.

Lemma on_chunk_app buf a b : no_newline buf = true →
  on_chunk buf (a +:+ b) =
  let '(r1, buf1) := on_chunk buf a in let '(r2, buf2) := on_chunk buf1 b in (r1 ++ r2, buf2).
Proof.
  intros Hb. unfold on_chunk. rewrite append_assoc, take_lines_app.
  pose proof (take_lines_rest (buf +:+ a) "" eq_refl) as Hr.
  destruct (take_lines (buf +:+ a) "") as [l1 r]. simpl in Hr. rewrite take_lines_prefix by done.
  rewrite append_nil_r. destruct (take_lines b (srev r)) as [l2 r']. f_equal.
  unfold rids_of. by rewrite fmap_app, List.filter_app.
Qed.

Definition concat_bytes (chunks : list string) : string := foldr (fun c s => c +:+ s) "" chunks.

Lemma on_chunks_concat buf chunks : no_newline buf = true → on_chunks buf chunks = on_chunk buf (concat_bytes chunks).
Proof.
  revert buf. induction chunks as [|c chunks IH]; intros buf Hb.
  - simpl. unfold on_chunk. rewrite append_nil_r. pose proof (take_lines_prefix buf "" "" Hb) as H.
    rewrite append_nil_r in H. rewrite H. simpl. by rewrite append_nil_r, srev_involutive.
  - simpl. rewrite on_chunk_app by done. unfold on_chunk at 1 2.
    pose proof (take_lines_rest (buf +:+ c) "" eq_refl) as Hr.
    destruct (take_lines (buf +:+ c) "") as [l r]. simpl in Hr. by rewrite IH.
Qed.

(** An id as the clients make them: not empty, no space and no newline. *)
Definition valid_rid (rid : string) : bool :=
  negb (bool_decide (rid = "")) && sforall (fun c => negb (is_space c)) rid.
Definition signal (rid : string) : string := rid +:+ String newline "".

Lemma valid_no_newline rid : valid_rid rid = true → no_newline rid = true.
Proof.
  intros [_ H]%andb_true_iff. revert H. apply sforall_impl. intros c H. unfold ch_eq. rewrite bool_decide_eq_false_2; [done|].
  by intros ->.
Qed.
Lemma take_lines_signals rids : Forall (fun r => valid_rid r = true) rids →
  take_lines (concat_bytes (signal <$> rids)) "" = (rids, "").
Proof.
  induction 1 as [|r rids Hr H IH]; [done|].
  change (concat_bytes (signal <$> r :: rids)) with ((r +:+ String newline "") +:+ concat_bytes (signal <$> rids)).
  set (rest := concat_bytes (signal <$> rids)) in *.
  rewrite <-append_assoc, take_lines_prefix by (by apply valid_no_newline).
  change (String newline "" +:+ rest) with (String newline rest). simpl.
  by rewrite IH, append_nil_r, srev_involutive.
Qed.

Lemma rids_of_valid rids : Forall (fun r => valid_rid r = true) rids → rids_of rids = rids.
Proof.
  unfold rids_of. induction 1 as [|r rids Hr Hv IH]; [done|].
  unfold valid_rid in Hr. apply andb_true_iff in Hr as [Hne Hs].
  rewrite fmap_cons. cbn [List.filter]. rewrite strip_none, Hne by done. by rewrite IH.
Qed.

(** framing: whatever pieces the bytes of the request FIFO are read in,
    the daemon starts exactly the submitted requests, in the order of their
    submission, and nothing is left in its buffer. *)
Theorem requests_framed rids chunks :
  Forall (fun r => valid_rid r = true) rids → concat_bytes chunks = concat_bytes (signal <$> rids) →
  on_chunks "" chunks = (rids, "").
Proof.
  intros Hv E. rewrite on_chunks_concat, E by done. unfold on_chunk. change ("" +:+ ?x) with x.
  by rewrite take_lines_signals, rids_of_valid.
Qed.

Lemma requests_framed_witness :
  let rids := ["ep3.00ff"; "0a1b"] in
  let chunks := ["ep"; "3.00f"; String "f" (String newline "0"); "a1b" +:+ String newline ""] in
  Forall (fun r => valid_rid r = true) rids ∧ concat_bytes chunks = concat_bytes (signal <$> rids) ∧
  on_chunks "" chunks = (rids, "").
Proof.
  split; [repeat constructor|]. split; [reflexivity|].
  apply requests_framed; [repeat constructor|reflexivity].
Defined.

(** ** Epochs *)

Lemma stake_app a b : stake (String.length a) (a +:+ b) = a.
Proof.
  induction a as [|c a IH]; [by destruct b|]. change (String c a +:+ b) with (String c (a +:+ b)). simpl. by rewrite IH.
Qed.
Lemma find_dot_app a b : sforall (fun c => negb (ch_eq c ".")) a = true →
  find_dot (a +:+ String "." b) = Some (String.length a).
Proof.
  induction a as [|c a IH]; [done|]. simpl. intros [Hc Ha]%andb_true_iff. apply negb_true_iff in Hc.
  change (String c a +:+ String "." b) with (String c (a +:+ String "." b)). simpl. by rewrite Hc, IH.
Qed.

Lemma pretty_no_dot (z : Z) : sforall (fun c => negb (ch_eq c ".")) (pretty z) = true ∧ 1 <= String.length (pretty z).
Proof.
  assert (∀ x : N, sforall (fun c => negb (ch_eq c ".")) (pretty x) = true ∧ 1 <= String.length (pretty x)) as H.
  { intros x. split.
    - generalize (pretty_N_digits x). apply sforall_impl. intros c Hc. unfold ch_eq.
      rewrite bool_decide_eq_false_2; [done|]. by intros ->.
    - pose proof (pretty_N_nonempty x). destruct (pretty x); simpl; [done|lia]. }
  destruct z as [|p|p]; [done|apply (H (N.pos p))|].
  change (pretty (Z.neg p)) with (String "-" (pretty (N.pos p))). destruct (H (N.pos p)) as [H1 _]. split; [exact H1|simpl; lia].
Qed.

(** The daemon reads from an id the epoch the client put into it. *)
Lemma rid_epoch e uuid : _parse_rid_epoch (rid_of false e uuid) = Some e.
Proof.
  destruct (pretty_no_dot e) as [Hd Hl]. unfold rid_of, _parse_rid_epoch.
  assert (find_dot ("ep" +:+ pretty e +:+ "." +:+ uuid) = Some (2 + String.length (pretty e))) as E.
  { change ("ep" +:+ pretty e +:+ "." +:+ uuid) with (String "e" (String "p" (pretty e +:+ String "." uuid))).
    simpl. by rewrite find_dot_app. }
  rewrite E. change (startswith ("ep" +:+ pretty e +:+ "." +:+ uuid) "ep") with (String.prefix "" (pretty e +:+ "." +:+ uuid)).
  assert (∀ t, String.prefix "" t = true) as Hpre by (by intros []). rewrite Hpre. cbn [negb].
  assert ((2 + String.length (pretty e) <? 3) = false) as -> by (apply Nat.ltb_ge; lia).
  replace (2 + String.length (pretty e) - 2) with (String.length (pretty e)) by lia.
  change (sdrop 2 ("ep" +:+ pretty e +:+ "." +:+ uuid)) with (pretty e +:+ "." +:+ uuid).
  by rewrite stake_app, parse_int_pretty.
Qed.

(** The epoch a restore writes is the epoch that is read. *)
Lemma epoch_written z : _read_current_epoch (Some (pretty z)) = z.
Proof.
  assert (sforall (fun c => negb (is_space c)) (pretty z) = true ∧ pretty z ≠ "") as [Hs Hne].
  { destruct z as [|p|p]; [done|change (pretty (Z.pos p)) with (pretty (N.pos p))|change (pretty (Z.neg p)) with (String "-" (pretty (N.pos p)))].
    - split; [apply digits_not_space, pretty_N_digits|apply pretty_N_nonempty].
    - simpl. split; [apply digits_not_space, pretty_N_digits|done]. }
  unfold _read_current_epoch. rewrite strip_none by done. rewrite bool_decide_eq_false_2 by done. by rewrite parse_int_pretty.
Qed.

(** ** The system *)

#[local] Arguments _read_current_epoch : simpl never.

Section system.
Context {W : Type} (chat : json → M W json).

Record sys := Sys { s_chan : chan; s_world : W; s_jobs : list job; s_buf : string }.
Definition epoch (s : sys) : Z := _read_current_epoch (epoch_file (s_chan s)).

(** The job is about to read the epoch. *)
Definition at_filter (j : job) : bool := match j_phase j with Checking _ => true | _ => false end.

(** Clients submit and poll, the daemon reads its FIFO and its threads run, and
    a restore raises the epoch (Restore.bump_epoch writes [pretty] of it).  Any
    call can fail; [blind] are the requests for which the filter may fail to
    read the epoch file. *)
Context (blind : string → Prop).
Inductive step : sys → sys → Prop :=
  | st_submit ok exempt uuid req c w js b : step (Sys c w js b) (Sys (submit ok exempt uuid req c).1 w js b)
  | st_read chunk rest c w js b :
      req_fifo c = chunk +:+ rest →
      step (Sys c w js b) (Sys (set_fifo rest c) w (js ++ ((fun r => Job r Loading) <$> (on_chunk b chunk).1)) (on_chunk b chunk).2)
  | st_job ok i j c w js b c' w' o :
      js !! i = Some j → (ok = false → at_filter j = true → blind (j_rid j)) → job_step chat ok j (c, w) = (c', w', o) →
      step (Sys c w js b) (Sys c' w' (match o with Some k => <[i := k]> js | None => delete i js end) b)
  | st_poll ok rid e c w js b : step (Sys c w js b) (Sys (poll ok rid e c).1 w js b)
  | st_bump z c w js b : (_read_current_epoch (epoch_file c) <= z)%Z →
      step (Sys c w js b) (Sys (set_epoch (Some (pretty z)) c) w js b).

(** Nothing of request [rid] is visible, and no job for it has passed the filter. *)
Definition filtered (rid : string) (s : sys) : Prop :=
  rid ∉ dkeys (resp_dir (s_chan s)) ∧ rid ∉ notify (s_chan s) ∧
  ∀ j, j ∈ s_jobs s → j_rid j = rid → match j_phase j with Writing _ | Notifying => False | _ => True end.

Lemma dkeys_dpop {V} rid k (d : list (string * V)) : rid ∈ dkeys (dpop k d) → rid ∈ dkeys d.
Proof.
  unfold dkeys, dpop. intros ([k' v] & -> & H)%list_elem_of_fmap.
  apply list_elem_of_In, filter_In in H as [H _]. apply list_elem_of_fmap. exists (k', v). split; [done|].
  by apply list_elem_of_In.
Qed.

Lemma jobs_update (P : job → Prop) (js : list job) (i : nat) (o : option job) :
  (∀ j, j ∈ js → P j) → (∀ k, o = Some k → P k) → ∀ j, j ∈ (match o with Some k => <[i := k]> js | None => delete i js end) → P j.
Proof.
  intros Hjs Ho j Hj. destruct o as [k|].
  - apply list_elem_of_lookup in Hj as [n Hn]. apply list_lookup_insert_Some in Hn as [(_ & -> & _)|[_ Hn]]; [by apply Ho|].
    apply Hjs. by eapply list_elem_of_lookup_2.
  - apply Hjs. apply list_elem_of_lookup in Hj as [n Hn].
    destruct (decide (n < i)); [rewrite list_lookup_delete_lt in Hn by done|rewrite list_lookup_delete_ge in Hn by lia]; by eapply list_elem_of_lookup_2.
Qed.

Lemma step_filtered rid e s s' : ¬ blind rid → _parse_rid_epoch rid = Some e → (e < epoch s)%Z → filtered rid s → step s s' →
  (epoch s <= epoch s')%Z ∧ filtered rid s'.
Proof.
  intros Hnb Hrid He (Hr & Hn & Hj) Hs. destruct Hs as [ok exempt uuid req c w js b|chunk rest c w js b Hf|ok i j c w js b c1 w1 o1 Hi Hbl Heq|ok r e' c w js b|z c w js b Hz];
    unfold epoch in *; simpl in *.
  - split; [lia|]. done.
  - split; [lia|]. split; [done|]. split; [done|]. simpl. intros j [Hin|Hin]%elem_of_app; [by apply Hj|].
    apply list_elem_of_fmap in Hin as (r & -> & _). done.
  - assert (j ∈ js) as Hin by (by eapply list_elem_of_lookup_2).
    destruct j as [r ph]. unfold job_step in Heq. simpl in Heq.
    assert (∀ c' w' o, (c', w', o) = (c1, w1, o1) → epoch_file c' = epoch_file c → rid ∉ dkeys (resp_dir c') → rid ∉ notify c' →
      (∀ k, o = Some k → j_rid k = rid → match j_phase k with Writing _ | Notifying => False | _ => True end) →
      (_read_current_epoch (epoch_file c) <= _read_current_epoch (epoch_file c1))%Z ∧
      filtered rid (Sys c1 w1 (match o1 with Some k => <[i := k]> js | None => delete i js end) b)) as Hfin.
    { intros c' w' o [= <- <- <-] E H1 H2 Ho. rewrite E. split; [lia|]. split; [done|]. split; [done|]. simpl.
      apply (jobs_update (fun j => j_rid j = rid → match j_phase j with Writing _ | Notifying => False | _ => True end) js i o);
        [apply Hj|apply Ho]. }
    destruct ph as [|req|resp|resp|].
    + destruct (dget r (req_dir c)) as [[req|]|]; apply (Hfin _ _ _ Heq); try done; try (by destruct ok).
      intros k [= <-]. done.
    + destruct (chat req w) as [res w']. apply (Hfin _ _ _ Heq); try done. intros k [= <-]. done.
    + destruct (decide (r = rid)) as [->|Hne].
      * assert (ok = true) as -> by (destruct ok; [done|exfalso; by apply Hnb, Hbl]).
        unfold read_epoch in Heq. rewrite Hrid, (proj2 (Z.ltb_lt _ _) He) in Heq. by apply (Hfin _ _ _ Heq).
      * assert (∀ o, (∀ k, o = Some k → j_rid k = r) → ∀ k, o = Some k → j_rid k = rid →
          match j_phase k with Writing _ | Notifying => False | _ => True end) as Ho
          by (intros o Ho k Hk Hkr; specialize (Ho k Hk); congruence).
        destruct (_parse_rid_epoch r) as [e'|]; [destruct (_ <? _)%Z|]; apply (Hfin _ _ _ Heq); try done; apply Ho; by intros k [= <-].
    + assert (r ≠ rid) as Hne by (intros ->; by apply (Hj _ Hin)).
      destruct ok; apply (Hfin _ _ _ Heq); try done.
      * simpl. rewrite dkeys_dset. case_decide; [done|]. rewrite elem_of_app, list_elem_of_singleton. naive_solver.
      * intros k [= <-] Hk. simpl in Hk. congruence.
    + assert (r ≠ rid) as Hne by (intros ->; by apply (Hj _ Hin)).
      destruct ok; apply (Hfin _ _ _ Heq); try done. simpl. rewrite elem_of_app, list_elem_of_singleton. naive_solver.
  - unfold poll. destruct (dget r (resp_dir c)) as [[resp|]|]; simpl; [|split; [lia|done]..].
    destruct ok; simpl; (split; [lia|]); (split; [|done]); [|done]. simpl. intros H. by apply dkeys_dpop, Hr in H.
  - rewrite epoch_written. split; [lia|]. done.
Qed.

End system.

(** C40: the epoch filter: once a restore has raised the epoch above that of a
    request of which nothing is visible and no job has passed the filter, no
    response and no notification for it ever appears, whatever the daemon, the
    clients and further restores do and whichever of their calls fail, as long
    as the filter can read the epoch file when it looks at this request ([blind]
    are the requests for which it could not); and a client that waits for it is
    told that it was cancelled at every turn in which it can read the epoch. *)
Theorem stale_responses_dropped {W} (chat : json → M W json) (blind : string → Prop) e uuid s s' ok :
  (0 <= e)%Z → (e < epoch s)%Z → filtered (rid_of false e uuid) s → ¬ blind (rid_of false e uuid) → rtc (step chat blind) s s' →
  rid_of false e uuid ∉ dkeys (resp_dir (s_chan s')) ∧ rid_of false e uuid ∉ notify (s_chan s') ∧
  (poll ok (rid_of false e uuid) e (s_chan s')).2 = if ok then Cancelled else Again.
Proof.
  intros H0 He Hf Hb Hs. assert ((e < epoch s')%Z ∧ filtered (rid_of false e uuid) s') as [He' (Hr & Hn & _)].
  { induction Hs as [s|s1 s2 s3 H12 _ IH]; [done|].
    destruct (step_filtered chat blind _ _ _ _ Hb (rid_epoch e uuid) He Hf H12) as [Hle Hf2]. apply IH; [lia|done]. }
  split; [done|]. split; [done|]. unfold poll, read_epoch. rewrite (proj2 (dget_None _ _) Hr). simpl.
  unfold epoch in He'. rewrite (proj2 (Z.leb_le _ _) H0). destruct ok; [by rewrite (proj2 (Z.ltb_lt _ _) He')|].
  change (_read_current_epoch None) with 0%Z. by rewrite (proj2 (Z.ltb_ge _ _) H0).
Qed.

(** A request of epoch 2 whose response has just arrived. *)
Definition demo_rid : string := rid_of false 2 "ab".
Definition demo_chan (e : Z) (resp : list (string * option json)) (told : list string) : chan :=
  Chan [] resp "" told (Some (pretty e)).
Definition demo_sys (c : chan) (ph : phase) : sys (W := unit) := Sys c tt [Job demo_rid ph] "".
Definition demo_chat (_ : json) : M unit json := mret JNull.

Lemma demo_filtered : filtered demo_rid (demo_sys (demo_chan 3 [] []) (Checking JNull)).
Proof.
  split; [apply not_elem_of_nil|]. split; [apply not_elem_of_nil|]. intros j Hj _. simpl in Hj.
  apply list_elem_of_singleton in Hj as ->. exact I.
Qed.
Lemma demo_job (blind : string → Prop) ok ph c c' o : (ok = false → blind demo_rid) → job_step demo_chat ok (Job demo_rid ph) (c, tt) = (c', tt, o) →
  step demo_chat blind (demo_sys c ph) (Sys c' tt (match o with Some k => [k] | None => [] end) "").
Proof.
  intros Hb H. assert ((match o with Some k => [k] | None => [] end) =
    match o with Some k => <[0 := k]> [Job demo_rid ph] | None => delete 0 [Job demo_rid ph] end) as -> by (by destruct o).
  apply (st_job demo_chat blind ok 0 (Job demo_rid ph)); [done| |done]. intros Hok _. by apply Hb.
Qed.

Definition all_read (_ : string) : Prop := False.
Lemma stale_responses_dropped_witness :
  ∃ s', rtc (step demo_chat all_read) (demo_sys (demo_chan 3 [] []) (Checking JNull)) s' ∧ s_jobs s' = [] ∧
    demo_rid ∉ dkeys (resp_dir (s_chan s')) ∧ demo_rid ∉ notify (s_chan s') ∧ (poll true demo_rid 2 (s_chan s')).2 = Cancelled.
Proof.
  exists (Sys (demo_chan 3 [] []) tt [] "").
  assert (rtc (step demo_chat all_read) (demo_sys (demo_chan 3 [] []) (Checking JNull)) (Sys (demo_chan 3 [] []) tt [] "")) as Hs
    by (apply rtc_once, (demo_job all_read true _ _ _ None); [discriminate|reflexivity]).
  split; [exact Hs|]. split; [reflexivity|].
  exact (stale_responses_dropped demo_chat all_read 2 "ab" (demo_sys (demo_chan 3 [] []) (Checking JNull)) _ true
           ltac:(lia) ltac:(vm_compute; reflexivity) demo_filtered (fun H => H) Hs).
Defined.

(** The windows that remain.  A restore between the epoch check and the two
    writes does not stop a response to an older request. *)
Lemma demo_published (blind : string → Prop) e c :
  c = demo_chan e [] [] →
  rtc (step demo_chat blind) (demo_sys c (Writing JNull)) (Sys (demo_chan e [(demo_rid, Some JNull)] [demo_rid]) tt [] "").
Proof.
  intros ->.
  eapply rtc_l; [apply (demo_job blind true (Writing JNull) (demo_chan e [] []) (demo_chan e [(demo_rid, Some JNull)] []) (Some (Job demo_rid Notifying))); [discriminate|reflexivity]|].
  apply rtc_once. apply (demo_job blind true Notifying (demo_chan e [(demo_rid, Some JNull)] []) _ None); [discriminate|reflexivity].
Qed.
Lemma stale_race :
  ∃ s', rtc (step demo_chat all_read) (demo_sys (demo_chan 2 [] []) (Checking JNull)) s' ∧
    epoch s' = 3%Z ∧ dget demo_rid (resp_dir (s_chan s')) = Some (Some JNull) ∧ demo_rid ∈ notify (s_chan s').
Proof.
  exists (Sys (demo_chan 3 [(demo_rid, Some JNull)] [demo_rid]) tt [] "").
  split; [|split; [vm_compute; reflexivity|split; [reflexivity|left]]].
  eapply rtc_l; [apply (demo_job all_read true (Checking JNull) (demo_chan 2 [] []) (demo_chan 2 [] []) (Some (Job demo_rid (Writing JNull)))); [discriminate|reflexivity]|].
  eapply rtc_l; [apply (st_bump demo_chat all_read 3); vm_compute; discriminate|]. by apply demo_published.
Qed.

(** And when the filter cannot read the epoch file it takes the epoch for 0, so
    that the response to an older request is published after the restore. *)
Lemma unread_epoch_passes :
  ∃ s', rtc (step demo_chat (eq demo_rid)) (demo_sys (demo_chan 3 [] []) (Checking JNull)) s' ∧
    epoch s' = 3%Z ∧ dget demo_rid (resp_dir (s_chan s')) = Some (Some JNull) ∧ demo_rid ∈ notify (s_chan s').
Proof.
  exists (Sys (demo_chan 3 [(demo_rid, Some JNull)] [demo_rid]) tt [] "").
  split; [|split; [vm_compute; reflexivity|split; [reflexivity|left]]].
  eapply rtc_l; [apply (demo_job (eq demo_rid) false (Checking JNull) (demo_chan 3 [] []) (demo_chan 3 [] []) (Some (Job demo_rid (Writing JNull)))); reflexivity|].
  by apply demo_published.
Qed.

End NpdSpec.
