(* ===== verification/Resources.v ===== *)
(** * The resource contract of asynchronous dumps ([async_resources.py])

    A disposable dump worker may only inherit resources without rollback
    state: protocol FIFOs, append-only diagnostic output, and mappings of the
    immutable image.  This file holds the contract and the checks that decide
    on one descriptor or one mapping; [AsyncResources] reads them from /proc. *)

From S2P Require Import Prelude PyStr.
From Stdlib Require Import Ascii.

Module Resources.

Definition DEFAULT_FIFOS : list string :=
  ["/tmp/agent.in"; "/tmp/agent.out"; "/tmp/template_ctrl.in"; "/tmp/template_ctrl.out";
   "/tmp/npd_req.fifo"; "/tmp/npd_notify.fifo"].
Definition DEFAULT_STDIO : list string := ["/tmp/replay-agent.log"; "/tmp/criu_agent.log"; "/tmp/replay.log"].
Definition IMMUTABLE_MAPPING_ROOTS : list string :=
  ["/usr"; "/lib"; "/lib64"; "/bin"; "/sbin"; "/opt"; "/app"; "/mnt/data/opt"].

(** [os.O_*] on Linux. *)
Definition O_ACCMODE : Z := 3.
Definition O_RDWR : Z := 2.
Definition O_APPEND : Z := 1024.
Definition O_NONBLOCK : Z := 2048.
Definition O_CLOEXEC : Z := 524288.
Definition has_flag (flags f : Z) : bool := negb (Z.land flags f =? 0)%Z.

(** What [stat] says about the type of a file. *)
Inductive file_kind := KFifo | KChr | KReg | KOther.
#[global] Instance file_kind_eq_dec : EqDecision file_kind.
Proof. solve_decision. Defined.

Inductive fd_kind := protocol_fifo | null_stdio | diagnostic_stdio.
#[global] Instance fd_kind_eq_dec : EqDecision fd_kind.
Proof. solve_decision. Defined.

Record fd_item := FdItem {
  fi_fd : Z; fi_path : string; fi_flags : Z; fi_kind : fd_kind; fi_cloexec : bool;
  fi_evidence : option (Z * Z);       (* inode and mnt_id; absent from a child's copy *)
}.
Record mapping := Mapping { mp_address : string; mp_perms : string; mp_path : string }.
(** The part of a contract that is not copied into the child's request. *)
Record evidence := Evidence {
  ev_pid : Z; ev_starttime : Z; ev_executable : string;
  ev_mappings : list mapping; ev_exited : list Z;
}.
Record contract := Contract {
  ct_version : Z; ct_overlay : string; ct_cwd : string;
  ct_fifos_external : bool; ct_mutable_refs : bool;
  ct_fds : list fd_item; ct_evidence : option evidence;
}.

Definition unsupported {A} (msg : string) : result A := raise UnsupportedAsyncResources msg.

(** ** Paths *)

Definition _absolute (path : string) : result string :=
  if negb (startswith path "/") || has_char (chr 0) path then unsupported "expected an absolute path"
  else Ok (normpath path).

Definition rstrip_slash (s : string) : string := rstrip_by (ch_eq "/") s.
Definition _within (path root : string) : bool :=
  bool_decide (path = root) || startswith path (rstrip_slash root +:+ "/").
Definition immutable_path (path : string) : bool := existsb (_within path) IMMUTABLE_MAPPING_ROOTS.
Definition deleted (path : string) : bool := endswith path " (deleted)".

(** ** /proc text *)

(** [read_text().splitlines()] *)
Definition is_line_break (c : ascii) : bool :=
  let n := nat_of_ascii c in ((10 <=? n) && (n <=? 13) || (28 <=? n) && (n <=? 30))%nat.
Fixpoint splitlines_go (s cur : string) : list string :=
  match s with
  | EmptyString => if bool_decide (cur = "") then [] else [srev cur]
  | String c s' => if is_line_break c then srev cur :: splitlines_go s' "" else splitlines_go s' (String c cur)
  end.
Fixpoint universal_newlines (s : string) : string :=
  match s with
  | EmptyString => EmptyString
  | String c s' =>
      if ch_eq c (chr 13) then
        match s' with
        | String d s'' => if ch_eq d (chr 10) then universal_newlines s' else String (chr 10) (universal_newlines s')
        | EmptyString => String (chr 10) EmptyString
        end
      else String c (universal_newlines s')
  end.
Definition splitlines (text : string) : list string := splitlines_go (universal_newlines text) "".

(** [text.rpartition(")")]: what follows the last parenthesis, if there is one. *)
Definition after_paren (text : string) : option string :=
  if has_char ")" text then Some (after_last ")" text) else None.

(** [_status_identity] on the text of [stat]. *)
Definition status_identity (text : string) : result (string * Z) :=
  match after_paren text with
  | Some tail =>
      let fields := split_ws tail in
      match fields !! 0%nat, fields !! 19%nat with
      | Some st, Some t => start ← parse_int t; Ok (st, start)
      | _, _ => unsupported "cannot verify worker process identity"
      end
  | None => unsupported "cannot verify worker process identity"
  end.

(** [dict(line.split(":", 1) for line in ... if ":" in line)[key]] *)
Fixpoint split_colon (s : string) : option (string * string) :=
  match s with
  | EmptyString => None
  | String c s' =>
      if ch_eq c ":" then Some ("", s') else '(a, b) ← split_colon s'; Some (String c a, b)
  end.
Definition info_lookup (text key : string) : result string :=
  match last (omap (fun l => '(k, v) ← split_colon l; if bool_decide (k = key) then Some v else None)
                   (splitlines text)) with
  | Some v => Ok v
  | None => raise KeyError key
  end.

(** ** Descriptors *)

(** The branch for one descriptor; [seen] are the FIFO paths met before. *)
Definition check_fd (fifos stdio seen : list string) (fd : Z) (path : string) (flags : Z) (kind : file_kind)
    : result (fd_kind * list string) :=
  if deleted path then unsupported "deleted-open fd"
  else if bool_decide (kind = KFifo) && mem path fifos then
    if negb (Z.land flags O_ACCMODE =? O_RDWR)%Z || negb (has_flag flags O_NONBLOCK)
    then unsupported "protocol FIFO must be RDWR|NONBLOCK"
    else if mem path seen then unsupported "duplicated protocol FIFO descriptors"
    else Ok (protocol_fifo, path :: seen)
  else if bool_decide (kind = KChr) && bool_decide (path = "/dev/null") && mem fd [0; 1; 2]%Z
  then Ok (null_stdio, seen)
  else if bool_decide (kind = KReg) && mem fd [1; 2]%Z && mem path stdio && has_flag flags O_APPEND
  then Ok (diagnostic_stdio, seen)
  else unsupported "unsupported persistent fd".

(** ** Mappings *)

Definition vdso_path (path : string) : bool := mem path ["[vvar]"; "[vvar_vclock]"; "[vdso]"; "[vsyscall]"].

(** One line of [maps]: [None] when the mapping needs no evidence. *)
Definition check_mapping (overlay line : string) : result (option mapping) :=
  match split_ws_max 5 line with
  | address :: perms :: _ :: _ :: _ :: rest =>
      if negb (String.length perms =? 4)%nat then unsupported "malformed worker mapping"
      else
        let path := List.hd "" rest in
        if vdso_path path then Ok None
        else
          let immutable_shared := bool_decide (perms = "r--s") && startswith path "/"
                                  && negb (_within path overlay) && immutable_path path in
          if negb (bool_decide (String.get 3 perms = Some "p"%char)) && negb immutable_shared
          then unsupported "shared mapping cannot be frozen by fork"
          else if deleted path then unsupported "deleted file mapping"
          else if startswith path "/" then
            if _within path overlay then unsupported "persistent mapping of mutable task files"
            else if negb (immutable_path path) then unsupported "mapping outside the immutable image contract"
            else Ok (Some (Mapping address perms path))
          else if negb (bool_decide (path = "")) && negb (mem path ["[heap]"; "[stack]"] || startswith path "[anon:")
          then unsupported "unknown mapping resource"
          else Ok None
  | _ => unsupported "malformed worker mapping"
  end.

Fixpoint check_mappings (overlay : string) (ls : list string) : result (list mapping) :=
  match ls with
  | [] => Ok []
  | l :: ls =>
      m ← check_mapping overlay l;
      ms ← check_mappings overlay ls;
      Ok (match m with Some m => m :: ms | None => ms end)
  end.

(** ** The contract *)

Definition _validate_contract (c : contract) : result string :=
  if negb (ct_version c =? 1)%Z || negb (ct_fifos_external c) || ct_mutable_refs c
  then unsupported "unknown or unverified contract"
  else _absolute (ct_overlay c).

Definition dump_child_contract (c : contract) : result contract :=
  _ ← _validate_contract c;
  Ok (Contract (ct_version c) (ct_overlay c) (ct_cwd c) (ct_fifos_external c) (ct_mutable_refs c)
        ((fun i => FdItem (fi_fd i) (fi_path i) (fi_flags i) (fi_kind i) (fi_cloexec i) None) <$> ct_fds c) None).
End Resources.
