(* ===== verification/ProcessWait.v ===== *)
(** * Waiting for processes to exit ([gsd/process_wait.py])

    [wait_for_process_exit] watches processes through pidfds and falls back to
    the caller's probe.  The calls it makes are an interface; times are integers
    of microseconds.  Sets are lists without duplicates, in the order the
    interpreter happens to walk them. *)

From S2P Require Import Prelude Hoare PyDict.

Module ProcessWait.

(** What the function asks of its surroundings: each call may raise. *)
Class Calls (X : Type) := {
  monotonic : M X Z;
  is_done : Z → M X bool;
  has_pidfd_open : bool; pidfd_open : Z → M X Z;
  has_poll : bool; poll_factory : M X unit;
  register : Z → M X unit; unregister : Z → M X unit;
  poll : Z → M X (list (Z * Z));
  sleep : Z → M X unit;
  close : Z → M X unit
}.

Definition _PROBE_INTERVAL : Z := 10000.
Definition POLLIN : Z := 1.
Definition POLLERR : Z := 8.
Definition POLLHUP : Z := 16.
Definition POLLNVAL : Z := 32.
Definition has_event (event mask : Z) : bool := negb (Z.land event mask =? 0)%Z.
(** [math.ceil(interval * 1000)] of an interval in seconds *)
Definition ceil_ms (us : Z) : Z := (- (- us / 1000))%Z.

(** [ESRCH] is a [ProcessLookupError], [EINTR] an [InterruptedError]. *)
Definition is_OSError (e : exn) : bool :=
  mem (exn_cls e) [OSError; FileNotFoundError; ProcessLookupError; ChildProcessError; TimeoutError; InterruptedError;
                   FileExistsError; NotADirectoryError; IsADirectoryError].
Definition is_ESRCH (e : exn) : bool := bool_decide (exn_cls e = ProcessLookupError).
Definition is_EINTR (e : exn) : bool := bool_decide (exn_cls e = InterruptedError).

Record locals := Locals { remaining : list Z; fallback : list Z; pidfds : list (Z * Z); next_probe : Z }.

Definition without (p : Z) (l : list Z) : list Z := List.filter (fun x => negb (x =? p)%Z) l.
Definition minus (l k : list Z) : list Z := List.filter (fun x => negb (mem x k)) l.
Definition plus (l k : list Z) : list Z := l ++ minus k l.

Section wait.
Context {X : Type} `{Calls X}.
Notation W := (M (locals * X)).

Definition sys {A} (m : M X A) : W A := fun s => let '(r, x) := m s.2 in (r, (s.1, x)).
Definition mine : W locals := s ← mget; mret s.1.
Definition upd (f : locals → locals) : W unit := mmod (fun s => (f s.1, s.2)).
Definition set_remaining (f : list Z → list Z) : W unit := upd (fun l => Locals (f (remaining l)) (fallback l) (pidfds l) (next_probe l)).
Definition set_fallback (f : list Z → list Z) : W unit := upd (fun l => Locals (remaining l) (f (fallback l)) (pidfds l) (next_probe l)).
Definition set_pidfds (f : list (Z * Z) → list (Z * Z)) : W unit := upd (fun l => Locals (remaining l) (fallback l) (f (pidfds l)) (next_probe l)).
Definition set_next (t : Z) : W unit := upd (fun l => Locals (remaining l) (fallback l) (pidfds l) t).
(** [s.remove(p)] *)
Definition remove (get : locals → list Z) (set : (list Z → list Z) → W unit) (p : Z) : W unit :=
  l ← mine; if mem p (get l) then set (without p) else mraise KeyError "remove".
Definition swallow (p : exn → bool) (m : W unit) : W unit := mcatch m (fun e => if p e then mret tt else mthrow e).

(** The processes of a list that the probe finds gone. *)
Fixpoint probe (l : list Z) : W (list Z) :=
  match l with
  | [] => mret []
  | p :: l => d ← sys (is_done p); rest ← probe l; mret (if (d : bool) then p :: rest else rest)
  end.

Definition close_fd (fd : Z) : W unit := swallow is_OSError (sys (close fd)).
Definition release (fd : Z) : W unit :=
  mfinally (swallow (fun e => is_OSError e || bool_decide (exn_cls e = KeyError)) (sys (unregister fd)))
           (_ ← set_pidfds (dpop fd); close_fd fd).

(** The loop that opens the pidfds. *)
Fixpoint open_all (l : list Z) (deadline : Z) : W unit :=
  match l with
  | [] => mret tt
  | p :: l =>
      now ← sys monotonic;
      if (deadline <=? now)%Z then mret tt else
      o ← mcatch (fd ← sys (pidfd_open p); mret (inl fd)) (fun e => if is_OSError e then mret (inr e) else mthrow e);
      _ ← match o with
          | inr e => mwhen (is_ESRCH e) (_ ← remove remaining set_remaining p; remove fallback set_fallback p)
          | inl fd =>
              _ ← set_pidfds (dset fd p);
              ok ← mcatch (_ ← sys (register fd); mret true) (fun e => if is_OSError e then mret false else mthrow e);
              if (ok : bool) then remove fallback set_fallback p else release fd
          end;
      open_all l deadline
  end.

Definition one_event (ev : Z * Z) : W unit :=
  l ← mine;
  match dget ev.1 (pidfds l) with
  | None => mret tt
  | Some p =>
      if has_event ev.2 (Z.lor POLLIN POLLHUP) then _ ← remove remaining set_remaining p; release ev.1
      else if has_event ev.2 (Z.lor POLLERR POLLNVAL) then _ ← set_fallback (fun f => plus f [p]); release ev.1
      else mret tt
  end.

(** The events of one wait; when polling fails for good, every process falls
    back to the probe. *)
Definition wait_once (interval : Z) : W (list (Z * Z)) :=
  l ← mine;
  match pidfds l with
  | [] => _ ← sys (sleep interval); mret []
  | fds =>
      mcatch (sys (poll (ceil_ms interval)))
        (fun e => if is_EINTR e then mret []
                  else if is_OSError e then _ ← set_fallback (fun f => plus f fds.*2); _ ← mfor fds.*1 release; mret []
                  else mthrow e)
  end.

Definition release_done (done : list Z) : W unit :=
  l ← mine; mfor (pidfds l) (fun fp => if mem fp.2 done then release fp.1 else mret tt).

(** One turn of the loop; [true] ends it. *)
Definition turn (deadline : Z) : W bool :=
  l ← mine;
  match remaining l with
  | [] => mret true
  | rem =>
      now ← sys monotonic;
      let time_left := (deadline - now)%Z in
      if (time_left <=? 0)%Z then done ← probe rem; _ ← set_remaining (fun r => minus r done); mret true else
      let interval := Z.min time_left (Z.max 0 (next_probe l - now)) in
      events ← wait_once interval;
      _ ← mfor events one_event;
      probe_all ← (match events with [] => mret true | _ => now ← sys monotonic; l ← mine; mret (next_probe l <=? now)%Z end);
      l ← mine;
      done ← probe (if (probe_all : bool) then remaining l else fallback l);
      _ ← mwhen probe_all (now ← sys monotonic; set_next (now + _PROBE_INTERVAL));
      _ ← set_remaining (fun r => minus r done); _ ← set_fallback (fun f => minus f done);
      _ ← release_done done;
      mret false
  end.
Fixpoint loop (fuel : nat) (deadline : Z) : W unit :=
  match fuel with
  | O => mraise OutOfFuel "wait_for_process_exit"
  | S fuel => ended ← turn deadline; if (ended : bool) then mret tt else loop fuel deadline
  end.

Definition wait_body (fuel : nat) (deadline : Z) : W unit :=
  l ← mine;
  polls ← (if has_pidfd_open && has_poll
           then mcatch (_ ← sys poll_factory; mret true) (fun e => if is_OSError e then mret false else mthrow e)
           else mret false);
  _ ← mwhen polls (open_all (remaining l) deadline);
  loop fuel deadline.

Definition wait_for_process_exit (fuel : nat) (pids : list Z) (timeout : Z) : M X (list Z) := fun x =>
  let run : W (list Z) :=
    t ← sys monotonic; let deadline := (t + timeout)%Z in
    let all := remove_dups pids in
    done ← probe all;
    let rem := minus all done in
    _ ← set_remaining (fun _ => rem);
    match rem with
    | [] => mret []
    | _ =>
        t ← sys monotonic;
        _ ← upd (fun _ => Locals rem rem [] (t + _PROBE_INTERVAL)%Z);
        _ ← mfinally (wait_body fuel deadline) (l ← mine; mfor (pidfds l).*1 close_fd);
        l ← mine; mret (remaining l)
    end in
  let '(r, s) := run (Locals [] [] [] 0, x) in (r, s.2).
End wait.
End ProcessWait.
