(* ===== verification/ProcessWaitSpec.v ===== *)
(** * Waiting for processes: nothing lost, nothing leaked

    What the kernel and the caller's probe promise ([Laws]), and what
    [wait_for_process_exit] makes of it. *)

From S2P Require Import Prelude Hoare PyDict ProcessWait.

Module ProcessWaitSpec.
Import ProcessWait.

(** [table]: the open pidfds and the process each stands for; [gone]: a process
    has exited or is a zombie, for good; [now]: the clock.  Only the calls whose
    exceptions the code handles can raise. *)
Class Laws (X : Type) `{Calls X} := {
  table : X → gmap Z Z;
  gone : Z → X → Prop;
  now : X → Z;
  later : X → X → Prop := fun x y => (now x ≤ now y)%Z ∧ ∀ p, gone p x → gone p y;
  same : X → X → Prop := fun x y => table y = table x ∧ later x y;
  law_monotonic x : wp monotonic (fun t x' => same x x' ∧ t = now x') (fun _ _ => False) x;
  law_is_done p x : wp (is_done p) (fun d x' => same x x' ∧ (d = true ↔ gone p x')) (fun _ _ => False) x;
  law_open p x : wp (pidfd_open p) (fun fd x' => table x !! fd = None ∧ table x' = <[fd := p]> (table x) ∧ later x x')
                    (fun e x' => is_OSError e = true ∧ same x x' ∧ (is_ESRCH e = true → gone p x')) x;
  law_factory x : wp poll_factory (fun _ x' => same x x') (fun e x' => is_OSError e = true ∧ same x x') x;
  law_register fd x : wp (register fd) (fun _ x' => same x x') (fun e x' => is_OSError e = true ∧ same x x') x;
  law_unregister fd x : wp (unregister fd) (fun _ x' => same x x')
                           (fun e x' => (is_OSError e || bool_decide (exn_cls e = KeyError)) = true ∧ same x x') x;
  law_poll ms x : wp (poll ms)
    (fun evs x' => same x x' ∧ (now x < now x')%Z ∧
       ∀ fd ev p, (fd, ev) ∈ evs → table x !! fd = Some p → has_event ev (Z.lor POLLIN POLLHUP) = true → gone p x')
    (fun e x' => is_OSError e = true ∧ same x x' ∧ (now x < now x')%Z) x;
  law_sleep t x : wp (sleep t) (fun _ x' => same x x' ∧ (now x < now x')%Z) (fun _ _ => False) x;
  law_close fd x : wp (close fd) (fun _ x' => table x' = delete fd (table x) ∧ later x x')
                      (fun e x' => is_OSError e = true ∧ table x' = delete fd (table x) ∧ later x x') x
}.

Section spec.
Context {X : Type} `{Laws X}.
Notation W := (M (locals * X)).
Context (base : gmap Z Z) (pids : list Z).

#[local] Instance later_refl : Reflexive (later (X:=X)).
Proof. intros x. by split. Qed.
#[local] Instance later_trans : Transitive (later (X:=X)).
Proof. intros x y z [H1 H2] [H3 H4]. split; [lia|auto]. Qed.

(** ** The invariant *)

(** The pidfds held are open, stand for their processes, and are all that was
    opened; [extra] are the processes already found gone. *)
Record Inv (extra : list Z) (l : locals) (x : X) : Prop := {
  inv_table : table x = list_to_map (pidfds l) ∪ base;
  inv_keys : NoDup (pidfds l).*1;
  inv_new : ∀ fd, fd ∈ (pidfds l).*1 → base !! fd = None;
  inv_vals : NoDup (pidfds l).*2;
  inv_held : ∀ fd p, (fd, p) ∈ pidfds l → p ∈ remaining l ∨ p ∈ extra;
  inv_gone : ∀ p, p ∈ pids → p ∉ remaining l → gone p x;
  inv_sub : ∀ p, p ∈ remaining l → p ∈ pids
}.

Lemma inv_later extra l x y : Inv extra l x → same x y → Inv extra l y.
Proof. intros [H1 H2 H3 H4 H5 H6 H7] [Ht [_ Hg]]. split; auto. congruence. Qed.
Lemma inv_fallback extra l f t x : Inv extra l x → Inv extra (Locals (remaining l) f (pidfds l) t) x.
Proof. by intros [H1 H2 H3 H4 H5 H6 H7]. Qed.

Lemma elem_without p q l : q ∈ without p l ↔ q ∈ l ∧ q ≠ p.
Proof. unfold without. rewrite !list_elem_of_In, List.filter_In, negb_true_iff, Z.eqb_neq. done. Qed.
Lemma elem_minus q l k : q ∈ minus l k ↔ q ∈ l ∧ q ∉ k.
Proof. unfold minus. rewrite !list_elem_of_In, List.filter_In, negb_true_iff, mem_false, list_elem_of_In. done. Qed.

Lemma dpop_sub fd (d : list (Z * Z)) p q : (p, q) ∈ dpop fd d ↔ (p, q) ∈ d ∧ p ≠ fd.
Proof. unfold dpop. rewrite !list_elem_of_In, List.filter_In, bool_decide_eq_true. done. Qed.
Lemma dpop_NoDup2 fd (d : list (Z * Z)) : NoDup d.*2 → NoDup (dpop fd d).*2.
Proof.
  induction d as [|[k v] d IH]; [done|]. simpl. intros [Hn Hd]%NoDup_cons. case_bool_decide; [|by apply IH].
  simpl. constructor; [|by apply IH]. intros ([k' v'] & -> & Hin)%list_elem_of_fmap. apply Hn.
  apply dpop_sub in Hin as [Hin _]. apply list_elem_of_fmap. by exists (k', v').
Qed.
Lemma dpop_table fd (d : list (Z * Z)) : NoDup d.*1 → base !! fd = None →
  delete fd (list_to_map d ∪ base : gmap Z Z) = list_to_map (dpop fd d) ∪ base.
Proof.
  intros Hnd Hb. apply map_eq. intros k. destruct (decide (k = fd)) as [->|Hne].
  - rewrite lookup_delete_eq. symmetry. apply lookup_union_None. split; [|done].
    apply not_elem_of_list_to_map_1. intros ([k v] & -> & Hin)%list_elem_of_fmap. by apply dpop_sub in Hin as [_ ?].
  - rewrite lookup_delete_ne by done. rewrite !lookup_union. f_equal. clear Hnd.
    induction d as [|[k' v'] d IH]; [done|]. simpl. case_bool_decide as E; simpl in *.
    + destruct (decide (k = k')) as [->|]; [by rewrite !lookup_insert_eq|by rewrite !lookup_insert_ne].
    + destruct (decide (k' = fd)) as [->|]; [|done]. by rewrite lookup_insert_ne.
Qed.

(** ** Calls *)

Lemma wp_calls {A} (m : M X A) (Q : A → locals * X → Prop) E s :
  wp m (fun a x' => Q a (s.1, x')) (fun e x' => E e (s.1, x')) s.2 → wp (sys m) Q E s.
Proof. unfold wp, sys. by destruct (m s.2) as [[a|e] x']. Qed.
Lemma wp_mine {A} (k : locals → W A) Q E s : wp (k s.1) Q E s → wp (mine ≫= k) Q E s.
Proof. done. Qed.
Lemma wp_upd f (Q : unit → locals * X → Prop) E s : Q tt (f s.1, s.2) → wp (upd f) Q E s.
Proof. done. Qed.
(** A call whose failure is handled by a default. *)
Lemma wp_attempt {A B} (p : exn → bool) (m : M X A) (f : A → B) (b : exn → B) Q E s (P : exn → X → Prop) :
  wp m (fun a x' => Q (f a) (s.1, x')) (fun e x' => p e = true ∧ P e x') s.2 →
  (∀ e x', p e = true → P e x' → Q (b e) (s.1, x')) →
  wp (mcatch (a ← sys m; mret (f a)) (fun e => if p e then mret (b e) else mthrow e)) Q E s.
Proof.
  intros Hm Hb. apply wp_catch, wp_bind, wp_calls. eapply wp_mono; [exact Hm|done|]. intros e x' [Hp HP]. rewrite Hp. by apply wp_ret, Hb.
Qed.

Definition no_exn {A} (m : W A) (Q : A → locals * X → Prop) s := wp m Q (fun _ _ => False) s.

Lemma release_ok extra fd l x : Inv extra l x → fd ∈ (pidfds l).*1 →
  no_exn (release fd) (fun _ s' => s'.1 = Locals (remaining l) (fallback l) (dpop fd (pidfds l)) (next_probe l) ∧
                                   Inv extra s'.1 s'.2 ∧ later x s'.2) (l, x).
Proof.
  intros Hi Hfd. unfold no_exn, release. apply wp_finally.
  assert (∀ y, same x y → wp (_ ← set_pidfds (dpop fd); close_fd fd)
    (fun _ s' => s'.1 = Locals (remaining l) (fallback l) (dpop fd (pidfds l)) (next_probe l) ∧ Inv extra s'.1 s'.2 ∧ later x s'.2)
    (fun _ _ => False) (l, y)) as Hend.
  { intros y [Ht Hl]. apply wp_bind, wp_upd. cbn [fst snd].
    assert (∀ z, table z = delete fd (table y) → later y z →
      Inv extra (Locals (remaining l) (fallback l) (dpop fd (pidfds l)) (next_probe l)) z ∧ later x z) as Hz.
    { intros z Hd Hyz. assert (later x z) as Hxz by (by etrans). split; [|done].
      destruct Hi as [H1 H2 H3 H4 H5 H6 H7]. split; simpl; auto.
      - rewrite Hd, Ht, H1. apply dpop_table; auto.
      - by apply dpop_NoDup.
      - intros k ([k' v] & -> & Hin)%list_elem_of_fmap. apply H3. apply dpop_sub in Hin as [Hin _]. apply list_elem_of_fmap. by exists (k', v).
      - by apply dpop_NoDup2.
      - intros k p Hin%dpop_sub. apply (H5 k). tauto.
      - intros p Hp Hr. apply Hxz. auto. }
    unfold close_fd, swallow. apply wp_catch, wp_calls. eapply wp_mono; [apply law_close| |]; simpl.
    - intros [] z [Hd Hyz]. split; [done|]. by apply Hz.
    - intros e z (He & Hd & Hyz). rewrite He. apply wp_ret. split; [done|]. by apply Hz. }
  unfold swallow. apply wp_catch, wp_calls. eapply wp_mono; [apply law_unregister| |]; simpl.
  - intros [] y Hy. by apply Hend.
  - intros e y [He Hy]. rewrite He. apply wp_ret. by apply Hend.
Qed.

Lemma probe_ok l l0 x : no_exn (probe l) (fun done s' => s'.1 = l0 ∧ same x s'.2 ∧
  (∀ p, p ∈ done → p ∈ l ∧ gone p s'.2) ∧ ∀ p, p ∈ l → p ∉ done → ∃ y, later x y ∧ later y s'.2 ∧ ¬ gone p y) (l0, x).
Proof.
  revert x. unfold no_exn. induction l as [|q l IH]; intros x; cbn [probe].
  { apply wp_ret. split_and!; [done|done| |]; by intros p ?%not_elem_of_nil. }
  apply wp_bind, wp_calls. eapply wp_mono; [apply law_is_done| |done]. cbn [fst snd]. intros d y [[Hty Hy] Hd].
  apply wp_bind. eapply wp_mono; [apply IH| |done]. intros rest [l' z]. cbn [fst snd]. intros (-> & [Htz Hz] & Hin & Hout).
  apply wp_ret. cbn [fst snd]. split_and!; [done|split; [congruence|by etrans]| |].
  - intros p Hp. destruct d; [apply elem_of_cons in Hp as [->|Hp]|].
    + split; [left|]. apply Hz. by apply Hd.
    + split; [right|]; apply (Hin p Hp).
    + split; [right|]; apply (Hin p Hp).
  - intros p [->|Hp]%elem_of_cons Hr.
    + exists y. split_and!; [done|done|]. intros Hg. apply Hr. apply Hd in Hg as ->. left.
    + destruct (Hout p Hp) as (w & Hw1 & Hw2 & Hw3); [intros Hc; apply Hr; destruct d; [by right|done]|].
      exists w. split_and!; [by etrans|done|done].
Qed.

Lemma mem_elem p (l : list Z) : mem p l = true ↔ p ∈ l.
Proof. rewrite mem_true, list_elem_of_In. done. Qed.

Lemma remove_ok get set p (Q : unit → locals * X → Prop) E l x :
  p ∈ get l → wp (set (without p)) Q E (l, x) → wp (remove get set p) Q E (l, x).
Proof. intros Hp%mem_elem Hq. unfold remove. apply wp_mine. cbn [fst]. by rewrite Hp. Qed.

(** Taking found processes off [remaining]: those still watched become [extra]. *)
Lemma inv_shrink done l f x :
  Inv [] l x → (∀ p, p ∈ done → gone p x) →
  Inv done (Locals (minus (remaining l) done) f (pidfds l) (next_probe l)) x.
Proof.
  intros [H1 H2 H3 H4 H5 H6 H7] Hd. split; simpl; auto.
  - intros fd p Hin. destruct (H5 _ _ Hin) as [Hr|[]%not_elem_of_nil].
    destruct (decide (p ∈ done)); [by right|left]. by apply elem_minus.
  - intros p Hp Hn. destruct (decide (p ∈ remaining l)) as [Hr|]; [|auto].
    apply Hd. destruct (decide (p ∈ done)); [done|]. exfalso. apply Hn. by apply elem_minus.
  - intros p [Hp _]%elem_minus. auto.
Qed.
Lemma inv_remove p l x : Inv [] l x → gone p x →
  Inv [p] (Locals (without p (remaining l)) (fallback l) (pidfds l) (next_probe l)) x.
Proof.
  intros [H1 H2 H3 H4 H5 H6 H7] Hd. split; simpl; auto.
  - intros fd q Hin. destruct (H5 _ _ Hin) as [Hr|[]%not_elem_of_nil].
    destruct (decide (q = p)) as [->|]; [right; left|left]. by apply elem_without.
  - intros q Hp Hn. destruct (decide (q = p)) as [->|]; [done|]. apply H6; [done|]. intros Hr. apply Hn. by apply elem_without.
  - intros q [Hp _]%elem_without. auto.
Qed.
(** Nothing found gone is watched any more. *)
Lemma inv_settle extra l x : Inv extra l x → (∀ fd p, (fd, p) ∈ pidfds l → p ∉ extra) → Inv [] l x.
Proof. intros [H1 H2 H3 H4 H5 H6 H7] Hd. split; auto. intros fd p Hin. left. destruct (H5 _ _ Hin); [done|]. by destruct (Hd _ _ Hin). Qed.

(** ** Opening *)

Lemma table_dset fd p (d : list (Z * Z)) :
  (list_to_map (dset fd p d) ∪ base : gmap Z Z) = <[fd := p]> (list_to_map d ∪ base).
Proof.
  rewrite insert_union_l. f_equal. induction d as [|[k v] d IH]; [done|]. cbn [dset]. case_decide as E.
  - subst k. simpl. by rewrite insert_insert_eq.
  - simpl. rewrite IH. by apply insert_insert_ne.
Qed.
Lemma inv_open l x y fd p :
  Inv [] l x → table x !! fd = None → table y = <[fd := p]> (table x) → later x y → p ∈ remaining l → p ∉ (pidfds l).*2 →
  Inv [] (Locals (remaining l) (fallback l) (dset fd p (pidfds l)) (next_probe l)) y ∧ (dset fd p (pidfds l)).*2 ≡ₚ p :: (pidfds l).*2
  ∧ fd ∈ (dset fd p (pidfds l)).*1.
Proof.
  intros [H1 H2 H3 H4 H5 H6 H7] Hfr Ht [_ Hg] Hp Hv.
  rewrite H1 in Hfr. apply lookup_union_None in Hfr as [Hf Hb].
  apply not_elem_of_list_to_map_2 in Hf.
  assert (dset fd p (pidfds l) = pidfds l ++ [(fd, p)]) as Hd.
  { clear -Hf. induction (pidfds l) as [|[k v] d IH]; [done|]. apply not_elem_of_cons in Hf as [Hk Hf]. simpl in *.
    rewrite decide_False by congruence. by rewrite IH. }
  assert ((dset fd p (pidfds l)).*2 ≡ₚ p :: (pidfds l).*2) as Hperm by (rewrite Hd, fmap_app; simpl; by rewrite <- Permutation_cons_append).
  split_and!; [|done|rewrite Hd, fmap_app; apply elem_of_app; right; left].
  split; cbn [remaining pidfds fallback next_probe].
  - by rewrite table_dset, Ht, H1.
  - by apply (dkeys_dset_NoDup fd p).
  - intros k. rewrite Hd, fmap_app, elem_of_app. intros [Hk|Hk%list_elem_of_singleton]; [auto|by subst k].
  - rewrite Hperm. by constructor.
  - intros k q. rewrite Hd, elem_of_app. intros [Hin|Hin%list_elem_of_singleton]; [eauto|injection Hin as -> ->; by left].
  - auto.
  - auto.
Qed.

Lemma open_all_ok deadline ps l x :
  Inv [] l x → NoDup ps → (∀ p, p ∈ ps → p ∈ remaining l ∧ p ∈ fallback l ∧ p ∉ (pidfds l).*2) →
  no_exn (open_all ps deadline) (fun _ s' => Inv [] s'.1 s'.2 ∧ later x s'.2) (l, x).
Proof.
  revert l x. unfold no_exn. induction ps as [|p ps IH]; intros l x Hi Hnd Hps; cbn [open_all]; [by apply wp_ret|].
  apply NoDup_cons in Hnd as [Hp Hnd]. destruct (Hps p (list_elem_of_here _ _)) as (Hr & Hf & Hv).
  assert (∀ q, q ∈ ps → q ≠ p ∧ q ∈ remaining l ∧ q ∈ fallback l ∧ q ∉ (pidfds l).*2) as Hrest.
  { intros q Hq. split; [by intros ->|]. apply Hps. by right. }
  assert (∀ l' y, later x y → Inv [] l' y → (∀ q, q ≠ p → q ∈ remaining l → q ∈ remaining l') →
    (∀ q, q ≠ p → q ∈ fallback l → q ∈ fallback l') → (∀ q, q ≠ p → q ∈ (pidfds l').*2 → q ∈ (pidfds l).*2) →
    wp (open_all ps deadline) (fun _ s' => Inv [] s'.1 s'.2 ∧ later x s'.2) (fun _ _ => False) (l', y)) as Hnext.
  { intros l' y Hy Hi' K1 K2 K3. eapply wp_mono; [apply IH; [done|done|]| |done].
    - intros q Hq. destruct (Hrest q Hq) as (Hn & A1 & A2 & A3). split_and!; auto.
    - intros [] s' [Hs' Hl']. split; [done|]. by etrans. }
  apply wp_bind, wp_calls. eapply wp_mono; [apply law_monotonic| |done]. cbn [fst snd]. intros t y [Hxy _].
  case_match; [apply wp_ret; split; [by eapply inv_later|apply Hxy]|].
  pose proof (inv_later _ _ _ _ Hi Hxy) as Hiy. apply wp_bind, wp_catch, wp_bind, wp_calls.
  eapply wp_mono; [apply law_open| |]; cbn [fst snd].
  - intros fd z (Hfr & Ht & Hz). apply wp_ret, wp_bind, wp_bind, wp_upd. cbn [fst snd].
    destruct (inv_open _ _ _ _ _ Hiy Hfr Ht Hz Hr Hv) as (Hio & Hperm & Hfd).
    set (l1 := Locals _ _ _ _) in *. assert (later x z) as Hxz by (etrans; [apply Hxy|done]).
    apply wp_bind, wp_catch, wp_bind, wp_calls. eapply wp_mono; [apply law_register| |]; cbn [fst snd].
    + intros [] w Hw. apply wp_ret, remove_ok; [done|]. apply wp_upd. cbn [fst snd]. apply Hnext.
      * etrans; [done|apply Hw].
      * apply (inv_fallback [] l1). by eapply inv_later.
      * done.
      * intros q Hq Hqf. apply elem_without. done.
      * intros q Hq. cbn [pidfds l1]. rewrite Hperm. by intros [->|?]%elem_of_cons.
    + intros e w [He Hw]. rewrite He. apply wp_ret.
      eapply wp_mono; [apply release_ok; [by eapply inv_later|done]| |done]. intros [] [l2 v]. cbn [fst snd]. intros (-> & Hi2 & Hv2).
      apply Hnext.
      * etrans; [done|]. etrans; [apply Hw|done].
      * done.
      * done.
      * done.
      * intros q Hq ([k v'] & -> & [Hin _]%dpop_sub)%list_elem_of_fmap. cbn [pidfds l1] in Hin.
        assert (v' ∈ (dset fd p (pidfds l)).*2) as Hin2 by (apply list_elem_of_fmap; by exists (k, v')).
        rewrite Hperm in Hin2. by apply elem_of_cons in Hin2 as [->|?].
  - intros e z (He & Hyz & Hgone). rewrite He. apply wp_ret, wp_bind, wp_when.
    assert (later x z) as Hxz by (etrans; [apply Hxy|apply Hyz]). pose proof (inv_later _ _ _ _ Hiy Hyz) as Hiz.
    case_match; [|by apply Hnext].
    apply wp_bind, remove_ok; [done|]. apply wp_upd. cbn [fst snd]. apply remove_ok; [done|]. apply wp_upd. cbn [fst snd]. apply Hnext.
    + done.
    + apply inv_fallback, (inv_settle [p]); [by apply inv_remove; auto|]. cbn [pidfds].
      intros k q Hin ->%list_elem_of_singleton. apply Hv. apply list_elem_of_fmap. by exists (k, p).
    + intros q Hq Hq'. by apply elem_without.
    + intros q Hq Hq'. by apply elem_without.
    + done.
Qed.

(** ** Waiting *)

Lemma mfor_fmap {S A B} (f : A → B) (l : list A) (body : B → M S unit) : mfor (f <$> l) body = mfor l (fun a => body (f a)).
Proof. induction l as [|a l IH]; [done|]. cbn [mfor fmap list_fmap] in *. by rewrite IH. Qed.

Definition frame (l l' : locals) : Prop := remaining l' = remaining l ∧ fallback l' = fallback l ∧ next_probe l' = next_probe l.

(** Releasing the descriptors a test selects. *)
Lemma release_all extra (b : Z * Z → bool) fds l x :
  Inv extra l x → NoDup fds.*1 → (∀ fp, fp ∈ fds → fp ∈ pidfds l) →
  no_exn (mfor fds (fun fp => if b fp then release fp.1 else mret tt))
    (fun _ s' => Inv extra s'.1 s'.2 ∧ later x s'.2 ∧ frame l s'.1 ∧
       ∀ fp, fp ∈ pidfds s'.1 → fp ∈ pidfds l ∧ (fp ∈ fds → b fp = false)) (l, x).
Proof.
  revert l x. unfold no_exn. induction fds as [|[fd p] fds IH]; intros l x Hi Hnd Hsub; simpl.
  { apply wp_ret. split_and!; [done|done|done|]. intros fp Hfp. split; [done|by intros ?%not_elem_of_nil]. }
  apply NoDup_cons in Hnd as [Hfd Hnd]. apply wp_bind. destruct (b (fd, p)) eqn:Hb.
  - eapply wp_mono; [apply release_ok; [done|]| |done].
    { apply list_elem_of_fmap. exists (fd, p). split; [done|]. apply Hsub. left. }
    intros [] [l' y]. cbn [fst snd]. intros (-> & Hi' & Hy). eapply wp_mono; [apply IH; [done|done|]| |done]; cbn [pidfds].
    { intros [k q] Hk. apply dpop_sub. split; [apply Hsub; by right|]. intros ->. apply Hfd, list_elem_of_fmap. by exists (fd, q). }
    intros [] [l' z]. cbn [fst snd]. intros (Hz & Hyz & Hf & Hout). split_and!; [done|by etrans|done|].
    intros [k q] Hk. destruct (Hout _ Hk) as [[Hin Hne]%dpop_sub Hno]. split; [done|]. intros [[= -> ->]|?]%elem_of_cons; [by destruct Hne|auto].
  - apply wp_ret. eapply wp_mono; [apply IH; [done|done|]| |done]; [intros fp Hfp; apply Hsub; by right|].
    intros [] [l' z]. cbn [fst snd]. intros (Hz & Hyz & Hf & Hout). split_and!; [done|done|done|].
    intros fp Hk. destruct (Hout _ Hk) as [Hin Hno]. split; [done|]. intros [->|?]%elem_of_cons; auto.
Qed.

(** What a poll's answer says of the processes still watched. *)
Definition told (evs : list (Z * Z)) (l : locals) (x : X) : Prop :=
  ∀ fd ev p, (fd, ev) ∈ evs → (fd, p) ∈ pidfds l → has_event ev (Z.lor POLLIN POLLHUP) = true → gone p x.

Lemma one_event_ok evs ev l x0 x :
  ev ∈ evs → Inv [] l x → later x0 x → told evs l x →
  no_exn (one_event ev) (fun _ s' => Inv [] s'.1 s'.2 ∧ later x0 s'.2 ∧ told evs s'.1 s'.2) (l, x).
Proof.
  intros Hev Hi Hx Ht. unfold no_exn, one_event. apply wp_mine. cbn [fst]. case_match eqn:E; [|by apply wp_ret].
  rename z into p. apply dget_Some_elem in E. destruct ev as [fd ev]. cbn [fst snd] in *.
  assert (fd ∈ (pidfds l).*1) as Hfd by (apply list_elem_of_fmap; by exists (fd, p)).
  assert (∀ y (d : list (Z * Z)), later x y → (∀ e, e ∈ d → e ∈ pidfds l) → ∀ k e q, (k, e) ∈ evs → (k, q) ∈ d →
    has_event e (Z.lor POLLIN POLLHUP) = true → gone q y) as Htold.
  { intros y d Hy Hd k e q Hin Hq He. apply Hy, (Ht k e); auto. }
  destruct (has_event ev (Z.lor POLLIN POLLHUP)) eqn:Hin; [|case_match; [|by apply wp_ret]].
  - apply wp_bind, remove_ok; [by destruct (inv_held _ _ _ Hi _ _ E) as [?|[]%not_elem_of_nil]|].
    apply wp_upd. cbn [fst snd]. pose proof (Ht _ _ _ Hev E Hin) as Hg.
    eapply wp_mono; [apply release_ok; [by apply inv_remove|done]| |done]. intros [] [l' y]. cbn [fst snd]. intros (-> & Hi' & Hy).
    split_and!; [|by etrans|].
    + eapply inv_settle; [done|]. cbn [pidfds]. intros k q [Hk Hne]%dpop_sub ->%list_elem_of_singleton.
      apply Hne. pose proof (inv_vals _ _ _ Hi) as Hv. clear -Hk E Hv.
      induction (pidfds l) as [|[a c] d IH]; [by apply not_elem_of_nil in E|]. apply NoDup_cons in Hv as [Hc Hv].
      apply elem_of_cons in E as [[= -> ->]|E]; apply elem_of_cons in Hk as [Hk|Hk]; [congruence| | |by apply IH].
      * destruct Hc. apply list_elem_of_fmap. by exists (k, c).
      * injection Hk as -> ->. destruct Hc. apply list_elem_of_fmap. by exists (fd, c).
    + intros k e q. cbn [pidfds]. apply (Htold y _ Hy). by intros [??] [??]%dpop_sub.
  - apply wp_bind, wp_upd. cbn [fst snd].
    eapply wp_mono; [apply release_ok; [by apply inv_fallback|done]| |done]. intros [] [l' y]. cbn [fst snd]. intros (-> & Hi' & Hy).
    split_and!; [done|by etrans|]. intros k e q. cbn [pidfds]. apply (Htold y _ Hy). by intros [??] [??]%dpop_sub.
Qed.

Lemma wait_once_ok t l x : Inv [] l x →
  no_exn (wait_once t) (fun evs s' => Inv [] s'.1 s'.2 ∧ later x s'.2 ∧ (now x < now s'.2)%Z ∧ told evs s'.1 s'.2) (l, x).
Proof.
  intros Hi. unfold no_exn, wait_once. apply wp_mine. cbn [fst].
  assert (∀ y, told [] l y) as Hnil by (by intros y fd ev p ?%not_elem_of_nil).
  destruct (pidfds l) as [|fp0 fds0] eqn:Ep.
  { apply wp_bind, wp_calls. eapply wp_mono; [apply law_sleep| |done]. cbn [fst snd]. intros [] y [Hy Hlt].
    apply wp_ret. cbn [fst snd]. split_and!; [by eapply inv_later|apply Hy|done|apply Hnil]. }
  rewrite <- Ep. clear Ep fp0 fds0. apply wp_catch, wp_calls. eapply wp_mono; [apply law_poll| |]; cbn [fst snd].
  - intros evs y (Hy & Hlt & Hev). split_and!; [by eapply inv_later|apply Hy|done|].
    intros fd ev p Hin Hp He. eapply Hev; [done| |done]. rewrite (inv_table _ _ _ Hi).
    apply lookup_union_Some_l, elem_of_list_to_map_1; [apply (inv_keys _ _ _ Hi)|done].
  - intros e y (He & Hy & Hlt). pose proof (inv_later _ _ _ _ Hi Hy) as Hiy.
    case_match; [apply wp_ret; split_and!; [done|apply Hy|done|apply Hnil]|]. rewrite He.
    apply wp_bind, wp_upd. cbn [fst snd]. apply wp_bind. rewrite mfor_fmap.
    eapply wp_mono; [apply (release_all [] (fun _ => true)); [by apply inv_fallback|apply (inv_keys _ _ _ Hi)|done]| |done].
    intros [] [l' z]. cbn [fst snd]. intros (Hi' & Hz & _ & Hout). apply wp_ret. cbn [fst snd].
    split_and!; [done|etrans; [apply Hy|done]|destruct Hz as [Hz _]; lia|]. by intros ??? ?%not_elem_of_nil.
Qed.

(** ** The loop *)

(** Each process left was probed, and was there, once the deadline had passed. *)
Definition timed_out (deadline : Z) (left : list Z) (x0 x : X) : Prop :=
  ∀ p, p ∈ left → ∃ y, later x0 y ∧ later y x ∧ (deadline ≤ now y)%Z ∧ ¬ gone p y.

Lemma probe_turn_ok done l0 l x :
  Inv [] l x → (∀ p, p ∈ done → gone p x) → l0 = pidfds l →
  no_exn (_ ← set_remaining (fun r => minus r done); _ ← set_fallback (fun f => minus f done); release_done done)
    (fun _ s' => Inv [] s'.1 s'.2 ∧ later x s'.2) (l, x).
Proof.
  intros Hi Hd ->. unfold no_exn. apply wp_bind, wp_upd, wp_bind, wp_upd. cbn [fst snd]. unfold release_done. apply wp_mine. cbn [fst].
  pose proof (inv_shrink done l (minus (fallback l) done) x Hi Hd) as Hs.
  eapply wp_mono; [apply (release_all done (fun fp => mem fp.2 done)); [exact Hs|apply (inv_keys _ _ _ Hs)|done]| |done].
  intros [] [l' y]. cbn [fst snd]. intros (Hi' & Hy & _ & Hout). split; [|done].
  eapply inv_settle; [done|]. intros fd p Hp Hin%mem_elem. destruct (Hout _ Hp) as [Hin' Hno]. cbn [snd] in Hno. rewrite Hno in Hin; done.
Qed.

Lemma turn_ok deadline l x : Inv [] l x →
  no_exn (turn deadline) (fun ended s' => later x s'.2 ∧
    if ended : bool then ∃ extra, Inv extra s'.1 s'.2 ∧ timed_out deadline (remaining s'.1) x s'.2
    else Inv [] s'.1 s'.2 ∧ (now x < deadline)%Z ∧ (now x < now s'.2)%Z) (l, x).
Proof.
  intros Hi. unfold no_exn, turn. apply wp_mine. cbn [fst]. destruct (remaining l) as [|r0 rs] eqn:Er.
  { apply wp_ret. cbn [fst snd]. split; [done|]. exists []. split; [done|]. rewrite Er. by intros p ?%not_elem_of_nil. }
  rewrite <- Er. apply wp_bind, wp_calls. eapply wp_mono; [apply law_monotonic| |done]. cbn [fst snd]. intros t y [Hy Ht].
  pose proof (inv_later _ _ _ _ Hi Hy) as Hiy. destruct (Z.leb_spec (deadline - t) 0).
  - apply wp_bind. eapply wp_mono; [apply probe_ok| |done]. intros done [l' z]. cbn [fst snd]. intros (-> & Hz & Hin & Hout).
    apply wp_bind, wp_upd, wp_ret. cbn [fst snd]. assert (later x z) as Hxz by (etrans; [apply Hy|apply Hz]). split; [done|].
    exists done. split; [apply inv_shrink; [by eapply inv_later|intros p Hp; apply (Hin p Hp)]|].
    cbn [remaining]. intros p [Hp Hnd]%elem_minus. destruct (Hout p Hp Hnd) as (w & Hw1 & Hw2 & Hw3).
    exists w. split_and!; [etrans; [apply Hy|done]|done|destruct Hw1; lia|done].
  - apply wp_bind. eapply wp_mono; [by apply wait_once_ok| |done]. intros evs [l1 z]. cbn [fst snd]. intros (Hi1 & Hz & Hlt & Htold).
    assert (later x z) as Hxz by (etrans; [apply Hy|apply Hz]).
    assert (now x < deadline ∧ now x < now z)%Z as [Hdl Hadv] by (destruct Hy as [_ [? _]]; lia).
    apply wp_bind. eapply wp_mono; [apply (wp_for (fun s => Inv [] s.1 s.2 ∧ later z s.2 ∧ told evs s.1 s.2) _ _ (fun _ _ => False))| |done]; cbn [fst snd].
    { by split_and!. }
    { intros ev [l' y'] Hev (A & B & C). eapply wp_mono; [by apply (one_event_ok evs)| |done]. done. }
    intros [] [l2 w] (Hi2 & Hw & _). cbn [fst snd] in *.
    apply wp_bind. eapply wp_mono with (Q := fun _ s' => s'.1 = l2 ∧ same w s'.2) (E := fun _ _ => False); [|intros probe_all [l' v]; cbn [fst snd]; intros [-> Hv]|done].
    { destruct evs; [by apply wp_ret|]. apply wp_bind, wp_calls. eapply wp_mono; [apply law_monotonic| |done]. cbn [fst snd].
      intros ? v [Hv _]. by apply wp_mine. }
    apply wp_mine. cbn [fst]. apply wp_bind. eapply wp_mono; [apply probe_ok| |done].
    intros done [l' u]. cbn [fst snd]. intros (-> & Hu & Hin & _).
    assert (later z u) as Hzu by (etrans; [done|]; etrans; [apply Hv|apply Hu]).
    assert (Inv [] l2 u) as Hiu by (eapply inv_later; [by eapply inv_later|done]).
    apply wp_bind. eapply wp_mono with (Q := fun _ s' => Inv [] s'.1 s'.2 ∧ later u s'.2) (E := fun _ _ => False); [| |done].
    { apply wp_when. case_match; [|done]. apply wp_bind, wp_calls. eapply wp_mono; [apply law_monotonic| |done]. cbn [fst snd].
      intros t2 u2 [Hu2 _]. apply wp_upd. cbn [fst snd]. split; [|apply Hu2]. apply inv_fallback. by eapply inv_later. }
    intros [] [l3 q]. cbn [fst snd]. intros [Hi3 Hq].
    change (wp ((_ ← set_remaining (fun r => minus r done); _ ← set_fallback (fun f => minus f done); release_done done) ≫= fun _ => mret false)
      (fun ended s' => later x s'.2 ∧ if ended : bool then ∃ extra, Inv extra s'.1 s'.2 ∧ timed_out deadline (remaining s'.1) x s'.2
        else Inv [] s'.1 s'.2 ∧ (now x < deadline)%Z ∧ (now x < now s'.2)%Z) (fun _ _ => False) (l3, q)).
    apply wp_bind. eapply wp_mono; [apply (probe_turn_ok done (pidfds l3)); [done| |done]| |done].
    { intros p Hp. apply Hq. apply (Hin p Hp). }
    intros [] [l4 r]. cbn [fst snd]. intros [Hi4 Hr]. apply wp_ret. cbn [fst snd].
    assert (later z r) as Hzr by (etrans; [done|]; by etrans). split; [by etrans|]. split_and!; [done|done|destruct Hzr; lia].
Qed.

Lemma wait_loop_ok fuel deadline l x : Inv [] l x → Z.to_nat (deadline - now x) < fuel →
  no_exn (loop fuel deadline)
    (fun _ s' => later x s'.2 ∧ ∃ extra, Inv extra s'.1 s'.2 ∧ timed_out deadline (remaining s'.1) x s'.2) (l, x).
Proof.
  revert l x. unfold no_exn. induction fuel as [|fuel IH]; intros l x Hi Hf; [lia|]. cbn [loop].
  apply wp_bind. eapply wp_mono; [by apply turn_ok| |done]. intros [] [l' y]; cbn [fst snd].
  - intros [Hy Hend]. by apply wp_ret.
  - intros (Hy & Hi' & Hdl & Hadv). eapply wp_mono; [apply IH; [done|lia]| |done].
    intros [] [l'' z]. cbn [fst snd]. intros (Hz & extra & Hi'' & Hto). split; [by etrans|]. exists extra. split; [done|].
    intros p Hp. destruct (Hto p Hp) as (w & Hw & ?). exists w. split; [by etrans|done].
Qed.

Lemma wait_body_ok fuel deadline l x :
  Inv [] l x → NoDup (remaining l) → fallback l = remaining l → pidfds l = [] → Z.to_nat (deadline - now x) < fuel →
  no_exn (wait_body fuel deadline)
    (fun _ s' => later x s'.2 ∧ ∃ extra, Inv extra s'.1 s'.2 ∧ timed_out deadline (remaining s'.1) x s'.2) (l, x).
Proof.
  intros Hi Hnd Hfb Hnil Hfuel. unfold no_exn, wait_body. apply wp_mine. cbn [fst]. apply wp_bind.
  eapply wp_mono with (Q := fun _ s' => s'.1 = l ∧ same x s'.2) (E := fun _ _ => False); [|intros polls [l' y]; cbn [fst snd]; intros [-> Hy]|done].
  { case_match; [|by apply wp_ret]. apply (wp_attempt is_OSError poll_factory (fun _ => true) (fun _ => false) _ _ _ (fun _ x' => same x x')).
    - eapply wp_mono; [apply law_factory| |]; simpl; [done|]. intros e y [? ?]. done.
    - by intros e y _ Hy. }
  pose proof (inv_later _ _ _ _ Hi Hy) as Hiy. apply wp_bind.
  eapply wp_mono with (Q := fun _ s' => Inv [] s'.1 s'.2 ∧ later y s'.2) (E := fun _ _ => False);
    [|intros [] [l' z]; cbn [fst snd]; intros [Hiz Hz]|done].
  - apply wp_when. case_match; [|done]. apply open_all_ok; [done|done|].
    intros p Hp. rewrite Hfb, Hnil. split_and!; [done|done|]. simpl. by intros ?%not_elem_of_nil.
  - assert (later x z) as Hxz by (etrans; [apply Hy|done]).
    eapply wp_mono; [apply wait_loop_ok; [done|destruct Hxz; lia]| |done].
    intros [] [l'' w]. cbn [fst snd]. intros (Hw & extra & Hi'' & Hto). split; [by etrans|]. exists extra. split; [done|].
    intros p Hp. destruct (Hto p Hp) as (v & Hv & ?). exists v. split; [by etrans|done].
Qed.

(** The [finally] clause closes whatever is still open. *)
Lemma close_rest (d : list (Z * Z)) l x :
  table x = list_to_map d ∪ base → NoDup d.*1 → (∀ fd, fd ∈ d.*1 → base !! fd = None) →
  no_exn (mfor d.*1 close_fd) (fun _ s' => s'.1 = l ∧ table s'.2 = base ∧ later x s'.2) (l, x).
Proof.
  revert x. unfold no_exn. induction d as [|[fd p] d IH]; intros x Ht Hnd Hb; simpl.
  { apply wp_ret. split_and!; [done| |done]. simpl. rewrite Ht. apply (left_id_L ∅ _). }
  apply NoDup_cons in Hnd as [Hfd Hnd].
  assert (∀ y, table y = delete fd (table x) → later x y →
    wp (mfor d.*1 close_fd) (fun _ s' => s'.1 = l ∧ table s'.2 = base ∧ later x s'.2) (fun _ _ => False) (l, y)) as Hnext.
  { intros y Hy Hl. eapply wp_mono; [apply (IH y); [|done|]| |done].
    - rewrite Hy, Ht, dpop_table; [|by constructor|apply Hb; left]. unfold dpop. simpl.
      rewrite bool_decide_eq_false_2 by auto. f_equal. apply f_equal, (dpop_fresh fd d), Hfd.
    - intros k Hk. apply Hb. by right.
    - intros [] s' (? & ? & ?). split_and!; [done|done|by etrans]. }
  apply wp_bind. unfold close_fd, swallow. apply wp_catch, wp_calls. eapply wp_mono; [apply law_close| |]; cbn [fst snd].
  - intros [] y [Hy Hl]. by apply Hnext.
  - intros e y (He & Hy & Hl). rewrite He. apply wp_ret. by apply Hnext.
Qed.

(** Where the watch starts. *)
Lemma no_exn_run {A} (run : W A) l (Q : A → X → Prop) x :
  no_exn run (fun a s' => Q a s'.2) (l, x) → wp (fun x => let '(r, s) := run (l, x) in (r, s.2)) Q (fun _ _ => False) x.
Proof. unfold no_exn, wp. by destruct (run (l, x)) as [[a|e] [l' y]]. Qed.
Lemma minus_NoDup l k : NoDup l → NoDup (minus l k).
Proof. unfold minus. rewrite !NoDup_ListNoDup. apply List.NoDup_filter. Qed.
End spec.

Lemma start_ok {X} `{Laws X} (all done : list Z) (x : X) :
  (∀ p, p ∈ done → gone p x) → ∀ t, Inv (table x) all [] (Locals (minus all done) (minus all done) [] t) x.
Proof.
  intros Hd t. split; cbn [remaining pidfds].
  - symmetry. apply (left_id_L ∅ _).
  - constructor.
  - by intros fd ?%not_elem_of_nil.
  - constructor.
  - by intros fd p ?%not_elem_of_nil.
  - intros p Hp Hn. apply Hd. destruct (decide (p ∈ done)); [done|]. exfalso. apply Hn. by apply elem_minus.
  - by intros p [? _]%elem_minus.
Qed.

Lemma wait_exit_ok {X : Type} `{Laws X} (fuel : nat) (pids : list Z) (timeout : Z) (x : X) :
  Z.to_nat timeout < fuel →
  wp (wait_for_process_exit fuel pids timeout)
    (fun left x' => table x' = table x ∧ (∀ p, p ∈ pids → p ∉ left → gone p x') ∧
       ∀ p, p ∈ left → p ∈ pids ∧ ∃ y, later x y ∧ later y x' ∧ (now x + timeout ≤ now y)%Z ∧ ¬ gone p y)
    (fun _ _ => False) x.
Proof.
  intros Hfuel. apply no_exn_run. unfold no_exn. apply wp_bind, wp_calls.
  eapply wp_mono; [apply law_monotonic| |done]. cbn [fst snd]. intros t y [[Hty Hy] Ht].
  apply wp_bind. eapply wp_mono; [apply probe_ok| |done]. intros done [l' z]. cbn [fst snd]. intros (-> & [Htz Hz] & Hin & Hout).
  pose proof (start_ok (remove_dups pids) done z (fun p Hp => proj2 (Hin p Hp))) as Hstart.
  assert (∀ p, p ∈ pids → p ∉ minus (remove_dups pids) done → gone p z) as Hfound.
  { intros p Hp%elem_of_remove_dups. apply (inv_gone _ _ _ _ _ (Hstart 0%Z) p Hp). }
  apply wp_bind, wp_upd. destruct (minus (remove_dups pids) done) as [|r0 rs] eqn:Er.
  { apply wp_ret. cbn [snd]. split_and!; [congruence|done|]. by intros p ?%not_elem_of_nil. }
  rewrite <- Er in *. assert (NoDup (minus (remove_dups pids) done)) as Hnd by apply minus_NoDup, NoDup_remove_dups.
  clear Er. apply wp_bind, wp_calls. eapply wp_mono; [apply law_monotonic| |done]. cbn [fst snd]. intros t2 w [Hw _].
  apply wp_bind, wp_upd. cbn [fst snd]. apply wp_bind, wp_finally.
  assert (later x w) as Hxw by (apply (later_trans _ y); [done|]; apply (later_trans _ z); [done|apply Hw]).
  eapply wp_mono; [apply (wait_body_ok (table z) (remove_dups pids)); [apply (inv_later _ _ _ _ _ _ (Hstart _) Hw)|done|done|done|]| |done].
  { destruct Hw as [_ [? _]], Hz as [? _]. lia. }
  intros [] [l1 u]. cbn [fst snd]. intros (Hu & extra & Hi & Hto). apply wp_mine. cbn [fst].
  eapply wp_mono; [apply close_rest; apply Hi| |done]. intros [] [l2 v]. cbn [fst snd]. intros (-> & Htv & Hv).
  apply wp_mine, wp_ret. cbn [fst snd]. split_and!; [congruence| |].
  - intros p Hp%elem_of_remove_dups Hn. apply Hv, (inv_gone _ _ _ _ _ Hi); done.
  - intros p Hp. split; [apply elem_of_remove_dups, (inv_sub _ _ _ _ _ Hi p Hp)|].
    destruct (Hto p Hp) as (q & Hq1 & Hq2 & Hq3 & Hq4). exists q.
    split_and!; [by apply (later_trans _ w)|by apply (later_trans _ u)|destruct Hy; lia|done].
Qed.

(** C23: waiting for processes terminates, loses none and leaks nothing: with
    more turns than the timeout has ticks, [wait_for_process_exit] raises
    nothing, whichever pidfd, poll and close calls fail; every pidfd it opened is
    closed again; a process asked about that is not in the answer has exited; and
    a process in the answer was asked about and was found alive by a probe made
    once the timeout had passed. *)
Theorem wait_total {X : Type} `{Laws X} (fuel : nat) (pids : list Z) (timeout : Z) (x : X) :
  Z.to_nat timeout < fuel →
  wp (wait_for_process_exit fuel pids timeout)
    (fun left x' => table x' = table x ∧ (∀ p, p ∈ pids → p ∉ left → gone p x') ∧
       ∀ p, p ∈ left → p ∈ pids ∧ ∃ y, later x y ∧ later y x' ∧ (now x + timeout ≤ now y)%Z ∧ ¬ gone p y)
    (fun _ _ => False) x.
Proof. apply wait_exit_ok. Qed.

(** ** A small kernel

    Process 7 exits at time 3000, process 8 cannot be watched by a pidfd and
    exits at 12000, process 9 never exits; closing pidfd 0 reports an error. *)

Definition exits_at (p : Z) : Z := if (p =? 7)%Z then 3000 else if (p =? 8)%Z then 12000 else 1000000000.
Definition kernel : Type := Z * gmap Z Z.
Definition dead (p : Z) (k : kernel) : Prop := (exits_at p ≤ k.1)%Z.
#[local] Instance dead_dec p k : Decision (dead p k).
Proof. unfold dead. apply _. Defined.
Definition free_fd (t : gmap Z Z) : Z := fresh (dom t : gset Z).
Definition oserror : exn := Exn OSError "".

#[local] Instance toy_calls : Calls kernel := {
  monotonic := fun k => (Ok k.1, k);
  is_done := fun p k => (Ok (bool_decide (dead p k)), k);
  has_pidfd_open := true;
  pidfd_open := fun p k => if (p =? 8)%Z then (Err oserror, k) else (Ok (free_fd k.2), (k.1, <[free_fd k.2 := p]> k.2));
  has_poll := true;
  poll_factory := mret tt;
  register := fun _ => mret tt;
  unregister := fun _ => mret tt;
  poll := fun ms k =>
    let k' := ((k.1 + 1000 * Z.max ms 1)%Z, k.2) in
    (Ok ((fun e => (e.1, POLLIN)) <$> List.filter (fun e => bool_decide (dead e.2 k')) (map_to_list k.2)), k');
  sleep := fun t k => (Ok tt, ((k.1 + Z.max t 1)%Z, k.2));
  close := fun fd k => (if (fd =? 0)%Z then Err oserror else Ok tt, (k.1, delete fd k.2))
}.

#[local] Instance toy_laws : Laws kernel.
Proof.
  refine {| table := snd; gone := dead; now := fst |}.
  all: unfold wp, dead; simpl.
  - by intros [t f].
  - intros p [t f]. simpl. by rewrite bool_decide_eq_true.
  - intros p [t f]. destruct (p =? 8)%Z; simpl; [done|]. split_and!; [|done|done|done].
    apply (not_elem_of_dom_1 (D := gset Z)). unfold free_fd. apply (is_fresh (dom f : gset Z)).
  - by intros [t f].
  - by intros fd [t f].
  - by intros fd [t f].
  - intros ms [t f]. simpl. split_and!; [done|lia|intros p; lia|lia|].
    intros fd ev p ([k q] & E & Hin)%list_elem_of_fmap Hp _. simpl in *. injection E as -> ->.
    apply list_elem_of_In, List.filter_In in Hin as [Hin Hd].
    apply list_elem_of_In, elem_of_map_to_list in Hin. simplify_eq. by apply bool_decide_eq_true in Hd.
  - intros d [t f]. simpl. split_and!; [done|lia|intros p; lia|lia].
  - intros fd [t f]. by destruct (fd =? 0)%Z.
Qed.

Example wait_three : wait_for_process_exit 100 [7; 8; 9; 7]%Z 20000 (0%Z, ∅) = (Ok [9%Z], (20000%Z, ∅)).
Proof. vm_compute. reflexivity. Qed.

Definition start : kernel := (0%Z, ∅).
Lemma wait_total_witness :
  Z.to_nat 50 < 100 ∧ wp (wait_for_process_exit 100 [7; 8; 9]%Z 50)
    (fun left x' => table x' = table start ∧ (∀ p, p ∈ [7; 8; 9]%Z → p ∉ left → gone p x') ∧
       ∀ p, p ∈ left → p ∈ [7; 8; 9]%Z ∧ ∃ y, later start y ∧ later y x' ∧ (now start + 50 ≤ now y)%Z ∧ ¬ gone p y)
    (fun _ _ => False) start.
Proof. split; [compute; lia|]. apply (wait_total 100 [7; 8; 9]%Z 50 start). compute; lia. Defined.
End ProcessWaitSpec.
