(* ===== verification/SandboxDriver.v ===== *)
(** * The sandbox driver of the host ([agent/sandbox_driver.py])

    [SandboxDriver] owns one sandbox: the overlay mount, the process in its
    namespaces and the [SandboxController] attached to it; the tree search
    takes checkpoints and goes back through it.  Files, programs, /proc and the
    controller are the interface [Sys]; [backends/deltabox/local_backend.py],
    the seam of another search, is at the end.  The environment of the process
    that is started and log files are left out. *)

From S2P Require Import Prelude Hoare PyStr PyDict Json JsonText PyText ProcessWait.

Module SandboxDriver.

(** ** Surroundings *)

(** An entry of the controller's registry: its [dump_future], and whether a
    dump error is recorded now. *)
Class Sys (X : Type) := {
  mkdirs : string → M X unit;                    (* mkdir(parents=True, exist_ok=True) *)
  mountinfo : M X (list string);                 (* the lines of /proc/self/mountinfo *)
  run : list string → M X Z;                     (* subprocess.run: the return code *)
  path_exists : string → M X bool;
  unlink : string → M X unit; mkfifo : string → M X unit;
  read_text : string → M X string;
  popen : list string → M X unit;                (* the process of the launcher *)
  shell_poll : M X (option Z);
  shell_wait : Z → M X unit;
  nap : M X unit;                                (* the sleep of a polling loop *)
  open_nonblock : string → M X Z; write_fd : Z → string → M X unit; close_fd : Z → M X unit;
  waits :: ProcessWait.Calls X;
  new_controller : Z → option Z → M X unit;      (* SandboxController(agent_pid, ns_init_pid) *)
  controller_shutdown : M X unit;
  registry_futures : M X (list (string * option Z));
  future_result : Z → M X unit;
  entry_dump_error : string → M X bool;
  mount_fd : M X (option Z); drop_mount_fd : M X unit;
  checkpoint_action : string → string → string → M X json;
  restore_action : string → M X json
}.

Record config := Config {
  workdir : string; base_lower : string; shell_server_path : string; namespace_launcher_path : string; python : string;
  enable_warm_template : bool; sudo_wrap : bool;
}.
Section paths.
Context (cfg : config).
Definition merged_dir : string := workdir cfg +:+ "/merged".
Definition upper_dir : string := workdir cfg +:+ "/upper".
Definition work_dir : string := workdir cfg +:+ "/work".
Definition layers_root : string := workdir cfg +:+ "/layers".
Definition snapshot_store : string := workdir cfg +:+ "/snapshots".
Definition fifo_in_path : string := workdir cfg +:+ "/shell_cmd_in.fifo".
Definition fifo_out_path : string := workdir cfg +:+ "/shell_cmd_out.fifo".
Definition agent_pid_file : string := workdir cfg +:+ "/agent_ns_pid".
Definition ns_init_pid_file : string := workdir cfg +:+ "/agent_ns_init_pid".
(** [["sudo", "-n", *cmd]] *)
Definition sudo (cmd : list string) : list string := if sudo_wrap cfg then ["sudo"; "-n"] ++ cmd else cmd.
Definition sudo_env (cmd : list string) : list string := if sudo_wrap cfg then ["sudo"; "-n"; "-E"] ++ cmd else cmd.
Definition mount_command : list string :=
  sudo ["mount"; "-t"; "overlay"; "overlay"; "-o";
        "lowerdir=" +:+ base_lower cfg +:+ ",upperdir=" +:+ upper_dir +:+ ",workdir=" +:+ work_dir +:+
          ",index=off,metacopy=off,redirect_dir=off"; merged_dir].
Definition umount_command (lazy : bool) : list string := sudo (["umount"] ++ (if lazy then ["-l"] else []) ++ [merged_dir]).
Definition kill_command (pid : Z) : list string := sudo ["kill"; "-KILL"; pretty pid].
Definition launch_command : list string :=
  sudo_env [python cfg; namespace_launcher_path cfg; python cfg; shell_server_path cfg].
End paths.

(** DELTABOX_ROOT_OVERLAY_DIRS; [None] if it names none *)
Definition root_overlay_dirs (env : string) : option (list string) :=
  match strip env with
  | EmptyString => None
  | rod => match List.filter (fun d => negb (bool_decide (d = ""))) (strip <$> split_char (PyStr.chr 44) rod) with [] => None | l => Some l end
  end.

(** ** The driver *)

Record CkptRecord := CkptRecord_ {
  ckpt_id : string; parent_ckpt_id : option string; tag : string; fork_or_criu : string; raw_command : string;
}.
Record sandbox := Sandbox {
  shell_proc : bool; agent_host_pid : option Z; ns_init_host_pid : option Z; ns_init_start_time : option string;
  ctrl : bool; overlay_mounted : bool; ckpts : list (string * CkptRecord); current_ckpt_id : option string;
}.
Definition new_sandbox : sandbox := Sandbox false None None None false false [] None.
Definition set_shell (s : sandbox) : sandbox :=
  Sandbox true (agent_host_pid s) (ns_init_host_pid s) (ns_init_start_time s) (ctrl s) (overlay_mounted s) (ckpts s) (current_ckpt_id s).
Definition set_agent (pid : Z) (s : sandbox) : sandbox :=
  Sandbox (shell_proc s) (Some pid) (ns_init_host_pid s) (ns_init_start_time s) (ctrl s) (overlay_mounted s) (ckpts s) (current_ckpt_id s).
Definition set_ns_pid (pid : Z) (s : sandbox) : sandbox :=
  Sandbox (shell_proc s) (agent_host_pid s) (Some pid) (ns_init_start_time s) (ctrl s) (overlay_mounted s) (ckpts s) (current_ckpt_id s).
Definition set_ns_time (t : option string) (s : sandbox) : sandbox :=
  Sandbox (shell_proc s) (agent_host_pid s) (ns_init_host_pid s) t (ctrl s) (overlay_mounted s) (ckpts s) (current_ckpt_id s).
Definition set_ctrl (s : sandbox) : sandbox :=
  Sandbox (shell_proc s) (agent_host_pid s) (ns_init_host_pid s) (ns_init_start_time s) true (overlay_mounted s) (ckpts s) (current_ckpt_id s).
Definition set_mounted (b : bool) (s : sandbox) : sandbox :=
  Sandbox (shell_proc s) (agent_host_pid s) (ns_init_host_pid s) (ns_init_start_time s) (ctrl s) b (ckpts s) (current_ckpt_id s).
Definition add_ckpt (r : CkptRecord) (s : sandbox) : sandbox :=
  Sandbox (shell_proc s) (agent_host_pid s) (ns_init_host_pid s) (ns_init_start_time s) (ctrl s) (overlay_mounted s)
    (dset (ckpt_id r) r (ckpts s)) (Some (ckpt_id r)).
Definition set_current (id : string) (s : sandbox) : sandbox :=
  Sandbox (shell_proc s) (agent_host_pid s) (ns_init_host_pid s) (ns_init_start_time s) (ctrl s) (overlay_mounted s) (ckpts s) (Some id).

(** ** /proc *)

Definition stat_path (pid : Z) : string := "/proc/" +:+ pretty pid +:+ "/stat".
(** [text.rsplit(")", 1)[1].split()] *)
Definition stat_fields (text : string) : result (list string) :=
  if has_char (PyStr.chr 41) text then Ok (split_ws (after_last (PyStr.chr 41) text)) else raise IndexError "list index out of range".
Definition nth_field (l : list string) (n : nat) : result string :=
  match l !! n with Some f => Ok f | None => raise IndexError "list index out of range" end.
(** [int(text.strip())] *)
Definition pid_of (text : string) : result Z := parse_int (strip text).

(** The calls of [wait_for_process_exit] with the probe it is given. *)
Definition with_probe {X} (C : ProcessWait.Calls X) (probe : Z → M X bool) : ProcessWait.Calls X := {|
  ProcessWait.monotonic := ProcessWait.monotonic; ProcessWait.is_done := probe;
  ProcessWait.has_pidfd_open := ProcessWait.has_pidfd_open; ProcessWait.pidfd_open := ProcessWait.pidfd_open;
  ProcessWait.has_poll := ProcessWait.has_poll; ProcessWait.poll_factory := ProcessWait.poll_factory;
  ProcessWait.register := ProcessWait.register; ProcessWait.unregister := ProcessWait.unregister;
  ProcessWait.poll := ProcessWait.poll; ProcessWait.sleep := ProcessWait.sleep; ProcessWait.close := ProcessWait.close
|}.

(** [except Exception] *)
Definition is_exception (e : exn) : bool := negb (mem (exn_cls e) [SystemExit; OutOfModel; OutOfFuel]).

Section driver.
Context {X : Type} `{!Sys X} (cfg : config).
Notation D := (M (sandbox * X)).

Definition is_cls (e : exn) (c : exn_class) : bool := bool_decide (exn_cls e = c).
(** [except FileNotFoundError: return a] *)
Definition or_missing {A} (a : A) (m : M X A) : M X A := mcatch m (fun e => if is_cls e FileNotFoundError then mret a else mthrow e).
(** [except Exception: return a] *)
Definition or_else {A} (a : A) (m : D A) : D A := mcatch m (fun e => if is_exception e then mret a else mthrow e).

Definition _process_start_time (pid : Z) : M X (option string) :=
  or_missing None (t ← read_text (stat_path pid); f ← lift_result (stat_fields t); s ← lift_result (nth_field f 19); mret (Some s)).

(** ** Start *)

Definition _mount_overlay : D unit :=
  found ← or_else false (lines ← on_host mountinfo; mret (existsb (fun l => contains l (" " +:+ merged_dir cfg +:+ " ")) lines));
  if (found : bool) then set_locals (set_mounted true) else
  rc ← on_host (run (mount_command cfg));
  if negb (rc =? 0)%Z then mraise RuntimeError "overlay mount failed" else set_locals (set_mounted true).

(** Waits until the pid file can be read; [false] when it never appears. *)
Fixpoint await_agent (n : nat) : D bool :=
  match n with
  | O => mret false
  | S n =>
      rc ← on_host shell_poll;
      match rc with
      | Some _ => mraise RuntimeError "shell_server died before ready"
      | None =>
          there ← on_host (path_exists (agent_pid_file cfg));
          ok ← (if (there : bool) then
                  mcatch (t ← on_host (read_text (agent_pid_file cfg)); pid ← lift_result (pid_of t);
                          _ ← set_locals (set_agent pid); mret true)
                    (fun e => if is_cls e ValueError then mret false else mthrow e)
                else mret false);
          if (ok : bool) then mret true else _ ← on_host nap; await_agent n
      end
  end.
Fixpoint await_ns_init (n : nat) : D unit :=
  match n with
  | O => mret tt
  | S n =>
      there ← on_host (path_exists (ns_init_pid_file cfg));
      ok ← (if (there : bool) then
              mcatch (t ← on_host (read_text (ns_init_pid_file cfg)); pid ← lift_result (pid_of t);
                      _ ← set_locals (set_ns_pid pid);
                      start ← on_host (_process_start_time pid); _ ← set_locals (set_ns_time start); mret true)
                (fun e => if is_cls e ValueError then mret false else mthrow e)
            else mret false);
      if (ok : bool) then mret tt else _ ← on_host nap; await_ns_init n
  end.
Definition unlink_if_there (p : string) : D unit := there ← on_host (path_exists p); mwhen there (on_host (unlink p)).
Definition _launch_shell_server : D unit :=
  _ ← mfor [fifo_in_path cfg; fifo_out_path cfg] (fun p => _ ← unlink_if_there p; on_host (mkfifo p));
  _ ← unlink_if_there (agent_pid_file cfg);
  _ ← unlink_if_there (ns_init_pid_file cfg);
  _ ← on_host (popen (launch_command cfg));
  _ ← set_locals set_shell;
  ready ← await_agent 100;
  if (ready : bool) then await_ns_init 40 else mraise RuntimeError "AGENT_PID_FILE never appeared".

(** The endpoint of the templates; a missing one is only reported. *)
Fixpoint await_template (n : nat) : D unit :=
  match n with
  | O => mret tt
  | S n => there ← on_host (path_exists "/tmp/template_ctrl.in"); if (there : bool) then mret tt else _ ← on_host nap; await_template n
  end.
Definition _build_controller : D unit :=
  s ← locals;
  match shell_proc s, agent_host_pid s with
  | true, Some pid =>
      there ← on_host (path_exists ("/proc/" +:+ pretty pid));
      if negb there then mraise RuntimeError "Agent host PID not in /proc" else
      _ ← mwhen (enable_warm_template cfg) (await_template 100);
      _ ← on_host (new_controller pid (ns_init_host_pid s));
      set_locals set_ctrl
  | _, _ => mraise RuntimeError "shell_proc/agent_host_pid not initialised"
  end.
Definition start : D unit :=
  _ ← mfor [workdir cfg; upper_dir cfg; work_dir cfg; layers_root cfg; snapshot_store cfg; merged_dir cfg] (fun d => on_host (mkdirs d));
  _ ← _mount_overlay; _ ← _launch_shell_server; _build_controller.

(** ** Checkpoint and restore *)

(** [a or b] *)
Definition first_of (a : option string) (b : string) : string := match a with Some EmptyString | None => b | Some a => a end.

Definition checkpoint (tag : string) (parent : option string) (raw_command : string) : D CkptRecord :=
  s ← locals;
  if negb (ctrl s) then mraise RuntimeError "driver not started" else
  let parent_id := first_of parent (first_of (current_ckpt_id s) "root") in
  info ← on_host (checkpoint_action parent_id tag raw_command);
  id ← lift_result (if is_dict info then pget info "id" else Ok JNull);
  if negb (truth id) then mraise RuntimeError "checkpoint_action returned no 'id'" else
  id ← lift_result (as_str id);
  let rec := CkptRecord_ id (Some parent_id) tag "criu" raw_command in
  _ ← set_locals (add_ckpt rec); mret rec.

Definition restore (target : string) : D CkptRecord :=
  s ← locals;
  if negb (ctrl s) then mraise RuntimeError "driver not started" else
  if negb (dhas target (ckpts s)) && negb (bool_decide (target = "root")) then mraise KeyError "unknown ckpt_id" else
  info ← on_host (restore_action target);
  path ← lift_result (if is_dict info then pget info "path" else Ok JNull);
  let rec := CkptRecord_ target (dget target (ckpts s) ≫= parent_ckpt_id) ("restored:" +:+ target)
               (if is_string path "warm-template" then "fork" else "criu") "" in
  _ ← set_locals (set_current target); mret rec.

(** ** The end *)

Definition _send_shutdown : D unit :=
  there ← on_host (path_exists (fifo_in_path cfg));
  if negb there then mret tt else
  fd ← mcatch (fd ← on_host (open_nonblock (fifo_in_path cfg)); mret (Some fd))
         (fun e => if ProcessWait.is_OSError e then mret None else mthrow e);
  match fd with
  | None => mret tt
  | Some fd =>
      mfinally (mcatch (on_host (write_fd fd (dumps (JObj [("type", JStr "shutdown")]) +:+ nl))) (fun e => if ProcessWait.is_OSError e then mret tt else mthrow e))
        (on_host (close_fd fd))
  end.

(** Whether the process that had this identity is gone. *)
Definition done (identity : string) (target : Z) : M X bool :=
  or_missing true
    (t ← read_text (stat_path target); f ← lift_result (stat_fields t);
     st ← lift_result (nth_field f 0);
     if bool_decide (st = "Z") then mret true else
     s ← lift_result (nth_field f 19); mret (negb (bool_decide (s = identity)))).
Definition WAIT_US : Z := 10000000.
Definition _terminate_namespace (fuel : nat) : D unit :=
  s ← locals;
  match ns_init_host_pid s with
  | None =>
      if negb (shell_proc s) then mret tt else
      rc ← on_host shell_poll;
      match rc with
      | None => mraise RuntimeError "namespace owner is unknown; refusing to orphan the sandbox"
      | Some _ => mret tt
      end
  | Some pid =>
      identity ← on_host (_process_start_time pid);
      match identity with
      | None => mret tt
      | Some identity =>
          if negb (bool_decide (Some identity = ns_init_start_time s)) then mret tt else
          rc ← on_host (run (kill_command cfg pid));
          gone ← (if negb (rc =? 0)%Z then on_host (done identity pid) else mret true);
          if negb gone then mraise RuntimeError "cannot terminate namespace" else
          left ← on_host (@ProcessWait.wait_for_process_exit X (with_probe waits (done identity)) fuel [pid] WAIT_US);
          match left with [] => mret tt | _ => mraise RuntimeError "namespace did not exit" end
      end
  end.

(** Every checkpoint must be durable. *)
Definition check_entry (p : string * option Z) : D unit :=
  _ ← match p.2 with Some f => on_host (future_result f) | None => mret tt end;
  bad ← on_host (entry_dump_error p.1);
  if (bad : bool) then mraise RuntimeError "checkpoint has no valid durable dump" else mret tt.
Definition drain : D unit :=
  _ ← on_host controller_shutdown; l ← on_host registry_futures; mfor l check_entry.

Fixpoint umount_loop (attempts : list bool) : D unit :=
  match attempts with
  | [] => mret tt
  | lazy :: attempts =>
      rc ← on_host (run (umount_command cfg lazy));
      if (rc =? 0)%Z then set_locals (set_mounted false) else umount_loop attempts
  end.

Definition shutdown (fuel : nat) : D unit :=
  s ← locals;
  drained ← (if ctrl s then or_else false (_ ← drain; mret true) else mret true);
  _ ← or_else tt _send_shutdown;
  _ ← _terminate_namespace fuel;
  s ← locals;
  _ ← mwhen (shell_proc s) (on_host (shell_wait 10));
  _ ← mwhen (ctrl s)
        (or_else tt (fd ← on_host mount_fd;
                     match fd with Some fd => _ ← on_host (close_fd fd); on_host drop_mount_fd | None => mret tt end));
  s ← locals;
  _ ← mwhen (overlay_mounted s) (umount_loop [false; true]);
  if (drained : bool) then mret tt else mraise RuntimeError "checkpoint drain failed".
End driver.

(** ** The backend of the other search ([LocalDeltaBoxBackend]) *)

Class Fifos (X : Type) := {
  open_in : M X unit; open_out : M X unit;
  send_line : string → M X unit;                 (* write and flush *)
  select_out : spec_float → M X bool; readline : M X string;
  close_in : M X unit; close_out : M X unit
}.
Record backend := Backend { _cur_id : option string; _next_raw_command : string; last_restore_rec : option CkptRecord;
  _f_in : bool; _f_out : bool                    (* whether they are open *)
}.
Definition new_backend : backend := Backend None "" None false false.
Definition set_raw (c : string) (b : backend) : backend := Backend (_cur_id b) c (last_restore_rec b) (_f_in b) (_f_out b).
Definition set_cur (id : string) (b : backend) : backend := Backend (Some id) (_next_raw_command b) (last_restore_rec b) (_f_in b) (_f_out b).
Definition set_rec (r : CkptRecord) (b : backend) : backend := Backend (_cur_id b) (_next_raw_command b) (Some r) (_f_in b) (_f_out b).
Definition set_io (i o : bool) (b : backend) : backend := Backend (_cur_id b) (_next_raw_command b) (last_restore_rec b) i o.

Section backend.
Context {X : Type} `{!Sys X, !Fifos X} (cfg : config).
Notation B := (M (backend * (sandbox * X))).
Definition on_sys {A} (m : M X A) : B A := on_host (on_host m).

Definition set_next_checkpoint_command (raw : string) : B unit := set_locals (set_raw raw).
(** A checkpoint is its node id and its record. *)
Definition backend_checkpoint (node_id : string) : B (string * CkptRecord) :=
  b ← locals;
  rec ← on_host (checkpoint node_id (_cur_id b) (_next_raw_command b));
  _ ← set_locals (set_raw ""); _ ← set_locals (set_cur (ckpt_id rec)); mret (node_id, rec).
Definition backend_restore (c : string * CkptRecord) : B unit :=
  rec ← on_host (restore (ckpt_id c.2)); _ ← set_locals (set_rec rec); set_locals (set_cur (ckpt_id c.2)).

Definition close_quietly (open : bool) (m : M X unit) : B unit :=
  mwhen open (mcatch (on_sys m) (fun e => if is_exception e then mret tt else mthrow e)).
Definition _close_io : B unit :=
  b ← locals; _ ← close_quietly (_f_in b) close_in; _ ← close_quietly (_f_out b) close_out; set_locals (set_io false false).
Fixpoint await_fifos (n : nat) : B unit :=
  match n with
  | O => mret tt
  | S n =>
      a ← on_sys (path_exists (fifo_in_path cfg)); c ← (if (a : bool) then on_sys (path_exists (fifo_out_path cfg)) else mret false);
      if (c : bool) then mret tt else _ ← on_sys nap; await_fifos n
  end.
Definition _ensure_io_open : B unit :=
  b ← locals;
  if _f_in b then mret tt else
  _ ← await_fifos 50;
  a ← on_sys (path_exists (fifo_in_path cfg)); c ← (if (a : bool) then on_sys (path_exists (fifo_out_path cfg)) else mret false);
  if negb c then mraise FileNotFoundError "sandbox worker FIFOs not found" else
  _ ← on_sys open_in; _ ← set_locals (set_io true (_f_out b)); _ ← on_sys open_out; set_locals (set_io true true).
Definition sixty : spec_float := fround 60 0.
Definition _roundtrip_sync (req : json) : B json :=
  _ ← _ensure_io_open;
  _ ← on_sys (send_line (dumps req +:+ nl));
  t ← lift_result (v ← pget_or req "timeout_s" (JFloat sixty); to_float v);
  b ← locals;
  if negb (_f_out b) then mraise TypeError "argument must be an int, or have a fileno() method." else
  ready ← on_sys (select_out (fadd t (fround 30 0)));
  if negb ready then _ ← _close_io; mraise TimeoutError "worker response timeout" else
  line ← on_sys readline;
  if bool_decide (line = "") then _ ← _close_io; mraise RuntimeError "worker closed FIFO mid-conversation" else
  lift_result (loads line).
Definition exec_action (action : json) : B json := _roundtrip_sync action.
(** The default of [SandboxBackend]: the action, then its checkpoint. *)
Definition advance (node_id : string) (action : json) : B (json * (string * CkptRecord)) :=
  obs ← exec_action action; c ← backend_checkpoint node_id; mret (obs, c).
Definition setup : B unit := on_host (start cfg).
Definition teardown (fuel : nat) : B unit := _ ← _close_io; on_host (shutdown cfg fuel).

(** The chain of the backend is the one of the driver. *)
Definition in_step (s : backend * (sandbox * X)) : Prop := current_ckpt_id s.2.1 = _cur_id s.1.
End backend.
End SandboxDriver.
