(* ===== verification/SandboxDriverSpec.v ===== *)
(** * What the sandbox driver guarantees

    The tree search runs on the driver as on any sandbox ([DriverLaws]), so that
    the checkpoints the controller was asked for are the tree of the search,
    each with the checkpoint of its parent; and the driver does not end before
    the dumps are durable and the namespace of the sandbox is gone. *)

From S2P Require Import Prelude Hoare PyStr PyDict Json Mcts MctsSpec ProcessWait ProcessWaitSpec SandboxDriver.

Module SandboxDriverSpec.
Import SandboxDriver.

(** ** The search on the driver *)

(** The worker client, the verification and the model proxy beside it. *)
Class Client (X : Type) := {
  c_connect : M X unit; c_init : M X json; c_reopen : M X unit; c_step : M X json;
  c_verify : M X (Z * string); c_git_diff : M X string; c_write_out : string → M X unit;
  c_close : M X unit; c_npd_stop : M X unit
}.
#[export] Instance sandbox_driver {X} `{!Sys X, !Client X} (cfg : config) (fuel : nat) : Mcts.Driver (sandbox * X) := {
  d_start := _ ← start cfg; on_host c_connect; d_init := on_host c_init;
  d_checkpoint label := r ← checkpoint label None ""; mret (ckpt_id r);
  d_restore c := r ← restore c; mret (fork_or_criu r);
  d_reopen := on_host c_reopen; d_step := on_host c_step; d_verify := on_host c_verify; d_git_diff := on_host c_git_diff;
  d_write_out p := on_host (c_write_out p); d_close := on_host c_close; d_shutdown := shutdown cfg fuel; d_npd_stop := on_host c_npd_stop
}.

(** What the controller keeps: states, and the parents it was given. *)
Class ControllerLaws (X S : Type) `{!Sys X, !Client X} := {
  live : X → S;
  images : X → string → option (S * option string);
  works : S → json → S → Prop;
  law_named x : images x "" = None;
  law_checkpoint_action p t r x info y id :
    checkpoint_action p t r x = (Ok info, y) → pget info "id" = Ok (JStr id) →
    images x id = None ∧ live y = live x ∧ ∀ i, images y i = if decide (i = id) then Some (live x, Some p) else images x i;
  law_restore_action id x info y s : restore_action id x = (Ok info, y) → images x id = Some s →
    live y = s.1 ∧ ∀ i, images y i = images x i;
  law_c_step x r y : c_step x = (Ok r, y) → works (live x) r (live y) ∧ ∀ i, images y i = images x i;
  law_c_reopen x y : c_reopen x = (Ok tt, y) → live y = live x ∧ ∀ i, images y i = images x i;
  law_c_verify x r y : c_verify x = (Ok r, y) → ∀ i, images y i = images x i;
  law_c_git_diff x r y : c_git_diff x = (Ok r, y) → ∀ i, images y i = images x i;
  law_c_write_out p x y : c_write_out p x = (Ok tt, y) → ∀ i, images y i = images x i
}.

Section search.
Context {X S : Type} `{!Sys X, !Client X, !ControllerLaws X S}.

Lemma on_host_ok {L A} (m : M X A) (l l' : L) x x' a : on_host m (l, x) = (Ok a, (l', x')) → l' = l ∧ m x = (Ok a, x').
Proof. unfold on_host. simpl. destruct (m x) as [r y]. by intros [= -> <- <-]. Qed.

Lemma checkpoint_inv tag parent raw s x r s' x' : checkpoint tag parent raw (s, x) = (Ok r, (s', x')) →
  let p := first_of parent (first_of (current_ckpt_id s) "root") in
  ∃ info, checkpoint_action p tag raw x = (Ok info, x') ∧ pget info "id" = Ok (JStr (ckpt_id r)) ∧ ckpt_id r ≠ "" ∧
    s' = add_ckpt r s ∧ parent_ckpt_id r = Some p ∧ raw_command r = raw.
Proof.
  unfold checkpoint, locals, mget, mbind, M_bind, mret, M_ret. cbn [fst snd]. destruct (ctrl s); [|done]. cbn [negb].
  unfold on_host. cbn [fst snd]. destruct (checkpoint_action _ _ _ x) as [[info|] y]; [|done]. unfold lift_result, mbind, M_bind.
  destruct (is_dict info) eqn:Ed; [|done]. destruct (pget info "id") as [id|] eqn:Ei; [|done]. destruct (truth id) eqn:Et; [|done].
  cbn [negb]. destruct id as [| | | |id| |]; try done. simpl. intros [= <- <- <-]. exists info. cbn. split_and!; try done.
  by intros ->.
Qed.
Lemma restore_inv target s x r s' x' : restore target (s, x) = (Ok r, (s', x')) →
  ∃ info, restore_action target x = (Ok info, x') ∧ s' = set_current target s ∧ ckpt_id r = target.
Proof.
  unfold restore, locals, mget, mbind, M_bind, mret, M_ret. cbn [fst snd]. destruct (ctrl s); [|done]. cbn [negb].
  destruct (negb _ && negb _); [done|]. unfold on_host. cbn [fst snd]. destruct (restore_action target x) as [[info|] y]; [|done].
  unfold lift_result. destruct (if is_dict info then _ else _) as [path|]; [|done]. simpl. intros [= <- <- <-]. by exists info.
Qed.

(** The parent of the next checkpoint. *)
Definition next_parent (d : sandbox * X) : string := first_of (current_ckpt_id d.1) "root".
#[export] Program Instance search_laws cfg fuel : @MctsSpec.DriverLaws (sandbox * X) S (sandbox_driver cfg fuel) := {
  MctsSpec.sem d := live d.2; MctsSpec.current d := Some (next_parent d); MctsSpec.saved d c := images d.2 c; MctsSpec.worker := works
}.
Next Obligation.
  intros cfg fuel label [s x] c [s' x'] Hc. simpl in Hc. unfold mbind, M_bind, mret, M_ret in Hc.
  destruct (checkpoint label None "" (s, x)) as [[r|] [s1 x1]] eqn:E; [|done]. injection Hc as <- <- <-.
  apply checkpoint_inv in E as (info & Hi & Hid & Hne & -> & _). destruct (law_checkpoint_action _ _ _ _ _ _ _ Hi Hid) as (? & ? & ?).
  split_and!; [done|done| |done]. unfold next_parent. cbn. by destruct (ckpt_id r).
Qed.
Next Obligation.
  intros cfg fuel c [s x] how [s' x'] st Hc Hst. simpl in Hc, Hst. unfold mbind, M_bind, mret, M_ret in Hc.
  destruct (restore c (s, x)) as [[r|] [s1 x1]] eqn:E; [|done]. injection Hc as _ <- <-.
  apply restore_inv in E as (info & Hi & -> & _). destruct (law_restore_action _ _ _ _ _ Hi Hst) as [? ?].
  split_and!; [done| |done]. unfold next_parent. cbn. destruct c; [|done]. by rewrite law_named in Hst.
Qed.
Next Obligation.
  intros cfg fuel [s x] r [s' x'] [-> H]%on_host_ok. destruct (law_c_step _ _ _ H). split; [done|]. by split.
Qed.
Next Obligation.
  intros cfg fuel [s x] [s' x'] [-> H]%on_host_ok. destruct (law_c_reopen _ _ H). split; [done|]. by split.
Qed.
Next Obligation. intros cfg fuel [s x] r [s' x'] [-> H]%on_host_ok. split; [done|]. exact (law_c_verify _ _ _ H). Qed.
Next Obligation. intros cfg fuel [s x] r [s' x'] [-> H]%on_host_ok. split; [done|]. exact (law_c_git_diff _ _ _ H). Qed.

(** C37: the search runs on the driver: in a run that ends without an error
    every node but the root was saved by the controller in a state that one
    worker step made from the state saved for its parent, and the controller was
    given exactly the checkpoint of the parent as the parent of its checkpoint -
    so that incremental images build on the right ones -, whatever the search
    jumped to in between. *)
Theorem sandbox_search (log : nat → spec_float) (mcfg : Mcts.mcts_config) (cfg : config) (fuel : nat) (d : sandbox * X) o (s : Mcts.search) d' :
  Mcts.body (Driver0 := sandbox_driver cfg fuel) log mcfg (Mcts.start, d) = (Ok o, (s, d')) →
  length (Mcts.s_nodes s) <= Datatypes.S (Z.to_nat (Mcts.c_max_iter mcfg)) ∧
  (∀ i n, Mcts.s_nodes s !! i = Some n → is_Some (images d'.2 (Mcts.n_ckpt n))) ∧
  ∀ i n, Mcts.s_nodes s !! i = Some n → i ≠ 0 →
    ∃ p pn s0 par s1 r, Mcts.n_parent n = Some p ∧ Mcts.s_nodes s !! p = Some pn ∧
      images d'.2 (Mcts.n_ckpt pn) = Some (s0, par) ∧ images d'.2 (Mcts.n_ckpt n) = Some (s1, Some (Mcts.n_ckpt pn)) ∧
      works s0 r s1 ∧ MctsSpec.reply_of r n.
Proof.
  assert (∀ patch d0 d1 x, Mcts.d_write_out (Driver := sandbox_driver cfg fuel) patch d0 = (Ok tt, d1) → images d1.2 x = images d0.2 x) as Hout.
  { intros patch [s0 x0] [s1 x1] c [_ Ho]%on_host_ok. by eapply law_c_write_out. }
  intros H. pose proof (MctsSpec.body_ok (DriverLaws0 := search_laws cfg fuel) log mcfg (law_out := Hout) d) as Hwp.
  unfold wp in Hwp. rewrite H in Hwp. destruct Hwp as [Hd _]. split_and!; [apply Hd|apply Hd|].
  intros i n Hn Hi. destruct (MctsSpec.sd_executed _ _ _ Hd i n Hn Hi) as (p & pn & [s0 par] & [s1 par1] & r & ? & ? & _ & ? & ? & ? & Hp & ?).
  simpl in Hp. subst par1. exists p, pn, s0, par, s1, r. done.
Qed.
End search.

(** ** The backend

    Its chain stays the one of the driver, so that the parent it names is the
    checkpoint the driver would have named itself; and a raw command is recorded
    once, at the checkpoint that follows it. *)
Section backend.
Context {X : Type} `{!Sys X}.
Lemma backend_checkpoint_ok (node_id : string) (b : backend) (s : sandbox) (x : X) n r b' s' x' :
  in_step (b, (s, x)) → backend_checkpoint node_id (b, (s, x)) = (Ok (n, r), (b', (s', x'))) →
  in_step (b', (s', x')) ∧ n = node_id ∧ raw_command r = _next_raw_command b ∧ _next_raw_command b' = "" ∧
  ∃ info, checkpoint_action (first_of (current_ckpt_id s) "root") node_id (_next_raw_command b) x = (Ok info, x') ∧
    parent_ckpt_id r = Some (first_of (current_ckpt_id s) "root") ∧ dget (ckpt_id r) (ckpts s') = Some r.
Proof.
  unfold in_step, backend_checkpoint, locals, set_locals, mget, mbind, M_bind, mret, M_ret. cbn [fst snd]. intros Hin.
  unfold on_host at 1. cbn [fst snd]. destruct (checkpoint _ _ _ (s, x)) as [[rec|] [s1 x1]] eqn:E; [|done].
  apply checkpoint_inv in E as (info & Hi & _ & Hne & -> & Hp & Hraw).
  cbn. intros [= -> <- <- <- <-]. rewrite <- Hin in Hi, Hp. cbn in Hi, Hp |- *.
  assert (first_of (current_ckpt_id s) (first_of (current_ckpt_id s) "root") = first_of (current_ckpt_id s) "root") as Hsame.
  { by destruct (current_ckpt_id s) as [[]|]. }
  rewrite Hsame in Hi, Hp. split_and!; [done..|]. exists info. split_and!; [done|done|apply dget_dset_eq].
Qed.
Lemma backend_restore_ok (c : string * CkptRecord) (b : backend) (s : sandbox) (x : X) b' s' x' :
  backend_restore c (b, (s, x)) = (Ok tt, (b', (s', x'))) →
  in_step (b', (s', x')) ∧ _cur_id b' = Some (ckpt_id c.2) ∧ ckpts s' = ckpts s.
Proof.
  unfold in_step, backend_restore, locals, set_locals, mbind, M_bind, mret, M_ret. cbn [fst snd].
  unfold on_host at 1. cbn [fst snd]. destruct (restore _ (s, x)) as [[rec|] [s1 x1]] eqn:E; [|done].
  apply restore_inv in E as (info & _ & -> & _). cbn. by intros [= <- <- <-].
Qed.
End backend.

(** ** The end *)

Definition DRAIN_FAILED : string := "checkpoint drain failed".
Definition foreign (e : exn) : Prop := exn_msg e ≠ DRAIN_FAILED.

(** The host, as seen by the driver of the namespace whose first process started
    at [birth]: the processes of /proc with their state letters and start times,
    the descriptors of [wait_for_process_exit], the registry of the controller,
    resolved dumps and entries without a dump error, and the mount.  A read of
    /proc that meets the reaping of its process fails as if there was no such
    file: an ESRCH at this moment, which the code does not catch, is excluded. *)
Class HostLaws (X : Type) `{!Sys X} (birth : string) := {
  procs : X → gmap Z (string * string);
  fds : X → gmap Z Z;
  clock : X → Z;
  entries : X → list (string * option Z);
  resolved : X → Z → Prop;
  intact : X → string → Prop;
  mounted : X → bool;
  gone (p : Z) (x : X) : Prop := ∀ st, procs x !! p = Some (st, birth) → st = "Z";
  later (x y : X) : Prop := (clock x ≤ clock y)%Z ∧ (∀ p, gone p x → gone p y) ∧ ∀ f, resolved x f → resolved y f;
  same (x y : X) : Prop := fds y = fds x ∧ later x y;
  calm {A} (m : M X A) : Prop := ∀ x, wp m (fun _ y => later x y) (fun e y => later x y ∧ foreign e) x;
  law_stat p x : wp (read_text (stat_path p))
    (fun text y => same x y ∧ ∃ st t f, procs y !! p = Some (st, t) ∧ stat_fields text = Ok f ∧ f !! 0 = Some st ∧ f !! 19 = Some t)
    (fun e y => same x y ∧ exn_cls e = FileNotFoundError ∧ procs y !! p = None) x;
  law_run c : calm (run c); law_poll_shell : calm shell_poll; law_wait_shell n : calm (shell_wait n);
  law_exists p : calm (path_exists p); law_open_nonblock p : calm (open_nonblock p);
  law_write fd t : calm (write_fd fd t); law_close_fd fd : calm (close_fd fd);
  law_mount_fd : calm mount_fd; law_drop : calm drop_mount_fd; law_controller_shutdown : calm controller_shutdown;
  law_entries x : wp registry_futures (fun l y => later x y ∧ l = entries y) (fun e y => later x y ∧ foreign e) x;
  law_future f x : wp (future_result f) (fun _ y => later x y ∧ resolved y f) (fun e y => later x y ∧ foreign e) x;
  law_dump_error id x : wp (entry_dump_error id) (fun b y => later x y ∧ (b = false → intact y id)) (fun e y => later x y ∧ foreign e) x;
  law_umount cfg lazy x : wp (run (umount_command cfg lazy)) (fun rc y => rc = 0%Z → mounted y = false) (fun _ _ => True) x;
  law_clock x : wp ProcessWait.monotonic (fun t y => same x y ∧ t = clock y) (fun _ _ => False) x;
  law_pidfd p x : wp (ProcessWait.pidfd_open p) (fun fd y => fds x !! fd = None ∧ fds y = <[fd := p]> (fds x) ∧ later x y)
    (fun e y => ProcessWait.is_OSError e = true ∧ same x y ∧ (ProcessWait.is_ESRCH e = true → gone p y)) x;
  law_poll_factory x : wp ProcessWait.poll_factory (fun _ y => same x y) (fun e y => ProcessWait.is_OSError e = true ∧ same x y) x;
  law_reg fd x : wp (ProcessWait.register fd) (fun _ y => same x y) (fun e y => ProcessWait.is_OSError e = true ∧ same x y) x;
  law_unreg fd x : wp (ProcessWait.unregister fd) (fun _ y => same x y)
    (fun e y => (ProcessWait.is_OSError e || bool_decide (exn_cls e = KeyError)) = true ∧ same x y) x;
  law_poll_fds ms x : wp (ProcessWait.poll ms)
    (fun evs y => same x y ∧ (clock x < clock y)%Z ∧
       ∀ fd ev p, (fd, ev) ∈ evs → fds x !! fd = Some p → ProcessWait.has_event ev (Z.lor ProcessWait.POLLIN ProcessWait.POLLHUP) = true → gone p y)
    (fun e y => ProcessWait.is_OSError e = true ∧ same x y ∧ (clock x < clock y)%Z) x;
  law_sleep_us t x : wp (ProcessWait.sleep t) (fun _ y => same x y ∧ (clock x < clock y)%Z) (fun _ _ => False) x;
  law_close_pidfd fd x : wp (ProcessWait.close fd) (fun _ y => fds y = delete fd (fds x) ∧ later x y)
    (fun e y => ProcessWait.is_OSError e = true ∧ fds y = delete fd (fds x) ∧ later x y) x
}.

Section shutdown.
Context {X : Type} `{!Sys X} {birth : string} `{!HostLaws X birth} (cfg : config).
Notation D := (M (sandbox * X)).

#[local] Instance later_refl : Reflexive (later (X:=X)).
Proof. intros x. by split_and!. Qed.
#[local] Instance later_trans : Transitive (later (X:=X)).
Proof. intros x y z (? & ? & ?) (? & ? & ?). split_and!; [lia|auto|auto]. Qed.
#[local] Instance same_refl : Reflexive (same (X:=X)).
Proof. intros x. by split. Qed.
#[local] Instance same_trans : Transitive (same (X:=X)).
Proof. intros x y z [? ?] [? ?]. split; [congruence|by etrans]. Qed.

(** The probe tells whether the process is gone. *)
Lemma done_ok p x : wp (done birth p) (fun b y => same x y ∧ (b = true ↔ gone p y)) (fun _ _ => False) x.
Proof.
  unfold done, or_missing. apply wp_catch, wp_bind. eapply wp_mono; [apply law_stat| |].
  - intros text y (Hs & st & t & f & Hp & -> & Hst & Ht). apply wp_bind, wp_lift, wp_bind, wp_lift. unfold nth_field. rewrite Hst, Ht.
    case_bool_decide as Ez.
    + apply wp_ret. split; [done|]. split; [|done]. intros _ st' Hp'. rewrite Hp in Hp'. by injection Hp' as <- _.
    + apply wp_bind, wp_lift, wp_ret. split; [done|]. rewrite negb_true_iff, bool_decide_eq_false. split.
      * intros Hne st' Hp'. rewrite Hp in Hp'. by injection Hp' as _ <-.
      * intros Hg <-. by apply Ez, Hg.
  - intros e y (Hs & He & Hp). unfold is_cls. rewrite He. apply wp_ret. split; [done|]. split; [|done]. intros _ st Hp'. congruence.
Qed.
Ltac by_law L := intros x; eapply wp_mono; [apply L| |]; cbn; unfold same, later; naive_solver.
#[local] Program Instance wait_laws : @ProcessWaitSpec.Laws X (with_probe waits (done birth)) := {
  ProcessWaitSpec.table := fds; ProcessWaitSpec.gone := gone; ProcessWaitSpec.now := clock
}.
Next Obligation. by_law law_clock. Qed.
Next Obligation. intros p. by_law (done_ok p). Qed.
Next Obligation. intros p. by_law (law_pidfd p). Qed.
Next Obligation. by_law law_poll_factory. Qed.
Next Obligation. intros fd. by_law (law_reg fd). Qed.
Next Obligation. intros fd. by_law (law_unreg fd). Qed.
Next Obligation. intros ms. by_law (law_poll_fds ms). Qed.
Next Obligation. intros t. by_law (law_sleep_us t). Qed.
Next Obligation. intros fd. by_law (law_close_pidfd fd). Qed.

(** The driver is [s], the host satisfies [P]. *)
Definition with_host (s : sandbox) (P : X → Prop) (s' : sandbox * X) : Prop := ∃ y, s' = (s, y) ∧ P y.
Definition failing (x : X) (e : exn) (y : X) : Prop := later x y ∧ foreign e.
Lemma failing_later x y e z : later x y → failing y e z → failing x e z.
Proof. intros Hy [Hz He]. split; [by etrans|done]. Qed.
Definition quietly {A} (s : sandbox) (x : X) (m : D A) : Prop :=
  wp m (fun _ => with_host s (later x)) (fun e => with_host s (failing x e)) (s, x).
Lemma calm_host {A} (m : M X A) s x y : calm m → later x y →
  wp (on_host m) (fun _ => with_host s (later x)) (fun e => with_host s (failing x e)) (s, y).
Proof.
  intros Hm Hy. apply wp_host. eapply wp_mono; [apply Hm| |]; cbn; [intros _ z Hz|intros e z [Hz He]]; exists z; split_and!; try done.
  - by etrans.
  - split; [by etrans|done].
Qed.
Lemma quiet_or_else {A} (a : A) (m : D A) s x : quietly s x m → quietly s x (or_else a m).
Proof.
  intros Hm. apply wp_catch. eapply wp_mono; [exact Hm|done|]. intros e s' (y & -> & Hy & He). destruct (is_exception e).
  - apply wp_ret. by exists y.
  - apply wp_throw. by exists y.
Qed.

Lemma send_shutdown_ok s x : quietly s x (_send_shutdown cfg).
Proof.
  unfold quietly, _send_shutdown. apply wp_bind. eapply wp_mono; [by apply calm_host; [apply law_exists|]| |done].
  intros there ? (x1 & -> & Hx1). destruct there; [|by apply wp_ret; exists x1]. apply wp_bind, wp_catch, wp_bind.
  eapply wp_mono; [apply calm_host; [apply law_open_nonblock|exact Hx1]| |].
  - intros fd ? (x2 & -> & Hx2). apply wp_ret, wp_finally, wp_catch.
    eapply wp_mono; [apply calm_host; [apply law_write|exact Hx2]| |].
    + intros _ ? (x3 & -> & Hx3). eapply wp_mono; [apply calm_host; [apply law_close_fd|exact Hx3]|done|done].
    + intros e ? (x3 & -> & Hx3 & He). destruct (ProcessWait.is_OSError e); [apply wp_ret|apply wp_throw];
        (eapply wp_mono; [apply calm_host; [apply law_close_fd|exact Hx3]| |done]); [done|].
      intros _ ? (x4 & -> & Hx4). by exists x4.
  - intros e ? (x2 & -> & Hx2 & He). destruct (ProcessWait.is_OSError e); [|by apply wp_throw; exists x2].
    apply wp_ret, wp_ret. by exists x2.
Qed.

(** Every dump had ended well when it was looked at. *)
Definition checked (x : X) (l : list (string * option Z)) : Prop :=
  ∀ id f, (id, f) ∈ l → ∃ z, later x z ∧ intact z id ∧ ∀ g, f = Some g → resolved z g.
Lemma check_all s l : ∀ x, wp (mfor l check_entry) (fun _ => with_host s (fun y => later x y ∧ checked x l))
  (fun e => with_host s (failing x e)) (s, x).
Proof.
  induction l as [|[id f] l IH]; intros x; cbn [mfor].
  { apply wp_ret. exists x. split_and!; [done|reflexivity|]. by intros ? ? ?%not_elem_of_nil. }
  apply wp_bind. unfold check_entry. cbn [fst snd]. apply wp_bind.
  eapply (wp_mono _ (fun _ => with_host s (fun y => later x y ∧ ∀ g, f = Some g → resolved y g)) _ (fun e => with_host s (failing x e))); [| |done].
  { destruct f as [g|]; [|by apply wp_ret; exists x]. apply wp_host. eapply wp_mono; [apply law_future| |]; cbn.
    - intros _ y [? ?]. exists y. split_and!; [done|done|]. by intros ? [= <-].
    - intros e y [? ?]. by exists y. }
  intros [] ? (y & -> & Hy & Hf). apply wp_bind, wp_host. eapply wp_mono; [apply law_dump_error| |]; cbn.
  2: { intros e z [Hz He]. exists z. split; [done|]. by apply (failing_later x y). }
  intros b z [Hz Hb]. assert (later x z) as Hxz by (by etrans). destruct b; [by apply wp_raise; exists z|]. apply wp_ret.
  eapply wp_mono; [apply IH| |].
  - intros [] ? (u & -> & Hu & Hc). exists u. split_and!; [done|by etrans|]. intros id' f' [[= -> ->]|Hin]%elem_of_cons.
    + exists z. split_and!; [done|by apply Hb|]. intros g Hg. apply Hz. by apply Hf.
    + destruct (Hc _ _ Hin) as (v & ? & ? & ?). exists v. split_and!; [by etrans|done|done].
  - intros e ? (u & -> & Hu). exists u. split; [done|]. by apply (failing_later x z).
Qed.
Definition drained (x : X) : Prop := ∃ y, later x y ∧ checked y (entries y).
Lemma drain_ok s x : wp drain (fun _ => with_host s (fun y => later x y ∧ drained x)) (fun e => with_host s (failing x e)) (s, x).
Proof.
  unfold drain. apply wp_bind. eapply wp_mono; [by apply calm_host; [apply law_controller_shutdown|reflexivity]| |done].
  intros _ ? (y & -> & Hy). apply wp_bind, wp_host. eapply wp_mono; [apply law_entries| |]; cbn.
  2: { intros e z [Hz He]. exists z. split; [done|]. by apply (failing_later x y). }
  intros l z [Hz ->]. assert (later x z) as Hxz by (by etrans). eapply wp_mono; [apply check_all| |].
  - intros [] ? (u & -> & Hu & Hc). exists u. split_and!; [done|by etrans|]. by exists z.
  - intros e ? (u & -> & Hu). exists u. split; [done|]. by apply (failing_later x z).
Qed.

Lemma start_time_ok p s x : wp (on_host (_process_start_time p))
  (fun t => with_host s (fun y => later x y ∧ match t with Some t => ∃ st, procs y !! p = Some (st, t) | None => procs y !! p = None end))
  (fun _ _ => False) (s, x).
Proof.
  apply wp_host. unfold _process_start_time, or_missing. apply wp_catch, wp_bind. eapply wp_mono; [apply law_stat| |].
  - intros text y ([_ Hy] & st & t & f & Hp & -> & Hst & Ht). apply wp_bind, wp_lift, wp_bind, wp_lift. unfold nth_field. rewrite Ht.
    apply wp_ret. exists y. split_and!; [done|done|]. by exists st.
  - intros e y ([_ Hy] & He & Hp). unfold is_cls. rewrite He. apply wp_ret. exists y. by split_and!.
Qed.
Lemma terminate_ok fuel s x pid : ns_init_host_pid s = Some pid → ns_init_start_time s = Some birth → Z.to_nat WAIT_US < fuel →
  wp (_terminate_namespace cfg fuel) (fun _ => with_host s (gone pid)) (fun e _ => foreign e) (s, x).
Proof.
  intros Hpid Hbirth Hfuel. unfold _terminate_namespace. apply wp_locals. cbn [fst]. rewrite Hpid. apply wp_bind.
  eapply wp_mono; [apply start_time_ok| |done]. intros t ? (x1 & -> & Hx1 & Ht).
  destruct t as [t|]; [|apply wp_ret; exists x1; split; [done|]; intros st Hst; congruence]. rewrite Hbirth. destruct Ht as [st Ht].
  case_bool_decide as E; cbn [negb].
  2: { apply wp_ret. exists x1. split; [done|]. intros st' Hst'. rewrite Ht in Hst'. injection Hst' as _ <-. done. }
  injection E as ->. apply wp_bind. eapply wp_mono; [apply calm_host; [apply law_run|reflexivity]| |by intros e ? (? & _ & _ & ?)].
  intros rc ? (x2 & -> & _). apply wp_bind. eapply (wp_mono _ (fun _ => with_host s (fun _ => True)) _ (fun _ _ => False)); [| |done].
  { case_match; [|by apply wp_ret; exists x2]. apply wp_host. eapply wp_mono; [apply done_ok| |done]. intros b y _. by exists y. }
  intros b ? (x3 & -> & _). destruct b; cbn [negb]; [|by apply wp_raise]. apply wp_bind, wp_host. cbn [fst snd].
  eapply wp_mono; [apply (@ProcessWaitSpec.wait_exit_ok X (with_probe waits (done birth)) wait_laws fuel [pid] WAIT_US x3 Hfuel)| |done].
  cbn. intros left y (_ & Hgone & _). destruct left as [|p left]; [|by apply wp_raise]. apply wp_ret. exists y. split; [done|].
  apply (Hgone pid); [by left|by intros ?%not_elem_of_nil].
Qed.

(** Unmounted, or not. *)
Definition taken_down (s : sandbox) (s' : sandbox * X) : Prop :=
  s'.1 = s ∨ s'.1 = set_mounted false s ∧ mounted s'.2 = false.
Lemma umount_ok attempts s x y : later x y →
  wp (umount_loop cfg attempts) (fun _ s' => later x s'.2 ∧ taken_down s s') (fun e _ => foreign e) (s, y).
Proof.
  revert y. induction attempts as [|lazy attempts IH]; intros y Hy; cbn [umount_loop]; [by apply wp_ret; split; [|left]|].
  apply wp_bind, wp_host. eapply wp_mono; [apply wp_and; [apply law_run|apply law_umount]| |by intros e z [[_ ?] _]].
  cbn. intros rc z [Hz Hrc]. assert (later x z) as Hxz by (by etrans). destruct (Z.eqb_spec rc 0) as [->|].
  - apply wp_set_locals. split; [done|]. right. split; [done|by apply Hrc].
  - by apply IH.
Qed.
Lemma close_mount_ok s x : quietly s x
  (or_else tt (fd ← on_host mount_fd; match fd with Some fd => _ ← on_host (close_fd fd); on_host drop_mount_fd | None => mret tt end)).
Proof.
  apply quiet_or_else. unfold quietly. apply wp_bind. eapply wp_mono; [by apply calm_host; [apply law_mount_fd|]| |done].
  intros [fd|] ? (x1 & -> & Hx1); [|by apply wp_ret; exists x1]. apply wp_bind.
  eapply wp_mono; [apply calm_host; [apply law_close_fd|exact Hx1]| |done]. intros _ ? (x2 & -> & Hx2).
  apply calm_host; [apply law_drop|done].
Qed.

(** C38: the driver ends in order: with a controller, and the namespace's first
    process known by pid and start time, [shutdown] returns only if every dump
    of the registry had ended without an error, and raises that the drain failed
    only when all the rest was done nevertheless; in both cases the process has
    exited (or its pid belongs to another one), and the overlay is no longer
    mounted or still noted as mounted.  Waiting for the exit terminates, and no
    failing call on the way - of the controller, the FIFO, the descriptors or
    umount - is taken for one of these results. *)
Theorem shutdown_ends (fuel : nat) (s : sandbox) (x : X) (pid : Z) :
  ctrl s = true → ns_init_host_pid s = Some pid → ns_init_start_time s = Some birth → Z.to_nat WAIT_US < fuel →
  wp (shutdown cfg fuel)
    (fun _ s' => drained x ∧ gone pid s'.2 ∧ (overlay_mounted s = true → overlay_mounted s'.1 = false → mounted s'.2 = false))
    (fun e s' => exn_msg e = DRAIN_FAILED →
       gone pid s'.2 ∧ (overlay_mounted s = true → overlay_mounted s'.1 = false → mounted s'.2 = false))
    (s, x).
Proof.
  intros Hctrl Hpid Hbirth Hfuel. unfold shutdown. apply wp_locals. cbn [fst]. rewrite Hctrl. apply wp_bind.
  eapply (wp_mono _ (fun b => with_host s (fun y => later x y ∧ (b = true → drained x))) _ (fun e => with_host s (failing x e))).
  3: { by intros e ? (? & _ & _ & ?). }
  { apply wp_catch, wp_bind. eapply wp_mono; [apply drain_ok| |].
    - intros [] ? (y & -> & Hy & Hd). apply wp_ret. by exists y.
    - intros e ? (y & -> & Hy & He). destruct (is_exception e); [apply wp_ret|apply wp_throw]; by exists y. }
  intros b ? (x1 & -> & Hx1 & Hb). apply wp_bind.
  eapply wp_mono; [apply quiet_or_else, send_shutdown_ok| |by intros e ? (? & _ & _ & ?)]. intros [] ? (x2 & -> & _).
  apply wp_bind. eapply wp_mono; [by eapply terminate_ok| |by intros e ? ?]. intros [] ? (x3 & -> & Hg). apply wp_locals. cbn [fst].
  apply wp_bind. eapply (wp_mono _ (fun _ => with_host s (later x3)) _ (fun e => with_host s (failing x3 e))); [| |by intros e ? (? & _ & _ & ?)].
  { apply wp_when. destruct (shell_proc s); [by apply calm_host; [apply law_wait_shell|]|by exists x3]. }
  intros [] ? (x4 & -> & Hx4). rewrite Hctrl. apply wp_bind, wp_when.
  eapply wp_mono; [apply close_mount_ok| |by intros e ? (? & _ & _ & ?)]. intros [] ? (x5 & -> & Hx5). apply wp_locals. cbn [fst].
  apply wp_bind. eapply (wp_mono _ (fun _ s' => gone pid s'.2 ∧ (overlay_mounted s = true → taken_down s s')) _ (fun e _ => foreign e)); [| |done].
  { apply wp_when. assert (later x3 x5) as H35 by (by etrans). destruct (overlay_mounted s).
    - eapply wp_mono; [by apply umount_ok| |done]. intros [] s' [Hl Ht]. split; [by apply Hl|done].
    - split; [by apply H35|done]. }
  intros [] s' [Hg' Ht].
  assert (overlay_mounted s = true → overlay_mounted s'.1 = false → mounted s'.2 = false) as Hm.
  { intros Hom. destruct (Ht Hom) as [->|[_ ?]]; [congruence|done]. }
  destruct b; [apply wp_ret; by split_and!; [apply Hb|..]|by apply wp_raise].
Qed.
End shutdown.

(** ** A host that keeps its promises

    One sandbox with process 7, which started at 1000. *)

Record box := Box {
  b_alive : bool; b_clock : Z; b_mounted : bool; b_live : list json;
  b_images : list (string * (list json * option string)); b_script : list json;
}.
Definition b_set_clock (t : Z) (x : box) : box := Box (b_alive x) t (b_mounted x) (b_live x) (b_images x) (b_script x).
Definition box_stat : string := "7 (worker) S " +:+ join " " (replicate 18 "0") +:+ " 1000 0".
Definition box_run (c : list string) : M box Z := fun x =>
  (Ok 0%Z, if mem "umount" c then Box (b_alive x) (b_clock x) false (b_live x) (b_images x) (b_script x)
           else if mem "kill" c then Box false (b_clock x) (b_mounted x) (b_live x) (b_images x) (b_script x) else x).
Definition box_read (p : string) : M box string := fun x =>
  (if startswith p "/proc/" then
     if bool_decide (p = stat_path 7) && b_alive x then Ok box_stat else raise FileNotFoundError "no such process"
   else Ok "7", x).
Definition box_tick : M box unit := fun x => (Ok tt, b_set_clock (b_clock x + 1) x).
Definition box_fail {A} (m : M box unit) : M box A := _ ← m; mraise OSError "not supported".
#[export] Instance box_calls : ProcessWait.Calls box := {
  monotonic x := (Ok (b_clock x), x); is_done _ := mret true; has_pidfd_open := false; pidfd_open _ := box_fail (mret tt);
  has_poll := false; poll_factory := mret tt; register _ := mret tt; unregister _ := mret tt;
  poll _ := box_fail box_tick; sleep _ := box_tick; close _ := mret tt
}.
Definition box_save (parent : string) : M box json := fun x =>
  let c := "c" +:+ pretty (length (b_images x)) in
  if dhas c (b_images x) then mraise OSError "exists" x else
  (Ok (JObj [("id", JStr c)]),
   Box (b_alive x) (b_clock x) (b_mounted x) (b_live x) (dset c (b_live x, Some parent) (b_images x)) (b_script x)).
Definition box_back (c : string) : M box json := fun x =>
  match dget c (b_images x) with
  | Some (s, _) => (Ok (JObj [("path", JStr "warm-template")]), Box (b_alive x) (b_clock x) (b_mounted x) s (b_images x) (b_script x))
  | None => mraise KeyError c x
  end.
Definition box_step : M box json := fun x =>
  match b_script x with
  | [] => mraise RuntimeError "no reply" x
  | r :: rs => (Ok r, Box (b_alive x) (b_clock x) (b_mounted x) (b_live x ++ [r]) (b_images x) rs)
  end.
#[export] Instance box_sys : Sys box := {
  mkdirs _ := mret tt; mountinfo := mret []; run := box_run; path_exists _ := mret true; unlink _ := mret tt; mkfifo _ := mret tt;
  read_text := box_read; popen _ := mret tt; shell_poll := mret None; shell_wait _ := mret tt; nap := mret tt;
  open_nonblock _ := mret 3%Z; write_fd _ _ := mret tt; close_fd _ := mret tt; waits := box_calls;
  new_controller _ _ := mret tt; controller_shutdown := mret tt;
  registry_futures x := (Ok ((fun p => (p.1, None)) <$> b_images x), x); future_result _ := mret tt; entry_dump_error _ := mret false;
  mount_fd := mret (Some 4%Z); drop_mount_fd := mret tt; checkpoint_action p _ _ := box_save p; restore_action := box_back
}.
#[export] Instance box_client : Client box := {
  c_connect := mret tt; c_init := mret (JObj [("ok", JBool true)]); c_reopen := mret tt; c_step := box_step;
  c_verify := mret (0%Z, ""); c_git_diff := mret "diff"; c_write_out _ := mret tt; c_close := mret tt; c_npd_stop := mret tt
}.
#[export] Program Instance box_controller : ControllerLaws box (list json) := {
  live := b_live; images x c := if bool_decide (c = "") then None else dget c (b_images x); works s r s' := s' = s ++ [r]
}.
Next Obligation. done. Qed.
Next Obligation.
  intros p t r x info y id H Hid. simpl in H. unfold box_save in H. destruct (dhas _ _) eqn:E; [done|]. injection H as <- <-.
  cbn in Hid. injection Hid as <-. cbn. set (c := "c" +:+ _) in *. split_and!; [|done|].
  - case_bool_decide; [done|]. apply dget_None. intros Hin. unfold dhas in E. by rewrite bool_decide_eq_true_2 in E.
  - intros i. case_decide as Ei; [subst i|].
    + rewrite dget_dset_eq. by case_bool_decide.
    + by rewrite dget_dset_ne.
Qed.
Next Obligation.
  intros id x info y s H Hs. simpl in *. case_bool_decide; [done|]. unfold box_back in H. rewrite Hs in H. destruct s. by injection H as _ <-.
Qed.
Next Obligation. intros x r y H. simpl in H. unfold box_step in H. destruct (b_script x); [done|]. by injection H as <- <-. Qed.
Next Obligation. intros x y [= <-]. done. Qed.
Next Obligation. by intros x r y [= _ <-]. Qed.
Next Obligation. by intros x r y [= _ <-]. Qed.
Next Obligation. by intros p x y [= <-]. Qed.

Lemma stat_path_inj p q : stat_path p = stat_path q → p = q.
Proof. unfold stat_path. intros H%string_app_inj_l%string_app_inj_r. by apply (inj pretty). Qed.
Definition box_procs (x : box) : gmap Z (string * string) := if b_alive x then {[7%Z := ("S", "1000")]} else ∅.
Definition box_dies (x y : box) : Prop := (b_clock x ≤ b_clock y)%Z ∧ (b_alive y = true → b_alive x = true).
Lemma box_stat_fields : stat_fields box_stat = Ok ("S" :: replicate 18 "0" ++ ["1000"; "0"]).
Proof. reflexivity. Qed.
Lemma box_calm c x : b_clock (box_run c x).2 = b_clock x ∧ (b_alive (box_run c x).2 = true → b_alive x = true).
Proof. unfold box_run. cbn. by repeat case_match. Qed.
Lemma box_gone x y p : (b_alive y = true → b_alive x = true) →
  (∀ st, box_procs x !! p = Some (st, "1000") → st = "Z") → ∀ st, box_procs y !! p = Some (st, "1000") → st = "Z".
Proof. unfold box_procs. intros H Hx st. destruct (b_alive y); [rewrite H in Hx by done; apply Hx|by rewrite lookup_empty]. Qed.
#[export] Program Instance box_laws : HostLaws box "1000" := {
  procs := box_procs; fds _ := ∅; clock := b_clock; entries x := (fun p => (p.1, None)) <$> b_images x;
  resolved _ _ := True; intact _ _ := True; mounted := b_mounted
}.
Next Obligation.
  intros p x. unfold wp. cbn. unfold box_read. unfold stat_path at 1. rewrite (startswith_app "/proc/" (pretty p +:+ "/stat")).
  case_bool_decide as Ep; cbn; [apply stat_path_inj in Ep as ->; destruct (b_alive x) eqn:Ea|].
  - split; [done|]. exists "S", "1000". eexists. rewrite box_stat_fields. unfold box_procs. rewrite Ea. by split_and!.
  - split; [done|]. split; [done|]. unfold box_procs. by rewrite Ea.
  - split; [done|]. split; [done|]. unfold box_procs. destruct (b_alive x); [|done]. by apply lookup_singleton_ne; intros <-.
Qed.
Next Obligation.
  intros c x. unfold wp. cbn. destruct (box_calm c x) as [Hc Ha]. unfold box_run in *. cbn in *. split_and!; [lia| |done].
  intros p. by apply box_gone.
Qed.
Solve Obligations with (cbn; repeat intro; unfold wp; cbn; split_and!; first [done|lia|naive_solver lia]).
Next Obligation. intros cfg lazy x. unfold wp. cbn. unfold box_run, umount_command, sudo. by destruct (sudo_wrap cfg), lazy. Qed.

Definition box_config : config := Config "/w" "/base" "/srv" "/launch" "python3" true true.
Definition box_host : box := Box true 0 false [] [] MctsSpec.demo_script.
Lemma sandbox_search_witness :
  ∃ o s d', Mcts.body (Driver0 := sandbox_driver box_config 10) Mcts.demo_log (Mcts.Config 3 2 true false)
      (Mcts.start, (new_sandbox, box_host)) = (Ok o, (s, d')) ∧ length (Mcts.s_nodes s) = 4 ∧
    ∀ i n, Mcts.s_nodes s !! i = Some n → i ≠ 0 →
      ∃ p pn s0 par s1 r, Mcts.n_parent n = Some p ∧ Mcts.s_nodes s !! p = Some pn ∧
        images d'.2 (Mcts.n_ckpt pn) = Some (s0, par) ∧ images d'.2 (Mcts.n_ckpt n) = Some (s1, Some (Mcts.n_ckpt pn)) ∧
        works s0 r s1 ∧ MctsSpec.reply_of r n.
Proof.
  assert (∃ o s d', Mcts.body (Driver0 := sandbox_driver box_config 10) Mcts.demo_log (Mcts.Config 3 2 true false)
      (Mcts.start, (new_sandbox, box_host)) = (Ok o, (s, d')) ∧ length (Mcts.s_nodes s) = 4) as (o & s & d' & H & Hl)
    by (do 3 eexists; split; [vm_compute; reflexivity|reflexivity]).
  exists o, s, d'. split; [exact H|]. split; [exact Hl|].
  refine (proj2 (proj2 (sandbox_search _ _ _ _ _ _ _ _ H))).
Defined.

Definition box_sandbox : sandbox := Sandbox true (Some 7%Z) (Some 7%Z) (Some "1000") true true [] (Some "c0").
Lemma shutdown_ends_witness :
  wp (shutdown box_config 1) (fun _ s' => overlay_mounted s'.1 = false) (fun _ _ => False) (box_sandbox, box_host) ∧
  wp (shutdown box_config (Datatypes.S (Z.to_nat WAIT_US)))
    (fun _ s' => drained box_host ∧ gone 7 s'.2 ∧ (overlay_mounted box_sandbox = true → overlay_mounted s'.1 = false → mounted s'.2 = false))
    (fun e s' => exn_msg e = DRAIN_FAILED →
       gone 7 s'.2 ∧ (overlay_mounted box_sandbox = true → overlay_mounted s'.1 = false → mounted s'.2 = false))
    (box_sandbox, box_host).
Proof.
  split; [by vm_compute|].
  exact (shutdown_ends box_config _ box_sandbox box_host 7 eq_refl eq_refl eq_refl (Nat.lt_succ_diag_r _)).
Defined.
End SandboxDriverSpec.
