(* ===== verification/DumpPool.v ===== *)
(** * The dump pool a replay owns ([replay/guest/lifecycle.py])

    [OwnedDumpPool] runs the controller's commands on the worker threads of an
    executor and can be aborted from the main thread.  Threads, processes and
    the aborting thread interleave: [step] makes one action of one of them, and
    a run is a list of actions.  A block under [self.lock] is one action.

    A [Popen] object is a number, in the order of creation.  What the clock and
    the kernel decide is a bit of the action: whether a wait runs out of its
    timeout, whether a [poll] finds the internal lock of the object taken (it
    then answers None), whether [Popen] raises. *)

From S2P Require Import Prelude.

Module DumpPool.

Inductive pstat := Running | Exited (rc : Z).
#[global] Instance pstat_eq_dec : EqDecision pstat.
Proof. solve_decision. Defined.

(** ** [_stop_process] *)

(** The call of [_stop_process] that is next: [poll], [terminate],
    [wait(timeout=1.0)], [kill], [wait(timeout=2.0)]. *)
Inductive stop_at := SPoll | STerminate | SWait1 | SKill | SWait2.
(** It returned, or the last [wait] raised [TimeoutExpired]. *)
Inductive stop_end := SGone | SStuck.

(** [None]: the wait blocks. *)
Definition stop_next (a : stop_at) (st : pstat) (b : bool) : option (stop_at + stop_end) :=
  match a with
  | SPoll => match st with
             | Exited _ => if b then Some (inl STerminate) else Some (inr SGone)
             | Running => Some (inl STerminate)
             end
  | STerminate => Some (inl SWait1)
  | SWait1 => if b then Some (inl SKill)
              else match st with Exited _ => Some (inr SGone) | Running => None end
  | SKill => Some (inl SWait2)
  | SWait2 => if b then Some (inr SStuck)
              else match st with Exited _ => Some (inr SGone) | Running => None end
  end.

(** ** [_check_call] *)

(** What the [try] block raises: [CalledProcessError], or [TimeoutExpired]. *)
Inductive raised := XCalled (rc : Z) | XTimeout.
#[global] Instance raised_eq_dec : EqDecision raised.
Proof. solve_decision. Defined.

Inductive outcome :=
  | Returned                (* 0 *)
  | Cancelled               (* CancelledError *)
  | NotStarted              (* Popen raised *)
  | Failed (x : raised)
  | StopFailed              (* the TimeoutExpired of _stop_process *).
#[global] Instance outcome_eq_dec : EqDecision outcome.
Proof. solve_decision. Defined.

(** Where a call is: before the lock, in [proc.wait], in the [except] clause,
    in [_stop_process], before the [finally] clause. *)
Inductive call :=
  | Entered (timed : bool)
  | Waiting (p : nat) (timed : bool)
  | Handling (p : nat) (x : raised)
  | Stopping (p : nat) (x : raised) (a : stop_at)
  | Leaving (p : nat) (r : outcome).

(** ** The executor *)

(** A job is a plain command ([submit]) or a pipeline that runs commands
    ([submit_owned_task]) and may stop between them; for each command, whether
    it has a timeout. *)
Record job := Job { j_task : bool; j_calls : list bool }.
Definition submit (timed : bool) : job := Job false [timed].
Definition submit_owned_task (calls : list bool) : job := Job true calls.

Inductive thread :=
  | Idle
  | Between (j : job)
  | In (c : call) (j : job)   (* j: what the job has left *)
  | Ended.

(** [abort]: the loop over [_stop_process] with the rest of [processes], the
    loop over [thread.join] with the rest of the threads, and its ends. *)
Inductive aborter :=
  | Off
  | Stop (cur : option (nat * stop_at)) (rest : list nat)
  | Join (rest : list nat)
  | Aborted
  | AbortRaised.

Record pool := Pool {
  closing : bool;
  processes : gset nat;
  procs : gmap nat pstat;              (* every Popen object made so far *)
  queue : list job;
  shut : bool;                         (* executor.shutdown was called *)
  threads : gmap nat thread;
  done : list (option nat * outcome);  (* the calls that ended, latest first *)
  ab : aborter;
}.
Definition set_closing v s := Pool v (processes s) (procs s) (queue s) (shut s) (threads s) (done s) (ab s).
Definition set_processes v s := Pool (closing s) v (procs s) (queue s) (shut s) (threads s) (done s) (ab s).
Definition set_procs v s := Pool (closing s) (processes s) v (queue s) (shut s) (threads s) (done s) (ab s).
Definition set_queue v s := Pool (closing s) (processes s) (procs s) v (shut s) (threads s) (done s) (ab s).
Definition set_shut v s := Pool (closing s) (processes s) (procs s) (queue s) v (threads s) (done s) (ab s).
Definition set_threads v s := Pool (closing s) (processes s) (procs s) (queue s) (shut s) v (done s) (ab s).
Definition set_done v s := Pool (closing s) (processes s) (procs s) (queue s) (shut s) (threads s) v (ab s).
Definition set_ab v s := Pool (closing s) (processes s) (procs s) (queue s) (shut s) (threads s) (done s) v.

Definition init : pool := Pool false ∅ ∅ [] false ∅ [] Off.

Definition goto (t : nat) (th : thread) (s : pool) : pool := set_threads (<[t := th]> (threads s)) s.
(** The call of [t] ended: its job goes on. *)
Definition finish (t : nat) (p : option nat) (r : outcome) (j : job) (s : pool) : pool :=
  goto t (Between j) (set_done ((p, r) :: done s) s).

(** One step of a call. *)
Definition call_step (t : nat) (c : call) (j : job) (b : bool) (s : pool) : option pool :=
  match c with
  | Entered timed =>
      if closing s then Some (finish t None Cancelled j s)
      else if b then Some (finish t None NotStarted j s)
      else let p := fresh (dom (procs s)) in
           Some (goto t (In (Waiting p timed) j)
                  (set_processes ({[p]} ∪ processes s) (set_procs (<[p := Running]> (procs s)) s)))
  | Waiting p timed =>
      if b then if timed then Some (goto t (In (Handling p XTimeout) j) s) else None
      else match procs s !! p with
           | Some (Exited rc) =>
               if (rc =? 0)%Z then Some (goto t (In (Leaving p Returned) j) s)
               else Some (goto t (In (Handling p (XCalled rc)) j) s)
           | _ => None
           end
  | Handling p x =>
      match procs s !! p with
      | Some (Exited _) => if b then Some (goto t (In (Stopping p x SPoll) j) s)
                           else Some (goto t (In (Leaving p (Failed x)) j) s)
      | Some Running => Some (goto t (In (Stopping p x SPoll) j) s)
      | None => None
      end
  | Stopping p x a =>
      st ← procs s !! p;
      n ← stop_next a st b;
      match n with
      | inl a => Some (goto t (In (Stopping p x a) j) s)
      | inr SGone => Some (goto t (In (Leaving p (Failed x)) j) s)
      | inr SStuck => Some (goto t (In (Leaving p StopFailed) j) s)
      end
  | Leaving p r => Some (finish t (Some p) r j (set_processes (processes s ∖ {[p]}) s))
  end.

(** One step of a worker thread: a thread ends when the executor is shut down
    and the queue is empty. *)
Definition thread_step (t : nat) (b : bool) (s : pool) : option pool :=
  th ← threads s !! t;
  match th with
  | Idle =>
      match queue s with
      | j :: q => Some (goto t (Between j) (set_queue q s))
      | [] => if shut s then Some (goto t Ended s) else None
      end
  | Between j =>
      match j_calls j with
      | [] => Some (goto t Idle s)
      | c :: l => if b then if j_task j then Some (goto t Idle s) else None
                  else Some (goto t (In (Entered c) (Job (j_task j) l)) s)
      end
  | In c j => call_step t c j b s
  | Ended => None
  end.

(** [executor.submit]: [spawn] tells whether a thread is started. *)
Definition submit_step (max_workers : nat) (j : job) (spawn : bool) (s : pool) : option pool :=
  if shut s then None
  else if spawn then
    if decide (size (threads s) < max_workers)
    then Some (goto (fresh (dom (threads s))) Idle (set_queue (queue s ++ [j]) s)) else None
  else if decide (threads s = ∅) then None else Some (set_queue (queue s ++ [j]) s).

Definition abort_begin (s : pool) : option pool :=
  match ab s with
  | Off | Aborted | AbortRaised => Some (set_ab (Stop None (elements (processes s))) (set_closing true s))
  | _ => None
  end.

Definition abort_step (b : bool) (s : pool) : option pool :=
  match ab s with
  | Stop None [] => Some (set_ab (Join (map_to_list (threads s)).*1) (set_shut true s))
  | Stop None (p :: l) => Some (set_ab (Stop (Some (p, SPoll)) l) s)
  | Stop (Some (p, a)) l =>
      st ← procs s !! p;
      n ← stop_next a st b;
      match n with
      | inl a => Some (set_ab (Stop (Some (p, a)) l) s)
      | inr SGone => Some (set_ab (Stop None l) s)
      | inr SStuck => Some (set_ab AbortRaised s)
      end
  | Join [] => Some (set_ab Aborted s)
  | Join (t :: l) =>
      match threads s !! t with
      | Some Ended => Some (set_ab (Join l) s)
      | Some _ => if b then Some (set_ab AbortRaised s) else None
      | None => None
      end
  | _ => None
  end.

Inductive action :=
  | Submit (j : job) (spawn : bool)   (* any caller *)
  | Work (t : nat) (b : bool)
  | Exit (p : nat) (rc : Z)           (* a process exits, of itself or by a signal *)
  | Begin                             (* the main thread calls abort *)
  | Abort (b : bool)
  | Shutdown                          (* the main thread calls shutdown *).

Definition step (max_workers : nat) (a : action) (s : pool) : option pool :=
  match a with
  | Submit j spawn => submit_step max_workers j spawn s
  | Work t b => thread_step t b s
  | Exit p rc => match procs s !! p with
                 | Some Running => Some (set_procs (<[p := Exited rc]> (procs s)) s)
                 | _ => None
                 end
  | Begin => abort_begin s
  | Abort b => abort_step b s
  | Shutdown => Some (set_shut true s)
  end.

Fixpoint run (max_workers : nat) (l : list action) (s : pool) : option pool :=
  match l with
  | [] => Some s
  | a :: l => s ← step max_workers a s; run max_workers l s
  end.

End DumpPool.
