(* ===== verification/DumpPoolSpec.v ===== *)
(** * What an aborted dump pool leaves behind

    The invariant of the interleaved pool ([Inv]): [processes] holds exactly the
    processes of the calls in progress, and every other process was told of
    once.  The theorems: an abort that returns leaves no command running, except
    one that survived its [kill]; it ends after a bounded number of its own
    steps, whatever the workers and the processes do. *)

From S2P Require Import Prelude DumpPool.

Module DumpPoolSpec.
Import DumpPool.

(** ** The invariant *)

Definition call_proc (c : call) : option nat :=
  match c with Entered _ => None | Waiting p _ | Handling p _ | Stopping p _ _ | Leaving p _ => Some p end.
Definition holds (th : thread) : option nat := match th with In c _ => call_proc c | _ => None end.

(** What an outcome says of the process of its call. *)
Definition told (s : pool) (p : option nat) (r : outcome) : Prop :=
  match r, p with
  | Returned, Some p => procs s !! p = Some (Exited 0)
  | Failed (XCalled rc), Some p => procs s !! p = Some (Exited rc) ∧ rc ≠ 0%Z
  | Failed XTimeout, Some p => ∃ rc, procs s !! p = Some (Exited rc)
  | StopFailed, Some p => p ∈ dom (procs s)
  | Cancelled, None => closing s = true
  | NotStarted, None => True
  | _, _ => False
  end.

Definition seen (s : pool) (p : nat) (x : raised) : Prop :=
  match x with XCalled rc => procs s !! p = Some (Exited rc) ∧ rc ≠ 0%Z | XTimeout => p ∈ dom (procs s) end.
Definition call_ok (s : pool) (c : call) : Prop :=
  match c with
  | Entered _ => True
  | Waiting p _ => p ∈ dom (procs s)
  | Handling p x | Stopping p x _ => seen s p x
  | Leaving p r => told s (Some p) r
  end.

Definition ab_ok (s : pool) : Prop :=
  match ab s with
  | Off => True
  | Stop cur rest => closing s = true ∧ (∀ p, p ∈ rest → p ∈ dom (procs s))
                     ∧ match cur with Some (p, _) => p ∈ dom (procs s) | None => True end
  | Join rest => closing s = true ∧ shut s = true ∧ (∀ t, t ∈ rest → t ∈ dom (threads s))
                 ∧ (∀ t th, threads s !! t = Some th → t ∈ rest ∨ th = Ended)
  | Aborted => closing s = true ∧ shut s = true ∧ (∀ t th, threads s !! t = Some th → th = Ended)
  | AbortRaised => closing s = true
  end.

Record Inv (n : nat) (s : pool) : Prop := {
  i_calls : ∀ t c j, threads s !! t = Some (In c j) → call_ok s c;
  i_done : ∀ p r, (p, r) ∈ done s → told s p r;
  i_processes : ∀ p, p ∈ processes s ↔ ∃ t th, threads s !! t = Some th ∧ holds th = Some p;
  i_holder : ∀ t1 t2 th1 th2 p, threads s !! t1 = Some th1 → threads s !! t2 = Some th2 →
    holds th1 = Some p → holds th2 = Some p → t1 = t2;
  i_all : ∀ p, p ∈ dom (procs s) ↔ p ∈ processes s ∨ p ∈ omap fst (done s);
  i_once : NoDup (omap fst (done s));
  i_apart : ∀ p, p ∈ processes s → p ∉ omap fst (done s);
  i_ended : ∀ t, threads s !! t = Some Ended → shut s = true ∧ queue s = [];
  i_threads : size (threads s) ≤ n;
  i_workers : queue s ≠ [] → threads s ≠ ∅;
  i_ab : ab_ok s;
}.

Lemma Inv_init n : Inv n init.
Proof.
  split; simpl; try done.
  - intros p r. set_solver.
  - intros p. split; [set_solver|]. intros (t & th & E & _). by rewrite lookup_empty in E.
  - intros p. set_solver.
  - constructor.
  - rewrite map_size_empty. lia.
Qed.

(** ** Changes that keep it *)

(** Exits only add to what is told. *)
Lemma told_mono s s' p r :
  (∀ p rc, procs s !! p = Some (Exited rc) → procs s' !! p = Some (Exited rc)) →
  dom (procs s) ⊆ dom (procs s') → (closing s = true → closing s' = true) → told s p r → told s' p r.
Proof. intros H1 H2 H3. unfold told. destruct r as [| | |[]|]; destruct p; naive_solver. Qed.
Lemma call_ok_mono s s' c :
  (∀ p rc, procs s !! p = Some (Exited rc) → procs s' !! p = Some (Exited rc)) →
  dom (procs s) ⊆ dom (procs s') → (closing s = true → closing s' = true) → call_ok s c → call_ok s' c.
Proof.
  intros H1 H2 H3. unfold call_ok, seen.
  destruct c as [| |? []|? []|]; try naive_solver. by apply told_mono.
Qed.

Lemma ab_ok_goto s s' t th th' :
  ab s' = ab s → closing s' = closing s → shut s' = shut s → dom (procs s) ⊆ dom (procs s') →
  threads s' = <[t := th']> (threads s) → threads s !! t = Some th → th ≠ Ended → ab_ok s → ab_ok s'.
Proof.
  unfold ab_ok. intros -> -> -> Hd -> Ht He. destruct (ab s) as [|cur rest|rest| |]; try done.
  - intros (? & ? & ?). repeat split; [done|by auto|]. destruct cur as [[]|]; auto.
  - intros (? & ? & H1 & H2). repeat split; [done..| |].
    + intros t' Hin. rewrite dom_insert_L. apply H1 in Hin. set_solver.
    + intros t' u [[<- <-]|[Hn E]]%lookup_insert_Some; [|by eapply H2].
      destruct (H2 _ _ Ht); [by left|done].
  - intros (? & ? & H2). repeat split; [done..|].
    intros t' u [[<- <-]|[Hn E]]%lookup_insert_Some; [|by eapply H2]. by apply H2 in Ht.
Qed.

Ltac keep_ab s Ht :=
  eapply (ab_ok_goto s); [reflexivity|reflexivity|reflexivity|simpl; set_solver|reflexivity|exact Ht|done|done].

(** A thread that moves without taking up or giving up a process. *)
Lemma Inv_goto n s t th th' :
  Inv n s → threads s !! t = Some th → th ≠ Ended → holds th' = holds th →
  (∀ c j, th' = In c j → call_ok s c) →
  (th' = Ended → shut s = true ∧ queue s = []) →
  Inv n (goto t th' s).
Proof.
  intros [] Ht He Hh Hc Hend. split; simpl; try done.
  - intros t' c j [[<- E]|[Hn E]]%lookup_insert_Some; [by apply (Hc c j)|by apply (i_calls0 t' c j)].
  - intros p. rewrite i_processes0. split; intros (t' & u & E & Hu).
    + destruct (decide (t = t')) as [<-|Hn].
      * exists t, th'. rewrite lookup_insert_eq. split; [done|]. simplify_eq. congruence.
      * exists t', u. by rewrite lookup_insert_ne.
    + apply lookup_insert_Some in E as [[<- <-]|[Hn E]]; [exists t, th|exists t', u]; split; congruence.
  - intros t1 t2 u1 u2 p [[<- <-]|[? E1]]%lookup_insert_Some [[<- <-]|[? E2]]%lookup_insert_Some H1 H2;
      [done|..]; eapply (i_holder0 _ _ _ _ p); eauto; congruence.
  - intros t' [[<- E]|[Hn E]]%lookup_insert_Some; eauto.
  - by rewrite map_size_insert_Some.
  - intros H. apply insert_non_empty.
  - keep_ab s Ht.
Qed.

(** A call that made no process. *)
Lemma Inv_tell n s r : Inv n s → told s None r → Inv n (set_done ((None, r) :: done s) s).
Proof.
  intros [] Hr. split; simpl; try done.
  intros p r'. rewrite elem_of_cons. intros [[= -> ->]|Hin]; [done|by apply (i_done0 p r')].
Qed.

Lemma Inv_finish_none n s t c j r :
  Inv n s → threads s !! t = Some (In c j) → call_proc c = None → told s None r → Inv n (finish t None r j s).
Proof. intros HI Ht Hc Hr. eapply Inv_goto; [by apply Inv_tell|exact Ht|done|done|done|done]. Qed.

(** A call that gives up its process, which it tells of. *)
Lemma Inv_finish n s t p r j :
  Inv n s → threads s !! t = Some (In (Leaving p r) j) →
  Inv n (finish t (Some p) r j (set_processes (processes s ∖ {[p]}) s)).
Proof.
  intros HI Ht. pose proof HI as [].
  assert (Hp : p ∈ processes s) by (apply i_processes0; by eexists _, _).
  split; simpl; try done.
  - intros t' c j' [[<- E]|[Hn E]]%lookup_insert_Some; [done|by apply (i_calls0 t' c j')].
  - intros q r'. rewrite elem_of_cons. intros [[= -> ->]|Hin]; [apply (i_calls0 _ _ _ Ht)|by apply (i_done0 q r')].
  - intros q. rewrite elem_of_difference, i_processes0, elem_of_singleton. split.
    + intros ((t' & u & E & Hu) & Hne). exists t', u. rewrite lookup_insert_ne; [done|]. intros <-.
      simplify_eq. by injection Hu as ->.
    + intros (t' & u & [[<- <-]|[Hn E]]%lookup_insert_Some & Hu); [done|]. split; [by eexists _, _|].
      intros ->. by eapply Hn, (i_holder0 _ _ _ _ p Ht E).
  - intros t1 t2 u1 u2 q [[<- <-]|[? E1]]%lookup_insert_Some [[<- <-]|[? E2]]%lookup_insert_Some H1 H2; [done..|].
    by eapply (i_holder0 _ _ _ _ q).
  - intros q. rewrite i_all0, elem_of_difference, elem_of_cons, elem_of_singleton.
    destruct (decide (q = p)); naive_solver.
  - constructor; [by apply i_apart0|done].
  - intros q. rewrite elem_of_difference, elem_of_singleton, elem_of_cons. naive_solver.
  - intros t' [[_ [=]]|[_ E]]%lookup_insert_Some; eauto.
  - by rewrite map_size_insert_Some.
  - intros H. apply insert_non_empty.
  - keep_ab s Ht.
Qed.

(** A call that makes its process. *)
Lemma Inv_start n s t timed j :
  let p := fresh (dom (procs s)) in
  Inv n s → threads s !! t = Some (In (Entered timed) j) →
  Inv n (goto t (In (Waiting p timed) j) (set_processes ({[p]} ∪ processes s) (set_procs (<[p := Running]> (procs s)) s))).
Proof.
  intros p HI Ht. pose proof HI as []. pose proof (is_fresh (dom (procs s))) as Hf. fold p in Hf.
  assert (Hno : procs s !! p = None) by by apply not_elem_of_dom.
  assert (Hx : ∀ q rc, procs s !! q = Some (Exited rc) → <[p := Running]> (procs s) !! q = Some (Exited rc)).
  { intros q rc E. rewrite lookup_insert_ne; congruence. }
  assert (Hd : dom (procs s) ⊆ dom (<[p := Running]> (procs s))) by (rewrite dom_insert; set_solver).
  assert (Hp : p ∉ processes s ∧ p ∉ omap fst (done s)).
  { split; intros H; apply Hf, i_all0; auto. }
  destruct Hp as [Hp Hp'].
  assert (Hh : ∀ t' u, threads s !! t' = Some u → holds u ≠ Some p).
  { intros t' u E Hu. apply Hp, i_processes0. eauto. }
  split; simpl; try done.
  - intros t' c j' [[<- [= <- <-]]|[Hn E]]%lookup_insert_Some; [simpl; rewrite dom_insert; set_solver|].
    eapply call_ok_mono; [exact Hx|done|done|by apply (i_calls0 t' c j')].
  - intros q r Hin. eapply told_mono; [exact Hx|done|done|by apply i_done0].
  - intros q. rewrite elem_of_union, i_processes0, elem_of_singleton. split.
    + intros [->|(t' & u & E & Hu)]; [eexists t, _; by rewrite lookup_insert_eq|].
      exists t', u. rewrite lookup_insert_ne; [done|]. intros <-. by simplify_eq.
    + intros (t' & u & [[<- <-]|[Hn E]]%lookup_insert_Some & Hu); [left; by injection Hu|right; eauto].
  - intros t1 t2 u1 u2 q [[<- <-]|[? E1]]%lookup_insert_Some [[<- <-]|[? E2]]%lookup_insert_Some H1 H2; [done| | |].
    + injection H1 as <-. by destruct (Hh _ _ E2).
    + injection H2 as <-. by destruct (Hh _ _ E1).
    + by eapply (i_holder0 _ _ _ _ q).
  - intros q. rewrite dom_insert, !elem_of_union, i_all0, elem_of_singleton. tauto.
  - intros q. rewrite elem_of_union, elem_of_singleton. intros [->|Hin]; [tauto|by apply i_apart0].
  - intros t' [[_ [=]]|[_ E]]%lookup_insert_Some; eauto.
  - by rewrite map_size_insert_Some.
  - intros H. apply insert_non_empty.
  - keep_ab s Ht.
Qed.

(** ** Every action keeps it *)

Lemma Inv_call n s t c j b s' :
  Inv n s → threads s !! t = Some (In c j) → call_step t c j b s = Some s' → Inv n s'.
Proof.
  intros HI Ht. pose proof (i_calls _ _ HI _ _ _ Ht) as Hc.
  destruct c as [timed|p timed|p x|p x a|p r]; simpl in *.
  - destruct (closing s) eqn:Ec; [|destruct b]; intros [= <-].
    + by eapply Inv_finish_none.
    + by eapply Inv_finish_none.
    + by apply Inv_start.
  - destruct b; [destruct timed; [|done]; intros [= <-]|].
    + eapply Inv_goto; [done|exact Ht|done|done| |done]. by intros c j' [= <- <-].
    + destruct (procs s !! p) as [[|rc]|] eqn:E; [done| |done].
      destruct (rc =? 0)%Z eqn:Erc; intros [= <-]; bool_hyps; subst;
        (eapply Inv_goto; [done|exact Ht|done|done|by intros c j' [= <- <-]|done]).
  - assert (Hs : ∀ j', s' = goto t (In (Stopping p x SPoll) j') s → j' = j → Inv n s').
    { intros j' -> ->. eapply Inv_goto; [done|exact Ht|done|done|by intros c j' [= <- <-]|done]. }
    destruct (procs s !! p) as [[|rc]|] eqn:E; [intros [= <-]; eauto| |done].
    destruct b; intros [= <-]; [eauto|].
    eapply Inv_goto; [done|exact Ht|done|done| |done]. intros c j' [= <- <-].
    destruct x; [done|]. by exists rc.
  - destruct (procs s !! p) as [st|] eqn:E; [|done]. simpl.
    destruct (stop_next a st b) as [[a'|[]]|] eqn:En; [..|done]; intros [= <-];
      (eapply Inv_goto; [done|exact Ht|done|done| |done]); intros c j' [= <- <-]; simpl; [done| |by apply elem_of_dom_2 in E].
    destruct x; [done|]. destruct a, st as [|rc], b; try done; by exists rc.
  - intros [= <-]. by apply Inv_finish.
Qed.

Lemma Inv_queue n s q :
  Inv n s → (∀ t, threads s !! t = Some Ended → q = []) → (q ≠ [] → threads s ≠ ∅) → Inv n (set_queue q s).
Proof. intros [] H1 H2. split; simpl; try done. intros t Ht. split; [by eapply i_ended0|eauto]. Qed.

Lemma Inv_thread n s t b s' : Inv n s → thread_step t b s = Some s' → Inv n s'.
Proof.
  intros HI. unfold thread_step. destruct (threads s !! t) as [th|] eqn:Ht; [|done]. simpl.
  assert (Hgo : ∀ th', th ≠ Ended → holds th = None → holds th' = None → (∀ c j, th' = In c j → call_ok s c) →
            th' ≠ Ended → Inv n (goto t th' s)).
  { intros th' H1 H2 H3 H4 H5. eapply Inv_goto; [done|exact Ht|done|congruence|done|done]. }
  destruct th as [|j|c j|]; [| |by apply Inv_call|done].
  - destruct (queue s) as [|j q] eqn:Eq; [destruct (shut s) eqn:Es; [|done]|]; intros [= <-].
    + by eapply Inv_goto; [done|exact Ht|..].
    + change (Inv n (set_queue q (goto t (Between j) s))). apply Inv_queue; [by apply Hgo| |].
      * simpl. intros t' [[_ [=]]|[_ E]]%lookup_insert_Some. apply (i_ended _ _ HI) in E as [_ E]. congruence.
      * intros _. apply insert_non_empty.
  - destruct (j_calls j) as [|c l]; [intros [= <-]; by apply Hgo|].
    destruct b; [destruct (j_task j); [|done]|]; intros [= <-]; apply Hgo; try done. by intros c' j' [= <- <-].
Qed.

Lemma Inv_submit n j spawn s s' : Inv n s → submit_step n j spawn s = Some s' → Inv n s'.
Proof.
  intros HI. pose proof HI as []. unfold submit_step. destruct (shut s) eqn:Es; [done|].
  assert (Hne : ∀ t, threads s !! t ≠ Some Ended) by (intros t E; by apply i_ended0 in E as [? _]).
  destruct spawn; [destruct (decide _) as [Hsz|]; [|done]|destruct (decide _) as [|He]; [done|]]; intros [= <-].
  - set (t := fresh (dom (threads s))). assert (Hf : threads s !! t = None) by apply not_elem_of_dom, is_fresh.
    split; simpl; try done.
    + intros t' c j' [[_ [=]]|[_ E]]%lookup_insert_Some. by apply (i_calls0 t' c j').
    + intros p. rewrite i_processes0. split; intros (t' & u & E & Hu).
      * exists t', u. rewrite lookup_insert_ne; [done|congruence].
      * apply lookup_insert_Some in E as [[<- <-]|[_ E]]; [done|eauto].
    + intros t1 t2 u1 u2 p [[<- <-]|[? E1]]%lookup_insert_Some [[<- <-]|[? E2]]%lookup_insert_Some H1 H2; [done..|].
      by eapply (i_holder0 _ _ _ _ p).
    + intros t' [[_ [=]]|[_ E]]%lookup_insert_Some. by destruct (Hne t').
    + rewrite map_size_insert_None; [lia|done].
    + intros _. apply insert_non_empty.
    + unfold ab_ok in *. simpl. rewrite Es in *. by destruct (ab s); naive_solver.
  - apply Inv_queue; [done| |done]. intros t E. by destruct (Hne t).
Qed.

Lemma Inv_exit n s p rc : Inv n s → procs s !! p = Some Running → Inv n (set_procs (<[p := Exited rc]> (procs s)) s).
Proof.
  intros [] Hp.
  assert (Hx : ∀ q rc', procs s !! q = Some (Exited rc') → <[p := Exited rc]> (procs s) !! q = Some (Exited rc')).
  { intros q rc' E. rewrite lookup_insert_ne; congruence. }
  assert (Hd : dom (<[p := Exited rc]> (procs s)) = dom (procs s)) by by apply dom_insert_lookup_L; eauto.
  split; simpl; try done.
  - intros t c j E. eapply call_ok_mono; [exact Hx| |done|by apply (i_calls0 t c j)]. simpl. by rewrite Hd.
  - intros q r E. eapply told_mono; [exact Hx| |done|by apply i_done0]. simpl. by rewrite Hd.
  - intros q. by rewrite Hd.
  - unfold ab_ok in *. simpl. rewrite Hd. by destruct (ab s).
Qed.

(** Only the flags and the aborter change. *)
Lemma Inv_flags n s cl sh a :
  Inv n s → (closing s = true → cl = true) → (shut s = true → sh = true) →
  ab_ok (set_ab a (set_shut sh (set_closing cl s))) → Inv n (set_ab a (set_shut sh (set_closing cl s))).
Proof.
  intros [] Hc Hs Ha. split; simpl; try done.
  - intros p r E. eapply told_mono; [..|by apply i_done0]; auto.
  - intros t E. apply i_ended0 in E as [? ?]. auto.
Qed.

Lemma Inv_begin n s s' : Inv n s → abort_begin s = Some s' → Inv n s'.
Proof.
  intros HI Hb. assert (H : s' = set_ab (Stop None (elements (processes s))) (set_shut (shut s) (set_closing true s))).
  { unfold abort_begin in Hb. by destruct (ab s); simplify_eq. }
  rewrite H. apply Inv_flags; [done..|]. unfold ab_ok. simpl. split_and!; [done| |done].
  intros p Hp%elem_of_elements. apply (i_all _ _ HI). by left.
Qed.

Lemma Inv_abort n s b s' : Inv n s → abort_step b s = Some s' → Inv n s'.
Proof.
  intros HI. pose proof (i_ab _ _ HI) as Ha. unfold abort_step, ab_ok in *.
  assert (Hset : ∀ a, ab_ok (set_ab a s) → Inv n (set_ab a s)).
  { intros a H. apply (Inv_flags n s (closing s) (shut s) a); done. }
  destruct (ab s) as [|[[p a]|] l|[|t l]| |] eqn:E; try done.
  - destruct Ha as (Hc & Hl & Hp).
    destruct (procs s !! p) as [st|]; [|done]. simpl.
    destruct (stop_next a st b) as [[a'|[]]|]; [..|done]; intros [= <-]; by apply Hset.
  - destruct Ha as (Hc & Hl & _). destruct l as [|p l]; intros [= <-].
    + apply (Inv_flags n s (closing s) true _); [done..|]. repeat split; [done| |].
      * intros t. simpl. rewrite list_elem_of_fmap. intros ([? ?] & -> & Hin%elem_of_map_to_list). by apply elem_of_dom_2 in Hin.
      * simpl. intros t th Ht. left. apply list_elem_of_fmap. exists (t, th). by rewrite elem_of_map_to_list.
    + apply Hset. repeat split; [done|..]; intros; apply Hl; set_solver.
  - destruct Ha as (Hc & Hs & _ & Ht). intros [= <-]. apply Hset. repeat split; [done..|].
    intros t th E'. by destruct (Ht _ _ E') as [?%elem_of_nil|].
  - destruct Ha as (Hc & Hs & Hd & Ht). destruct (threads s !! t) as [th|] eqn:Et; [|done].
    destruct th; try (destruct b; [|done]; intros [= <-]; by apply Hset).
    intros [= <-]. apply Hset. repeat split; [done..| |].
    + intros t' Hin. apply Hd. by right.
    + intros t' th E'. destruct (Ht _ _ E') as [[->|]%elem_of_cons|]; [right; simpl in E'; congruence|by left|by right].
Qed.

Lemma Inv_step n a s s' : Inv n s → step n a s = Some s' → Inv n s'.
Proof.
  intros HI. destruct a as [j spawn|t b|p rc| |b|]; simpl.
  - by apply Inv_submit.
  - by apply Inv_thread.
  - destruct (procs s !! p) as [[]|] eqn:E; [|done..]. intros [= <-]. by apply Inv_exit.
  - by apply Inv_begin.
  - by apply Inv_abort.
  - intros [= <-]. apply (Inv_flags n s (closing s) true (ab s)); [done..|].
    pose proof (i_ab _ _ HI) as Ha. unfold ab_ok in *. simpl. destruct (ab s); naive_solver.
Qed.

Lemma Inv_run n l s s' : Inv n s → run n l s = Some s' → Inv n s'.
Proof.
  revert s. induction l as [|a l IH]; intros s HI; simpl; [by intros [= <-]|].
  destruct (step n a s) as [s1|] eqn:E; [|done]. simpl. apply IH. by eapply Inv_step.
Qed.

Lemma reachable_Inv n l s : run n l init = Some s → Inv n s.
Proof. apply Inv_run, Inv_init. Qed.

(** ** After the flag is set *)

Lemma step_closing n a s s' : step n a s = Some s' → closing s = true → closing s' = true ∧ dom (procs s') = dom (procs s).
Proof.
  intros H Hc. destruct a as [j spawn|t b|p rc| |b|]; simpl in H.
  - unfold submit_step in H. repeat case_match; by simplify_eq.
  - unfold thread_step, call_step in H. rewrite Hc in H.
    destruct (threads s !! t) as [th|]; [|done]. simpl in H. unfold mbind, option_bind in H.
    repeat case_match; by simplify_eq.
  - repeat case_match; simplify_eq. split; [done|]. simpl. rewrite dom_insert_lookup_L; eauto.
  - unfold abort_begin in H. repeat case_match; by simplify_eq.
  - unfold abort_step, mbind, option_bind in H. repeat case_match; by simplify_eq.
  - by simplify_eq.
Qed.

Lemma run_closing n l s s' : run n l s = Some s' → closing s = true → closing s' = true ∧ dom (procs s') = dom (procs s).
Proof.
  revert s. induction l as [|a l IH]; intros s; simpl; [by intros [= <-]|].
  destruct (step n a s) as [s1|] eqn:E; [|done]. simpl. intros Hr Hc.
  destruct (step_closing _ _ _ _ E Hc) as [Hc1 <-]. by apply IH.
Qed.

(** A process that runs is known to the pool, or survived its [kill]. *)
Lemma running_known n s p : Inv n s → procs s !! p = Some Running → p ∈ processes s ∨ (Some p, StopFailed) ∈ done s.
Proof.
  intros [] Hp. assert (p ∈ dom (procs s)) as [|Hin]%i_all0 by (by apply elem_of_dom_2 in Hp); [by left|].
  right. apply list_elem_of_omap in Hin as ([q r] & Hin & Hq). simpl in Hq. subst q.
  pose proof (i_done0 _ _ Hin) as Ht. destruct r as [| | |[]|]; simpl in Ht; try naive_solver congruence.
Qed.

Lemma aborted_clean n s : Inv n s → ab s = Aborted →
  queue s = [] ∧ processes s = ∅ ∧ (∀ t th, threads s !! t = Some th → th = Ended) ∧
  ∀ p, procs s !! p = Some Running → (Some p, StopFailed) ∈ done s.
Proof.
  intros HI Ha. pose proof (i_ab _ _ HI) as H. unfold ab_ok in H. rewrite Ha in H. destruct H as (_ & _ & Ht).
  assert (Hp : processes s = ∅).
  { apply set_eq. intros p. rewrite (i_processes _ _ HI). split; [|set_solver].
    intros (t & th & E & Hh). by rewrite (Ht _ _ E) in Hh. }
  split_and!; [|done..|].
  - destruct (decide (queue s = [])) as [|Hq]; [done|]. apply (i_workers _ _ HI) in Hq.
    apply map_choose in Hq as (t & th & E). rewrite (Ht _ _ E) in E. by apply (i_ended _ _ HI) in E as [_ ?].
  - intros p Hr. apply (running_known n) in Hr as [Hin|]; [|done..]. rewrite Hp in Hin. set_solver.
Qed.

(** The dump pool of a replay ([OwnedDumpPool], [replay/guest/lifecycle.py])
    under every interleaving of its callers, its workers, its processes and the
    thread that aborts it: a process that runs is in [processes], or outlived
    the [kill] of its call, which raised [TimeoutExpired]; once an abort has
    closed admission no process is started, ever; and an abort that returns
    leaves an empty queue, no call in progress and no process running but such
    survivors. *)
Theorem abort_stops_dumps n l s : run n l init = Some s →
  (∀ p, procs s !! p = Some Running → p ∈ processes s ∨ (Some p, StopFailed) ∈ done s) ∧
  (closing s = true → ∀ l' s', run n l' s = Some s' → dom (procs s') = dom (procs s)) ∧
  (ab s = Aborted →
     queue s = [] ∧ processes s = ∅ ∧ (∀ t th, threads s !! t = Some th → th = Ended) ∧
     ∀ p, procs s !! p = Some Running → (Some p, StopFailed) ∈ done s).
Proof.
  intros Hr. pose proof (reachable_Inv _ _ _ Hr) as HI. split_and!.
  - intros p. by apply (running_known n).
  - intros Hc l' s' Hr'. by apply (run_closing _ _ _ _ Hr').
  - intros Ha. apply (aborted_clean n); done.
Qed.

(** One worker, two commands, an abort while the first runs: it is stopped, the
    second is never started. *)
Definition abort_run : list action :=
  [Submit (submit false) true; Submit (submit false) false; Work 0 false; Work 0 false; Work 0 false;
   Begin; Abort false; Abort false; Abort false; Exit 0 (-15); Abort false; Abort false;
   Work 0 false; Work 0 false; Work 0 false; Work 0 false;
   Work 0 false; Work 0 false; Work 0 false; Work 0 false; Work 0 false; Abort false; Abort false].

Lemma abort_stops_dumps_witness : ∃ s, run 1 abort_run init = Some s ∧ ab s = Aborted ∧
  done s = [(None, Cancelled); (Some 0, Failed (XCalled (-15)))] ∧ dom (procs s) = {[0]} ∧ queue s = [].
Proof.
  destruct (run 1 abort_run init) as [s|] eqn:E; [|by vm_compute in E].
  exists s. pose proof (abort_stops_dumps 1 abort_run s E) as (_ & _ & H).
  assert (ab s = Aborted ∧ done s = [(None, Cancelled); (Some 0, Failed (XCalled (-15)))] ∧ dom (procs s) = {[0]})
    as (Ha & ? & ?) by by vm_compute in E; injection E as <-.
  destruct (H Ha) as (? & _). by repeat split.
Defined.

(** ** Outcomes *)

(** Every call of [_check_call] that ended says what its process did, under
    every interleaving: 0 if it exited with 0, [CalledProcessError] with its
    code if with another, [TimeoutExpired] only of a process that was stopped
    (or that could not be), [CancelledError] only once the pool is closing; and
    no two calls, ended or in progress, share a process. *)
Theorem commands_told n l s : run n l init = Some s →
  (∀ p r, (p, r) ∈ done s → told s p r) ∧ NoDup (omap fst (done s)) ∧
  (∀ p, p ∈ processes s → p ∉ omap fst (done s) ∧
     ∃ t c j, threads s !! t = Some (In c j) ∧ call_proc c = Some p ∧
       ∀ t' c' j', threads s !! t' = Some (In c' j') → call_proc c' = Some p → t' = t).
Proof.
  intros Hr. pose proof (reachable_Inv _ _ _ Hr) as []. split_and!; [done..|].
  intros p Hp. split; [by apply i_apart0|]. apply i_processes0 in Hp as (t & [| |c j|] & E & Hc); try done.
  exists t, c, j. split_and!; [done..|]. intros t' c' j' E' Hc'. by eapply (i_holder0 t' t _ _ p E' E).
Qed.

Lemma commands_told_witness : ∃ s, run 1 abort_run init = Some s ∧ (Some 0, Failed (XCalled (-15))) ∈ done s ∧
  procs s !! 0 = Some (Exited (-15)).
Proof.
  destruct (run 1 abort_run init) as [s|] eqn:E; [|by vm_compute in E].
  exists s. destruct (commands_told 1 abort_run s E) as (H & _).
  assert (Hd : (Some 0, Failed (XCalled (-15))) ∈ done s) by by vm_compute in E; injection E as <-; right; left.
  split_and!; [done..|]. by destruct (H _ _ Hd).
Defined.

(** ** The abort ends *)

Definition is_abort (a : action) : bool := match a with Abort _ => true | _ => false end.
Definition is_begin (a : action) : bool := match a with Begin => true | _ => false end.

Definition stop_left (a : stop_at) : nat :=
  match a with SPoll => 5 | STerminate => 4 | SWait1 => 3 | SKill => 2 | SWait2 => 1 end.
Definition abort_left (n : nat) (a : aborter) : nat :=
  match a with
  | Stop None l => 6 * length l + n + 2
  | Stop (Some (_, a)) l => 6 * length l + stop_left a + n + 2
  | Join l => length l + 1
  | _ => 0
  end.

Lemma abort_step_less n b s s' :
  Inv n s → abort_step b s = Some s' → abort_left n (ab s') < abort_left n (ab s).
Proof.
  intros HI. unfold abort_step. destruct (ab s) as [|[[p a]|] l|[|t l]| |]; try done.
  - destruct (procs s !! p) as [st|]; [|done]. simpl.
    destruct a, st, b; simpl; intros [= <-]; simpl; lia.
  - destruct l as [|p l]; intros [= <-]; simpl; [|lia].
    rewrite length_fmap, length_map_to_list. pose proof (i_threads _ _ HI). lia.
  - intros [= <-]. simpl. lia.
  - destruct (threads s !! t) as [[]|]; [destruct b..| |]; intros [=]; subst; simpl; lia.
Qed.

Lemma step_ab n a s s' : step n a s = Some s' → is_abort a = false → is_begin a = false → ab s' = ab s.
Proof.
  intros H. destruct a as [j spawn|t b|p rc| |b|]; try done; intros _ _; simpl in H.
  - unfold submit_step in H. repeat case_match; by simplify_eq.
  - unfold thread_step, call_step in H.
    destruct (threads s !! t) as [th|]; [|done]. simpl in H. unfold mbind, option_bind in H.
    repeat case_match; by simplify_eq.
  - repeat case_match; by simplify_eq.
  - by simplify_eq.
Qed.

Lemma run_left n l s s' : Inv n s → run n l s = Some s' → forallb (fun a => negb (is_begin a)) l = true →
  length (List.filter is_abort l) + abort_left n (ab s') ≤ abort_left n (ab s).
Proof.
  revert s. induction l as [|a l IH]; intros s HI; simpl; [intros [= <-]; lia|].
  destruct (step n a s) as [s1|] eqn:E; [|done]. simpl. intros Hr [Hb Hl]%andb_true_iff.
  apply negb_true_iff in Hb. specialize (IH s1 (Inv_step _ _ _ _ HI E) Hr Hl).
  destruct (is_abort a) eqn:Ea; simpl.
  - destruct a; try done. apply (abort_step_less n) in E; [lia|done].
  - rewrite <-(step_ab _ _ _ _ E Ea Hb). lia.
Qed.

(** It can always move, if only because a wait runs out. *)
Lemma abort_moves n s : Inv n s → (abort_left n (ab s) ≠ 0) → is_Some (abort_step true s).
Proof.
  intros HI. pose proof (i_ab _ _ HI) as Ha. unfold abort_step, ab_ok in *.
  destruct (ab s) as [|[[p a]|] l|[|t l]| |] eqn:E; simpl; try done.
  - destruct Ha as (_ & _ & [st ->]%elem_of_dom). intros _. simpl. by destruct a, st.
  - by destruct l.
  - destruct Ha as (_ & _ & Hd & _). assert (is_Some (threads s !! t)) as [th ->] by (apply elem_of_dom, Hd; left). by destruct th.
Qed.

Lemma step_not_off n a s s' : step n a s = Some s' → ab s ≠ Off → ab s' ≠ Off.
Proof.
  intros H Hs. destruct (is_abort a) eqn:Ea; [|destruct (is_begin a) eqn:Eb].
  - destruct a; try done. simpl in H. unfold abort_step, mbind, option_bind in H. repeat case_match; by simplify_eq.
  - destruct a; try done. simpl in H. unfold abort_begin in H. repeat case_match; by simplify_eq.
  - by rewrite (step_ab _ _ _ _ H Ea Eb).
Qed.
Lemma run_not_off n l s s' : run n l s = Some s' → ab s ≠ Off → ab s' ≠ Off.
Proof.
  revert s. induction l as [|a l IH]; intros s; simpl; [by intros [= <-]|].
  destruct (step n a s) as [s1|] eqn:E; [|done]. simpl. intros Hr Hs. eapply IH; [done|by eapply step_not_off].
Qed.

(** [OwnedDumpPool.abort] ends: from the moment it sets [closing], and
    whatever the workers, the callers and the processes do meanwhile, it makes
    at most six steps for each process it found and one for each worker, plus
    two; until then it can always make one, since every wait of it has a
    timeout; and when it is over it either returned or raised. *)
Theorem abort_ends n l0 s0 s l s' :
  run n l0 init = Some s0 → step n Begin s0 = Some s →
  run n l s = Some s' → forallb (fun a => negb (is_begin a)) l = true →
  length (List.filter is_abort l) ≤ 6 * size (processes s0) + n + 2 ∧
  ((ab s' = Aborted ∨ ab s' = AbortRaised) ∨ is_Some (step n (Abort true) s')).
Proof.
  intros H0 Hb Hr Hl. pose proof (reachable_Inv _ _ _ H0) as HI. pose proof (Inv_step _ _ _ _ HI Hb) as HI'.
  pose proof (run_left _ _ _ _ HI' Hr Hl) as Hle. pose proof (Inv_run _ _ _ _ HI' Hr) as HI''.
  assert (Hab : ab s = Stop None (elements (processes s0))).
  { simpl in Hb. unfold abort_begin in Hb. by destruct (ab s0); simplify_eq. }
  assert (Hoff : ab s' ≠ Off) by (apply (run_not_off _ _ _ _ Hr); by rewrite Hab).
  rewrite Hab in Hle. simpl in Hle. unfold size, set_size. simpl. split; [lia|].
  destruct (decide (abort_left n (ab s') = 0)) as [Hz|Hz]; [left|right; by apply (abort_moves n)].
  destruct (ab s') as [|[[p a]|] l1|l1| |]; simpl in Hz; try (by auto); lia.
Qed.

Lemma abort_ends_witness : ∃ s0 s, run 1 (take 5 abort_run) init = Some s0 ∧ step 1 Begin s0 = Some s ∧
  ∃ s', run 1 (drop 6 abort_run) s = Some s' ∧ ab s' = Aborted ∧
    length (List.filter is_abort (drop 6 abort_run)) ≤ 6 * size (processes s0) + 3.
Proof.
  destruct (run 1 (take 5 abort_run) init) as [s0|] eqn:E0; [|by vm_compute in E0].
  destruct (step 1 Begin s0) as [s|] eqn:E1; [|by vm_compute in E0; injection E0 as <-; vm_compute in E1].
  destruct (run 1 (drop 6 abort_run) s) as [s'|] eqn:E2;
    [|by vm_compute in E0; injection E0 as <-; vm_compute in E1; injection E1 as <-; vm_compute in E2].
  exists s0, s. split_and!; [done..|]. exists s'. split_and!; [done| |].
  - by vm_compute in E0; injection E0 as <-; vm_compute in E1; injection E1 as <-; vm_compute in E2; injection E2 as <-.
  - destruct (abort_ends 1 _ _ _ _ _ E0 E1 E2 eq_refl) as [H _]. lia.
Defined.

End DumpPoolSpec.
