(* ===== verification/PageStats.v ===== *)
(** * CRIU pagemap statistics ([backends/deltabox/gsd/criu_page_stats.py])

    The background dump worker decodes the pagemap images that CRIU wrote:
    base-128 varints, protobuf fields with wire type 0 only, length-framed
    records, and the sums the checkpoint entry reports.  The file system is
    the only thing left out: an image is its byte content, a directory is the
    list of its named images. *)

From S2P Require Import Prelude PyStr.
From Stdlib.Strings Require Import Byte.
Local Open Scope Z_scope.

Abbreviation byte := Byte.byte.

#[global] Instance byte_eq_dec : EqDecision byte := Byte.byte_eq_dec.

(** The integer value of a byte, [data[offset]] of a [bytes] object. *)
Definition bval (b : byte) : Z := Z.of_N (Byte.to_N b).

(** Python's [bytes(...)] of integers taken modulo 256 (used to write images
    in specifications). *)
Definition byte_of (z : Z) : byte :=
  match Byte.of_N (Z.to_N (z mod 256)) with Some b => b | None => Byte.x00 end.

Module PageStats.

Definition PAGEMAP_MAGIC : list byte :=
  [Byte.x19; Byte.x43; Byte.x56; Byte.x54; Byte.x25; Byte.x40; Byte.x08; Byte.x56].
Definition MAX_RECORD_BYTES : Z := 1024.
Definition UINT64_MAX : Z := Z.shiftl 1 64 - 1.
Definition PE_PARENT : Z := 1.
Definition PE_LAZY : Z := 2.
Definition PE_PRESENT : Z := 4.

(** [for shift in range(0, 70, 7)]. *)
Definition varint_shifts : list Z := [0; 7; 14; 21; 28; 35; 42; 49; 56; 63].

Fixpoint varint_loop (shifts : list Z) (data : list byte) (offset : nat) (res : Z)
    : result (Z * nat) :=
  match shifts with
  | [] => raise ValueError "Pagemap protobuf varint exceeds uint64"
  | shift :: rest =>
      match data !! offset with
      | None => raise ValueError "Truncated pagemap protobuf varint"
      | Some b =>
          if (shift =? 63) && (1 <? bval b)
          then raise ValueError "Pagemap protobuf varint exceeds uint64"
          else
            let res := Z.lor res (Z.shiftl (Z.land (bval b) 127) shift) in
            if Z.land (bval b) 128 =? 0 then Ok (res, S offset)
            else varint_loop rest data (S offset) res
      end
  end.

Definition varint (data : list byte) (offset : nat) : result (Z * nat) :=
  varint_loop varint_shifts data offset 0.

(** [_fields]: the [while offset < len(data)] loop, one key/value pair per
    turn.  Every turn consumes at least two bytes, so [length data] turns are
    enough ([fields_never_out_of_fuel]). *)
Fixpoint fields_loop (fuel : nat) (data : list byte) (offset : nat) (fields : gmap Z Z)
    : result (gmap Z Z) :=
  if (Z.of_nat offset <? Z.of_nat (length data)) then
    match fuel with
    | O => raise OutOfFuel ""
    | S fuel =>
        '(key, offset) ← varint data offset;
        let number := Z.shiftr key 3 in
        let wire := Z.land key 7 in
        if (number =? 0) || negb (wire =? 0) || bool_decide (is_Some (fields !! number))
        then raise ValueError "Unsupported or duplicate pagemap protobuf field"
        else
          '(v, offset) ← varint data offset;
          fields_loop fuel data offset (<[number := v]> fields)
    end
  else Ok fields.

Definition fields (data : list byte) : result (gmap Z Z) :=
  fields_loop (length data) data 0 ∅.

(** [struct.unpack('<I', raw)]. *)
Fixpoint le_unpack (raw : list byte) : Z :=
  match raw with
  | [] => 0
  | b :: raw' => bval b + 256 * le_unpack raw'
  end.

(** One [next] of the generator [_records]: [None] when the stream is at its
    end, otherwise the record and the rest of the stream. *)
Definition next_record (stream : list byte) : result (option (gmap Z Z * list byte)) :=
  let raw := take 4 stream in
  let stream := drop 4 stream in
  if (length raw =? 0)%nat then Ok None
  else if negb (length raw =? 4)%nat then raise ValueError "Truncated pagemap record length"
  else
    let size := le_unpack raw in
    if negb ((0 <? size) && (size <=? MAX_RECORD_BYTES))
    then raise ValueError "Unsupported pagemap record size"
    else
      let payload := take (Z.to_nat size) stream in
      let stream := drop (Z.to_nat size) stream in
      if negb (Z.of_nat (length payload) =? size) then raise ValueError "Truncated pagemap record"
      else f ← fields payload; Ok (Some (f, stream)).

Record stats := Stats {
  total_pages : Z;
  parent_pages : Z;
  present_pages : Z;
  lazy_eligible_pages : Z;
  parent_lazy_pages : Z;
  entries : Z;
  pages_id : Z;
}.

(** A decoded pagemap entry after the schema and range checks of the loop
    body: address, page count, flags. *)
Definition check_row (page_size previous_end : Z) (row : gmap Z Z) : result (Z * Z * Z) :=
  match row !! 1, row !! 2 with
  | Some address, Some compat =>
      if negb (bool_decide (dom row ⊆ ({[1; 2; 3; 4; 5]} : gset Z)))
      then raise ValueError "Unsupported CRIU pagemap entry schema"
      else
        let count := default compat (row !! 5) in
        let in_parent := default 0 (row !! 3) in
        if (Z.shiftl 1 32 - 1 <? compat) || negb ((in_parent =? 0) || (in_parent =? 1))
        then raise ValueError "Invalid CRIU compatibility field"
        else
          let flags := default (if negb (in_parent =? 0) then PE_PARENT else PE_PRESENT) (row !! 4) in
          if (count =? 0) || (UINT64_MAX `div` page_size <? count)
             || negb (address mod page_size =? 0)
             || (address <? previous_end) || (UINT64_MAX - count * page_size <? address)
          then raise ValueError "Invalid or overlapping CRIU pagemap range"
          else
            if negb (Z.land flags (Z.lnot (Z.lor (Z.lor PE_PARENT PE_LAZY) PE_PRESENT)) =? 0)
               || (Z.land flags (Z.lor PE_PARENT PE_PRESENT) =? 0)
               || (negb (Z.land flags PE_PARENT =? 0) && negb (Z.land flags PE_PRESENT =? 0))
            then raise ValueError "Unsupported CRIU page flags for a regular local dump"
            else Ok (address, count, flags)
  | _, _ => raise ValueError "Unsupported CRIU pagemap entry schema"
  end.

(** [if flags & bit: result[key] += count]. *)
Definition add_if (flags bit count acc : Z) : Z :=
  if negb (Z.land flags bit =? 0) then acc + count else acc.

Definition add_row (count flags : Z) (r : stats) : stats :=
  {| total_pages := total_pages r + count;
     parent_pages := add_if flags PE_PARENT count (parent_pages r);
     present_pages := add_if flags PE_PRESENT count (present_pages r);
     lazy_eligible_pages := add_if flags PE_LAZY count (lazy_eligible_pages r);
     parent_lazy_pages :=
       if negb (Z.land flags PE_PARENT =? 0) && negb (Z.land flags PE_LAZY =? 0)
       then parent_lazy_pages r + count else parent_lazy_pages r;
     entries := entries r + 1;
     pages_id := pages_id r |}.

(** [for row in records]: decoding of the next record and its checks
    alternate, as with the generator.  Each record consumes at least five
    bytes, so [length stream] turns are enough. *)
Fixpoint rows_loop (fuel : nat) (page_size : Z) (stream : list byte) (previous_end : Z)
    (acc : stats) : result stats :=
  match fuel with
  | O => raise OutOfFuel ""
  | S fuel =>
      n ← next_record stream;
      match n with
      | None => Ok acc
      | Some (row, stream) =>
          '(address, count, flags) ← check_row page_size previous_end row;
          rows_loop fuel page_size stream (address + count * page_size) (add_row count flags acc)
      end
  end.

Definition read_pagemap_stats (img : list byte) (page_size : Z) : result stats :=
  if (page_size <=? 0) || negb (Z.land page_size (page_size - 1) =? 0)
  then raise ValueError "Page size must be a positive power of two"
  else if negb (bool_decide (take 8 img = PAGEMAP_MAGIC))
  then raise ValueError "Unexpected CRIU pagemap image magic"
  else
    let stream := drop 8 img in
    n ← next_record stream;
    match n with
    | None => raise ValueError "Invalid CRIU pagemap head"
    | Some (head, stream) =>
        match head !! 1 with
        | Some id =>
            if negb (bool_decide (dom head = ({[1]} : gset Z))) || (Z.shiftl 1 32 - 1 <? id)
            then raise ValueError "Invalid CRIU pagemap head"
            else rows_loop (S (length stream)) page_size stream 0
                   (Stats 0 0 0 0 0 0 id)
        | None => raise ValueError "Invalid CRIU pagemap head"
        end
    end.

(** A completed dump directory: the names in it, each with the content of a
    regular file or [None] for anything else. *)
Abbreviation dump_dir := (list (string * option (list byte))).

(** [root.glob('<pre>*.img')]. *)
Definition glob_img (pre : string) (name : string) : bool :=
  startswith name pre && endswith name ".img"
  && (String.length pre + 4 <=? String.length name)%nat.

(** [p.name[len('pagemap-'):-len('.img')].isdigit()]. *)
Definition is_task_image (name : string) : bool :=
  glob_img "pagemap-" name && isdigit (sdrop 8 (sdrop_end 4 name)).

Definition task_images (d : dump_dir) : list (string * option (list byte)) :=
  merge_sort (fun p q => String.le p.1 q.1)
    (List.filter (fun p => is_task_image p.1) d).

(** [_regular_size] of a directory entry, and of a path in the directory
    (a missing file makes [os.lstat] raise). *)
Definition regular_size (f : option (list byte)) : result Z :=
  match f with
  | Some content => Ok (Z.of_nat (length content))
  | None => raise ValueError "Expected a regular CRIU image"
  end.

Definition regular_size_of (d : dump_dir) (name : string) : result Z :=
  match list_find (fun p => p.1 = name) d with
  | Some (_, (_, f)) => regular_size f
  | None => raise FileNotFoundError name
  end.

Definition pages_name (id : Z) : string := "pages-" +:+ pretty id +:+ ".img".

Record page_summary := PageSummary {
  pagemap_images : Z;
  sum_total : Z; sum_parent : Z; sum_present : Z; sum_lazy : Z; sum_parent_lazy : Z;
  private_pages_bytes : Z;
  pages_data_bytes : Z;
  tasks : list (string * stats * Z);
}.

Fixpoint collect_loop (d : dump_dir) (page_size : Z)
    (images : list (string * option (list byte)))
    (seen : gset Z) (acc : page_summary) : result page_summary :=
  match images with
  | [] => Ok acc
  | (name, None) :: _ => raise ValueError "Expected a regular CRIU image"
  | (name, Some img) :: images =>
      task ← read_pagemap_stats img page_size;
      if bool_decide (pages_id task ∈ seen)
      then raise ValueError "Task pagemaps unexpectedly share a pages image"
      else
        size ← regular_size_of d (pages_name (pages_id task));
        if negb (size =? present_pages task * page_size)
        then raise ValueError "CRIU pages length disagrees with pagemap"
        else
          collect_loop d page_size images ({[pages_id task]} ∪ seen)
            {| pagemap_images := pagemap_images acc;
               sum_total := sum_total acc + total_pages task;
               sum_parent := sum_parent acc + parent_pages task;
               sum_present := sum_present acc + present_pages task;
               sum_lazy := sum_lazy acc + lazy_eligible_pages task;
               sum_parent_lazy := sum_parent_lazy acc + parent_lazy_pages task;
               private_pages_bytes := private_pages_bytes acc + size;
               pages_data_bytes := pages_data_bytes acc;
               tasks := tasks acc ++ [(name, task, size)] |}
  end.

(** [sum(_regular_size(p) for p in root.glob('pages-*.img'))]. *)
Fixpoint sum_sizes (files : dump_dir) : result Z :=
  match files with
  | [] => Ok 0
  | (_, f) :: files => n ← regular_size f; s ← sum_sizes files; Ok (n + s)
  end.

Definition collect_page_stats (d : dump_dir) (page_size : Z) : result page_summary :=
  match task_images d with
  | [] => raise ValueError "Completed CRIU dump has no task pagemap images"
  | images =>
      r ← collect_loop d page_size images ∅
            (PageSummary (Z.of_nat (length images)) 0 0 0 0 0 0 0 []);
      total ← sum_sizes (List.filter (fun p => glob_img "pages-" p.1) d);
      Ok {| pagemap_images := pagemap_images r;
            sum_total := sum_total r; sum_parent := sum_parent r;
            sum_present := sum_present r; sum_lazy := sum_lazy r;
            sum_parent_lazy := sum_parent_lazy r;
            private_pages_bytes := private_pages_bytes r;
            pages_data_bytes := total; tasks := tasks r |}
  end.

(** ** Varints *)

(** The canonical base-128 encoding (the writer's side, used to specify the
    reader): low groups first, the high bit marks a continuation. *)
Fixpoint varint_enc (groups : nat) (v : Z) : list byte :=
  match groups with
  | O => []
  | S g => if v <? 128 then [byte_of v] else byte_of (v mod 128 + 128) :: varint_enc g (v `div` 128)
  end.
Definition encode_varint (v : Z) : list byte := varint_enc 10 v.

Lemma bval_byte_of z : 0 ≤ z < 256 → bval (byte_of z) = z.
Proof.
  intros Hz. unfold bval, byte_of. rewrite Z.mod_small by lia.
  destruct (Byte.of_N (Z.to_N z)) as [b|] eqn:E.
  - apply Byte.to_of_N in E. rewrite E. lia.
  - apply Byte.of_N_None_iff in E. lia.
Qed.

Lemma bval_range b : 0 ≤ bval b < 256.
Proof. unfold bval. pose proof (Byte.to_N_bounded b). lia. Qed.

Lemma bval_cont b : (Z.land (bval b) 128 =? 0) = (bval b <? 128).
Proof. by destruct b. Qed.

Lemma land_127 z : Z.land z 127 = z mod 128.
Proof. change 127 with (Z.ones 7). by rewrite Z.land_ones by lia. Qed.

Lemma lor_shiftl_add r x s : 0 ≤ s → 0 ≤ r < 2 ^ s → Z.lor r (Z.shiftl x s) = r + x * 2 ^ s.
Proof.
  intros Hs Hr. rewrite <- Z.shiftl_mul_pow2 by done.
  assert (Z.land r (Z.shiftl x s) = 0) as Hl.
  { apply Z.bits_inj'. intros n Hn. rewrite Z.land_spec, Z.bits_0, Z.shiftl_spec by done.
    destruct (Z.ltb_spec n s) as [?|?].
    - rewrite (Z.testbit_neg_r x) by lia. by rewrite andb_false_r.
    - rewrite <- (Z.mod_small r (2 ^ s)) by lia. by rewrite Z.mod_pow2_bits_high by lia. }
  rewrite <- (Z.lxor_lor _ _ Hl). by rewrite Z.add_nocarry_lxor.
Qed.

(** [chain s shifts]: the shifts still to be tried, from [s] on. *)
Inductive chain : Z → list Z → Prop :=
  | chain_nil : chain 70 []
  | chain_cons s rest : 0 ≤ s ≤ 56 ∨ s = 63 → chain (s + 7) rest → chain s (s :: rest).

Lemma chain_full : chain 0 varint_shifts.
Proof. repeat (constructor; [lia|simpl]). constructor. Qed.

Lemma varint_step_bound s x r :
  0 ≤ s ≤ 56 ∨ s = 63 → 0 ≤ x < 128 → (s = 63 → x ≤ 1) → 0 ≤ r < 2 ^ s →
  0 ≤ r + x * 2 ^ s < 2 ^ (s + 7) ∧ r + x * 2 ^ s < 2 ^ 64.
Proof.
  intros Hs Hx Hx1 Hr.
  assert (2 ^ (s + 7) = 2 ^ s * 128) as E by (rewrite Z.pow_add_r by lia; done).
  split; [rewrite E; nia|].
  destruct Hs as [Hs| ->]; [|specialize (Hx1 eq_refl); simpl in *; lia].
  assert (2 ^ s * 128 ≤ 2 ^ 64); [|nia].
  rewrite <- E. apply Z.pow_le_mono_r; lia.
Qed.

(** One accepted byte of the loop. *)
Lemma varint_step s b r :
  (s = 63 → bval b ≤ 1) → 0 ≤ s → 0 ≤ r < 2 ^ s →
  Z.lor r (Z.shiftl (Z.land (bval b) 127) s) = r + (bval b mod 128) * 2 ^ s.
Proof. intros. rewrite land_127. by apply lor_shiftl_add. Qed.

Lemma varint_loop_sound shifts s data off r v off' :
  chain s shifts → 0 ≤ r < 2 ^ s →
  varint_loop shifts data off r = Ok (v, off') →
  0 ≤ v ≤ UINT64_MAX ∧ (off < off' ≤ length data)%nat.
Proof.
  intros Hc. revert off r. induction Hc as [|s rest Hs Hc IH]; intros off r Hr H; simpl in H; [done|].
  destruct (data !! off) as [b|] eqn:Hb; [|done].
  apply lookup_lt_Some in Hb.
  destruct ((s =? 63) && (1 <? bval b)) eqn:E; [done|].
  assert (s = 63 → bval b ≤ 1) as Hb1.
  { intros ->. simpl in E. by apply Z.ltb_ge in E. }
  pose proof (Z.mod_pos_bound (bval b) 128 ltac:(lia)) as Hm.
  destruct (varint_step_bound s (bval b mod 128) r) as [? ?]; [done|done| |done|].
  { intros ->. specialize (Hb1 eq_refl). pose proof (bval_range b). rewrite Z.mod_small; lia. }
  rewrite varint_step in H by (done || lia).
  destruct (Z.land (bval b) 128 =? 0).
  - injection H as <- <-. unfold UINT64_MAX. change (Z.shiftl 1 64) with (2 ^ 64). lia.
  - apply IH in H; [|done]. lia.
Qed.

Lemma UINT64_MAX_val : UINT64_MAX = 18446744073709551615.
Proof. done. Qed.

Lemma varint_loop_err shifts data off r e :
  varint_loop shifts data off r = Err e → exn_cls e = ValueError.
Proof.
  revert off r. induction shifts as [|s rest IH]; intros off r H; simpl in H; [by injection H as <-|].
  repeat case_match; simplify_eq/=; eauto.
Qed.

Lemma varint_sound data off v off' :
  varint data off = Ok (v, off') → 0 ≤ v ≤ UINT64_MAX ∧ (off < off' ≤ length data)%nat.
Proof. apply varint_loop_sound with (s := 0); [apply chain_full|done]. Qed.

Lemma varint_enc_length g v : (length (varint_enc g v) ≤ g)%nat.
Proof. revert v; induction g; intros v; simpl; [lia|]. destruct (v <? 128); simpl; [lia|]. specialize (IHg (v `div` 128)). lia. Qed.

Lemma varint_loop_roundtrip shifts s pre post r v :
  chain s shifts → 0 ≤ r < 2 ^ s → 0 ≤ v → r + v * 2 ^ s < 2 ^ 64 →
  shifts ≠ [] ∨ v ≠ 0 →
  varint_loop shifts (pre ++ varint_enc (length shifts) v ++ post) (length pre) r
  = Ok (r + v * 2 ^ s, (length pre + length (varint_enc (length shifts) v))%nat).
Proof.
  intros Hc. revert pre r v. induction Hc as [|s rest Hs Hc IH]; intros pre r v Hr Hv Hlt Hne0.
  { change (2 ^ 70) with (64 * 2 ^ 64) in *. destruct Hne0; [done|nia]. }
  simpl. assert (0 < 2 ^ s) by (apply Z.pow_pos_nonneg; lia).
  assert (s = 63 → v ≤ 1) as Hv1.
  { intros ->. change (2 ^ 64) with (2 * 2 ^ 63) in Hlt. nia. }
  destruct (v <? 128) eqn:E; bool_hyps; simpl.
  - rewrite list_lookup_middle by done. rewrite bval_byte_of by lia.
    replace ((s =? 63) && (1 <? v)) with false.
    2: { symmetry. apply andb_false_iff. destruct (Z.eqb_spec s 63); [|by left]. right. apply Z.ltb_ge. auto. }
    pose proof (bval_cont (byte_of v)) as Hk. rewrite bval_byte_of in Hk by lia. rewrite Hk.
    destruct (Z.ltb_spec v 128); [|lia].
    rewrite land_127, lor_shiftl_add, Z.mod_small by lia. do 2 f_equal. lia.
  - assert (s ≠ 63) as Hne by (intros ->; specialize (Hv1 eq_refl); lia).
    pose proof (Z.mod_pos_bound v 128 ltac:(lia)) as Hm.
    rewrite list_lookup_middle by done. rewrite bval_byte_of by lia.
    destruct (Z.eqb_spec s 63); [done|]. simpl.
    pose proof (bval_cont (byte_of (v mod 128 + 128))) as Hk. rewrite bval_byte_of in Hk by lia.
    rewrite Hk. destruct (Z.ltb_spec (v mod 128 + 128) 128); [lia|].
    rewrite land_127, lor_shiftl_add by lia.
    replace ((v mod 128 + 128) mod 128) with (v mod 128)
      by (rewrite <- Z.add_mod_idemp_r, Z.mod_same, Z.add_0_r, Z.mod_mod; lia).
    pose proof (Z.div_mod v 128 ltac:(lia)) as Hd.
    assert (2 ^ (s + 7) = 2 ^ s * 128) as Ep by (rewrite Z.pow_add_r by lia; done).
    assert (1 ≤ v `div` 128) by (apply Z.div_le_lower_bound; lia).
    specialize (IH (pre ++ [byte_of (v mod 128 + 128)]) (r + v mod 128 * 2 ^ s) (v `div` 128)).
    rewrite length_app, <- app_assoc in IH. simpl in IH.
    replace (length pre + 1)%nat with (S (length pre)) in IH by lia.
    rewrite IH; [|rewrite Ep; nia|lia|rewrite Ep; nia|right; lia].
    do 2 f_equal; [rewrite Ep; nia|lia].
Qed.

Lemma varint_roundtrip_lemma pre post v :
  0 ≤ v ≤ UINT64_MAX →
  varint (pre ++ encode_varint v ++ post) (length pre)
  = Ok (v, (length pre + length (encode_varint v))%nat).
Proof.
  intros Hv. unfold UINT64_MAX in Hv. change (Z.shiftl 1 64) with (2 ^ 64) in Hv.
  unfold varint, encode_varint.
  rewrite (varint_loop_roundtrip varint_shifts 0) by (apply chain_full || (simpl; lia) || by left).
  do 2 f_equal. simpl. lia.
Qed.

(** ** Fields and records *)

(** The writer's side of a message: field number and value pairs, wire type 0. *)
Definition encode_fields (l : list (Z * Z)) : list byte :=
  mjoin ((fun p => encode_varint (p.1 * 8) ++ encode_varint p.2) <$> l).

Definition field_ok (p : Z * Z) : Prop := 1 ≤ p.1 ≤ 15 ∧ 0 ≤ p.2 ≤ UINT64_MAX.

Lemma encode_varint_length v : (1 ≤ length (encode_varint v) ≤ 10)%nat.
Proof.
  split; [|apply varint_enc_length]. unfold encode_varint; cbn [varint_enc].
  destruct (v <? 128); simpl; lia.
Qed.

Lemma encode_fields_cons p l :
  encode_fields (p :: l) = encode_varint (p.1 * 8) ++ encode_varint p.2 ++ encode_fields l.
Proof. unfold encode_fields. simpl. by rewrite <- app_assoc. Qed.

Lemma encode_fields_length l : (length (encode_fields l) ≤ 20 * length l)%nat.
Proof.
  induction l as [|p l IH]; [done|]. rewrite encode_fields_cons, !length_app; simpl.
  pose proof (encode_varint_length (p.1 * 8)). pose proof (encode_varint_length p.2). lia.
Qed.

Lemma key_number n : 0 ≤ n → Z.shiftr (n * 8) 3 = n ∧ Z.land (n * 8) 7 = 0.
Proof.
  intros. change 7 with (Z.ones 3). rewrite Z.shiftr_div_pow2, Z.land_ones by lia.
  change (2 ^ 3) with 8. split; [apply Z.div_mul; lia|apply Z.mod_mul; lia].
Qed.

Lemma fields_loop_encode l fuel pre m :
  Forall field_ok l → NoDup l.*1 → Forall (fun p => m !! p.1 = None) l → (length l ≤ fuel)%nat →
  fields_loop fuel (pre ++ encode_fields l) (length pre) m
  = Ok (foldl (fun m p => <[p.1 := p.2]> m) m l).
Proof.
  revert fuel pre m. induction l as [|p l IH]; intros fuel pre m Hok Hnd Hm Hf.
  { destruct fuel; simpl; rewrite app_nil_r, Z.ltb_irrefl; done. }
  destruct fuel as [|fuel]; [simpl in Hf; lia|].
  apply Forall_cons in Hok as [[Hn Hv] Hok]. apply Forall_cons in Hm as [Hmp Hm].
  rewrite fmap_cons in Hnd. apply NoDup_cons in Hnd as [Hnin Hnd].
  pose proof (encode_varint_length (p.1 * 8)) as Hl1.
  pose proof (encode_varint_length p.2) as Hl2.
  rewrite encode_fields_cons. cbn [fields_loop].
  destruct (Z.ltb_spec (Z.of_nat (length pre))
     (Z.of_nat (length (pre ++ encode_varint (p.1 * 8) ++ encode_varint p.2 ++ encode_fields l))))
    as [_|Hge]; [|rewrite !length_app in Hge; lia].
  rewrite varint_roundtrip_lemma by (rewrite UINT64_MAX_val; lia). cbn [mbind result_bind].
  destruct (key_number p.1) as [-> ->]; [lia|].
  destruct (Z.eqb_spec p.1 0); [lia|]. cbn [negb orb Z.eqb].
  rewrite bool_decide_eq_false_2 by (rewrite Hmp; by intros []).
  rewrite app_assoc, <- length_app, varint_roundtrip_lemma by done.
  cbn [mbind result_bind]. rewrite app_assoc, <- length_app.
  rewrite IH; [done|done|done| |simpl in Hf; lia].
  apply Forall_forall. intros q Hq. rewrite lookup_insert_ne.
  - by apply (Forall_forall (fun p => m !! p.1 = None) l).
  - intros E. apply Hnin. rewrite E. by apply list_elem_of_fmap_2.
Qed.

Lemma foldl_insert_list_to_map (l : list (Z * Z)) (m : gmap Z Z) :
  NoDup l.*1 → Forall (fun p => m !! p.1 = None) l →
  foldl (fun m p => <[p.1 := p.2]> m) m l = list_to_map l ∪ m.
Proof.
  revert m. induction l as [|[k v] l IH]; intros m Hnd Hm; simpl.
  { by rewrite map_empty_union. }
  apply NoDup_cons in Hnd as [Hnin Hnd]. apply Forall_cons in Hm as [Hk Hm]. simpl in *.
  rewrite IH; [|done|].
  - rewrite <- insert_union_l. rewrite insert_union_r; [done|].
    by apply not_elem_of_list_to_map.
  - apply Forall_forall. intros q Hq. rewrite lookup_insert_ne.
    + by apply (Forall_forall (fun p => m !! p.1 = None) l).
    + intros ->. apply Hnin. by apply list_elem_of_fmap_2.
Qed.

Lemma fields_encode l :
  Forall field_ok l → NoDup l.*1 → fields (encode_fields l) = Ok (list_to_map l).
Proof.
  intros Hok Hnd. unfold fields.
  assert (length l ≤ length (encode_fields l))%nat.
  { clear. induction l as [|p l IH]; [done|]. rewrite encode_fields_cons, !length_app; simpl.
    pose proof (encode_varint_length (p.1 * 8)). lia. }
  pose proof (fields_loop_encode l (length (encode_fields l)) [] ∅) as H'.
  simpl in H'. rewrite H'; [|done|done| |done].
  - rewrite foldl_insert_list_to_map; [by rewrite map_union_empty|done|].
    apply Forall_forall. intros. apply lookup_empty.
  - apply Forall_forall. intros. apply lookup_empty.
Qed.

Lemma fields_loop_fuel fuel data off m e :
  (length data ≤ fuel + off)%nat → fields_loop fuel data off m = Err e → exn_cls e ≠ OutOfFuel.
Proof.
  revert off m. induction fuel as [|fuel IH]; intros off m Hf H; simpl in H;
    destruct (Z.ltb_spec (Z.of_nat off) (Z.of_nat (length data))); [lia|done| |done].
  unfold mbind, result_bind in H.
  destruct (varint data off) as [[k off1]|e1] eqn:E1.
  2: { injection H as <-. by rewrite (varint_loop_err _ _ _ _ _ E1). }
  apply varint_sound in E1 as [_ E1].
  case_match; [by injection H as <-|].
  destruct (varint data off1) as [[v off2]|e2] eqn:E2.
  2: { injection H as <-. by rewrite (varint_loop_err _ _ _ _ _ E2). }
  apply varint_sound in E2 as [_ E2]. eapply IH; [|done]. lia.
Qed.

(** Little-endian 32-bit length prefix and a framed record. *)
Definition le_pack (n : Z) : list byte :=
  [byte_of n; byte_of (n `div` 256); byte_of (n `div` 65536); byte_of (n `div` 16777216)].
Definition encode_record (l : list (Z * Z)) : list byte :=
  le_pack (Z.of_nat (length (encode_fields l))) ++ encode_fields l.

Lemma le_unpack_pack n : 0 ≤ n < 2 ^ 32 → le_unpack (le_pack n) = n.
Proof.
  intros Hn. unfold le_pack. cbn [le_unpack].
  assert (∀ z, bval (byte_of z) = z mod 256) as E.
  { intros z. rewrite <- (bval_byte_of (z mod 256)).
    - unfold byte_of. by rewrite Z.mod_mod.
    - apply Z.mod_pos_bound. lia. }
  rewrite !E.
  pose proof (Z.div_mod n 256 ltac:(lia)).
  pose proof (Z.div_mod (n `div` 256) 256 ltac:(lia)) as H2. rewrite Z.div_div in H2 by lia.
  pose proof (Z.div_mod (n `div` 65536) 256 ltac:(lia)) as H3. rewrite Z.div_div in H3 by lia.
  change (256 * 256) with 65536 in *. change (65536 * 256) with 16777216 in *.
  rewrite (Z.mod_small (n `div` 16777216)); [lia|].
  split; [apply Z.div_pos; lia|apply Z.div_lt_upper_bound; lia].
Qed.

Lemma next_record_encode l rest :
  Forall field_ok l → NoDup l.*1 → l ≠ [] → (length l ≤ 50)%nat →
  next_record (encode_record l ++ rest) = Ok (Some (list_to_map l, rest)).
Proof.
  intros Hok Hnd Hne Hlen. unfold next_record, encode_record. rewrite <- app_assoc.
  set (p := encode_fields l).
  assert (1 ≤ length p ≤ 1000)%nat as Hp.
  { subst p. pose proof (encode_fields_length l). destruct l as [|q l]; [done|].
    rewrite encode_fields_cons, !length_app in *. pose proof (encode_varint_length (q.1 * 8)). lia. }
  change (take 4 (le_pack (Z.of_nat (length p)) ++ p ++ rest)) with (le_pack (Z.of_nat (length p))).
  change (drop 4 (le_pack (Z.of_nat (length p)) ++ p ++ rest)) with (p ++ rest).
  change (length (le_pack (Z.of_nat (length p)))) with 4%nat. cbn [Nat.eqb negb].
  rewrite le_unpack_pack by lia. unfold MAX_RECORD_BYTES.
  destruct (Z.ltb_spec 0 (Z.of_nat (length p))); [|lia].
  destruct (Z.leb_spec (Z.of_nat (length p)) 1024); [|lia]. cbn [andb negb].
  rewrite Nat2Z.id, take_app_length, drop_app_length, Z.eqb_refl. cbn [negb].
  subst p. rewrite fields_encode by done. done.
Qed.

(** A record consumes at least five bytes of the stream. *)
Lemma next_record_shrinks stream f rest :
  next_record stream = Ok (Some (f, rest)) → (length rest < length stream)%nat.
Proof.
  unfold next_record. intros H.
  destruct (length (take 4 stream) =? 0)%nat eqn:E0; [done|].
  destruct (length (take 4 stream) =? 4)%nat eqn:E4; [|done]. cbn [negb] in H.
  case_match; [done|]. case_match; [done|].
  unfold mbind, result_bind in H. case_match; [|done]. injection H as <- <-.
  apply Nat.eqb_eq in E4. rewrite length_take in E4. rewrite !length_drop. lia.
Qed.

Lemma next_record_fuel stream e : next_record stream = Err e → exn_cls e ≠ OutOfFuel.
Proof.
  unfold next_record, mbind, result_bind. intros H.
  repeat case_match; simplify_eq/=; try done.
  unfold fields in *. eapply fields_loop_fuel; [|done]. lia.
Qed.

(** ** Rows *)

(** A pagemap entry as CRIU 4.2 writes it: compat_nr_pages is zero and the
    real page count is field 5. *)
Record entry := Entry { e_addr : Z; e_count : Z; e_flags : Z }.

Definition entry_fields (e : entry) : list (Z * Z) :=
  [(1, e_addr e); (2, 0); (4, e_flags e); (5, e_count e)].

Definition entry_ok (page_size : Z) (e : entry) : Prop :=
  (page_size | e_addr e) ∧ 1 ≤ e_count e ∧
  0 ≤ e_addr e ∧ e_addr e + e_count e * page_size ≤ UINT64_MAX ∧
  e_flags e ∈ [1; 3; 4; 6].

(** Entries in address order without overlap, from [lo] on. *)
Fixpoint entries_ok (page_size lo : Z) (l : list entry) : Prop :=
  match l with
  | [] => True
  | e :: l => lo ≤ e_addr e ∧ entry_ok page_size e ∧
              entries_ok page_size (e_addr e + e_count e * page_size) l
  end.

Definition has_bit (bit : Z) (e : entry) : bool := Z.testbit (e_flags e) bit.
Definition pages_of (p : entry → bool) (l : list entry) : Z := zsum (e_count <$> List.filter p l).

(** What the statistics mean: page counts by the flag bits (0 parent, 1 lazy,
    2 present). *)
Definition spec_stats (id : Z) (l : list entry) : stats :=
  {| total_pages := pages_of (fun _ => true) l;
     parent_pages := pages_of (has_bit 0) l;
     present_pages := pages_of (has_bit 2) l;
     lazy_eligible_pages := pages_of (has_bit 1) l;
     parent_lazy_pages := pages_of (fun e => has_bit 0 e && has_bit 1 e) l;
     entries := Z.of_nat (length l);
     pages_id := id |}.

Definition stats_add (a b : stats) : stats :=
  {| total_pages := total_pages a + total_pages b;
     parent_pages := parent_pages a + parent_pages b;
     present_pages := present_pages a + present_pages b;
     lazy_eligible_pages := lazy_eligible_pages a + lazy_eligible_pages b;
     parent_lazy_pages := parent_lazy_pages a + parent_lazy_pages b;
     entries := entries a + entries b;
     pages_id := pages_id a |}.

Definition encode_image (id : Z) (l : list entry) : list byte :=
  PAGEMAP_MAGIC ++ encode_record [(1, id)] ++ mjoin (encode_record ∘ entry_fields <$> l).

Lemma page_div ps n : 0 < ps → n * ps ≤ UINT64_MAX → (UINT64_MAX `div` ps <? n) = false.
Proof. intros. apply Z.ltb_ge. apply Z.div_le_lower_bound; lia. Qed.

Lemma check_row_ok ps lo e :
  0 < ps → lo ≤ e_addr e → entry_ok ps e →
  check_row ps lo (list_to_map (entry_fields e)) = Ok (e_addr e, e_count e, e_flags e).
Proof.
  intros Hps Hlo (Hdiv & Hc & Ha & Hend & Hfl). unfold check_row, entry_fields. simpl list_to_map.
  rewrite lookup_insert_eq, lookup_insert_ne, lookup_insert_eq by lia.
  rewrite bool_decide_eq_true_2 by (rewrite !dom_insert_L; set_solver). cbn [negb].
  rewrite !(lookup_insert_ne _ _ 5), lookup_insert_eq by lia. cbn [default].
  rewrite !(lookup_insert_ne _ _ 3), lookup_empty by lia. cbn [default from_option].
  cbn [Z.eqb orb negb]. change (Z.shiftl 1 32 - 1 <? 0) with false. cbn [orb].
  rewrite !(lookup_insert_ne _ _ 4), lookup_insert_eq by lia. cbn [default from_option id].
  destruct (Z.eqb_spec (e_count e) 0); [lia|].
  rewrite page_div by lia.
  assert (e_addr e mod ps = 0) as -> by (apply Z.mod_divide; [lia|done]).
  destruct (Z.ltb_spec (e_addr e) lo); [lia|].
  destruct (Z.ltb_spec (UINT64_MAX - e_count e * ps) (e_addr e)); [lia|]. cbn [orb negb Z.eqb].
  repeat (apply elem_of_cons in Hfl as [E|Hfl]; [rewrite E; reflexivity|]).
  by apply elem_of_nil in Hfl.
Qed.

Lemma add_row_spec e acc :
  e_flags e ∈ [1; 3; 4; 6] →
  add_row (e_count e) (e_flags e) acc = stats_add acc (spec_stats 0 [e]).
Proof.
  intros Hfl. unfold add_row, stats_add, spec_stats, add_if, pages_of, has_bit, zsum, PE_PARENT, PE_LAZY, PE_PRESENT.
  cbn [List.filter fmap list_fmap].
  repeat (apply elem_of_cons in Hfl as [E|Hfl];
          [rewrite E; eval_bits; cbn -[Z.add]; f_equal; lia|]).
  by apply elem_of_nil in Hfl.
Qed.

Lemma stats_add_assoc a b c : stats_add (stats_add a b) c = stats_add a (stats_add b c).
Proof. unfold stats_add; simpl; f_equal; lia. Qed.

Lemma pages_of_cons p e l : pages_of p (e :: l) = (if p e then e_count e else 0) + pages_of p l.
Proof. unfold pages_of. cbn [List.filter]. destruct (p e); [by rewrite fmap_cons|]. lia. Qed.

Lemma spec_stats_cons id e l : spec_stats id (e :: l) = stats_add (spec_stats id [e]) (spec_stats 0 l).
Proof.
  unfold spec_stats, stats_add; cbn [total_pages parent_pages
    present_pages lazy_eligible_pages parent_lazy_pages entries pages_id].
  rewrite !pages_of_cons. assert (∀ p, pages_of p [] = 0) as Hnil by done. rewrite !Hnil.
  f_equal; cbn [length]; lia.
Qed.

Lemma stats_add_nil acc : stats_add acc (spec_stats 0 []) = acc.
Proof. destruct acc. unfold stats_add, spec_stats, pages_of, zsum. cbn -[Z.add]. f_equal; lia. Qed.

Lemma entry_fields_ok ps e : 0 < ps → entry_ok ps e → Forall field_ok (entry_fields e).
Proof.
  intros Hps (_ & Hc & Ha & Hend & Hfl). rewrite UINT64_MAX_val in *.
  assert (0 ≤ e_flags e ≤ 6).
  { repeat (apply elem_of_cons in Hfl as [E|Hfl]; [lia|]). by apply elem_of_nil in Hfl. }
  unfold entry_fields, field_ok. rewrite UINT64_MAX_val.
  repeat (apply Forall_cons_2; [simpl; nia|]). apply Forall_nil_2.
Qed.

Lemma rows_loop_encode ps l lo acc fuel :
  0 < ps → entries_ok ps lo l → (length l < fuel)%nat →
  rows_loop fuel ps (mjoin (encode_record ∘ entry_fields <$> l)) lo acc
  = Ok (stats_add acc (spec_stats 0 l)).
Proof.
  intros Hps. revert lo acc fuel.
  induction l as [|e l IH]; intros lo acc [|fuel] Hok Hf; try (simpl in Hf; lia).
  { by rewrite stats_add_nil. }
  destruct Hok as (Hlo & He & Hok). rewrite fmap_cons. cbn [mjoin list_join rows_loop compose].
  rewrite next_record_encode; [|by eapply entry_fields_ok| |done|simpl; lia].
  2: { simpl. repeat (apply NoDup_cons; split; [set_solver by lia|]). apply NoDup_nil_2. }
  cbn [mbind result_bind]. rewrite check_row_ok by done. cbn [mbind result_bind].
  rewrite (IH _ (add_row (e_count e) (e_flags e) acc)) by (done || simpl in Hf; lia).
  rewrite add_row_spec by apply He. rewrite stats_add_assoc, <- spec_stats_cons. done.
Qed.

Lemma mjoin_records_length (l : list entry) :
  (length l ≤ length (mjoin (encode_record ∘ entry_fields <$> l)))%nat.
Proof.
  induction l as [|e l IH]; [done|].
  change (mjoin (encode_record ∘ entry_fields <$> e :: l))
    with (encode_record (entry_fields e) ++ mjoin (encode_record ∘ entry_fields <$> l)).
  rewrite length_app. unfold encode_record at 1. rewrite length_app.
  change (length (le_pack _)) with 4%nat. cbn [length]. lia.
Qed.

Lemma read_pagemap_stats_encode_lemma id l ps :
  0 < ps → Z.land ps (ps - 1) = 0 → 0 ≤ id < 2 ^ 32 → entries_ok ps 0 l →
  read_pagemap_stats (encode_image id l) ps = Ok (spec_stats id l).
Proof.
  intros Hps Hpow Hid Hok. unfold read_pagemap_stats.
  destruct (Z.leb_spec ps 0); [lia|]. rewrite Hpow. cbn [orb negb Z.eqb].
  unfold encode_image.
  change (take 8 (PAGEMAP_MAGIC ++ ?x)) with PAGEMAP_MAGIC.
  change (drop 8 (PAGEMAP_MAGIC ++ ?x)) with x.
  rewrite bool_decide_eq_true_2 by done. cbn [negb].
  rewrite next_record_encode; [| |by apply NoDup_singleton|done|simpl; lia].
  2: { apply Forall_singleton. unfold field_ok. rewrite UINT64_MAX_val. simpl. lia. }
  cbn [mbind result_bind list_to_map foldr fst snd].
  rewrite lookup_insert_eq. rewrite bool_decide_eq_true_2 by (rewrite dom_insert_L; set_solver).
  destruct (Z.ltb_spec (Z.shiftl 1 32 - 1) id) as [Hgt|_];
    [change (Z.shiftl 1 32) with (2 ^ 32) in Hgt; lia|]. cbn [negb orb].
  rewrite rows_loop_encode; [|done|done|].
  - unfold stats_add, spec_stats. do 2 f_equal.
  - pose proof (mjoin_records_length l). lia.
Qed.

(** ** Accepted images are consistent *)

(** The counters of an accepted prefix of rows ending at address [lo]. *)
Definition stats_inv (ps lo : Z) (r : stats) : Prop :=
  total_pages r = parent_pages r + present_pages r ∧
  0 ≤ parent_pages r ∧ 0 ≤ present_pages r ∧
  0 ≤ parent_lazy_pages r ≤ parent_pages r ∧
  parent_lazy_pages r ≤ lazy_eligible_pages r ≤ parent_lazy_pages r + present_pages r ∧
  0 ≤ entries r ≤ total_pages r ∧
  total_pages r * ps ≤ lo ≤ UINT64_MAX.

Lemma land_mask_cases f :
  Z.land f (Z.lnot 7) = 0 → Z.land f 5 ≠ 0 → Z.land f 1 = 0 ∨ Z.land f 4 = 0 →
  f = 1 ∨ f = 3 ∨ f = 4 ∨ f = 6.
Proof.
  intros H7 H5 Hx.
  assert (f = Z.land f 7) as E.
  { apply Z.bits_inj'. intros n Hn. pose proof (Z.bits_0 n) as Hb. rewrite <- H7 in Hb.
    rewrite Z.land_spec, Z.lnot_spec in Hb by done. rewrite Z.land_spec.
    destruct (Z.testbit f n), (Z.testbit 7 n); simpl in *; done. }
  change 7 with (Z.ones 3) in E. rewrite Z.land_ones in E by lia.
  pose proof (Z.mod_pos_bound f (2 ^ 3) ltac:(lia)) as Hb. rewrite <- E in Hb.
  change (2 ^ 3) with 8 in Hb.
  assert (f = 0 ∨ f = 1 ∨ f = 2 ∨ f = 3 ∨ f = 4 ∨ f = 5 ∨ f = 6 ∨ f = 7) as Hc by lia.
  clear -Hc H5 Hx.
  destruct Hc as [->|[->|[->|[->|[->|[->|[->| ->]]]]]]]; vm_compute in H5, Hx; try lia; naive_solver.
Qed.

Lemma check_row_sound ps lo row a c f :
  0 < ps → check_row ps lo row = Ok (a, c, f) → (∀ k v, row !! k = Some v → 0 ≤ v) →
  lo ≤ a ∧ 1 ≤ c ∧ (ps | a) ∧ a + c * ps ≤ UINT64_MAX ∧ (f = 1 ∨ f = 3 ∨ f = 4 ∨ f = 6).
Proof.
  intros Hps H Hpos. unfold check_row in H.
  destruct (row !! 1) as [a'|] eqn:E1; [|done]. destruct (row !! 2) as [c2|] eqn:E2; [|done].
  case_match; [done|]. case_match; [done|].
  case_match eqn:Hr; [done|]. case_match eqn:Hf; [done|].
  injection H as -> <- <-. bool_hyps.
  assert (0 ≤ default c2 (row !! 5)).
  { destruct (row !! 5) eqn:E5; simpl; eauto. }
  split_and!; [lia|lia|apply Z.mod_divide; lia|lia|].
  apply land_mask_cases; [done|done|].
  match goal with Hx : (_ && _) = false |- _ => apply andb_false_iff in Hx as [Hx|Hx] end;
    bool_hyps; auto.
Qed.

Lemma add_row_inv ps lo a c f r :
  0 < ps → 0 ≤ lo → stats_inv ps lo r →
  lo ≤ a → 1 ≤ c → a + c * ps ≤ UINT64_MAX → (f = 1 ∨ f = 3 ∨ f = 4 ∨ f = 6) →
  stats_inv ps (a + c * ps) (add_row c f r).
Proof.
  intros Hps Hlo (H1 & H2 & H3 & H4 & H5 & H6 & H7) Ha Hc Hend Hf.
  unfold stats_inv, add_row, add_if, PE_PARENT, PE_LAZY, PE_PRESENT.
  destruct Hf as [->|[->|[->| ->]]]; eval_bits; cbn -[Z.add Z.mul UINT64_MAX]; split_and!; try lia; nia.
Qed.

Lemma fields_loop_nonneg fuel data off m m' :
  (∀ k v, m !! k = Some v → 0 ≤ v) →
  fields_loop fuel data off m = Ok m' → ∀ k v, m' !! k = Some v → 0 ≤ v.
Proof.
  revert off m. induction fuel as [|fuel IH]; intros off m Hm H; simpl in H;
    (case_match; [|injection H as <-; done]); [done|].
  unfold mbind, result_bind in H.
  destruct (varint data off) as [[key off1]|]; [|done]. case_match; [done|].
  destruct (varint data off1) as [[v off2]|] eqn:E2; [|done].
  apply varint_sound in E2 as [[? _] _].
  eapply IH; [|done]. intros k x Hk. destruct (decide (Z.shiftr key 3 = k)) as [<-|Hne].
  - rewrite lookup_insert_eq in Hk. by injection Hk as <-.
  - rewrite lookup_insert_ne in Hk by done. eauto.
Qed.

Lemma next_record_nonneg stream row rest :
  next_record stream = Ok (Some (row, rest)) → ∀ k v, row !! k = Some v → 0 ≤ v.
Proof.
  unfold next_record, mbind, result_bind, fields. intros H.
  repeat case_match; simplify_eq/=. intros k v. eapply fields_loop_nonneg; [|done].
  intros ? ? Hl. by rewrite lookup_empty in Hl.
Qed.

Lemma rows_loop_inv fuel ps stream lo acc r :
  0 < ps → 0 ≤ lo → stats_inv ps lo acc → rows_loop fuel ps stream lo acc = Ok r →
  ∃ hi, stats_inv ps hi r ∧ pages_id r = pages_id acc.
Proof.
  intros Hps. revert stream lo acc. induction fuel as [|fuel IH]; intros stream lo acc Hlo Hinv H; [done|].
  cbn [rows_loop] in H. unfold mbind, result_bind in H.
  destruct (next_record stream) as [[[row rest]|]|] eqn:En; [|by injection H as <-; eauto|done].
  destruct (check_row ps lo row) as [[[a c] f]|] eqn:Ec; [|done].
  apply check_row_sound in Ec as (? & ? & ? & ? & ?); [|done|by eapply next_record_nonneg].
  eapply IH in H as (hi & Hr & Hid); [by exists hi| nia |].
  eapply add_row_inv; eauto.
Qed.

Lemma rows_loop_fuel fuel ps stream lo acc e :
  (length stream < fuel)%nat → rows_loop fuel ps stream lo acc = Err e → exn_cls e ≠ OutOfFuel.
Proof.
  revert stream lo acc. induction fuel as [|fuel IH]; intros stream lo acc Hf H; [lia|].
  cbn [rows_loop] in H. unfold mbind, result_bind in H.
  destruct (next_record stream) as [[[row rest]|]|e'] eqn:En; [|done|].
  - destruct (check_row ps lo row) as [[[a c] f]|e'] eqn:Ec.
    + apply next_record_shrinks in En. eapply IH; [|done]. lia.
    + injection H as <-. unfold check_row in Ec. repeat case_match; simplify_eq/=; done.
  - injection H as <-. by eapply next_record_fuel.
Qed.

Lemma read_pagemap_stats_inv img ps r :
  read_pagemap_stats img ps = Ok r → 0 < ps ∧ ∃ hi, stats_inv ps hi r.
Proof.
  unfold read_pagemap_stats, mbind, result_bind. intros H.
  destruct (Z.leb_spec ps 0); [done|].
  repeat (case_match; try discriminate H).
  eapply rows_loop_inv in H as (hi & Hinv & _); [by eauto|lia|lia|].
  unfold stats_inv; simpl. rewrite UINT64_MAX_val. lia.
Qed.

(** Per-task facts collected by the directory walk. *)
Lemma collect_loop_inv d ps images seen acc r :
  collect_loop d ps images seen acc = Ok r →
  ∃ ts, tasks r = tasks acc ++ ts ∧ length ts = length images ∧
    private_pages_bytes r = private_pages_bytes acc + zsum ts.*2 ∧
    sum_present r = sum_present acc + zsum (present_pages ∘ snd ∘ fst <$> ts) ∧
    sum_total r = sum_total acc + zsum (total_pages ∘ snd ∘ fst <$> ts) ∧
    Forall (fun t => t.2 = present_pages t.1.2 * ps ∧ 0 < ps ∧ ∃ hi, stats_inv ps hi t.1.2) ts ∧
    NoDup (pages_id ∘ snd ∘ fst <$> ts) ∧
    Forall (fun t => pages_id t.1.2 ∉ seen) ts.
Proof.
  revert seen acc. induction images as [|[name [img|]] images IH]; intros seen acc H; cbn [collect_loop] in H.
  - injection H as <-. exists []. rewrite app_nil_r. unfold zsum. simpl. split_and!; try done; try lia; constructor.
  - unfold mbind, result_bind in H.
    destruct (read_pagemap_stats img ps) as [task|] eqn:Er; [|done].
    apply read_pagemap_stats_inv in Er as [Hps Hinv].
    case_match eqn:Hseen; [done|].
    destruct (regular_size_of d (pages_name (pages_id task))) as [size|]; [|done].
    case_match eqn:Hsz; [done|]. bool_hyps.
    apply IH in H as (ts & Ht & Hl & Hp & Hs & Htt & Hf & Hnd & Hns).
    exists ((name, task, size) :: ts). cbn [tasks private_pages_bytes sum_present sum_total] in *.
    rewrite !fmap_cons. unfold zsum in *. cbn [foldr compose fst snd length].
    split_and!; [by rewrite Ht, <- app_assoc|lia|lia|unfold compose in *; lia|unfold compose in *; lia| | |].
    + apply Forall_cons_2; [simpl; split_and!; try lia; done|done].
    + apply NoDup_cons; split; [|done]. intros (t & Et & Hin)%list_elem_of_fmap.
      rewrite Forall_forall in Hns. specialize (Hns t Hin). unfold compose in Et. simpl in Et.
      apply Hns. rewrite <- Et. set_solver.
    + apply Forall_cons_2; [done|]. eapply Forall_impl; [exact Hns|]. set_solver.
  - done.
Qed.

Lemma collect_loop_images d ps images seen acc r :
  collect_loop d ps images seen acc = Ok r → pagemap_images r = pagemap_images acc.
Proof.
  revert seen acc. induction images as [|[name [img|]] images IH]; intros seen acc H; cbn [collect_loop] in H;
    [by injection H as <-| |done].
  unfold mbind, result_bind in H. repeat (case_match; try discriminate H). apply IH in H. done.
Qed.

(** ** Properties *)

(** Every value of an unsigned 64-bit field is read back from its
    canonical base-128 encoding, wherever the encoding sits in the buffer, and
    the returned offset is just behind it. *)
Theorem varint_roundtrip pre post v :
  0 ≤ v ≤ UINT64_MAX →
  varint (pre ++ encode_varint v ++ post) (length pre)
  = Ok (v, (length pre + length (encode_varint v))%nat).
Proof. apply varint_roundtrip_lemma. Qed.

Lemma varint_roundtrip_witness :
  varint ([Byte.xff] ++ encode_varint UINT64_MAX ++ [Byte.x07]) 1 = Ok (UINT64_MAX, 11%nat).
Proof. apply (varint_roundtrip [Byte.xff] [Byte.x07] UINT64_MAX). vm_compute. split; discriminate. Defined.

(** C27: the decoder computes what the statistics mean: for every sequence of
    page-aligned, ascending, disjoint entries with legal flags, the image CRIU
    4.2 writes for it decodes to the page counts by flag. *)
Theorem pagemap_image_decodes id l ps :
  0 < ps → Z.land ps (ps - 1) = 0 → 0 ≤ id < 2 ^ 32 → entries_ok ps 0 l →
  read_pagemap_stats (encode_image id l) ps = Ok (spec_stats id l).
Proof. apply read_pagemap_stats_encode_lemma. Qed.

Definition sample_entries : list entry := [Entry 4096 3 4; Entry 65536 2 1; Entry 73728 1 3].

Lemma pagemap_image_decodes_witness :
  read_pagemap_stats (encode_image 7 sample_entries) 4096
  = Ok (Stats 6 3 3 1 1 3 7).
Proof.
  transitivity (Ok (spec_stats 7 sample_entries)); [|reflexivity].
  apply (pagemap_image_decodes 7 sample_entries 4096); [lia|reflexivity|lia|].
  unfold sample_entries; cbn [entries_ok e_addr e_count e_flags]. unfold entry_ok. rewrite UINT64_MAX_val. simpl.
  repeat match goal with
  | |- _ ∧ _ => split
  | |- (_ | _) => first [by exists 1 | by exists 16 | by exists 18]
  | |- _ ∈ _ => rewrite !elem_of_cons; lia
  | _ => lia
  end.
Defined.

(** whatever bytes an image holds, an accepted image reports each page as
    exactly one of parent and present, lazy pages within those, and a total
    whose byte size fits the 64-bit address space. *)
Theorem read_pagemap_stats_sound img ps r :
  read_pagemap_stats img ps = Ok r →
  total_pages r = parent_pages r + present_pages r ∧
  0 ≤ parent_lazy_pages r ≤ parent_pages r ∧
  parent_lazy_pages r ≤ lazy_eligible_pages r ≤ total_pages r ∧
  0 ≤ entries r ≤ total_pages r ∧
  total_pages r * ps ≤ UINT64_MAX.
Proof.
  intros (Hps & hi & H1 & H2 & H3 & H4 & H5 & H6 & H7)%read_pagemap_stats_inv. lia.
Qed.

Lemma read_pagemap_stats_sound_witness :
  total_pages (spec_stats 7 sample_entries) * 4096 ≤ UINT64_MAX.
Proof.
  apply (read_pagemap_stats_sound (encode_image 7 sample_entries) 4096). vm_compute. reflexivity.
Defined.

(** Decoding terminates on every input: neither the image loop nor the
    field loop inside it ever exhausts the bound the model gives them (one
    turn per byte). *)
Theorem read_pagemap_stats_terminates img ps e :
  read_pagemap_stats img ps = Err e → exn_cls e ≠ OutOfFuel.
Proof.
  unfold read_pagemap_stats, mbind, result_bind. intros H.
  repeat (case_match; try (injection H as <-; done)).
  - eapply rows_loop_fuel; [|done]. lia.
  - simplify_eq. by eapply next_record_fuel.
Qed.

Lemma read_pagemap_stats_terminates_witness :
  exn_cls (Exn ValueError "Unexpected CRIU pagemap image magic") ≠ OutOfFuel.
Proof. apply (read_pagemap_stats_terminates [] 4096). reflexivity. Defined.

(** an accepted dump directory accounts for its payload exactly: one task
    per pagemap image, each with its own pages image whose length is its
    present pages times the page size, so that the private bytes reported are
    the present pages of all tasks. *)
Theorem collect_page_stats_sound d ps r :
  collect_page_stats d ps = Ok r →
  pagemap_images r = Z.of_nat (length (tasks r)) ∧
  NoDup (pages_id ∘ snd ∘ fst <$> tasks r) ∧
  private_pages_bytes r = sum_present r * ps ∧
  sum_present r ≤ sum_total r.
Proof.
  unfold collect_page_stats, mbind, result_bind. intros H.
  destruct (task_images d) as [|i rest] eqn:Ei; [done|].
  destruct (collect_loop d ps (i :: rest) ∅ _) as [r'|] eqn:E; [|done].
  destruct (sum_sizes _) as [total|]; [|done]. injection H as <-. simpl.
  pose proof (collect_loop_images _ _ _ _ _ _ E) as Him. simpl in Him.
  apply collect_loop_inv in E as (ts & Ht & Hl & Hp & Hs & Htt & Hf & Hnd & _). simpl in *.
  rewrite Him, Ht, <- Hl. split_and!; [done|done| |].
  - rewrite Hp, Hs. clear -Hf. induction Hf as [|t ts [Hx _] Hf IH]; [done|].
    rewrite !fmap_cons. unfold zsum, compose in *. cbn [foldr fst snd] in *. lia.
  - rewrite Hs, Htt. clear -Hf. induction Hf as [|t ts (_ & _ & hi & Hx) Hf IH]; [done|].
    destruct Hx as (? & ? & _). rewrite !fmap_cons. unfold zsum, compose in *. cbn [foldr fst snd] in *. lia.
Qed.

(** The directory of one dumped task: its pagemap and its three present pages. *)
Definition sample_dir : dump_dir :=
  [("inventory.img", Some []); ("pages-7.img", Some (replicate 12288 Byte.x00));
   ("pagemap-42.img", Some (encode_image 7 sample_entries)); ("pagemap-shmem-3.img", None)].

Lemma collect_page_stats_sound_witness :
  ∃ r, collect_page_stats sample_dir 4096 = Ok r ∧ private_pages_bytes r = sum_present r * 4096.
Proof.
  eexists. split; [vm_compute; reflexivity|].
  apply (collect_page_stats_sound sample_dir 4096). vm_compute. reflexivity.
Defined.

End PageStats.
