(* ===== verification/Registry.v ===== *)
(** * The checkpoint registry and its retention closure

    The registry ([SandboxController.registry]) maps checkpoint ids to entry
    dictionaries.  [entry] keeps the keys that the control flow reads; the
    timing telemetry of the entries is not modelled.  [retained_ids]
    ([async_checkpoint.py]) is the worklist that decides which entries a
    garbage collection may not drop. *)

From S2P Require Import Prelude PyDict Resources.

(** State of a [concurrent.futures.Future]: not done, or done with a result
    ([None]) or an exception. *)
Inductive fut := FPending | FDone (e : option exn).

Definition fut_done (f : fut) : bool := match f with FPending => false | FDone _ => true end.

(** One command to replay on top of the effective restore target. *)
Record replay_item := ReplayItem { r_action : string; r_command : string; r_worker_ops : list string }.

(** One registry entry.  [option] fields hold Python's [None]; a key that may
    be absent altogether is an [option] of its value type: [effective_restore_id]
    is written (possibly as [None]) only by lightweight checkpoints, and
    [memory_protocol]/[state]/[dispose_done] only by asynchronous ones. *)
Record entry := Entry {
  e_id : string;
  e_mem_path : string;
  e_parent_id : option string;
  e_prev_ckpt_id : option string;
  e_layers : list string;
  e_strategy : string;
  e_template_pid : option Z;
  e_async_dump_template_pid : option Z;
  e_dump_tree_pid : option Z;
  e_ns_init_pid : option Z;
  e_external_pidns : option bool;
  e_fixed_active_pid : option Z;
  e_has_future : bool;                      (* dump_future is not None *)
  e_dump_error : option string;
  e_upper_dirty : bool;
  e_prev_cross_pid : bool;
  e_prev_pid_mode : option string;
  e_effective_restore_id : option (option string);
  e_replay_cmds : list replay_item;
  e_memory_protocol : option string;
  e_resources : option Resources.contract;
}.

Abbreviation registry := (list (string * entry)).

Section retained.
Variables (futs : gmap string fut) (reg : registry).

(** [v.get("dump_future") is not None and not v["dump_future"].done()]: the
    future of an entry is kept in [futs] under the checkpoint id. *)
Definition entry_pending (rid : string) (e : entry) : bool :=
  e_has_future e && negb (fut_done (default (FDone None) (futs !! rid))).

Definition pending_ids : list string :=
  (List.filter (fun p => entry_pending p.1 p.2) reg).*1.

(** The keys the closure follows, in the order of the tuple
    [("parent_id", "prev_ckpt_id", "effective_restore_id")]. *)
Definition entry_links (e : entry) : list string :=
  option_list (e_parent_id e) ++ option_list (e_prev_ckpt_id e)
  ++ option_list (mjoin (e_effective_restore_id e)).

(** [registry.get(rid, {})] followed by the three [entry.get(key)]. *)
Definition links_of (rid : string) : list string :=
  match dget rid reg with Some e => entry_links e | None => [] end.

(** [if parent in registry and parent not in keep: keep.add; pending.append].
    [pending] is kept with the end of the Python list first. *)
Definition follow (parents : list string) (st : list string * gset string)
    : list string * gset string :=
  fold_left (fun '(pending, keep) parent =>
    if dhas parent reg && negb (bool_decide (parent ∈ keep))
    then (parent :: pending, {[parent]} ∪ keep) else (pending, keep)) parents st.

(** [while pending].  An id is pushed only when it enters [keep] from the
    registry, so the pushes are bounded by the registry
    ([retained_ids_terminates]). *)
Fixpoint retain_loop (fuel : nat) (pending : list string) (keep : gset string)
    : option (gset string) :=
  match pending with
  | [] => Some keep
  | rid :: pending =>
      match fuel with
      | O => None
      | S fuel =>
          let '(pending, keep) := follow (links_of rid) (pending, keep) in
          retain_loop fuel pending keep
      end
  end.

Definition initial_keep (requested : gset string) : gset string :=
  requested ∪ list_to_set pending_ids.

Definition retained_ids (requested : gset string) : option (gset string) :=
  let keep := initial_keep requested in
  retain_loop (length (elements keep) + length reg) (elements keep) keep.

(** ** The closure specification *)

(** [link a b]: entry [a] refers to [b], and [b] is registered. *)
Definition link (a b : string) : Prop := b ∈ links_of a ∧ b ∈ dkeys reg.

(** Ids not yet kept: the measure of the worklist. *)
Definition unkept (keep : gset string) : nat :=
  size (list_to_set (dkeys reg) ∖ keep : gset string).

Lemma unkept_add q keep : q ∈ dkeys reg → q ∉ keep → unkept ({[q]} ∪ keep) < unkept keep.
Proof.
  intros Hq Hn. unfold unkept. apply subset_size. split; [set_solver|]. intros Hs. specialize (Hs q).
  rewrite !elem_of_difference, elem_of_list_to_set in Hs. set_solver.
Qed.

(** What one turn does to the worklist and to the kept set. *)
Definition follow_post (parents pending : list string) (keep : gset string)
    (pending' : list string) (keep' : gset string) : Prop :=
  keep ⊆ keep' ∧ (∀ p, p ∈ pending → p ∈ pending') ∧
  (∀ p, p ∈ parents → p ∈ dkeys reg → p ∈ keep') ∧
  (∀ p, p ∈ keep' → p ∈ keep ∨ (p ∈ parents ∧ p ∈ dkeys reg ∧ p ∈ pending')) ∧
  (∀ p, p ∈ pending' → p ∈ pending ∨ (p ∈ parents ∧ p ∈ keep')) ∧
  length pending' + unkept keep' ≤ length pending + unkept keep.

Lemma follow_spec parents pending keep pending' keep' :
  follow parents (pending, keep) = (pending', keep') →
  follow_post parents pending keep pending' keep'.
Proof.
  unfold follow, follow_post. revert pending keep.
  induction parents as [|q parents IH]; intros pending keep H; cbn [fold_left] in H.
  { injection H as <- <-. split_and!; [done|done|by intros p ?%elem_of_nil|auto|auto|lia]. }
  setoid_rewrite elem_of_cons.
  destruct (dhas q reg && negb (bool_decide (q ∈ keep))) eqn:E.
  - apply andb_true_iff in E as [E1 E2]. unfold dhas in E1.
    apply bool_decide_eq_true in E1. apply negb_true_iff, bool_decide_eq_false in E2.
    apply IH in H as (H1 & H2 & H3 & H4 & H5 & H6).
    pose proof (unkept_add q keep E1 E2) as Hs. cbn [length] in H6.
    assert (q ∈ keep') as Hq by (apply H1, elem_of_union; left; by apply elem_of_singleton).
    assert (q ∈ pending') as Hq' by (apply H2; left).
    split_and!; [| | | | |lia].
    + intros x Hx. apply H1, elem_of_union. by right.
    + intros p Hp. apply H2. by right.
    + intros p [->|Hp] Hr; auto.
    + intros p [Hp|(? & ? & ?)]%H4; [|naive_solver].
      apply elem_of_union in Hp as [->%elem_of_singleton|?]; naive_solver.
    + intros p [Hp|(? & ?)]%H5; [|naive_solver].
      apply elem_of_cons in Hp as [->|?]; naive_solver.
  - apply IH in H as (H1 & H2 & H3 & H4 & H5 & H6).
    apply andb_false_iff in E.
    split_and!; [done|done| |naive_solver|naive_solver|done].
    intros p [->|Hp] Hr; [|auto].
    destruct E as [E|E].
    + unfold dhas in E. by apply bool_decide_eq_false in E.
    + apply negb_false_iff, bool_decide_eq_true in E. auto.
Qed.

Lemma retain_loop_spec (P : string → Prop) fuel pending keep r :
  retain_loop fuel pending keep = Some r →
  (∀ p, p ∈ pending → p ∈ keep) →
  (∀ a b, a ∈ keep → a ∉ pending → link a b → b ∈ keep) →
  (∀ a, a ∈ keep → P a) → (∀ a b, P a → link a b → P b) →
  keep ⊆ r ∧ (∀ a b, a ∈ r → link a b → b ∈ r) ∧ (∀ a, a ∈ r → P a).
Proof.
  revert pending keep. induction fuel as [|fuel IH]; intros [|rid pending] keep H Hpk Hcl HP Hst;
    cbn [retain_loop] in H; try done.
  1,2: injection H as <-; split_and!; [done| |done]; intros a b Ha; apply Hcl; [done|apply not_elem_of_nil].
  destruct (follow (links_of rid) (pending, keep)) as [pending' keep'] eqn:E.
  apply follow_spec in E as (H1 & H2 & H3 & H4 & H5 & _).
  assert (rid ∈ keep) as Hrid by (apply Hpk; by left).
  apply IH in H as (G1 & G2 & G3); [split_and!; [by etrans|done|done]| | | |done].
  - intros p [Hp|[_ Hp]]%H5; [|done]. apply H1, Hpk. by right.
  - intros a b [Ha|(_ & _ & Ha)]%H4 Hn Hl; [|done].
    destruct (decide (a = rid)) as [->|Hne].
    + destruct Hl as [Hl1 Hl2]. auto.
    + apply H1, (Hcl a); [done| |done]. intros [?|?]%elem_of_cons; [done|]. apply Hn. auto.
  - intros a [Ha|(Ha1 & Ha2 & _)]%H4; [auto|]. apply (Hst rid); [auto|done].
Qed.

Lemma retain_loop_fuel fuel pending keep :
  length pending + unkept keep ≤ fuel →
  is_Some (retain_loop fuel pending keep).
Proof.
  revert pending keep. induction fuel as [|fuel IH]; intros [|rid pending] keep H; cbn [retain_loop length] in *; eauto; [lia|].
  destruct (follow (links_of rid) (pending, keep)) as [pending' keep'] eqn:E.
  apply follow_spec in E as (_ & _ & _ & _ & _ & H6). apply IH. lia.
Qed.

Lemma retained_ids_total requested : is_Some (retained_ids requested).
Proof.
  apply retain_loop_fuel. apply Nat.add_le_mono_l.
  unfold unkept. etrans; [apply subseteq_size, subseteq_difference_l; reflexivity|].
  unfold dkeys. etrans; [apply size_list_to_set_le|]. by rewrite length_fmap.
Qed.

Lemma retained_ids_closure requested r x :
  retained_ids requested = Some r →
  x ∈ r ↔ ∃ a, a ∈ initial_keep requested ∧ rtc link a x.
Proof.
  intros H. unfold retained_ids in H.
  apply (retain_loop_spec (fun x => ∃ a, a ∈ initial_keep requested ∧ rtc link a x)) in H
    as (H1 & H2 & H3).
  - split; [apply H3|]. intros (a & Ha & Hr). apply H1 in Ha. clear -H2 Ha Hr.
    induction Hr; eauto.
  - intros p. by rewrite elem_of_elements.
  - intros a b Ha Hn. exfalso. apply Hn. by apply elem_of_elements.
  - intros a Ha. exists a. split; [done|constructor].
  - intros a b (c & Hc & Hr) Hl. exists c. split; [done|]. by eapply rtc_r.
Qed.

(** C26: [retained_ids] always returns, and what it returns is exactly the set of
    ids reachable from the requested ids and the ids with a pending writer
    along [parent_id], [prev_ckpt_id] and [effective_restore_id]: nothing that
    a kept entry depends on can be dropped, and nothing else is kept. *)
Theorem retained_ids_is_closure requested :
  ∃ keep, retained_ids requested = Some keep ∧
    ∀ x, x ∈ keep ↔ ∃ a, (a ∈ requested ∨ a ∈ pending_ids) ∧ rtc link a x.
Proof.
  destruct (retained_ids_total requested) as [keep Hk]. exists keep. split; [done|].
  intros x. rewrite (retained_ids_closure _ _ x Hk). unfold initial_keep.
  by setoid_rewrite elem_of_union; setoid_rewrite elem_of_list_to_set.
Qed.
End retained.
