(* ===== verification/Overlay.v ===== *)
(** * The layer-switching overlay interface

    The patched overlayfs (a kernel module, not part of this repository) is a
    parameter: [KernelOverlay] lists the system calls the runtime makes on it
    and what it relies on.  Its abstract state is the contents of the layer
    directories, the lower chain and upper directory of every mounted overlay,
    and the mount table; the laws say what the switch ioctl, [mkdir] and
    [rename] do to that state when they succeed, and that they change nothing
    when they fail.  The option string of the ioctl is built as in
    [SandboxController._apply_overlay_switch]. *)

From S2P Require Import Prelude PyStr Hoare.
From Stdlib Require Import Ascii.

(** ** ioctl number and options *)

(** [_iow(type_char, nr, size)]. *)
Definition iow (type_char : ascii) (nr size : Z) : Z :=
  Z.lor (Z.lor (Z.lor (Z.shiftl 1 30) (Z.shiftl size 16))
               (Z.shiftl (Z.of_nat (nat_of_ascii type_char)) 8)) nr.

(** [ctypes.sizeof(OvlCheckpointArgs)]: a 64-bit pointer and a 32-bit length,
    padded to the alignment of the pointer. *)
Definition sizeof_OvlCheckpointArgs : Z := 16.
Definition OVL_IOCTL_CHECKPOINT_CMD : Z := iow "O" 1 sizeof_OvlCheckpointArgs.

Definition switch_options (layers : list string) (upper work kind : string) : string :=
  "lowerdir=" +:+ join ":" layers +:+ ",upperdir=" +:+ upper
  +:+ ",workdir=" +:+ work +:+ ",ovl_kind=" +:+ kind.

(** How the kernel reads the options back: comma-separated keys, the lower
    directories separated by colons. *)
Definition option_value (key part : string) : option string :=
  if startswith part key then Some (sdrop (String.length key) part) else None.

Definition parse_switch (opts : string) : option (list string * string * string * string) :=
  match split_char "," opts with
  | [l; u; w; k] =>
      l ← option_value "lowerdir=" l;
      u ← option_value "upperdir=" u;
      w ← option_value "workdir=" w;
      k ← option_value "ovl_kind=" k;
      Some (split_char ":" l, u, w, k)
  | _ => None
  end.

(** A path the option syntax can carry. *)
Definition path_ok (p : string) : Prop := has_char "," p = false ∧ has_char ":" p = false.

Lemma option_value_app key v : option_value key (key +:+ v) = Some v.
Proof. unfold option_value. by rewrite startswith_app, sdrop_app. Qed.

Lemma parse_switch_options layers upper work kind :
  layers ≠ [] → Forall path_ok layers → path_ok upper → path_ok work → path_ok kind →
  parse_switch (switch_options layers upper work kind) = Some (layers, upper, work, kind).
Proof.
  intros Hne Hl [Hu _] [Hw _] [Hk _]. unfold parse_switch, switch_options.
  assert (has_char "," (join ":" layers) = false) as Hj.
  { apply has_char_join; [done|]. eapply Forall_impl; [exact Hl|]. by intros p []. }
  change (",upperdir=" +:+ ?x) with (String "," ("upperdir=" +:+ x)).
  change (",workdir=" +:+ ?x) with (String "," ("workdir=" +:+ x)).
  change (",ovl_kind=" +:+ ?x) with (String "," ("ovl_kind=" +:+ x)).
  rewrite <- string_app_assoc, split_char_app by (rewrite has_char_app, Hj; done).
  rewrite <- string_app_assoc, split_char_app by (rewrite has_char_app, Hu; done).
  rewrite <- string_app_assoc, split_char_app by (rewrite has_char_app, Hw; done).
  rewrite split_char_none by (rewrite has_char_app, Hk; done).
  rewrite !option_value_app. simpl.
  rewrite split_char_join; [done|done|]. eapply Forall_impl; [exact Hl|]. by intros p [].
Qed.

(** ** Layers and views *)

(** A layer directory: path to file content; a whiteout hides lower layers. *)
Abbreviation layer := (gmap string (option string)).

Fixpoint view_lookup (ls : list layer) (k : string) : option string :=
  match ls with
  | [] => None
  | l :: ls => match l !! k with Some v => v | None => view_lookup ls k end
  end.

Record mount := Mount { m_lowers : list string; m_upper : string }.

Record kstate := KState {
  k_dirs : gmap string layer;          (* layer directories *)
  k_ovl : gmap Z mount;                (* overlay state behind an open mount fd *)
}.

Definition dir_content (k : kstate) (p : string) : layer := default ∅ (k_dirs k !! p).

(** What a process sees at the mount behind [fd]. *)
Definition view (k : kstate) (m : mount) : string → option string :=
  view_lookup (dir_content k <$> m_upper m :: m_lowers m).
Definition view_at (k : kstate) (fd : Z) : string → option string :=
  match k_ovl k !! fd with Some m => view k m | None => fun _ => None end.

(** [os.makedirs(p, exist_ok=True)] on the abstract state. *)
Definition spec_makedirs (p : string) (k : kstate) : kstate :=
  match k_dirs k !! p with
  | Some _ => k
  | None => KState (<[p := ∅]> (k_dirs k)) (k_ovl k)
  end.

(** [os.rename(a, b)] of a layer directory to a new name: mounts that use the
    directory keep using it under its new name. *)
Definition rename_path (a b p : string) : string := if decide (p = a) then b else p.
Definition rename_mount (a b : string) (m : mount) : mount :=
  Mount (rename_path a b <$> m_lowers m) (rename_path a b (m_upper m)).
Definition spec_rename (a b : string) (k : kstate) : kstate :=
  match k_dirs k !! a with
  | Some l => KState (<[b := l]> (delete a (k_dirs k))) (rename_mount a b <$> k_ovl k)
  | None => k
  end.

(** The switch: a checkpoint pushes the frozen upper onto the given lower
    chain, a restore replaces the chain; both install the new upper. *)
Definition spec_switch (fd : Z) (lowers : list string) (upper kind : string) (k : kstate) : kstate :=
  match k_ovl k !! fd with
  | Some m =>
      let lowers' := if decide (kind = "ckpt") then m_upper m :: lowers else lowers in
      KState (k_dirs k) (<[fd := Mount lowers' upper]> (k_ovl k))
  | None => k
  end.

Class KernelOverlay (W : Type) := {
  kabs : W → kstate;
  os_makedirs : string → M W unit;
  os_rename : string → string → M W unit;
  os_ioctl : Z → Z → string → M W unit;
  (** Directories that exist keep their content; a failed call changes nothing. *)
  law_makedirs p w : wp (os_makedirs p)
      (fun _ w' => kabs w' = spec_makedirs p (kabs w)) (fun _ w' => kabs w' = kabs w) w;
  law_rename a b w : k_dirs (kabs w) !! b = None →
    wp (os_rename a b)
      (fun _ w' => is_Some (k_dirs (kabs w) !! a) ∧ kabs w' = spec_rename a b (kabs w))
      (fun _ w' => kabs w' = kabs w) w;
  law_switch fd lowers upper work kind w :
    lowers ≠ [] → Forall path_ok lowers → path_ok upper → path_ok work → path_ok kind →
    wp (os_ioctl fd OVL_IOCTL_CHECKPOINT_CMD (switch_options lowers upper work kind))
      (fun _ w' => kabs w' = spec_switch fd lowers upper kind (kabs w))
      (fun _ w' => kabs w' = kabs w) w;
}.

(** ** Facts about views *)

Lemma view_empty_upper (ls : list layer) k : view_lookup (∅ :: ls) k = view_lookup ls k.
Proof. simpl. by rewrite lookup_empty. Qed.

Lemma dir_content_ext k k' (ps : list string) :
  (∀ p, p ∈ ps → k_dirs k' !! p = k_dirs k !! p) →
  dir_content k' <$> ps = dir_content k <$> ps.
Proof.
  intros H. apply list_fmap_ext. intros i p Hp. unfold dir_content. rewrite H; [done|].
  by eapply list_elem_of_lookup_2.
Qed.

Lemma view_lookup_dirs_ext k k' (ps : list string) x :
  (∀ p, p ∈ ps → k_dirs k' !! p = k_dirs k !! p) →
  view_lookup (dir_content k' <$> ps) x = view_lookup (dir_content k <$> ps) x.
Proof. intros H. by rewrite (dir_content_ext k k'). Qed.

Lemma makedirs_exists p k : is_Some (k_dirs (spec_makedirs p k) !! p).
Proof. unfold spec_makedirs. case_match; simpl; [eauto|]. rewrite lookup_insert_eq. eauto. Qed.

Lemma makedirs_keeps p q k : is_Some (k_dirs k !! q) → is_Some (k_dirs (spec_makedirs p k) !! q).
Proof.
  unfold spec_makedirs. case_match; simpl; [done|]. intros Hq.
  destruct (decide (p = q)) as [->|?]; [rewrite lookup_insert_eq; eauto|by rewrite lookup_insert_ne].
Qed.

(** ** A concrete host

    An executable instance of the interface: the abstract state itself, with a
    list of mount points beside it.  It is used to run the model on concrete
    inputs and shows that the laws can hold. *)
Definition simw : Type := (kstate * list string)%type.

Definition sim_makedirs (p : string) : M simw unit := fun s => (Ok tt, (spec_makedirs p s.1, s.2)).
Definition sim_rename (a b : string) : M simw unit := fun s =>
  if bool_decide (is_Some (k_dirs s.1 !! a)) && bool_decide (k_dirs s.1 !! b = None)
  then (Ok tt, (spec_rename a b s.1, s.2)) else (raise OSError "rename", s).
Definition sim_ioctl (fd cmd : Z) (opts : string) : M simw unit := fun s =>
  match parse_switch opts with
  | Some (lowers, upper, _, kind) =>
      if (cmd =? OVL_IOCTL_CHECKPOINT_CMD)%Z
      then (Ok tt, (spec_switch fd lowers upper kind s.1, s.2)) else (raise OSError "ENOTTY", s)
  | None => (raise OSError "EINVAL", s)
  end.

#[export] Program Instance sim_kernel : KernelOverlay simw := {|
  kabs := fst; os_makedirs := sim_makedirs; os_rename := sim_rename; os_ioctl := sim_ioctl |}.
Next Obligation. done. Qed.
Next Obligation.
  intros a b w Hb. unfold wp, sim_rename. rewrite (bool_decide_eq_true_2 _ Hb), andb_true_r.
  case_bool_decide; done.
Qed.
Next Obligation.
  intros. unfold wp, sim_ioctl. rewrite parse_switch_options by done. by rewrite Z.eqb_refl.
Qed.
