(* ===== verification/RootOverlay.v ===== *)
(** * Whole-root rollback coverage ([backends/deltabox/gsd/root_overlay.py])

    Every covered system directory is its own overlay with its own lower
    chain.  A checkpoint freezes the active upper into the chain, a restore
    switches to the chain saved under the id.  The main theorem is that a
    restore brings back, file by file, the view of the directory at the
    checkpoint, whatever happened in between. *)

From S2P Require Import Prelude Hoare PyStr PyDict Overlay.
From Stdlib Require Import Ascii.

(** ** Mounting *)

(** The external [mount]/[umount] commands and directory descriptors. *)
Class MountHost (W : Type) `{!KernelOverlay W} := {
  kmounted : W → list string;                     (* mount points, newest first *)
  os_run : list string → M W Z;                   (* return code *)
  os_open_dir : string → M W Z;
  os_close : Z → M W unit;
  law_makedirs_mounted p w :
    wp (os_makedirs p) (fun _ w' => kmounted w' = kmounted w)
       (fun e w' => exn_cls e = OSError ∧ kmounted w' = kmounted w) w;
  law_mount args p w :
    wp (os_run ("mount" :: args ++ [p]))
       (fun rc w' => kmounted w' = if decide (rc = 0%Z) then p :: kmounted w else kmounted w)
       (fun e w' => exn_cls e = OSError ∧ kmounted w' = kmounted w) w;
  law_umount p w :
    wp (os_run ["umount"; "-l"; p])
       (fun _ w' => kmounted w' = list_remove_first p (kmounted w))
       (fun e w' => exn_cls e = OSError ∧ kmounted w' = kmounted w) w;
  law_open p w : wp (os_open_dir p) (fun _ w' => kmounted w' = kmounted w)
                    (fun e w' => exn_cls e = OSError ∧ kmounted w' = kmounted w) w;
  law_close fd w : wp (os_close fd) (fun _ w' => kmounted w' = kmounted w)
                    (fun e w' => exn_cls e = OSError ∧ kmounted w' = kmounted w) w;
}.

Module RootOverlay.

Definition OVL_OPTS : string := "index=off,metacopy=off,redirect_dir=off".
Definition DEFAULT_TARGETS : list string := ["/usr"; "/etc"; "/var"; "/opt"].
Definition DEFAULT_EXCLUDES : list string :=
  ["/proc"; "/sys"; "/dev"; "/run"; "/tmp"; "/var/log"; "/var/run"].

Record ro := Ro {
  target : string; tag : string; root : string; stash : string; merged : string;
  fd : option Z;
  counter : nat;                                  (* self._n *)
  lower_chain : list string;
  upper : string; work : string;
  snapshots : list (string * list string);
}.

(** [RootOverlay.__init__]. *)
Definition init (target layers_root : string) : ro :=
  let target := normpath target in
  let t := replace_char "/"%char "_"%char (strip_char "/"%char target) in
  let tag := if bool_decide (t = "") then "root" else t in
  let root := path_join layers_root tag in
  Ro target tag root (path_join root "stash") (path_join root "merged") None 0 [] "" "" [].

Definition set_fd (f : option Z) (o : ro) : ro :=
  Ro (target o) (tag o) (root o) (stash o) (merged o) f (counter o) (lower_chain o) (upper o) (work o) (snapshots o).
Definition set_counter (n : nat) (o : ro) : ro :=
  Ro (target o) (tag o) (root o) (stash o) (merged o) (fd o) n (lower_chain o) (upper o) (work o) (snapshots o).
Definition set_stack (l : list string) (u w : string) (o : ro) : ro :=
  Ro (target o) (tag o) (root o) (stash o) (merged o) (fd o) (counter o) l u w (snapshots o).
Definition set_snapshots (s : list (string * list string)) (o : ro) : ro :=
  Ro (target o) (tag o) (root o) (stash o) (merged o) (fd o) (counter o) (lower_chain o) (upper o) (work o) s.

(** The directories a fresh counter value names. *)
Definition upper_path (o : ro) (n : nat) : string := path_join (root o) ("u" +:+ pretty n).
Definition work_path (o : ro) (n : nat) : string := path_join (root o) ("w" +:+ pretty n).

Section ops.
Context {W : Type} `{!KernelOverlay W} `{!MountHost W}.

Definition get_ro : M (ro * W) ro := fun s => (Ok s.1, s).
Definition mod_ro (f : ro → ro) : M (ro * W) unit := fun s => (Ok tt, (f s.1, s.2)).
Definition sys {A} (m : M W A) : M (ro * W) A := fun s => let '(r, w) := m s.2 in (r, (s.1, w)).

(** [_fresh] *)
Definition fresh : M (ro * W) (string * string) :=
  _ ← mod_ro (fun o => set_counter (S (counter o)) o);
  o ← get_ro;
  let u := upper_path o (counter o) in
  let w := work_path o (counter o) in
  _ ← sys (os_makedirs u);
  _ ← sys (os_makedirs w);
  mret (u, w).

(** [_switch]: without an open descriptor [fcntl.ioctl(None, ...)] raises. *)
Definition switch (lowers : list string) (u w kind : string) : M (ro * W) unit :=
  o ← get_ro;
  match fd o with
  | Some f => sys (os_ioctl f OVL_IOCTL_CHECKPOINT_CMD (switch_options lowers u w kind))
  | None => mraise TypeError "argument must be an int, or have a fileno() method"
  end.

(** [mount]: each failing step undoes the mounts made before it. *)
Definition do_mount : M (ro * W) unit :=
  o ← get_ro;
  _ ← sys (os_makedirs (stash o));
  _ ← sys (os_makedirs (merged o));
  '(u0, w0) ← fresh;
  rc ← sys (os_run (["mount"; "--bind"; target o] ++ [stash o]));
  _ ← mwhen (negb (rc =? 0)%Z) (mraise RuntimeError ("stash bind " +:+ target o));
  rc ← sys (os_run (["mount"; "-t"; "overlay"; "overlay"; "-o";
         "lowerdir=" +:+ stash o +:+ ",upperdir=" +:+ u0 +:+ ",workdir=" +:+ w0 +:+ "," +:+ OVL_OPTS]
         ++ [merged o]));
  _ ← mwhen (negb (rc =? 0)%Z)
        (_ ← sys (os_run ["umount"; "-l"; stash o]);
         mraise RuntimeError ("overlay mount " +:+ target o));
  rc ← sys (os_run (["mount"; "--bind"; merged o] ++ [target o]));
  _ ← mwhen (negb (rc =? 0)%Z)
        (_ ← sys (os_run ["umount"; "-l"; merged o]);
         _ ← sys (os_run ["umount"; "-l"; stash o]);
         mraise RuntimeError ("bind merged over " +:+ target o));
  f ← sys (os_open_dir (merged o));
  mod_ro (fun o => set_stack [stash o] u0 w0 (set_fd (Some f) o)).

(** [checkpoint] *)
Definition checkpoint (ckpt_id : string) : M (ro * W) unit :=
  '(nu, nw) ← fresh;
  o ← get_ro;
  _ ← switch (lower_chain o) nu nw "ckpt";
  mod_ro (fun o =>
    let chain := upper o :: lower_chain o in
    set_snapshots (dset ckpt_id chain (snapshots o)) (set_stack chain nu nw o)).

(** [restore] *)
Definition restore (ckpt_id : string) : M (ro * W) unit :=
  o ← get_ro;
  match dget ckpt_id (snapshots o) with
  | None => mraise KeyError (target o +:+ ": no checkpoint")
  | Some chain =>
      '(nu, nw) ← fresh;
      _ ← switch chain nu nw "restore";
      mod_ro (set_stack chain nu nw)
  end.

Definition ext_mount_map_args (o : ro) : list string :=
  mjoin ((fun p => ["--ext-mount-map"; p +:+ ":" +:+ p]) <$> [merged o; target o]).

(** [teardown] *)
Definition teardown : M (ro * W) unit :=
  o ← get_ro;
  _ ← match fd o with
      | Some f =>
          _ ← mcatch (sys (os_close f))
                (fun e => if decide (exn_cls e = OSError) then mret tt else mthrow e);
          mod_ro (set_fd None)
      | None => mret tt
      end;
  mfor [target o; merged o; stash o] (fun p => _ ← sys (os_run ["umount"; "-l"; p]); mret tt).

(** ** The set of covered directories ([RootOverlaySet]) *)

(** [RootOverlaySet.__init__]; [isdir] is [os.path.isdir] at that time. *)
Definition set_init (isdir : string → bool) (targets : option (list string)) (layers_root : string)
    : list ro :=
  let chosen := default DEFAULT_TARGETS targets in
  let targets := List.filter (fun t => negb (mem t DEFAULT_EXCLUDES) && isdir t) (normpath <$> chosen) in
  (fun t => init t layers_root) <$> targets.

(** [for o in self.overlays: o.<op>()]: stops at the first exception. *)
Fixpoint each (op : M (ro * W) unit) (os : list ro) (w : W) : result unit * (list ro * W) :=
  match os with
  | [] => (Ok tt, ([], w))
  | o :: os =>
      match op (o, w) with
      | (Ok _, (o, w)) => let '(r, (os, w)) := each op os w in (r, (o :: os, w))
      | (Err e, (o, w)) => (Err e, (o :: os, w))
      end
  end.

(** [mount_all]: on an exception the overlays mounted so far are torn down,
    last first, and the exception propagates.  The result carries the mounted
    overlays, newest first. *)
Fixpoint mount_loop (todo done_ : list ro) (w : W) : result unit * (list ro * W) :=
  match todo with
  | [] => (Ok tt, (done_, w))
  | o :: todo =>
      match do_mount (o, w) with
      | (Ok _, (o, w)) => mount_loop todo (o :: done_) w
      | (Err e, (_, w)) =>
          match each teardown done_ w with
          | (Ok _, (ds, w)) => (Err e, (ds, w))
          | (Err e', (ds, w)) => (Err e', (ds, w))
          end
      end
  end.
Definition mount_all (layers_root : string) (os : list ro) (w : W) : result unit * (list ro * W) :=
  match os_makedirs layers_root w with
  | (Ok _, w) => mount_loop os [] w
  | (Err e, w) => (Err e, ([], w))
  end.

Definition set_checkpoint (ckpt_id : string) := each (checkpoint ckpt_id).
Definition set_has_checkpoint (ckpt_id : string) (os : list ro) : bool :=
  negb (bool_decide (os = [])) && forallb (fun o => dhas ckpt_id (snapshots o)) os.
Definition set_restore (ckpt_id : string) := each (restore ckpt_id).
Definition criu_ext_mount_map_args (os : list ro) : list string := mjoin (ext_mount_map_args <$> os).
Definition set_teardown (os : list ro) := each teardown (rev os).
End ops.

(** ** The invariant of one mounted overlay *)

Definition frozen (o : ro) : list string := lower_chain o ++ mjoin (snapshots o).*2.

Record inv (f : Z) (o : ro) (k : kstate) : Prop := {
  inv_fd : fd o = Some f;
  inv_mount : k_ovl k !! f = Some (Mount (lower_chain o) (upper o));
  inv_root : path_ok (root o);
  inv_chain : lower_chain o ≠ [] ∧ Forall (fun s => s.2 ≠ []) (snapshots o);
  inv_frozen p : p ∈ frozen o → path_ok p ∧ is_Some (k_dirs k !! p) ∧ p ≠ upper o;
  inv_upper : path_ok (upper o) ∧ is_Some (k_dirs k !! upper o);
  inv_fresh n : counter o < n →
    k_dirs k !! upper_path o n = None ∧ k_dirs k !! work_path o n = None;
}.

(** What an id restores to: the view of its saved chain. *)
Definition saved_view (o : ro) (k : kstate) (id : string) : option (string → option string) :=
  (fun chain => view_lookup (dir_content k <$> chain)) <$> dget id (snapshots o).

Definition views_agree (a b : option (string → option string)) : Prop :=
  match a, b with
  | Some v, Some v' => ∀ x, v x = v' x
  | None, None => True
  | _, _ => False
  end.

Lemma path_ok_join r a n :
  path_ok r → (a = "u" ∨ a = "w") → path_ok (path_join r (a +:+ pretty (n : nat))).
Proof.
  intros [H1 H2] Ha. unfold path_ok, path_join.
  assert (∀ c, is_digit c = false → has_char c (pretty n) = false) as Hd.
  { intros c Hc. apply digits_no_char; [done|apply pretty_nat_digits]. }
  destruct Ha as [->| ->]; repeat case_match; rewrite ?has_char_app, ?H1, ?H2, !Hd by done; done.
Qed.

Lemma upper_path_inj o n m : upper_path o n = upper_path o m → n = m.
Proof.
  unfold upper_path. intros H%path_join_inj; [|done|done]. apply string_app_inj_l in H. by apply (inj pretty).
Qed.
Lemma work_path_inj o n m : work_path o n = work_path o m → n = m.
Proof.
  unfold work_path. intros H%path_join_inj; [|done|done]. apply string_app_inj_l in H. by apply (inj pretty).
Qed.
Lemma upper_work_ne o n m : upper_path o n ≠ work_path o m.
Proof. unfold upper_path, work_path. intros H%path_join_inj; done. Qed.

(** Only new empty directories named by the next counter value appear. *)
Definition grown (o : ro) (k k' : kstate) : Prop :=
  k_ovl k' = k_ovl k ∧
  ∀ p, k_dirs k' !! p = k_dirs k !! p ∨
       (k_dirs k !! p = None ∧ k_dirs k' !! p = Some ∅ ∧
        (p = upper_path o (S (counter o)) ∨ p = work_path o (S (counter o)))).

Lemma grown_makedirs o k p :
  p = upper_path o (S (counter o)) ∨ p = work_path o (S (counter o)) →
  ∀ k0, grown o k0 k → grown o k0 (spec_makedirs p k).
Proof.
  intros Hp k0 [H1 H2]. unfold spec_makedirs. destruct (k_dirs k !! p) eqn:E; [done|].
  split; [done|]. intros q. simpl. destruct (decide (p = q)) as [<-|Hne].
  - rewrite lookup_insert_eq. destruct (H2 p) as [Hq|(_ & Hq & _)]; [|congruence].
    right. rewrite <- Hq. done.
  - rewrite lookup_insert_ne by done. apply H2.
Qed.

Lemma grown_existing o k k' p : grown o k k' → is_Some (k_dirs k !! p) → k_dirs k' !! p = k_dirs k !! p.
Proof. intros [_ H] [l Hl]. destruct (H p) as [?|[? _]]; congruence. Qed.

Lemma inv_grown f o k k' :
  inv f o k → grown o k k' → inv f (set_counter (S (counter o)) o) k'.
Proof.
  intros [] Hg. pose proof Hg as [Ho Hd]. constructor; simpl; try done.
  - by rewrite Ho.
  - intros p Hp. destruct (inv_frozen0 p Hp) as (? & ? & ?). by rewrite (grown_existing o k).
  - destruct inv_upper0. by rewrite (grown_existing o k).
  - intros n Hn. unfold upper_path, work_path in *; simpl.
    destruct (inv_fresh0 n ltac:(lia)) as [Hu Hw].
    split.
    + destruct (Hd (upper_path o n)) as [E|(_ & _ & [E|E])]; unfold upper_path in *; [congruence| |].
      * apply upper_path_inj in E. lia.
      * by apply upper_work_ne in E.
    + destruct (Hd (work_path o n)) as [E|(_ & _ & [E|E])]; unfold work_path in *; [congruence| |].
      * symmetry in E. by apply upper_work_ne in E.
      * apply work_path_inj in E. lia.
Qed.

Lemma saved_view_ext o k k' id :
  (∀ p, p ∈ mjoin (snapshots o).*2 → k_dirs k' !! p = k_dirs k !! p) →
  views_agree (saved_view o k id) (saved_view o k' id).
Proof.
  intros H. unfold saved_view. destruct (dget id (snapshots o)) as [chain|] eqn:E; [|done].
  intros x. symmetry. apply view_lookup_dirs_ext. intros p Hp. apply H.
  apply dget_Some_elem in E. apply list_elem_of_join. exists chain. split; [done|].
  change chain with (id, chain).2. by apply list_elem_of_fmap_2.
Qed.

Section proofs.
Context {W : Type} `{!KernelOverlay W}.
Implicit Types (o : ro) (w : W).

Lemma wp_sys {A} (m : M W A) (Q : A → ro * W → Prop) (E : exn → ro * W → Prop) o w :
  wp m (fun a w' => Q a (o, w')) (fun e w' => E e (o, w')) w → wp (sys m) Q E (o, w).
Proof. unfold wp, sys. simpl. by destruct (m w) as [[a|e] w']. Qed.

Lemma fresh_spec f o w :
  inv f o (kabs w) →
  wp fresh
    (fun p s => s.1 = set_counter (S (counter o)) o ∧ grown o (kabs w) (kabs s.2) ∧
       p = (upper_path o (S (counter o)), work_path o (S (counter o))) ∧
       is_Some (k_dirs (kabs s.2) !! p.1))
    (fun _ s => s.1 = set_counter (S (counter o)) o ∧ grown o (kabs w) (kabs s.2)) (o, w).
Proof.
  intros Hinv. unfold fresh.
  assert (grown o (kabs w) (kabs w)) as Hrefl by (split; [done|]; intros p; by left).
  set (o' := set_counter (S (counter o)) o).
  apply wp_bind. unfold wp at 1, mod_ro. cbn [fst snd]. fold o'.
  apply wp_bind. unfold wp at 1, get_ro. cbn [fst].
  change (counter o') with (S (counter o)).
  change (upper_path o' ?n) with (upper_path o n). change (work_path o' ?n) with (work_path o n).
  apply wp_bind, wp_sys. eapply wp_mono; [apply law_makedirs| |].
  2: { intros e w' Hw'. cbn. rewrite Hw'. done. }
  intros [] w1 H1. apply wp_bind, wp_sys. eapply wp_mono; [apply law_makedirs| |]; cbn.
  - intros [] w2 H2. unfold wp, mret, M_ret. cbn. split_and!; [done| |done|].
    + rewrite H2, H1. apply grown_makedirs; [by right|]. apply grown_makedirs; [by left|done].
    + rewrite H2, H1. apply makedirs_keeps, makedirs_exists.
  - intros e w2 H2. rewrite H2, H1. split; [done|]. apply grown_makedirs; [by left|done].
Qed.

Lemma switch_spec f o w lowers u wk kind :
  fd o = Some f → lowers ≠ [] → Forall path_ok lowers → path_ok u → path_ok wk → path_ok kind →
  wp (switch lowers u wk kind)
    (fun _ s => s.1 = o ∧ kabs s.2 = spec_switch f lowers u kind (kabs w))
    (fun _ s => s.1 = o ∧ kabs s.2 = kabs w) (o, w).
Proof.
  intros Hf Hne Hl Hu Hw Hk. unfold switch. apply wp_bind. unfold wp at 1, get_ro. cbn [fst].
  rewrite Hf. apply wp_sys. eapply wp_mono; [by apply law_switch| |]; by cbn.
Qed.

(** The fresh upper is a new, empty directory outside every saved chain. *)
Lemma grown_fresh f o k k' :
  inv f o k → grown o k k' → is_Some (k_dirs k' !! upper_path o (S (counter o))) →
  k_dirs k' !! upper_path o (S (counter o)) = Some ∅ ∧
  ∀ p, p ∈ upper o :: frozen o → p ≠ upper_path o (S (counter o)).
Proof.
  intros Hinv [_ Hd] Hs. destruct (inv_fresh f o k Hinv (S (counter o)) ltac:(lia)) as [Hu _].
  split.
  - destruct (Hd (upper_path o (S (counter o)))) as [E|(_ & ? & _)]; [|done].
    rewrite E, Hu in Hs. by destruct Hs.
  - intros p Hp ->. apply elem_of_cons in Hp as [E|Hp].
    + destruct (inv_upper _ _ _ Hinv) as [_ Hx]. rewrite <- E, Hu in Hx. by destruct Hx.
    + apply (inv_frozen _ _ _ Hinv) in Hp as (_ & Hx & _). rewrite Hu in Hx. by destruct Hx.
Qed.

(** Switching to a chain of existing directories with the fresh upper gives
    the invariant again. *)
Lemma inv_switch f o k k' chain snaps :
  inv f o k → grown o k k' → is_Some (k_dirs k' !! upper_path o (S (counter o))) →
  let nu := upper_path o (S (counter o)) in
  chain ≠ [] → Forall (fun s => s.2 ≠ []) snaps →
  (∀ p, p ∈ chain ++ mjoin snaps.*2 → p ∈ upper o :: frozen o) →
  inv f (set_snapshots snaps (set_stack chain nu (work_path o (S (counter o)))
           (set_counter (S (counter o)) o)))
      (KState (k_dirs k') (<[f := Mount chain nu]> (k_ovl k'))).
Proof.
  intros Hinv Hg Hs nu Hne Hsn Hsub.
  destruct (grown_fresh f o k k') as [Hnu Hfr]; [done..|].
  pose proof (inv_grown _ _ _ _ Hinv Hg) as Hinv'. destruct Hinv'. simpl in *.
  pose proof Hinv as [_ _ Hroot _ Hfz Hup _].
  constructor; simpl; try done.
  - by rewrite lookup_insert_eq.
  - intros p Hp. apply Hsub in Hp. specialize (Hfr p Hp).
    assert (path_ok p ∧ is_Some (k_dirs k !! p)) as [Hpo Hps].
    { apply elem_of_cons in Hp as [->|Hp]; [done|]. apply Hfz in Hp. tauto. }
    split_and!; [done| |done]. by rewrite (grown_existing o k k').
  - split; [|eauto]. apply path_ok_join; auto.
Qed.

(** The view of a chain below a fresh, empty upper is the view of the chain. *)
Lemma view_over_fresh k k' chain nu x :
  k_dirs k' !! nu = Some ∅ → (∀ p, p ∈ chain → k_dirs k' !! p = k_dirs k !! p) →
  view k' (Mount chain nu) x = view_lookup (dir_content k <$> chain) x.
Proof.
  intros Hnu Hc. unfold view. rewrite fmap_cons. simpl m_upper. unfold dir_content at 1.
  rewrite Hnu. simpl default. rewrite view_empty_upper. by apply view_lookup_dirs_ext.
Qed.

Lemma mjoin_snd_dset id chain (snaps : list (string * list string)) p :
  p ∈ mjoin (dset id chain snaps).*2 → p ∈ chain ∨ p ∈ mjoin snaps.*2.
Proof.
  rewrite !list_elem_of_join. setoid_rewrite list_elem_of_fmap.
  intros (c & Hp & ([i c'] & -> & Hin)). simpl in *.
  assert ((i, c') = (id, chain) ∨ (i, c') ∈ snaps) as [[= -> ->]|Hs]; [|by left|].
  - clear Hp. induction snaps as [|[i2 c2] snaps IH]; simpl in Hin.
    + apply list_elem_of_singleton in Hin. by left.
    + case_decide; apply elem_of_cons in Hin as [E|Hin]; simplify_eq; [by left|right; by right|right; by left|].
      destruct (IH Hin) as [?|?]; [by left|right; by right].
  - right. exists c'. split; [done|]. by exists (i, c').
Qed.

Lemma Forall_dset id chain (snaps : list (string * list string)) :
  chain ≠ [] → Forall (fun s => s.2 ≠ []) snaps → Forall (fun s => s.2 ≠ []) (dset id chain snaps).
Proof.
  intros Hc. induction 1 as [|[i c] l Hx Hl IH]; simpl; [by apply Forall_singleton|].
  case_decide; by apply Forall_cons_2.
Qed.

Lemma saved_view_grown f o k k' id :
  inv f o k → grown o k k' → views_agree (saved_view o k id) (saved_view o k' id).
Proof.
  intros Hinv Hg. apply saved_view_ext. intros p Hp. apply (grown_existing o); [done|].
  apply (inv_frozen f o k Hinv). unfold frozen. apply elem_of_app. by right.
Qed.

Lemma chain_ok f o k : inv f o k → Forall path_ok (lower_chain o).
Proof.
  intros Hinv. apply Forall_forall. intros p Hp. apply (inv_frozen f o k Hinv).
  apply elem_of_app. by left.
Qed.

Lemma view_at_inv f o k x :
  inv f o k → view_at k f x = view_lookup (dir_content k <$> upper o :: lower_chain o) x.
Proof. intros []. unfold view_at. by rewrite inv_mount0. Qed.

(** Directories that only grew: nothing observable changed. *)
Lemma grown_unchanged f o k k' :
  inv f o k → grown o k k' →
  inv f (set_counter (S (counter o)) o) k' ∧
  (∀ x, view_at k' f x = view_at k f x) ∧
  (∀ i, views_agree (saved_view o k i) (saved_view (set_counter (S (counter o)) o) k' i)).
Proof.
  intros Hinv Hg. pose proof (inv_grown f o k k' Hinv Hg) as Hinv'. split_and!; [done| |].
  - intros x. rewrite (view_at_inv _ _ _ _ Hinv'), (view_at_inv _ _ _ _ Hinv).
    apply view_lookup_dirs_ext. intros p Hp. apply (grown_existing o); [done|].
    apply elem_of_cons in Hp as [->|Hp]; [apply (inv_upper f o); done|].
    apply (inv_frozen f o k Hinv). apply elem_of_app. by left.
  - intros i. change (saved_view (set_counter _ o) k' i) with (saved_view o k' i).
    by apply (saved_view_grown f).
Qed.

Lemma switched_state f o w1 lowers nu kind m :
  k_ovl (kabs w1) !! f = Some m →
  spec_switch f lowers nu kind (kabs w1)
  = KState (k_dirs (kabs w1))
      (<[f := Mount (if decide (kind = "ckpt") then m_upper m :: lowers else lowers) nu]> (k_ovl (kabs w1))).
Proof. intros H. unfold spec_switch. by rewrite H. Qed.

Lemma view_at_switched f dirs ovl m x : view_at (KState dirs (<[f := m]> ovl)) f x = view (KState dirs (<[f:=m]> ovl)) m x.
Proof. unfold view_at. simpl. by rewrite lookup_insert_eq. Qed.

Lemma ro_checkpoint_spec f o w id :
  inv f o (kabs w) →
  wp (checkpoint id)
    (fun _ s => inv f s.1 (kabs s.2) ∧
       (∀ x, view_at (kabs s.2) f x = view_at (kabs w) f x) ∧
       views_agree (saved_view s.1 (kabs s.2) id) (Some (view_at (kabs w) f)) ∧
       (∀ i, i ≠ id → views_agree (saved_view o (kabs w) i) (saved_view s.1 (kabs s.2) i)))
    (fun _ s => inv f s.1 (kabs s.2) ∧
       (∀ x, view_at (kabs s.2) f x = view_at (kabs w) f x) ∧
       (∀ i, views_agree (saved_view o (kabs w) i) (saved_view s.1 (kabs s.2) i))) (o, w).
Proof.
  intros Hinv. unfold checkpoint. apply wp_bind. eapply wp_mono; [by apply (fresh_spec f)| |].
  2: { intros e [o1 w1] (-> & Hg). by apply grown_unchanged. }
  intros [nu nw] [o1 w1] (E1 & Hg & E & Hex). cbn [fst snd] in E1, Hg, Hex. injection E as -> ->. subst o1.
  destruct (grown_unchanged f o _ _ Hinv Hg) as (Hinv1 & Hv1 & Hs1).
  destruct (grown_fresh f o _ _ Hinv Hg Hex) as [Hnu Hne].
  apply wp_bind. unfold wp at 1, get_ro. cbn [fst]. cbn [lower_chain set_counter].
  pose proof Hinv as [Hfd Hm Hroot [Hlc Hsn] Hfz Hup _].
  apply wp_bind. eapply wp_mono.
  { apply (switch_spec f); [done|done|by eapply chain_ok|apply path_ok_join; auto|apply path_ok_join; auto|done]. }
  2: { intros e [o2 w2] [E2 Hk2]. cbn in E2, Hk2 |- *. rewrite E2, Hk2. done. }
  intros [] [o2 w2] [E2 Hk2]. cbn [fst snd] in E2, Hk2. subst o2.
  rewrite (switched_state f o w1 _ _ _ (Mount (lower_chain o) (upper o))) in Hk2
    by (destruct Hg as [-> _]; done).
  rewrite decide_True in Hk2 by done. cbn [m_upper] in Hk2.
  unfold wp, mod_ro. cbn [fst snd]. rewrite Hk2.
  assert (∀ p, p ∈ upper o :: frozen o → k_dirs (kabs w1) !! p = k_dirs (kabs w) !! p) as Hsame.
  { intros p Hp. apply (grown_existing o); [done|]. apply elem_of_cons in Hp as [->|Hp]; [by destruct Hup|].
    by apply Hfz in Hp as (_ & ? & _). }
  assert (∀ x, view_lookup (dir_content (kabs w1) <$> upper o :: lower_chain o) x = view_at (kabs w) f x) as Hview.
  { intros x. rewrite (view_at_inv f o) by done. apply view_lookup_dirs_ext. intros p Hp. apply Hsame.
    apply elem_of_cons in Hp as [->|Hp]; [by left|]. right. apply elem_of_app. by left. }
  split_and!.
  - apply (inv_switch f o (kabs w)); [done..| |by apply Forall_dset|].
    + done.
    + intros p Hp. apply elem_of_app in Hp as [Hp|Hp].
      * apply elem_of_cons in Hp as [->|Hp]; [by left|]. right. apply elem_of_app. by left.
      * apply mjoin_snd_dset in Hp as [Hp|Hp].
        -- apply elem_of_cons in Hp as [->|Hp]; [by left|]. right. apply elem_of_app. by left.
        -- right. apply elem_of_app. by right.
  - intros x. rewrite view_at_switched, (view_over_fresh (kabs w1)) by done. apply Hview.
  - unfold saved_view. cbn [snapshots set_snapshots set_stack]. rewrite dget_dset_eq. simpl. apply Hview.
  - intros i Hi. specialize (Hs1 i). unfold saved_view in *. cbn [snapshots set_snapshots set_stack set_counter] in *.
    rewrite dget_dset_ne by done. done.
Qed.

Lemma ro_restore_spec f o w id :
  inv f o (kabs w) →
  wp (restore id)
    (fun _ s => inv f s.1 (kabs s.2) ∧
       views_agree (saved_view o (kabs w) id) (Some (view_at (kabs s.2) f)) ∧
       (∀ i, views_agree (saved_view o (kabs w) i) (saved_view s.1 (kabs s.2) i)))
    (fun _ s => inv f s.1 (kabs s.2) ∧
       (∀ x, view_at (kabs s.2) f x = view_at (kabs w) f x) ∧
       (∀ i, views_agree (saved_view o (kabs w) i) (saved_view s.1 (kabs s.2) i))) (o, w).
Proof.
  intros Hinv. unfold restore. apply wp_bind. unfold wp at 1, get_ro. cbn [fst].
  destruct (dget id (snapshots o)) as [chain|] eqn:Hid.
  2: { apply wp_raise. cbn. split_and!; [done|done|]. intros i. by apply saved_view_ext. }
  apply wp_bind. eapply wp_mono; [by apply (fresh_spec f)| |].
  2: { intros e [o1 w1] (-> & Hg). by apply grown_unchanged. }
  intros [nu nw] [o1 w1] (E1 & Hg & E & Hex). cbn [fst snd] in E1, Hg, Hex. injection E as -> ->. subst o1.
  destruct (grown_unchanged f o _ _ Hinv Hg) as (Hinv1 & Hv1 & Hs1).
  destruct (grown_fresh f o _ _ Hinv Hg Hex) as [Hnu Hne].
  pose proof Hinv as [Hfd Hm Hroot [Hlc Hsn] Hfz Hup _].
  assert (∀ p, p ∈ chain → p ∈ mjoin (snapshots o).*2) as Hch.
  { intros p Hp. apply list_elem_of_join. exists chain. split; [done|].
    apply dget_Some_elem in Hid. change chain with (id, chain).2. by apply list_elem_of_fmap_2. }
  assert (∀ p, p ∈ chain → p ∈ frozen o) as Hchf by (intros p Hp; apply elem_of_app; right; auto).
  assert (chain ≠ []) as Hcne.
  { rewrite Forall_forall in Hsn. apply (Hsn (id, chain)). by apply dget_Some_elem. }
  apply wp_bind. eapply wp_mono.
  { apply (switch_spec f); [done|done| |apply path_ok_join; auto|apply path_ok_join; auto|done].
    apply Forall_forall. intros p Hp. by apply Hchf, Hfz in Hp as (? & _). }
  2: { intros e [o2 w2] [E2 Hk2]. cbn in E2, Hk2 |- *. rewrite E2, Hk2. done. }
  intros [] [o2 w2] [E2 Hk2]. cbn [fst snd] in E2, Hk2. subst o2.
  rewrite (switched_state f o w1 _ _ _ (Mount (lower_chain o) (upper o))) in Hk2
    by (destruct Hg as [-> _]; done).
  rewrite decide_False in Hk2 by done.
  unfold wp, mod_ro. cbn [fst snd]. rewrite Hk2.
  split_and!.
  - apply (inv_switch f o (kabs w) (kabs w1) chain (snapshots o)); [done..|].
    intros p Hp. right. apply elem_of_app in Hp as [Hp|Hp]; [auto|]. apply elem_of_app. by right.
  - unfold saved_view. rewrite Hid. simpl. intros x. symmetry.
    rewrite view_at_switched, (view_over_fresh (kabs w)); [done|done|].
    intros p Hp. simpl. apply (grown_existing o); [done|]. by apply Hchf, Hfz in Hp as (_ & ? & _).
  - intros i. apply Hs1.
Qed.

(** ** Steps of one covered directory *)

(** A process writing through the overlay touches only its upper layer. *)
Definition proc_write (f : Z) (k k' : kstate) : Prop :=
  k_ovl k' = k_ovl k ∧
  ∃ m l, k_ovl k !! f = Some m ∧ k_dirs k' = <[m_upper m := l]> (k_dirs k).

(** What may happen between a checkpoint [keep] and a restore to it:
    checkpoints under other ids, restores to any id, whether or not they
    raise, and writes. *)
Inductive step (f : Z) (keep : string) : ro * W → ro * W → Prop :=
  | step_checkpoint id s : id ≠ keep → step f keep s (checkpoint id s).2
  | step_restore id s : step f keep s (restore id s).2
  | step_write o w w' : proc_write f (kabs w) (kabs w') → step f keep (o, w) (o, w').

Lemma write_spec f o k k' :
  inv f o k → proc_write f k k' →
  inv f o k' ∧ ∀ i, views_agree (saved_view o k i) (saved_view o k' i).
Proof.
  intros Hinv (Ho & m & l & Hm & Hd). pose proof Hinv as [Hfd Hm' Hroot Hne Hfz Hup Hfresh].
  rewrite Hm' in Hm. injection Hm as <-. cbn [m_upper] in Hd.
  split.
  - constructor; try done.
    + by rewrite Ho.
    + intros p Hp. destruct (Hfz p Hp) as (? & ? & ?). rewrite Hd, lookup_insert_ne by done. done.
    + destruct Hup. rewrite Hd, lookup_insert_eq. eauto.
    + intros n Hn. destruct (Hfresh n Hn) as [Hu Hw]. destruct Hup as [_ Hup].
      rewrite Hd, !lookup_insert_ne; [done| |]; intros E; rewrite E in Hup.
      * rewrite Hw in Hup. by destruct Hup.
      * rewrite Hu in Hup. by destruct Hup.
  - intros i. apply saved_view_ext. intros p Hp. rewrite Hd, lookup_insert_ne; [done|].
    assert (p ∈ frozen o) as Hpf by (apply elem_of_app; by right).
    by apply Hfz in Hpf as (_ & _ & ?).
Qed.

Lemma views_agree_trans a b c : views_agree a b → views_agree b c → views_agree a c.
Proof. destruct a, b, c; simpl; try done. intros H1 H2 x. by rewrite H1. Qed.

Lemma step_spec f keep s s' :
  step f keep s s' → inv f s.1 (kabs s.2) →
  inv f s'.1 (kabs s'.2) ∧ views_agree (saved_view s.1 (kabs s.2) keep) (saved_view s'.1 (kabs s'.2) keep).
Proof.
  intros Hs Hinv. destruct Hs as [id [o w] Hid|id [o w]|o w w' Hw]; cbn [fst snd] in *.
  - pose proof (ro_checkpoint_spec f o w id Hinv) as H. unfold wp in H.
    destruct (checkpoint id (o, w)) as [[[]|e] [o' w']]; cbn [fst snd] in *;
      destruct H as (? & ? & H); [destruct H as [_ H]|]; (split; [done|]); apply H; congruence.
  - pose proof (ro_restore_spec f o w id Hinv) as H. unfold wp in H.
    destruct (restore id (o, w)) as [[[]|e] [o' w']]; cbn [fst snd] in *;
      destruct H as (? & ? & H); split; auto.
  - destruct (write_spec f o (kabs w) (kabs w')) as [? ?]; auto.
Qed.

Lemma steps_spec f keep s s' :
  rtc (step f keep) s s' → inv f s.1 (kabs s.2) →
  inv f s'.1 (kabs s'.2) ∧ views_agree (saved_view s.1 (kabs s.2) keep) (saved_view s'.1 (kabs s'.2) keep).
Proof.
  induction 1 as [s|s1 s2 s3 Hs Hr IH]; intros Hinv.
  - split; [done|]. unfold views_agree. by destruct (saved_view _ _ _).
  - destruct (step_spec _ _ _ _ Hs Hinv) as [Hinv2 Hv]. destruct (IH Hinv2) as [Hinv3 Hv'].
    split; [done|]. by eapply views_agree_trans.
Qed.

(** ** Mounting and its failures *)

Section mounting.
Context `{!MountHost W}.

(** A command exits with a [RuntimeError] only after undoing its mounts. *)
Definition undone (m : list string) : exn → ro * W → Prop :=
  fun e s => exn_cls e = RuntimeError → kmounted s.2 = m.

Lemma wp_sys_law {A} (m : M W A) (Q : A → ro * W → Prop) mt o w :
  wp m (fun a w' => Q a (o, w')) (fun e w' => exn_cls e = OSError ∧ kmounted w' = kmounted w) w →
  wp (sys m) Q (undone mt) (o, w).
Proof. intros H. apply wp_sys. eapply wp_mono; [exact H|done|]. intros e w' [He _] E. congruence. Qed.

Lemma fresh_mounted mt o w :
  kmounted w = mt →
  wp fresh (fun _ s => s.1 = set_counter (S (counter o)) o ∧ kmounted s.2 = mt) (undone mt) (o, w).
Proof.
  intros Hm. unfold fresh. apply wp_bind. unfold wp at 1, mod_ro. cbn [fst snd].
  apply wp_bind. unfold wp at 1, get_ro. cbn [fst].
  apply wp_bind, wp_sys_law. eapply wp_mono; [apply law_makedirs_mounted|intros [] w1 H1|done].
  apply wp_bind, wp_sys_law. eapply wp_mono; [apply law_makedirs_mounted|intros [] w2 H2|done].
  unfold wp, mret, M_ret. simpl. split; [done|congruence].
Qed.

Lemma umount_mounted p o w rest (k : Z → M (ro * W) unit) mt :
  kmounted w = p :: rest →
  (∀ rc w', kmounted w' = rest → wp (k rc) (fun _ _ => False) (undone mt) (o, w')) →
  wp (rc ← sys (os_run ["umount"; "-l"; p]); k rc) (fun _ _ => False) (undone mt) (o, w).
Proof.
  intros Hm Hk. apply wp_bind, wp_sys_law.
  eapply wp_mono; [apply law_umount|intros rc w' Hw|done].
  apply Hk. rewrite Hw, Hm. simpl. by rewrite decide_True.
Qed.

Lemma mounted_rc (rc : Z) p (m : list string) (fail : M (ro * W) unit) o w mt
    (Q : unit → ro * W → Prop) :
  kmounted w = (if decide (rc = 0%Z) then p :: m else m) →
  (kmounted w = m → wp fail (fun _ _ => False) (undone mt) (o, w)) →
  (kmounted w = p :: m → Q tt (o, w)) →
  wp (mwhen (negb (rc =? 0)%Z) fail) Q (undone mt) (o, w).
Proof.
  intros Hm Hf HQ. apply wp_when. case_decide as E.
  - rewrite E, Z.eqb_refl. cbn. by apply HQ.
  - rewrite (proj2 (Z.eqb_neq _ _) E). cbn [negb]. eapply wp_mono; [by apply Hf|done|done].
Qed.

Lemma do_mount_spec o w :
  wp do_mount
    (fun _ s => target s.1 = target o ∧ merged s.1 = merged o ∧ stash s.1 = stash o ∧
                kmounted s.2 = target o :: merged o :: stash o :: kmounted w)
    (undone (kmounted w)) (o, w).
Proof.
  unfold do_mount. apply wp_bind. unfold wp at 1, get_ro. cbn [fst].
  apply wp_bind, wp_sys_law. eapply wp_mono; [apply law_makedirs_mounted|intros [] w1 H1|done].
  apply wp_bind, wp_sys_law. eapply wp_mono; [apply law_makedirs_mounted|intros [] w2 H2|done].
  apply wp_bind. eapply wp_mono; [apply (fresh_mounted (kmounted w)); congruence| |done].
  intros [u0 w0] [o3 w3] [E3 H3]. cbn [fst snd] in E3, H3. subst o3.
  apply wp_bind, wp_sys_law. eapply wp_mono; [apply (law_mount ["--bind"; target o])|intros rc w4 H4|done].
  rewrite H3 in H4. apply wp_bind. eapply mounted_rc; [exact H4| |].
  { intros Hm. apply wp_raise. by intros _. }
  intros Hm4. apply wp_bind, wp_sys_law.
  eapply wp_mono; [apply (law_mount ["-t"; "overlay"; "overlay"; "-o"; _])|intros rc5 w5 H5|done].
  rewrite Hm4 in H5. apply wp_bind. eapply mounted_rc; [exact H5| |].
  { intros Hm. eapply umount_mounted; [done|]. intros. apply wp_raise. by intros _. }
  intros Hm5. apply wp_bind, wp_sys_law.
  eapply wp_mono; [apply (law_mount ["--bind"; merged o])|intros rc6 w6 H6|done].
  rewrite Hm5 in H6. apply wp_bind. eapply mounted_rc; [exact H6| |].
  { intros Hm. eapply umount_mounted; [done|]. intros. eapply umount_mounted; [done|].
    intros. apply wp_raise. by intros _. }
  intros Hm6. apply wp_bind, wp_sys_law. eapply wp_mono; [apply law_open|intros f w7 H7|done].
  unfold wp, mod_ro. simpl. split_and!; [done..|]. by rewrite H7.
Qed.

(** The mount points of a list of overlays, newest first. *)
Definition mounts_of (os : list ro) : list string :=
  mjoin ((fun o => [target o; merged o; stash o]) <$> os).

Lemma teardown_spec o w rest :
  kmounted w = target o :: merged o :: stash o :: rest →
  wp teardown (fun _ s => kmounted s.2 = rest) (fun e _ => exn_cls e = OSError) (o, w).
Proof.
  intros Hm. unfold teardown. apply wp_bind. unfold wp at 1, get_ro. cbn [fst]. apply wp_bind.
  eapply (wp_mono _ (fun _ s => kmounted s.2 = kmounted w) _ (fun e _ => exn_cls e = OSError)); [| |done].
  - destruct (fd o) as [f|]; [|done]. apply wp_bind, wp_catch, wp_sys.
    eapply wp_mono; [apply law_close|intros [] w1 H1|intros e w1 [He H1]].
    + exact H1.
    + rewrite decide_True by done. exact H1.
  - intros [] [o1 w1] H1. cbn [snd] in H1. rewrite Hm in H1.
    assert (∀ p q o2 w2 (k : M (ro * W) unit) Q, kmounted w2 = p :: q →
      (∀ o3 w3, kmounted w3 = q → wp k Q (fun e _ => exn_cls e = OSError) (o3, w3)) →
      wp ((rc ← sys (os_run ["umount"; "-l"; p]); mret tt) ≫= fun _ => k) Q
         (fun e _ => exn_cls e = OSError) (o2, w2)) as Hu.
    { intros p q o2 w2 k Q Hp Hk. apply wp_bind, wp_bind, wp_sys.
      eapply wp_mono; [apply law_umount|intros rc w3 H3|by intros e w3 [? _]].
      apply wp_ret, Hk. rewrite H3, Hp. simpl. by rewrite decide_True. }
    cbn [mfor]. eapply Hu; [done|]. intros o2 w2 H2.
    eapply Hu; [done|]. intros o3 w3 H3. eapply Hu; [done|]. by intros.
Qed.

Lemma each_teardown_spec os w base :
  kmounted w = mounts_of os ++ base →
  match each teardown os w with
  | (Ok _, (_, w')) => kmounted w' = base
  | (Err e, _) => exn_cls e = OSError
  end.
Proof.
  revert w. induction os as [|o os IH]; intros w Hm; simpl; [done|].
  pose proof (teardown_spec o w (mounts_of os ++ base)) as Ht. unfold wp in Ht.
  destruct (teardown (o, w)) as [[[]|e] [o' w']]; [|by apply Ht].
  specialize (Ht Hm). cbn [snd] in Ht. specialize (IH w' Ht).
  by destruct (each teardown os w') as [[[]|e] [os' w'']].
Qed.

Lemma teardown_raises o w : wp teardown (fun _ _ => True) (fun e _ => exn_cls e = OSError) (o, w).
Proof.
  unfold teardown. apply wp_bind. unfold wp at 1, get_ro. cbn [fst]. apply wp_bind.
  eapply (wp_mono _ (fun _ _ => True) _ (fun e _ => exn_cls e = OSError)); [| |done].
  - destruct (fd o) as [f|]; [|done]. apply wp_bind, wp_catch, wp_sys.
    eapply wp_mono; [apply law_close|done|intros e w1 [He _]]. by rewrite decide_True.
  - intros [] s1 _. apply (wp_for (fun _ => True)); [done|]. intros p [o2 w2] _ _.
    apply wp_bind, wp_sys. eapply wp_mono; [apply law_umount|done|by intros e w3 [? _]].
Qed.

Lemma each_teardown_raises os w e ow : each teardown os w = (Err e, ow) → exn_cls e = OSError.
Proof.
  revert w ow. induction os as [|o os IH]; intros w ow; simpl; [done|].
  pose proof (teardown_raises o w) as Ht. unfold wp in Ht.
  destruct (teardown (o, w)) as [[[]|e1] [o' w']].
  - destruct (each teardown os w') as [[[]|e2] [os' w'']] eqn:E; [done|].
    intros H. injection H as <- <-. by eapply IH.
  - intros H. by injection H as <- <-.
Qed.

Lemma mount_loop_spec todo done_ w base :
  kmounted w = mounts_of done_ ++ base →
  match mount_loop todo done_ w with
  | (Ok _, (os, w')) => kmounted w' = mounts_of os ++ base ∧ length os = length done_ + length todo
  | (Err e, (_, w')) => exn_cls e = RuntimeError → kmounted w' = base
  end.
Proof.
  revert done_ w. induction todo as [|o todo IH]; intros done_ w Hm; cbn [mount_loop].
  { simpl. split; [done|lia]. }
  pose proof (do_mount_spec o w) as Hd. unfold wp in Hd.
  destruct (do_mount (o, w)) as [[[]|e] [o' w']]; cbn [fst snd] in Hd.
  - destruct Hd as (Ht & Hme & Hst & Hk). specialize (IH (o' :: done_) w').
    destruct (mount_loop todo (o' :: done_) w') as [[[]|e] [os w'']].
    + destruct IH as [? Hl]; [|split; [done|simpl in *; lia]].
      unfold mounts_of in *. rewrite fmap_cons. simpl. by rewrite Hk, Hm, Ht, Hme, Hst.
    + apply IH. unfold mounts_of in *. rewrite fmap_cons. simpl. by rewrite Hk, Hm, Ht, Hme, Hst.
  - pose proof (each_teardown_spec done_ w' base) as Hu. unfold undone in Hd. cbn [snd] in Hd.
    destruct (each teardown done_ w') as [[[]|e'] [ds w'']] eqn:E; intros He.
    + apply Hu. rewrite <- Hm. auto.
    + apply each_teardown_raises in E. congruence.
Qed.

(** [RootOverlaySet.mount_all] is atomic with respect to the mount table:
    when it raises the [RuntimeError] of a failed mount command, every mount
    point it made (of the overlays mounted before and of the failing one) is
    gone again; when it returns, each overlay holds its three mounts. *)
Theorem mount_all_atomic layers_root os w :
  match mount_all layers_root os w with
  | (Ok _, (os', w')) => kmounted w' = mounts_of os' ++ kmounted w ∧ length os' = length os
  | (Err e, (_, w')) => exn_cls e = RuntimeError → kmounted w' = kmounted w
  end.
Proof.
  unfold mount_all. pose proof (law_makedirs_mounted layers_root w) as Hd. unfold wp in Hd.
  destruct (os_makedirs layers_root w) as [[[]|e] w1]; [|by destruct Hd].
  rewrite <- Hd. apply (mount_loop_spec os [] w1). done.
Qed.
End mounting.

(** C25: After a checkpoint of a covered directory, whatever is done next
    (checkpoints under other ids, restores, also failing ones, writes by the
    processes), a successful [restore] of that id brings back the view of the
    directory at the checkpoint, for every file, and keeps the invariant. *)
Theorem restore_returns_checkpoint_view f id o w s1 s2 s3 :
  inv f o (kabs w) →
  checkpoint id (o, w) = (Ok tt, s1) →
  rtc (step f id) s1 s2 →
  restore id s2 = (Ok tt, s3) →
  inv f s3.1 (kabs s3.2) ∧ ∀ x, view_at (kabs s3.2) f x = view_at (kabs w) f x.
Proof.
  intros Hinv Hc Hr Hres. pose proof (ro_checkpoint_spec f o w id Hinv) as H1.
  unfold wp in H1. rewrite Hc in H1. destruct H1 as (Hinv1 & _ & Hs1 & _).
  destruct (steps_spec _ _ _ _ Hr Hinv1) as [Hinv2 Hv]. destruct s2 as [o2 w2].
  pose proof (ro_restore_spec f o2 w2 id Hinv2) as H3.
  unfold wp in H3. rewrite Hres in H3. destruct H3 as (Hinv3 & Hv3 & _). split; [done|].
  pose proof (views_agree_trans _ _ _ Hv Hv3) as H. intros x.
  destruct (saved_view s1.1 (kabs s1.2) id) as [v|]; [|done]. by rewrite <- (H x), <- (Hs1 x).
Qed.
End proofs.

(** ** A concrete run *)

Definition sim_run (argv : list string) : M simw Z := fun s =>
  match argv with
  | "mount" :: args =>
      match last args with
      | Some p => (Ok 0%Z, (s.1, p :: s.2))
      | None => (Ok 1%Z, s)
      end
  | ["umount"; "-l"; p] => (Ok 0%Z, (s.1, list_remove_first p s.2))
  | _ => (Ok 1%Z, s)
  end.

#[export] Program Instance sim_mount_host : MountHost simw := {|
  kmounted := snd; os_run := sim_run;
  os_open_dir := fun _ s => (Ok 3%Z, s); os_close := fun _ s => (Ok tt, s) |}.
Next Obligation. done. Qed.
Next Obligation.
  intros args p w. unfold wp, sim_run. rewrite last_snoc. done.
Qed.
Next Obligation. done. Qed.
Next Obligation. done. Qed.
Next Obligation. done. Qed.

(** [/usr] mounted over its original directory, with one file in the upper. *)
Definition demo_ro : ro := set_stack ["/l/usr/stash"] "/l/usr/u1" "/l/usr/w1"
  (set_counter 1 (set_fd (Some 3%Z) (init "/usr" "/l"))).
Definition demo_kernel : kstate := KState
  {[ "/l/usr/stash" := {[ "bin/sh" := Some "elf" ]}; "/l/usr/u1" := {[ "lib/x" := Some "1" ]}; "/l/usr/w1" := ∅ ]}
  {[ 3%Z := Mount ["/l/usr/stash"] "/l/usr/u1" ]}.

Lemma ro_demo_inv : inv 3 demo_ro demo_kernel.
Proof.
  constructor; try done.
  - intros p Hp. apply list_elem_of_singleton in Hp as ->. split; [done|]. by split; [eexists|].
  - intros n Hn. unfold demo_kernel. cbn [k_dirs].
    change "/l/usr/u1" with (upper_path demo_ro 1). change "/l/usr/w1" with (work_path demo_ro 1).
    cbn in Hn.
    change "/l/usr/stash" with (path_join (root demo_ro) "stash").
    split; apply lookup_insert_None; (split; [apply lookup_insert_None; split; [apply lookup_singleton_None|]|]).
    all: unfold upper_path, work_path; intros E; apply path_join_inj in E; [|done..]; try discriminate E.
    all: apply string_app_inj_l, (inj pretty) in E; lia.
Qed.

Definition demo_write (k : kstate) : kstate :=
  KState (<[ "/l/usr/u2" := {[ "lib/x" := Some "2" ]} ]> (k_dirs k)) (k_ovl k).
Definition demo_s1 := (checkpoint "c1" (demo_ro, (demo_kernel, []))).2.
Definition demo_s2 : ro * simw := (demo_s1.1, (demo_write demo_s1.2.1, demo_s1.2.2)).
Definition demo_s3 := (restore "c1" demo_s2).2.

Example restore_returns_checkpoint_view_witness :
  view_at (kabs demo_s2.2) 3 "lib/x" = Some "2" ∧
  inv 3 demo_s3.1 (kabs demo_s3.2) ∧
  ∀ x, view_at (kabs demo_s3.2) 3 x = view_at (kabs (demo_kernel, [] : list string)) 3 x.
Proof.
  split; [by vm_compute|].
  apply (restore_returns_checkpoint_view 3 "c1" demo_ro (demo_kernel, []) demo_s1 demo_s2 demo_s3).
  - apply ro_demo_inv.
  - by vm_compute.
  - apply rtc_once. unfold demo_s2. rewrite (surjective_pairing demo_s1) at 1. apply step_write.
    split; [done|]. eexists _, {[ "lib/x" := Some "2" ]}. split; [by vm_compute|]. by vm_compute.
  - by vm_compute.
Defined.
End RootOverlay.
