(* ===== verification/SemanticParser.v ===== *)
(** * Choice of the checkpoint strategy from the command text
    ([backends/deltabox/gsd/semantic_parser.py])

    [parse_strategy] reads a shell command and names the strategy of the next
    checkpoint.  The regular expressions are written as the scanners they
    denote, and [shlex.split] (POSIX mode, split on whitespace) as its state
    machine.  The theorems: the recursion over compound commands ends, a
    compound is lightweight only if all its parts are, and a lightweight
    command never redirects to a file. *)

From S2P Require Import Prelude PyStr PyInt.
From Stdlib Require Import Ascii.

Module SemanticParser.

Definition READONLY_COMMANDS : list string :=
  ["cat"; "ls"; "pwd"; "whoami"; "echo"; "head"; "tail"; "grep";
   "find"; "stat"; "wc"; "file"; "date"; "hostname"; "id"; "env";
   "printenv"; "uname"; "df"; "du"; "free"; "uptime"; "which";
   "type"; "true"; "false"; "test"; "sleep"].
Definition BACKGROUND_COMMANDS : list string := ["nohup"; "screen"; "tmux"; "systemctl"; "service"].

(** ** The regular expressions *)

(** [\s*(?:/dev/null|&\d)] at the head of the string: the rest after it. *)
Definition discard_target (s : string) : option string :=
  let s := lstrip_by is_space s in
  if startswith s "/dev/null" then Some (sdrop 9 s)
  else match s with
       | String a (String d s') => if ch_eq a "&" && is_digit d then Some s' else None
       | _ => None
       end.

(** [>>?\s*(?:/dev/null|&\d)] *)
Definition discard_redirect (s : string) : option string :=
  match s with
  | String a s' =>
      if ch_eq a ">" then
        match s' with
        | String b s'' => if ch_eq b ">" then discard_target s'' else discard_target s'
        | EmptyString => None
        end
      else None
  | EmptyString => None
  end.

(** [[0-9&]?>>?\s*(?:/dev/null|&\d)] *)
Definition safe_redirect (s : string) : option string :=
  match s with
  | String c s' => if is_digit c || ch_eq c "&" then discard_redirect s' else discard_redirect s
  | EmptyString => None
  end.

(** [re.sub(..., '', s)]: at each position the match is dropped or one
    character is kept; the length bounds the scan. *)
Fixpoint sub_safe (fuel : nat) (s : string) : string :=
  match fuel with
  | O => s
  | S fuel =>
      match safe_redirect s with
      | Some rest => sub_safe fuel rest
      | None => match s with String c s' => String c (sub_safe fuel s') | EmptyString => "" end
      end
  end.

(** [re.search(r'>\s*\S', s)]: a [>] with a non-blank character behind it. *)
Fixpoint search_redirect (s : string) : bool :=
  match s with
  | EmptyString => false
  | String c s' => (ch_eq c ">" && negb (sforall is_space s')) || search_redirect s'
  end.

(** [re.split(r'&&|;', s)] *)
Fixpoint split_compound (s : string) : list string :=
  match s with
  | EmptyString => [""]
  | String c s' =>
      if ch_eq c ";" then "" :: split_compound s'
      else
        match s' with
        | String d s'' =>
            if ch_eq c "&" && ch_eq d "&" then "" :: split_compound s''
            else match split_compound s' with
                 | w :: ws => String c w :: ws
                 | [] => [String c ""]
                 end
        | EmptyString => [String c ""]
        end
  end.

(** ** [shlex.split] *)

Inductive lex_state := LBlank | LWord | LQuote (q : ascii) | LEscape (back : option ascii).

(** Characters of one token arrive in [tok] (reversed); [quoted] records that
    a quote was opened, so that an empty token counts. *)
Definition is_quote (c : ascii) : bool := ch_eq c "'" || ch_eq c (chr 34).
Definition is_escape (c : ascii) : bool := ch_eq c "\".
Definition lex_space (c : ascii) : bool :=
  ch_eq c " " || ch_eq c (chr 9) || ch_eq c (chr 13) || ch_eq c (chr 10).

Definition emit (tok : string) (quoted : bool) (rest : list string) : list string :=
  if bool_decide (tok = "") && negb quoted then rest else srev tok :: rest.

Fixpoint shlex_go (st : lex_state) (tok : string) (quoted : bool) (s : string) : result (list string) :=
  match s with
  | EmptyString =>
      match st with
      | LQuote _ => raise ValueError "No closing quotation"
      | LEscape _ => raise ValueError "No escaped character"
      | LBlank | LWord => Ok (emit tok quoted [])
      end
  | String c s' =>
      match st with
      | LBlank =>
          if lex_space c then shlex_go LBlank tok quoted s'
          else if is_escape c then shlex_go (LEscape None) tok quoted s'
          else if is_quote c then shlex_go (LQuote c) tok quoted s'
          else shlex_go LWord (String c "") quoted s'
      | LQuote q =>
          if ch_eq c q then shlex_go LWord tok true s'
          else if is_escape c && ch_eq q (chr 34) then shlex_go (LEscape (Some q)) tok true s'
          else shlex_go (LQuote q) (String c tok) true s'
      | LEscape back =>
          match back with
          | Some q =>
              let tok := if negb (is_escape c) && negb (ch_eq c q) then String "\" tok else tok in
              shlex_go (LQuote q) (String c tok) quoted s'
          | None => shlex_go LWord (String c tok) quoted s'
          end
      | LWord =>
          if lex_space c then
            (if bool_decide (tok = "") && negb quoted then shlex_go LBlank tok quoted s'
             else rest ← shlex_go LBlank "" false s'; Ok (srev tok :: rest))
          else if is_quote c then shlex_go (LQuote c) tok quoted s'
          else if is_escape c then shlex_go (LEscape None) tok quoted s'
          else shlex_go LWord (String c tok) quoted s'
      end
  end.
Definition shlex_split (s : string) : result (list string) := shlex_go LBlank "" false s.

(** ** [parse_strategy] *)

Definition head_of (l : list string) : string := List.hd "" l.

(** The tokens of the first command of a pipeline, without its redirections;
    on a lexing error the first blank-separated word. *)
Definition command_tokens (s : string) : list string :=
  let first_cmd_part := strip (head_of (split_char "|" s)) in
  let cmd_no_redir := strip (head_of (split_char ">" first_cmd_part)) in
  match shlex_split cmd_no_redir with
  | Ok tokens => tokens
  | Err _ => match split_ws s with [] => [] | w :: _ => [w] end
  end.

(** Steps 1 to 5, for a command without [&&] and [;]. *)
Definition classify_simple (s : string) : string :=
  match command_tokens s with
  | [] => "standard"
  | (tok :: _) as tokens =>
      let base_cmd := lower tok in
      let base_cmd := if has_char "/" base_cmd then after_last "/" base_cmd else base_cmd in
      if mem base_cmd BACKGROUND_COMMANDS || endswith (strip s) "&" then "predump"
      else if mem base_cmd ["python"; "python3"; "pytest"; "tox"]
              && (contains s "--parallel" || contains s "-n") then "predump"
      else if mem base_cmd READONLY_COMMANDS then "lightweight"
      else if bool_decide (base_cmd = "sed") then
        (if mem "-i" tokens then "standard" else "lightweight")
      else if mem base_cmd ["cd"; "export"; "set"; "unset"; "alias"; "source"; "."] then "lightweight"
      else "standard"
  end.

Definition merge_strategies (subs : list string) : string :=
  if mem "predump" subs then "predump"
  else if mem "standard" subs then "standard"
  else if negb (bool_decide (subs = [])) && forallb (fun s => bool_decide (s = "lightweight")) subs
  then "lightweight" else "standard".

Definition sub_commands (s : string) : list string :=
  List.filter (fun sc => negb (bool_decide (sc = ""))) (strip <$> split_compound s).

Fixpoint parse_fuel (fuel : nat) (s : string) : option string :=
  if bool_decide (strip s = "") then Some "standard"
  else if search_redirect (sub_safe (String.length s) s) then Some "standard"
  else if contains s "&&" || contains s ";" then
    match fuel with
    | O => None
    | S fuel => subs ← mapM (parse_fuel fuel) (sub_commands s); Some (merge_strategies subs)
    end
  else Some (classify_simple s).

(** The parts of a compound command hold neither [&&] nor [;], so the
    recursion is one level deep ([parse_strategy_total]). *)
Definition parse_strategy (s : string) : option string := parse_fuel 1 s.

(** ** Substrings *)

Lemma contains_spec s sub : contains s sub = true ↔ ∃ a b, s = a +:+ sub +:+ b.
Proof.
  induction s as [|c s IH]; cbn [contains]; rewrite orb_true_iff.
  - split.
    + intros [H|[=]]. apply startswith_spec in H as [t Ht]. by exists "", t.
    + intros (a & b & H). left. destruct a; [|done]. apply (startswith_spec "" sub). by exists b.
  - rewrite IH. split.
    + intros [H|(a & b & ->)]; [apply startswith_spec in H as [t Ht]; by exists "", t|].
      by exists (String c a), b.
    + intros ([|d a] & b & H); [left; apply (startswith_spec (String c s) sub); by exists b|right].
      injection H as -> ->. by exists a, b.
Qed.

Lemma contains_app a s b sub : contains s sub = true → contains (a +:+ s +:+ b) sub = true.
Proof.
  rewrite !contains_spec. intros (x & y & ->). exists (a +:+ x), (y +:+ b). by rewrite !string_app_assoc.
Qed.

Lemma lstrip_by_suffix p s : ∃ a, s = a +:+ lstrip_by p s.
Proof.
  induction s as [|c s [a IH]]; simpl; [by exists ""|].
  destruct (p c); [|by exists ""]. exists (String c a). by rewrite IH at 1.
Qed.

Lemma srev_concat a b : srev (a +:+ b) = srev b +:+ srev a.
Proof.
  unfold srev at 1. induction a as [|c a IH]; simpl.
  - by rewrite string_app_nil_r.
  - change (String.app a b) with (a +:+ b). rewrite srev_app_spec. unfold srev in IH at 1.
    rewrite srev_app_spec in IH. rewrite string_app_nil_r in IH.
    change (srev (String c a)) with (srev_app a (String c "")).
    rewrite (srev_app_spec a), <- string_app_assoc. f_equal. exact IH.
Qed.

Lemma strip_infix s : ∃ a b, s = a +:+ strip s +:+ b.
Proof.
  destruct (lstrip_by_suffix is_space s) as [a Ha].
  destruct (lstrip_by_suffix is_space (srev (lstrip_by is_space s))) as [b Hb].
  exists a, (srev b). unfold strip, rstrip_by. rewrite <- srev_concat, <- Hb, srev_involutive. done.
Qed.

Lemma contains_strip s sub : contains s sub = false → contains (strip s) sub = false.
Proof.
  intros H. apply not_true_iff_false. intros Hs. destruct (strip_infix s) as (a & b & E).
  apply (contains_app a _ b) in Hs. rewrite <- E in Hs. congruence.
Qed.

(** ** The recursion is one level deep *)

Definition plain (s : string) : Prop := contains s "&&" = false ∧ contains s ";" = false.

Lemma plain_cons c w :
  plain w → ch_eq c ";" = false → (ch_eq c "&" = true → ∀ w', w ≠ String "&" w') → plain (String c w).
Proof.
  intros [H1 H2] Hc Ha. unfold plain. cbn [contains]. rewrite H1, H2, !orb_false_r. split.
  - apply not_true_iff_false. intros [t Ht]%startswith_spec. simpl in Ht. injection Ht as -> ->.
    by apply (Ha eq_refl t).
  - apply not_true_iff_false. intros [t Ht]%startswith_spec. simpl in Ht. injection Ht as -> _. done.
Qed.

Lemma split_compound_head s e w ws : split_compound s = String e w :: ws → ∃ s', s = String e s'.
Proof.
  destruct s as [|c s]; [done|]. cbn [split_compound]. intros H. exists s.
  repeat case_match; by simplify_eq.
Qed.

Lemma split_compound_plain n s : String.length s ≤ n → Forall plain (split_compound s).
Proof.
  revert s. induction n as [|n IH]; intros [|c s] Hl; simpl in Hl; try lia; [by repeat constructor..|].
  cbn [split_compound]. destruct (ch_eq c ";") eqn:Hc.
  { constructor; [done|]. apply IH. lia. }
  destruct s as [|d s].
  { apply Forall_singleton, plain_cons; [done|done|by intros]. }
  simpl in Hl. destruct (ch_eq c "&" && ch_eq d "&") eqn:Hcd.
  { constructor; [done|]. apply IH. lia. }
  assert (Forall plain (split_compound (String d s))) as Hf by (apply IH; simpl; lia).
  destruct (split_compound (String d s)) as [|w ws] eqn:E.
  { apply Forall_singleton, plain_cons; [done|done|by intros]. }
  apply Forall_cons in Hf as [Hw Hws]. constructor; [|done]. apply plain_cons; [done|done|].
  intros Ha w' ->. apply split_compound_head in E as [s' [= -> _]]. by rewrite Ha in Hcd.
Qed.

Lemma sub_commands_plain s p : p ∈ sub_commands s → plain p.
Proof.
  unfold sub_commands. intros Hp. apply list_elem_of_In, filter_In in Hp as [Hp _].
  apply list_elem_of_In, list_elem_of_fmap in Hp as (q & -> & Hq).
  pose proof (split_compound_plain _ s (le_n _)) as Hf. rewrite Forall_forall in Hf.
  destruct (Hf q Hq). split; by apply contains_strip.
Qed.

Lemma parse_plain fuel s : plain s → ∃ r, parse_fuel fuel s = Some r.
Proof.
  intros [H1 H2]. destruct fuel; cbn [parse_fuel]; rewrite H1, H2; cbn [orb];
    repeat case_match; eauto.
Qed.

Lemma parse_strategy_unfold s :
  parse_strategy s =
  if bool_decide (strip s = "") then Some "standard"
  else if search_redirect (sub_safe (String.length s) s) then Some "standard"
  else if contains s "&&" || contains s ";" then
    subs ← mapM (parse_fuel 0) (sub_commands s); Some (merge_strategies subs)
  else Some (classify_simple s).
Proof. done. Qed.

(** [parse_strategy] returns a strategy for every command: the recursion
    over the parts of a compound command never goes deeper than one level. *)
Theorem parse_strategy_total s : is_Some (parse_strategy s).
Proof.
  rewrite parse_strategy_unfold. do 2 (case_match; [by eexists|]). case_match; [|by eexists].
  assert (is_Some (mapM (parse_fuel 0) (sub_commands s))) as [subs ->]; [|by eexists].
  apply mapM_is_Some_2, Forall_forall. intros p Hp. apply sub_commands_plain in Hp.
  destruct (parse_plain 0 p Hp) as [r Hr]. by exists r.
Qed.

Lemma parse_plain_mono s : plain s → parse_fuel 0 s = parse_strategy s.
Proof. intros [H1 H2]. rewrite parse_strategy_unfold. cbn [parse_fuel]. by rewrite H1, H2. Qed.

Lemma merge_lightweight subs : merge_strategies subs = "lightweight" → Forall (.= "lightweight") subs.
Proof.
  unfold merge_strategies. repeat (case_match; [done|]). case_match eqn:E; [|done]. intros _.
  apply andb_true_iff in E as [_ E]. rewrite forallb_forall in E. apply Forall_forall.
  intros x Hx. apply list_elem_of_In, E, bool_decide_eq_true in Hx. done.
Qed.

(** a command classified as lightweight has no redirection to a file left
    once the discarding ones are removed, and if it is a compound command then
    each of its parts is lightweight by itself. *)
Theorem lightweight_sound s :
  parse_strategy s = Some "lightweight" →
  search_redirect (sub_safe (String.length s) s) = false ∧
  ((contains s "&&" || contains s ";") = true →
   ∀ part, part ∈ sub_commands s → parse_strategy part = Some "lightweight").
Proof.
  rewrite parse_strategy_unfold. case_match; [done|]. case_match eqn:Hr; [done|].
  intros H'. split; [done|]. intros Hc part Hp. rewrite Hc in H'.
  apply bind_Some in H' as (subs & Hs & [= Hm]). apply merge_lightweight in Hm.
  apply mapM_Some in Hs. rewrite <- (parse_plain_mono part) by (by eapply sub_commands_plain).
  apply list_elem_of_lookup in Hp as [i Hi].
  destruct (Forall2_lookup_l _ _ _ _ _ Hs Hi) as (r & Hri & Hpr).
  rewrite Hpr. f_equal. rewrite Forall_forall in Hm. apply Hm. by eapply list_elem_of_lookup_2.
Qed.

Example lightweight_sound_witness :
  search_redirect (sub_safe 25 "cd /x && ls 2>/dev/null ; pwd") = false ∧
  parse_strategy "ls 2>/dev/null" = Some "lightweight".
Proof.
  split; [by vm_compute|].
  apply (lightweight_sound "cd /x && ls 2>/dev/null ; pwd"); [by vm_compute..|].
  vm_compute. right. left.
Defined.

(** the contract of the class says that every command that can write a
    file is standard, but three kinds of writing commands are classified as
    lightweight: an in-place [sed] whose option is not exactly [-i], a
    pipeline that writes in a later stage, and [find -delete]. *)
Theorem writing_commands_lightweight :
  parse_strategy "sed -i.bak s/a/b/ f.py" = Some "lightweight" ∧
  parse_strategy "sed --in-place s/a/b/ f.py" = Some "lightweight" ∧
  parse_strategy "cat a | tee b" = Some "lightweight" ∧
  parse_strategy "find . -name x -delete" = Some "lightweight" ∧
  parse_strategy "sed -i s/a/b/ f.py" = Some "standard".
Proof. by vm_compute. Qed.
End SemanticParser.
