(* ===== verification/MemoryClassifier.v ===== *)
(** * Memory region classification ([backends/deltabox/gsd/memory_classifier.py])

    The mappings of a process, read from the texts of [/proc/pid/maps] and
    [/proc/pid/smaps], are split into cold, warm and hot zones; a hot zone makes
    the controller choose a pre-dump.  The theorems: the zones partition the
    mappings, and the hot addresses are exactly the large anonymous writable
    mappings. *)

From S2P Require Import Prelude PyStr.
From Stdlib Require Import Ascii.

Module MemoryClassifier.

(** 100 MB *)
Definition HOT_THRESHOLD : Z := 100 * 1024 * 1024.

Record vma := Vma {
  start : Z; end_ : Z; size : Z;
  perms : string; offset : string; dev : string; inode : string; pathname : string;
}.

(** The lines of a text file; the piece behind the last newline is kept, as an
    empty line, which both parsers skip. *)
Definition lines (text : string) : list string := split_char (chr 10) text.

(** One line of [maps]; [None] when it has fewer than five fields.  The two
    addresses are the kernel's unprefixed hexadecimal. *)
Definition parse_map_line (line : string) : result (option vma) :=
  match split_ws_max 5 (strip line) with
  | addr_range :: perms :: offset :: dev :: inode :: rest =>
      match split_char "-" addr_range with
      | [start_addr; end_addr] =>
          s ← parse_uint 16 start_addr;
          e ← parse_uint 16 end_addr;
          Ok (Some (Vma s e (e - s) perms offset dev inode (strip (List.hd "" rest))))
      | _ => raise ValueError "not enough or too many values to unpack"
      end
  | _ => Ok None
  end.

Fixpoint parse_map_lines (ls : list string) : result (list vma) :=
  match ls with
  | [] => Ok []
  | l :: ls =>
      v ← parse_map_line l;
      vs ← parse_map_lines ls;
      Ok (match v with Some v => v :: vs | None => vs end)
  end.
Definition parse_maps (maps : string) : result (list vma) := parse_map_lines (lines maps).

(** [re.match] pieces of [parse_smaps_rss]. *)
Definition is_hex (c : ascii) : bool :=
  let n := nat_of_ascii c in is_digit c || ((97 <=? n) && (n <=? 102))%nat%bool.
Fixpoint span (p : ascii → bool) (s : string) : string * string :=
  match s with
  | String c s' => if p c then let '(a, b) := span p s' in (String c a, b) else ("", s)
  | EmptyString => ("", "")
  end.

(** [^([0-9a-f]+)-([0-9a-f]+)\s]: the start address. *)
Definition smaps_header (line : string) : option Z :=
  match span is_hex line with
  | (String _ _ as lo, String d rest) =>
      if ch_eq d "-" then
        match span is_hex rest with
        | (String _ _, String e _) =>
            if is_space e then match parse_uint 16 lo with Ok z => Some z | Err _ => None end else None
        | _ => None
        end
      else None
  | _ => None
  end.

(** [^Rss:\s+(\d+)\s+kB] *)
Definition smaps_rss (line : string) : option Z :=
  if startswith line "Rss:" then
    match span is_space (sdrop 4 line) with
    | (String _ _, rest) =>
        match span is_digit rest with
        | (String _ _ as n, rest) =>
            match span is_space rest with
            | (String _ _, rest) =>
                if startswith rest "kB" then match parse_uint 10 n with Ok z => Some z | Err _ => None end
                else None
            | _ => None
            end
        | _ => None
        end
    | _ => None
    end
  else None.

Definition smaps_line (st : gmap Z Z * option Z) (line : string) : gmap Z Z * option Z :=
  let '(rss_map, current_start) := st in
  match smaps_header line with
  | Some a => (rss_map, Some a)
  | None =>
      match smaps_rss line, current_start with
      | Some kb, Some a => (<[a := kb * 1024]> rss_map, current_start)
      | _, _ => st
      end
  end%Z.
Definition parse_smaps_rss (smaps : string) : gmap Z Z := (fold_left smaps_line (lines smaps) (∅, None)).1.

(** ** Classification *)

Inductive zone := Cold | Warm | Hot.
#[global] Instance zone_eq_dec : EqDecision zone.
Proof. solve_decision. Defined.

Definition is_anonymous (v : vma) : bool :=
  bool_decide (pathname v = "") || startswith (pathname v) "[".
Definition writable (v : vma) : bool := has_char "w" (perms v).
Definition executable (v : vma) : bool := has_char "x" (perms v).

Definition zone_of (v : vma) : zone :=
  if negb (is_anonymous v) && (executable v || negb (writable v)) then Cold
  else if is_anonymous v && writable v && (HOT_THRESHOLD <=? size v)%Z then Hot
  else Warm.

(** The result lists carry each mapping with its resident size. *)
Record classes := Classes {
  cold : list (vma * Z); warm : list (vma * Z); hot : list (vma * Z);
  total_vmas : Z;
  total_cold_size : Z; total_warm_size : Z; total_hot_size : Z;
}.

Definition add_vma (rss_map : gmap Z Z) (c : classes) (v : vma) : classes :=
  let item := (v, default 0%Z (rss_map !! start v)) in
  let '(Classes co wa ho n sc sw sh) := c in
  match zone_of v with
  | Cold => Classes (co ++ [item]) wa ho (n + 1) (sc + size v) sw sh
  | Hot => Classes co wa (ho ++ [item]) (n + 1) sc sw (sh + size v)
  | Warm => Classes co (wa ++ [item]) ho (n + 1) sc (sw + size v) sh
  end%Z.

(** [classify_vmas], on the texts of the two files. *)
Definition classify_vmas (maps smaps : string) : result classes :=
  vmas ← parse_maps maps;
  Ok (fold_left (add_vma (parse_smaps_rss smaps)) vmas (Classes [] [] [] 0 0 0 0)).

Definition get_hot_region_addresses (maps smaps : string) : result (list (Z * Z)) :=
  r ← classify_vmas maps smaps;
  Ok ((fun p => (start p.1, end_ p.1)) <$> hot r).

(** ** Lemmas *)

Definition in_zone (z : zone) (v : vma) : bool := bool_decide (zone_of v = z).
Definition zone_list (z : zone) (c : classes) : list (vma * Z) :=
  match z with Cold => cold c | Warm => warm c | Hot => hot c end.
Definition zone_size (z : zone) (c : classes) : Z :=
  match z with Cold => total_cold_size c | Warm => total_warm_size c | Hot => total_hot_size c end.

Lemma add_vmas_spec rss vs c z :
  let r := fold_left (add_vma rss) vs c in
  (zone_list z r).*1 = (zone_list z c).*1 ++ List.filter (in_zone z) vs ∧
  zone_size z r = (zone_size z c + zsum (size <$> List.filter (in_zone z) vs))%Z ∧
  total_vmas r = (total_vmas c + Z.of_nat (length vs))%Z.
Proof.
  revert c. induction vs as [|v vs IH]; intros c; cbn [fold_left].
  - simpl. rewrite app_nil_r. split_and!; [done|unfold zsum; simpl; lia|lia].
  - destruct (IH (add_vma rss c v)) as (H1 & H2 & H3). cbn zeta in *. rewrite H1, H2, H3.
    destruct c as [co wa ho n sc sw sh]. unfold add_vma, in_zone. cbn [List.filter].
    destruct z, (zone_of v) eqn:E; cbn [zone_list zone_size total_vmas cold warm hot
      total_cold_size total_warm_size total_hot_size];
      (case_bool_decide; [|done || congruence]) || (case_bool_decide; [congruence|]);
      rewrite ?fmap_app, <- ?app_assoc; split_and!; try done;
      unfold zsum; simpl length; cbn [foldr fmap list_fmap]; lia.
Qed.

Lemma zone_partition_perm (vs : list vma) :
  vs ≡ₚ List.filter (in_zone Cold) vs ++ List.filter (in_zone Warm) vs ++ List.filter (in_zone Hot) vs.
Proof.
  induction vs as [|v vs IH]; [done|]. cbn [List.filter]. unfold in_zone in *.
  destruct (zone_of v); repeat (case_bool_decide; [|congruence] || (case_bool_decide; [congruence|]));
    rewrite IH at 1; solve_Permutation.
Qed.

(** The three zones partition the mappings of the process: every mapping
    is in exactly one of the lists, in the order of the file, and the sizes of
    a zone add up to its total. *)
Theorem classify_partition maps smaps vs r :
  parse_maps maps = Ok vs → classify_vmas maps smaps = Ok r →
  vs ≡ₚ (cold r).*1 ++ (warm r).*1 ++ (hot r).*1 ∧
  (∀ z, Forall (fun v => zone_of v = z) (zone_list z r).*1) ∧
  (∀ z, zone_size z r = zsum (size <$> (zone_list z r).*1)) ∧
  total_vmas r = Z.of_nat (length vs).
Proof.
  intros Hv Hc. unfold classify_vmas in Hc. rewrite Hv in Hc. unfold mbind, result_bind in Hc.
  injection Hc as <-. set (c0 := Classes [] [] [] 0 0 0 0).
  assert (∀ z, (zone_list z c0) = [] ∧ zone_size z c0 = 0%Z) as H0 by (by intros []).
  pose proof (fun z => add_vmas_spec (parse_smaps_rss smaps) vs c0 z) as H. cbn zeta in H.
  split_and!.
  - destruct (H Cold) as [Ec _], (H Warm) as [Ew _], (H Hot) as [Eh _].
    cbn [zone_list] in *. rewrite Ec, Ew, Eh. apply zone_partition_perm.
  - intros z. destruct (H z) as [E _]. rewrite E, (proj1 (H0 z)). simpl. apply Forall_forall.
    intros v Hv'. apply list_elem_of_In, filter_In in Hv' as [_ Hv'].
    by apply bool_decide_eq_true in Hv'.
  - intros z. destruct (H z) as (E & Es & _). rewrite E, Es, (proj1 (H0 z)), (proj2 (H0 z)). done.
  - by destruct (H Cold) as (_ & _ & ->).
Qed.

Definition sample_maps : string :=
  "00400000-00500000 r-xp 00000000 08:01 11 /usr/bin/python3
7f0000000000-7f0008000000 rw-p 00000000 00:00 0
7ffc0000-7ffd0000 rw-p 00000000 00:00 0 [stack]
".
Definition sample_smaps : string :=
  "7f0000000000-7f0008000000 rw-p 00000000 00:00 0
Rss:               64 kB
".

Example classify_partition_witness :
  ∃ vs r, parse_maps sample_maps = Ok vs ∧ classify_vmas sample_maps sample_smaps = Ok r ∧
    length vs = 3 ∧ total_vmas r = 3%Z ∧ vs ≡ₚ (cold r).*1 ++ (warm r).*1 ++ (hot r).*1.
Proof.
  do 2 eexists. split; [by vm_compute|]. split; [by vm_compute|]. split; [done|].
  split; [done|]. apply (classify_partition sample_maps sample_smaps); by vm_compute.
Defined.

Lemma elem_of_filter_zone z (v : vma) vs : v ∈ List.filter (in_zone z) vs ↔ v ∈ vs ∧ zone_of v = z.
Proof.
  rewrite !list_elem_of_In, filter_In. unfold in_zone. by rewrite bool_decide_eq_true.
Qed.

Lemma zone_hot v : zone_of v = Hot ↔ is_anonymous v = true ∧ writable v = true ∧ (HOT_THRESHOLD <= size v)%Z.
Proof.
  unfold zone_of. rewrite <- Z.leb_le.
  destruct (is_anonymous v), (writable v), (executable v), (HOT_THRESHOLD <=? size v)%Z; simpl; naive_solver.
Qed.

(** The addresses reported for pre-copying are exactly those of the
    anonymous writable mappings of at least 100 MB. *)
Theorem hot_region_addresses_spec maps smaps vs l :
  parse_maps maps = Ok vs → get_hot_region_addresses maps smaps = Ok l →
  ∀ a b, (a, b) ∈ l ↔ ∃ v, v ∈ vs ∧ start v = a ∧ end_ v = b ∧
    is_anonymous v = true ∧ writable v = true ∧ (HOT_THRESHOLD <= size v)%Z.
Proof.
  intros Hv Hl a b. unfold get_hot_region_addresses, classify_vmas in Hl. rewrite Hv in Hl.
  unfold mbind, result_bind in Hl. injection Hl as <-.
  pose proof (add_vmas_spec (parse_smaps_rss smaps) vs (Classes [] [] [] 0 0 0 0) Hot) as [E _].
  cbn [zone_list hot] in E. simpl in E.
  rewrite (list_fmap_compose fst (fun v => (start v, end_ v)) _ : (fun p => (start p.1, end_ p.1)) <$> _ = _).
  rewrite E, list_elem_of_fmap.
  setoid_rewrite elem_of_filter_zone. setoid_rewrite zone_hot. naive_solver.
Qed.

Example hot_region_addresses_spec_witness :
  ∃ vs l, parse_maps sample_maps = Ok vs ∧ get_hot_region_addresses sample_maps sample_smaps = Ok l ∧
    ((0x7f0000000000, 0x7f0008000000)%Z ∈ l).
Proof.
  do 2 eexists. split; [by vm_compute|]. split; [by vm_compute|].
  eapply (hot_region_addresses_spec sample_maps sample_smaps); [by vm_compute..|].
  eexists. split; [right; left|]. by vm_compute.
Defined.
End MemoryClassifier.
