(* ===== verification/Workspace.v ===== *)
(** * The files of the workspace, as [pathlib] sees them

    A file system is a map from absolute paths (lists of names) to files,
    directories and symbolic links.  [realpath] is the walk of
    [os.path.realpath], links within links included; the operations on files
    follow links as the kernel does. *)

From S2P Require Import Prelude PyStr PyText Hoare.
From Stdlib Require Import Ascii.

Inductive node := File (content : string) | Dir | Link (target : string).
#[global] Instance node_eq_dec : EqDecision node.
Proof. solve_decision. Defined.

Notation path := (list string).
Notation fsys := (@gmap (list string) (@list_eq_dec string String.eq_dec) (@list_countable string String.eq_dec String.countable) node).

(** The root directory is there without an entry. *)
Definition node_at (fs : fsys) (p : path) : option node := if bool_decide (p = []) then Some Dir else fs !! p.

(** The names of a path string; [pathlib] drops empty names and dots. *)
Definition names (s : string) : path := split_char "/" s.
Definition dotted (x : string) : bool := bool_decide (x = "") || bool_decide (x = ".").
Definition pure (s : string) : path := List.filter (fun x => negb (dotted x)) (names s).
Definition str_path (p : path) : string := "/" +:+ join "/" p.
(** [str] of a relative path *)
Definition str_rel (p : path) : string := if bool_decide (p = []) then "." else join "/" p.

Definition parent_of (p : path) : path := removelast p.
Definition name_of (p : path) : string := List.last p "".

(** [p.relative_to(root).parts], a comparison of the names. *)
Fixpoint relative_to (p root : path) {struct root} : option path :=
  match root, p with
  | [], _ => Some p
  | r :: root, x :: p => if bool_decide (r = x) then relative_to p root else None
  | _ :: _, [] => None
  end.
Definition inside (root p : path) : bool := if relative_to p root then true else false.

(** ** Resolving links *)

Definition no_such_file {A} : result A := raise FileNotFoundError "[Errno 2] No such file or directory".
Definition not_a_directory {A} : result A := raise NotADirectoryError "[Errno 20] Not a directory".
Definition is_a_directory {A} : result A := raise IsADirectoryError "[Errno 21] Is a directory".
Definition file_exists {A} : result A := raise FileExistsError "[Errno 17] File exists".
Definition symlink_loop {A} : result A := raise RuntimeError "Symlink loop".

Section realpath.
Context (fs : fsys) (strict : bool).

(** [opened]: the links being followed; [sub] follows the target of one. *)
Definition walk_with (opened : list path) (sub : path → path → path → result path) : path → path → result path :=
  fix walk (p rest : path) {struct rest} : result path :=
    match rest with
    | [] => Ok p
    | x :: rest =>
        if dotted x then walk p rest
        else if bool_decide (x = "..") then walk (parent_of p) rest
        else
          let q := p ++ [x] in
          match fs !! q with
          | Some (Link target) =>
              if mem q opened then symlink_loop
              else q' ← sub q (if startswith target "/" then [] else p) (names target); walk q' rest
          | Some (File _) => if strict && negb (bool_decide (rest = [])) then not_a_directory else walk q rest
          | Some Dir => walk q rest
          | None => if strict then no_such_file else walk q rest
          end
    end.

(** Links nest at most as deep as there are links. *)
Fixpoint realpath_loop (depth : nat) (opened : list path) (p rest : path) {struct depth} : result path :=
  match depth with
  | O => raise OutOfFuel "realpath"
  | S depth => walk_with opened (fun q => realpath_loop depth (q :: opened)) p rest
  end.
Definition realpath (p rest : path) : result path := realpath_loop (S (size fs)) [] p rest.
End realpath.

(** ** Operations *)

(** [p.resolve()] of an absolute path *)
Definition resolve (fs : fsys) (p : path) : result path := realpath fs false [] p.

Definition stat (fs : fsys) (p : path) : result (path * node) :=
  q ← realpath fs true [] p; match node_at fs q with Some n => Ok (q, n) | None => no_such_file end.
Definition exists_ (fs : fsys) (p : path) : bool := is_Ok (stat fs p).
Definition is_file (fs : fsys) (p : path) : bool := match stat fs p with Ok (_, File _) => true | _ => false end.
Definition is_dir (fs : fsys) (p : path) : bool := match stat fs p with Ok (_, Dir) => true | _ => false end.

(** [p.read_text(encoding="utf-8", errors="replace")] *)
Definition ascii_text (s : string) : bool := sforall (fun c => (nat_of_ascii c <? 128)%nat) s.
Definition read_text (fs : fsys) (p : path) : result string :=
  r ← stat fs p;
  match r.2 with
  | File c => if ascii_text c then Ok (universal_newlines c) else raise OutOfModel "text that is not ASCII"
  | _ => is_a_directory
  end.

(** [p.write_text(s)]: the file is created when its directory is there. *)
Definition write_text (fs : fsys) (p : path) (s : string) : result fsys :=
  q ← realpath fs false [] p;
  match node_at fs q with
  | Some Dir => is_a_directory
  | _ => match node_at fs (parent_of q) with
         | Some Dir => Ok (<[q := File s]> fs)
         | Some _ => not_a_directory
         | None => no_such_file
         end
  end.

(** [p.mkdir(parents=True, exist_ok=True)], the directories of [rest] below
    [p] from the top; those made before a failure stay. *)
Fixpoint mkdir_loop (fs : fsys) (p rest : path) : result unit * fsys :=
  match rest with
  | [] => (Ok tt, fs)
  | x :: rest =>
      let q := p ++ [x] in
      match fs !! q with
      | None => mkdir_loop (<[q := Dir]> fs) q rest
      | Some Dir => mkdir_loop fs q rest
      | Some (File _) => ((if bool_decide (rest = []) then file_exists else not_a_directory), fs)
      | Some (Link _) => (raise OutOfModel "mkdir through a link", fs)
      end
  end.
Definition mkdirs (fs : fsys) (p : path) : result unit * fsys := mkdir_loop fs [] p.

(** ** Well-formed trees and canonical paths *)

Definition good_name (x : string) : Prop := x ≠ "" ∧ x ≠ "." ∧ x ≠ "..".
(** Every entry lies in a directory and has a proper name. *)
Definition tree (fs : fsys) : Prop := ∀ q n, fs !! q = Some n →
  ∃ p x, q = p ++ [x] ∧ good_name x ∧ node_at fs p = Some Dir.

Definition is_link (n : option node) : bool := match n with Some (Link _) => true | _ => false end.
(** Proper names only, and no link on the way. *)
Definition canonical (fs : fsys) (p : path) : Prop :=
  Forall good_name p ∧ ∀ i, i ≤ length p → is_link (node_at fs (take i p)) = false.

Lemma node_at_nil fs : node_at fs [] = Some Dir.
Proof. done. Qed.
Lemma node_at_snoc fs p x : node_at fs (p ++ [x]) = fs !! (p ++ [x]).
Proof. unfold node_at. rewrite bool_decide_eq_false_2; [done|]. by destruct p. Qed.

Lemma canonical_nil fs : canonical fs [].
Proof. split; [constructor|]. intros i Hi. by destruct i. Qed.

Lemma canonical_snoc fs p x : canonical fs p → good_name x → is_link (fs !! (p ++ [x])) = false → canonical fs (p ++ [x]).
Proof.
  intros [Hg Hl] Hx Hn. split; [by apply Forall_app_2; [|constructor]|]. intros i Hi. rewrite length_app in Hi. simpl in Hi.
  destruct (decide (i = length p + 1)) as [->|].
  - rewrite take_ge; [by rewrite node_at_snoc|]. rewrite length_app. simpl. lia.
  - rewrite take_app_le by lia. apply Hl. lia.
Qed.

Lemma canonical_take fs p i : canonical fs p → canonical fs (take i p).
Proof.
  intros [Hg Hl]. split; [by apply Forall_take|]. intros j Hj. rewrite take_take. rewrite length_take in Hj. apply Hl. lia.
Qed.
Lemma parent_take p : parent_of p = take (length p - 1) p.
Proof.
  unfold parent_of. destruct p as [|x p _] using rev_ind; [done|].
  rewrite removelast_last, length_app, take_app_le, take_ge; simpl; done || lia.
Qed.
Lemma canonical_parent fs p : canonical fs p → canonical fs (parent_of p).
Proof. rewrite parent_take. apply canonical_take. Qed.

Lemma dotted_false x : dotted x = false ↔ x ≠ "" ∧ x ≠ ".".
Proof. unfold dotted. rewrite orb_false_iff, !bool_decide_eq_false. done. Qed.

(** Whatever [realpath] returns is canonical. *)
Lemma walk_canonical fs strict opened sub p rest q :
  (∀ l p rest q, canonical fs p → sub l p rest = Ok q → canonical fs q) →
  canonical fs p → walk_with fs strict opened sub p rest = Ok q → canonical fs q.
Proof.
  intros Hsub. revert p. induction rest as [|x rest IH]; intros p Hp; simpl; [by intros [= <-]|].
  destruct (dotted x) eqn:Hd; [by apply IH|]. case_bool_decide as Hx; [by apply IH, canonical_parent|].
  apply dotted_false in Hd as [Hx1 Hx2].
  assert (is_link (fs !! (p ++ [x])) = false → canonical fs (p ++ [x])) as Hq by (intros; by apply canonical_snoc).
  destruct (fs !! (p ++ [x])) as [[c| |t]|] eqn:E; simpl in Hq.
  - case_match; [done|]. apply IH. auto.
  - apply IH. auto.
  - case_match; [done|]. unfold mbind, result_bind.
    destruct (sub _ _ _) as [q'|] eqn:Es; [|done]. apply IH. eapply Hsub; [|exact Es].
    destruct (startswith t "/"); [apply canonical_nil|done].
  - case_match; [done|]. apply IH. auto.
Qed.
Lemma realpath_canonical fs strict p rest q : canonical fs p → realpath fs strict p rest = Ok q → canonical fs q.
Proof.
  unfold realpath. generalize (S (size fs)) as d. intros d. generalize (@nil path) as opened. revert p rest q.
  induction d as [|d IH]; intros p rest q opened Hp; [done|]. simpl. apply walk_canonical; [|done].
  intros l p' rest' q' Hp' He. by eapply IH.
Qed.

(** The depth is enough. *)
Lemma realpath_fuel fs strict p rest e : realpath fs strict p rest = Err e → exn_cls e ≠ OutOfFuel.
Proof.
  unfold realpath. assert (∀ d opened p rest, NoDup opened → (∀ q, q ∈ opened → is_Some (fs !! q)) →
      size fs < d + length opened → realpath_loop fs strict d opened p rest = Err e → exn_cls e ≠ OutOfFuel) as Hgen.
  2: { apply Hgen; [constructor| |simpl; lia]. intros q Hq. by apply elem_of_nil in Hq. }
  clear p rest. induction d as [|d IH]; intros opened p rest Hnd Hin Hsz.
  - exfalso. assert (length opened ≤ size fs); [|lia]. rewrite <- size_dom.
    rewrite <- (size_list_to_set (C:=gset path)) by done. apply subseteq_size. intros q Hq%elem_of_list_to_set.
    apply elem_of_dom. auto.
  - simpl. revert p. induction rest as [|x rest IHr]; intros p; simpl; [done|].
    destruct (dotted x); [apply IHr|]. case_bool_decide; [apply IHr|].
    destruct (fs !! (p ++ [x])) as [[c| |t]|] eqn:E.
    + case_match; [|apply IHr]. intros [= <-]. done.
    + apply IHr.
    + case_match eqn:Hm; [intros [= <-]; done|]. unfold mbind, result_bind. destruct (realpath_loop _ _ _ _ _ _) eqn:Es; [apply IHr|].
      intros [= ->]. apply mem_false in Hm. eapply IH; [| | |exact Es].
      * by constructor.
      * intros q [->|Hq]%elem_of_cons; [by rewrite E|auto].
      * simpl. lia.
    + case_match; [|apply IHr]. intros [= <-]. done.
Qed.

(** A canonical path resolves to itself. *)
Lemma walk_self fs opened sub p rest : canonical fs (p ++ rest) → walk_with fs false opened sub p rest = Ok (p ++ rest).
Proof.
  revert p. induction rest as [|x rest IH]; intros p Hc; simpl; [by rewrite app_nil_r|].
  assert (good_name x) as (H1 & H2 & H3).
  { destruct Hc as [Hg _]. apply Forall_app in Hg as [_ Hg]. by inversion Hg. }
  rewrite (proj2 (dotted_false x)) by done. rewrite bool_decide_eq_false_2 by done.
  assert (is_link (fs !! (p ++ [x])) = false) as Hl.
  { destruct Hc as [_ Hl]. specialize (Hl (length p + 1)). rewrite length_app in Hl. simpl in Hl.
    rewrite <- node_at_snoc. rewrite <- Hl by lia. f_equal. f_equal. rewrite take_app_ge by lia.
    by replace (length p + 1 - length p) with 1 by lia. }
  specialize (IH (p ++ [x])). rewrite <- app_assoc in IH. simpl in IH.
  destruct (fs !! (p ++ [x])) as [[c| |t]|]; [by apply IH|by apply IH|done|by apply IH].
Qed.
Lemma realpath_self fs p : canonical fs p → realpath fs false [] p = Ok p.
Proof. unfold realpath. simpl. by apply (walk_self fs [] _ []). Qed.

(** The directories above an entry of a tree. *)
Lemma tree_above fs p i : tree fs → is_Some (node_at fs p) → i < length p → node_at fs (take i p) = Some Dir.
Proof.
  intros Ht. revert i. induction p as [|x p IH] using rev_ind; intros i Hs Hi; [simpl in Hi; lia|].
  rewrite node_at_snoc in Hs. destruct Hs as [n Hn]. destruct (Ht _ _ Hn) as (p' & x' & He & _ & Hd).
  apply app_inj_tail in He as [<- <-]. rewrite length_app in Hi. simpl in Hi. rewrite take_app_le by lia.
  destruct (decide (i = length p)) as [->|]; [by rewrite take_ge|]. apply IH; [by rewrite Hd|lia].
Qed.

(** In a tree, looking at a canonical path is looking at its entry. *)
Lemma walk_strict fs opened sub p rest : tree fs → canonical fs (p ++ rest) → is_Some (node_at fs (p ++ rest)) →
  walk_with fs true opened sub p rest = Ok (p ++ rest).
Proof.
  intros Ht. revert p. induction rest as [|x rest IH]; intros p Hc Hs; simpl; [by rewrite app_nil_r|].
  assert (good_name x) as (H1 & H2 & H3).
  { destruct Hc as [Hg _]. apply Forall_app in Hg as [_ Hg]. by inversion Hg. }
  rewrite (proj2 (dotted_false x)) by done. rewrite bool_decide_eq_false_2 by done.
  assert (take (length p + 1) (p ++ x :: rest) = p ++ [x]) as Htk.
  { rewrite take_app_ge by lia. by replace (length p + 1 - length p) with 1 by lia. }
  assert (is_link (fs !! (p ++ [x])) = false) as Hl.
  { destruct Hc as [_ Hl]. specialize (Hl (length p + 1)). rewrite length_app, Htk, node_at_snoc in Hl. apply Hl. simpl. lia. }
  specialize (IH (p ++ [x])). rewrite <- app_assoc in IH. simpl in IH.
  destruct rest as [|y rest].
  - rewrite node_at_snoc in Hs. destruct Hs as [n Hn]. rewrite Hn in *. destruct n; [simpl| |done]; apply IH; try done; rewrite node_at_snoc, Hn; done.
  - pose proof (tree_above fs _ (length p + 1) Ht Hs) as Hd. rewrite Htk, node_at_snoc in Hd.
    rewrite Hd by (rewrite length_app; simpl; lia). by apply IH.
Qed.
Lemma stat_canonical fs p n : tree fs → canonical fs p → node_at fs p = Some n → stat fs p = Ok (p, n).
Proof.
  intros Ht Hc Hn. unfold stat, realpath. simpl. rewrite (walk_strict fs [] _ [] p); simpl; [by rewrite Hn|done..|by rewrite Hn].
Qed.

(** Resolution depends on the links alone. *)
Definition same_links (fs fs' : fsys) : Prop := ∀ p t, fs !! p = Some (Link t) ↔ fs' !! p = Some (Link t).

Lemma walk_agree fs fs' opened (sub sub' : path → path → path → result path) p rest :
  same_links fs fs' → (∀ l p rest, fuelled (sub l p rest) → sub' l p rest = sub l p rest) →
  fuelled (walk_with fs false opened sub p rest) →
  walk_with fs' false opened sub' p rest = walk_with fs false opened sub p rest.
Proof.
  intros Hl Hsub. revert p. induction rest as [|x rest IH]; intros p; simpl; [done|].
  destruct (dotted x); [apply IH|]. case_bool_decide; [apply IH|]. specialize (Hl (p ++ [x])).
  destruct (fs !! (p ++ [x])) as [[c| |t]|] eqn:E; destruct (fs' !! (p ++ [x])) as [[c'| |t']|] eqn:E';
    try (exfalso; naive_solver); try (by apply IH).
  assert (t = t') as <- by naive_solver. case_match; [done|]. unfold mbind, result_bind.
  set (base := if startswith t "/" then [] else p).
  destruct (sub (p ++ [x]) base (names t)) as [q|e] eqn:Es; intros Hf.
  - rewrite (Hsub (p ++ [x]) base (names t)) by (by rewrite Es). rewrite Es. by apply IH.
  - rewrite (Hsub (p ++ [x]) base (names t)) by (by rewrite Es). by rewrite Es.
Qed.
Lemma realpath_agree fs fs' d d' opened p rest : same_links fs fs' → d ≤ d' →
  fuelled (realpath_loop fs false d opened p rest) →
  realpath_loop fs' false d' opened p rest = realpath_loop fs false d opened p rest.
Proof.
  intros Hl. revert d' opened p rest. induction d as [|d IH]; intros [|d'] opened p rest Hd Hf; simpl in *; try done; [lia|].
  apply walk_agree; [done| |done]. intros l p' rest' Hf'. apply IH; [lia|done].
Qed.
Lemma resolve_agree fs fs' p q : same_links fs fs' → resolve fs p = Ok q → resolve fs' p = Ok q.
Proof.
  unfold resolve, realpath. intros Hl Hq. set (d := S (size fs)) in *. set (d' := S (size fs')).
  rewrite <- (realpath_agree fs' fs' d' (d `max` d')); [|done|lia|].
  - rewrite (realpath_agree fs fs' d (d `max` d')); [done|done|lia|by rewrite Hq].
  - unfold fuelled. destruct (realpath_loop fs' false d' [] [] p) eqn:E; [done|]. by eapply (realpath_fuel fs' false [] p).
Qed.

(** ** What the operations change *)

Lemma write_canonical fs p s fs' : canonical fs p → write_text fs p s = Ok fs' →
  fs' = <[p := File s]> fs ∧ p ≠ [] ∧ node_at fs (parent_of p) = Some Dir ∧ node_at fs p ≠ Some Dir.
Proof.
  intros Hc. unfold write_text. rewrite (realpath_self fs p Hc). simpl.
  destruct (node_at fs p) as [[c| |t]|] eqn:E; try done; destruct (node_at fs (parent_of p)) as [[| |]|] eqn:Ed; try done;
    intros [= <-]; (split; [done|]); split_and!; try done; by intros ->.
Qed.

Lemma snoc_parent (p : path) : p ≠ [] → p = parent_of p ++ [name_of p].
Proof. intros H. unfold parent_of, name_of. by apply app_removelast_last. Qed.

Lemma node_at_insert fs p q n : p ≠ [] → node_at (<[p := n]> fs) q = if decide (q = p) then Some n else node_at fs q.
Proof.
  intros Hp. unfold node_at. case_bool_decide as E.
  - rewrite E, decide_False by congruence. done.
  - case_decide as E'; [by rewrite E', lookup_insert_eq|by rewrite lookup_insert_ne].
Qed.

(** Adding an entry in a directory, where there was no directory. *)
Lemma tree_insert fs p n : tree fs → Forall good_name p → p ≠ [] → node_at fs (parent_of p) = Some Dir →
  (node_at fs p = Some Dir → n = Dir) → tree (<[p := n]> fs).
Proof.
  intros Ht Hg Hp Hd Hn q m Hq. destruct (decide (q = p)) as [->|Hne].
  - exists (parent_of p), (name_of p). pose proof (snoc_parent p Hp) as He. split; [done|].
    split; [rewrite He in Hg; apply Forall_app in Hg as [_ Hg]; by inversion Hg|].
    rewrite node_at_insert by done. rewrite decide_False; [done|]. intros E. apply (f_equal length) in He.
    rewrite length_app, E in He. simpl in He. lia.
  - rewrite lookup_insert_ne in Hq by done. destruct (Ht q m Hq) as (p' & x & -> & Hx & Hd'). exists p', x.
    split; [done|]. split; [done|]. rewrite node_at_insert by done. case_decide as E; [|done]. subst p'. by rewrite (Hn Hd').
Qed.

Lemma canonical_insert fs p q n : p ≠ [] → is_link (Some n) = false → canonical fs q → canonical (<[p := n]> fs) q.
Proof.
  intros Hp Hn [Hg Hl]. split; [done|]. intros i Hi. rewrite node_at_insert by done. case_decide; [done|]. by apply Hl.
Qed.

(** [mkdirs] adds directories on the way to [p], and nothing else. *)
Definition only_mkdirs (p : path) (fs fs' : fsys) : Prop :=
  ∀ q, fs' !! q = fs !! q ∨ fs !! q = None ∧ fs' !! q = Some Dir ∧ ∃ i, q = take i p.

Lemma mkdir_loop_spec fs p rest r fs' : tree fs → canonical fs (p ++ rest) → node_at fs p = Some Dir →
  mkdir_loop fs p rest = (r, fs') →
  tree fs' ∧ canonical fs' (p ++ rest) ∧ only_mkdirs (p ++ rest) fs fs' ∧
  (∀ q, is_Some (node_at fs q) → node_at fs' q = node_at fs q) ∧ (r = Ok tt → node_at fs' (p ++ rest) = Some Dir).
Proof.
  revert fs p. induction rest as [|x rest IH]; intros fs p Ht Hc Hd; simpl.
  - rewrite app_nil_r in *. intros [= <- <-]. split_and!; try done. intros q. by left.
  - assert (p ++ x :: rest = (p ++ [x]) ++ rest) as Happ by (by rewrite <- app_assoc). rewrite Happ in Hc |- *.
    assert (canonical fs (p ++ [x])) as Hpx.
    { pose proof (canonical_take fs _ (length (p ++ [x])) Hc) as H. by rewrite take_app_length in H. }
    assert (p ++ [x] ≠ []) as Hne by (by destruct p).
    destruct (fs !! (p ++ [x])) as [[c| |t]|] eqn:E.
    + intros [= <- <-]. split_and!; try done; [intros q; by left|]. case_bool_decide; intros [=].
    + intros H. apply (IH fs (p ++ [x])); try done. by rewrite node_at_snoc.
    + intros [= <- <-]. split_and!; try done. intros q; by left.
    + intros H. assert (parent_of (p ++ [x]) = p) as Hpar by (unfold parent_of; by rewrite removelast_last).
      apply IH in H as (H1 & H2 & H3 & H4 & H5).
      * split_and!; try done.
        -- intros q. destruct (H3 q) as [Hq|(Hq1 & Hq2 & Hq3)].
           ++ destruct (decide (q = p ++ [x])) as [->|].
              ** right. rewrite lookup_insert_eq in Hq. split_and!; [done..|]. exists (length (p ++ [x])). by rewrite take_app_length.
              ** left. by rewrite Hq, lookup_insert_ne.
           ++ right. destruct (decide (q = p ++ [x])) as [->|]; [by rewrite lookup_insert_eq in Hq1|].
              rewrite lookup_insert_ne in Hq1 by done. done.
        -- intros q Hq. rewrite H4; rewrite node_at_insert by done; case_decide; try done.
           subst. rewrite node_at_snoc, E in Hq. by destruct Hq.
      * apply tree_insert; try done; [apply Hpx|by rewrite Hpar].
      * by apply canonical_insert.
      * rewrite node_at_insert by done. by rewrite decide_True.
Qed.

(** ** Below a directory *)

Lemma relative_to_app p root r : relative_to p root = Some r ↔ p = root ++ r.
Proof.
  revert p. induction root as [|x root IH]; intros p; simpl; [split; [by intros [= ->]|by intros ->]|].
  destruct p as [|y p]; [done|]. case_bool_decide as E; [subst; change ((y :: p) = (y :: root) ++ r) with (y :: p = y :: root ++ r)|].
  - rewrite IH. split; [by intros ->|by intros [= ->]].
  - split; [done|]. intros [= <- _]. done.
Qed.
Lemma inside_prefix root p : inside root p = true ↔ root `prefix_of` p.
Proof.
  unfold inside, prefix. destruct (relative_to p root) as [r|] eqn:E.
  - apply relative_to_app in E. split; [eauto|done].
  - split; [done|]. intros [r Hr]. apply relative_to_app in Hr. congruence.
Qed.
