(* ===== verification/WorkerActions.v ===== *)
(** * The tools of the agent ([worker/worker_actions.py])

    Each tool takes the repository and the arguments the model gave, a JSON
    object, and returns the text the agent sees; tools raise like the code, and
    [_execute_action] of the worker turns an exception into text.  The state is
    the file system and what the programs the tools start ([git], [bash]) keep.
    Text is ASCII; glob patterns have no character sets. *)

From S2P Require Import Prelude PyStr PyDict PyInt Json PyText Workspace.
From Stdlib Require Import Ascii.

Module WorkerActions.

(** What a finished program leaves. *)
Record proc := Proc { returncode : Z; stdout : string; stderr : string }.

(** Programs, the regular expressions of [re], and the order in which the
    system lists a directory. *)
Class Tools (X : Type) := {
  run_program : path → list string → option string → json → M (fsys * X) proc;
  regex : Type;
  re_compile : bool → string → result regex;   (* with MULTILINE and DOTALL *)
  re_search : regex → string → bool;
  re_subn : regex → string → string → Z → result (string * Z);
  listed : list string → list string           (* the names of a directory *)
}.

Definition SKIP_DIRS : list string :=
  [".git"; ".venv"; "__pycache__"; ".tox"; ".nox"; "node_modules"; "locale"; "translations"; "docs"; "doc"; "build"; "dist"].
Definition DEFAULT_VIEW_LINES : Z := 80.
Definition MAX_VIEW_LINES : Z := 140.

Notation args := (list (string * json)).
(** [a.get(k, dflt)] *)
Definition aget (a : args) (k : string) (dflt : json) : json := match dget k a with Some v => v | None => dflt end.
(** [{a.get(k)}] in a format string *)
Definition shown_arg (a : args) (k : string) : result string := str_json (aget a k JNull).
(** [int(j or dflt)] *)
Definition int_or (j : json) (dflt : Z) : result Z := if truth j then to_int j else Ok dflt.
(** [max(1, min(int(a.get(k, dflt) or dflt), top))] *)
Definition limit_arg (a : args) (k : string) (dflt top : Z) : result Z :=
  n ← int_or (aget a k (JInt dflt)) dflt; Ok (Z.max 1 (Z.min n top)).
(** The operand of a string method or of a concatenation. *)
Definition need_str (j : json) : result string :=
  match j with JStr s => Ok s | _ => raise TypeError "must be str" end.

Definition text_last (n : nat) (s : string) : string := sdrop (String.length s - n) s.
Definition nonempty (s : string) : bool := negb (bool_decide (s = "")).

(** ** Paths *)

Definition _safe_path (fs : fsys) (root : path) (p : json) : result path :=
  s ← as_str (if truth p then p else JStr "");
  let s := lstrip_by (ch_eq "/") (removeprefix (removeprefix s "/repo/") "repo/") in
  full ← resolve fs (root ++ pure s);
  root_resolved ← resolve fs root;
  if inside root_resolved full then Ok full
  else raise ValueError ("path escapes repository root: " +:+ s).

Definition hidden_part (show_hidden : bool) (part : string) : bool :=
  mem part SKIP_DIRS || negb show_hidden && startswith part ".".
Definition _is_hidden_or_skipped (p root : path) (show_hidden : bool) : bool :=
  match relative_to p root with None => true | Some parts => existsb (hidden_part show_hidden) parts end.

(** [str(p.relative_to(root))] *)
Definition rel_str (p root : path) : result string :=
  match relative_to p root with Some r => Ok (str_rel r) | None => raise ValueError "is not in the subpath of" end.

Definition str_le (a b : string) : Prop := str_leb a b = true.
#[global] Instance str_le_dec a b : Decision (str_le a b).
Proof. unfold str_le. apply _. Defined.
Definition sort_strs (l : list string) : list string := merge_sort str_le l.
Fixpoint path_leb (p q : path) : bool :=
  match p, q with
  | [], _ => true
  | _ :: _, [] => false
  | x :: p, y :: q => if bool_decide (x = y) then path_leb p q else str_leb x y
  end.
Definition path_le (p q : path) : Prop := path_leb p q = true.
#[global] Instance path_le_dec p q : Decision (path_le p q).
Proof. unfold path_le. apply _. Defined.
Definition sort_paths (l : list path) : list path := merge_sort path_le l.

(** ** A window of lines *)

(** [lines[i - 1]] for the [k] numbers from [i] on, numbered. *)
Fixpoint numbered (lines : list string) (i : Z) (k : nat) : result (list string) :=
  match k with
  | O => Ok []
  | S k =>
      match lines !! Z.to_nat (i - 1) with
      | Some l => ls ← numbered lines (i + 1) k; Ok ((width6 i +:+ String (PyStr.chr 9) l) :: ls)
      | None => raise IndexError "list index out of range"
      end
  end.
Definition window (n : Z) (start end_ : json) : result (Z * Z) :=
  '(lo, hi) ← match start, end_ with
              | JNull, JNull => Ok (1, Z.min n DEFAULT_VIEW_LINES)%Z
              | _, _ => s ← int_or start 1; let lo := Z.max 1 s in e ← int_or end_ lo; Ok (lo, Z.min n e)
              end;
  Ok (lo, if (MAX_VIEW_LINES <? hi - lo + 1)%Z then (lo + MAX_VIEW_LINES - 1)%Z else hi).
Definition _line_window (text : string) (start end_ : json) : result (string * string) :=
  let lines := splitlines text in
  let n := Z.of_nat (length lines) in
  '(lo, hi) ← window n start end_;
  shown ← match lines with [] => Ok "" | _ => ls ← numbered lines lo (Z.to_nat (Z.max lo hi + 1 - lo)); Ok (join nl ls) end;
  let suffix := if (hi <? n)%Z
    then nl +:+ "... truncated at line " +:+ pretty hi +:+ " of " +:+ pretty n
         +:+ ". Call ViewCode with start_line/end_line, or grep -n to find the region."
    else "" in
  Ok (shown, suffix).

Section tools.
Context {X : Type} `{Tools X}.
Notation A := (M (fsys * X)).

Definition the_fs : A fsys := s ← mget; mret s.1.
Definition update_fs (r : fsys → result unit * fsys) : A unit := fun s => let '(v, fs) := r s.1 in (v, (fs, s.2)).
Definition write (p : path) (s : string) : A unit :=
  update_fs (fun fs => match write_text fs p s with Ok fs' => (Ok tt, fs') | Err e => (Err e, fs) end).
Definition safe (root : path) (p : json) : A path := fs ← the_fs; lift_result (_safe_path fs root p).

(** [except Exception]; what the model leaves out is not caught. *)
Definition catches (e : exn) : bool := negb (mem (exn_cls e) [OutOfModel; OutOfFuel]).

Definition git_diff : list string := ["git"; "--no-pager"; "diff"; "--no-color"; "HEAD"].
Definition _run_git_diff (root : path) : A string :=
  mcatch (p ← run_program root git_diff None (JInt 20); mret (stdout p +:+ stderr p))
         (fun e => if catches e then mret ("(git diff unavailable: " +:+ exn_msg e +:+ ")") else mthrow e).

(** A message that starts with text and an argument. *)
Definition about (before : string) (a : args) (k : string) (after : string) : A (string * bool) :=
  s ← lift_result (shown_arg a k); mret (before +:+ s +:+ after, false).

Definition view_code (root : path) (a : args) : A (string * bool) :=
  full ← safe root (aget a "path" (JStr "")); fs ← the_fs;
  if negb (exists_ fs full) then about "File not found: " a "path" "" else
  if negb (is_file fs full) then about "Path is not a file: " a "path" "" else
  text ← lift_result (read_text fs full);
  '(shown, suffix) ← lift_result (_line_window text (aget a "start_line" JNull) (aget a "end_line" JNull));
  about "" a "path" (nl +:+ "```" +:+ nl +:+ shown +:+ suffix +:+ nl +:+ "```").

(** ** Listings *)

(** The entries of a directory, or everything below it; links are not entered. *)
Definition entries_below (fs : fsys) (dir : path) (recursive : bool) : list path :=
  List.filter (fun p => inside dir p && (if recursive then (length dir <? length p)%nat else (length p =? S (length dir))%nat))
              ((map_to_list fs).*1).

Definition entry_row (fs : fsys) (target : path) (recursive : bool) (p : path) : result (bool * string) :=
  rel ← (if recursive then rel_str p target else Ok (name_of p));
  let d := is_dir fs p in Ok (d, rel +:+ (if d then "/" else "")).
Fixpoint entry_rows (fs : fsys) (target : path) (recursive : bool) (l : list path) : result (list (bool * string)) :=
  match l with [] => Ok [] | p :: l => r ← entry_row fs target recursive p; rs ← entry_rows fs target recursive l; Ok (r :: rs) end.

Definition list_files (root : path) (a : args) : A (string * bool) :=
  let dir := por (aget a "directory" JNull) (JStr ".") in
  target ← safe root dir; fs ← the_fs;
  if negb (exists_ fs target) then
    d ← lift_result (str_json dir); mret ("Error: Directory " +:+ d +:+ " does not exist", false)
  else if negb (is_dir fs target) then about "Error: " a "directory" " is not a directory"
  else
    let recursive := truth (aget a "recursive" (JBool false)) in
    let show_hidden := truth (aget a "show_hidden" (JBool false)) in
    max_results ← lift_result (limit_arg a "max_results" 60 160);
    rows ← lift_result (entry_rows fs target recursive
             (List.filter (fun p => negb (_is_hidden_or_skipped p root show_hidden)) (entries_below fs target recursive)));
    let entries := sort_strs (List.filter fst rows).*2 ++ sort_strs (List.filter (fun r => negb r.1) rows).*2 in
    rel_base ← lift_result (if bool_decide (target = root) then Ok "." else rel_str target root);
    let head := "Contents of '" +:+ rel_base +:+ "'" +:+ (if recursive then " recursively" else "") +:+ ":" in
    let first := take (Z.to_nat max_results) entries in
    let more := if (max_results <? Z.of_nat (length entries))%Z
                then ["... truncated " +:+ pretty (Z.of_nat (length entries) - max_results)%Z +:+ " entries"] else [] in
    mret (join nl (head :: (if bool_decide (first = []) then ["(empty)"] else first) ++ more), false).

(** [os.walk(root)] with the pruning of the tool: the files in order, each as
    the names below the root. *)
Definition children (fs : fsys) (dir : path) : list string :=
  match stat fs dir with Ok (q, Dir) => listed (name_of <$> entries_below fs q false) | _ => [] end.
Fixpoint walk_files (fuel : nat) (fs : fsys) (root rel : path) : list path :=
  match fuel with
  | O => []
  | S fuel =>
      let here := children fs (root ++ rel) in
      let dirs := List.filter (fun x => is_dir fs (root ++ rel ++ [x])) here in
      let files := List.filter (fun x => negb (is_dir fs (root ++ rel ++ [x]))) here in
      let kept := List.filter (fun d => negb (mem d SKIP_DIRS || startswith d ".")) dirs in
      let entered := List.filter (fun d => negb (is_link (match stat fs (root ++ rel) with Ok (q, _) => fs !! (q ++ [d]) | _ => None end))) kept in
      ((fun x => rel ++ [x]) <$> files) ++ List.concat ((fun d => walk_files fuel fs root (rel ++ [d])) <$> entered)
  end.
Definition char_set (p : string) : bool := has_char "[" p.
Definition match_name (s : string) (pattern : json) : result bool :=
  p ← need_str pattern; if char_set p then raise OutOfModel "character set" else Ok (fnmatch p s).

Definition max_visited : nat := Z.to_nat 20000.
(** The files in turn: [inl] when too many were visited. *)
Fixpoint glob_loop (root : path) (pattern : json) (limit : nat) (files : list path) (seen : nat) (matches : list string)
  : result (list string + list string) :=
  match files with
  | [] => Ok (inr matches)
  | rel :: files =>
      if (max_visited <=? seen)%nat then Ok (inl matches)
      else if _is_hidden_or_skipped (root ++ rel) root false then glob_loop root pattern limit files (S seen) matches
      else
        m1 ← match_name (str_rel rel) pattern;
        m2 ← (if (m1 : bool) then Ok true else match_name (name_of rel) pattern);
        if (m2 : bool) then
          let matches := matches ++ [str_rel rel] in
          if (limit <=? length matches)%nat then Ok (inr matches) else glob_loop root pattern limit files (S seen) matches
        else glob_loop root pattern limit files (S seen) matches
  end.
Definition glob_tool (root : path) (a : args) : A (string * bool) :=
  let pattern := aget a "pattern" (JStr "") in
  limit ← lift_result (limit_arg a "max_results" 40 160); fs ← the_fs;
  r ← lift_result (glob_loop root pattern (Z.to_nat limit) (walk_files (S (size fs)) fs root []) 0 []);
  p ← lift_result (str_json pattern);
  match r with
  | inl matches => mret ("Found " +:+ pretty (length matches) +:+ " matches before visiting " +:+ pretty max_visited
                         +:+ " files (truncated):" +:+ nl +:+ join nl matches, false)
  | inr [] => mret ("No files found matching glob pattern '" +:+ p +:+ "'", false)
  | inr matches => mret ("Found " +:+ pretty (length matches) +:+ " files matching '" +:+ p +:+ "':" +:+ nl
                         +:+ join nl (sort_strs matches), false)
  end.

(** ** Searching *)

Definition wildcard (s : string) : bool := has_char "*" s || has_char "?" s || has_char "[" s.
(** The directories at and below [rel], links left aside. *)
Definition dirs_below (fs : fsys) (root rel : path) : list path :=
  match stat fs (root ++ rel) with
  | Ok (q, Dir) =>
      rel :: omap (fun p => if bool_decide (fs !! p = Some Dir) then r ← relative_to p q; Some (rel ++ r) else None)
                  (entries_below fs q true)
  | _ => []
  end.
(** [root.glob(...)], the parts of the pattern below [rel]. *)
Fixpoint glob_from (fs : fsys) (root : path) (parts : list string) (rel : path) : list path :=
  match parts with
  | [] => [rel]
  | part :: parts =>
      if bool_decide (part = "**") then
        remove_dups (List.concat (glob_from fs root parts <$> dirs_below fs root rel))
      else
        let names := if wildcard part then List.filter (fnmatch part) (children fs (root ++ rel)) else [part] in
        let wanted := List.filter (fun x => let p := root ++ rel ++ [x] in
                        if bool_decide (parts = []) then wildcard part || exists_ fs p else is_dir fs p) names in
        List.concat ((fun x => glob_from fs root parts (rel ++ [x])) <$> wanted)
  end.
(** The patterns the model covers: relative, of names, no character sets, [**] only as a name. *)
Definition glob_ok (include : string) : bool :=
  negb (startswith include "/") && negb (endswith include "/") && negb (has_char "[" include)
  && negb (mem ".." (pure include))
  && forallb (fun x => bool_decide (x = "**") || negb (contains x "**")) (pure include).

Definition grep_paths (fs : fsys) (root : path) (include : string) : result (list path) :=
  if wildcard include then
    if glob_ok include
    then Ok (List.filter (is_file fs) ((fun r => root ++ r) <$> glob_from fs root (pure include) []))
    else raise OutOfModel "glob pattern"
  else
    p ← _safe_path fs root (JStr include);
    Ok (if is_file fs p then [p] else if is_dir fs p then List.filter (is_file fs) (entries_below fs p true) else []).

Definition big_file (fs : fsys) (p : path) : bool :=
  match stat fs p with Ok (_, File c) => (2000000 <? Z.of_nat (String.length c))%Z | _ => false end.
(** The lines of one file that match, until [room] of them are found. *)
Fixpoint grep_lines (rx : regex) (rel : string) (lines : list string) (i : Z) (room : nat) : list string :=
  match lines, room with
  | l :: lines, S room' =>
      if re_search rx l then (rel +:+ ":" +:+ pretty i +:+ ": " +:+ stake 240 l) :: grep_lines rx rel lines (i + 1) room'
      else grep_lines rx rel lines (i + 1) room
  | _, _ => []
  end.
Fixpoint grep_loop (rx : regex) (fs : fsys) (root : path) (paths : list path) (room : nat) : result (list string) :=
  match paths, room with
  | p :: paths, S _ =>
      if _is_hidden_or_skipped p root false || big_file fs p then grep_loop rx fs root paths room
      else match read_text fs p with
           | Err e => if catches e then grep_loop rx fs root paths room else Err e
           | Ok text =>
               rel ← rel_str p root;
               let out := grep_lines rx rel (splitlines text) 1 room in
               more ← grep_loop rx fs root paths (room - length out); Ok (out ++ more)
           end
  | _, _ => Ok []
  end.

Definition is_ReError (e : exn) : bool := bool_decide (exn_cls e = ReError).
(** [re.compile(...)] with its handler: [inl] is the message of the tool. *)
Definition compile_arg (multiline : bool) (pattern : json) : result (string + regex) :=
  p ← need_str pattern;
  match re_compile multiline p with
  | Ok rx => Ok (inr rx)
  | Err e => if is_ReError e then Ok (inl ("Invalid regex " +:+ py_repr p +:+ ": " +:+ exn_msg e)) else Err e
  end.

Definition grep_tool (root : path) (a : args) : A (string * bool) :=
  let pattern := aget a "pattern" (JStr "") in
  c ← lift_result (compile_arg false pattern);
  match c with
  | inl m => mret (m, false)
  | inr rx =>
      let include := por (aget a "include" JNull) (JStr "**/*") in
      limit ← lift_result (limit_arg a "max_results" 50 160); fs ← the_fs;
      out ← lift_result (i ← (match include with JStr i => Ok i | _ => raise OutOfModel "include" end);
                         paths ← grep_paths fs root i;
                         grep_loop rx fs root (sort_paths paths) (Z.to_nat limit));
      p ← lift_result (repr_json pattern);
      mret (match out with
            | [] => "No matches for " +:+ p
            | _ => "Found " +:+ pretty (length out) +:+ " matches for " +:+ p +:+ ":" +:+ nl +:+ join nl out
            end, false)
  end.

Definition view_diff (root : path) (a : args) : A (string * bool) :=
  diff ← _run_git_diff root;
  mret (if bool_decide (strip diff = "") then "No changes detected in the workspace."
        else "Current changes:" +:+ nl +:+ stake 6000 diff, false).

(** ** Edits *)

(** [old == new] *)
Definition same_value (old new : json) : result bool :=
  match old, new with
  | JStr o, JStr n => Ok (bool_decide (o = n))
  | JStr _, _ | _, JStr _ => Ok false
  | _, _ => raise OutOfModel "comparison of two values that are not strings"
  end.

Definition string_replace (root : path) (a : args) : A (string * bool) :=
  full ← safe root (aget a "path" (JStr "")); fs ← the_fs;
  if negb (exists_ fs full) then about "File not found: " a "path" "" else
  let old := aget a "old_str" (JStr "") in let new := aget a "new_str" (JStr "") in
  text ← lift_result (read_text fs full);
  same ← lift_result (same_value old new);
  if (same : bool) then mret ("StringReplace no-op: old_str == new_str.", false) else
  old ← lift_result (need_str old);
  let count := count text old in
  if (count =? 0)%nat then about "old_str not found in " a "path" ". ViewCode the region and copy the exact text before retrying." else
  if (1 <? count)%nat then
    about ("old_str occurs " +:+ pretty count +:+ " times in ") a "path" "; add more surrounding context so it is unique." else
  new ← lift_result (need_str new);
  _ ← write full (replace1 text old new);
  diff ← _run_git_diff root;
  if bool_decide (strip diff = "") then
    about "Edited " a "path" (" (StringReplace). git diff is empty under the overlay; do not re-check the diff " +:+
      "— run the failing test or ViewCode the region.")
  else about "Edited " a "path" (" (StringReplace). Diff preview:" +:+ nl +:+ stake 3000 diff).

Definition regex_replace (root : path) (a : args) : A (string * bool) :=
  full ← safe root (aget a "path" (JStr "")); fs ← the_fs;
  if negb (exists_ fs full) then about "File not found: " a "path" "" else
  c ← lift_result (compile_arg true (aget a "pattern" (JStr "")));
  match c with
  | inl m => mret (m, false)
  | inr rx =>
      text ← lift_result (read_text fs full);
      cnt ← lift_result (limit_arg a "count" 1 20);
      repl ← lift_result (need_str (aget a "replacement" (JStr "")));
      '(new_text, n) ← lift_result (re_subn rx repl text cnt);
      if (n =? 0)%Z then about "RegexReplace pattern did not match " a "path" "." else
      if bool_decide (new_text = text) then mret ("RegexReplace matched but produced identical content.", false) else
      _ ← write full new_text;
      diff ← _run_git_diff root;
      about "RegexReplace edited " a "path" (" (n=" +:+ pretty n +:+ "). Diff:" +:+ nl +:+ stake 3000 diff)
  end.

(** [if repl and not repl.endswith(newline): repl += newline] *)
Definition ended (repl : json) : result json :=
  if truth repl then s ← as_str repl; Ok (JStr (if endswith s nl then s else s +:+ nl)) else Ok repl.

Definition replace_lines (root : path) (a : args) : A (string * bool) :=
  full ← safe root (aget a "path" (JStr "")); fs ← the_fs;
  if negb (exists_ fs full) then about "File not found: " a "path" "" else
  text ← lift_result (read_text fs full);
  let lines := lines_keep text in
  start ← lift_result (to_int (aget a "start_line" JNull));
  end_ ← lift_result (int_or (aget a "end_line" JNull) start);
  let n := Z.of_nat (length lines) in
  if ((start <? 1) || (end_ <? start) || (n <? end_))%Z then
    mret ("Invalid line range " +:+ pretty start +:+ "-" +:+ pretty end_ +:+ "; file has " +:+ pretty n +:+ " lines.", false) else
  repl ← lift_result (ended (aget a "new_str" (JStr "")));
  let before := take (Z.to_nat (start - 1)) lines in
  let here := take (Z.to_nat (end_ - (start - 1))) (drop (Z.to_nat (start - 1)) lines) in
  let after := drop (Z.to_nat end_) lines in
  if is_string repl (sconcat here) then mret ("ReplaceLines produced identical content.", false) else
  r ← lift_result (need_str repl);
  _ ← write full (sconcat before +:+ r +:+ sconcat after);
  diff ← _run_git_diff root;
  about "ReplaceLines edited " a "path" (":" +:+ pretty start +:+ "-" +:+ pretty end_ +:+ ". Diff:" +:+ nl +:+ stake 3000 diff).

Definition apply_patch (root : path) (a : args) : A (string * bool) :=
  patch ← lift_result (as_str (por (aget a "patch" JNull) (JStr "")));
  let patch := strip patch in
  if bool_decide (patch = "") then mret ("ApplyPatch received an empty patch.", false) else
  let patch := if endswith patch nl then patch else patch +:+ nl in
  proc ← run_program root ["git"; "apply"; "--whitespace=nowarn"; "-"] (Some patch) (JInt 30);
  if negb (returncode proc =? 0)%Z then
    mret ("ApplyPatch failed (rc=" +:+ pretty (returncode proc) +:+ "):" +:+ nl +:+ text_last 3000 (stderr proc), false) else
  diff ← _run_git_diff root;
  mret ("ApplyPatch applied. Diff:" +:+ nl +:+ stake 4000 diff, false).

Definition create_file (root : path) (a : args) : A (string * bool) :=
  full ← safe root (aget a "path" (JStr "")); fs ← the_fs;
  if exists_ fs full then about "File already exists: " a "path" "" else
  _ ← update_fs (fun fs => mkdirs fs (parent_of full));
  text ← lift_result (need_str (aget a "file_text" (JStr "")));
  _ ← write full text;
  about "Created file " a "path" "".

Definition append_file (root : path) (a : args) : A (string * bool) :=
  full ← safe root (aget a "path" (JStr "")); fs ← the_fs;
  if negb (exists_ fs full) then about "File not found: " a "path" "" else
  old ← lift_result (read_text fs full);
  let sep := if endswith old nl || bool_decide (old = "") then "" else nl in
  new ← lift_result (need_str (aget a "new_str" (JStr "")));
  _ ← write full (old +:+ sep +:+ new);
  about "Appended to " a "path" "".

(** ** Commands *)

(** [float(v)] of the timeout: text is left out. *)
Definition timeout_arg (a : args) : result json := f ← to_float (aget a "timeout" (JInt 60)); Ok (JFloat f).
(** [type(e).__name__] *)
Definition exn_name (c : exn_class) : string :=
  match c with
  | ValueError => "ValueError" | KeyError => "KeyError" | TypeError => "TypeError" | RuntimeError => "RuntimeError"
  | TimeoutError => "TimeoutError" | FileNotFoundError => "FileNotFoundError" | OSError => "OSError"
  | ProcessLookupError => "ProcessLookupError" | ChildProcessError => "ChildProcessError" | SystemExit => "SystemExit"
  | AssertionError => "AssertionError" | AttributeError => "AttributeError" | OverflowError => "OverflowError"
  | IndexError => "IndexError" | FileExistsError => "FileExistsError" | NotADirectoryError => "NotADirectoryError"
  | IsADirectoryError => "IsADirectoryError" | TimeoutExpired => "TimeoutExpired" | ReError => "error"
  | CalledProcessError => "CalledProcessError" | UnsupportedAsyncResources => "UnsupportedAsyncResources"
  | DumpUnavailableError => "DumpUnavailableError" | OverlaySwitchUnsupportedError => "OverlaySwitchUnsupportedError"
  | InterruptedError => "InterruptedError" | OutOfModel => "" | OutOfFuel => ""
  end.

Definition bash (root : path) (a : args) : A (string * bool) :=
  let cmd := por (por (aget a "command" JNull) (aget a "cmd" JNull)) (JStr "") in
  if negb (truth cmd) then mret ("Bash requires a 'command'.", false) else
  mcatch
    (cmd ← lift_result (str_json cmd);
     let full := "cd " +:+ shlex_quote (str_path root) +:+ " && " +:+ cmd in
     timeout ← lift_result (timeout_arg a);
     cp ← run_program root ["bash"; "-c"; full] None timeout;
     mret ("<returncode>" +:+ pretty (returncode cp) +:+ "</returncode>" +:+ nl +:+ stdout cp +:+ stderr cp, false))
    (fun e => if bool_decide (exn_cls e = TimeoutExpired) then mret ("Bash command timed out.", false)
              else if catches e then mret ("Bash error: " +:+ exn_name (exn_cls e) +:+ ": " +:+ exn_msg e, false)
              else mthrow e).

(** ** The table of tools *)

Inductive tool := ViewCode | ListFiles | GlobTool | GrepTool | ViewDiff | StringReplace | RegexReplace | ReplaceLines
  | ApplyPatch | CreateFile | AppendString | Bash.
Definition run_tool (t : tool) : path → args → A (string * bool) :=
  match t with
  | ViewCode => view_code | ListFiles => list_files | GlobTool => glob_tool | GrepTool => grep_tool | ViewDiff => view_diff
  | StringReplace => string_replace | RegexReplace => regex_replace | ReplaceLines => replace_lines
  | ApplyPatch => apply_patch | CreateFile => create_file | AppendString => append_file | Bash => bash
  end.
End tools.

Definition ACTIONS : list (string * (tool * list (string * string))) :=
  [("ViewCode", (ViewCode, [("path", "file to view"); ("start_line?", "1-based"); ("end_line?", "1-based")]));
   ("ListFiles", (ListFiles, [("directory?", "dir (empty=root)"); ("recursive?", "bool"); ("max_results?", "int")]));
   ("GlobTool", (GlobTool, [("pattern", "glob e.g. **/*.py"); ("max_results?", "int")]));
   ("GrepTool", (GrepTool, [("pattern", "regex"); ("include?", "glob e.g. *.py"); ("max_results?", "int")]));
   ("ViewDiff", (ViewDiff, []));
   ("StringReplace", (StringReplace, [("path", "file"); ("old_str", "exact text"); ("new_str", "replacement")]));
   ("RegexReplace", (RegexReplace, [("path", "file"); ("pattern", "regex"); ("replacement", "text"); ("count?", "int")]));
   ("ReplaceLines", (ReplaceLines, [("path", "file"); ("start_line", "1-based"); ("end_line?", "1-based"); ("new_str", "text")]));
   ("ApplyPatch", (ApplyPatch, [("patch", "unified diff")]));
   ("CreateFile", (CreateFile, [("path", "new file"); ("file_text", "content")]));
   ("AppendString", (AppendString, [("path", "file"); ("new_str", "text to append")]));
   ("Bash", (Bash, [("command", "shell command"); ("timeout?", "seconds")]))].
Definition _ALIASES : list (string * string) := [("run", "Bash"); ("shell", "Bash")].

Definition resolve_tool (name : string) : option tool :=
  if bool_decide (name = "") then None else
  let alias := match dget (lower name) _ALIASES with Some k => k | None => "" end in
  match dget name ACTIONS with
  | Some v => Some v.1
  | None =>
      match dget alias ACTIONS with
      | Some v => Some v.1
      | None => match List.find (fun kv => bool_decide (lower kv.1 = lower name)) ACTIONS with
                | Some kv => Some kv.2.1
                | None => None
                end
      end
  end.

Definition catalog : string :=
  let line := fun (kv : string * (tool * list (string * string))) =>
    let args := join ", " ((fun p => p.1 +:+ ": " +:+ p.2) <$> kv.2.2) in
    "- " +:+ kv.1 +:+ ": {" +:+ (if bool_decide (args = "") then "(none)" else args) +:+ "}" in
  join nl ((line <$> ACTIONS) ++ ["- finish: no args; emit when the fix is complete and verified"]).
End WorkerActions.
