(* ===== verification/WorkerActionsSpec.v ===== *)
(** * What the tools of the agent guarantee

    No tool but [ApplyPatch] and [Bash], which hand over to other programs,
    itself changes anything outside the repository, whatever arguments the model
    makes up and whatever links there are; a tool that shows a difference runs
    one [git diff] at its end, about which nothing is assumed there.  Edits
    change what they say and nothing else. *)

From S2P Require Import Prelude Hoare PyStr PyDict PyInt Json PyText Workspace WorkerActions.
From Stdlib Require Import Ascii.

Module WorkerActionsSpec.
Import WorkerActions.

(** Only entries at or below [r] differ. *)
Definition confined (r : path) (fs fs' : fsys) : Prop := ∀ p, inside r p = false → fs' !! p = fs !! p.

#[global] Instance confined_refl r : Reflexive (confined r).
Proof. by intros fs p. Qed.
#[global] Instance confined_trans r : Transitive (confined r).
Proof. intros f1 f2 f3 H1 H2 p Hp. by rewrite H2, H1. Qed.

Section spec.
Context {X : Type} `{Tools X}.
Notation A := (M (fsys * X)).

Context (root r : path).

(** The repository of a run. *)
Definition repo (fs : fsys) : Prop := tree fs ∧ resolve fs root = Ok r ∧ node_at fs r = Some Dir.

Lemma inside_trans p q s : inside p q = true → inside q s = true → inside p s = true.
Proof. rewrite !inside_prefix. apply transitivity. Qed.
Lemma inside_snoc p x : inside p (p ++ [x]) = true.
Proof. apply inside_prefix. by eexists. Qed.
Lemma confined_weaken p q fs fs' : inside p q = true → confined q fs fs' → confined p fs fs'.
Proof. intros Hi Hc s Hs. apply Hc. destruct (inside q s) eqn:E; [|done]. by rewrite (inside_trans p q s) in Hs. Qed.

Lemma safe_path_ok fs p full : resolve fs root = Ok r → _safe_path fs root p = Ok full →
  canonical fs full ∧ inside r full = true.
Proof.
  intros Hr. unfold _safe_path. unfold mbind, result_bind. destruct (as_str _) as [s|]; [|done].
  destruct (resolve fs (root ++ _)) as [q|] eqn:E; [|done]. rewrite Hr. destruct (inside r q) eqn:Ei; [|done]. intros [= <-].
  split; [|done]. eapply realpath_canonical; [apply canonical_nil|exact E].
Qed.

(** ** Reading *)

(** Computations that change nothing. *)
Definition reads {A0 : Type} (m : A A0) : Prop := ∀ s, (m s).2 = s.
Lemma reads_bind {A0 A1 : Type} (m : A A0) (k : A0 → A A1) : reads m → (∀ a, reads (k a)) → reads (m ≫= k).
Proof.
  intros Hm Hk s. unfold mbind, M_bind. specialize (Hm s). destruct (m s) as [[a|e] s']; simpl in *; subst; [apply Hk|done].
Qed.
Lemma reads_ret {A0 : Type} (a : A0) : reads (mret a : A A0).
Proof. done. Qed.
Lemma reads_lift {A0 : Type} (v : result A0) : reads (lift_result v : A A0).
Proof. done. Qed.
Lemma reads_fs : reads (the_fs (X := X)).
Proof. done. Qed.
Lemma reads_safe p : reads (safe root p : A path).
Proof. apply reads_bind; [apply reads_fs|intros; apply reads_lift]. Qed.
Lemma reads_about b a k c : reads (about b a k c : A (string * bool)).
Proof. apply reads_bind; [apply reads_lift|done]. Qed.

Lemma wp_reads {A0 : Type} (m : A A0) Q E s : reads m → (∀ a, m s = (Ok a, s) → Q a s) → (∀ e, E e s) → wp m Q E s.
Proof. intros Hm HQ HE. specialize (Hm s). unfold wp. destruct (m s) as [[a|e] s']; simpl in Hm; subst; auto. Qed.

(** ** The states a tool goes through *)

Context (fs0 : fsys) (x0 : X).
Definition Good (s : fsys * X) : Prop := repo s.1 ∧ confined r fs0 s.1 ∧ s.2 = x0.
(** The difference of the repository: the one program the tools below run. *)
Definition git : A proc := run_program root git_diff None (JInt 20).
(** A computation ends in a good state, or ([b]) in what one [git diff] makes of
    a good state. *)
Definition Safe {A0 : Type} (b : bool) (m : A A0) (s : fsys * X) : Prop :=
  ∃ s1, Good s1 ∧ ((m s).2 = s1 ∨ b = true ∧ (m s).2 = (git s1).2).

Lemma safe_good {A0 : Type} b (m : A A0) s : Good (m s).2 → Safe b m s.
Proof. intros Hg. exists (m s).2. auto. Qed.
Lemma safe_reads {A0 : Type} b (m : A A0) s : reads m → Good s → Safe b m s.
Proof. intros Hm Hs. apply safe_good. by rewrite Hm. Qed.
(** A step that keeps the state good, then the rest. *)
Lemma safe_bind {A0 A1 : Type} b (m : A A0) (k : A0 → A A1) s :
  Good (m s).2 → (∀ a s', m s = (Ok a, s') → Good s' → Safe b (k a) s') → Safe b (m ≫= k) s.
Proof.
  intros Hm Hk. unfold Safe, mbind, M_bind. destruct (m s) as [[a|e] s'] eqn:E; simpl in *; [by apply Hk|].
  exists s'. auto.
Qed.
(** A step that only reads, then the rest from the same state. *)
Lemma safe_after {A0 A1 : Type} b (m : A A0) (k : A0 → A A1) s :
  reads m → Good s → (∀ a, m s = (Ok a, s) → Safe b (k a) s) → Safe b (m ≫= k) s.
Proof.
  intros Hm Hs Hk. apply safe_bind; [by rewrite Hm|]. intros a s' E _. pose proof (Hm s) as Es. rewrite E in Es. simpl in Es. subst s'. by apply Hk.
Qed.
(** The check of a path, then the rest. *)
Lemma safe_path {A1 : Type} b p (k : path → A A1) s : Good s →
  (∀ full, canonical s.1 full → inside r full = true → Safe b (k full) s) → Safe b (full ← safe root p; k full) s.
Proof.
  intros Hs Hk. apply safe_after; [apply reads_safe|done|]. intros full. unfold safe, the_fs, mget, lift_result, mbind, M_bind, mret, M_ret.
  destruct (_safe_path s.1 root p) as [q|] eqn:E; intros [= ->]. destruct Hs as [(_ & Hr & _) _].
  destruct (safe_path_ok _ _ _ Hr E). by apply Hk.
Qed.

(** A file written below the repository. *)
Lemma good_insert s p c : Good s → canonical s.1 p → inside r p = true → p ≠ [] → node_at s.1 (parent_of p) = Some Dir →
  node_at s.1 p ≠ Some Dir → Good (<[p := File c]> s.1, s.2).
Proof.
  intros [(Ht & Hr & Hd) [Hc Hx]] Hp Hi Hne Hpar Hnd. split; [|split; [|done]].
  - split; [by apply tree_insert; [| apply Hp| | |]|]. split.
    + eapply resolve_agree; [|exact Hr]. intros q t. simpl. destruct (decide (q = p)) as [->|].
      * rewrite lookup_insert_eq. destruct Hp as [_ Hl]. specialize (Hl (length p) ltac:(done)). rewrite take_ge in Hl by done.
        unfold node_at in Hl. rewrite bool_decide_eq_false_2 in Hl by done. split; [intros E; by rewrite E in Hl|done].
      * by rewrite lookup_insert_ne.
    + simpl. rewrite node_at_insert by done. case_decide; [by subst|done].
  - intros q Hq. simpl. rewrite lookup_insert_ne; [by apply Hc|]. intros ->. congruence.
Qed.
Lemma write_good p c s : Good s → canonical s.1 p → inside r p = true → Good (write p c s).2.
Proof.
  intros Hs Hp Hi. unfold write, update_fs. destruct (write_text s.1 p c) as [fs'|e] eqn:E; [|by destruct s].
  destruct (write_canonical _ _ _ _ Hp E) as (-> & Hne & Hpar & Hnd). by apply good_insert.
Qed.

(** ** The difference of the repository *)

Lemma diff_state s : (_run_git_diff root s).2 = (git s).2.
Proof.
  unfold _run_git_diff, git, mcatch, mbind, M_bind, mret, M_ret, mthrow. destruct (run_program _ _ _ _ s) as [[p|e] s']; [done|]. by destruct (catches e).
Qed.
Lemma diff_safe {A1 : Type} (k : string → A A1) s : Good s → (∀ d, reads (k d)) → Safe true (d ← _run_git_diff root; k d) s.
Proof.
  intros Hs Hk. exists s. split; [done|]. right. split; [done|]. rewrite <- diff_state. unfold mbind, M_bind.
  destruct (_run_git_diff root s) as [[d|e] s']; [apply Hk|done].
Qed.
(** An edit: the file is written, and the answer shows the difference. *)
Lemma edit_safe {A1 : Type} p c (k : string → A A1) s : Good s → canonical s.1 p → inside r p = true → (∀ d, reads (k d)) →
  Safe true (_ ← write p c; d ← _run_git_diff root; k d) s.
Proof.
  intros Hs Hp Hi Hk. apply safe_bind; [by apply write_good|]. intros a s' _ Hs'. by apply diff_safe.
Qed.

(** ** Tool by tool *)

Ltac solve_reads :=
  repeat (intros; cbv zeta;
    match goal with
    | |- reads (mret _) => apply reads_ret
    | |- reads (lift_result _) => apply reads_lift
    | |- reads (about _ _ _ _) => apply reads_about
    | |- reads the_fs => apply reads_fs
    | |- reads (safe _ _) => apply reads_safe
    | |- reads (_ ≫= _) => apply reads_bind
    | |- reads (match ?x with _ => _ end) => destruct x
    end).
Ltac safe_steps :=
  repeat (cbv zeta;
    match goal with
    | |- Safe _ (safe root _ ≫= _) _ => apply safe_path; [assumption|intros full Hcan Hin]
    | |- Safe _ (the_fs ≫= _) _ => apply safe_after; [apply reads_fs|assumption|intros ? _]
    | |- Safe _ (lift_result _ ≫= _) _ => apply safe_after; [apply reads_lift|assumption|intros ? _]
    | |- Safe _ (write _ _ ≫= fun _ => _run_git_diff root ≫= _) _ => apply edit_safe; [assumption..|solve_reads]
    | |- Safe _ (match ?x with _ => _ end) _ => destruct x
    | |- Safe _ (about _ _ _ _) _ => apply safe_reads; [apply reads_about|assumption]
    | |- Safe _ (mret _) _ => apply safe_reads; [apply reads_ret|assumption]
    end).

Lemma view_code_reads a : reads (view_code root a).
Proof. unfold view_code. solve_reads. Qed.
Lemma list_files_reads a : reads (list_files root a).
Proof. unfold list_files. solve_reads. Qed.
Lemma glob_tool_reads a : reads (glob_tool root a).
Proof. unfold glob_tool. solve_reads. Qed.
Lemma grep_tool_reads a : reads (grep_tool root a).
Proof. unfold grep_tool. solve_reads. Qed.

Lemma view_diff_safe a s : Good s → Safe true (view_diff root a) s.
Proof. intros Hs. by apply diff_safe. Qed.
Lemma string_replace_safe a s : Good s → Safe true (string_replace root a) s.
Proof. intros Hs. unfold string_replace. safe_steps. Qed.
Lemma regex_replace_safe a s : Good s → Safe true (regex_replace root a) s.
Proof. intros Hs. unfold regex_replace. safe_steps. Qed.
Lemma replace_lines_safe a s : Good s → Safe true (replace_lines root a) s.
Proof. intros Hs. unfold replace_lines. safe_steps. Qed.
Lemma append_file_safe a s : Good s → Safe false (append_file root a) s.
Proof.
  intros Hs. unfold append_file. safe_steps.
  apply safe_bind; [by apply write_good|]. intros a4 s' _ Hs'. apply safe_reads; [apply reads_about|done].
Qed.

(** The directories made on the way to a file of the repository. *)
Lemma mkdirs_good s p v fs' : Good s → canonical s.1 p → inside r p = true → mkdirs s.1 (parent_of p) = (v, fs') →
  Good (fs', s.2) ∧ canonical fs' p.
Proof.
  intros [(Ht & Hr & Hd) [Hc Hx]] Hp Hi Hm.
  destruct (mkdir_loop_spec s.1 [] (parent_of p) v fs') as (H1 & H2 & H3 & H4 & _); [done|by apply canonical_parent|done|done|].
  assert (∀ q, is_link (fs' !! q) = is_link (s.1 !! q)) as Hl by (intros q; destruct (H3 q) as [Eq|(E1 & E2 & _)]; [by rewrite Eq|by rewrite E1, E2]).
  split; [split; [split; [done|split]|split; [|done]]|].
  - eapply resolve_agree; [|exact Hr]. intros q t. simpl. destruct (H3 q) as [->|(-> & -> & _)]; [done|]. by split.
  - simpl. by rewrite H4, Hd by (rewrite Hd; done).
  - intros q Hq. simpl. destruct (H3 q) as [->|(E & E' & i & ->)]; [by apply Hc|]. exfalso.
    assert (is_Some (node_at s.1 r)) as Hrs by (by rewrite Hd).
    apply inside_prefix in Hi. simpl in Hq, E, E'.
    assert (take i (parent_of p) = take (i `min` (length p - 1)) p) as Et by (by rewrite parent_take, take_take).
    rewrite Et in *. set (k := i `min` (length p - 1)) in *.
    destruct (decide (length r ≤ k)) as [Hle|Hgt].
    + apply not_true_iff_false in Hq. apply Hq, inside_prefix. destruct Hi as [l ->].
      exists (take (k - length r) l). by rewrite take_app_ge by done.
    + destruct Hi as [l ->]. rewrite take_app_le in E by lia. pose proof (tree_above _ _ k Ht Hrs ltac:(lia)) as Hk.
      unfold node_at in Hk. case_bool_decide as Hz; [|congruence].
      destruct (H1 _ _ E') as (p' & x & He & _). rewrite take_app_le, Hz in He by lia. by destruct p'.
  - destruct Hp as [Hg Hlk]. split; [done|]. intros i Hi'. specialize (Hlk i Hi'). unfold node_at in *. case_bool_decide; [done|].
    by rewrite Hl.
Qed.

Lemma create_file_safe a s : Good s → Safe false (create_file root a) s.
Proof.
  intros Hs. unfold create_file. safe_steps.
  destruct (mkdirs s.1 (parent_of full)) as [v fs'] eqn:Em.
  destruct (mkdirs_good s full v fs') as [Hg Hc]; [done..|].
  assert (update_fs (fun fs => mkdirs fs (parent_of full)) s = (v, (fs', s.2))) as Eu by (unfold update_fs; by rewrite Em).
  apply safe_bind; rewrite Eu; [done|]. intros [] s' [= -> <-] _. apply safe_after; [apply reads_lift|done|]. intros text _.
  apply safe_bind; [by apply write_good|]. intros [] s2 _ Hs2. apply safe_reads; [apply reads_about|done].
Qed.

(** The tools that end with a difference. *)
Definition shows_diff (t : tool) : bool :=
  match t with ViewDiff | StringReplace | RegexReplace | ReplaceLines => true | _ => false end.
(** The tools that only look. *)
Definition only_looks (t : tool) : bool := match t with ViewCode | ListFiles | GlobTool | GrepTool => true | _ => false end.
Lemma run_tool_reads t a : only_looks t = true → reads (run_tool t root a).
Proof.
  destruct t; try done; intros _; cbn [run_tool]; [apply view_code_reads|apply list_files_reads|apply glob_tool_reads|apply grep_tool_reads].
Qed.
Lemma run_tool_safe t a s : t ≠ ApplyPatch → t ≠ Bash → Good s → Safe (shows_diff t) (run_tool t root a) s.
Proof.
  intros H1 H2 Hs. destruct (only_looks t) eqn:El; [by apply safe_reads; [apply run_tool_reads|]|].
  destruct t; try done; cbn [run_tool shows_diff].
  - by apply view_diff_safe.
  - by apply string_replace_safe.
  - by apply regex_replace_safe.
  - by apply replace_lines_safe.
  - by apply create_file_safe.
  - by apply append_file_safe.
Qed.
End spec.

(** ** Edits *)

Section edits.
Context {X : Type} `{Tools X}.
Notation A := (M (fsys * X)).
Context (root r : path) (fs : fsys) (x : X) (full : path) (c p : string) (a : args).

(** A [git diff] of the repository leaves the file [full] as it is, and when it
    fails the exception is one of Python's. *)
Definition spares : Prop := ∀ s, repo root r s.1 →
  wp (git root) (fun _ s' => s'.1 !! full = s.1 !! full) (fun e s' => catches e = true ∧ s'.1 !! full = s.1 !! full) s.
Context (git_spares : spares).

(** The file an edit is about: ASCII, in the repository. *)
Record edited : Prop := {
  ed_repo : repo root r fs;
  ed_path : _safe_path fs root (JStr p) = Ok full;
  ed_arg : aget a "path" (JStr "") = JStr p ∧ aget a "path" JNull = JStr p;
  ed_file : fs !! full = Some (File c);
  ed_ascii : ascii_text c = true
}.
Context (Hed : edited).

Lemma wp_val {A0 A1 : Type} (m : A A0) (k : A0 → A A1) v Q E s : m s = (Ok v, s) → wp (k v) Q E s → wp (m ≫= k) Q E s.
Proof. intros Hm Hk. apply wp_bind. unfold wp. by rewrite Hm. Qed.

Lemma ed_canonical : canonical fs full ∧ inside r full = true.
Proof. eapply safe_path_ok; [apply Hed|apply Hed]. Qed.
Lemma ed_node : full ≠ [] ∧ node_at fs full = Some (File c).
Proof.
  assert (full ≠ []) as Hne.
  { intros E. pose proof (ed_file Hed) as Hf. rewrite E in Hf. destruct (proj1 (ed_repo Hed) _ _ Hf) as ([|] & y & He & _); done. }
  split; [done|]. unfold node_at. rewrite bool_decide_eq_false_2 by done. apply Hed.
Qed.
Lemma ed_stat : stat fs full = Ok (full, File c).
Proof. apply stat_canonical; [apply Hed|apply ed_canonical|apply ed_node]. Qed.
Lemma ed_exists : exists_ fs full = true.
Proof. unfold exists_. by rewrite ed_stat. Qed.
Lemma ed_read : read_text fs full = Ok (universal_newlines c).
Proof. unfold read_text. rewrite ed_stat. cbn. by rewrite (ed_ascii Hed). Qed.
Lemma ed_write s : write full s (fs, x) = (Ok tt, (<[full := File s]> fs, x)).
Proof.
  unfold write, update_fs, write_text. simpl. rewrite (realpath_self fs full) by apply ed_canonical. simpl.
  destruct ed_node as [Hne Hn]. rewrite Hn.
  assert (node_at fs (parent_of full) = Some Dir) as Hp; [|by rewrite Hp].
  rewrite parent_take. apply tree_above; [apply Hed|by rewrite Hn|]. destruct full; simpl; [done|lia].
Qed.
Lemma ed_safe : safe root (aget a "path" (JStr "")) (fs, x) = (Ok full, (fs, x)).
Proof. rewrite (proj1 (ed_arg Hed)). unfold safe, the_fs, mbind, M_bind, mget, mret, M_ret, lift_result. simpl. by rewrite (ed_path Hed). Qed.
Lemma ed_about b k (s : fsys * X) : about b a "path" k s = (Ok (b +:+ p +:+ k, false), s).
Proof. unfold about, shown_arg. by rewrite (proj2 (ed_arg Hed)). Qed.

(** After the write and the difference, the file holds the new text. *)
Lemma ed_finish s (k : string → A (string * bool)) (Q : string → string → Prop) :
  (∀ d s', ∃ m, k d s' = (Ok (m, false), s') ∧ Q d m) →
  wp (_ ← write full s; d ← _run_git_diff root; k d)
     (fun v s' => ∃ d, Q d v.1 ∧ v.2 = false ∧ s'.1 !! full = Some (File s)) (fun _ _ => False) (fs, x).
Proof.
  intros Hk. destruct ed_canonical as [Hc Hi]. apply wp_bind. unfold wp at 1. rewrite ed_write.
  destruct ed_node as [Hne Hn].
  assert (Good root r fs x (<[full := File s]> fs, x)) as [Hg _].
  { apply (good_insert root r fs x (fs, x)); try done.
    - split; [apply Hed|done].
    - simpl. rewrite parent_take. apply tree_above; [apply Hed|by rewrite Hn|]. destruct full; simpl; [done|lia].
    - simpl. by rewrite Hn. }
  pose proof (git_spares _ Hg) as Hsp. unfold wp, git in Hsp. apply wp_bind. unfold _run_git_diff. apply wp_catch, wp_bind.
  assert (∀ d s', s'.1 !! full = <[full := File s]> fs !! full → wp (k d) (fun v s' => ∃ d, Q d v.1 ∧ v.2 = false ∧ s'.1 !! full = Some (File s)) (fun _ _ => False) s') as Hend.
  { intros d s' E. destruct (Hk d s') as (m & Hm & HQ). unfold wp. rewrite Hm. exists d. by rewrite E, lookup_insert_eq. }
  unfold wp at 1. destruct (run_program root git_diff None (JInt 20) _) as [[pr|e] s']; [by apply wp_ret, Hend|].
  destruct Hsp as [-> Hsp]. by apply wp_ret, Hend.
Qed.

(** What StringReplace says. *)
Definition replaced_message (diff : string) : string :=
  "Edited " +:+ p +:+ (if bool_decide (strip diff = "")
    then " (StringReplace). git diff is empty under the overlay; do not re-check the diff — run the failing test or ViewCode the region."
    else " (StringReplace). Diff preview:" +:+ nl +:+ stake 3000 diff).
Definition same_message : string := "StringReplace no-op: old_str == new_str.".
Definition missing_message : string :=
  "old_str not found in " +:+ p +:+ ". ViewCode the region and copy the exact text before retrying.".
Definition several_message (n : nat) : string :=
  "old_str occurs " +:+ pretty n +:+ " times in " +:+ p +:+ "; add more surrounding context so it is unique.".

Lemma string_replace_wp old new : aget a "old_str" (JStr "") = JStr old → aget a "new_str" (JStr "") = JStr new →
  let n := count (universal_newlines c) old in
  wp (string_replace root a)
     (fun v s' => v.2 = false ∧
        if bool_decide (old = new) then v.1 = same_message ∧ s' = (fs, x)
        else if (n =? 0)%nat then v.1 = missing_message ∧ s' = (fs, x)
        else if (1 <? n)%nat then v.1 = several_message n ∧ s' = (fs, x)
        else (∃ diff, v.1 = replaced_message diff) ∧ s'.1 !! full = Some (File (replace1 (universal_newlines c) old new)))
     (fun _ _ => False) (fs, x).
Proof.
  intros Hold Hnew n. unfold string_replace. eapply wp_val; [apply ed_safe|]. eapply wp_val; [reflexivity|]. cbn [fst].
  rewrite ed_exists. cbn [negb]. rewrite Hold, Hnew. cbv zeta. rewrite ed_read. do 2 (eapply wp_val; [reflexivity|]).
  case_bool_decide as Hon; [by split|].
  eapply wp_val; [reflexivity|]. fold n. destruct (n =? 0)%nat; [unfold wp; by rewrite ed_about|].
  destruct (1 <? n)%nat; [unfold wp; rewrite ed_about; split; [done|]; split; [|done]; unfold several_message; cbn [fst]; by rewrite !string_app_assoc|].
  eapply wp_val; [reflexivity|]. eapply wp_mono; [apply (ed_finish _ _ (fun d m => m = replaced_message d))| |done].
  - intros d s'. unfold replaced_message. case_bool_decide; rewrite ed_about; eexists; (split; [reflexivity|]); done.
  - intros v s' (d & Hm & Hv & Hs). eauto.
Qed.

Lemma replace_lines_wp st en new : aget a "start_line" JNull = JInt st → aget a "end_line" JNull = JInt en →
  aget a "new_str" (JStr "") = JStr new → (1 ≤ st ≤ en)%Z → (en ≤ Z.of_nat (length (lines_keep (universal_newlines c))))%Z →
  let l := lines_keep (universal_newlines c) in
  let repl := if bool_decide (new = "") || endswith new nl then new else new +:+ nl in
  let here := take (Z.to_nat (en - (st - 1))) (drop (Z.to_nat (st - 1)) l) in
  wp (replace_lines root a)
     (fun v s' => v.2 = false ∧ if bool_decide (repl = sconcat here) then s' = (fs, x) else
        s'.1 !! full = Some (File (sconcat (take (Z.to_nat (st - 1)) l) +:+ repl +:+ sconcat (drop (Z.to_nat en) l))))
     (fun _ _ => False) (fs, x).
Proof.
  intros Hst Hen Hnew Hle Hn l repl here. unfold replace_lines. eapply wp_val; [apply ed_safe|]. eapply wp_val; [reflexivity|]. cbn [fst].
  rewrite ed_exists. cbn [negb]. eapply wp_val; [rewrite ed_read; reflexivity|]. cbv zeta. rewrite Hst, Hen, Hnew.
  eapply wp_val; [reflexivity|]. eapply wp_val.
  { unfold int_or. cbn [truth]. rewrite (proj2 (Z.eqb_neq en 0)) by lia. reflexivity. }
  fold l. assert (en ≤ Z.of_nat (length l))%Z as Hn' by done.
  rewrite (proj2 (Z.ltb_ge st 1)), (proj2 (Z.ltb_ge en st)), (proj2 (Z.ltb_ge (Z.of_nat (length l)) en)) by lia. cbn [orb].
  eapply (wp_val _ _ (JStr repl)).
  { unfold ended, repl. cbn [truth as_str]. case_bool_decide; cbn [negb orb]; [done|].
    unfold mbind, result_bind, lift_result. by destruct (endswith new nl). }
  cbn [is_string]. fold here. case_bool_decide; [done|]. eapply wp_val; [reflexivity|].
  eapply wp_mono; [apply (ed_finish _ _ (fun _ _ => True))| |done].
  - intros d s'. rewrite ed_about. eauto.
  - intros v s' (d & _ & Hv & Hs). by split.
Qed.
End edits.

(** C17: Whatever arguments the model makes up, paths through links and with
    dots included, a tool that does not hand over to another program reaches,
    returning or raising, a state in which every file outside the repository
    and the repository's place are as they were, and no program has run; a tool
    that only looks changes nothing at all.  That state is what it leaves,
    except that the four tools that show a difference then run one [git diff] in
    it, and leave what that makes of it: git may run programs that the
    repository's configuration names, so nothing is claimed of it. *)
Theorem tools_confined {X} `{Tools X} t root r a fs x : repo root r fs → t ≠ ApplyPatch → t ≠ Bash →
  (only_looks t = true → (run_tool t root a (fs, x)).2 = (fs, x)) ∧
  ∃ fs', repo root r fs' ∧ (∀ p, inside r p = false → fs' !! p = fs !! p) ∧
    ((run_tool t root a (fs, x)).2 = (fs', x) ∨
     shows_diff t = true ∧ (run_tool t root a (fs, x)).2 = (run_program root git_diff None (JInt 20) (fs', x)).2).
Proof.
  intros Hr H1 H2. split; [intros Hl; by apply run_tool_reads|].
  destruct (run_tool_safe root r fs x t a (fs, x) H1 H2) as ([fs' x'] & (Hr' & Hc & Hx) & Ho); [done|].
  simpl in *. subst x'. exists fs'. split; [done|]. split; [exact Hc|]. exact Ho.
Qed.

(** ** A workspace to try the tools on *)

#[global] Instance quiet_tools : Tools unit := {
  run_program _ _ _ _ s := (Ok (Proc 0 "" ""), s);
  regex := string;
  re_compile _ p := Ok p;
  re_search p s := contains s p;
  re_subn p r s _ := Ok (replace1 s p r, if contains s p then 1%Z else 0%Z);
  listed l := l
}.
Lemma quiet_spares root r full : spares (X := unit) root r full.
Proof. by intros s _. Qed.

Definition demo_fs : fsys := list_to_map
  [(["repo"], Dir); (["repo"; "a.py"], File ("one" +:+ nl +:+ "two" +:+ nl +:+ "three" +:+ nl)); (["repo"; "out"], Link "/etc");
   (["etc"], Dir); (["etc"; "passwd"], File "root"); (["here"], Link "repo")].
Lemma demo_tree : tree demo_fs.
Proof.
  intros q n Hq. apply elem_of_map_to_list in Hq. vm_compute in Hq.
  repeat (apply elem_of_cons in Hq as [Hq|Hq]; [injection Hq as -> ->|]); try (by apply elem_of_nil in Hq).
  all: match goal with |- ∃ p x, ?l = _ ∧ _ => exists (removelast l), (List.last l "") end; split_and!; try done; vm_compute; reflexivity.
Qed.
Lemma demo_repo : repo ["repo"] ["repo"] demo_fs.
Proof. split; [apply demo_tree|]. by vm_compute. Qed.

Example demo_escape : (create_file ["repo"] [("path", JStr "out/x"); ("file_text", JStr "")] (demo_fs, tt)).1
  = raise ValueError "path escapes repository root: out/x".
Proof. reflexivity. Qed.
Example demo_create : (create_file ["repo"] [("path", JStr "d/e/f.py"); ("file_text", JStr "x")] (demo_fs, tt)).2.1 !! ["repo"; "d"; "e"; "f.py"]
  = Some (File "x").
Proof. reflexivity. Qed.

(** A repository behind a link can be edited but not listed. *)
Example demo_link_edit : (append_file ["here"] [("path", JStr "a.py"); ("new_str", JStr "4")] (demo_fs, tt)).1 = Ok ("Appended to a.py", false).
Proof. vm_compute. reflexivity. Qed.
Example demo_link_list : (list_files ["here"] [] (demo_fs, tt)).1 = raise ValueError "is not in the subpath of".
Proof. vm_compute. reflexivity. Qed.

Lemma tools_confined_witness :
  let s' := (run_tool CreateFile ["repo"] [("path", JStr "d/e/f.py"); ("file_text", JStr "x")] (demo_fs, tt)).2 in
  s'.1 !! ["etc"; "passwd"] = Some (File "root") ∧ s'.1 !! ["repo"; "d"] = Some Dir.
Proof.
  cbv zeta. split; [|vm_compute; reflexivity].
  destruct (tools_confined CreateFile ["repo"] ["repo"] [("path", JStr "d/e/f.py"); ("file_text", JStr "x")] demo_fs tt
    demo_repo ltac:(discriminate) ltac:(discriminate)) as (_ & fs' & _ & Hc & [->|[Hd _]]); [|discriminate Hd].
  cbn [fst]. rewrite (Hc ["etc"; "passwd"] eq_refl). reflexivity.
Defined.

(** C18: StringReplace always answers and says what it did.  If the two texts are
    the same it says so; if the old one does not occur it says that; if it
    occurs at two places that do not overlap it says how many occurrences
    [str.count] sees; in these cases nothing changes.  Otherwise the old text
    occurs, every other place where it occurs overlaps the first, that first
    occurrence is replaced, all other text kept, and the answer shows a
    difference.  (The [git diff] behind it is taken to leave the file alone.) *)
Theorem string_replace_unique {X} `{Tools X} root r fs x full c p a old new :
  spares root r full → edited root r fs full c p a →
  aget a "old_str" (JStr "") = JStr old → aget a "new_str" (JStr "") = JStr new → old ≠ "" →
  let text := universal_newlines c in
  ∃ msg s', string_replace root a (fs, x) = (Ok (msg, false), s') ∧
    ((old = new ∧ msg = same_message ∧ s' = (fs, x)) ∨
     (old ≠ new ∧ (∀ pre post, text ≠ pre +:+ old +:+ post) ∧ msg = missing_message p ∧ s' = (fs, x)) ∨
     (old ≠ new ∧ (∃ u v w, text = u +:+ old +:+ v +:+ old +:+ w) ∧
        msg = several_message p (count text old) ∧ 1 < count text old ∧ s' = (fs, x)) ∨
     (old ≠ new ∧ (∃ diff, msg = replaced_message p diff) ∧
        ∃ pre post, text = pre +:+ old +:+ post ∧ s'.1 !! full = Some (File (pre +:+ new +:+ post)) ∧
        ∀ pre' post', text = pre' +:+ old +:+ post' → String.length pre ≤ String.length pre' < String.length pre + String.length old)).
Proof.
  intros Hg Hed Hold Hnew Hne text. pose proof (string_replace_wp root r fs x full c p a Hg Hed old new Hold Hnew) as Hw.
  unfold wp in Hw. cbv zeta in Hw. fold text in Hw.
  destruct (string_replace root a (fs, x)) as [[[msg b]|e] s']; [|done]. destruct Hw as [Hb Hw]. simpl in Hb, Hw. subst b.
  exists msg, s'. split; [done|]. case_bool_decide as Hon; [left; destruct Hw; auto|right].
  destruct (Nat.eqb_spec (count text old) 0) as [E0|E0]; [left|right].
  { destruct Hw as [-> ->]. split_and!; [done| |done..]. intros. unfold count in E0. rewrite bool_decide_eq_false_2 in E0 by done. by eapply count_from_zero. }
  destruct (Nat.ltb_spec 1 (count text old)) as [E1|E1]; [left|right].
  { destruct Hw as [-> ->]. split_and!; [done| |done..]. by apply count_two; [|lia]. }
  destruct Hw as [Hm Hs]. split_and!; [done..|]. assert (count text old = 1) as Hc by lia.
  destruct (count_one_overlap text old Hne Hc) as (u & v & Hu & Hmin).
  destruct (replace1_first text old new) as (pre & post & Ht & Hr & Hfirst); [eauto|].
  exists pre, post. split; [done|]. split; [by rewrite <- Hr|]. intros pre' post' Hp. split; [by eapply Hfirst|].
  pose proof (Hmin _ _ Hp). pose proof (Hmin _ _ Ht). pose proof (Hfirst _ _ Hu). lia.
Qed.

Definition demo_replace : args := [("path", JStr "a.py"); ("old_str", JStr "two"); ("new_str", JStr "2")].
Definition demo_lines : args := [("path", JStr "a.py"); ("start_line", JInt 2); ("end_line", JInt 3); ("new_str", JStr "2")].
Lemma demo_edited a : aget a "path" (JStr "") = JStr "a.py" ∧ aget a "path" JNull = JStr "a.py" →
  edited ["repo"] ["repo"] demo_fs ["repo"; "a.py"] ("one" +:+ nl +:+ "two" +:+ nl +:+ "three" +:+ nl) "a.py" a.
Proof. intros Ha. split; [apply demo_repo|reflexivity|exact Ha|reflexivity..]. Qed.

Lemma string_replace_unique_witness : ∃ msg s',
  string_replace ["repo"] demo_replace (demo_fs, tt) = (Ok (msg, false), s') ∧
  s'.1 !! ["repo"; "a.py"] = Some (File ("one" +:+ nl +:+ "2" +:+ nl +:+ "three" +:+ nl)).
Proof.
  destruct (string_replace_unique ["repo"] ["repo"] demo_fs tt _ _ "a.py"
              demo_replace "two" "2"
              (quiet_spares _ _ _) (demo_edited demo_replace (conj eq_refl eq_refl)) eq_refl eq_refl ltac:(discriminate)) as (msg & s' & Hs & _).
  exists msg, s'. split; [exact Hs|]. change s' with (Ok (msg, false), s').2. rewrite <- Hs. vm_compute. reflexivity.
Defined.

Lemma has_char_take c l i : existsb (has_char c) l = false → existsb (has_char c) (take i l) = false.
Proof. revert i. induction l as [|w l IH]; intros [|i]; simpl; try done. intros [-> H]%orb_false_iff. by apply IH. Qed.
Lemma has_char_drop c l i : existsb (has_char c) l = false → existsb (has_char c) (drop i l) = false.
Proof. revert i. induction l as [|w l IH]; intros [|i]; simpl; try done. intros [_ H]%orb_false_iff. by apply IH. Qed.

(** C19: ReplaceLines replaces the lines it names by the lines of the new text
    and leaves all others as they were: read again, the file consists of the
    lines before, the new lines, and the lines after.  (The [git diff] behind it
    is taken to leave the file alone.) *)
Theorem replace_lines_edits {X} `{Tools X} root r fs x full c p a st en new :
  spares root r full → edited root r fs full c p a →
  aget a "start_line" JNull = JInt st → aget a "end_line" JNull = JInt en → aget a "new_str" (JStr "") = JStr new →
  has_char cr new = false →
  let lines := lines_keep (universal_newlines c) in
  (1 ≤ st ≤ en)%Z → (en ≤ Z.of_nat (length lines))%Z →
  ∃ msg s' c', replace_lines root a (fs, x) = (Ok (msg, false), s') ∧ s'.1 !! full = Some (File c') ∧
    lines_keep (universal_newlines c') =
      take (Z.to_nat (st - 1)) lines ++ lines_keep (if bool_decide (new = "") || endswith new nl then new else new +:+ nl)
      ++ drop (Z.to_nat en) lines.
Proof.
  intros Hg Hed Hst Hen Hnew Hcr lines Hle Hn.
  pose proof (replace_lines_wp root r fs x full c p a Hg Hed st en new Hst Hen Hnew Hle Hn) as Hw. cbv zeta in Hw. fold lines in Hw.
  set (repl := if bool_decide (new = "") || endswith new nl then new else new +:+ nl) in *.
  set (i := Z.to_nat (st - 1)) in *. set (j := Z.to_nat en) in *.
  assert (has_char cr (universal_newlines c) = false) as Hu by apply universal_no_cr.
  assert (existsb (has_char cr) lines = false) as Hlc by (by rewrite <- has_char_sconcat; unfold lines; rewrite lines_keep_concat).
  assert (Lined lines) as HL by (by apply lines_keep_Lined).
  assert (Forall ended_line (lines_keep repl) ∧ has_char cr repl = false) as [Hrep Hrc].
  { unfold repl. destruct (decide (new = "")) as [E|E]; [rewrite E; split; [constructor|done]|].
    rewrite bool_decide_eq_false_2 by done. destruct (endswith new nl) eqn:Ee; cbn [orb].
    - split; [|done]. apply endswith_nl in Ee as [t ->]. by apply lines_keep_closed.
    - assert (has_char cr (new +:+ nl) = false) as Hc by (by rewrite has_char_app, Hcr). split; [|done]. by apply lines_keep_closed. }
  assert (lines_keep (sconcat (take i lines) +:+ repl +:+ sconcat (drop j lines)) = take i lines ++ lines_keep repl ++ drop j lines) as Hk.
  { rewrite lines_keep_app by (apply Lined_take; [done|lia]). f_equal.
    rewrite <- (lines_keep_concat repl) at 1. rewrite lines_keep_app by done. f_equal. by apply Lined_concat, Lined_drop. }
  unfold wp in Hw. destruct (replace_lines root a (fs, x)) as [[[msg b]|e] s']; [|done]. destruct Hw as [Hb Hw]. simpl in Hb. subst b.
  exists msg, s'. case_bool_decide as Heq.
  - exists c. subst s'. split; [done|]. split; [apply Hed|]. fold lines. rewrite <- Hk, Heq.
    replace (Z.to_nat (en - (st - 1))) with (j - i) by lia.
    rewrite <- sconcat_app. assert (drop j lines = drop (j - i) (drop i lines)) as -> by (rewrite drop_drop; f_equal; lia).
    rewrite take_drop, <- sconcat_app, take_drop. unfold lines. by rewrite lines_keep_concat.
  - eexists. split; [done|]. split; [exact Hw|]. rewrite universal_id; [exact Hk|].
    rewrite !has_char_app, !has_char_sconcat, Hrc, has_char_take, has_char_drop by done. done.
Qed.

Lemma replace_lines_edits_witness : ∃ msg s' c',
  replace_lines ["repo"] demo_lines (demo_fs, tt)
    = (Ok (msg, false), s') ∧ s'.1 !! ["repo"; "a.py"] = Some (File c') ∧
  lines_keep (universal_newlines c') = ["one" +:+ nl; "2" +:+ nl].
Proof.
  refine (replace_lines_edits ["repo"] ["repo"] demo_fs tt _ _ "a.py"
    demo_lines 2 3 "2"
    (quiet_spares _ _ _) (demo_edited demo_lines (conj eq_refl eq_refl)) eq_refl eq_refl eq_refl eq_refl _ _).
  - split; discriminate.
  - vm_compute. discriminate.
Defined.

(** A window that starts behind the last line raises. *)
Lemma window_past_end text st en : splitlines text ≠ [] → (Z.of_nat (length (splitlines text)) < st)%Z →
  _line_window text (JInt st) en = raise IndexError "list index out of range" ∨ ∃ e, int_or en (Z.max 1 st) = Err e.
Proof.
  intros Hne Hst. unfold _line_window, window. set (n := Z.of_nat (length (splitlines text))) in *.
  assert (int_or (JInt st) 1 = Ok st) as Hs by (unfold int_or; cbn; by rewrite (proj2 (Z.eqb_neq st 0)) by lia).
  rewrite Hs. unfold mbind, result_bind. cbv beta iota. destruct (int_or en (Z.max 1 st)) as [e|e]; [left|by right; eauto].
  destruct (Z.ltb_spec MAX_VIEW_LINES (Z.min n e - Z.max 1 st + 1)) as [Hm|Hm]; [unfold MAX_VIEW_LINES in Hm; lia|].
  destruct (splitlines text) as [|w ws] eqn:Ew; [done|]. set (hi := Z.min n e) in *. rewrite <- Ew.
  assert (∃ k, Z.to_nat (Z.max (Z.max 1 st) hi + 1 - Z.max 1 st) = S k) as [k ->] by (exists 0; unfold hi; lia).
  cbn [numbered]. rewrite lookup_ge_None_2; [done|]. rewrite Ew. lia.
Qed.
End WorkerActionsSpec.
