(* ===== verification/Worker.v ===== *)
(** * The agent worker ([worker/agent_worker.py])

    One thread, one loop: control lines of the host on one FIFO, the ids of
    finished model calls on another.  What the agent has learned so far
    ([State]) lives in the process, so that a checkpoint keeps it.  [iteration]
    is one turn of [main]'s loop; between turns the host, the network proxy
    daemon and the clock change the [world].  [None] in a directory is a file
    that is not JSON; [faults] says which of the next file and FIFO writes
    fail; the reads of the epoch file and of a response that is there succeed.
    The warm-template endpoint is the subject of [Template]; threads,
    logging and garbage collection are left out. *)

From S2P Require Import Prelude PyStr PyDict PyInt Json JsonText PyText Workspace WorkerActions Npd.
From Stdlib Require Import Ascii.

Module Worker.
Import WorkerActions.

(** ** Slices with Python's negative indices *)

Definition upto (i : Z) (s : string) : string :=
  stake (Z.to_nat (if (i <? 0)%Z then Z.of_nat (String.length s) + i else i)) s.
Definition onward (i : Z) (s : string) : string :=
  sdrop (Z.to_nat (if (i <? 0)%Z then Z.of_nat (String.length s) + i else i)) s.
Definition lonward {A} (i : Z) (l : list A) : list A :=
  drop (Z.to_nat (if (i <? 0)%Z then Z.of_nat (length l) + i else i)) l.

(** ** State *)

Record state := State {
  step : Z; repo_path : json; task : json; conversation : list json;
  last_action : json; last_observation : json; finished : bool; phase : string; ready : bool
}.
Definition booting : state := State 0 JNull JNull [] JNull JNull false "booting" false.

(** The variables of [main]: what was read of a line, and the model calls that
    are under way with the request they belong to. *)
Record ctx := Ctx { ctrl_id : json; start_ts : Z }.
Record locals := Locals { in_buf : string; notify_buf : string; pending : list (string * ctx) }.

Record config := Config { MAX_OBS_CHARS : Z; MAX_CONTEXT_TURNS : Z; pid : Z }.

Record world (X : Type) := World {
  files : fsys * X;
  req_dir : list (string * option json); resp_dir : list (string * option json); req_fifo : string; epoch_file : option string;
  in_pipe : string; notify_pipe : string; out : list json;
  now : Z; uuids : list string; faults : list bool
}.
Arguments World {X}. Arguments files {X}. Arguments req_dir {X}. Arguments resp_dir {X}. Arguments req_fifo {X}.
Arguments epoch_file {X}. Arguments in_pipe {X}. Arguments notify_pipe {X}. Arguments out {X}. Arguments now {X}.
Arguments uuids {X}. Arguments faults {X}.

(** The whole of a turn. *)
Record turn (X : Type) := Turn { st : state; lo : locals; wo : world X }.
Arguments Turn {X}. Arguments st {X}. Arguments lo {X}. Arguments wo {X}.

Section worker.
Context {X : Type} `{Tools X} (cfg : config).
Notation W := (M (turn X)).

Definition set_st (f : state → state) : W unit := mmod (fun t => Turn (f (st t)) (lo t) (wo t)).
Definition set_lo (f : locals → locals) : W unit := mmod (fun t => Turn (st t) (f (lo t)) (wo t)).
Definition set_wo (f : world X → world X) : W unit := mmod (fun t => Turn (st t) (lo t) (f (wo t))).
Definition get_st : W state := t ← mget; mret (st t).
Definition get_lo : W locals := t ← mget; mret (lo t).
Definition get_wo : W (world X) := t ← mget; mret (wo t).

Definition say (m : json) (s : state) : state :=
  State (step s) (repo_path s) (task s) (conversation s ++ [m]) (last_action s) (last_observation s) (finished s) (phase s) (ready s).
Definition in_phase (p : string) (s : state) : state :=
  State (step s) (repo_path s) (task s) (conversation s) (last_action s) (last_observation s) (finished s) p (ready s).
Definition message (role content : json) : json := JObj [("role", role); ("content", content)].

(** A write that may fail. *)
Definition flaky (f : world X → world X) : W unit :=
  w ← get_wo;
  let rest := World (files w) (req_dir w) (resp_dir w) (req_fifo w) (epoch_file w) (in_pipe w) (notify_pipe w) (out w)
                (now w) (uuids w) (tail (faults w)) in
  _ ← set_wo (fun _ => rest);
  if match faults w with true :: _ => true | _ => false end then mraise OSError "write" else set_wo f.

Definition reply (obj : json) : W unit :=
  flaky (fun w => World (files w) (req_dir w) (resp_dir w) (req_fifo w) (epoch_file w) (in_pipe w) (notify_pipe w) (out w ++ [obj])
                    (now w) (uuids w) (faults w)).

Definition state_summary : W json :=
  s ← get_st; w ← get_wo;
  mret (JObj [("pid", JInt (pid cfg)); ("step", JInt (step s)); ("repo_path", repo_path s);
              ("n_messages", JInt (Z.of_nat (length (conversation s)))); ("last_action", last_action s);
              ("finished", JBool (finished s)); ("phase", JStr (phase s)); ("ts", JFloat (fdiv (fround (now w) 0) (fround 1000 0)))]).

(** ** Text *)

Definition truncate (s : string) : string :=
  let limit := MAX_OBS_CHARS cfg in
  let n := Z.of_nat (String.length s) in
  if (n <=? limit)%Z then s else
  let half := (limit / 2)%Z in
  upto half s +:+ nl +:+ "...[truncated " +:+ pretty (n - limit)%Z +:+ " chars]..." +:+ nl +:+ onward (- half) s.
Definition _truncate (s : json) : result string :=
  match s with
  | JNull => Ok ""
  | JStr s => Ok (truncate s)
  | JArr _ | JObj _ => raise OutOfModel "observation"
  | _ => raise TypeError "object has no len()"
  end.

(** The first JSON object in a text. *)
Definition decode_failed (e : exn) : bool := bool_decide (exn_cls e = ValueError).
Fixpoint first_object (s : string) : result (option json) :=
  match s with
  | EmptyString => Ok None
  | String c s' =>
      if ch_eq c "{" then
        match parse_value (2 * String.length s + 1) s with
        | Ok (JObj d, _) => Ok (Some (JObj d))
        | Ok _ => first_object s'
        | Err e => if decode_failed e then first_object s' else Err e
        end
      else first_object s'
  end.
Definition unfence (fence s : string) : string :=
  if startswith s fence then lstrip_by is_space (sdrop (String.length fence) s) else s.
Definition _extract_first_json (text : json) : result (option json) :=
  s ← as_str (por text (JStr ""));
  let s := unfence "```" (unfence "```json" (strip s)) in
  first_object (if endswith s "```" then rstrip_by is_space (sdrop_end 3 s) else s).

Definition _context_messages (conv : list json) (extra : json) : result (list json) :=
  match conv with
  | [] => Ok []
  | system :: body =>
      let turns := (2 * MAX_CONTEXT_TURNS cfg)%Z in
      let body := if (turns <? Z.of_nat (length body))%Z then take 1 body ++ lonward (- (turns - 1)) body else body in
      if truth extra then t ← _truncate extra; Ok (system :: body ++ [message (JStr "user") (JStr t)]) else Ok (system :: body)
  end.

(** ** Actions *)

Definition on_files {A} (m : M (fsys * X) A) : W A := fun t =>
  let w := wo t in
  let '(r, f) := m (files w) in
  (r, Turn (st t) (lo t) (World f (req_dir w) (resp_dir w) (req_fifo w) (epoch_file w) (in_pipe w) (notify_pipe w) (out w)
                            (now w) (uuids w) (faults w))).
(** [Path(repo)] *)
Definition root_of (repo : json) : result path :=
  match repo with
  | JStr s => if startswith s "/" then Ok (pure s) else raise OutOfModel "relative repository"
  | _ => raise TypeError "expected str, bytes or os.PathLike object"
  end.

Definition _execute_action (adict : args) : W (string * bool) :=
  let name := por (por (aget adict "action" JNull) (aget adict "tool" JNull)) (JStr "") in
  match name with
  | JStr name =>
      if mem (lower (strip name)) ["finish"; "done"; "submit"] then mret ("Task marked finished by the agent.", true) else
      match resolve_tool name with
      | None =>
          known ← lift_result (repr_json (JArr ((fun kv => JStr kv.1) <$> ACTIONS)));
          mret ("Unknown action " +:+ py_repr name +:+ ". Available: " +:+ known +:+ " + finish", false)
      | Some t =>
          s ← get_st;
          mcatch (root ← lift_result (root_of (repo_path s)); on_files (run_tool t root adict))
                 (fun e => if catches e
                           then mret ("Action " +:+ name +:+ " raised " +:+ exn_name (exn_cls e) +:+ ": " +:+ exn_msg e, false)
                           else mthrow e)
      end
  | _ => mret ("Invalid action: 'action' must be a string.", false)
  end.

(** ** Model calls *)

Definition take_uuid : W string :=
  w ← get_wo;
  match uuids w with
  | [] => mraise OutOfModel "uuid"
  | u :: us =>
      _ ← set_wo (fun w => World (files w) (req_dir w) (resp_dir w) (req_fifo w) (epoch_file w) (in_pipe w) (notify_pipe w) (out w)
                             (now w) us (faults w));
      mret u
  end.
Definition _send_llm_request (messages : list json) (temperature : json) : W string :=
  w ← get_wo; u ← take_uuid;
  let rid := "ep" +:+ pretty (Npd._read_current_epoch (epoch_file w)) +:+ "." +:+ u in
  let body := JObj [("messages", JArr messages); ("temperature", temperature); ("max_tokens", JInt 4000)] in
  _ ← flaky (fun w => World (files w) (dset rid (Some body) (req_dir w)) (resp_dir w) (req_fifo w) (epoch_file w) (in_pipe w)
                        (notify_pipe w) (out w) (now w) (uuids w) (faults w));
  _ ← flaky (fun w => World (files w) (req_dir w) (resp_dir w) (req_fifo w +:+ rid +:+ nl) (epoch_file w) (in_pipe w)
                        (notify_pipe w) (out w) (now w) (uuids w) (faults w));
  mret rid.

(** A response is removed once it is read; a failing removal is ignored. *)
Definition _read_response_file (rid : string) : W (option json) :=
  w ← get_wo;
  match dget rid (resp_dir w) with
  | Some (Some resp) =>
      _ ← mcatch (flaky (fun w => World (files w) (req_dir w) (dpop rid (resp_dir w)) (req_fifo w) (epoch_file w) (in_pipe w)
                                    (notify_pipe w) (out w) (now w) (uuids w) (faults w))) (fun _ => mret tt);
      mret (Some resp)
  | _ => mret None
  end.

(** ** Control lines *)

Definition q : string := String dquote EmptyString.
Definition SYSTEM_TEMPLATE (repo catalog : string) : string :=
  "You are a software engineer fixing a bug in a repository at " +:+ repo +:+ "." +:+ nl +:+ nl +:+
  "Work in this loop: locate the bug (ViewCode / GrepTool / ListFiles), edit it" +:+ nl +:+
  "(StringReplace / ReplaceLines / CreateFile / ApplyPatch), verify (Bash, e.g." +:+ nl +:+
  "running the failing test), then emit finish." +:+ nl +:+ nl +:+
  "Reply with EXACTLY ONE JSON object and nothing else, of the form:" +:+ nl +:+
  "  {" +:+ q +:+ "action" +:+ q +:+ ": " +:+ q +:+ "<ActionName>" +:+ q +:+ ", " +:+ q +:+ "thought" +:+ q +:+ ": " +:+ q +:+
  "<brief reasoning>" +:+ q +:+ ", <action args...>}" +:+ nl +:+ nl +:+
  "Available actions:" +:+ nl +:+ catalog +:+ nl +:+ nl +:+
  "Rules:" +:+ nl +:+
  "- Use relative paths inside the repository." +:+ nl +:+
  "- old_str in StringReplace must match the file EXACTLY (copy from ViewCode)." +:+ nl +:+
  "- Do not repeat the same failing action; if an edit's old_str is not found," +:+ nl +:+
  "  ViewCode the region first, then retry." +:+ nl +:+
  "- When the fix is applied and verified, emit {" +:+ q +:+ "action" +:+ q +:+ ": " +:+ q +:+ "finish" +:+ q +:+ "}." +:+ nl.

Definition ok_reply (id : json) (fields : list (string * json)) : json := JObj (("ok", JBool true) :: ("ctrl_id", id) :: fields).
Definition bad_reply (id : json) (fields : list (string * json)) : json := JObj (("ok", JBool false) :: ("ctrl_id", id) :: fields).

Definition ctrl_init (req id : json) : W unit :=
  r ← lift_result (pget req "repo_path"); k ← lift_result (pget req "task");
  let repo := por r (JStr "/testbed") in let task := por k (JStr "") in
  _ ← set_st (fun s => State 0 repo task (conversation s) JNull JNull false (phase s) (ready s));
  repo_text ← lift_result (str_json repo); task_text ← lift_result (str_json task);
  _ ← set_st (fun s => State (step s) (repo_path s) (Worker.task s)
        [message (JStr "system") (JStr (SYSTEM_TEMPLATE repo_text catalog));
         message (JStr "user") (JStr ("Task:" +:+ nl +:+ task_text))]
        (last_action s) (last_observation s) (finished s) "ready" true);
  summary ← state_summary;
  reply (ok_reply id [("state", summary); ("n_actions", JInt (Z.of_nat (length ACTIONS)))]).

Definition ctrl_step (req id : json) : W unit :=
  s ← get_st;
  if negb (ready s) then reply (bad_reply id [("error", JStr "not initialized (send ctrl=init first)")]) else
  t ← lift_result (pget_or req "temperature" (JFloat fzero)); temp ← lift_result (to_float t);
  obs ← lift_result (pget req "observation");
  messages ← lift_result (_context_messages (conversation s) obs);
  match messages with
  | [] => reply (bad_reply id [("error", JStr "no conversation")])
  | _ =>
      _ ← (if truth obs then text ← lift_result (_truncate obs); set_st (say (message (JStr "user") (JStr text))) else mret tt);
      rid ← _send_llm_request messages (JFloat temp);
      w ← get_wo;
      _ ← set_lo (fun l => Locals (in_buf l) (notify_buf l) (dset rid (Ctx id (now w)) (pending l)));
      set_st (in_phase "awaiting_llm")
  end.

Definition control (req : json) : W unit :=
  ctrl ← lift_result (pget req "ctrl"); id ← lift_result (pget req "ctrl_id");
  if is_string ctrl "state" then summary ← state_summary; reply (ok_reply id [("state", summary)])
  else if is_string ctrl "clear_soft_dirty" then
    (* a failing write to clear_refs is part of the answer *)
    cleared ← mcatch (_ ← flaky (fun w => w); mret true) (fun _ => mret false);
    reply (ok_reply id [("cleared", JBool cleared)])
  else if is_string ctrl "init" then ctrl_init req id
  else if is_string ctrl "step" then ctrl_step req id
  else shown ← lift_result (repr_json ctrl); reply (bad_reply id [("error", JStr ("unknown ctrl " +:+ shown))]).

(** ** Responses *)

(** [int((time.time() - start_ts) * 1000)], on a clock of milliseconds *)
Definition latency (c : ctx) : W json := w ← get_wo; mret (JInt (now w - start_ts c)).

Definition response (rid : string) (c : ctx) : W unit :=
  _ ← set_lo (fun l => Locals (in_buf l) (notify_buf l) (dpop rid (pending l)));
  resp ← _read_response_file rid;
  ms ← latency c;
  _ ← set_st (in_phase "ready");
  ok ← lift_result (match resp with None => Ok JNull | Some r => pget r "ok" end);
  if negb (truth ok) then
    err ← lift_result (pget_or (match resp with Some r => por r (JObj []) | None => JObj [] end) "error" (JStr "resp unavailable"));
    text ← lift_result (str_json err);
    reply (bad_reply (ctrl_id c) [("error", JStr ("llm: " +:+ text)); ("latency_ms", ms)])
  else
    content ← lift_result (match resp with None => Ok JNull | Some r => pget_or r "content" (JStr "") end);
    let content := por content (JStr "") in
    action ← lift_result (_extract_first_json content);
    _ ← set_st (say (message (JStr "assistant") content));
    '(obs_text, fin) ← match action with
       | Some (JObj adict) => _execute_action adict
       | _ => mret ("Could not parse a JSON action from your reply. Reply with exactly one JSON object.", false)
       end;
    let obs_text := truncate obs_text in
    _ ← set_st (say (message (JStr "user") (JStr ("Observation:" +:+ nl +:+ obs_text))));
    _ ← set_st (fun s => State (step s + 1) (repo_path s) (task s) (conversation s)
                           (match action with Some a => a | None => JNull end) (JStr obs_text) fin (phase s) (ready s));
    s ← get_st;
    raw ← lift_result (match action with Some _ => Ok JNull | None => t ← as_str content; Ok (JStr (stake 2000 t)) end);
    reply (ok_reply (ctrl_id c)
      [("step", JInt (step s)); ("action", match action with Some a => a | None => JNull end); ("observation", JStr obs_text);
       ("finished", JBool fin); ("latency_ms", ms); ("raw", raw)]).

(** A line that is complete, and what follows it. *)
Fixpoint cut_line (s : string) : option (string * string) :=
  match s with
  | EmptyString => None
  | String c s => if ch_eq c lf then Some (EmptyString, s)
                  else match cut_line s with Some (l, r) => Some (String c l, r) | None => None end
  end.

(** The ids in the buffer; each takes a line of it. *)
Fixpoint notices (fuel : nat) : W unit :=
  match fuel with
  | O => mret tt
  | S fuel =>
      l ← get_lo;
      match cut_line (notify_buf l) with
      | None => mret tt
      | Some (line, rest) =>
          _ ← set_lo (fun l => Locals (in_buf l) rest (pending l));
          let rid := strip line in
          _ ← match dget rid (pending l) with
              | Some c => if bool_decide (rid = "") then mret tt else response rid c
              | None => mret tt
              end;
          notices fuel
      end
  end.

(** ** The loop *)

Definition chunk : nat := Z.to_nat 65536.
Arguments chunk : simpl never.
Definition read_in : W unit :=
  w ← get_wo;
  _ ← set_wo (fun w => World (files w) (req_dir w) (resp_dir w) (req_fifo w) (epoch_file w) (sdrop chunk (in_pipe w)) (notify_pipe w)
                         (out w) (now w) (uuids w) (faults w));
  set_lo (fun l => Locals (in_buf l +:+ stake chunk (in_pipe w)) (notify_buf l) (pending l)).
Definition read_notify : W unit :=
  w ← get_wo;
  _ ← set_wo (fun w => World (files w) (req_dir w) (resp_dir w) (req_fifo w) (epoch_file w) (in_pipe w) (sdrop chunk (notify_pipe w))
                         (out w) (now w) (uuids w) (faults w));
  set_lo (fun l => Locals (in_buf l) (notify_buf l +:+ stake chunk (notify_pipe w)) (pending l)).

Definition body : W unit :=
  l ← get_lo; w ← get_wo;
  let buffered := has_char lf (in_buf l) in
  let in_ready := buffered || nonempty (in_pipe w) in
  let notify_ready := negb buffered && nonempty (notify_pipe w) in
  (* a new command waits while a model call is under way *)
  if in_ready && bool_decide (pending l = []) then
    _ ← mwhen (negb buffered) read_in;
    l ← get_lo;
    match cut_line (in_buf l) with
    | None => mret tt
    | Some (line, rest) =>
        _ ← set_lo (fun l => Locals rest (notify_buf l) (pending l));
        match loads line with
        | Ok req => control req
        | Err e => if decode_failed e then mret tt else mthrow e
        end
    end
  else if notify_ready then
    _ ← read_notify; l ← get_lo; notices (S (String.length (notify_buf l)))
  else mret tt.

(** [try ... except Exception] around the body. *)
Definition iteration : W unit := mcatch body (fun e => if catches e then mret tt else mthrow e).
End worker.

Lemma cut_line_nl l r : has_char lf l = false → cut_line (l +:+ nl +:+ r) = Some (l, r).
Proof.
  induction l as [|c l IH].
  - intros _. reflexivity.
  - cbn [has_char]. intros [Hc Hl]%orb_false_iff. rewrite app_String. cbn [cut_line].
    assert (ch_eq c lf = false) as -> by (unfold ch_eq in *; apply bool_decide_eq_false in Hc; apply bool_decide_eq_false_2; congruence).
    by rewrite IH.
Qed.
Lemma below_chunk n : (Z.of_nat n < 65536)%Z → n ≤ chunk.
Proof. unfold chunk. lia. Qed.
End Worker.
