(* ===== verification/WorkerSpec.v ===== *)
(** * What the agent worker guarantees

    [reach]: the turns of the main loop, with whatever the host, the network
    proxy daemon and the clock do to the world in between. *)

From S2P Require Import Prelude Hoare PyStr PyDict PyInt Json JsonText PyText Workspace WorkerActions WorkerActionsSpec Npd Worker.
From Stdlib Require Import Ascii.

Module WorkerSpec.
Import WorkerActions WorkerActionsSpec Worker.
#[local] Opaque chunk.

Section spec.
Context {X : Type} `{Tools X} (cfg : config).
Notation W := (M (turn X)).

Definition in_world (t : turn X) (w : world X) : turn X := Turn (st t) (lo t) w.

(** A worker whose main loop has started; a turn that needs something the model
    leaves out does not count. *)
Definition started (w : world X) : turn X := Turn (in_phase "ready" booting) (Locals "" "" []) w.
Inductive reach : turn X → Prop :=
  | reach_start w : reach (started w)
  | reach_turn t w t' : reach t → iteration cfg (in_world t w) = (Ok tt, t') → reach t'.

(** ** The conversation *)

Definition assistant (c : json) : json := message (JStr "assistant") c.
Definition user (c : json) : json := message (JStr "user") c.
Definition is_assistant (m : json) : bool := match pget m "role" with Ok r => is_string r "assistant" | Err _ => false end.

(** Observations of the host, and replies of the model with what came of them. *)
Inductive Paired : list json → Prop :=
  | Paired_nil : Paired []
  | Paired_user l c : Paired l → Paired (l ++ [user c])
  | Paired_turn l c o : Paired l → Paired (l ++ [assistant c; user o]).
Definition replies (l : list json) : Z := Z.of_nat (length (List.filter is_assistant l)).

(** At most one model call at a time; the phase tells whether there is one; the
    conversation starts with the prompt and the task, and the step is the number
    of replies in it. *)
Record Good (s : state) (l : locals) : Prop := {
  inv_one : length (pending l) ≤ 1;
  inv_phase : pending l ≠ [] ↔ phase s = "awaiting_llm";
  inv_call : pending l ≠ [] → ready s = true;
  inv_start : ready s = false → conversation s = [] ∧ step s = 0%Z;
  inv_talk : ready s = true → ∃ system task rest, conversation s = message (JStr "system") system :: user task :: rest ∧
               Paired rest ∧ step s = replies rest
}.
Definition Inv (t : turn X) : Prop := Good (st t) (lo t).

Lemma replies_app l k : replies (l ++ k) = (replies l + replies k)%Z.
Proof. unfold replies. rewrite List.filter_app, length_app. lia. Qed.

Lemma say_user s l c : Good s l → ready s = true → Good (say (user c) s) l.
Proof.
  intros [H1 H2 H0 H3 H4] Hr. split; simpl; try done; [congruence|].
  intros _. destruct (H4 Hr) as (sy & k & rest & E & Hp & Hs). exists sy, k, (rest ++ [user c]). rewrite E. split; [done|].
  split; [by constructor|]. rewrite replies_app, Hs. by rewrite Z.add_0_r.
Qed.

(** The exits that keep the invariant: a caught exception, and a return. *)
Definition Exits {A} (m : W A) (t : turn X) : Prop := wp m (fun _ => Inv) (fun e t' => catches e = true → Inv t') t.

Lemma exits_flaky f t : Inv t → Exits (flaky f) t.
Proof.
  intros Hi. unfold Exits, wp, flaky, get_wo, set_wo, mbind, M_bind, mget, mret, M_ret, mmod. simpl.
  destruct (faults (wo t)) as [|[|] fs]; simpl; intros; done.
Qed.
Lemma exits_bind {A B} (m : W A) (k : A → W B) t : Exits m t → (∀ a t', Inv t' → Exits (k a) t') → Exits (m ≫= k) t.
Proof. intros Hm Hk. apply wp_bind. eapply wp_mono; [exact Hm| |done]. intros a t' Ht'. by apply Hk. Qed.
Lemma exits_ret {A} (a : A) t : Inv t → Exits (mret a) t.
Proof. done. Qed.
(** Reading a value, then the rest from the same state. *)
Lemma exits_read {A B} (r : result A) (k : A → W B) t : (∀ a, r = Ok a → Exits (k a) t) → Inv t → Exits (lift_result r ≫= k) t.
Proof. intros Hk Hi. apply wp_bind, wp_lift. destruct r; [by apply Hk|done]. Qed.
Lemma exits_get {A B} (f : turn X → A) (k : A → W B) t : Exits (k (f t)) t → Exits ((t ← mget; mret (f t)) ≫= k) t.
Proof. done. Qed.
Lemma exits_summary t : Inv t → Exits (state_summary cfg) t.
Proof. intros Hi. exact Hi. Qed.

Lemma not_model e : exn_cls e = OutOfModel → catches e = false.
Proof. intros E. unfold catches. by rewrite E. Qed.

Lemma exits_init req id t : Inv t → pending (lo t) = [] → Exits (ctrl_init cfg req id) t.
Proof.
  intros Hi Hp. unfold ctrl_init. apply exits_read; [intros r _|done]. apply exits_read; [intros k _|done]. cbv zeta.
  apply wp_bind, wp_mod, wp_bind, wp_lift. destruct (str_json (por r _)) as [a|e] eqn:Er.
  - apply wp_bind, wp_lift. destruct (str_json (por k _)) as [b|e] eqn:Ek.
    + apply wp_bind, wp_mod. simpl. set (t' := Turn _ _ _). assert (Inv t') as Ht'.
      { split; simpl.
        - rewrite Hp. simpl. lia.
        - by rewrite Hp.
        - done.
        - done.
        - intros _. eexists _, _, []. split; [done|]. by split; [constructor|]. }
      apply exits_bind; [by apply exits_summary|]. intros s t2 Ht2. by apply exits_flaky.
    + intros Hc. by rewrite (not_model _ (str_json_err _ _ Ek)) in Hc.
  - intros Hc. by rewrite (not_model _ (str_json_err _ _ Er)) in Hc.
Qed.

(** ** Computations on the world alone *)

Definition outside {A} (m : W A) (E : exn → Prop) : Prop :=
  ∀ t, wp m (fun _ t' => st t' = st t ∧ lo t' = lo t) (fun e t' => E e ∧ st t' = st t ∧ lo t' = lo t) t.
Definition any_exn (_ : exn) : Prop := True.
Lemma outside_bind {A B} (m : W A) (k : A → W B) E : outside m E → (∀ a, outside (k a) E) → outside (m ≫= k) E.
Proof.
  intros Hm Hk t. apply wp_bind. eapply wp_mono; [apply Hm| |done]. intros a t' [E1 E2].
  eapply wp_mono; [apply Hk| |]; simpl; [intros ?? [-> ->]|intros ?? (? & -> & ->)]; done.
Qed.
Lemma outside_ret {A} (a : A) E : outside (mret a : W A) E.
Proof. done. Qed.
Lemma outside_flaky f : outside (flaky f) any_exn.
Proof.
  intros t. unfold wp, flaky, get_wo, set_wo, mbind, M_bind, mget, mret, M_ret, mmod. simpl.
  destruct (faults (wo t)) as [|[|] fs]; simpl; done.
Qed.
Lemma outside_set_wo f E : outside (set_wo f : W unit) E.
Proof. done. Qed.
Lemma outside_mono {A} (m : W A) (E E' : exn → Prop) : (∀ e, E e → E' e) → outside m E → outside m E'.
Proof. intros HE Hm t. eapply wp_mono; [apply Hm|done|]. intros e t' (? & ? & ?). auto. Qed.
Lemma outside_files {A} (m : M (fsys * X) A) E : (∀ s e s', m s = (Err e, s') → E e) → outside (on_files m) E.
Proof. intros HE t. unfold wp, on_files. destruct (m (files (wo t))) as [[a|e] f] eqn:Em; simpl; [done|]. by split; [eapply HE|]. Qed.
Lemma outside_read {A B} (r : result A) (k : A → W B) E : (∀ e, r = Err e → E e) → (∀ a, outside (k a) E) → outside (lift_result r ≫= k) E.
Proof. intros HE Hk. apply outside_bind; [|done]. intros t. apply wp_lift. destruct r; naive_solver. Qed.

Lemma outside_send messages temp : outside (_send_llm_request messages temp) any_exn.
Proof.
  unfold _send_llm_request. apply outside_bind; [done|]. intros w. apply outside_bind.
  { unfold take_uuid. apply outside_bind; [done|]. intros w'. destruct (uuids w'); [done|]. by apply outside_bind. }
  intros u. cbv zeta. apply outside_bind; [apply outside_flaky|]. intros _. apply outside_bind; [apply outside_flaky|]. intros []. apply outside_ret.
Qed.
Lemma outside_response rid : outside (_read_response_file rid) (fun _ => False).
Proof.
  unfold _read_response_file. apply outside_bind; [done|]. intros w. destruct (dget rid _) as [[r|]|]; [|apply outside_ret..].
  apply outside_bind; [|intros _; apply outside_ret]. intros t. apply wp_catch. eapply wp_mono; [apply outside_flaky|done|].
  intros e t' (_ & ? & ?). by apply wp_ret.
Qed.

(** An action always has an observation, whatever it raises. *)
Lemma outside_action a : outside (_execute_action a) (fun e => catches e = false).
Proof.
  unfold _execute_action. cbv zeta. destruct (por _ _) as [| | | |name| |]; try apply outside_ret.
  destruct (mem _ _); [apply outside_ret|]. destruct (resolve_tool name) as [tl|].
  - apply outside_bind; [done|]. intros s t. apply wp_catch, wp_bind, wp_lift.
    assert (∀ e (t' : turn X), st t' = st t ∧ lo t' = lo t →
      wp (if catches e then mret ("Action " +:+ name +:+ " raised " +:+ exn_name (exn_cls e) +:+ ": " +:+ exn_msg e, false) else mthrow e)
        (fun _ t' => st t' = st t ∧ lo t' = lo t) (fun e t' => catches e = false ∧ st t' = st t ∧ lo t' = lo t) t') as Hh.
    { intros e t' Ht. destruct (catches e) eqn:Ec; [by apply wp_ret|]. by apply wp_throw. }
    destruct (root_of _) as [root|e]; [|by apply Hh].
    eapply wp_mono; [by apply (outside_files _ any_exn)|done|]. intros e t' (_ & ?). by apply Hh.
  - apply outside_read; [|intros; apply outside_ret]. intros e He. apply not_model. exact (repr_json_err _ _ _ (le_n _) He).
Qed.

(** ** The handlers *)

Lemma exits_outside {A B} (m : W A) (k : A → W B) E t : outside m E → Inv t →
  (∀ a w, Exits (k a) (Turn (st t) (lo t) w)) → Exits (m ≫= k) t.
Proof.
  intros Hm Hi Hk. apply wp_bind. eapply wp_mono; [apply Hm| |].
  - intros a [s' l' w'] [Hs Hl]. simpl in Hs, Hl. subst. apply Hk.
  - intros e [s' l' w'] (_ & Hs & Hl) _. simpl in Hs, Hl. by subst.
Qed.

Lemma exits_ctrl_step req id t : Inv t → pending (lo t) = [] → Exits (ctrl_step cfg req id) t.
Proof.
  intros Hi Hp. unfold ctrl_step. apply exits_get. destruct (ready (st t)) eqn:Hr; cbn [negb]; [|by apply exits_flaky].
  do 4 (apply exits_read; [intros ? _|done]). destruct a2 as [|m ms]; [by apply exits_flaky|].
  assert (∀ t' : turn X, Inv t' → lo t' = lo t → ready (st t') = true → Exits (rid ← _send_llm_request (m :: ms) (JFloat a0); w ← get_wo;
      _ ← set_lo (fun l => Locals (in_buf l) (notify_buf l) (dset rid (Ctx id (now w)) (pending l))); set_st (in_phase "awaiting_llm")) t') as Hsend.
  { intros t' Ht' El Hrd. eapply exits_outside; [apply outside_send|done|]. intros rid w. apply exits_get, wp_bind, wp_mod, wp_mod. simpl.
    destruct Ht' as [H1 H2 H0 H3 H4]. split; simpl; try done; rewrite El, Hp; simpl; [lia|done]. }
  destruct (truth a1).
  - apply wp_bind, wp_bind, wp_lift. destruct (_truncate cfg a1) as [text|e]; [|done]. apply wp_mod. apply Hsend; [|done..].
    by apply say_user.
  - apply wp_bind, wp_ret. by apply Hsend.
Qed.

Lemma exits_control req t : Inv t → pending (lo t) = [] → Exits (control cfg req) t.
Proof.
  intros Hi Hp. unfold control. do 2 (apply exits_read; [intros ? _|done]).
  destruct (is_string a "state"); [apply exits_bind; [by apply exits_summary|intros; by apply exits_flaky]|].
  destruct (is_string a "clear_soft_dirty").
  { eapply (exits_outside _ _ (fun _ => False)); [|done|intros; by apply exits_flaky]. intros t'. apply wp_catch, wp_bind.
    eapply wp_mono; [apply outside_flaky|done|]. intros e t2 (_ & ?). by apply wp_ret. }
  destruct (is_string a "init"); [by apply exits_init|]. destruct (is_string a "step"); [by apply exits_ctrl_step|].
  apply exits_read; [intros; by apply exits_flaky|done].
Qed.

(** A response: the call is no longer under way; then the reply, what came of
    it, and the count go together. *)
Lemma exits_response rid c t : Inv t → dget rid (pending (lo t)) = Some c → Exits (response cfg rid c) t.
Proof.
  intros Hi Hg. unfold response. apply wp_bind, wp_mod. simpl.
  assert (dpop rid (pending (lo t)) = []) as Hpop.
  { pose proof (inv_one _ _ Hi) as H1. destruct (pending (lo t)) as [|[r1 c1] [|]]; simpl in *; [done| |lia].
    destruct (decide (rid = r1)) as [->|]; [|done]. by rewrite bool_decide_eq_false_2 by (intros []; done). }
  rewrite Hpop. set (l1 := Locals _ _ []).
  assert (Good (in_phase "ready" (st t)) l1) as Hready.
  { destruct Hi as [H1 H2 H0 H3 H4]. split; simpl; [lia|done..]. }
  assert (ready (st t) = true) as Hrd by (apply (inv_call _ _ Hi); by intros E; rewrite E in Hg).
  apply wp_bind. eapply wp_mono; [apply outside_response| |]; simpl; [|by intros e t' []].
  intros resp [s' l' w'] [Es El]. simpl in Es, El. subst s' l'. refine (exits_get (fun t => JInt (now (wo t) - start_ts c)) _ _ _). apply wp_bind, wp_mod. simpl.
  apply exits_read; [intros ok _|done]. destruct (negb (truth ok)).
  { do 2 (apply exits_read; [intros ? _|done]). by apply exits_flaky. }
  apply exits_read; [intros content _|done]. apply exits_read; [intros action _|done]. apply wp_bind, wp_mod. simpl.
  set (s1 := say _ _).
  assert (∀ o fin a w t', st t' = s1 → lo t' = l1 →
    Exits (_ ← set_st (say (user (JStr o)));
           _ ← set_st (fun s => State (step s + 1) (repo_path s) (task s) (conversation s) a (JStr (truncate cfg w)) fin (phase s) (ready s));
           s ← get_st;
           raw ← lift_result (match action with Some _ => Ok JNull | None => t ← as_str (por content (JStr "")); Ok (JStr (stake 2000 t)) end);
           reply (ok_reply (ctrl_id c)
             [("step", JInt (step s)); ("action", match action with Some a => a | None => JNull end); ("observation", JStr (truncate cfg w));
              ("finished", JBool fin); ("latency_ms", JInt (now w' - start_ts c)); ("raw", raw)])) t') as Hlast.
  { intros o fin a w t' Es El. apply wp_bind, wp_mod, wp_bind, wp_mod. simpl. rewrite Es, El.
    assert (Good (State (step (st t) + 1) (repo_path (st t)) (task (st t)) (conversation (st t) ++ [assistant (por content (JStr "")); user (JStr o)])
      a (JStr (truncate cfg w)) fin "ready" (ready (st t))) l1) as Hgood.
    { destruct Hready as [H1 H2 H0 H3 H4]. simpl in *. split; simpl; try done; [by rewrite Hrd|]. intros _.
      destruct (H4 Hrd) as (sy & k & rest & E & Hp & Hs).
      exists sy, k, (rest ++ [assistant (por content (JStr "")); user (JStr o)]). rewrite E. split; [done|]. split; [by constructor|].
      rewrite replies_app, Hs. done. }
    apply exits_get. assert (conversation s1 ++ [user (JStr o)] = conversation (st t) ++ [assistant (por content (JStr "")); user (JStr o)]) as Ec.
    { simpl. by rewrite <- app_assoc. }
    simpl. rewrite <- app_assoc. apply exits_read; [intros raw _; by apply exits_flaky|done]. }
  apply wp_bind. eapply wp_mono with (Q := fun _ t' => st t' = s1 ∧ lo t' = l1) (E := fun e t' => catches e = false).
  - destruct action as [[| | | | | |d]|]; try by apply wp_ret. eapply wp_mono; [apply outside_action|done|]. by intros e t' [? _].
  - intros [w fin] t' [Es El]. by apply Hlast.
  - intros e t' He Hc. congruence.
Qed.

Lemma exits_notices fuel t : Inv t → Exits (notices cfg fuel) t.
Proof.
  revert t. induction fuel as [|fuel IH]; intros t Hi; [done|]. cbn [notices]. apply exits_get.
  destruct (cut_line _) as [[line rest]|]; [|done]. apply wp_bind, wp_mod. simpl.
  apply exits_bind; [|intros _ t' Ht'; by apply IH]. destruct (dget _ _) as [c|] eqn:Eg; [|by destruct Hi].
  case_bool_decide; [by destruct Hi|]. apply exits_response; [|done]. by destruct Hi.
Qed.

Lemma exits_body t : Inv t → Exits (body cfg) t.
Proof.
  intros Hi. unfold body. apply exits_get, exits_get. cbv zeta. destruct (_ && bool_decide _) eqn:E.
  - apply andb_true_iff in E as [_ Hp%bool_decide_eq_true]. apply wp_bind.
    assert (wp (mwhen (negb (has_char lf (in_buf (lo t)))) read_in) (fun _ t' => Inv t' ∧ pending (lo t') = []) (fun _ _ => False) t) as Hr.
    { apply wp_when. destruct (negb _); [|done]. split; [|done]. by destruct Hi. }
    eapply wp_mono; [exact Hr| |done]. intros _ t' [Hi' Hp']. apply exits_get.
    destruct (cut_line _) as [[line rest]|]; [|done]. apply wp_bind, wp_mod.
    destruct (loads line) as [req|e]; [|case_match; [by destruct Hi'|intros _; by destruct Hi']].
    apply exits_control; [by destruct Hi'|done].
  - destruct (_ && nonempty _); [|done]. apply exits_bind; [by destruct Hi|]. intros _ t' Hi'. apply exits_get. by apply exits_notices.
Qed.

Lemma exits_val {A B} (f : turn X → A) (k : A → W B) Q E t : wp (k (f t)) Q E t → wp ((t ← mget; mret (f t)) ≫= k) Q E t.
Proof. done. Qed.

Lemma flaky_ok f (Q : unit → turn X → Prop) E t : faults (wo t) = [] → Q tt (Turn (st t) (lo t) (f (wo t))) → wp (flaky f) Q E t.
Proof.
  destruct t as [s l [fl rq rs rf ef ip np ou nw uu fa]]. simpl. intros -> HQ. exact HQ.
Qed.

(** ** Lines *)

Lemma has_char_nl r : has_char lf (nl +:+ r) = true.
Proof. reflexivity. Qed.

(** ** The window of the conversation *)

Lemma lonward_suffix {A} (i : Z) (l : list A) : (0 < i ≤ Z.of_nat (length l))%Z →
  ∃ old, l = old ++ lonward (- i) l ∧ Z.of_nat (length (lonward (- i) l)) = i.
Proof.
  intros Hi. unfold lonward. rewrite (proj2 (Z.ltb_lt (- i) 0)) by lia. set (n := Z.to_nat _).
  exists (take n l). rewrite take_drop, length_drop. split; [done|]. unfold n. lia.
Qed.

(** What the model sees is the prompt, the task, and the last messages: all of
    them, when they fit. *)
Lemma context_window sys task rest msgs : (1 ≤ MAX_CONTEXT_TURNS cfg)%Z →
  _context_messages cfg (sys :: task :: rest) JNull = Ok msgs →
  ∃ old new, rest = old ++ new ∧ msgs = sys :: task :: new ∧
    (Z.of_nat (length msgs) ≤ 2 * MAX_CONTEXT_TURNS cfg + 1)%Z ∧
    (Z.of_nat (length rest) < 2 * MAX_CONTEXT_TURNS cfg → old = [])%Z.
Proof.
  intros Hm. unfold _context_messages. cbv zeta. set (turns := (2 * MAX_CONTEXT_TURNS cfg)%Z). cbn [truth].
  destruct (Z.ltb_spec turns (Z.of_nat (length (task :: rest)))) as [Hlt|Hge]; intros [= <-]; simpl in *.
  - destruct (lonward_suffix (turns - 1) (task :: rest)) as (old & E & Hlen); [simpl; lia|].
    destruct old as [|o old].
    + simpl in E. rewrite <- E in Hlen. simpl in Hlen. lia.
    + injection E as -> E. exists old, (lonward (- (turns - 1)) (o :: rest)). split_and!; try done; [lia|]. lia.
  - exists [], rest. split_and!; try done. lia.
Qed.

(** ** Turns *)

(** The world changes, then the worker has a turn. *)
Definition turns (envs : list (world X → world X)) (t : turn X) : turn X :=
  fold_left (fun t f => (iteration cfg (in_world t (f (wo t)))).2) envs t.

Lemma starved t : has_char lf (in_buf (lo t)) = true → pending (lo t) ≠ [] → iteration cfg t = (Ok tt, t).
Proof.
  intros Hb Hp. unfold iteration, mcatch, body, get_lo, get_wo, mbind, M_bind, mget, mret, M_ret. simpl. rewrite Hb.
  by rewrite bool_decide_eq_false_2 by done.
Qed.

(** A step that the host asks for and the worker takes up. *)
Record asks (t : turn X) (line rest : string) (id : json) (temp : spec_float) (u : string) (us : list string) : Prop := {
  as_ready : ready (st t) = true;
  as_talk : conversation (st t) ≠ [];
  as_idle : pending (lo t) = [] ∧ in_buf (lo t) = "";
  as_pipe : in_pipe (wo t) = line +:+ nl +:+ rest ∧ String.length (in_pipe (wo t)) ≤ chunk ∧ has_char lf line = false;
  as_req : ∃ req, loads line = Ok req ∧ pget req "ctrl" = Ok (JStr "step") ∧ pget req "ctrl_id" = Ok id ∧
             pget_or req "temperature" (JFloat fzero) = Ok (JFloat temp) ∧ pget req "observation" = Ok JNull;
  as_world : uuids (wo t) = u :: us ∧ faults (wo t) = []
}.
Definition rid_of (w : world X) (u : string) : string := "ep" +:+ pretty (Npd._read_current_epoch (epoch_file w)) +:+ "." +:+ u.

Lemma stake_whole s n : String.length s ≤ n → stake n s = s ∧ sdrop n s = "".
Proof. revert n. induction s as [|c s IH]; intros [|n]; simpl; try done; [lia|]. intros H'. destruct (IH n) as [-> ->]; [lia|done]. Qed.

Lemma dispatched t line rest id temp u us : asks t line rest id temp u us →
  ∃ msgs, _context_messages cfg (conversation (st t)) JNull = Ok msgs ∧
  let rid := rid_of (wo t) u in let w := wo t in
  iteration cfg t = (Ok tt, Turn (in_phase "awaiting_llm" (st t)) (Locals rest (notify_buf (lo t)) [(rid, Ctx id (now w))])
    (World (files w) (dset rid (Some (JObj [("messages", JArr msgs); ("temperature", JFloat temp); ("max_tokens", JInt 4000)])) (req_dir w))
       (resp_dir w) (req_fifo w +:+ rid +:+ nl) (epoch_file w) "" (notify_pipe w) (out w) (now w) us [])).
Proof.
  intros [Hr Hc [Hp Hb] (Hpipe & Hlen & Hl) (req & Hreq & Hctrl & Hid & Htemp & Hobs) [Hu Hf]].
  destruct (_context_messages cfg (conversation (st t)) JNull) as [msgs|e] eqn:Em.
  2: { unfold _context_messages in Em. destruct (conversation (st t)); done. }
  exists msgs. split; [done|]. destruct t as [s [ib nb pd] [fl rq rs rf ef ip np ou nw uu fa]]. simpl in *. subst pd ib uu fa.
  destruct (stake_whole ip chunk Hlen) as [Hst Hsd].
  assert (msgs ≠ []) as Hm.
  { unfold _context_messages in Em. destruct (conversation s); [done|]. cbn in Em. by injection Em as <-. }
  assert (nonempty ip = true) as Hne.
  { unfold nonempty. rewrite bool_decide_eq_false_2; [done|]. rewrite Hpipe. by destruct line. }
  set (t' := Turn (in_phase _ _) _ _).
  assert (wp (body cfg) (fun _ t2 => t2 = t') (fun _ _ => False) (Turn s (Locals "" nb []) (World fl rq rs rf ef ip np ou nw (u :: us) []))) as Hw.
  2: { unfold iteration, mcatch. unfold wp in Hw. destruct (body cfg _) as [[[]|e] t2]; [by subst|done]. }
  unfold body. apply exits_val, exits_val. cbn [lo wo in_buf in_pipe pending]. cbv zeta. rewrite Hne. cbn [has_char orb andb negb].
  rewrite bool_decide_eq_true_2 by done. apply wp_bind. unfold mwhen, read_in. apply exits_val, wp_bind, wp_mod, wp_mod. cbn [lo wo st in_pipe in_buf].
  rewrite Hst, Hsd. apply exits_val. cbn [lo in_buf]. assert ("" +:+ ip = ip) as -> by done. rewrite Hpipe, cut_line_nl by done.
  apply wp_bind, wp_mod. rewrite Hreq. unfold control. rewrite Hctrl, Hid.
  do 2 apply wp_bind, wp_lift. change (is_string (JStr "step") "state") with false. change (is_string (JStr "step") "clear_soft_dirty") with false.
  change (is_string (JStr "step") "init") with false. change (is_string (JStr "step") "step") with true. cbn [lo st wo notify_buf pending].
  unfold ctrl_step. apply exits_val. cbn [st]. rewrite Hr. cbn [negb]. rewrite Htemp, Hobs.
  apply wp_bind, wp_lift, wp_bind, wp_lift, wp_bind, wp_lift. rewrite Em. apply wp_bind, wp_lift.
  destruct msgs as [|m ms]; [done|]. apply wp_bind, wp_ret. unfold _send_llm_request. apply wp_bind, exits_val. cbn [wo uuids].
  apply wp_bind. unfold take_uuid. apply exits_val. cbn [wo uuids]. apply wp_bind, wp_mod, wp_ret. cbn [wo st lo].
  apply wp_bind, flaky_ok; [done|]. apply wp_bind, flaky_ok; [done|]. apply wp_ret, exits_val. apply wp_bind, wp_mod, wp_mod.
  unfold t'. cbn. done.
Qed.

Lemma starved_turns t envs : has_char lf (in_buf (lo t)) = true → pending (lo t) ≠ [] →
  turns envs t = in_world t (fold_left (fun w f => f w) envs (wo t)).
Proof.
  revert t. induction envs as [|f envs IH]; intros t Hb Hp; [by destruct t|]. cbn [turns fold_left].
  rewrite starved by done. apply (IH (in_world t (f (wo t)))); done.
Qed.

(** ** A response *)

(** Lines of ids that no call waits for. *)
Definition stale (pd : list (string * ctx)) (l : string) : Prop := has_char lf l = false ∧ dget (strip l) pd = None.
Definition unlines (ls : list string) : string := sconcat ((fun l => l +:+ nl) <$> ls).

Lemma unlines_cons l ls r : unlines (l :: ls) +:+ r = l +:+ nl +:+ unlines ls +:+ r.
Proof. unfold unlines. cbn [fmap list_fmap sconcat]. by rewrite !string_app_assoc. Qed.

Lemma notices_stale (ls : list string) rest fuel Q E t :
  Forall (stale (pending (lo t))) ls → notify_buf (lo t) = unlines ls +:+ rest →
  wp (notices cfg fuel) Q E (Turn (st t) (Locals (in_buf (lo t)) rest (pending (lo t))) (wo t)) →
  wp (notices cfg (length ls + fuel)) Q E t.
Proof.
  intros Hs. remember (pending (lo t)) as pd eqn:Hpd. revert t Hpd. induction Hs as [|l ls [Hl Hg] _ IH]; intros t Hpd Hb Hw.
  - destruct t as [s [ib nb p] w]. simpl in *. by subst.
  - cbn [length Nat.add notices]. apply exits_val. rewrite Hb, unlines_cons, cut_line_nl by done. apply wp_bind, wp_mod. cbn [lo].
    apply wp_bind. cbn [pending]. rewrite <- Hpd, Hg. apply wp_ret. apply IH; simpl; try done.
Qed.

(** What a good reply of the model does: the conversation gets the reply and
    what came of it, the step is counted, and the host gets the answer. *)
Record Answered (t : turn X) (c : ctx) (text : string) (act : option json) (t' : turn X) : Prop := {
  an_talk : ∃ o fin, let o := truncate cfg o in
    st t' = State (step (st t) + 1) (repo_path (st t)) (task (st t))
              (conversation (st t) ++ [assistant (JStr text); user (JStr ("Observation:" +:+ nl +:+ o))])
              (match act with Some a => a | None => JNull end) (JStr o) fin "ready" (ready (st t)) ∧
    out (wo t') = out (wo t) ++ [ok_reply (ctrl_id c)
      [("step", JInt (step (st t) + 1)); ("action", match act with Some a => a | None => JNull end); ("observation", JStr o);
       ("finished", JBool fin); ("latency_ms", JInt (now (wo t) - start_ts c));
       ("raw", match act with Some _ => JNull | None => JStr (stake 2000 text) end)]];
  an_idle : pending (lo t') = [] ∧ in_buf (lo t') = in_buf (lo t) ∧ notify_buf (lo t') = notify_buf (lo t)
}.

Lemma outside_out {A} (m : M (fsys * X) A) t : out (wo (on_files m t).2) = out (wo t) ∧ faults (wo (on_files m t).2) = faults (wo t).
Proof. unfold on_files. by destruct (m (files (wo t))). Qed.

Lemma action_quiet a t : wp (_execute_action a)
  (fun _ t' => (st t' = st t ∧ lo t' = lo t) ∧ out (wo t') = out (wo t) ∧ faults (wo t') = faults (wo t) ∧ now (wo t') = now (wo t))
  (fun e _ => catches e = false) t.
Proof.
  assert (wp (_execute_action a) (fun _ t' => out (wo t') = out (wo t) ∧ faults (wo t') = faults (wo t) ∧ now (wo t') = now (wo t)) (fun _ _ => True) t) as Hq.
  { unfold _execute_action. cbv zeta. destruct (por _ _) as [| | | |name| |]; try by apply wp_ret.
    destruct (mem _ _); [by apply wp_ret|]. destruct (resolve_tool name) as [tl|].
    - apply exits_val, wp_catch, wp_bind, wp_lift.
      assert (∀ e (t' : turn X), out (wo t') = out (wo t) ∧ faults (wo t') = faults (wo t) ∧ now (wo t') = now (wo t) →
        wp (if catches e then mret ("Action " +:+ name +:+ " raised " +:+ exn_name (exn_cls e) +:+ ": " +:+ exn_msg e, false) else mthrow e)
          (fun _ t' => out (wo t') = out (wo t) ∧ faults (wo t') = faults (wo t) ∧ now (wo t') = now (wo t)) (fun _ _ => True) t') as Hh.
      { intros e t' Ht. destruct (catches e); [by apply wp_ret|by apply wp_throw]. }
      destruct (root_of _) as [root|e]; [|by apply Hh]. unfold wp, on_files.
      destruct (run_tool tl root a (files (wo t))) as [[v|e] f]; [done|]. by apply Hh.
    - apply wp_bind, wp_lift. by destruct (repr_json _). }
  eapply wp_mono; [apply wp_and; [apply (outside_action a t)|exact Hq]| |].
  - intros v t' [H1 H2]. done.
  - intros e t' [[H1 _] _]. done.
Qed.

Lemma por_text s : por (JStr s) (JStr "") = JStr s.
Proof. unfold por. cbn [truth]. by case_bool_decide; subst. Qed.

(** A response of the model, as the daemon writes it. *)
Record good_response (resp : json) (text : string) : Prop := {
  gr_ok : ∃ v, pget resp "ok" = Ok v ∧ truth v = true;
  gr_text : pget_or resp "content" (JStr "") = Ok (JStr text)
}.

Lemma answered t rid c resp text act :
  pending (lo t) = [(rid, c)] → dget rid (resp_dir (wo t)) = Some (Some resp) → good_response resp text →
  _extract_first_json (JStr text) = Ok act → faults (wo t) = [] →
  wp (response cfg rid c) (fun _ t' => Answered t c text act t') (fun e _ => catches e = false) t.
Proof.
  intros Hp Hd [(v & Hv & Htv) Htext] Hact Hf. unfold response. apply wp_bind, wp_mod. rewrite Hp.
  assert (dpop rid [(rid, c)] = []) as -> by (cbn; by rewrite bool_decide_eq_false_2 by (intros []; done)).
  apply wp_bind. unfold _read_response_file. apply exits_val. cbn [wo resp_dir]. rewrite Hd. apply wp_bind, wp_catch, flaky_ok; [done|].
  apply wp_ret. refine (exits_val (fun t => JInt (now (wo t) - start_ts c)) _ _ _ _ _). apply wp_bind, wp_mod. cbn [st lo wo in_buf notify_buf].
  rewrite Hv. apply wp_bind, wp_lift. rewrite Htv. cbn [negb]. rewrite Htext. apply wp_bind, wp_lift. rewrite por_text, Hact.
  apply wp_bind, wp_lift, wp_bind, wp_mod. cbn [st lo wo now]. apply wp_bind.
  set (t1 := Turn (say _ _) _ _).
  eapply wp_mono with (Q := fun a t' => (st t' = st t1 ∧ lo t' = lo t1) ∧ out (wo t') = out (wo t1) ∧ faults (wo t') = faults (wo t1) ∧ now (wo t') = now (wo t1)) (E := fun e _ => catches e = false).
  - destruct act as [[| | | | | |d]|]; try by apply wp_ret. apply action_quiet.
  - intros [o fin] t' ((Es & El) & Eo & Ef & En). apply wp_bind, wp_mod, wp_bind, wp_mod. cbn [st lo wo]. apply exits_val. cbn [st step say].
    apply wp_bind, wp_lift. assert (∀ m, match act with Some _ => Ok JNull | None => t ← as_str (JStr text); Ok (JStr (stake 2000 t)) end = Ok m →
      m = match act with Some _ => JNull | None => JStr (stake 2000 text) end) as Hraw by (intros m; by destruct act; intros [= <-]).
    destruct (match act with Some _ => Ok JNull | None => t ← as_str (JStr text); Ok (JStr (stake 2000 t)) end) as [raw|e] eqn:Er; [|by destruct act].
    rewrite (Hraw raw eq_refl). apply flaky_ok; [cbn [wo]; by rewrite Ef|]. cbn [st lo wo out]. rewrite Es, El, Eo. split; cbn [st lo wo out].
    + exists o, fin. cbv zeta. split; [|done]. unfold t1. cbn. by rewrite <- app_assoc.
    + done.
  - done.
Qed.

(** C14: A step without the optional observation, asked of an idle worker whose
    file calls do not fail, is one model call, over what the conversation window
    shows.  While it is under way, whatever else the host
    writes and whatever ids of abandoned branches arrive, the reply the daemon
    announces is taken up once: the conversation gets it and what came of its
    action, the step is counted, and the host gets exactly one more answer,
    which carries the id of its request. *)
Theorem step_exchange t line id temp u us :
  asks t line "" id temp u us → notify_buf (lo t) = "" → sforall (fun c => negb (is_space c)) u = true →
  let rid := rid_of (wo t) u in
  ∃ msgs t1, iteration cfg t = (Ok tt, t1) ∧ _context_messages cfg (conversation (st t)) JNull = Ok msgs ∧
    dget rid (req_dir (wo t1)) = Some (Some (JObj [("messages", JArr msgs); ("temperature", JFloat temp); ("max_tokens", JInt 4000)])) ∧
    req_fifo (wo t1) = req_fifo (wo t) +:+ rid +:+ nl ∧ out (wo t1) = out (wo t) ∧ conversation (st t1) = conversation (st t) ∧
    ∀ w noise resp text act t2,
      notify_pipe w = unlines noise +:+ rid +:+ nl → String.length (notify_pipe w) ≤ chunk →
      Forall (fun l => has_char lf l = false ∧ strip l ≠ rid) noise →
      dget rid (resp_dir w) = Some (Some resp) → good_response resp text → _extract_first_json (JStr text) = Ok act →
      faults w = [] → iteration cfg (in_world t1 w) = (Ok tt, t2) →
      pending (lo t2) = [] ∧ step (st t2) = (step (st t) + 1)%Z ∧
      ∃ o fin, conversation (st t2) = conversation (st t) ++ [assistant (JStr text); user (JStr ("Observation:" +:+ nl +:+ o))] ∧
        out (wo t2) = out w ++ [ok_reply id
          [("step", JInt (step (st t) + 1)); ("action", match act with Some a => a | None => JNull end); ("observation", JStr o);
           ("finished", JBool fin); ("latency_ms", JInt (now w - now (wo t))); ("raw", match act with Some _ => JNull | None => JStr (stake 2000 text) end)]].
Proof.
  intros Ha Hnb Hu rid. destruct (dispatched t line "" id temp u us Ha) as (msgs & Hm & Hit). cbv zeta in Hit. fold rid in Hit.
  exists msgs. eexists. split; [exact Hit|]. split; [exact Hm|]. cbn [wo st req_dir req_fifo out].
  split; [apply dget_dset_eq|]. do 3 (split; [done|]). intros w noise resp text act t2 Hpipe Hlen Hnoise Hd Hgr Hact Hf Hrun.
  set (t1 := in_world _ w) in Hrun. set (c := Ctx id (now (wo t))) in *.
  assert (dget rid [(rid, c)] = Some c) as Hg by (cbn; by rewrite decide_True).
  assert (sforall (fun c => negb (is_space c)) rid = true) as Hrs.
  { unfold rid, rid_of. rewrite !sforall_app. rewrite Hu, andb_true_r.
    assert (∀ n : N, sforall (fun c => negb (is_space c)) (pretty n) = true) as Hpn by (intros n; apply digits_not_space, pretty_N_digits).
    destruct (Npd._read_current_epoch _) as [|p|p]; [done| |].
    - change (pretty (Z.pos p)) with (pretty (N.pos p)). by rewrite Hpn.
    - change (pretty (Z.neg p)) with (String "-" (pretty (N.pos p))). cbn [sforall]. by rewrite Hpn. }
  assert (strip rid = rid ∧ has_char lf rid = false) as [Hst Hlf].
  { split; [by apply strip_none|]. revert Hrs. generalize rid. intros s. induction s as [|d s IH]; [done|]. cbn [sforall has_char].
    intros [Hd1 Hd2]%andb_true_iff. rewrite (IH Hd2). destruct (ch_eq lf d) eqn:E; [|done]. unfold ch_eq in E. apply bool_decide_eq_true in E. by subst. }
  set (tr := Turn (st t1) (Locals "" "" [(rid, c)])
    (World (files w) (req_dir w) (resp_dir w) (req_fifo w) (epoch_file w) (in_pipe w) "" (out w) (now w) (uuids w) (faults w))).
  assert (wp (body cfg) (fun _ => Answered tr c text act) (fun e _ => catches e = false) t1) as Hw.
  { unfold body. apply exits_val, exits_val. unfold t1. cbn [lo wo in_world in_buf in_pipe pending notify_pipe]. cbv zeta.
    cbn [has_char orb negb]. rewrite bool_decide_eq_false_2 by done. rewrite andb_false_r.
    assert (nonempty (notify_pipe w) = true) as ->.
    { unfold nonempty. rewrite bool_decide_eq_false_2; [done|]. rewrite Hpipe. intros E. apply (f_equal String.length) in E.
      rewrite !string_app_length in E. simpl in E. lia. }
    cbn [andb]. apply wp_bind. unfold read_notify. apply exits_val, wp_bind, wp_mod, wp_mod. cbn [lo wo st in_world in_buf notify_buf pending notify_pipe].
    destruct (stake_whole _ _ Hlen) as [-> ->]. apply exits_val. cbn [lo notify_buf]. rewrite Hnb.
    assert (length noise < String.length (notify_pipe w)) as Hnl.
    { rewrite Hpipe, !string_app_length. change (String.length nl) with 1.
      assert (length noise ≤ String.length (unlines noise)); [|lia]. clear. induction noise as [|l ls IH]; [done|].
      unfold unlines in *. cbn [fmap list_fmap sconcat length]. rewrite !string_app_length. change (String.length nl) with 1.
      fold (fmap (M := list) (fun l => l +:+ nl) ls). lia. }
    change ("" +:+ notify_pipe w) with (notify_pipe w).
    replace (S (String.length (notify_pipe w))) with (length noise + S (S (String.length (notify_pipe w) - length noise - 1))) by lia.
    eapply (notices_stale noise (rid +:+ nl)); cbn [lo notify_buf pending in_buf st wo].
    - eapply Forall_impl; [exact Hnoise|]. intros l [H1 H2]. split; [done|]. cbn. by rewrite decide_False.
    - exact Hpipe.
    - cbn [notices]. apply exits_val. cbn [lo notify_buf]. rewrite <- (string_app_nil_r nl), cut_line_nl by done. apply wp_bind, wp_mod.
      cbn [lo in_buf notify_buf pending st wo]. rewrite Hst, Hg, bool_decide_eq_false_2 by (unfold rid, rid_of; done).
      apply wp_bind. eapply wp_mono; [apply (answered tr rid c resp text act); done| |done].
      intros v0 t' Ht'. apply exits_val. pose proof (an_idle _ _ _ _ _ Ht') as (_ & _ & Ht4). rewrite Ht4. exact Ht'. }
  unfold iteration, mcatch in Hrun. unfold wp in Hw. destruct (body cfg t1) as [[[]|e] t']; [|by rewrite Hw in Hrun].
  injection Hrun as <-. destruct Hw as [(o & fin & Hs & Ho) (Hp & _ & _)]. split; [done|]. rewrite Hs. split; [done|].
  exists (truncate cfg o), fin. split; [done|]. exact Ho.
Qed.

(** C15: In every state the main loop reaches, whatever happens around it and
    whichever of its calls fail: at most one model call is under way, and the
    phase says whether there is one; the conversation is the prompt, the task,
    and then observations and replies, each reply followed by what came of it;
    the step is the number of replies. *)
Theorem worker_invariant t : reach t → Good (st t) (lo t).
Proof.
  induction 1 as [w|t w t' _ IH Ht].
  - split; simpl; try done; lia.
  - pose proof (exits_body (in_world t w) IH) as Hb. unfold Exits, wp, iteration, mcatch in *.
    destruct (body cfg (in_world t w)) as [[[]|e] t2]; [by injection Ht as <-|]. destruct (catches e) eqn:Ec; [|done].
    injection Ht as <-. by apply Hb.
Qed.

(** C16: When the host's step arrives together with another complete line, the
    worker takes up the step and then never looks at its other inputs again: in
    whatever way the world changes, no later turn changes the worker or the
    world, and the step is never answered. *)
Theorem second_line_starves t line rest id temp u us : asks t line rest id temp u us → has_char lf rest = true →
  ∃ t1, iteration cfg t = (Ok tt, t1) ∧ pending (lo t1) = [(rid_of (wo t) u, Ctx id (now (wo t)))] ∧
    ∀ envs, turns envs t1 = in_world t1 (fold_left (fun w f => f w) envs (wo t1)).
Proof.
  intros Ha Hr. destruct (dispatched t line rest id temp u us Ha) as (msgs & _ & Hit). eexists. split; [exact Hit|].
  split; [done|]. intros envs. by apply starved_turns.
Qed.
End spec.

(** ** A worker to try it on *)

Definition demo_cfg : config := Config 8000 40 7.
Definition demo_step : string := dumps (JObj [("ctrl", JStr "step"); ("ctrl_id", JStr "h2.abc")]).
Definition demo_state : state := in_phase "ready" (State 0 (JStr "/repo") (JStr "fix it")
  [message (JStr "system") (JStr "rules"); message (JStr "user") (JStr "Task")] JNull JNull false "" true).
Definition demo_world (input : string) : world unit :=
  World (∅, tt) [] [] "" (Some "3") input "" [] 100 ["u1"; "u2"] [].
Definition demo_turn (input : string) : turn unit := Turn demo_state (Locals "" "" []) (demo_world input).

Lemma demo_asks rest : String.length (demo_step +:+ nl +:+ rest) ≤ chunk →
  asks (demo_turn (demo_step +:+ nl +:+ rest)) demo_step rest (JStr "h2.abc") fzero "u1" ["u2"].
Proof.
  intros Hlen. split; try done. exists (JObj [("ctrl", JStr "step"); ("ctrl_id", JStr "h2.abc")]).
  split_and!; try done; vm_compute; reflexivity.
Qed.

Lemma demo_short1 : String.length (demo_step +:+ nl +:+ ("{}" +:+ nl)) ≤ chunk.
Proof. apply below_chunk. vm_compute. reflexivity. Qed.
Lemma demo_short2 : String.length (demo_step +:+ nl +:+ "") ≤ chunk.
Proof. apply below_chunk. vm_compute. reflexivity. Qed.

Lemma second_line_starves_witness : ∃ t1 : turn unit,
  iteration demo_cfg (demo_turn (demo_step +:+ nl +:+ "{}" +:+ nl)) = (Ok tt, t1) ∧
  turns demo_cfg [fun w => w; fun w => w] t1 = t1.
Proof.
  destruct (second_line_starves demo_cfg _ _ _ _ _ _ _ (demo_asks ("{}" +:+ nl) demo_short1) eq_refl)
    as (t1 & H1 & _ & H2).
  exists t1. split; [exact H1|]. rewrite H2. by destruct t1.
Defined.

Definition demo_text : string := "{" +:+ q +:+ "action" +:+ q +:+ ": " +:+ q +:+ "finish" +:+ q +:+ "}".
Definition demo_reply : json := JObj [("ok", JBool true); ("content", JStr demo_text)].
Definition demo_answer : world unit :=
  World (∅, tt) [] [("ep3.u1", Some demo_reply)] "" (Some "3") "state" ("old" +:+ nl +:+ "ep3.u1" +:+ nl) [] 250 ["u2"] [].

Lemma demo_short3 : String.length (notify_pipe demo_answer) ≤ chunk.
Proof. apply below_chunk. vm_compute. reflexivity. Qed.

Lemma step_exchange_witness : ∃ t1 t2, iteration demo_cfg (demo_turn (demo_step +:+ nl)) = (Ok tt, t1) ∧
  iteration demo_cfg (in_world t1 demo_answer) = (Ok tt, t2) ∧ step (st t2) = 1%Z ∧ finished (st t2) = true ∧ pending (lo t2) = [].
Proof.
  destruct (step_exchange demo_cfg (demo_turn (demo_step +:+ nl +:+ "")) demo_step (JStr "h2.abc") fzero "u1" ["u2"]
    (demo_asks "" demo_short2) eq_refl eq_refl) as (msgs & t1 & H1 & _ & _ & _ & _ & _ & H2).
  assert (∃ t2, iteration demo_cfg (in_world t1 demo_answer) = (Ok tt, t2) ∧ finished (st t2) = true) as (t2 & H3 & H4).
  { assert (t1 = (iteration demo_cfg (demo_turn (demo_step +:+ nl))).2) as -> by (by rewrite string_app_nil_r in H1; rewrite H1).
    eexists. split; [vm_compute; reflexivity|reflexivity]. }
  exists t1, t2. split; [exact H1|]. split; [exact H3|].
  destruct (H2 demo_answer ["old"] demo_reply demo_text (Some (JObj [("action", JStr "finish")])) t2 eq_refl demo_short3)
    as (H5 & H6 & _); [|reflexivity| | |reflexivity|exact H3|by split].
  - apply Forall_cons. split; [|apply Forall_nil_2]. split; [reflexivity|]. vm_compute. discriminate.
  - split; [eexists; split; reflexivity|reflexivity].
  - vm_compute. reflexivity.
Defined.

Lemma worker_invariant_witness : ∃ t : turn unit, Good (st t) (lo t) ∧ ready (st t) = true ∧ phase (st t) = "awaiting_llm".
Proof.
  set (init := dumps (JObj [("ctrl", JStr "init"); ("task", JStr "fix it"); ("ctrl_id", JStr "h1")])).
  set (t1 := (iteration demo_cfg (in_world (started (demo_world "")) (demo_world (init +:+ nl)))).2).
  set (t2 := (iteration demo_cfg (in_world t1 (demo_world (demo_step +:+ nl)))).2).
  exists t2. split; [|split; vm_compute; reflexivity]. apply (worker_invariant demo_cfg).
  apply (reach_turn demo_cfg t1 (demo_world (demo_step +:+ nl))); [|vm_compute; reflexivity].
  apply (reach_turn demo_cfg (started (demo_world "")) (demo_world (init +:+ nl))); [apply reach_start|vm_compute; reflexivity].
Defined.
End WorkerSpec.
