(* ===== verification/WorkerClient.v ===== *)
(** * The host's client of the worker ([agent/host/worker_client.py])

    One request at a time over a pair of FIFOs.  The clock is a number of turns:
    how often a loop gets round before its deadline.  What the FIFO of replies
    gives at each read, and what it takes at each write, is an argument; [None]
    is a [select] without result or a [BlockingIOError].  [connect]'s waiting for
    the FIFOs and closing are calls of the system; the client state is what
    [call] and [reopen] leave behind. *)

From S2P Require Import Prelude PyStr PyDict PyInt Json JsonText PyText Workspace WorkerActions Worker.
From Stdlib Require Import Ascii.

Module WorkerClient.
Import Worker.

(** [WorkerError] is a [RuntimeError]. *)
Definition worker_error {A} (m : string) : result A := raise RuntimeError m.

Record client := Client { connected : bool; buf : string; seq : Z }.
Definition closed (c : client) : client := Client false "" (seq c).

(** What the system does with one request. *)
Record exchange := Exchange {
  uuid8 : string;
  writes : list (option nat); write_turns : nat;      (* bytes taken by each write *)
  reads : list (option string); read_turns : nat      (* bytes found by each read *)
}.

(** The frame goes out piece by piece: what was sent, and whether it was all. *)
Fixpoint write_loop (turns : nat) (writes : list (option nat)) (frame : string) : string * result unit :=
  match frame with
  | EmptyString => (EmptyString, Ok tt)
  | _ =>
      match turns with
      | O => (EmptyString, worker_error "worker connection/ready deadline expired")
      | S turns =>
          match writes with
          | [] => (EmptyString, worker_error "worker connection/ready deadline expired")
          | None :: writes => write_loop turns writes frame
          | Some O :: _ => (EmptyString, worker_error "worker request write made no progress")
          | Some n :: writes => let '(sent, r) := write_loop turns writes (sdrop n frame) in (stake n frame +:+ sent, r)
          end
      end
  end.

(** [obj.get("ctrl_id") == ctrl_id] *)
Definition has_id (id : string) (obj : json) : bool :=
  match obj with JObj d => match dget "ctrl_id" d with Some v => is_string v id | None => false end | _ => false end.

(** The reply to the request, and the buffer that is left; lines that are not
    JSON, or answer another request, are skipped. *)
Fixpoint read_loop (turns : nat) (reads : list (option string)) (b : string) (id : string) : result json * string :=
  match turns with
  | O => (worker_error "worker timeout", b)
  | S turns =>
      match cut_line b with
      | Some (line, rest) =>
          match loads line with
          | Ok obj => if has_id id obj then (Ok obj, rest) else read_loop turns reads rest id
          | Err e => if decode_failed e then read_loop turns reads rest id else (Err e, rest)
          end
      | None =>
          match reads with
          | [] => read_loop turns [] b id
          | None :: reads => read_loop turns reads b id
          | Some chunk :: reads => read_loop turns reads (b +:+ chunk) id
          end
      end
  end.

(** [payload.get("ctrl_id") or f"h{seq}.{uuid}"]; the client's own calls send
    no id. *)
Definition call_id (n : Z) (u : string) (payload : list (string * json)) : result string :=
  match dget "ctrl_id" payload with
  | Some v => if truth v then as_str v else Ok ("h" +:+ pretty n +:+ "." +:+ u)
  | None => Ok ("h" +:+ pretty n +:+ "." +:+ u)
  end.

(** [call]: the answer, the bytes sent, the client afterwards. *)
Definition call (payload : list (string * json)) (x : exchange) (c : client) : result json * string * client :=
  if negb (connected c) then (worker_error "worker client not connected", "", c) else
  let n := (seq c + 1)%Z in
  match call_id n (uuid8 x) payload with
  | Err e => (Err e, "", Client (connected c) (buf c) n)
  | Ok id =>
      let frame := dumps (JObj (dset "ctrl_id" (JStr id) payload)) +:+ nl in
      match write_loop (write_turns x) (writes x) frame with
      | (sent, Err e) => (Err e, sent, Client (connected c) (buf c) n)
      | (sent, Ok _) => let '(r, b) := read_loop (read_turns x) (reads x) (buf c) id in (r, sent, Client (connected c) b n)
      end
  end.

Definition init (repo_path task : string) : list (string * json) :=
  [("ctrl", JStr "init"); ("repo_path", JStr repo_path); ("task", JStr task)].
Definition step (temperature : json) (observation : json) : list (string * json) :=
  [("ctrl", JStr "step"); ("temperature", temperature)] ++ (if truth observation then [("observation", observation)] else []).
Definition ask_state : list (string * json) := [("ctrl", JStr "state")].

(** [_drain]: what is in the FIFO is thrown away, until a read finds nothing. *)
Fixpoint drain (turns : nat) (pending : list string) : result unit * list string :=
  match turns, pending with
  | O, _ => (worker_error "worker connection/ready deadline expired", pending)
  | S _, [] => (Ok tt, [])
  | S turns, _ :: pending => drain turns pending
  end.

(** [reopen]: a new connection, the old branch's bytes dropped, and the worker's
    answer to [state] as the barrier; on any failure the client is closed. *)
Definition reopen (connects : result unit) (drain_turns : nat) (pending : list string) (x : exchange) (c : client) : result unit * client :=
  match connects with
  | Err e => (Err e, closed c)
  | Ok _ =>
      match drain drain_turns pending with
      | (Err e, _) => (Err e, closed c)
      | (Ok _, _) =>
          let '(r, _, c') := call ask_state x (Client true "" (seq c)) in
          match r with
          | Err e => (Err e, closed c')
          | Ok obj => match pget obj "ok" with
                      | Ok (JBool true) => (Ok tt, c')
                      | Ok _ => (worker_error "worker ready handshake failed", closed c')
                      | Err e => (Err e, closed c')
                      end
          end
      end
  end.

(** ** Sending *)

(** A request that was sent was sent whole; one that was not is a prefix. *)
Lemma write_loop_spec turns writes frame sent r : write_loop turns writes frame = (sent, r) →
  ∃ rest, frame = sent +:+ rest ∧ (is_Ok r = true → rest = "").
Proof.
  revert writes frame sent. induction turns as [|turns IH]; intros writes frame sent; destruct frame as [|c frame]; cbn [write_loop];
    try (intros [= <- <-]; by eexists).
  destruct writes as [|[[|n]|] writes]; try (intros [= <- <-]; by eexists).
  - destruct (write_loop turns writes (sdrop (S n) (String c frame))) as [s r'] eqn:E. intros [= <- <-].
    apply IH in E as (rest & Er & Hr). exists rest. split; [|done]. rewrite string_app_assoc, <- Er.
    cbn [stake sdrop]. rewrite app_String. f_equal. clear. revert frame. induction n as [|n IH]; intros [|d s]; try done.
    cbn [stake sdrop]. rewrite app_String. by rewrite <- IH.
  - intros E. by apply IH in E.
Qed.

(** ** Receiving *)

Lemma cut_line_none s t : cut_line s = None → ∀ l r, cut_line (s +:+ t) = Some (l, r) → ∃ u, l = s +:+ u ∧ cut_line t = Some (u, r).
Proof.
  induction s as [|c s IH]; intros Hs l r; [intros Ht; by exists l|]. rewrite app_String. cbn [cut_line] in *. destruct (ch_eq c lf); [done|].
  destruct (cut_line s) as [[? ?]|]; [done|]. destruct (cut_line (s +:+ t)) as [[l' r']|] eqn:E; [|done]. intros [= <- <-].
  destruct (IH eq_refl _ _ eq_refl) as (u & -> & Hu). exists u. by rewrite app_String.
Qed.
Lemma cut_line_some s l r t : cut_line s = Some (l, r) → cut_line (s +:+ t) = Some (l, r +:+ t).
Proof.
  revert l. induction s as [|c s IH]; intros l; [done|]. rewrite app_String. cbn [cut_line]. destruct (ch_eq c lf); [by intros [= <- <-]|].
  destruct (cut_line s) as [[l' r']|]; [|done]. intros [= <- <-]. by rewrite (IH l').
Qed.
Lemma cut_line_split s l r : cut_line s = Some (l, r) → s = l +:+ nl +:+ r ∧ has_char lf l = false.
Proof.
  revert l. induction s as [|c s IH]; intros l; [done|]. cbn [cut_line]. destruct (ch_eq c lf) eqn:E.
  - intros [= <- <-]. unfold ch_eq in E. apply bool_decide_eq_true in E as ->. done.
  - destruct (cut_line s) as [[l' r']|]; [|done]. intros [= <- <-]. destruct (IH l' eq_refl) as [-> Hl]. split; [done|].
    cbn [has_char]. rewrite Hl, orb_false_r. unfold ch_eq in *. apply bool_decide_eq_false in E. apply bool_decide_eq_false_2. congruence.
Qed.

Definition arrived (reads : list (option string)) : string := sconcat ((fun o => match o with Some s => s | None => EmptyString end) <$> reads).
(** A line the client skips. *)
Definition skipped (id : string) (l : string) : Prop :=
  has_char lf l = false ∧ match loads l with Ok obj => has_id id obj = false | Err e => decode_failed e = true end.

Lemma no_newline_left s t : cut_line (s +:+ nl +:+ t) ≠ None.
Proof.
  induction s as [|c s IH]; [done|]. rewrite app_String. cbn [cut_line]. destruct (ch_eq c lf); [done|].
  by destruct (cut_line (s +:+ nl +:+ t)) as [[]|].
Qed.
Lemma arrived_cons o reads : arrived (o :: reads) = (match o with Some s => s | None => EmptyString end) +:+ arrived reads.
Proof. done. Qed.

(** However the bytes are cut into reads, the first line that answers the
    request is the answer; [k] reads are made, no more than it takes to have
    that line, and what they brought behind it stays in the buffer. *)
Lemma read_loop_finds id stale own obj more turns reads b :
  let front := sconcat ((fun l => l +:+ nl) <$> stale) +:+ own +:+ nl in
  b +:+ arrived reads = front +:+ more →
  Forall (skipped id) stale → has_char lf own = false → loads own = Ok obj → has_id id obj = true →
  length stale + length reads < turns →
  ∃ k rest, read_loop turns reads b id = (Ok obj, rest) ∧ k <= length reads ∧ b +:+ arrived (take k reads) = front +:+ rest ∧
    ∀ j rest', j < k → b +:+ arrived (take j reads) ≠ front +:+ rest'.
Proof.
  cbv zeta. intros He Hst Hown Hl Hid. revert stale reads b He Hst. induction turns as [|turns IH]; intros stale reads b He Hst Hn; [lia|].
  cbn [read_loop]. rewrite !string_app_assoc in He. destruct (cut_line b) as [[line rest]|] eqn:Ec.
  - pose proof (cut_line_some _ _ _ (arrived reads) Ec) as Hc. rewrite He in Hc. pose proof (cut_line_split _ _ _ Ec) as [Hb _].
    destruct Hst as [|l stale [Hlf Hsk] Hst].
    + cbn [fmap list_fmap sconcat] in *. change ("" +:+ own +:+ nl +:+ more) with (own +:+ nl +:+ more) in Hc.
      assert (cut_line (own +:+ nl +:+ more) = Some (own, more)) as E by (by apply cut_line_nl). rewrite E in Hc. injection Hc as <- Hm.
      rewrite Hl, Hid. exists 0, rest. split_and!; [done|lia| |lia]. unfold arrived. cbn [take fmap list_fmap sconcat].
      by rewrite string_app_nil_r, Hb, !string_app_assoc.
    + cbn [fmap list_fmap sconcat] in *. rewrite !string_app_assoc in Hc.
      rewrite cut_line_nl in Hc by done. injection Hc as <- Hm. fold (fmap (M := list) (fun l => l +:+ nl)) in *.
      destruct (IH stale reads rest) as (k & rs & Hr & Hk & Hkb & Hmin); [by rewrite !string_app_assoc|done|simpl in Hn; lia|].
      exists k, rs. split_and!; [by destruct (loads l) as [o|e]; rewrite Hsk|done| |].
      * by rewrite Hb, !string_app_assoc, Hkb, !string_app_assoc.
      * intros j rest' Hj Hjb. apply (Hmin j rest' Hj). rewrite Hb, !string_app_assoc in Hjb.
        apply string_app_inj_l, string_app_inj_l in Hjb. by rewrite Hjb, !string_app_assoc.
  - destruct reads as [|o reads].
    + exfalso. unfold arrived in He. cbn [fmap list_fmap sconcat] in He. rewrite string_app_nil_r in He. subst b.
      destruct stale as [|l stale]; cbn [fmap list_fmap sconcat] in Ec; [|rewrite !string_app_assoc in Ec]; by apply no_newline_left in Ec.
    + destruct (IH stale reads (b +:+ match o with Some s => s | None => EmptyString end)) as (k & rs & Hr & Hk & Hkb & Hmin).
      { rewrite arrived_cons in He. by rewrite !string_app_assoc. }
      { done. }
      { simpl in Hn. lia. }
      exists (S k), rs. split_and!; [|simpl; lia| |].
      * destruct o as [chunk|]; [done|]. by rewrite string_app_nil_r in Hr.
      * cbn [take]. by rewrite arrived_cons, <- string_app_assoc.
      * intros [|j] rest' Hj Hjb.
        -- unfold arrived in Hjb. cbn [take fmap list_fmap sconcat] in Hjb. rewrite string_app_nil_r in Hjb. subst b.
           destruct stale as [|l stale]; cbn [fmap list_fmap sconcat] in Ec; rewrite !string_app_assoc in Ec; by apply no_newline_left in Ec.
        -- apply (Hmin j rest'); [lia|]. cbn [take] in Hjb. by rewrite arrived_cons, <- string_app_assoc in Hjb.
Qed.

(** An answer is an answer to the request. *)
Lemma read_loop_own turns reads b id obj rest : read_loop turns reads b id = (Ok obj, rest) → has_id id obj = true.
Proof.
  revert reads b. induction turns as [|turns IH]; intros reads b; [done|]. cbn [read_loop].
  destruct (cut_line b) as [[line r]|].
  - destruct (loads line) as [o|e]; [destruct (has_id id o) eqn:E; [by intros [= <- <-]|apply IH]|destruct (decode_failed e); [apply IH|done]].
  - destruct reads as [|[c|] reads]; apply IH.
Qed.

(** ** A message is one line *)

Lemma escape_line c : has_char lf (escape c) = false.
Proof. destruct c as [[] [] [] [] [] [] [] []]; vm_compute; reflexivity. Qed.
Lemma quote_line s : has_char lf (quote s) = false.
Proof.
  unfold quote. cbn [has_char]. change (ch_eq lf quote_char) with false. cbn [orb]. rewrite has_char_app.
  change (has_char lf (String quote_char "")) with false. rewrite orb_false_r.
  induction s as [|c s IH]; [done|]. cbn [escapes]. by rewrite has_char_app, escape_line, IH.
Qed.
Lemma pretty_line (z : Z) : has_char lf (pretty z) = false.
Proof.
  assert (∀ n : N, has_char lf (pretty n) = false) as Hn by (intros n; apply digits_no_char; [done|apply pretty_N_digits]).
  destruct z as [|p|p]; [done|exact (Hn (N.pos p))|].
  change (pretty (Z.neg p)) with (String "-" (pretty (N.pos p))). cbn [has_char]. by rewrite Hn.
Qed.
Lemma dumps_line n j : jsize j ≤ n → has_char lf (dumps j) = false.
Proof.
  revert j. induction n as [|n IH]; intros j Hn; [pose proof (jsize_pos j); lia|].
  destruct j as [|[]|z| |s|l|d]; try done; cbn [dumps jsize] in *; [apply pretty_line|apply quote_line| |].
  - rewrite !has_char_app, has_char_join; [done|done|]. apply Forall_fmap, Forall_forall. intros x Hx. apply IH.
    assert (jsize x ≤ sum_list (jsize <$> l)); [|lia]. apply sum_list_elem, list_elem_of_fmap. by exists x.
  - rewrite !has_char_app, has_char_join; [done|done|]. apply Forall_fmap, Forall_forall. intros [k x] Hx.
    change (has_char lf (quote k +:+ ": " +:+ dumps x) = false). rewrite !has_char_app, quote_line. apply IH.
    assert (jsize x ≤ sum_list ((fun p => jsize p.2) <$> d)); [|lia]. apply sum_list_elem, list_elem_of_fmap. by exists (k, x).
Qed.

(** C22: A request goes out whole, and however the bytes of the reply FIFO are
    cut into reads, and whatever replies to abandoned requests or broken lines
    are in front of it, the call returns the reply that carries the id of the
    request.  It reads until it has that line and no further ([k] reads), and
    the buffer it keeps for the next call is exactly what those reads brought
    behind the line, so that nothing is lost or kept twice. *)
Theorem call_finds_reply c payload x id s reply stale more :
  connected c = true → call_id (seq c + 1) (uuid8 x) payload = Ok id →
  write_loop (write_turns x) (writes x) (dumps (JObj (dset "ctrl_id" (JStr id) payload)) +:+ nl) = (s, Ok tt) →
  let front := sconcat ((fun l => l +:+ nl) <$> stale) +:+ dumps reply +:+ nl in
  buf c +:+ arrived (reads x) = front +:+ more →
  Forall (skipped id) stale → plain reply = true → has_id id reply = true → length stale + length (reads x) < read_turns x →
  ∃ k rest, call payload x c = (Ok reply, dumps (JObj (dset "ctrl_id" (JStr id) payload)) +:+ nl, Client true rest (seq c + 1)) ∧
    buf c +:+ arrived (take k (reads x)) = front +:+ rest ∧ more = rest +:+ arrived (drop k (reads x)) ∧
    ∀ j rest', j < k → buf c +:+ arrived (take j (reads x)) ≠ front +:+ rest'.
Proof.
  intros Hc Hid Hw front Hb Hst Hp Hh Ht. pose proof (write_loop_spec _ _ _ _ _ Hw) as (r & Hs & Hr). rewrite (Hr eq_refl), string_app_nil_r in Hs.
  destruct (read_loop_finds id stale (dumps reply) reply more (read_turns x) (reads x) (buf c) Hb Hst (dumps_line _ _ (le_n _)) (loads_dumps _ Hp) Hh Ht)
    as (k & rest & Hrl & _ & Hk & Hmin).
  exists k, rest. split_and!; [|done| |done].
  - unfold call. rewrite Hc, Hid. cbn [negb]. cbv zeta. rewrite Hw, Hrl, Hs. done.
  - apply (string_app_inj_l front). rewrite <- Hb, <- string_app_assoc. unfold front. rewrite <- Hk, string_app_assoc. f_equal.
    rewrite <- (take_drop k (reads x)) at 1. unfold arrived. by rewrite fmap_app, sconcat_app.
Qed.

Definition demo_exchange : exchange :=
  Exchange "01234567" [None; Some 10; Some 100] 9 [None; Some ("{" +:+ nl +:+ dumps (JObj [("ctrl_id", JStr "h1.old")]) +:+ nl +:+ "{"); Some (sdrop 1 (dumps (JObj [("ctrl_id", JStr "h5.01234567")]) +:+ nl +:+ "x"))] 9.
Definition demo_id : string := "h5.01234567".
Definition demo_frame : string := dumps (JObj (dset "ctrl_id" (JStr demo_id) ask_state)) +:+ nl.
Lemma call_finds_reply_witness : ∃ k rest,
  call ask_state demo_exchange (Client true "" 4) = (Ok (JObj [("ctrl_id", JStr demo_id)]), demo_frame, Client true rest 5) ∧
  "x" = rest +:+ arrived (drop k (reads demo_exchange)).
Proof.
  assert (write_loop (write_turns demo_exchange) (writes demo_exchange) demo_frame = (demo_frame, Ok tt)) as Hw by (vm_compute; reflexivity).
  destruct (call_finds_reply (Client true "" 4) ask_state demo_exchange demo_id demo_frame (JObj [("ctrl_id", JStr demo_id)])
    ["{"; dumps (JObj [("ctrl_id", JStr "h1.old")])] "x" eq_refl eq_refl Hw) as (k & rest & Hc & _ & Hm & _).
  - vm_compute. reflexivity.
  - apply Forall_cons. split; [split; vm_compute; reflexivity|]. apply Forall_cons. split; [split; vm_compute; reflexivity|apply Forall_nil_2].
  - reflexivity.
  - reflexivity.
  - apply Nat.ltb_lt. vm_compute. reflexivity.
  - exists k, rest. by split.
Defined.
End WorkerClient.
