(* ===== verification/Host.v ===== *)
(** * The host of the controller and its state

    The system calls of [sandbox_controller.py] that do not touch the layer
    directories are the constructors of [sysE] (an answer type each); a host
    ([Class Host]) runs them and promises that they leave the layer stack
    alone.  Calls on the layer directories are those of [KernelOverlay].  The
    mutable attributes of [SandboxController] are the fields of [ctl], its
    constants and environment switches those of [config].

    A dump runs on a worker thread: [DumpWait] answers with what
    [future.result(timeout=30)] saw and with whether the completion callback
    had run by then, [DumpDone] with [future.done()]. *)

From S2P Require Import Prelude Hoare PyStr PyDict Resources Registry Overlay RootOverlay.
From Stdlib Require Import Ascii.
From Stdlib.Strings Require Byte.

Inductive signal := SIGSTOP | SIGCONT | SIGKILL.
Inductive wait_outcome := Finished (e : option exn) | TimedOut.

(** Kinds of entry [os.scandir] yields. *)
Inductive dirent_kind := DSymlink | DDir | DFile | DOther.

(** Result of a background restamp copy ([_prepare_restamp_parent_copy]). *)
Record prepared := Prepared { p_ok : bool; p_cache_dir : option string; p_error : option string }.

(** Progress of an asynchronous dump writer ([AsyncCheckpoint]). *)
Inductive writer_event := WStart (id : string) (timed_out : bool) | WDump (id : string) | WFinish (id : string).

Inductive sysE : Type → Type :=
  (* subprocesses *)
  | CheckCall (cmd : list string) (pass_fds : list Z) : sysE unit
  | Popen (cmd : list string) (pass_fds : list Z) : sysE Z
  | ProcWait (proc : Z) : sysE Z
  | ProcPoll (proc : Z) : sysE (option Z)
  | ProcStop (proc : Z) : sysE unit                 (* terminate, wait, kill, wait *)
  (* processes *)
  | Kill (pid : Z) (s : signal) : sysE unit
  | KillPidfd (pid : Z) (s : signal) : sysE unit    (* open_pidfd, send, close *)
  | Waitpid (pid : Z) : sysE unit
  | WaitExit (pids : list Z) : sysE (list Z)        (* wait_for_process_exit: those left *)
  (* files *)
  | IsDir (path : string) : sysE bool
  | PathExists (path : string) : sysE bool
  | ReadFile (path : string) : sysE string
  | WriteFile (path content : string) : sysE unit
  | ReadLink (path : string) : sysE string
  | ListDir (path : string) : sysE (list string)
  | ScanDir (path : string) : sysE (list (string * dirent_kind))
  | Unlink (path : string) : sysE unit
  | Mkdir (path : string) : sysE unit               (* makedirs outside the layers *)
  | Rmtree (path : string) : sysE unit              (* rmtree of an image directory *)
  | Replace (src dst : string) : sysE unit
  | Symlink (target dst : string) : sysE unit
  | HardLink (src dst : string) : sysE unit
  | Copy2 (src dst : string) : sysE unit
  | RealPath (path : string) : sysE string
  | AbsPath (path : string) : sysE string
  | OpenFd (path : string) : sysE Z
  | WriteFd (fd : Z) (data : string) : sysE unit
  | CloseFd (fd : Z) : sysE unit
  | Uuid (n : nat) : sysE string                    (* str(uuid.uuid4())[:n] *)
  | UuidHex (n : nat) : sysE string                 (* uuid.uuid4().hex[:n] *)
  | WalkError (path : string) : sysE unit           (* raises what os.walk hands to onerror *)
  | InventoryUptime (path : string) : sysE unit     (* rewrite dump_uptime (pycriu) *)
  | StatKind (path : string) : sysE (Resources.file_kind * Z)  (* os.stat: type and inode *)
  | FstatKind (fd : Z) : sysE Resources.file_kind
  | OpenFlags (path : string) (flags : Z) : sysE Z
  | Dup2 (fd fd2 : Z) (inheritable : bool) : sysE unit
  | SetInheritable (fd : Z) (inheritable : bool) : sysE unit
  | MemoryDigest (pid : Z) : sysE unit
  | Sleep : sysE bool                               (* one polling pause; false: deadline passed *)
  (* the dump worker *)
  | SubmitDump (id : string) (cmd : list string) : sysE unit
  | DumpDone (id : string) : sysE bool
  | DumpWait (id : string) : sysE (wait_outcome * bool)
  | ShutdownPool (name : string) : sysE unit         (* shutdown(wait=True) of another pool *)
  (* asynchronous writers *)
  | SubmitWriter (id : string) : sysE unit
  | WriterProgress : sysE (list writer_event)       (* what writers do while this thread waits *)
  | ReadImages (dir : string) : sysE (list (string * option (list Byte.byte)))
  | MkdirNew (path : string) : sysE unit            (* Path.mkdir(): the directory is new *)
  | OpenPidfd (pid : Z) : sysE Z
  | PidfdSignal (fd : Z) (s : signal) : sysE unit
  | PidfdExited (fd : Z) : sysE bool                (* select on the handle *)
  | TpPause (src : Z) : sysE unit                   (* the checkpoint_pause exchange *)
  (* the restamp worker *)
  | SubmitRestamp (id parent_mem : string) : sysE unit
  | RestampDone (id : string) : sysE bool
  | RestampCancel (id : string) : sysE unit
  | RestampResult (id : string) : sysE prepared
  (* the template pool's control channel *)
  | TpDispatch (src : Z) (clone_parent_active : bool) (fixed : option Z) : sysE bool
  | TpAwait (src : Z) (exclude : list Z) : sysE (option Z)
  | TpStash (src : Z) (fresh_pidns : option bool) (setsid clear_soft_dirty : bool)
            (fixed : option Z) (exclude : list Z) : sysE (option Z)
  | TpReapPid (src child : Z) : sysE (option (list Z))
  | TpReapChildren (src : Z) : sysE (option (list Z))
  | TpReset : sysE unit
  | TpSetReaper (pid : Z) : sysE unit
  | TpForkMeta : sysE (bool * bool)                 (* preserve / self-cleared soft-dirty *)
  (* lazy-pages daemons *)
  | SpawnLazy (mem_path : string) : sysE Z
  | LazyPending (mem_path : string) : sysE (list (string * option Z))
      (* pending.result(timeout=10): the jobs the prestart worker completed
         meanwhile, each with the daemon it started *)
  | ShutdownPrestart : sysE (list (string * option Z))
      (* pool.shutdown(wait=True): the jobs the worker still completed *)
  | SubmitLazy (mem_path : string) : sysE bool      (* pool.submit; false: RuntimeError *)
  | Prewarm (pid : Z) : sysE unit.

Class Host (W : Type) `{!KernelOverlay W} `{!MountHost W} := {
  os_call {R} : sysE R → M W R;
  (** [for root, dirs, files in os.walk(p): if dirs or files: ...] *)
  os_tree_nonempty : string → M W bool;
  (** [shutil.rmtree(p, ignore_errors=True)] *)
  os_rmtree : string → M W unit;
  law_frame {R} (c : sysE R) w : kabs (os_call c w).2 = kabs w;
  (** [os.walk] ignores errors: a missing directory has nothing in it. *)
  law_nonempty p w :
    os_tree_nonempty p w = (Ok (bool_decide (dir_content (kabs w) p ≠ ∅)), w);
  law_rmtree p w :
    (os_rmtree p w).1 = Ok tt ∧
    k_ovl (kabs (os_rmtree p w).2) = k_ovl (kabs w) ∧
    ∀ q, q ≠ p → startswith q (p +:+ "/") = false →
      k_dirs (kabs (os_rmtree p w).2) !! q = k_dirs (kabs w) !! q;
  (** Mounting commands do not change layer directories or open overlays. *)
  law_run_frame argv w : kabs (os_run argv w).2 = kabs w;
  law_close_frame fd w : kabs (os_close fd w).2 = kabs w;
}.

(** ** Controller state *)

Record restamp := Restamp {
  r_future : bool;                    (* "future" is not None *)
  r_parent : string;                  (* "parent_mem_path" *)
  r_cache_dir : option string;
  r_ok : bool;                        (* .get("ok", True) *)
}.

(** Lazy-pages daemons: live readers, idle prestarted ones, queued starts,
    retired image directories, and the closing flag. *)
Record lazy_state := Lazy {
  readers : list (Z * string);        (* _lazy_page_daemons: process, image *)
  prestarted : list (string * Z);     (* _lazy_prestarted *)
  queued : list string;               (* keys of _lazy_prestart_futures *)
  retired : list string;
  closing : bool;
}.

(** The asynchronous incremental dumps: free admission slots, the latch that a
    failed transaction sets, the future objects, the keys of an entry that its
    writer changes (an entry is one object, shared by the registry and the
    writer), and the submitted writers that have not finished. *)
Inductive dur_state := WARM_READY | DUMPING | DURABLE_READY | DURABLE_FAILED.
#[global] Instance dur_state_eq_dec : EqDecision dur_state.
Proof. solve_decision. Defined.
Record mark := Mark { m_state : dur_state; m_dispose : bool; m_cleanup : option string }.
(** How far a writer is: waiting for its parent, dumping, or about to dispose
    of its process, with the error it met. *)
Inductive phase := Queued | Dumping | Disposing (e : option exn).
Record job := Job {
  j_entry : entry; j_parent : option entry; j_staging : string; j_final : string; j_pidfd : Z; j_phase : phase;
}.
Record async_state := Async {
  a_slots : Z; a_failed : option string; a_futs : gmap string fut;
  a_marks : gmap string mark; a_jobs : gmap string job;
}.

Record ctl := Ctl {
  agent_pid : Z;
  ns_init_pid : Z;
  current_upper : string;
  current_work : string;
  reg : registry;   (* the registry, in insertion order *)
  stat_err : gmap string string;   (* ["dump_error"] of the [dump_stats] dict an entry shares with its callback *)
  last_predump : option (string * Z);   (* (_last_predump_dir, _last_predump_tree_pid) *)
  templates : list (string * Z);   (* template_pool.templates *)
  root_overlays : option (list RootOverlay.ro);
  current_epoch : Z;
  last_restore_target_id : option string;
  active_dump_owner_id : option string;
  last_killed : list Z;   (* _last_killed_active_pids *)
  pending_reaps : list (Z * list (Z * Z));   (* _pending_cleanup_reaps *)
  restamps : list (string * restamp);   (* _restamp_cache *)
  lazy : lazy_state;
  callback_pids : gmap string Z;   (* disposable_pid captured by the completion callback of each dump *)
  async : async_state;   (* _async_incremental and the entry objects it shares with its writers *)
}.

Definition set_agent_pid (v : Z) (c : ctl) : ctl :=
    Ctl v (ns_init_pid c) (current_upper c) (current_work c) (reg c) (stat_err c) (last_predump c)
    (templates c) (root_overlays c) (current_epoch c) (last_restore_target_id c)
    (active_dump_owner_id c) (last_killed c) (pending_reaps c) (restamps c) (lazy c) (callback_pids
    c) (async c).
Definition set_ns_init_pid (v : Z) (c : ctl) : ctl :=
    Ctl (agent_pid c) v (current_upper c) (current_work c) (reg c) (stat_err c) (last_predump c)
    (templates c) (root_overlays c) (current_epoch c) (last_restore_target_id c)
    (active_dump_owner_id c) (last_killed c) (pending_reaps c) (restamps c) (lazy c) (callback_pids
    c) (async c).
Definition set_current_upper (v : string) (c : ctl) : ctl :=
    Ctl (agent_pid c) (ns_init_pid c) v (current_work c) (reg c) (stat_err c) (last_predump c)
    (templates c) (root_overlays c) (current_epoch c) (last_restore_target_id c)
    (active_dump_owner_id c) (last_killed c) (pending_reaps c) (restamps c) (lazy c) (callback_pids
    c) (async c).
Definition set_current_work (v : string) (c : ctl) : ctl :=
    Ctl (agent_pid c) (ns_init_pid c) (current_upper c) v (reg c) (stat_err c) (last_predump c)
    (templates c) (root_overlays c) (current_epoch c) (last_restore_target_id c)
    (active_dump_owner_id c) (last_killed c) (pending_reaps c) (restamps c) (lazy c) (callback_pids
    c) (async c).
Definition set_reg (v : registry) (c : ctl) : ctl :=
    Ctl (agent_pid c) (ns_init_pid c) (current_upper c) (current_work c) v (stat_err c)
    (last_predump c) (templates c) (root_overlays c) (current_epoch c) (last_restore_target_id c)
    (active_dump_owner_id c) (last_killed c) (pending_reaps c) (restamps c) (lazy c) (callback_pids
    c) (async c).
Definition set_stat_err (v : gmap string string) (c : ctl) : ctl :=
    Ctl (agent_pid c) (ns_init_pid c) (current_upper c) (current_work c) (reg c) v (last_predump c)
    (templates c) (root_overlays c) (current_epoch c) (last_restore_target_id c)
    (active_dump_owner_id c) (last_killed c) (pending_reaps c) (restamps c) (lazy c) (callback_pids
    c) (async c).
Definition set_last_predump (v : option (string * Z)) (c : ctl) : ctl :=
    Ctl (agent_pid c) (ns_init_pid c) (current_upper c) (current_work c) (reg c) (stat_err c) v
    (templates c) (root_overlays c) (current_epoch c) (last_restore_target_id c)
    (active_dump_owner_id c) (last_killed c) (pending_reaps c) (restamps c) (lazy c) (callback_pids
    c) (async c).
Definition set_templates (v : list (string * Z)) (c : ctl) : ctl :=
    Ctl (agent_pid c) (ns_init_pid c) (current_upper c) (current_work c) (reg c) (stat_err c)
    (last_predump c) v (root_overlays c) (current_epoch c) (last_restore_target_id c)
    (active_dump_owner_id c) (last_killed c) (pending_reaps c) (restamps c) (lazy c) (callback_pids
    c) (async c).
Definition set_root_overlays (v : option (list RootOverlay.ro)) (c : ctl) : ctl :=
    Ctl (agent_pid c) (ns_init_pid c) (current_upper c) (current_work c) (reg c) (stat_err c)
    (last_predump c) (templates c) v (current_epoch c) (last_restore_target_id c)
    (active_dump_owner_id c) (last_killed c) (pending_reaps c) (restamps c) (lazy c) (callback_pids
    c) (async c).
Definition set_current_epoch (v : Z) (c : ctl) : ctl :=
    Ctl (agent_pid c) (ns_init_pid c) (current_upper c) (current_work c) (reg c) (stat_err c)
    (last_predump c) (templates c) (root_overlays c) v (last_restore_target_id c)
    (active_dump_owner_id c) (last_killed c) (pending_reaps c) (restamps c) (lazy c) (callback_pids
    c) (async c).
Definition set_last_restore_target_id (v : option string) (c : ctl) : ctl :=
    Ctl (agent_pid c) (ns_init_pid c) (current_upper c) (current_work c) (reg c) (stat_err c)
    (last_predump c) (templates c) (root_overlays c) (current_epoch c) v (active_dump_owner_id c)
    (last_killed c) (pending_reaps c) (restamps c) (lazy c) (callback_pids c) (async c).
Definition set_active_dump_owner_id (v : option string) (c : ctl) : ctl :=
    Ctl (agent_pid c) (ns_init_pid c) (current_upper c) (current_work c) (reg c) (stat_err c)
    (last_predump c) (templates c) (root_overlays c) (current_epoch c) (last_restore_target_id c) v
    (last_killed c) (pending_reaps c) (restamps c) (lazy c) (callback_pids c) (async c).
Definition set_last_killed (v : list Z) (c : ctl) : ctl :=
    Ctl (agent_pid c) (ns_init_pid c) (current_upper c) (current_work c) (reg c) (stat_err c)
    (last_predump c) (templates c) (root_overlays c) (current_epoch c) (last_restore_target_id c)
    (active_dump_owner_id c) v (pending_reaps c) (restamps c) (lazy c) (callback_pids c) (async c).
Definition set_pending_reaps (v : list (Z * list (Z * Z))) (c : ctl) : ctl :=
    Ctl (agent_pid c) (ns_init_pid c) (current_upper c) (current_work c) (reg c) (stat_err c)
    (last_predump c) (templates c) (root_overlays c) (current_epoch c) (last_restore_target_id c)
    (active_dump_owner_id c) (last_killed c) v (restamps c) (lazy c) (callback_pids c) (async c).
Definition set_restamps (v : list (string * restamp)) (c : ctl) : ctl :=
    Ctl (agent_pid c) (ns_init_pid c) (current_upper c) (current_work c) (reg c) (stat_err c)
    (last_predump c) (templates c) (root_overlays c) (current_epoch c) (last_restore_target_id c)
    (active_dump_owner_id c) (last_killed c) (pending_reaps c) v (lazy c) (callback_pids c) (async
    c).
Definition set_lazy (v : lazy_state) (c : ctl) : ctl :=
    Ctl (agent_pid c) (ns_init_pid c) (current_upper c) (current_work c) (reg c) (stat_err c)
    (last_predump c) (templates c) (root_overlays c) (current_epoch c) (last_restore_target_id c)
    (active_dump_owner_id c) (last_killed c) (pending_reaps c) (restamps c) v (callback_pids c)
    (async c).
Definition set_callback_pids (v : gmap string Z) (c : ctl) : ctl :=
    Ctl (agent_pid c) (ns_init_pid c) (current_upper c) (current_work c) (reg c) (stat_err c)
    (last_predump c) (templates c) (root_overlays c) (current_epoch c) (last_restore_target_id c)
    (active_dump_owner_id c) (last_killed c) (pending_reaps c) (restamps c) (lazy c) v (async c).
Definition set_async (v : async_state) (c : ctl) : ctl :=
    Ctl (agent_pid c) (ns_init_pid c) (current_upper c) (current_work c) (reg c) (stat_err c)
    (last_predump c) (templates c) (root_overlays c) (current_epoch c) (last_restore_target_id c)
    (active_dump_owner_id c) (last_killed c) (pending_reaps c) (restamps c) (lazy c) (callback_pids
    c) v.

(** Constants of the object and switches of the environment. *)
Record config := Config {
  enable_incremental_dump : bool;
  enable_adaptive : bool;
  enable_warm_template : bool;        (* also: template_pool is not None *)
  enable_prewarm : bool;
  checkpoint_stash_template : bool;
  fixed_active_pid : option Z;
  restore_fastfork_dump_pid : bool;
  prefork_template_dump : bool;
  async_template_full_dump : bool;
  enable_criu_lazy_restore : bool;
  parallel_lazy_restore : bool;
  lazy_prestart : bool;
  lazy_prestart_max : Z;
  async_incremental : bool;
  mount_fd : Z;
  snapshot_store : string;
  layers_root : string;
  base_layer : string;
  overlay_mount_point : string;
  restamp_cache_root : string;
  criu_dump_bin : string;
  criu_restore_bin : string;
  npd_epoch_file : string;
  npd_resp_dir : string;
  pid_limit : nat;                    (* bounds the process-tree walks *)
  poll_limit : nat;                   (* bounds the polling loops: deadline / quantum *)
  (* os.environ *)
  env_fresh_pidns_active : bool;
  env_probe_cross_pid : bool;
  env_disable_hot_predump : bool;
  env_prefork_allow_fallback : bool;
  env_validate_equiv : bool;
  env_validate_digests : bool;
  env_restamp_parent : bool;
  env_disable_full_fallback : bool;
  env_criu_debug : bool;
  env_force_criu_restore : bool;
  env_allow_pool_clear : bool;
  env_restore_leave_stopped : bool;
  env_external_shell_job : bool;
  env_preserve_soft_dirty : bool;
  env_replay_strict_epoch : bool;
  async_max_pending : Z;
}.

(** ** Effects of the controller *)

(** [except OSError] *)
Definition is_OSError (e : exn) : bool :=
  match exn_cls e with OSError | FileNotFoundError | ProcessLookupError | ChildProcessError | TimeoutError => true | _ => false end.
Definition is_cls (c : exn_class) (e : exn) : bool := bool_decide (exn_cls e = c).

(** [try m except p: h]: other exceptions pass. *)
Definition mtry {S A} (p : exn → bool) (m : M S A) (h : exn → M S A) : M S A :=
  mcatch m (fun e => if p e then h e else mthrow e).
(** [except Exception] *)
Definition any_exn (e : exn) : bool := true.

Lemma rets_try {S A} p (m : M S A) h R : rets m R → (∀ e, rets (h e) R) → rets (mtry p m h) R.
Proof. intros Hm Hh. apply rets_catch; [done|]. intros e. destruct (p e); [apply Hh|apply rets_throw]. Qed.

Section effects.
Context {W : Type} `{!KernelOverlay W} `{!MountHost W} `{!Host W}.

Definition getc : M (ctl * W) ctl := fun s => (Ok s.1, s).
Definition modc (f : ctl → ctl) : M (ctl * W) unit := fun s => (Ok tt, (f s.1, s.2)).
Definition onw {A} (m : M W A) : M (ctl * W) A := fun s => let '(r, w) := m s.2 in (r, (s.1, w)).
Definition call {R} (c : sysE R) : M (ctl * W) R := onw (os_call c).

(** [os.kill] with [except ProcessLookupError: pass]. *)
Definition kill_quiet (pid : Z) (s : signal) : M (ctl * W) unit :=
  mtry (is_cls ProcessLookupError) (call (Kill pid s)) (fun _ => mret tt).

(** [call] with [except OSError: return d]. *)
Definition call_or {R} (d : R) (c : sysE R) : M (ctl * W) R := mtry is_OSError (call c) (fun _ => mret d).
End effects.

(** ** Computations that leave the layer stack alone *)

(** Some theorems are about the state of the asynchronous dumps too: they look
    at the computations below with [watch] set. *)
Class Watch := watch : bool.
Definition layers_only : Watch := false.
Definition layers_and_async : Watch := true.

Section frame.
Context {W : Type} `{!KernelOverlay W} `{!MountHost W} `{!Host W} {WT : Watch}.

(** What the file-system theorems watch: the kernel state, the current upper
    and work directory, the registry, and the covered root directories. *)
Definition fs_part (s : ctl * W) : kstate * string * string * registry * option (list RootOverlay.ro) :=
  (kabs s.2, current_upper s.1, current_work s.1, reg s.1, root_overlays s.1).
Definition async_part (s : ctl * W) : option async_state := if watch then Some (async s.1) else None.

Definition fs_keeps {A} (m : M (ctl * W) A) : Prop := ∀ x, keeps (fun s => (fs_part s, async_part s) = x) m.

Lemma fs_keeps_call {R} (c : sysE R) : fs_keeps (call c).
Proof.
  intros x [c0 w] Hs. unfold wp, call, onw. cbn [fst snd].
  pose proof (law_frame c w) as Hf. destruct (os_call c w) as [[a|e] w']; cbn in *;
    unfold fs_part, async_part in *; cbn in *; by rewrite Hf.
Qed.
Lemma fs_keeps_getc : fs_keeps getc.
Proof. by intros x s Hs. Qed.
Lemma fs_keeps_nonempty p : fs_keeps (onw (os_tree_nonempty p)).
Proof. intros x [c w] Hs. unfold wp, onw. cbn [fst snd]. by rewrite law_nonempty. Qed.
Lemma fs_keeps_modc f :
  (∀ c, (current_upper (f c) = current_upper c ∧ current_work (f c) = current_work c ∧
         reg (f c) = reg c ∧ root_overlays (f c) = root_overlays c) ∧
        (watch = true → async (f c) = async c)) →
  fs_keeps (modc f).
Proof.
  intros Hf x [c w] Hs. unfold wp, modc. cbn [fst snd]. destruct (Hf c) as ((E1 & E2 & E3 & E4) & E5).
  unfold fs_part, async_part in *. cbn [fst snd] in *. rewrite E1, E2, E3, E4.
  destruct watch; [by rewrite E5|done].
Qed.
Lemma fs_keeps_bind {A B} (m : M (ctl * W) A) (k : A → M (ctl * W) B) :
  fs_keeps m → (∀ a, fs_keeps (k a)) → fs_keeps (m ≫= k).
Proof. intros Hm Hk x. apply keeps_bind; [apply Hm|intros a; apply Hk]. Qed.
Lemma fs_keeps_ret {A} (a : A) : fs_keeps (mret a).
Proof. intros x. apply keeps_ret. Qed.
Lemma fs_keeps_raise {A} c msg : fs_keeps (@mraise _ A c msg).
Proof. intros x. apply keeps_raise. Qed.
Lemma fs_keeps_throw {A} e : fs_keeps (@mthrow _ A e).
Proof. intros x. apply keeps_throw. Qed.
Lemma fs_keeps_lift {A} (r : result A) : fs_keeps (lift_result r).
Proof. intros x. apply keeps_lift. Qed.
Lemma fs_keeps_catch {A} (m : M (ctl * W) A) h : fs_keeps m → (∀ e, fs_keeps (h e)) → fs_keeps (mcatch m h).
Proof. intros Hm Hh x. apply keeps_catch; [apply Hm|intros e; apply Hh]. Qed.
Lemma fs_keeps_try {A} p (m : M (ctl * W) A) h : fs_keeps m → (∀ e, fs_keeps (h e)) → fs_keeps (mtry p m h).
Proof.
  intros Hm Hh. apply fs_keeps_catch; [done|]. intros e. destruct (p e); [apply Hh|apply fs_keeps_throw].
Qed.
Lemma fs_keeps_finally {A} (m : M (ctl * W) A) f : fs_keeps m → fs_keeps f → fs_keeps (mfinally m f).
Proof. intros Hm Hf x. apply keeps_finally; [apply Hm|apply Hf]. Qed.
Lemma fs_keeps_when b m : fs_keeps m → fs_keeps (mwhen b m).
Proof. intros Hm x. apply keeps_when. intros _. apply Hm. Qed.
Lemma fs_keeps_for {A} (l : list A) body : (∀ y, fs_keeps (body y)) → fs_keeps (mfor l body).
Proof. intros Hb x. apply keeps_for. intros y _. apply Hb. Qed.
Lemma fs_keeps_kill_quiet pid s : fs_keeps (kill_quiet pid s).
Proof. apply fs_keeps_try; [apply fs_keeps_call|intros e; apply fs_keeps_ret]. Qed.
Lemma fs_keeps_call_or {R} (d : R) c : fs_keeps (call_or d c).
Proof. apply fs_keeps_try; [apply fs_keeps_call|intros e; apply fs_keeps_ret]. Qed.
End frame.

#[export] Hint Resolve fs_keeps_call fs_keeps_getc fs_keeps_nonempty fs_keeps_ret fs_keeps_raise
  fs_keeps_throw fs_keeps_lift fs_keeps_kill_quiet fs_keeps_call_or : deltabox.

(** One step of an [fs_keeps] proof. *)
Ltac fs_step :=
  match goal with
  | |- fs_keeps (_ ≫= _) => apply fs_keeps_bind; [|intros ?]
  | |- fs_keeps (mcatch _ _) => apply fs_keeps_catch; [|intros ?]
  | |- fs_keeps (mtry _ _ _) => apply fs_keeps_try; [|intros ?]
  | |- fs_keeps (mfinally _ _) => apply fs_keeps_finally
  | |- fs_keeps (mwhen _ _) => apply fs_keeps_when
  | |- fs_keeps (mfor _ _) => apply fs_keeps_for; intros ?
  | |- fs_keeps (modc _) => apply fs_keeps_modc; intros ?; done
  | |- fs_keeps (match ?x with _ => _ end) => destruct x eqn:?
  | |- fs_keeps (let '(_, _) := ?x in _) => destruct x eqn:?
  | |- fs_keeps (let _ := _ in _) => cbv zeta
  | |- fs_keeps _ => solve [auto with deltabox nocore]
  end.
Ltac fs_auto := repeat fs_step.
