(* ===== verification/Program.v ===== *)
(** * Programs of communicating processes

    A process that is scheduled, stopped and forked between its calls cannot be
    a function of the state: [prog] is its remaining program as data, a tree
    that asks for a call and continues with the answer.  A call can raise, and
    [ptry] is [try: ... except ...]. *)

From S2P Require Import Prelude.

Inductive prog (E : Type → Type) (A : Type) : Type :=
  | Ret (a : A)
  | Raise (e : exn)
  | Vis (R : Type) (c : E R) (k : result R → prog E A).
Arguments Ret {E A} a.
Arguments Raise {E A} e.
Arguments Vis {E A R} c k.

Section combinators.
Context {E : Type → Type}.

Fixpoint pbind {A B} (f : A → prog E B) (m : prog E A) : prog E B :=
  match m with
  | Ret a => f a
  | Raise e => Raise e
  | Vis c k => Vis c (fun r => pbind f (k r))
  end.
#[global] Instance prog_ret : MRet (prog E) := fun A => @Ret E A.
#[global] Instance prog_bind : MBind (prog E) := fun A B => @pbind A B.

Definition of_result {A} (r : result A) : prog E A := match r with Ok a => Ret a | Err e => Raise e end.
Definition trigger {R} (c : E R) : prog E R := Vis c of_result.

(** [try: m except: h], for the exceptions that satisfy [p]. *)
Fixpoint ptry {A} (p : exn → bool) (m : prog E A) (h : exn → prog E A) : prog E A :=
  match m with
  | Ret a => Ret a
  | Raise e => if p e then h e else Raise e
  | Vis c k => Vis c (fun r => ptry p (k r) h)
  end.
(** The value of [m], or the exception it raised, when that satisfies [p]. *)
Definition pcatch {A} (p : exn → bool) (m : prog E A) : prog E (exn + A) :=
  ptry p (a ← m; Ret (inr a)) (fun e => Ret (inl e)).
Definition pwhen (b : bool) (m : prog E unit) : prog E unit := if b then m else Ret tt.
End combinators.
