(* ===== verification/Template.v ===== *)
(** * The agent's side of warm templates ([template_fork.py])

    An agent handles the commands of its control FIFO between turns of its main
    loop: it forks, stashes a stopped copy of itself, reaps children or pauses.
    [_handle_template_message] is one such turn, as a program whose calls are
    [agE]; what a call does to the processes and the FIFOs is defined in
    [TemplateSys].  [_clone3_*], [_unshare_newpid] and the reading of
    [/proc/*/status] are single calls.  Log lines, timing figures and the
    sleeps of polling loops are left out. *)

From S2P Require Import Prelude PyStr PyDict Json JsonText Sha1 Program Host.
From Stdlib Require Import Ascii.

Module Template.

(** What [/proc/<pid>/status] says; [None] for a line that is missing. *)
Record status := Status { st_state : option string; st_ppid : option Z; st_nspid : option (list Z) }.

Inductive agE : Type → Type :=
  (* the control FIFOs *)
  | ReadCtrl : agE (option string)            (* _read_ctrl_line: one os.read and the buffer of the process *)
  | Respond (line : string) : agE unit        (* os.open raises; a full or broken pipe drops the line *)
  (* the process itself *)
  | ThreadCount : agE Z                       (* len(os.listdir("/proc/self/task")) *)
  | GetPid : agE Z
  | GetPpid : agE Z
  | Setsid : agE unit
  | ClearRefs : agE unit                      (* write "4" to /proc/self/clear_refs *)
  | StopSelf : agE unit                       (* os.kill(os.getpid(), SIGSTOP) *)
  | SigwaitCont : agE unit                    (* SIGCONT blocked, then sigwait({SIGCONT}) *)
  | Exit : agE Empty_set                      (* os._exit *)
  | UnshareNewpid : agE unit
  (* new processes: 0 in the child *)
  | Fork : agE Z
  | CloneSameNs (set_tid : Z) : agE Z         (* clone3(CLONE_PARENT, set_tid) *)
  | CloneNewpid : agE (Z * Z)                 (* clone3(CLONE_NEWPID|CLONE_PIDFD): pid, pidfd *)
  | CloneNewpidParent : agE Z                 (* clone(CLONE_NEWPID|CLONE_PARENT) *)
  (* children *)
  | KillChild (pid : Z) (s : signal) : agE unit
  | WaitNoHang (pid : Z) : agE Z              (* os.waitpid(pid, WNOHANG)[0] *)
  | WaitStopped (pid : Z) : agE (option bool) (* waitpid(pid, WUNTRACED|WNOHANG): stopped? *)
  | WaitChild (pid : Z) : agE unit            (* os.waitpid(pid, 0) *)
  (* /proc *)
  | ReadStatus (pid : option Z) : agE status  (* None: /proc/self/status *)
  | PidfdStatus (pidfd : Z) : agE status      (* /proc/self/fdinfo/<pidfd>; Pid: in st_ppid *)
  | ChildrenOfSelf : agE (list Z)             (* /proc/self/task/*/children *)
  (* the report pipe between a parent and its child *)
  | Pipe : agE (Z * Z)
  | PipeWrite (fd : Z) (s : string) : agE unit
  | PipeReady (fd : Z) : agE bool             (* select before the deadline *)
  | PipeRead (fd : Z) : agE string
  | CloseFd (fd : Z) : agE unit
  | FreezeResources (view : json) : agE json. (* async_resources.freeze_dump_view *)

Inductive role := ChildRole | ParentResumed | ParentActive.
Abbreviation P := (prog agE).

(** [os.environ], the bound on polling and the memory digest of the process. *)
Record env := Env {
  env_fresh_pidns : bool;          (* DELTABOX_FRESH_PIDNS_ACTIVE == "1" *)
  env_clone3 : bool;               (* DELTABOX_FRESH_PIDNS_CLONE3 == "1" *)
  env_async_resources : bool;      (* _freeze_async_resources is not None *)
  poll_limit : nat;                (* turns of a polling loop before its deadline *)
  fork_can_fail : bool;            (* whether the kernel may refuse os.fork *)
}.

(** ** Small calls *)

Definition newline : ascii := PyStr.chr 10.
Definition line_of (j : json) : string := dumps j +:+ String newline "".
Definition _write_response (payload : json) : P unit := trigger (Respond (line_of payload)).

Definition ok_field (b : bool) : string * json := ("ok", JBool b).
Definition respond (ok : bool) (fields : list (string * json)) : P unit := _write_response (JObj (ok_field ok :: fields)).

Definition stop_self : P unit := trigger StopSelf.
(** [os.kill(os.getpid(), SIGSTOP); return "parent_resumed"] *)
Definition stop_resumed : P (option role) := _ ← stop_self; Ret (Some ParentResumed).
Definition quiet_setsid : P unit := ptry is_OSError (trigger Setsid) (fun _ => Ret tt).
Definition _clear_self_soft_dirty : P bool :=
  ptry is_OSError (_ ← trigger ClearRefs; Ret true) (fun _ => Ret false).

Definition _nspids_for_pid (pid : Z) : P (list Z) :=
  ptry is_OSError (st ← trigger (ReadStatus (Some pid)); Ret (default [] (st_nspid st))) (fun _ => Ret []).
Definition _self_nspids : P (list Z) :=
  ptry is_OSError (st ← trigger (ReadStatus None); Ret (default [] (st_nspid st))) (fun _ => Ret []).
Definition _pidfd_nspids (pidfd : Z) : P (list Z) :=
  ptry is_OSError
    (st ← trigger (PidfdStatus pidfd);
     Ret (match st_nspid st with
          | Some l => l
          | None => match st_ppid st with Some pid => if (0 <? pid)%Z then [pid] else [] | None => [] end
          end))
    (fun _ => Ret []).
Definition _pid_state (pid : Z) : P (option string) :=
  ptry is_OSError (st ← trigger (ReadStatus (Some pid)); Ret (st_state st)) (fun _ => Ret None).

(** The loop over the children of this process; a child that vanishes is skipped. *)
Definition own_child_is (child target_ns_pid : Z) : P bool :=
  ptry is_OSError
    (s ← _pid_state child;
     if bool_decide (s = Some "Z") then Ret false
     else st ← trigger (ReadStatus (Some child));
          Ret (match st_nspid st with Some l => bool_decide (last l = Some target_ns_pid) | None => false end))
    (fun _ => Ret false).
Fixpoint own_child_loop (children : list Z) (target_ns_pid : Z) : P (option Z) :=
  match children with
  | [] => Ret None
  | child :: children =>
      found ← own_child_is child target_ns_pid;
      if (found : bool) then Ret (Some child) else own_child_loop children target_ns_pid
  end.
Definition _find_own_child_host_pid (target_ns_pid : Z) : P (option Z) :=
  children ← ptry is_OSError (trigger ChildrenOfSelf) (fun _ => Ret []);
  own_child_loop children target_ns_pid.

Definition bad_int (e : exn) : bool := is_cls TypeError e || is_cls ValueError e.

Definition is_true (j : json) : bool := match j with JBool b => b | _ => false end.

Section agent.
Context (ev : env).

Definition _fresh_pidns_enabled (msg : json) : P bool :=
  v ← of_result (pget msg "fresh_pidns"); Ret (is_true v || env_fresh_pidns ev).
Definition _fixed_active_pid (msg : json) : P (option Z) :=
  raw ← of_result (pget msg "fixed_active_pid");
  ptry bad_int (pid ← of_result (to_int raw); Ret (if (1 <? pid)%Z then Some pid else None)) (fun _ => Ret None).
(** [msg.get(k) is True] *)
Definition flag (msg : json) (k : string) : P bool := v ← of_result (pget msg k); Ret (is_true v).

(** ** Reading a command *)

(** [buf.split(b"\n", 1)], when there is a newline. *)
Fixpoint split_line (s : string) : option (string * string) :=
  match s with
  | EmptyString => None
  | String c s => if ch_eq c newline then Some (EmptyString, s)
                  else match split_line s with Some (l, r) => Some (String c l, r) | None => None end
  end.

(** The rest of [_read_ctrl_line] with a buffer: the line and what stays in it. *)
Definition take_line (buf : string) : option string * string :=
  match split_line buf with
  | None => (None, buf)
  | Some (line_b, rest) => let line := strip line_b in (if bool_decide (line = "") then None else Some line, rest)
  end.
(** With the buffer of the process and the content of the FIFO, of which one
    [os.read(read_fd, 4096)] takes the front: the line, the buffer and what is
    left in the FIFO.  An empty FIFO raises [BlockingIOError], which is caught. *)
Definition _read_ctrl_line (buf fifo : string) : option string * string * string :=
  match split_line buf with
  | Some _ => (take_line buf, fifo)
  | None => if bool_decide (fifo = "") then (None, buf, fifo)
            else (take_line (buf +:+ stake 4096 fifo), sdrop 4096 fifo)
  end.
Definition has_pending_ctrl_message (buf : string) : bool :=
  match split_line buf with Some _ => true | None => false end.

Definition _assert_single_threaded : P Z :=
  ptry is_OSError (trigger ThreadCount) (fun _ => Ret (-1)%Z).

(** ** Reaping *)

(** [while True: os.waitpid(-1, WNOHANG)]; [inl] is the error of the last call. *)
Fixpoint reap_loop (fuel : nat) (reaped : list Z) : P (list Z * option exn) :=
  match fuel with
  | O => Raise (Exn OutOfFuel "children")
  | S fuel =>
      r ← pcatch is_OSError (trigger (WaitNoHang (-1)));
      match r with
      | inl e => Ret (reaped, if is_cls ChildProcessError e then None else Some e)
      | inr pid => if (pid <=? 0)%Z then Ret (reaped, None) else reap_loop fuel (reaped ++ [pid])
      end
  end.
Definition int_list (l : list Z) : json := JArr (JInt <$> l).

Definition reap_children : P (option role) :=
  r ← reap_loop (poll_limit ev) [];
  match r with
  | (reaped, Some e) =>
      _ ← respond false [("mode", JStr "reap_children"); ("error", JStr (exn_msg e)); ("reaped", int_list reaped)];
      stop_resumed
  | (reaped, None) =>
      pid ← trigger GetPid;
      _ ← respond true [("mode", JStr "reap_children"); ("pid", JInt pid); ("reaped", int_list reaped)];
      stop_resumed
  end.

(** The polling loop for one child, [n] turns before its deadline. *)
Fixpoint reap_pid_loop (n : nat) (target_pid : Z) : P (list Z * option exn) :=
  r ← pcatch is_OSError (trigger (WaitNoHang target_pid));
  match r with
  | inl e => Ret ([], if is_cls ChildProcessError e then None else Some e)
  | inr pid => if (0 <? pid)%Z then Ret ([pid], None)
               else match n with O => Ret ([], None) | S n => reap_pid_loop n target_pid end
  end.
Definition reap_pid (msg : json) : P (option role) :=
  target ← of_result (pget msg "pid");
  match to_int target with
  | Err e =>
      if bad_int e then
        pid ← trigger GetPid;
        _ ← respond false [("mode", JStr "reap_pid"); ("pid", JInt pid); ("target", target);
                           ("error", JStr "bad pid"); ("reaped", int_list [])];
        stop_resumed
      else Raise e
  | Ok target_pid =>
      r ← reap_pid_loop (poll_limit ev) target_pid;
      pid ← trigger GetPid;
      match r with
      | (reaped, Some e) =>
          _ ← respond false [("mode", JStr "reap_pid"); ("pid", JInt pid); ("target", JInt target_pid);
                             ("error", JStr (exn_msg e)); ("reaped", int_list reaped)];
          stop_resumed
      | (reaped, None) =>
          _ ← respond true [("mode", JStr "reap_pid"); ("pid", JInt pid); ("target", JInt target_pid);
                            ("reaped", int_list reaped)];
          stop_resumed
      end
  end.

(** ** Stashing a template *)

Definition clone_error (what : string) (e : exn) : json := JStr (what +:+ ": " +:+ exn_msg e).
(** [nspids[0] if len(nspids) >= 2 else None] *)
Definition outer_pid (nspids : list Z) : json :=
  match nspids with p :: _ :: _ => JInt p | _ => JNull end.

(** [fixed_active_pid]: a clone with that pid, in the same namespace. *)
Definition stash_settid (msg : json) (fixed : Z) : P (option role) :=
  r ← pcatch is_OSError (trigger (CloneSameNs fixed));
  match r with
  | inl e =>
      _ ← respond false [("mode", JStr "stash_settid_template"); ("fixed_template_pid", JInt fixed);
                         ("error", clone_error "clone3" e)];
      Ret None
  | inr pid =>
      if (pid =? 0)%Z then
        _ ← quiet_setsid;
        clear ← flag msg "clear_soft_dirty_template";
        _ ← pwhen clear (_ ← _clear_self_soft_dirty; Ret tt);
        stop_resumed
      else
        child_nspids ← _nspids_for_pid pid;
        parent ← trigger GetPid;
        clear ← flag msg "clear_soft_dirty_template";
        _ ← respond true [("mode", JStr "stash_settid_template"); ("parent", JInt parent); ("child", JInt fixed);
                          ("child_host_pid", outer_pid child_nspids); ("child_nspids", int_list child_nspids);
                          ("fixed_template_pid", JInt fixed); ("same_pidns_set_tid", JBool true);
                          ("template_self_clear_refs", JBool clear)];
        Ret (Some ParentActive)
  end.

(** What the child of a fresh namespace reports before it is frozen. *)
Definition fresh_report (mode : string) (child : json) (nspids : list Z) : list (string * json) :=
  [("mode", JStr mode); ("child", child);
   ("child_host_pid", match nspids with p :: _ => JInt p | [] => JNull end); ("child_nspids", int_list nspids)].
Definition exit {A} : P A := Vis Exit (fun r : result Empty_set => match r with Ok v => match v with end | Err e => Raise e end).

(** The child: freeze the resources of a dump view, report, wait for SIGCONT. *)
Definition fresh_child (msg : json) (rfd wfd : Z) : P (option role) :=
  _ ← trigger (CloseFd rfd);
  nspids ← _self_nspids;
  own ← trigger GetPid;
  let report := fresh_report "stash_fresh_pidns" (JInt (default own (last nspids))) nspids in
  view ← of_result (pget msg "async_resources");
  frozen ← pcatch any_exn
    (match view with
     | JNull => Ret report
     | _ => if negb (env_async_resources ev)
            then Raise (Exn RuntimeError "async resources were not initialized before the agent loop")
            else res ← trigger (FreezeResources view); Ret (report ++ [("frozen_resources", res)])
     end);
  match frozen with
  | inl e =>
      _ ← trigger (PipeWrite wfd (line_of (JObj (ok_field false :: report ++ [("error", clone_error "frozen resources" e)]))));
      _ ← trigger (CloseFd wfd);
      exit
  | inr report =>
      _ ← ptry is_OSError
            (_ ← trigger Setsid; trigger (PipeWrite wfd (line_of (JObj (ok_field true :: report)))))
            (fun _ => exit);
      _ ← trigger (CloseFd wfd);
      _ ← trigger SigwaitCont;
      Ret (Some ParentResumed)
  end.

(** The parent reads the report up to the end of the pipe; the flag tells
    whether it saw that end before the deadline. *)
Fixpoint read_report (fuel : nat) (rfd : Z) (acc : string) : P (string * bool) :=
  match fuel with
  | O => Ret (acc, false)
  | S fuel =>
      ready ← trigger (PipeReady rfd);
      if negb ready then Ret (acc, false) else
      chunk ← trigger (PipeRead rfd);
      if bool_decide (chunk = "") then Ret (acc, true) else read_report fuel rfd (acc +:+ chunk)
  end.
(** [json.loads(text.split(b"\n", 1)[0].decode())] *)
Definition first_line (s : string) : string := match split_line s with Some (l, _) => l | None => s end.

Fixpoint wait_stopped (n : nat) (pid : Z) : P unit :=
  st ← trigger (WaitStopped pid);
  match st with
  | Some true => Ret tt
  | Some false => Raise (Exn RuntimeError "dump child exited before stop")
  | None => match n with O => Raise (Exn TimeoutError "dump child did not stop") | S n => wait_stopped n pid end
  end.

Definition failed_report (e : exn) : json := JObj [ok_field false; ("error", clone_error "stash fresh child response" e)].

(** The answer of the child and, if it is good, the child stopped. *)
Definition fresh_outcome (pid : Z) (text : string) (eof : bool) : P json :=
  resp ← (if eof then
            match loads (first_line text) with
            | Ok j => Ret j
            | Err e => if is_cls ValueError e || is_cls IndexError e then Ret (failed_report e) else Raise e
            end
          else Ret (failed_report (Exn ValueError "dump child readiness pipe timed out before EOF")));
  good ← of_result (pget resp "ok");
  if truth good then
    ptry any_exn (_ ← trigger (KillChild pid SIGSTOP); _ ← wait_stopped (poll_limit ev) pid; Ret resp)
      (fun e => Ret (JObj [ok_field false; ("error", clone_error "stop dump child" e)]))
  else Ret resp.

Definition is_gone (e : exn) : bool := is_cls ProcessLookupError e || is_cls ChildProcessError e.

Definition fresh_parent (pid pidfd rfd wfd : Z) : P (option role) :=
  _ ← trigger (CloseFd wfd);
  r ← read_report (poll_limit ev) rfd "";
  _ ← trigger (CloseFd rfd);
  resp ← fresh_outcome pid r.1 r.2;
  good ← of_result (pget resp "ok");
  _ ← pwhen (negb (truth good))
        (ptry is_gone (_ ← trigger (KillChild pid SIGKILL); trigger (WaitChild pid)) (fun _ => Ret tt));
  _ ← pwhen (0 <=? pidfd)%Z (ptry is_OSError (trigger (CloseFd pidfd)) (fun _ => Ret tt));
  if negb (truth good) then
    error ← of_result (pget_or resp "error" (JStr "child response failed"));
    _ ← respond false [("mode", JStr "stash_fresh_pidns"); ("error", error)];
    Ret None
  else
    parent ← trigger GetPid;
    child ← of_result (c ← pitem resp "child"; to_int c);
    host ← of_result (pget resp "child_host_pid");
    nspids ← of_result (pget resp "child_nspids");
    _ ← respond true [("mode", JStr "stash_fresh_pidns"); ("parent", JInt parent); ("child", JInt child);
                      ("child_parent_pid", JInt pid); ("child_host_pid", host); ("child_nspids", nspids);
                      ("fresh_pidns", JBool true); ("clone3", JBool true)];
    Ret (Some ParentActive).

Definition stash_fresh (msg : json) : P (option role) :=
  p ← trigger Pipe;
  let '(rfd, wfd) := p in
  r ← pcatch is_OSError (trigger CloneNewpid);
  match r with
  | inl e =>
      _ ← trigger (CloseFd rfd); _ ← trigger (CloseFd wfd);
      _ ← respond false [("mode", JStr "stash_fresh_pidns"); ("error", clone_error "clone3(CLONE_NEWPID|CLONE_PIDFD)" e)];
      Ret None
  | inr (pid, pidfd) => if (pid =? 0)%Z then fresh_child msg rfd wfd else fresh_parent pid pidfd rfd wfd
  end.

(** The double fork: a short-lived helper forks the template and reports it. *)
Definition stash_helper (msg : json) : P (option role) :=
  template_pid ← trigger Fork;
  if (template_pid =? 0)%Z then
    setsid ← flag msg "setsid_template";
    fixed ← _fixed_active_pid msg;
    _ ← pwhen (setsid || bool_decide (is_Some fixed)) quiet_setsid;
    clear ← flag msg "clear_soft_dirty_template";
    _ ← pwhen clear (_ ← _clear_self_soft_dirty; Ret tt);
    stop_resumed
  else
    parent ← trigger GetPpid;
    own ← trigger GetPid;
    clear ← flag msg "clear_soft_dirty_template";
    _ ← respond true [("mode", JStr "stash_template"); ("parent", JInt parent); ("child", JInt template_pid);
                      ("helper", JInt own); ("template_self_clear_refs", JBool clear)];
    exit.
Definition stash_plain (msg : json) : P (option role) :=
  helper ← trigger Fork;
  if (helper =? 0)%Z then stash_helper msg
  else _ ← ptry (is_cls ChildProcessError) (trigger (WaitChild helper)) (fun _ => Ret tt);
       Ret (Some ParentActive).

Definition stash_template (msg : json) : P (option role) :=
  fixed ← _fixed_active_pid msg;
  match fixed with
  | Some fixed => stash_settid msg fixed
  | None => fresh ← _fresh_pidns_enabled msg; if (fresh : bool) then stash_fresh msg else stash_plain msg
  end.

(** ** Forking a new active agent *)

Definition fork_settid (fixed : Z) : P (option role) :=
  r ← pcatch is_OSError (trigger (CloneSameNs fixed));
  match r with
  | inl e =>
      _ ← respond false [("mode", JStr "settid_fork"); ("fixed_active_pid", JInt fixed); ("error", clone_error "clone3" e)];
      Ret None
  | inr pid =>
      if (pid =? 0)%Z then _ ← quiet_setsid; Ret (Some ChildRole)
      else
        child_nspids ← _nspids_for_pid pid;
        parent ← trigger GetPid;
        _ ← respond true [("mode", JStr "settid_fork"); ("parent", JInt parent); ("child", JInt fixed);
                          ("child_host_pid", outer_pid child_nspids); ("child_nspids", int_list child_nspids);
                          ("fixed_active_pid", JInt fixed); ("same_pidns_set_tid", JBool true);
                          ("preserve_soft_dirty_after_settid", JBool true)];
        stop_resumed
  end.

Definition fork_clone_parent : P (option role) :=
  r ← pcatch is_OSError (trigger CloneNewpidParent);
  match r with
  | inl e =>
      _ ← respond false [("mode", JStr "fresh_pidns_clone_parent"); ("error", clone_error "clone(CLONE_NEWPID|CLONE_PARENT)" e)];
      Ret None
  | inr pid =>
      if (pid =? 0)%Z then _ ← _clear_self_soft_dirty; _ ← quiet_setsid; Ret (Some ChildRole)
      else
        child_nspids ← _nspids_for_pid pid;
        parent ← trigger GetPid;
        _ ← respond true [("parent", JInt parent); ("child", JInt (default pid (last child_nspids)));
                          ("child_host_pid", JInt pid); ("child_nspids", int_list child_nspids);
                          ("fresh_pidns", JBool true); ("clone_parent_active", JBool true);
                          ("clone_parent_child_self_clear_refs", JBool true)];
        stop_resumed
  end.

(** The helper of the double fork into a fresh namespace. *)
Definition fresh_helper (rfd wfd : Z) : P (option role) :=
  _ ← trigger (CloseFd rfd);
  r ← pcatch is_OSError (_ ← trigger UnshareNewpid; trigger Fork);
  match r with
  | inl e =>
      _ ← trigger (PipeWrite wfd (line_of (JObj [ok_field false; ("mode", JStr "fresh_pidns_fork");
                                                 ("error", clone_error "unshare/fork(CLONE_NEWPID)" e)])));
      _ ← trigger (CloseFd wfd);
      exit
  | inr pid =>
      if (pid =? 0)%Z then
        nspids ← _self_nspids;
        own ← trigger GetPid;
        let parent_ns_pid := default own (nspids !! (length nspids - 2)%nat) in
        let child := if (2 <=? length nspids)%nat then parent_ns_pid else own in
        _ ← ptry is_OSError
              (trigger (PipeWrite wfd (line_of (JObj (ok_field true :: fresh_report "fresh_pidns_fork" (JInt child) nspids)))))
              (fun _ => Ret tt);
        _ ← trigger (CloseFd wfd);
        _ ← quiet_setsid;
        Ret (Some ChildRole)
      else _ ← trigger (CloseFd wfd); exit
  end.

(** The parent reads up to the first line of the report. *)
Fixpoint read_line (fuel : nat) (rfd : Z) (acc : string) : P string :=
  match fuel with
  | O => Raise (Exn OutOfFuel "report")
  | S fuel =>
      chunk ← trigger (PipeRead rfd);
      if bool_decide (chunk = "") then Ret acc
      else if has_char newline chunk then Ret (acc +:+ chunk) else read_line fuel rfd (acc +:+ chunk)
  end.

Definition fork_fresh_helper : P (option role) :=
  p ← trigger Pipe;
  let '(rfd, wfd) := p in
  helper ← trigger Fork;
  if (helper =? 0)%Z then fresh_helper rfd wfd else
  _ ← trigger (CloseFd wfd);
  text ← read_line (poll_limit ev) rfd "";
  _ ← trigger (CloseFd rfd);
  _ ← ptry (is_cls ChildProcessError) (trigger (WaitChild helper)) (fun _ => Ret tt);
  match loads (first_line text) with
  | Err e =>
      if is_cls ValueError e || is_cls IndexError e then
        _ ← respond false [("mode", JStr "fresh_pidns_fork"); ("error", clone_error "helper response" e)];
        Ret None
      else Raise e
  | Ok resp =>
      good ← of_result (pget resp "ok");
      if negb (truth good) then _ ← _write_response resp; Ret None
      else
        parent ← trigger GetPid;
        child ← of_result (c ← pitem resp "child"; to_int c);
        host ← of_result (pget resp "child_host_pid");
        nspids ← of_result (pget resp "child_nspids");
        _ ← respond true [("parent", JInt parent); ("child", JInt child); ("child_host_pid", host);
                          ("child_nspids", nspids); ("fresh_pidns", JBool true)];
        stop_resumed
  end.

(** [clone3] into a fresh namespace; on failure the double fork is tried. *)
Definition fork_clone3 : P (option role) :=
  r ← pcatch is_OSError (trigger CloneNewpid);
  match r with
  | inl _ => fork_fresh_helper
  | inr (pid, pidfd) =>
      if (pid =? 0)%Z then _ ← _clear_self_soft_dirty; _ ← quiet_setsid; Ret (Some ChildRole)
      else
        child_nspids ← (if (0 <=? pidfd)%Z then _pidfd_nspids pidfd else Ret []);
        host ← (match child_nspids with
                | p :: _ => Ret (Some p)
                | [] => _find_own_child_host_pid pid
                end);
        parent ← trigger GetPid;
        _ ← respond true [("parent", JInt parent); ("child", JInt pid);
                          ("child_host_pid", match host with Some p => JInt p | None => JNull end);
                          ("child_nspids", int_list child_nspids); ("fresh_pidns", JBool true); ("clone3", JBool true);
                          ("clone3_child_self_clear_refs", JBool true)];
        _ ← pwhen (0 <=? pidfd)%Z (ptry is_OSError (trigger (CloseFd pidfd)) (fun _ => Ret tt));
        stop_resumed
  end.

Definition fork_plain : P (option role) :=
  pid ← trigger Fork;
  if (pid =? 0)%Z then Ret (Some ChildRole)
  else
    parent ← trigger GetPid;
    _ ← respond true [("mode", JStr "fork"); ("parent", JInt parent); ("child", JInt pid); ("fresh_pidns", JBool false)];
    stop_resumed.

Definition fork_active (msg : json) : P (option role) :=
  fixed ← _fixed_active_pid msg;
  match fixed with
  | Some fixed => fork_settid fixed
  | None =>
      fresh ← _fresh_pidns_enabled msg;
      if (fresh : bool) then
        clone_parent_active ← flag msg "clone_parent_active";
        if (clone_parent_active : bool) then fork_clone_parent
        else if env_clone3 ev then fork_clone3 else fork_fresh_helper
      else fork_plain
  end.

(** ** The handler *)

Definition checkpoint_pause (msg : json) : P (option role) :=
  token ← of_result (pget msg "token");
  _ ← respond true [("mode", JStr "checkpoint_pause"); ("token", token)];
  stop_resumed.

Definition probe_digest (probe_payload : option string) : P (option role) :=
  let heap := default "" probe_payload in
  pid ← trigger GetPid;
  _ ← respond true [("mode", JStr "probe_digest"); ("pid", JInt pid); ("heap_sha256", JStr (Sha256.sha256_hex heap));
                    ("heap_len", JInt (Z.of_nat (String.length heap)))];
  Ret (Some ParentActive).

Definition ops : list string := ["fork"; "stash_template"; "reap_children"; "reap_pid"; "probe_digest"; "checkpoint_pause"].

Definition refuse_threads (n : Z) : P (option role) :=
  _ ← respond false [("error", JStr (if (n <? 0)%Z then "thread count unavailable; refusing fork"
                                     else "multithread (" +:+ pretty n +:+ ")"))];
  Ret None.

(** One command, by its [op]. *)
Definition run_op (probe_payload : option string) (op : string) (msg : json) : P (option role) :=
  if bool_decide (op = "checkpoint_pause") then checkpoint_pause msg
  else if bool_decide (op = "reap_children") then reap_children
  else if bool_decide (op = "reap_pid") then reap_pid msg
  else if bool_decide (op = "probe_digest") then probe_digest probe_payload
  else if bool_decide (op = "stash_template") then stash_template msg
  else fork_active msg.

Definition handle_line (probe_payload : option string) (line : string) : P (option role) :=
  match loads line with
  | Err e => if is_cls ValueError e then Ret None else Raise e
  | Ok msg =>
      op ← of_result (pget msg "op");
      match op with
      | JStr op =>
          if negb (mem op ops) then Ret None else
          n_threads ← _assert_single_threaded;
          if negb (n_threads =? 1)%Z then refuse_threads n_threads else run_op probe_payload op msg
      | _ => Ret None
      end
  end.

Definition _handle_template_message (probe_payload : option string) : P (option role) :=
  line ← trigger ReadCtrl;
  match line with None => Ret None | Some line => handle_line probe_payload line end.

End agent.
End Template.
