(* ===== verification/TemplateSys.v ===== *)
(** * Processes, signals and the control FIFOs

    What the calls of an agent ([Template.agE]) do.  A process is its remaining
    program, its memory, its pids and its state; a fork copies the program and
    the memory.  Everything the kernel or another part of the agent decides is
    in an [oracle], so that a schedule of steps is data: a process, and an
    oracle, for each step.

    The processes are those of the agent's namespace and of the fresh
    namespaces of dump children.  A report pipe can be written, and what is
    read from it, thread counts and pidfd reads are answers of the oracle.  A
    process that reads [/proc] sees its own namespace, or all pids of a
    process.  [p_birth] is a history variable: the memory a process was created
    with. *)

From S2P Require Import Prelude PyStr PyDict Json JsonText Program Host Template.
From Stdlib Require Import Ascii.

Module TemplateSys.
Import Template.

Inductive pstate := Running | Stopped | Zombie.
#[global] Instance pstate_eq_dec : EqDecision pstate.
Proof. solve_decision. Defined.

(** In the main loop of the agent, or in [handle_template_message]: the flag is
    its [resumed], the program the rest of the current turn. *)
Inductive ctl := InLoop | InHandler (resumed : bool) (p : P (option role)).

Section sys.
Context {V : Type}.

Record proc := Proc {
  p_ppid : Z;
  p_chain : list Z;        (* its pids, from the controller's namespace to its own *)
  p_ns : Z;                (* the inode of its pid namespace *)
  p_state : pstate;
  p_ctl : ctl;
  p_buf : string;          (* _CTRL_IN_BUFS[read_fd] *)
  p_mem : V;               (* the rest of its memory *)
  p_unshared : bool;       (* unshare(CLONE_NEWPID) was called *)
  p_cont : bool;           (* a SIGCONT waits for sigwait *)
  p_birth : V;
}.
Definition set_ppid v a := Proc v (p_chain a) (p_ns a) (p_state a) (p_ctl a) (p_buf a) (p_mem a) (p_unshared a) (p_cont a) (p_birth a).
Definition set_state v a := Proc (p_ppid a) (p_chain a) (p_ns a) v (p_ctl a) (p_buf a) (p_mem a) (p_unshared a) (p_cont a) (p_birth a).
Definition set_ctl v a := Proc (p_ppid a) (p_chain a) (p_ns a) (p_state a) v (p_buf a) (p_mem a) (p_unshared a) (p_cont a) (p_birth a).
Definition set_buf v a := Proc (p_ppid a) (p_chain a) (p_ns a) (p_state a) (p_ctl a) v (p_mem a) (p_unshared a) (p_cont a) (p_birth a).
Definition set_mem v a := Proc (p_ppid a) (p_chain a) (p_ns a) (p_state a) (p_ctl a) (p_buf a) v (p_unshared a) (p_cont a) (p_birth a).
Definition set_unshared v a := Proc (p_ppid a) (p_chain a) (p_ns a) (p_state a) (p_ctl a) (p_buf a) (p_mem a) v (p_cont a) (p_birth a).
Definition set_cont v a := Proc (p_ppid a) (p_chain a) (p_ns a) (p_state a) (p_ctl a) (p_buf a) (p_mem a) (p_unshared a) v (p_birth a).

Record sys := Sys {
  procs : gmap Z proc;     (* by the pid in the controller's namespace *)
  fifo_in : string; fifo_out : string;
  out_open : bool;         (* the controller holds CTRL_OUT_FIFO open *)
  ns_reaper : Z;           (* the init process that adopts orphans *)
}.
Definition set_procs v s := Sys v (fifo_in s) (fifo_out s) (out_open s) (ns_reaper s).
Definition set_in v s := Sys (procs s) v (fifo_out s) (out_open s) (ns_reaper s).
Definition set_out v s := Sys (procs s) (fifo_in s) v (out_open s) (ns_reaper s).
Definition set_open v s := Sys (procs s) (fifo_in s) (fifo_out s) v (ns_reaper s).
Definition put p a s := set_procs (<[p := a]> (procs s)) s.

(** ** Pids *)

Definition level (a : proc) : nat := length (p_chain a).
Definition inner (a : proc) : Z := default 0%Z (last (p_chain a)).
(** The pid of [b] in the namespace of [a]. *)
Definition seen_by (a b : proc) : option Z := p_chain b !! (level a - 1)%nat.
Definition find_seen (a : proc) (pid : Z) (m : gmap Z proc) : option (Z * proc) :=
  List.find (fun x => bool_decide (seen_by a x.2 = Some pid)) (map_to_list m).
Definition children (p : Z) (m : gmap Z proc) : list (Z * proc) :=
  List.filter (fun x => bool_decide (p_ppid x.2 = p)) (map_to_list m).

(** ** Signals and exits *)

Definition deliver (sg : signal) (b : proc) : proc :=
  match p_state b with
  | Zombie => b
  | _ => match sg with
         | SIGKILL => set_state Zombie b
         | SIGSTOP => set_state Stopped b
         | SIGCONT => set_cont true (set_state Running b)
         end
  end.
(** The children of a process that ends are adopted. *)
Definition adopt (reaper q : Z) (b : proc) : proc := if bool_decide (p_ppid b = q) then set_ppid reaper b else b.
Definition end_proc (q : Z) (s : sys) : sys :=
  match procs s !! q with
  | Some b => set_procs (adopt (ns_reaper s) q <$> <[q := set_state Zombie b]> (procs s)) s
  | None => s
  end.
Definition signal_proc (sg : signal) (q : Z) (s : sys) : sys :=
  match sg with
  | SIGKILL => end_proc q s
  | _ => match procs s !! q with Some b => put q (deliver sg b) s | None => s end
  end.

(** ** What is left open *)

Record oracle := Oracle {
  o_bool : bool; o_fail : bool; o_exn : exn; o_int : Z; o_ints : list Z; o_str : string; o_json : json;
  o_status : status; o_mem : V;
  o_pid : Z; o_chain : list Z; o_ns : Z;       (* of a new process *)
}.
Definition os_error {R} : result R := raise OSError "".

Inductive outcome (R : Type) :=
  | Blocked
  | Gone (s : sys)
  | Cont (r : result R) (s : sys)
  | Spawn (q : Z) (child : proc) (rp rc : R) (s : sys).
Arguments Blocked {R}.
Arguments Gone {R} s.
Arguments Cont {R} r s.
Arguments Spawn {R} q child rp rc s.

(** The new process of a fork: its pids are new, its pid in the namespace of
    the parent is not that of the init process. *)
Definition fresh_seen (a : proc) (v : Z) (m : gmap Z proc) : bool :=
  forallb (fun x => negb (bool_decide (seen_by a x.2 = Some v))) (map_to_list m).
Definition newborn (o : oracle) (a : proc) (ppid : Z) (newns : bool) (want : option Z) (s : sys) : option (Z * proc) :=
  let chain := o_chain o in
  match chain !! (level a - 1)%nat with
  | Some v =>
      if bool_decide (length chain = (level a + if newns then 1 else 0)%nat) && bool_decide (head chain = Some (o_pid o))
         && bool_decide (procs s !! o_pid o = None) && (1 <? v)%Z && fresh_seen a v (procs s)
         && (if newns then bool_decide (last chain = Some 1%Z) && negb (bool_decide (o_ns o = p_ns a)) else true)
         && match want with Some w => bool_decide (v = w) | None => true end
      then Some (o_pid o, Proc ppid chain (if newns then o_ns o else p_ns a) Running InLoop (p_buf a) (p_mem a) false false (p_mem a))
      else None
  | None => None
  end.
(** A fork by [p]; [ret] is its answer in the parent. *)
Definition spawn {R} (o : oracle) (a : proc) (ppid : Z) (newns : bool) (want : option Z) (ret : Z → R) (s : sys) : outcome R :=
  if o_fail o then Cont os_error s else
  match newborn o a ppid newns want s with
  | Some (q, b) => Spawn q b (ret (default 0%Z (seen_by a b))) (ret 0%Z) s
  | None => Cont os_error s
  end.

Definition may_fail {R} (o : oracle) (v : R) (s : sys) : outcome R := Cont (if o_fail o then os_error else Ok v) s.

(** [os.waitpid] for a child of [p] with the pid [pid] of its namespace, or any. *)
Definition child_match (a : proc) (pid : Z) (x : Z * proc) : bool :=
  bool_decide (pid = -1)%Z || bool_decide (seen_by a x.2 = Some pid).
Definition wait_for (p : Z) (a : proc) (pid : Z) (s : sys) : result (option (Z * Z)) :=
  let kids := List.filter (child_match a pid) (children p (procs s)) in
  match kids with
  | [] => raise ChildProcessError ""
  | _ => Ok (match List.find (fun x => bool_decide (p_state x.2 = Zombie)) kids with
             | Some (q, b) => Some (q, default 0%Z (seen_by a b))
             | None => None
             end)
  end.
Definition reaped (q : Z) (s : sys) : sys := set_procs (delete q (procs s)) s.

Definition state_letter (st : pstate) : string := match st with Running => "R" | Stopped => "T" | Zombie => "Z" end.
(** [/proc/<pid>/status] for a reader that sees the pids from [lvl] on. *)
Definition status_of (lvl : nat) (b : proc) : status :=
  Status (Some (state_letter (p_state b))) (Some (p_ppid b)) (Some (drop (lvl - 1) (p_chain b))).

(** [_CTRL_IN_BUFS] and the FIFO after one read by [p]. *)
Definition read_ctrl (p : Z) (a : proc) (s : sys) : option string * sys :=
  let '(line, buf, rest) := _read_ctrl_line (p_buf a) (fifo_in s) in (line, set_in rest (put p (set_buf buf a) s)).

(** ** One call of process [p] *)

Section step.
Context (ev : env).

Definition answer (o : oracle) (s : sys) (p : Z) (a : proc) {R} (c : agE R) : outcome R :=
  match c with
  | ReadCtrl => let '(line, s) := read_ctrl p a s in Cont (Ok line) s
  | Respond line => if out_open s then Cont (Ok tt) (if o_bool o then set_out (fifo_out s +:+ line) s else s)
                    else Cont os_error s
  | ThreadCount => may_fail o (o_int o) s
  | GetPid => Cont (Ok (inner a)) s
  | GetPpid => Cont (Ok (match procs s !! p_ppid a with
                         | Some b => if bool_decide (p_ns b = p_ns a) then inner b else 0%Z
                         | None => 0%Z end)) s
  | Setsid | ClearRefs => may_fail o tt s
  | StopSelf => Cont (Ok tt) (if bool_decide (inner a = 1%Z) then s else put p (set_state Stopped a) s)
  | SigwaitCont => if p_cont a then Cont (Ok tt) (put p (set_cont false a) s) else Blocked
  | Exit => Gone (end_proc p s)
  | UnshareNewpid => if o_fail o then Cont os_error s else Cont (Ok tt) (put p (set_unshared true a) s)
  | Fork => if negb (fork_can_fail ev) && (o_fail o || bool_decide (newborn o a p (p_unshared a) None s = None)) then Blocked
            else spawn o a p (p_unshared a) None id s
  | CloneSameNs tid => spawn o a (p_ppid a) false (Some tid) id s
  | CloneNewpid => spawn o a p true None (fun v => (v, o_int o)) s
  | CloneNewpidParent => spawn o a (p_ppid a) true None id s
  | KillChild pid sg =>
      match find_seen a pid (procs s) with
      | Some (q, _) => Cont (Ok tt) (signal_proc sg q s)
      | None => Cont (raise ProcessLookupError "") s
      end
  | WaitNoHang pid =>
      match wait_for p a pid s with
      | Err e => Cont (Err e) s
      | Ok (Some (q, seen)) => Cont (Ok seen) (reaped q s)
      | Ok None => Cont (Ok 0%Z) s
      end
  | WaitStopped pid =>
      match find_seen a pid (procs s) with
      | Some (q, b) => match p_state b with
                       | Running => Cont (Ok None) s
                       | Stopped => Cont (Ok (Some true)) s
                       | Zombie => Cont (Ok (Some false)) (reaped q s)
                       end
      | None => Cont (raise ChildProcessError "") s
      end
  | WaitChild pid =>
      match wait_for p a pid s with
      | Err e => Cont (Err e) s
      | Ok (Some (q, _)) => Cont (Ok tt) (reaped q s)
      | Ok None => Blocked
      end
  | ReadStatus None => Cont (Ok (status_of (if o_bool o then 1 else level a) a)) s
  | ReadStatus (Some pid) =>
      match find_seen a pid (procs s) with
      | Some (_, b) => Cont (Ok (status_of (if o_bool o then 1 else level a) b)) s
      | None => Cont (raise FileNotFoundError "") s
      end
  | PidfdStatus _ => may_fail o (o_status o) s
  | ChildrenOfSelf => may_fail o (o_ints o) s
  | Pipe => Cont (Ok (o_int o, o_int o + 1)%Z) s
  | PipeWrite _ _ => Cont (Ok tt) s
  | PipeReady _ => Cont (Ok (o_bool o)) s
  | PipeRead _ => Cont (Ok (o_str o)) s
  | CloseFd _ => Cont (Ok tt) s
  | FreezeResources _ => Cont (if o_fail o then Err (o_exn o) else Ok (o_json o)) s
  end.

(** ** One step of process [p] *)

Definition handler : P (option role) := _handle_template_message ev None.

(** A turn that returned "parent_resumed" is followed by another. *)
Definition after_turn (r : option role) : ctl :=
  match r with Some ParentResumed => InHandler true handler | _ => InLoop end.
Definition set_prog (res : bool) (q : P (option role)) (p : Z) (s : sys) : sys :=
  set_procs (alter (set_ctl (InHandler res q)) p (procs s)) s.

Definition run_call (o : oracle) (s : sys) (p : Z) (a : proc) (res : bool) {R} (c : agE R) (k : result R → P (option role)) : sys :=
  match answer o s p a c with
  | Blocked => s
  | Gone s' => s'
  | Cont r s' => set_prog res (k r) p s'
  | Spawn q b rp rc s' => put q (set_ctl (InHandler res (k (Ok rc))) b) (set_prog res (k (Ok rp)) p s')
  end.

(** In the main loop a process works, which changes its memory, or looks at the
    control FIFO. *)
Definition astep (o : oracle) (p : Z) (s : sys) : sys :=
  match procs s !! p with
  | Some a =>
      match p_state a with
      | Running =>
          match p_ctl a with
          | InLoop => put p (if o_bool o then set_ctl (InHandler false handler) a else set_mem (o_mem o) a) s
          | InHandler _ (Ret r) => put p (set_ctl (after_turn r) a) s
          | InHandler _ (Raise _) => put p (set_ctl InLoop a) s
          | InHandler res (Vis c k) => run_call o s p a res c k
          end
      | _ => s
      end
  | None => s
  end.
Definition asteps (l : list (Z * oracle)) (s : sys) : sys := fold_left (fun s x => astep x.2 x.1 s) l s.
End step.
End sys.
Arguments proc V : clear implicits.
Arguments sys V : clear implicits.
Arguments oracle V : clear implicits.
Arguments Blocked {V R}.
Arguments Gone {V R} s.
Arguments Cont {V R} r s.
Arguments Spawn {V R} q child rp rc s.

End TemplateSys.
