(* ===== verification/TemplatePool.v ===== *)
(** * The controller's side of warm templates ([TemplatePool])

    The pool sends one command at a time over the control FIFO, wakes the
    process it is for and reads the response.  Its operations run in one thread
    of the controller; the agents run between any two of their calls: [call]
    first lets the schedule run ([tick]), then acts.  Clocks are the number of
    turns of a polling loop ([poll_limit]).  Log lines, timing figures and the
    cached pid of the timing dictionary are left out. *)

From S2P Require Import Prelude PyStr PyDict Json JsonText Program Host Template TemplateSys.
From Stdlib Require Import Ascii.

Module TemplatePool.
Import Template TemplateSys.

Section pool.
Context {V : Type} (ev : env).

(** The attributes of [TemplatePool]; [_out_fd] is [out_open] of the system. *)
Record pool := Pool { templates : list (string * Z); reaper_pid : option Z; out_buf : string; last_fork_meta : json }.
Definition set_templates v p := Pool v (reaper_pid p) (out_buf p) (last_fork_meta p).
Definition set_reaper v p := Pool (templates p) v (out_buf p) (last_fork_meta p).
Definition set_out_buf v p := Pool (templates p) (reaper_pid p) v (last_fork_meta p).
Definition set_meta v p := Pool (templates p) (reaper_pid p) (out_buf p) v.

(** What happens around one call of the controller: the steps the agents take
    before it, whether it fails, and how much of a write is taken. *)
Record tick := Tick { t_steps : list (Z * oracle V); t_fail : bool; t_count : nat }.
Definition no_tick : tick := Tick [] false 0.

Record gst := Gst { g_sched : list tick; g_sys : sys V; g_pool : pool }.
Abbreviation G := (M gst).
Definition on_sys (f : sys V → sys V) (g : gst) : gst := Gst (g_sched g) (f (g_sys g)) (g_pool g).
Definition on_pool (f : pool → pool) (g : gst) : gst := Gst (g_sched g) (g_sys g) (f (g_pool g)).

(** ** Calls *)

Definition let_run : G tick := fun g =>
  match g_sched g with
  | [] => (Ok no_tick, g)
  | t :: rest => (Ok t, Gst rest (asteps ev (t_steps t) (g_sys g)) (g_pool g))
  end.
Definition call {A} (f : tick → sys V → result A * sys V) : G A :=
  t ← let_run; (fun g => let '(r, s) := f t (g_sys g) in (r, Gst (g_sched g) s (g_pool g))) : G A.
(** A call that reads the system. *)
Definition observe {A} (f : sys V → result A) : G A := call (fun _ s => (f s, s)).
Definition the_pool : G pool := fun g => (Ok (g_pool g), g).
Definition mod_pool (f : pool → pool) : G unit := mmod (on_pool f).

Definition os_kill (pid : Z) (sg : signal) : G unit := call (fun _ s =>
  match procs s !! pid with
  | Some _ => (Ok tt, signal_proc sg pid s)
  | None => (raise ProcessLookupError "", s)
  end).
Definition is_dir (pid : Z) : G bool := observe (fun s => Ok (bool_decide (is_Some (procs s !! pid)))).
Definition read_status (pid : Z) : G status := observe (fun s =>
  match procs s !! pid with Some b => Ok (status_of 1 b) | None => raise FileNotFoundError "" end).
(** [os.readlink("/proc/<pid>/ns/pid")] fails for a zombie; the controller is in
    a namespace of its own. *)
Definition read_ns (pid : Z) : G Z := observe (fun s =>
  match procs s !! pid with
  | Some b => if bool_decide (p_state b = Zombie) then raise OSError "" else Ok (p_ns b)
  | None => raise FileNotFoundError ""
  end).
Definition list_children (pid : Z) : G (list Z) := observe (fun s =>
  match procs s !! pid with
  | Some _ => Ok (children pid (procs s)).*1
  | None => if bool_decide (pid = ns_reaper s) then Ok (children pid (procs s)).*1 else raise FileNotFoundError ""
  end).
Definition list_proc : G (list Z) := observe (fun s => Ok (map_to_list (procs s)).*1).

Definition open_out : G unit := call (fun t s => if t_fail t then (os_error, s) else (Ok tt, set_open true s)).
(** [os.read(fd, 4096)] of the output FIFO; [None] is [BlockingIOError]. *)
Definition read_out : G (option string) := call (fun _ s =>
  (Ok (if bool_decide (fifo_out s = "") then None else Some (stake 4096 (fifo_out s))), set_out (sdrop 4096 (fifo_out s)) s)).
(** [select] on it, up to the deadline. *)
Definition out_ready : G bool := observe (fun s => Ok (negb (bool_decide (fifo_out s = "")))).
Definition open_in : G unit := call (fun t s => if t_fail t then (os_error, s) else (Ok tt, s)).
Definition read_in : G string := call (fun _ s => (Ok (stake 4096 (fifo_in s)), set_in (sdrop 4096 (fifo_in s)) s)).
(** [os.write] of the input FIFO: [PIPE_BUF] bytes or less are written whole. *)
Definition write_in (data : string) : G nat := call (fun t s =>
  let n := if (String.length data <=? 4096)%nat then String.length data else Nat.max 1 (Nat.min (t_count t) (String.length data)) in
  if t_fail t then (os_error, s) else (Ok n, set_in (fifo_in s +:+ stake n data) s)).

(** ** Reading /proc *)

Definition _nspids_for_pid (pid : Z) : G (list Z) :=
  mtry is_OSError (st ← read_status pid; mret (default [] (st_nspid st))) (fun _ => mret []).
Definition _pid_state (pid : Z) : G (option string) :=
  mtry is_OSError (st ← read_status pid; mret (st_state st)) (fun _ => mret None).
Definition _ppid_for_pid (pid : Z) : G (option Z) :=
  mtry is_OSError (st ← read_status pid; mret (st_ppid st)) (fun _ => mret None).

(** [for ... in candidates: try: if test: return; except OSError: continue] *)
Fixpoint first_that (test : Z → G bool) (l : list Z) : G (option Z) :=
  match l with
  | [] => mret None
  | x :: l => b ← mtry is_OSError (test x) (fun _ => mret false); if (b : bool) then mret (Some x) else first_that test l
  end.

Definition _find_fresh_stash_pid (source_pid parent_visible_pid : Z) : G (option Z) :=
  source_ids ← _nspids_for_pid source_pid;
  if bool_decide (source_ids = []) || (parent_visible_pid <=? 1)%Z then mret None else
  mtry is_OSError
    (kids ← list_children source_pid;
     source_ns ← read_ns source_pid;
     (fix go (l : list Z) : G (option Z) :=
        match l with
        | [] => mret None
        | candidate :: l =>
            ids ← _nspids_for_pid candidate;
            if bool_decide (length ids = S (length source_ids)) && bool_decide (last ids = Some 1%Z)
               && bool_decide (ids !! (length source_ids - 1)%nat = Some parent_visible_pid) then
              ppid ← _ppid_for_pid candidate;
              if bool_decide (ppid = Some source_pid) then
                ns ← read_ns candidate;
                if negb (bool_decide (ns = source_ns)) then mret (Some candidate) else go l
              else go l
            else go l
        end) kids)
    (fun _ => mret None).

Definition _translate_ns_to_host (target_ns_pid source_host_pid : Z) : G (option Z) :=
  src ← mtry is_OSError (ns ← read_ns source_host_pid; mret (Some ns)) (fun _ => mret None);
  match src with
  | None => mret None
  | Some src_ns =>
      entries ← list_proc;
      first_that (fun entry =>
        ns ← read_ns entry;
        if negb (bool_decide (ns = src_ns)) then mret false
        else st ← read_status entry;
             mret (match st_nspid st with Some l => bool_decide (last l = Some target_ns_pid) | None => false end)) entries
  end.

Definition _valid_stash_host_pid (candidate child_ns_pid source_pid : Z) : G bool :=
  if bool_decide (candidate = source_pid) then mret false else
  mtry is_OSError
    (nspids ← _nspids_for_pid candidate;
     if bool_decide (last nspids = Some child_ns_pid) then
       ns ← read_ns candidate; src_ns ← read_ns source_pid; mret (bool_decide (ns = src_ns))
     else mret false)
    (fun _ => mret false).

Definition _find_child_host_pid (source_host_pid target_ns_pid : Z) (exclude_pids : list Z) : G (option Z) :=
  candidates ← mtry is_OSError (list_children source_host_pid) (fun _ => mret []);
  first_that (fun child =>
    if mem child exclude_pids then mret false else
    st ← _pid_state child;
    if bool_decide (st = Some "Z") then mret false else
    st ← read_status child;
    mret (match st_nspid st with Some l => bool_decide (last l = Some target_ns_pid) | None => false end)) candidates.

(** ** The channels *)

Definition _ensure_out_fd : G unit := fun g => if out_open (g_sys g) then (Ok tt, g) else open_out g.

(** Reading until there is nothing left; another turn for each chunk. *)
Fixpoint drain (fuel : nat) (read : G bool) : G unit :=
  match fuel with
  | O => mraise OutOfFuel "drain"
  | S fuel => more ← read; if (more : bool) then drain fuel read else mret tt
  end.
Definition _drain_pending : G unit :=
  _ ← mod_pool (set_out_buf ""); _ ← _ensure_out_fd;
  drain (S (poll_limit ev)) (c ← read_out; mret (bool_decide (is_Some c))).
Definition _drain_pending_commands : G unit :=
  opened ← mtry is_OSError (_ ← open_in; mret true) (fun _ => mret false);
  if (opened : bool) then drain (S (poll_limit ev)) (c ← read_in; mret (negb (bool_decide (c = "")))) else mret tt.

(** [_write_all], with [n] turns in which the FIFO may be full. *)
Fixpoint _write_all (fuel : nat) (data : string) : G unit :=
  if bool_decide (data = "") then mret tt else
  match fuel with
  | O => mraise TimeoutError "template command FIFO write timed out"
  | S fuel => n ← write_in data; _write_all fuel (sdrop n data)
  end.

(** A response whose [mode] is not expected is skipped, unless it is a refusal. *)
Definition wanted (expected : list string) (line : string) : result bool :=
  let resp := match loads line with Ok j => Some j | Err _ => None end in
  let mode := match resp with Some j => match pget j "mode" with Ok m => Some m | Err _ => None end | None => None end in
  let resp := match mode with Some _ => resp | None => None end in
  let known := match mode with
               | Some (JStr m) => Ok (mem m expected)
               | Some (JArr _) | Some (JObj _) => raise TypeError "unhashable type"
               | _ => Ok false
               end in
  k ← known;
  if (k : bool) then Ok true
  else Ok (match resp with
           | Some (JObj d) => match dget "ok" d with Some (JBool false) => true | _ => false end
           | _ => false
           end).

(** One turn of the loop: a line of the buffer, or a chunk of the FIFO. *)
Definition response_turn (expected : list string) : G (option string) :=
  p ← the_pool;
  match split_line (out_buf p) with
  | Some (line, rest) =>
      _ ← mod_pool (set_out_buf rest);
      w ← lift_result (wanted expected line);
      mret (if (w : bool) then Some line else None)
  | None =>
      ready ← out_ready;
      if negb ready then mret None else
      c ← read_out;
      _ ← match c with Some chunk => mod_pool (fun p => set_out_buf (out_buf p +:+ chunk) p) | None => mret tt end;
      mret None
  end.
Fixpoint response_loop (fuel : nat) (expected : list string) : G (option string) :=
  match fuel with
  | O => mret None
  | S fuel => l ← response_turn expected; match l with Some line => mret (Some line) | None => response_loop fuel expected end
  end.
Definition _read_response_line (expected : list string) : G (option string) :=
  _ ← _ensure_out_fd; response_loop (poll_limit ev) expected.

Definition reset_channels : G unit :=
  _ ← mod_pool (set_out_buf ""); call (fun _ s => (Ok tt, set_open false s)).

(** ** Forking from a template *)

Definition fork_modes : list string := ["fork"; "fresh_pidns_fork"; "fresh_pidns_clone_parent"; "settid_fork"].

(** [if fixed_active_pid and fixed_active_pid > 1] *)
Definition fixed_field (fixed : option Z) : list (string * json) :=
  match fixed with Some p => if (1 <? p)%Z then [("fixed_active_pid", JInt p)] else [] | None => [] end.
Definition fork_payload (clone_parent_active : bool) (fixed_active_pid : option Z) : json :=
  JObj ([("op", JStr "fork")] ++ (if env_fresh_pidns ev then [("fresh_pidns", JBool true)] else [])
        ++ (if clone_parent_active then [("clone_parent_active", JBool true)] else []) ++ fixed_field fixed_active_pid).

Definition dispatch_fork (source_pid : Z) (clone_parent_active : bool) (fixed_active_pid : option Z) : G bool :=
  _ ← _drain_pending; _ ← _drain_pending_commands;
  opened ← mtry is_OSError (_ ← open_in; mret true) (fun _ => mret false);
  if negb opened then mret false else
  _ ← write_in (line_of (fork_payload clone_parent_active fixed_active_pid));
  mtry (is_cls ProcessLookupError) (_ ← os_kill source_pid SIGCONT; mret true) (fun _ => mret false).

Definition opt_int (j : json) : option (result Z) := match j with JNull => None | j => Some (to_int j) end.

(** The host pid of the child a response names. *)
Definition locate_child (source_pid child_ns_pid : Z) (child_host_pid : json) (same_pidns : bool) (template_pids : list Z)
    : G (option Z) :=
  hint ← match opt_int child_host_pid with
         | Some (Ok candidate) =>
             if mem candidate template_pids then mret None
             else alive ← is_dir candidate; mret (if (alive : bool) then Some candidate else None)
         | Some (Err e) => if bad_int e then mret None else mthrow e
         | None => mret None
         end;
  let keep (o : option Z) := match o with Some p => if mem p template_pids then None else Some p | None => None end in
  c1 ← match hint with Some p => mret (Some p)
       | None => c ← _find_child_host_pid source_pid child_ns_pid template_pids; mret (keep c) end;
  c2 ← match c1 with
       | Some p => mret (Some p)
       | None => if same_pidns then
                   reaper ← _ppid_for_pid source_pid;
                   match reaper with
                   | Some r => if (r =? 0)%Z then mret None
                               else c ← _find_child_host_pid r child_ns_pid template_pids; mret (keep c)
                   | None => mret None
                   end
                 else mret None
       end;
  match c2 with
  | Some p => mret (Some p)
  | None => c ← _translate_ns_to_host child_ns_pid source_pid; mret (keep c)
  end.

Definition await_fork (source_pid : Z) (snapshot_id : option string) : G (option (Z * Z)) :=
  line ← _read_response_line fork_modes;
  match line with
  | None => _ ← mod_pool (set_meta (JObj [])); mret None
  | Some line =>
      match loads line with
      | Err e => if is_cls ValueError e then _ ← mod_pool (set_meta (JObj [])); mret None else mthrow e
      | Ok resp =>
          good ← lift_result (pget resp "ok");
          _ ← mod_pool (set_meta resp);
          if negb (truth good) then mret None else
          parent_ns_pid ← lift_result (v ← pitem resp "parent"; to_int v);
          child_ns_pid ← lift_result (v ← pitem resp "child"; to_int v);
          _ ← mwhen (parent_ns_pid =? 1)%Z (mtry is_OSError (os_kill source_pid SIGSTOP) (fun _ => mret tt));
          p ← the_pool;
          host ← lift_result (pget resp "child_host_pid");
          same ← lift_result (pget resp "same_pidns_set_tid");
          child ← locate_child source_pid child_ns_pid host (is_true same) (templates p).*2;
          match child with
          | None => mret None
          | Some child_pid =>
              _ ← match snapshot_id with
                  | Some sid => mod_pool (fun p => set_templates (dset sid source_pid (templates p)) p)
                  | None => mret tt
                  end;
              mret (Some (source_pid, child_pid))
          end
      end
  end.

Definition request_fork (source_pid : Z) (snapshot_id : option string) (clone_parent_active : bool)
    (fixed_active_pid : option Z) : G (option (Z * Z)) :=
  sent ← dispatch_fork source_pid clone_parent_active fixed_active_pid;
  if negb sent then mret None else await_fork source_pid snapshot_id.

(** ** Stashing *)

Definition stash_modes : list string := ["stash_template"; "stash_fresh_pidns"; "stash_settid_template"].

Definition stash_payload (fresh_pidns setsid clear : bool) (fixed : option Z) (async_resources : option json) : json :=
  JObj ([("op", JStr "stash_template")]
        ++ match async_resources with Some v => [("async_resources", v)] | None => [] end
        ++ (if fresh_pidns then [("fresh_pidns", JBool true)] else [])
        ++ (if setsid then [("setsid_template", JBool true)] else [])
        ++ (if clear then [("clear_soft_dirty_template", JBool true)] else [])
        ++ fixed_field fixed).

(** The host pid of an ordinary stashed template: the hint of the response, the
    helper's child, the reaper's child, the whole of /proc. *)
Definition locate_template (source_pid template_ns_pid : Z) (resp : json) : G (option Z) :=
  mode ← lift_result (pget resp "mode");
  child_host_pid ← lift_result (pget resp "child_host_pid");
  let plain := is_string mode "stash_template" in
  c1 ← match opt_int child_host_pid with
       | Some (Ok candidate) =>
           if bool_decide (candidate = source_pid) then mret None else
           bad ← (if plain then v ← _valid_stash_host_pid candidate template_ns_pid source_pid; mret (negb v) else mret false);
           if (bad : bool) then mret None
           else alive ← is_dir candidate; mret (if (alive : bool) then Some candidate else None)
       | Some (Err e) => if bad_int e then mret None else mthrow e
       | None => mret None
       end;
  helper ← lift_result (pget resp "helper");
  c2 ← match c1, helper with
       | None, JInt helper_ns_pid =>
           if plain && (1 <? helper_ns_pid)%Z then
             h ← _find_child_host_pid source_pid helper_ns_pid [];
             match h with
             | Some helper_pid =>
                 v ← _valid_stash_host_pid helper_pid helper_ns_pid source_pid;
                 if negb v then mret None else
                 c ← _find_child_host_pid helper_pid template_ns_pid [];
                 match c with
                 | Some candidate => v ← _valid_stash_host_pid candidate template_ns_pid source_pid;
                                     mret (if (v : bool) then Some candidate else None)
                 | None => mret None
                 end
             | None => mret None
             end
           else mret None
       | c, _ => mret c
       end;
  p ← the_pool;
  c3 ← match c2, reaper_pid p with
       | None, Some reaper =>
           if plain then
             c ← _find_child_host_pid reaper template_ns_pid ((templates p).*2 ++ [source_pid]);
             match c with
             | Some candidate => v ← _valid_stash_host_pid candidate template_ns_pid source_pid;
                                 mret (if (v : bool) then Some candidate else None)
             | None => mret None
             end
           else mret None
       | c, _ => mret c
       end;
  match c3 with
  | Some c => mret (Some c)
  | None => _translate_ns_to_host template_ns_pid source_pid
  end.

Definition remember (snapshot_id : option string) (pid : Z) : G unit :=
  match snapshot_id with
  | Some sid => mod_pool (fun p => set_templates (dset sid pid (templates p)) p)
  | None => mret tt
  end.

Definition request_stash_template (source_pid : Z) (snapshot_id : option string) (fresh_pidns : option bool)
    (setsid_template clear_soft_dirty_template : bool) (fixed_template_pid : option Z) (async_resources : option json)
    : G (option Z) :=
  _ ← _drain_pending; _ ← _drain_pending_commands;
  if bool_decide (is_Some async_resources) && negb (bool_decide (fresh_pidns = Some true))
  then mraise ValueError "frozen dump resources require a fresh PID namespace" else
  let fresh := default (env_fresh_pidns ev) fresh_pidns in
  opened ← mtry is_OSError (_ ← open_in; mret true) (fun _ => mret false);
  if negb opened then mret None else
  _ ← _write_all (poll_limit ev)
        (line_of (stash_payload fresh setsid_template clear_soft_dirty_template fixed_template_pid async_resources));
  line ← _read_response_line stash_modes;
  match line with
  | None => mret None
  | Some line =>
      match loads line with
      | Err e => if is_cls ValueError e then mret None else mthrow e
      | Ok resp =>
          good ← lift_result (pget resp "ok");
          if negb (truth good) then mret None else
          template_ns_pid ← lift_result (v ← pitem resp "child"; to_int v);
          mode ← lift_result (pget resp "mode");
          if is_string mode "stash_fresh_pidns" then
            visible ← lift_result (pget resp "child_parent_pid");
            t ← match visible with
                | JInt parent_visible_pid => if (template_ns_pid =? 1)%Z then _find_fresh_stash_pid source_pid parent_visible_pid
                                             else mret None
                | _ => mret None
                end;
            match t with
            | None => mraise RuntimeError "cannot establish fresh dump child's namespace identity"
            | Some template_pid => _ ← remember snapshot_id template_pid; mret (Some template_pid)
            end
          else
            t ← locate_template source_pid template_ns_pid resp;
            match t with
            | None => mret None
            | Some template_pid =>
                if bool_decide (template_pid = source_pid) then mret None
                else _ ← remember snapshot_id template_pid; mret (Some template_pid)
            end
      end
  end.

(** ** Pausing and reaping *)

(** [with self.quiesce_for_checkpoint(source_pid): body].  The worker is watched
    through a pidfd, here its pid: [call]s do not reuse it while it is held. *)
Definition proc_state (pid : Z) : G (option string) := observe (fun s =>
  Ok (match procs s !! pid with Some b => Some (state_letter (p_state b)) | None => None end)).
Fixpoint await_stopped (fuel : nat) (source_pid : Z) : G unit :=
  st ← proc_state source_pid;
  match st with
  | None => mraise ProcessLookupError "checkpoint worker exited before quiescence"
  | Some "Z" => mraise ProcessLookupError "checkpoint worker exited before quiescence"
  | Some "T" => mret tt
  | Some _ => match fuel with
              | O => mraise TimeoutError "checkpoint worker failed to stop"
              | S fuel => await_stopped fuel source_pid
              end
  end.
Definition quiesce_for_checkpoint {A} (source_pid : Z) (token : string) (body : G A) : G A :=
  _ ← _drain_pending; _ ← _drain_pending_commands;
  _ ← open_in;
  _ ← _write_all (poll_limit ev) (line_of (JObj [("op", JStr "checkpoint_pause"); ("token", JStr token)]));
  line ← _read_response_line ["checkpoint_pause"];
  match line with
  | None => mraise TimeoutError "checkpoint quiescence reply timed out"
  | Some line =>
      resp ← lift_result (loads line);
      good ← lift_result (pget resp "ok"); tok ← lift_result (pget resp "token");
      if negb (is_true good && is_string tok token) then mraise RuntimeError "checkpoint quiescence refused or stale reply" else
      _ ← await_stopped (poll_limit ev) source_pid;
      mfinally body (mtry (is_cls ProcessLookupError) (os_kill source_pid SIGCONT) (fun _ => mret tt))
  end.

Definition _host_stop_init_template (source_pid : Z) : G unit :=
  nspids ← _nspids_for_pid source_pid;
  if bool_decide (last nspids = Some 1%Z) then mtry is_OSError (os_kill source_pid SIGSTOP) (fun _ => mret tt) else mret tt.

(** The request both reaping operations make: a command to a stopped process. *)
Definition request_of_stopped (source_pid : Z) (payload : json) (mode : string) : G (option json) :=
  _ ← _drain_pending; _ ← _drain_pending_commands;
  opened ← mtry is_OSError (_ ← open_in; mret true) (fun _ => mret false);
  if negb opened then mret None else
  _ ← write_in (line_of payload);
  sent ← mtry (is_cls ProcessLookupError) (_ ← os_kill source_pid SIGCONT; mret true) (fun _ => mret false);
  if negb sent then mret None else
  line ← _read_response_line [mode];
  _ ← _host_stop_init_template source_pid;
  match line with
  | None => mret None
  | Some line =>
      match loads line with
      | Err e => if is_cls ValueError e then mret None else mthrow e
      | Ok resp => good ← lift_result (pget resp "ok"); mret (if truth good then Some resp else None)
      end
  end.
(** [list(resp.get("reaped", []))] *)
Definition reaped_list (resp : option json) : G (option (list json)) :=
  match resp with
  | None => mret None
  | Some j => l ← lift_result (v ← pget_or j "reaped" (JArr []); piter v); mret (Some l)
  end.
Definition request_reap_children (source_pid : Z) : G (option (list json)) :=
  r ← request_of_stopped source_pid (JObj [("op", JStr "reap_children")]) "reap_children"; reaped_list r.
Definition request_reap_pid (source_pid target_pid : Z) : G (option (list json)) :=
  r ← request_of_stopped source_pid (JObj [("op", JStr "reap_pid"); ("pid", JInt target_pid)]) "reap_pid"; reaped_list r.

(** ** The registry *)

Definition get (snapshot_id : string) : G (option Z) :=
  p ← the_pool;
  match dget snapshot_id (templates p) with
  | None => mret None
  | Some pid =>
      alive ← is_dir pid;
      if (alive : bool) then mret (Some pid)
      else _ ← mod_pool (fun p => set_templates (dpop snapshot_id (templates p)) p); mret None
  end.
Definition discard (snapshot_id : string) : G unit :=
  p ← the_pool;
  match dget snapshot_id (templates p) with
  | None => mret tt
  | Some pid =>
      _ ← mod_pool (fun p => set_templates (dpop snapshot_id (templates p)) p);
      mtry (is_cls ProcessLookupError) (os_kill pid SIGKILL) (fun _ => mret tt)
  end.
Definition close : G unit := call (fun _ s => (Ok tt, set_open false s)).

End pool.
End TemplatePool.
