(* ===== verification/TemplateCmd.v ===== *)
(** * What an agent does with a command of the pool

    Predicates on the rest of an agent's program, closed under the answers its
    calls can get ([idle], [settle], [work], ...), and [command_works]: a
    command of the pool is carried out as they say.  They are what the invariant
    of [TemplateInv] keeps of a program.

    For one pid namespace ([DELTABOX_FRESH_PIDNS_ACTIVE] unset) and a kernel
    that does not refuse [os.fork]. *)

From S2P Require Import Prelude Hoare PyStr PyDict PyInt Json JsonText Program Host Template TemplateSys TemplatePool.
From Stdlib Require Import Ascii.

Module TemplateCmd.
Import Template TemplateSys TemplatePool.

(** ** Lines *)

Definition one_line (s : string) : bool := sforall (fun c => negb (ch_eq c newline)) s.

Lemma one_line_app s t : one_line (s +:+ t) = one_line s && one_line t.
Proof. apply sforall_app. Qed.
Lemma one_line_escapes s : one_line (escapes s) = true.
Proof.
  induction s as [|c s IH]; [done|]. change (escapes (String c s)) with (escape c +:+ escapes s).
  rewrite one_line_app, IH, andb_true_r. destruct c as [[] [] [] [] [] [] [] []]; reflexivity.
Qed.
Lemma one_line_quote s : one_line (quote s) = true.
Proof.
  unfold quote. change (String quote_char ?t) with (String quote_char "" +:+ t). rewrite !one_line_app, one_line_escapes. reflexivity.
Qed.
Lemma one_line_join l : Forall (fun s => one_line s = true) l → one_line (join ", " l) = true.
Proof.
  induction 1 as [|x [|y l] Hx Hl IH]; [done|done|]. rewrite join_cons2, !one_line_app, Hx. by rewrite IH.
Qed.
Lemma one_line_pretty (z : Z) : one_line (pretty z) = true.
Proof.
  assert (∀ x : N, one_line (pretty x) = true) as HN.
  { intros x. apply (sforall_impl is_digit); [|apply pretty_N_digits]. intros c Hc. unfold ch_eq.
    apply negb_true_iff, bool_decide_eq_false. by intros ->. }
  destruct z as [|p|p]; [done|apply HN|]. change (pretty (Z.neg p)) with ("-" +:+ pretty (N.pos p)). by rewrite one_line_app, HN.
Qed.
Lemma one_line_dumps j : one_line (dumps j) = true.
Proof.
  assert (∀ n j, jsize j <= n → one_line (dumps j) = true) as H; [|by apply (H (jsize j))].
  clear j. induction n as [|n IH]; intros j Hn; [pose proof (jsize_pos j); lia|].
  destruct j as [|[]|z| |s|l|d]; try done; [apply one_line_pretty|apply one_line_quote| |].
  - change (dumps (JArr l)) with ("[" +:+ join ", " (dumps <$> l) +:+ "]"). rewrite !one_line_app, one_line_join; [done|].
    apply Forall_fmap, Forall_forall. intros x Hx. apply IH. pose proof (jsize_arr x l Hx). simpl in *. lia.
  - change (dumps (JObj d)) with ("{" +:+ join ", " ((fun p => quote p.1 +:+ ": " +:+ dumps p.2) <$> d) +:+ "}").
    rewrite !one_line_app, one_line_join; [done|]. apply Forall_fmap, Forall_forall. intros [k x] Hx. cbn [compose fst snd].
    rewrite !one_line_app, one_line_quote, IH; [done|].
    assert (jsize x <= sum_list ((fun p => jsize p.2) <$> d)); [|simpl in *; lia].
    apply sum_list_elem, list_elem_of_fmap. by exists (k, x).
Qed.

Lemma stake_sdrop n s : stake n s +:+ sdrop n s = s.
Proof.
  revert s. induction n as [|n IH]; intros s; [done|]. destruct s as [|c s]; [done|].
  change (stake (S n) (String c s) +:+ ?t) with (String c (stake n s +:+ t)). by rewrite IH.
Qed.
Lemma stake_all n s : (String.length s <= n)%nat → stake n s = s ∧ sdrop n s = "".
Proof.
  revert s. induction n as [|n IH]; intros [|c s] Hl; simpl in *; try done; [lia|]. destruct (IH s) as [-> ->]; [lia|done].
Qed.
Lemma string_app_nil (s t : string) : s +:+ t = "" → s = "" ∧ t = "".
Proof. by destruct s. Qed.

Lemma split_line_none s : one_line s = true → split_line s = None.
Proof.
  induction s as [|c s IH]; [done|]. unfold one_line. cbn [sforall split_line]. intros [Hc Hs]%andb_true_iff.
  apply negb_true_iff in Hc. by rewrite Hc, IH.
Qed.
Lemma split_line_app s t : one_line s = true → split_line (s +:+ String newline t) = Some (s, t).
Proof.
  induction s as [|c s IH]; [done|]. unfold one_line. cbn [sforall]. intros [Hc Hs]%andb_true_iff.
  change (String c s +:+ ?x) with (String c (s +:+ x)). cbn [split_line]. apply negb_true_iff in Hc. by rewrite Hc, IH.
Qed.
Lemma split_line_prefix s t u : one_line s = true → t +:+ u = s +:+ String newline "" →
  (split_line t = None ∧ u ≠ "") ∨ (split_line t = Some (s, "") ∧ u = "").
Proof.
  revert t. induction s as [|c s IH]; intros t Hs H.
  - destruct t as [|d t]; [left; split; [done|]; by intros ->|]. injection H as -> H.
    destruct t; [|done]. right. split; [done|]. by destruct u.
  - unfold one_line in Hs. cbn [sforall] in Hs. apply andb_true_iff in Hs as [Hc Hs]. apply negb_true_iff in Hc.
    destruct t as [|d t]; [left; split; [done|]; by intros ->|]. injection H as -> H. cbn [split_line]. rewrite Hc.
    destruct (IH t Hs H) as [[-> ?]|[-> ->]]; [by left|by right].
Qed.

Lemma strip_object d : strip (dumps (JObj d)) = dumps (JObj d).
Proof.
  change (dumps (JObj d)) with (String "{" (join ", " ((fun p => quote p.1 +:+ ": " +:+ dumps p.2) <$> d) +:+ String "}" "")).
  generalize (join ", " ((λ p : string * json, quote p.1 +:+ ": " +:+ dumps p.2) <$> d)) as m. intros m.
  unfold strip, rstrip_by. change (lstrip_by is_space (String "{" ?s)) with (String "{" s). rewrite srev_cons, srev_snoc.
  change (String "}" (srev m) +:+ String "{" "") with (String "}" (srev m +:+ String "{" "")).
  change (lstrip_by is_space (String "}" ?s)) with (String "}" s). rewrite srev_cons, srev_snoc, srev_involutive. done.
Qed.

(** ** What an agent's program still does

    Predicates on programs, closed under their steps.  [idle]: it looks for a
    command, or waits for a child that ends; [settle]: it stops itself
    and is then back at the handler; [work]: it is carrying out a command. *)

Abbreviation prg := (P (option role)).
Abbreviation resumed_prog := (Ret (Some ParentResumed) : prg).
Definition plain_err {R} (r : result R) : Prop := match r with Err e => is_ascii (exn_msg e) = true | Ok _ => True end.

Definition os_answer {R} (r : result R) : Prop := match r with Err e => is_OSError e = true | Ok _ => True end.

Section commands.
Context (ev : env).

Fixpoint idle (p : prg) : Prop :=
  match p with
  | Ret _ | Raise _ => True
  | Vis c k =>
      match c in agE R return (result R → prg) → (result R → Prop) → Prop with
      | ReadCtrl => fun k rec => (∀ l, k (Ok (Some l)) = handle_line ev None l) ∧ rec (Ok None)
      | Setsid | WaitChild _ => fun _ rec => ∀ r, rec r
      | _ => fun _ _ => False
      end k (fun r => idle (k r))
  end.

Fixpoint settle (p : prg) : Prop :=
  match p with
  | Ret _ | Raise _ => False
  | Vis c k =>
      match c in agE R return (result R → prg) → (result R → Prop) → Prop with
      | StopSelf => fun k _ => k (Ok tt) = resumed_prog
      | Setsid | ClearRefs => fun _ rec => ∀ r, os_answer r → rec r
      | _ => fun _ _ => False
      end k (fun r => settle (k r))
  end.

(** The answers a command gets. *)
Definition field (j : json) (k : string) (v : json) : Prop := pget j k = Ok v.
Definition refusal (l : string) : Prop := ∃ j, l = line_of j ∧ plain j = true ∧ field j "ok" (JBool false).
Definition hint_ok (j : json) (hp : Z) : Prop := field j "child_host_pid" JNull ∨ field j "child_host_pid" (JInt hp).
Definition reply (modes : list string) (j : json) : Prop :=
  plain j = true ∧ field j "ok" (JBool true) ∧ ∃ m, field j "mode" (JStr m) ∧ m ∈ modes.
(** Process [w] (its pid) has made a child with the pids [hp] and [v]. *)
Definition fork_reply (w hp v : Z) (l : string) : Prop := ∃ j, l = line_of j ∧ reply fork_modes j ∧
  field j "parent" (JInt w) ∧ field j "child" (JInt v) ∧ hint_ok j hp.
Definition ordinary_stash : list string := ["stash_template"; "stash_settid_template"].
Definition stash_reply (hp v : Z) (l : string) : Prop := ∃ j, l = line_of j ∧ reply ordinary_stash j ∧
  field j "child" (JInt v) ∧ hint_ok j hp.
Definition pause_reply (l : string) : Prop := ∃ j, l = line_of j ∧ reply ["checkpoint_pause"] j.

(** What [/proc/<child>/status] shows of the pids of a child: at most its own,
    or all of them. *)
Definition truthful (hp : Z) (r : result status) : Prop :=
  match r with
  | Ok st => match st_nspid st with Some (x :: _ :: _) => x = hp | _ => True end
  | Err e => is_OSError e = true
  end.

(** A forking parent ([respond_then]: what follows its reply). *)
Section forked.
Context (w hp v : Z) (good : string → Prop) (next : prg → Prop).
Fixpoint replies (p : prg) : Prop :=
  match p with
  | Ret _ | Raise _ => False
  | Vis c k =>
      match c in agE R return (result R → prg) → (result R → Prop) → Prop with
      | Respond l => fun k _ => good l ∧ next (k (Ok tt))
      | GetPid => fun _ rec => rec (Ok w)
      | GetPpid => fun _ rec => ∀ z, rec (Ok z)
      | ReadStatus (Some x) => fun _ rec => x = v ∧ ∀ r, truthful hp r → rec r
      | _ => fun _ _ => False
      end k (fun r => replies (k r))
  end.
End forked.

(** The helper of a double fork. *)
Definition exits (p : prg) : Prop := match p with Vis c _ => match c with Exit => True | _ => False end | _ => False end.
Definition helper (p : prg) : Prop :=
  match p with
  | Vis c k => match c in agE R return (result R → prg) → Prop with
               | Fork => fun k => settle (k (Ok 0%Z)) ∧ ∀ w hp v, (1 < v)%Z → replies w hp v (stash_reply hp v) exits (k (Ok v))
               | _ => fun _ => False
               end k
  | _ => False
  end.

Inductive kind := KFork | KStash | KPause.

(** [w] is the pid of the process that works. *)
Section work.
Context (w : Z) (K : kind).
Definition answers (l : string) (p : prg) : Prop :=
  (refusal l ∧ (idle p ∨ settle p)) ∨ (K = KPause ∧ pause_reply l ∧ settle p).
Fixpoint work (p : prg) : Prop :=
  match p with
  | Ret _ | Raise _ => True
  | Vis c k =>
      match c in agE R return (result R → prg) → (result R → Prop) → Prop with
      | ThreadCount => fun _ rec => ∀ r, plain_err r → rec r
      | GetPid => fun _ rec => rec (Ok w)
      | Respond l => fun k _ => answers l (k (Ok tt))
      | Fork => fun k _ => match K with
                           | KFork => idle (k (Ok 0%Z)) ∧ ∀ hp v, (1 < v)%Z → replies w hp v (fork_reply w hp v) settle (k (Ok v))
                           | KStash => helper (k (Ok 0%Z)) ∧ ∀ v, (1 < v)%Z → idle (k (Ok v))
                           | KPause => False
                           end
      | CloneSameNs v => fun k rec => (∀ e, plain_err (R:=Z) (Err e) → rec (Err e)) ∧
          match K with
          | KFork => idle (k (Ok 0%Z)) ∧ ∀ hp, (1 < v)%Z → replies w hp v (fork_reply w hp v) settle (k (Ok v))
          | KStash => settle (k (Ok 0%Z)) ∧ ∀ hp, (1 < v)%Z → replies w hp v (stash_reply hp v) idle (k (Ok v))
          | KPause => False
          end
      | _ => fun _ _ => False
      end k (fun r => work (k r))
  end.
End work.

(** ** The commands of the pool *)

Definition env_ok : Prop := env_fresh_pidns ev = false ∧ fork_can_fail ev = false.

Inductive command : kind → json → Prop :=
  | c_fork fixed : command KFork (JObj (("op", JStr "fork") :: fixed_field fixed))
  | c_stash setsid clear fixed : command KStash (stash_payload false setsid clear fixed None)
  | c_pause t : is_ascii t = true → command KPause (JObj [("op", JStr "checkpoint_pause"); ("token", JStr t)]).

Lemma command_plain K j : command K j → plain j = true.
Proof.
  destruct 1 as [fixed|setsid clear fixed|t Ht]; try (simpl; rewrite ?Ht; reflexivity).
  - unfold fixed_field. destruct fixed as [p|]; [case_match|]; reflexivity.
  - unfold stash_payload, fixed_field. destruct setsid, clear, fixed as [p|]; try case_match; reflexivity.
Qed.

Lemma ascii_app s t : is_ascii (s +:+ t) = is_ascii s && is_ascii t.
Proof. apply sforall_app. Qed.
Lemma ascii_pretty (z : Z) : is_ascii (pretty z) = true.
Proof.
  assert (∀ x : N, is_ascii (pretty x) = true) as HN.
  { intros x. apply (sforall_impl is_digit); [|apply pretty_N_digits]. intros c Hc. unfold is_digit in Hc.
    rewrite andb_true_iff, !Nat.leb_le in Hc. apply Nat.ltb_lt. lia. }
  destruct z as [|p|p]; [done|apply HN|]. change (pretty (Z.neg p)) with ("-" +:+ pretty (N.pos p)). by rewrite ascii_app, HN.
Qed.
Lemma plain_ints l : plain (int_list l) = true.
Proof. unfold int_list. cbn [plain]. by induction l. Qed.

Lemma refuse fields : plain (JObj (ok_field false :: fields)) = true → refusal (line_of (JObj (ok_field false :: fields))).
Proof. intros H. eexists. split; [done|]. split; [done|]. reflexivity. Qed.

Section handler.
Context (w : Z).
Hypothesis (Hev : env_ok).

Lemma threads_work K n : work w K (refuse_threads n).
Proof.
  simpl. left. split; [|left; done]. apply refuse. cbn -[is_ascii]. destruct (n <? 0)%Z; [done|].
  by rewrite !ascii_app, ascii_pretty.
Qed.
Lemma line_work K j op : plain j = true → field j "op" (JStr op) → op ∈ ops → work w K (run_op ev None op j) →
  work w K (handle_line ev None (dumps j)).
Proof.
  intros Hp Ho Hin Hw. unfold handle_line. rewrite loads_dumps by done. rewrite Ho.
  rewrite <-mem_true in Hin. simpl. rewrite Hin. simpl. intros [n|e] Hr; simpl.
  - destruct (negb (n =? 1)%Z); [apply threads_work|done].
  - destruct (is_OSError e); [|done]. apply (threads_work K (-1)).
Qed.


(** The reply of a parent that knows the pids of its child. *)
Lemma nspids_replies hp v good next (k : list Z → prg) :
  (∀ l, match l with x :: _ :: _ => x = hp | _ => True end → replies w hp v good next (k l)) →
  replies w hp v good next (pbind k (Template._nspids_for_pid v)).
Proof.
  intros H. unfold Template._nspids_for_pid. simpl. split; [done|]. intros [st|e] Hr; simpl in *.
  - apply H. by destruct (st_nspid st).
  - rewrite Hr. simpl. by apply H.
Qed.
Lemma hint_outer l hp d : match l with x :: _ :: _ => x = hp | _ => True end →
  dget "child_host_pid" d = Some (outer_pid l) → hint_ok (JObj d) hp.
Proof.
  intros Hl Hd. unfold hint_ok, field, pget, pget_or. rewrite Hd. destruct l as [|x [|y l]]; [by left|by left|]. subst. by right.
Qed.

Lemma fork_settid_work fixed : work w KFork (fork_settid fixed).
Proof.
  unfold fork_settid, pcatch. simpl. split.
  - intros e He. destruct (is_OSError e); [|done]. simpl. left. split; [|by left]. apply refuse.
    unfold clone_error. cbn -[is_ascii]. by rewrite !ascii_app, He.
  - split; [intros [?|e]; simpl; [done|by destruct (is_OSError e)]|]. intros hp Hv.
    assert ((fixed =? 0)%Z = false) as -> by (apply Z.eqb_neq; lia). simpl. apply nspids_replies. intros l Hl. simpl.
    split; [|done]. eexists. split; [done|]. split_and!; try done; [|by eapply hint_outer].
    split_and!; [|done|]. { cbn -[int_list outer_pid]. rewrite plain_ints. by destruct l as [|? [|? ?]]. }
    exists "settid_fork". split; [done|do 3 right; left].
Qed.
Lemma fork_plain_work : work w KFork fork_plain.
Proof.
  simpl. split; [done|]. intros hp v Hv.
  assert ((v =? 0)%Z = false) as -> by (apply Z.eqb_neq; lia). simpl. split; [|done].
  eexists. split; [done|]. split_and!; try done; [|by left]. split_and!; try done. exists "fork". split; [done|left].
Qed.

Lemma setsid_settles (k : () → prg) : settle (k tt) → settle (pbind k quiet_setsid).
Proof. intros H. simpl. intros [[]|e] Hr; simpl; [done|]. by rewrite Hr. Qed.
Lemma clear_settles (k : () → prg) b : settle (k tt) →
  settle (pbind k (pwhen b (_ ← _clear_self_soft_dirty; Ret tt))).
Proof. intros H. destruct b; [|done]. simpl. intros [[]|e] Hr; simpl; [done|]. by rewrite Hr. Qed.

Lemma stash_settid_work msg fixed clear : flag msg "clear_soft_dirty_template" = Ret clear → work w KStash (stash_settid msg fixed).
Proof.
  intros Hf. unfold stash_settid, pcatch. rewrite Hf. cbn -[quiet_setsid pwhen Template._nspids_for_pid]. split.
  - intros e He. destruct (is_OSError e); [|done]. simpl. left. split; [|by left]. apply refuse.
    unfold clone_error. cbn -[is_ascii]. by rewrite !ascii_app, He.
  - split; [by apply setsid_settles, clear_settles|]. intros hp Hv.
    assert ((fixed =? 0)%Z = false) as -> by (apply Z.eqb_neq; lia). apply nspids_replies. intros l Hl. simpl.
    split; [|done]. eexists. split; [done|]. split_and!; try done; [|by eapply hint_outer].
    split_and!; [|done|]. { cbn -[int_list outer_pid]. rewrite plain_ints. by destruct l as [|? [|? ?]]. }
    exists "stash_settid_template". split; [done|right; left].
Qed.
Lemma stash_plain_work msg setsid fixed clear : flag msg "setsid_template" = Ret setsid → _fixed_active_pid msg = Ret fixed →
  flag msg "clear_soft_dirty_template" = Ret clear → work w KStash (stash_plain msg).
Proof.
  intros Hs Hx Hf. simpl. split.
  - unfold stash_helper. rewrite Hs, Hx, Hf. cbn -[quiet_setsid pwhen]. split.
    + destruct (setsid || bool_decide (is_Some fixed)); [apply setsid_settles|]; by apply clear_settles.
    + intros w' hp v Hv. assert ((v =? 0)%Z = false) as -> by (apply Z.eqb_neq; lia). simpl. intros z. split; [|done].
      eexists. split; [done|]. split_and!; try done; [|by left]. split_and!; try done. exists "stash_template". split; [done|left].
  - intros v Hv. assert ((v =? 0)%Z = false) as -> by (apply Z.eqb_neq; lia). simpl.
    intros [[]|e]; simpl; [done|]. by destruct (is_cls ChildProcessError e).
Qed.

(** The requested pid as the agent reads it. *)
Definition wanted_pid (fixed : option Z) : option Z :=
  match fixed with Some p => if (1 <? p)%Z then Some p else None | None => None end.
Lemma fixed_pid d fixed : dget "fixed_active_pid" d = dget "fixed_active_pid" (fixed_field fixed) →
  _fixed_active_pid (JObj d) = Ret (wanted_pid fixed).
Proof.
  unfold _fixed_active_pid, pget, pget_or. intros ->. unfold fixed_field, wanted_pid.
  destruct fixed as [p|]; [|done]. destruct (1 <? p)%Z eqn:E; [|done]. simpl. by rewrite E.
Qed.

Lemma command_works K j : command K j → work w K (handle_line ev None (dumps j)).
Proof.
  destruct Hev as [He _]. intros Hc. pose proof (command_plain K j Hc) as Hp. destruct Hc as [fixed|setsid clear fixed|t Ht].
  - apply (line_work _ _ "fork"); [done|done|left|]. change (run_op ev None "fork" ?m) with (fork_active ev m).
    unfold fork_active. rewrite (fixed_pid _ fixed) by done. cbn [mbind prog_bind pbind].
    destruct (wanted_pid fixed); [apply fork_settid_work|]. unfold _fresh_pidns_enabled. rewrite He.
    assert (pget (JObj (("op", JStr "fork") :: fixed_field fixed)) "fresh_pidns" = Ok JNull) as ->
      by (unfold fixed_field; destruct fixed; [by case_match|done]). apply fork_plain_work.
  - apply (line_work _ _ "stash_template"); [done|done|right; left|]. change (run_op ev None "stash_template" ?m) with (stash_template ev m).
    unfold stash_template, stash_payload in *. rewrite (fixed_pid _ fixed) by (by destruct setsid, clear). cbn [mbind prog_bind pbind].
    assert (∀ m, m = JObj ([("op", JStr "stash_template")] ++ [] ++ [] ++ (if setsid then [("setsid_template", JBool true)] else [])
        ++ (if clear then [("clear_soft_dirty_template", JBool true)] else []) ++ fixed_field fixed) →
      flag m "setsid_template" = Ret setsid ∧ flag m "clear_soft_dirty_template" = Ret clear ∧ _fresh_pidns_enabled ev m = Ret false)
      as Hflags.
    { intros m ->. unfold fixed_field, _fresh_pidns_enabled. rewrite He.
      destruct setsid, clear, fixed as [p|]; try destruct (1 <? p)%Z; done. }
    edestruct Hflags as (H1 & H2 & H3); [reflexivity|].
    destruct (wanted_pid fixed) eqn:Hw; [by apply (stash_settid_work _ _ clear)|].
    rewrite H3. eapply (stash_plain_work _ setsid (wanted_pid fixed) clear); [done| |done].
    apply fixed_pid. by destruct setsid, clear.
  - apply (line_work _ _ "checkpoint_pause"); [done|done|do 5 right; left|]. change (run_op ev None "checkpoint_pause" ?m) with (checkpoint_pause m). simpl.
    right. split; [done|]. split; [|done]. eexists. split; [done|]. split_and!; [done|done|]. eexists. split; [done|left].
Qed.
End handler.
End commands.

End TemplateCmd.
