(* ===== verification/TemplateInv.v ===== *)
(** * At most one runnable agent

    The invariant behind warm templates, under any interleaving of the agents:
    of all processes forked from an agent at most one can read the control
    FIFO; the others are stopped, about to stop themselves, or dead.  A request
    goes through [phase]s, and every step of an agent keeps the invariant of its
    phase or takes an [edge] to the next one ([asteps_inv]).

    [Tk] is a ghost map: the templates the controller relies on, with their
    memories. *)

From S2P Require Import Prelude Hoare PyStr PyDict PyInt Json JsonText Program Host Template TemplateSys TemplatePool TemplateCmd.
From Stdlib Require Import Ascii.

Module TemplateInv.
Import Template TemplateSys TemplatePool TemplateCmd.

Section inv.
Context {V : Type} (ev : env) (d : nat).
Hypothesis (Hev : env_ok ev) (Hd : (1 <= d)%nat).
#[local] Abbreviation idle := (TemplateCmd.idle ev).
#[local] Abbreviation work := (TemplateCmd.work ev).
Implicit Types (s : sys V) (a b : proc V) (o : oracle V).

(** A stopped or stopping process of the templates. *)
Definition steady a : Prop := p_buf a = "" ∧
  ((p_state a = Stopped ∧ ∃ res, p_ctl a = InHandler res resumed_prog) ∨
   (p_state a = Running ∧ ∃ res q, p_ctl a = InHandler res q ∧ settle q)).
(** Neither reads the control FIFO nor does anything but stop itself or end. *)
Definition leaving a : Prop := p_buf a = "" ∧
  (p_state a = Zombie ∨ (p_state a = Running ∧ ∃ res q, p_ctl a = InHandler res q ∧ exits q)).
Definition passive a : Prop := steady a ∨ leaving a.
Definition idle_ctl (c : ctl) : Prop := match c with InLoop => True | InHandler _ q => idle q end.

(** ** Pids *)

Definition proc_ok (p : Z) a : Prop :=
  level a = d ∧ p_unshared a = false ∧ (1 < inner a)%Z ∧ head (p_chain a) = Some p.
Definition base s : Prop :=
  (∀ p a, procs s !! p = Some a → proc_ok p a) ∧
  (∀ p q a b, procs s !! p = Some a → procs s !! q = Some b → inner a = inner b → p = q).

(** ** What stays of a process in a step of another *)

Definition same a a' : Prop :=
  p_chain a' = p_chain a ∧ p_unshared a' = p_unshared a ∧ p_mem a' = p_mem a ∧ p_birth a' = p_birth a.
Definition sim a a' : Prop := same a a' ∧ (passive a → passive a') ∧ (steady a → steady a').
Definition gentle (L : list Z) s s' : Prop := ∀ p, p ∉ L →
  match procs s !! p, procs s' !! p with
  | Some a, Some a' => sim a a'
  | Some a, None => p_state a = Zombie
  | None, None => True
  | None, Some _ => False
  end.

Lemma same_ok p a a' : same a a' → proc_ok p a → proc_ok p a'.
Proof. unfold proc_ok, level, inner. by intros (-> & -> & _ & _). Qed.
Lemma same_inner a a' : same a a' → inner a' = inner a.
Proof. unfold inner. by intros (-> & _). Qed.
Lemma sim_refl a : sim a a.
Proof. done. Qed.
Lemma gentle_refl L s : gentle L s s.
Proof. intros p _. destruct (procs s !! p); done. Qed.

Lemma seen_inner a b : level a = d → level b = d → seen_by a b = Some (inner b).
Proof.
  intros Ha Hb. unfold seen_by, inner, level in *. rewrite Ha, <-Hb.
  destruct (p_chain b) as [|x l] eqn:E; [simpl in Hb; lia|]. rewrite last_lookup. simpl. rewrite Nat.sub_0_r.
  destruct (lookup_lt_is_Some_2 (x :: l) (length l)) as [y Hy]; [simpl; lia|]. by rewrite Hy.
Qed.

(** ** The phases of a request

    [W] serves the request, [X] is a new active agent, [T] a new template, [H]
    a helper; [m] is the memory [W] has while it serves. *)

Inductive phase :=
  | PNone (c : string)                                 (* nobody reads; [c] is in the FIFO *)
  | PIdle (A : Z)                                      (* [A] reads, no command *)
  | PSent (K : kind) (j : json) (W : Z) (c : string)   (* [c] of the command is written *)
  | PWake (K : kind) (j : json) (W : Z) (m : V)        (* it waits for a template that was woken *)
  | PWork (K : kind) (W : Z) (m : V)
  | PFailed (W : Z)
  | PFork (W X v : Z) (m : V)
  | PForked (W X v : Z) (m : V)
  | PStash (W T v : Z) (m : V)
  | PWait (W H : Z) (m : V)
  | PWait2 (W H T v : Z) (m : V)
  | PStashed (W T v : Z) (m : V)
  | PPaused (W : Z) (m : V).

(** Those of the processes it names that may be other than passive. *)
Definition busy (ph : phase) : list Z :=
  match ph with
  | PNone _ | PPaused _ _ => []
  | PIdle A => [A]
  | PSent _ _ W _ | PWake _ _ W _ | PWork _ W _ | PFailed W => [W]
  | PFork W X _ _ => [W; X]
  | PForked _ X _ _ => [X]
  | PStash W _ _ _ | PStashed W _ _ _ => [W]
  | PWait W H _ | PWait2 W H _ _ _ => [W; H]
  end.
(** The processes the request has made that outlive it. *)
Definition news (ph : phase) : list Z :=
  match ph with
  | PFork _ X _ _ | PForked _ X _ _ => [X]
  | PStash _ T _ _ | PStashed _ T _ _ => [T]
  | PWait _ H _ => [H]
  | PWait2 _ H T _ _ => [H; T]
  | _ => []
  end.
(** A tracked template that serves has the memory it is tracked with. *)
Definition held (Tk : gmap Z V) (ph : phase) : Prop :=
  match ph with
  | PSent _ _ W _ => Tk !! W = None
  | PWake _ _ W m | PWork _ W m | PFork W _ _ m | PPaused W m => ∀ m', Tk !! W = Some m' → m' = m
  | _ => True
  end.
(** What may stand in the output FIFO. *)
Definition said (ph : phase) (l : string) : Prop :=
  match ph with
  | PFailed _ => refusal l
  | PForked _ X v _ => ∃ w, (1 < w)%Z ∧ fork_reply w X v l
  | PStashed _ T v _ => stash_reply T v l
  | PPaused _ _ => pause_reply l
  | _ => False
  end.
Definition opened (ph : phase) s : Prop := match ph with PNone _ | PIdle _ => True | _ => out_open s = true end.

Definition at_proc s (p : Z) (f : proc V → Prop) : Prop := ∃ a, procs s !! p = Some a ∧ f a.
Definition idler (buf : string) a : Prop := p_state a = Running ∧ idle_ctl (p_ctl a) ∧ p_buf a = buf.
(** A stopped or stopping copy with the memory [m]. *)
Definition template (m : V) a : Prop := steady a ∧ p_mem a = m.
Definition new_template (v : Z) (m : V) a : Prop := template m a ∧ inner a = v ∧ p_birth a = m.
Definition new_agent (v : Z) (m : V) a : Prop := idler "" a ∧ inner a = v ∧ p_birth a = m.
Definition woken a : Prop := p_state a = Running ∧ p_buf a = "" ∧
  ∃ res, p_ctl a = InHandler res resumed_prog ∨ p_ctl a = InHandler res (handler ev).
Definition serving (f : prg → Prop) (m : V) a : Prop :=
  p_state a = Running ∧ p_buf a = "" ∧ p_mem a = m ∧ ∃ res q, p_ctl a = InHandler res q ∧ f q.

Definition facts (ph : phase) s : Prop :=
  match ph with
  | PNone c => fifo_in s = c
  | PIdle A => fifo_in s = "" ∧ at_proc s A (idler "")
  | PSent K j W c => command K j ∧ (∃ c', line_of j = c +:+ c') ∧
      at_proc s W (fun a => idler (p_buf a) a ∧ p_buf a +:+ fifo_in s = c)
  | PWake K j W m => command K j ∧ (String.length (line_of j) <= 4096)%nat ∧ fifo_in s = line_of j ∧
      at_proc s W (fun a => p_mem a = m ∧ (woken a ∨ steady a))
  | PWork K W m => fifo_in s = "" ∧ at_proc s W (fun a => serving (work (inner a) K) m a)
  | PFailed W => fifo_in s = "" ∧ at_proc s W (fun a => idler "" a ∨ steady a)
  | PFork W X v m => fifo_in s = "" ∧ W ≠ X ∧
      at_proc s W (fun a => serving (replies (inner a) X v (fork_reply (inner a) X v) settle) m a) ∧ at_proc s X (new_agent v m)
  | PForked W X v m => fifo_in s = "" ∧ W ≠ X ∧ at_proc s W (template m) ∧ at_proc s X (new_agent v m)
  | PStash W T v m => fifo_in s = "" ∧ W ≠ T ∧
      at_proc s W (fun a => serving (replies (inner a) T v (stash_reply T v) idle) m a) ∧ at_proc s T (new_template v m)
  | PWait W H m => fifo_in s = "" ∧ W ≠ H ∧ at_proc s W (idler "") ∧ at_proc s H (serving helper m)
  | PWait2 W H T v m => fifo_in s = "" ∧ W ≠ H ∧ W ≠ T ∧ H ≠ T ∧ at_proc s W (idler "") ∧
      at_proc s H (fun b => serving (replies (inner b) T v (stash_reply T v) exits) m b) ∧ at_proc s T (new_template v m)
  | PStashed W T v m => fifo_in s = "" ∧ W ≠ T ∧ at_proc s W (idler "") ∧ at_proc s T (new_template v m)
  | PPaused W m => fifo_in s = "" ∧ at_proc s W (template m)
  end.

(** [outb] is what the pool has read of the output FIFO. *)
Definition silent_or (good : string → Prop) (l : string) : Prop := l = "" ∨ good l.
Record Inv (Tk : gmap Z V) (ph : phase) (outb : string) s : Prop := {
  inv_base : base s;
  inv_rest : ∀ p a, procs s !! p = Some a → p ∉ busy ph → passive a;
  inv_tracked : ∀ T m, Tk !! T = Some m → T ∉ busy ph → at_proc s T (template m);
  inv_news : ∀ p, p ∈ news ph → Tk !! p = None;
  inv_held : held Tk ph;
  inv_out : silent_or (said ph) (outb +:+ fifo_out s);
  inv_open : opened ph s;
  inv_facts : facts ph s;
}.

Inductive edge : phase → phase → Prop :=
  | e_read K j W m : edge (PSent K j W (line_of j)) (PWork K W m)
  | e_wake K j W m : edge (PWake K j W m) (PWork K W m)
  | e_fail K W m : edge (PWork K W m) (PFailed W)
  | e_fork W X v m : edge (PWork KFork W m) (PFork W X v m)
  | e_forked W X v m : edge (PFork W X v m) (PForked W X v m)
  | e_stash W T v m : edge (PWork KStash W m) (PStash W T v m)
  | e_stashed W T v m : edge (PStash W T v m) (PStashed W T v m)
  | e_wait W H m : edge (PWork KStash W m) (PWait W H m)
  | e_wait2 W H T v m : edge (PWait W H m) (PWait2 W H T v m)
  | e_wait3 W H T v m : edge (PWait2 W H T v m) (PStashed W T v m)
  | e_pause W m : edge (PWork KPause W m) (PPaused W m).

(** ** Updates *)

Lemma at_put_eq s p a (f : proc V → Prop) : f a → at_proc (put p a s) p f.
Proof. intros H. exists a. split; [|done]. apply lookup_insert_eq. Qed.
Lemma at_put_ne s p q a (f : proc V → Prop) : q ≠ p → at_proc s q f → at_proc (put p a s) q f.
Proof. intros Hn (b & Hb & H). exists b. split; [|done]. simpl. by rewrite lookup_insert_ne. Qed.
Lemma at_mono s p (f g : proc V → Prop) : (∀ a, f a → g a) → at_proc s p f → at_proc s p g.
Proof. intros H (a & ? & ?). exists a. auto. Qed.
Lemma put_put s p a b : put p a (put p b s) = put p a s.
Proof. unfold put, set_procs. simpl. by rewrite insert_insert_eq. Qed.

Lemma base_sub s s' : base s →
  (∀ q b, procs s' !! q = Some b → ∃ b', procs s !! q = Some b' ∧ p_chain b' = p_chain b ∧ p_unshared b' = p_unshared b) → base s'.
Proof.
  intros [H1 H2] HH. split.
  - intros q b Hb. apply HH in Hb as (b' & Hb' & Hbc & Hbu). specialize (H1 q b' Hb').
    unfold proc_ok, level, inner in *. by rewrite <-Hbc, <-Hbu.
  - intros q r b c Hb Hc Heq. apply HH in Hb as (b' & Hb' & Hbc & _). apply HH in Hc as (c' & Hc' & Hcc & _).
    apply (H2 q r b' c'); [done..|]. unfold inner in *. by rewrite Hbc, Hcc.
Qed.
Lemma base_insert s s' p a a' : base s → procs s !! p = Some a → procs s' = <[p := a']> (procs s) →
  p_chain a' = p_chain a → p_unshared a' = p_unshared a → base s'.
Proof.
  intros Hb Ha Hps Hc Hu. apply (base_sub s); [done|]. intros q b. rewrite Hps, lookup_insert_Some. intros [[<- <-]|[? ?]]; eauto.
Qed.
Lemma base_put s p a a' : base s → procs s !! p = Some a → p_chain a' = p_chain a → p_unshared a' = p_unshared a → base (put p a' s).
Proof. intros. by eapply base_insert. Qed.
Lemma gentle_put (L : list Z) s p a a' : procs s !! p = Some a → p ∈ L ∨ sim a a' → gentle L s (put p a' s).
Proof.
  intros Ha HL q Hq. simpl. destruct (decide (q = p)) as [->|Hn].
  - rewrite Ha, lookup_insert_eq. by destruct HL.
  - rewrite lookup_insert_ne by done. by destruct (procs s !! q).
Qed.
Lemma gentle_template (L : list Z) s s' p (m : V) : gentle L s s' → p ∉ L → at_proc s p (template m) → at_proc s' p (template m).
Proof.
  intros Hg Hp (a & Ha & Hst & Hm). specialize (Hg p Hp). rewrite Ha in Hg.
  destruct (procs s' !! p) as [a'|] eqn:E; [|destruct Hst as (_ & [[? _]|[? _]]); congruence]. exists a'. split; [done|].
  destruct Hg as ((_ & _ & Hmem & _) & _ & H2). split; [auto|by rewrite Hmem].
Qed.
Lemma gentle_new_template (L : list Z) s s' p v (m : V) : gentle L s s' → p ∉ L →
  at_proc s p (new_template v m) → at_proc s' p (new_template v m).
Proof.
  intros Hg Hp (a & Ha & (Hst & Hm) & Hi & Hb). specialize (Hg p Hp). rewrite Ha in Hg.
  destruct (procs s' !! p) as [a'|] eqn:E; [|destruct Hst as (_ & [[? _]|[? _]]); congruence]. exists a'. split; [done|].
  destruct Hg as (Hs & _ & H2). unfold new_template, template. rewrite (same_inner _ _ Hs). destruct Hs as (_ & _ & Hmem & Hbirth).
  split_and!; [auto|by rewrite Hmem|done|by rewrite Hbirth].
Qed.
Lemma at_eq s s' p (f : proc V → Prop) : procs s' !! p = procs s !! p → at_proc s p f → at_proc s' p f.
Proof. unfold at_proc. by intros ->. Qed.

Lemma set_prog_put res q p a s : set_prog res q p (put p a s) = put p (set_ctl (InHandler res q) a) s.
Proof.
  unfold set_prog, put, set_procs. simpl. f_equal. apply map_eq. intros r. destruct (decide (r = p)) as [->|Hn].
  - by rewrite lookup_alter_eq, !lookup_insert_eq.
  - by rewrite lookup_alter_ne, !lookup_insert_ne by done.
Qed.
Lemma put_same p a s : procs s !! p = Some a → put p a s = s.
Proof. intros Ha. destruct s. unfold put, set_procs. simpl in *. by rewrite insert_id. Qed.
Lemma set_prog_eq res q p a s : procs s !! p = Some a → set_prog res q p s = put p (set_ctl (InHandler res q) a) s.
Proof. intros Ha. rewrite <-(put_same p a s Ha) at 1. apply set_prog_put. Qed.

(** ** The invariant in a step *)

Lemma inv_move Tk ph ph' outb s s' :
  Inv Tk ph outb s → base s' → gentle (busy ph ++ news ph') s s' →
  (∀ p a, p ∈ busy ph ++ news ph' → p ∉ busy ph' → procs s' !! p = Some a → passive a) →
  (∀ p m, p ∈ busy ph ++ news ph' → p ∉ busy ph' → Tk !! p = Some m → at_proc s' p (template m)) →
  (∀ p, p ∈ news ph' → Tk !! p = None) → held Tk ph' →
  silent_or (said ph') (outb +:+ fifo_out s') → opened ph' s' → facts ph' s' → Inv Tk ph' outb s'.
Proof.
  intros [_ Hr Ht _ _ _ _ _] Hb Hg H1 H2 Hn Hh Ho Hop Hf. split; try done.
  - intros p a Ha Hp. destruct (decide (p ∈ busy ph ++ news ph')) as [|Hout]; [by eapply H1|].
    pose proof (Hg p Hout) as Hs. rewrite Ha in Hs. destruct (procs s !! p) as [b|] eqn:E; [|done].
    apply Hs, (Hr p b E). set_solver.
  - intros T m HT Hp. destruct (decide (T ∈ busy ph ++ news ph')) as [|Hout]; [by eapply H2|].
    eapply gentle_template; [done|done|]. apply Ht; [done|]. set_solver.
Qed.

(** A step that leaves the busy processes alone, but for their parents. *)
Definition adopted s s' (p : Z) : Prop :=
  procs s' !! p = procs s !! p ∨ ∃ a x, procs s !! p = Some a ∧ procs s' !! p = Some (set_ppid x a).
Lemma at_adopted s s' p (f : proc V → Prop) : adopted s s' p → (∀ a x, f a → f (set_ppid x a)) → at_proc s p f → at_proc s' p f.
Proof. intros [He|(a & x & Ha & Ha')] Hf; [by apply at_eq|]. intros (b & Hb & H). simplify_eq. eexists. split; [done|auto]. Qed.
Lemma facts_gentle ph s s' : gentle (busy ph) s s' → (∀ p, p ∈ busy ph → adopted s s' p) →
  fifo_in s' = fifo_in s → facts ph s → facts ph s'.
Proof.
  intros Hg He Hi.
  assert (∀ p (f : proc V → Prop), p ∈ busy ph → (∀ a x, f a → f (set_ppid x a)) → at_proc s p f → at_proc s' p f) as Hat
    by (intros p f Hp; by apply at_adopted, He).
  assert (∀ p m, p ∉ busy ph → at_proc s p (template m) → at_proc s' p (template m)) as Htem
    by (intros p m; by apply gentle_template).
  assert (∀ p v m, p ∉ busy ph → at_proc s p (new_template v m) → at_proc s' p (new_template v m)) as Hnew
    by (intros p v m; by apply gentle_new_template).
  destruct ph; simpl in *; rewrite ?Hi; intros HF; destruct_and? HF; split_and?; try done;
    first [apply Htem; [set_solver|done] | apply Hnew; [set_solver|done] | apply Hat; [set_solver|done|done]].
Qed.
Lemma inv_gentle Tk ph outb s s' :
  Inv Tk ph outb s → base s' → gentle (busy ph) s s' → (∀ p, p ∈ busy ph → adopted s s' p) →
  fifo_in s' = fifo_in s → fifo_out s' = fifo_out s → out_open s' = out_open s → Inv Tk ph outb s'.
Proof.
  intros [_ Hr Ht Hn Hh Hout Hopen Hf] Hb Hg He Hi Ho Hop. split; try done.
  - intros p a Ha Hp. pose proof (Hg p Hp) as Hs. rewrite Ha in Hs. destruct (procs s !! p) as [b|] eqn:E; [|done].
    by apply Hs, (Hr p b E).
  - intros T m HT Hp. eapply gentle_template; eauto.
  - by rewrite Ho.
  - unfold opened in *. by destruct ph; rewrite ?Hop.
  - by eapply facts_gentle.
Qed.

(** ** Steps of programs *)

Lemma run_cont {R} o s p a res (c : agE R) (k : result R → prg) (r : result R) :
  procs s !! p = Some a → answer ev o s p a c = Cont r s →
  run_call ev o s p a res c k = put p (set_ctl (InHandler res (k r)) a) s.
Proof. intros Ha He. unfold run_call. rewrite He. by apply set_prog_eq. Qed.

Lemma astep_vis {R} o s p a res (c : agE R) (k : result R → prg) :
  procs s !! p = Some a → p_state a = Running → p_ctl a = InHandler res (Vis c k) → astep ev o p s = run_call ev o s p a res c k.
Proof. intros Ha Hs Hc. unfold astep. by rewrite Ha, Hs, Hc. Qed.

Lemma may_fail_cont {R} o (v : R) s : ∃ r, may_fail o v s = Cont r s ∧ os_answer r.
Proof. unfold may_fail. destruct (o_fail o); eexists; done. Qed.
Lemma set_prog_in res q p a rest s : set_prog res q p (set_in rest (put p a s)) = put p (set_ctl (InHandler res q) a) (set_in rest s).
Proof. apply (set_prog_put res q p a (set_in rest s)). Qed.
Lemma set_in_same s : set_in (fifo_in s) s = s.
Proof. by destruct s. Qed.

(** A call of [settle]. *)
Lemma settle_step o s p a : procs s !! p = Some a → steady a → inner a ≠ 1%Z →
  astep ev o p s = s ∨ ∃ a', astep ev o p s = put p a' s ∧ same a a' ∧ steady a'.
Proof.
  intros Ha [Hbuf [[Hs _]|(Hs & res & q & Hc & Hq)]] Hi; [left; unfold astep; by rewrite Ha, Hs|right].
  destruct q as [r|e|R c k]; [done|done|]. rewrite (astep_vis o s p a res c k) by done. unfold steady.
  destruct c; try done; simpl in Hq.
  1, 2: (destruct (may_fail_cont o tt s) as (r & Hr & Hok); rewrite (run_cont o s p a res _ k r) by done;
         eexists; split_and!; [done|done|done|]; right; split; [done|]; eexists _, _; split; [done|]; by apply Hq).
  unfold run_call. simpl. rewrite bool_decide_false by done. rewrite set_prog_put. rewrite Hq.
  eexists. split_and!; [done|done|done|]. left. eauto.
Qed.
Lemma steady_sim a a' : same a a' → steady a' → sim a a'.
Proof. intros. split_and!; [done|by left|done]. Qed.

(** ** Ends of processes *)

Lemma sim_adopt r q b : sim b (adopt r q b).
Proof. unfold adopt. case_bool_decide; [|done]. done. Qed.
Lemma end_proc_lookup q b s p : procs s !! q = Some b →
  procs (end_proc q s) !! p = adopt (ns_reaper s) q <$> (if decide (p = q) then Some (set_state Zombie b) else procs s !! p).
Proof.
  intros Hb. unfold end_proc. rewrite Hb. simpl. rewrite lookup_fmap. destruct (decide (p = q)) as [->|].
  - by rewrite lookup_insert_eq.
  - by rewrite lookup_insert_ne.
Qed.
Lemma end_proc_base q b s : procs s !! q = Some b → base s → base (end_proc q s).
Proof.
  intros Hb Hbase. apply (base_sub s); [done|]. intros p c. rewrite (end_proc_lookup q b) by done. intros Hc.
  apply fmap_Some in Hc as (c' & Hc & ->). exists (if decide (p = q) then b else c'). unfold adopt.
  destruct (decide (p = q)) as [->|]; [injection Hc as <-|]; case_bool_decide; eauto.
Qed.
Lemma end_proc_gentle (L : list Z) q b s : procs s !! q = Some b → q ∈ L ∨ (leaving b ∧ ¬ steady b) → gentle L s (end_proc q s).
Proof.
  intros Hb HL p Hp. rewrite (end_proc_lookup q b) by done. destruct (decide (p = q)) as [->|].
  - rewrite Hb. destruct HL as [?|[[Hbuf _] Hns]]; [done|]. simpl. unfold adopt.
    case_bool_decide; (split_and!; [done| |done]); intros _; right; (split; [done|by left]).
  - destruct (procs s !! p); [apply sim_adopt|done].
Qed.
Lemma end_proc_adopted q b s p : procs s !! q = Some b → p ≠ q → adopted s (end_proc q s) p.
Proof.
  intros Hb Hn. unfold adopted. rewrite (end_proc_lookup q b), decide_False by done. destruct (procs s !! p) as [a|]; [|by left].
  simpl. unfold adopt. case_bool_decide; [|by left]. right. eauto.
Qed.
Lemma end_proc_other q s : fifo_in (end_proc q s) = fifo_in s ∧ fifo_out (end_proc q s) = fifo_out s ∧ out_open (end_proc q s) = out_open s.
Proof. unfold end_proc. by destruct (procs s !! q). Qed.

Lemma exits_step o s p a : procs s !! p = Some a → leaving a → astep ev o p s = s ∨ (astep ev o p s = end_proc p s ∧ ¬ steady a).
Proof.
  intros Ha [_ [Hs|(Hs & res & q & Hc & Hq)]]; [left; unfold astep; by rewrite Ha, Hs|right].
  destruct q as [r|e|R c k]; [done|done|]. destruct c; try done. rewrite (astep_vis o s p a res _ k) by done. split; [done|].
  intros (_ & [[? _]|(_ & res' & q' & Hc' & Hq')]); [congruence|]. rewrite Hc in Hc'. by injection Hc' as _ <-.
Qed.

Lemma astep_passive Tk ph outb o p s a : Inv Tk ph outb s → procs s !! p = Some a → passive a → p ∉ busy ph →
  Inv Tk ph outb (astep ev o p s).
Proof.
  intros HI Ha Hp Hn. pose proof (inv_base _ _ _ _ HI) as Hb. destruct (proj1 Hb p a Ha) as (_ & _ & Hi & _).
  destruct Hp as [Hp|Hp].
  - destruct (settle_step o s p a) as [->|(a' & -> & Hsame & Hst)]; [done|done|lia|done|]. pose proof Hsame as (Hc & Hu & _).
    apply (inv_gentle _ _ _ s); try done; [by eapply base_put|by eapply gentle_put; [done|right; apply steady_sim]|].
    intros q Hq. left. simpl. rewrite lookup_insert_ne; [done|]. by intros ->.
  - destruct (exits_step o s p a) as [->|[-> Hns]]; [done..|]. destruct (end_proc_other p s) as (Hfi & Hfo & Hoo).
    apply (inv_gentle _ _ _ s); try done; [by eapply end_proc_base|eapply end_proc_gentle; eauto|].
    intros q Hq. eapply end_proc_adopted; [done|]. by intros ->.
Qed.

(** ** An agent in its main loop

    Its memory may change, and it may reap a child that ended. *)

(** All but [p] stays, up to processes that had ended. *)
Definition only s s' (p : Z) a : Prop := procs s' !! p = Some a ∧
  ∀ q, q ≠ p → procs s' !! q = procs s !! q ∨ ∃ b, procs s !! q = Some b ∧ p_state b = Zombie ∧ procs s' !! q = None.
Lemma only_insert s s' p a : procs s' = <[p := a]> (procs s) → only s s' p a.
Proof. intros Hp. split; [by rewrite Hp, lookup_insert_eq|]. intros q Hq. left. by rewrite Hp, lookup_insert_ne. Qed.
Lemma only_at_eq s s' p a (f : proc V → Prop) : only s s' p a → f a → at_proc s' p f.
Proof. intros [H _] Hf. by exists a. Qed.
Lemma only_at_ne s s' p a q (f : proc V → Prop) : only s s' p a → q ≠ p → (∀ b, f b → p_state b ≠ Zombie) → at_proc s q f → at_proc s' q f.
Proof. intros [_ H] Hq Hf (b & Hb & Hfb). destruct (H q Hq) as [He|(c & Hc & Hz & _)]; [exists b; by rewrite He|]. by destruct (Hf c); [congruence|]. Qed.
Lemma only_gentle (L : list Z) s s' p a : only s s' p a → p ∈ L → gentle L s s'.
Proof.
  intros [_ H] Hp q Hq. destruct (H q) as [->|(b & -> & Hz & ->)]; [by intros ->| |done]. by destruct (procs s !! q).
Qed.
Lemma only_base s s' p a a' : base s → procs s !! p = Some a → only s s' p a' → p_chain a' = p_chain a → p_unshared a' = p_unshared a → base s'.
Proof.
  intros Hb Ha [Hp Hq] Hc Hu. apply (base_sub s); [done|]. intros q b Hqb. destruct (decide (q = p)) as [->|Hn].
  - rewrite Hp in Hqb. injection Hqb as <-. eauto.
  - destruct (Hq q Hn) as [He|(? & _ & _ & He)]; [|congruence]. exists b. by rewrite <-He.
Qed.

(** A step of a busy process that changes, of the others, at most zombies. *)
Lemma inv_only Tk ph outb s s' p a a' :
  Inv Tk ph outb s → procs s !! p = Some a → p ∈ busy ph → only s s' p a' → p_chain a' = p_chain a → p_unshared a' = p_unshared a →
  fifo_out s' = fifo_out s → out_open s' = out_open s → facts ph s' → Inv Tk ph outb s'.
Proof.
  intros [Hb Hr Ht Hn Hh Hout Hop _] Ha Hp Ho Hc Hu Hfo Hoo Hf. pose proof (only_gentle (busy ph) s s' p a' Ho Hp) as Hg. split; try done.
  - by eapply only_base.
  - intros q b Hq Hnb. pose proof (Hg q Hnb) as Hs. rewrite Hq in Hs. destruct (procs s !! q) as [c|] eqn:E; [|done].
    by apply Hs, (Hr q c E).
  - intros T m HT Hq. eapply gentle_template; eauto.
  - by rewrite Hfo.
  - unfold opened in *. by destruct ph; rewrite ?Hoo.
Qed.
Lemma inv_put_in Tk ph outb s s' p a a' :
  Inv Tk ph outb s → procs s !! p = Some a → p ∈ busy ph → procs s' = <[p := a']> (procs s) →
  p_chain a' = p_chain a → p_unshared a' = p_unshared a → fifo_out s' = fifo_out s → out_open s' = out_open s →
  facts ph s' → Inv Tk ph outb s'.
Proof. intros HI Ha Hp Hps. eapply inv_only; try done. by apply only_insert. Qed.
Lemma inv_put Tk ph outb s p a a' :
  Inv Tk ph outb s → procs s !! p = Some a → p ∈ busy ph → p_chain a' = p_chain a → p_unshared a' = p_unshared a →
  facts ph (put p a' s) → Inv Tk ph outb (put p a' s).
Proof. intros. by eapply inv_put_in. Qed.

Lemma steady_alive a : steady a → p_state a ≠ Zombie.
Proof. intros (_ & [[? _]|[? _]]); congruence. Qed.

Lemma after_idle r : idle_ctl (after_turn ev r).
Proof. destruct r as [[]|]; done. Qed.
Lemma wait_for_spec p a pid s q v : wait_for p a pid s = Ok (Some (q, v)) → ∃ b, procs s !! q = Some b ∧ p_state b = Zombie.
Proof.
  unfold wait_for. intros H. case_match eqn:E; [done|]. rewrite <-E in H. injection H as H.
  destruct (List.find _ (List.filter _ _)) as [[q' b]|] eqn:Ef; [|done].
  injection H as <- <-. apply find_some in Ef as [Hin Hz]. apply filter_In in Hin as [Hin _]. apply filter_In in Hin as [Hin _].
  apply list_elem_of_In, elem_of_map_to_list in Hin. apply bool_decide_eq_true in Hz. eauto.
Qed.
Lemma idler_step o s p a : procs s !! p = Some a → idler "" a → fifo_in s = "" →
  ∃ a', only s (astep ev o p s) p a' ∧ idler "" a' ∧ p_chain a' = p_chain a ∧ p_unshared a' = p_unshared a ∧ p_birth a' = p_birth a ∧
    fifo_in (astep ev o p s) = "" ∧ fifo_out (astep ev o p s) = fifo_out s ∧ out_open (astep ev o p s) = out_open s.
Proof.
  intros Ha (Hs & Hc & Hb) Hf.
  assert (∀ a', idler "" a' → p_chain a' = p_chain a → p_unshared a' = p_unshared a → p_birth a' = p_birth a → 
    ∃ a2, only s (put p a' s) p a2 ∧ idler "" a2 ∧ p_chain a2 = p_chain a ∧ p_unshared a2 = p_unshared a ∧ p_birth a2 = p_birth a ∧
    fifo_in (put p a' s) = "" ∧ fifo_out (put p a' s) = fifo_out s ∧ out_open (put p a' s) = out_open s) as Hput.
  { intros a' ????. exists a'. split_and!; try done. by apply only_insert. }
  unfold astep. rewrite Ha, Hs. destruct (p_ctl a) as [|res q] eqn:Ec.
  { destruct (o_bool o); apply Hput; try done. unfold idler. simpl. by rewrite Ec. }
  destruct q as [r|e|R c k]; [apply Hput; try done; pose proof (after_idle r); done|by apply Hput|].
  simpl in Hc. destruct c; try done.
  - destruct Hc as [_ Hc]. unfold run_call. simpl. unfold read_ctrl. rewrite Hb, Hf. simpl.
    assert (set_in "" s = s) as Hin by (rewrite <-Hf; apply set_in_same). rewrite set_prog_in, Hin.
    destruct (Hput (set_ctl (InHandler res (k (Ok None))) (set_buf "" a))) as (a2 & ? & ? & ? & ? & ? & _); [done..|]. by exists a2.
  - destruct (may_fail_cont o tt s) as (r & Hr & Hok). rewrite (run_cont o s p a res _ k r) by done. apply Hput; try done.
    unfold idler. simpl. auto.
  - unfold run_call. simpl. destruct (wait_for p a pid s) as [[[q v]|]|e] eqn:Ew.
    + apply wait_for_spec in Ew as (b & Hb' & Hz). assert (q ≠ p) as Hqp by congruence.
      assert (procs (reaped q s) !! p = Some a) as Ha' by (simpl; by rewrite lookup_delete_ne).
      rewrite (set_prog_eq res _ p a) by done. exists (set_ctl (InHandler res (k (Ok tt))) a).
      split; [|split; [unfold idler; simpl; auto|done]]. split; [apply lookup_insert_eq|]. intros x Hx. simpl. rewrite lookup_insert_ne by done. destruct (decide (x = q)) as [->|].
      * right. exists b. by rewrite lookup_delete_eq.
      * left. by rewrite lookup_delete_ne.
    + exists a. split; [split; [done|auto]|]. split; [unfold idler; rewrite Ec; simpl; auto|done].
    + rewrite (set_prog_eq res _ p a) by done. apply Hput; try done. unfold idler. simpl. auto.
Qed.

(** ** The phases with an idle agent *)

Definition next (Tk : gmap Z V) (ph : phase) (outb : string) s : Prop := ∃ ph', (ph' = ph ∨ edge ph ph') ∧ Inv Tk ph' outb s.
Lemma next_same Tk ph outb s : Inv Tk ph outb s → next Tk ph outb s.
Proof. intros H. exists ph. auto. Qed.
Lemma next_edge Tk ph ph' outb s : edge ph ph' → Inv Tk ph' outb s → next Tk ph outb s.
Proof. intros He H. exists ph'. auto. Qed.

Lemma idle_next Tk ph outb o p s a : Inv Tk ph outb s → p ∈ busy ph → procs s !! p = Some a → idler "" a → fifo_in s = "" →
  (∀ s' a', only s s' p a' → idler "" a' → p_chain a' = p_chain a → p_birth a' = p_birth a → fifo_in s' = "" → facts ph s') →
  next Tk ph outb (astep ev o p s).
Proof.
  intros HI Hp Ha Hi Hf H. destruct (idler_step o s p a) as (a' & Ho & Hi' & Hc & Hu & Hb & Hfi & Hfo & Hoo); [done..|].
  apply next_same. eapply inv_only; eauto.
Qed.

Lemma step_idle Tk A outb o s : Inv Tk (PIdle A) outb s → next Tk (PIdle A) outb (astep ev o A s).
Proof.
  intros HI. destruct (inv_facts _ _ _ _ HI) as (Hf & a & Ha & Hi). eapply idle_next; [done|set_solver|done..|].
  intros s' a' Ho Hi' _ _ Hfi. split; [done|]. by eapply only_at_eq.
Qed.
Lemma step_failed Tk W outb o s : Inv Tk (PFailed W) outb s → next Tk (PFailed W) outb (astep ev o W s).
Proof.
  intros HI. destruct (inv_facts _ _ _ _ HI) as (Hf & a & Ha & [Hi|Hp]).
  - eapply idle_next; [done|set_solver|done..|]. intros s' a' Ho Hi' _ _ Hfi. split; [done|]. eapply only_at_eq; [done|by left].
  - apply next_same. destruct (proj1 (inv_base _ _ _ _ HI) _ _ Ha) as (_ & _ & Hin & _).
    destruct (settle_step o s W a) as [->|(a' & -> & (Hc & Hu & _) & Hst)]; [done|done|lia|done|].
    eapply inv_put; [done|done|set_solver|done..|]. split; [done|]. apply at_put_eq. by right.
Qed.
(** Those beside an idle agent are not zombies. *)
Lemma template_alive m a : template m a → p_state a ≠ Zombie.
Proof. intros [? _]. by apply steady_alive. Qed.
Lemma new_template_alive v m a : new_template v m a → p_state a ≠ Zombie.
Proof. intros [? _]. by eapply template_alive. Qed.
Lemma idler_alive buf a : idler buf a → p_state a ≠ Zombie.
Proof. intros [? _]. congruence. Qed.
Lemma new_agent_alive v m a : new_agent v m a → p_state a ≠ Zombie.
Proof. intros [? _]. by eapply idler_alive. Qed.
Lemma serving_alive f m a : serving f m a → p_state a ≠ Zombie.
Proof. intros [? _]. congruence. Qed.
#[local] Hint Resolve template_alive new_template_alive idler_alive new_agent_alive serving_alive not_eq_sym : core.

Lemma step_forked Tk W X v m outb o s : Inv Tk (PForked W X v m) outb s → next Tk (PForked W X v m) outb (astep ev o X s).
Proof.
  intros HI. destruct (inv_facts _ _ _ _ HI) as (Hf & Hn & HW & a & Ha & Hi & Hv & Hb). eapply idle_next; [done|set_solver|done..|].
  intros s' a' Ho Hi' Hc Hb' Hfi. split_and!; [done..|eapply only_at_ne; eauto|]. eapply only_at_eq; [done|].
  unfold new_agent, inner. by rewrite Hc, Hb'.
Qed.
Lemma step_stashed Tk W T v m outb o s : Inv Tk (PStashed W T v m) outb s → next Tk (PStashed W T v m) outb (astep ev o W s).
Proof.
  intros HI. destruct (inv_facts _ _ _ _ HI) as (Hf & Hn & (a & Ha & Hi) & HT). eapply idle_next; [done|set_solver|done..|].
  intros s' a' Ho Hi' Hc Hb' Hfi. split_and!; [done..|by eapply only_at_eq|eapply only_at_ne; eauto].
Qed.
Lemma step_fork_child Tk W X v m outb o s : Inv Tk (PFork W X v m) outb s → next Tk (PFork W X v m) outb (astep ev o X s).
Proof.
  intros HI. destruct (inv_facts _ _ _ _ HI) as (Hf & Hn & HW & a & Ha & Hi & Hv & Hb). eapply idle_next; [done|set_solver|done..|].
  intros s' a' Ho Hi' Hc Hb' Hfi. split_and!; [done..|eapply only_at_ne; eauto|].
  eapply only_at_eq; [done|]. unfold new_agent, inner. by rewrite Hc, Hb'.
Qed.
Lemma step_wait Tk W H m outb o s : Inv Tk (PWait W H m) outb s → next Tk (PWait W H m) outb (astep ev o W s).
Proof.
  intros HI. destruct (inv_facts _ _ _ _ HI) as (Hf & Hn & (a & Ha & Hi) & HH). eapply idle_next; [done|set_solver|done..|].
  intros s' a' Ho Hi' Hc Hb' Hfi. split_and!; [done..|by eapply only_at_eq|eapply only_at_ne; eauto].
Qed.
Lemma step_wait2 Tk W H T v m outb o s : Inv Tk (PWait2 W H T v m) outb s → next Tk (PWait2 W H T v m) outb (astep ev o W s).
Proof.
  intros HI. destruct (inv_facts _ _ _ _ HI) as (Hf & H1 & H2 & H3 & (a & Ha & Hi) & HH & HT). eapply idle_next; [done|set_solver|done..|].
  intros s' a' Ho Hi' Hc Hb' Hfi. split_and!; [done..|by eapply only_at_eq|eapply only_at_ne; eauto|eapply only_at_ne; eauto].
Qed.

(** ** Reading a command *)

Lemma command_object K j : command K j → ∃ f, j = JObj f.
Proof. destruct 1; by eexists. Qed.
Lemma take_command K j buf u : command K j → line_of j = buf +:+ u →
  take_line buf = (None, buf) ∧ u ≠ "" ∨ take_line buf = (Some (dumps j), "") ∧ u = "".
Proof.
  intros Hc Hl. unfold take_line. destruct (split_line_prefix (dumps j) buf u) as [[-> Hu]|[-> Hu]];
    [apply one_line_dumps|by symmetry|by left|right]. split; [|done].
  destruct (command_object K j Hc) as [f ->]. rewrite strip_object. done.
Qed.
(** A read of a prefix [c] of the command: nothing yet, or all of it. *)
Lemma read_command K j c c' buf fifo : command K j → line_of j = c +:+ c' → buf +:+ fifo = c →
  (∃ buf' fifo', _read_ctrl_line buf fifo = (None, buf', fifo') ∧ buf' +:+ fifo' = c) ∨
  (_read_ctrl_line buf fifo = (Some (dumps j), "", "") ∧ c = line_of j).
Proof.
  intros Hc Hl <-. unfold _read_ctrl_line.
  assert (∀ n, line_of j = (buf +:+ stake n fifo) +:+ sdrop n fifo +:+ c') as Hn.
  { intros n. rewrite string_app_assoc in Hl. by rewrite string_app_assoc, <-(string_app_assoc (stake n fifo)), stake_sdrop. }
  destruct (split_line buf) as [[l r]|] eqn:E; [|case_bool_decide as Hf].
  - destruct (take_command K j buf (fifo +:+ c')) as [[H _]|[H Hu]]; [done|by rewrite <-string_app_assoc| |]; rewrite H; [left; eauto|].
    apply string_app_nil in Hu as [-> ->]. right. by rewrite Hl, !string_app_nil_r.
  - left. eauto.
  - destruct (take_command K j (buf +:+ stake 4096 fifo) (sdrop 4096 fifo +:+ c')) as [[H _]|[H Hu]]; [done|apply Hn| |]; rewrite H.
    + left. eexists _, _. split; [done|]. by rewrite string_app_assoc, stake_sdrop.
    + apply string_app_nil in Hu as [Hs ->]. rewrite Hs. right. by rewrite Hl, !string_app_nil_r.
Qed.

(** ** A process that serves *)

(** The phase changes at the process that serves, nothing else; it may end the
    request as a template. *)
Lemma inv_turn Tk ph ph' outb s s' p a a' :
  Inv Tk ph outb s → procs s !! p = Some a → p ∈ busy ph → procs s' = <[p := a']> (procs s) →
  p_chain a' = p_chain a → p_unshared a' = p_unshared a → (∀ q, q ∈ news ph' → q ∈ news ph) →
  (∀ q, q ∈ busy ph → q = p ∨ q ∈ busy ph') → (p ∉ busy ph' → passive a' ∧ ∀ m, Tk !! p = Some m → template m a') →
  held Tk ph' → opened ph' s' → silent_or (said ph') (outb +:+ fifo_out s') → facts ph' s' → Inv Tk ph' outb s'.
Proof.
  intros HI Ha Hp Hps Hc Hu Hnews Hbusy Hend Hh Hop Hout Hf. pose proof (inv_base _ _ _ _ HI) as Hb.
  apply (inv_move Tk ph ph' outb s); try done.
  - by eapply base_insert.
  - intros q Hq. rewrite Hps, lookup_insert_ne by (intros ->; set_solver). by destruct (procs s !! q).
  - intros q b Hin Hn Hq. destruct (decide (q = p)) as [->|Hne].
    + rewrite Hps, lookup_insert_eq in Hq. injection Hq as <-. by apply Hend.
    + rewrite Hps, lookup_insert_ne in Hq by done. apply (inv_rest _ _ _ _ HI q); [done|]. intros Hbq. by destruct (Hbusy q Hbq).
  - intros q m Hin Hn Hq. destruct (decide (q = p)) as [->|Hne].
    + exists a'. rewrite Hps, lookup_insert_eq. split; [done|]. by apply Hend.
    + apply elem_of_app in Hin as [Hbq|Hin]; [by destruct (Hbusy q Hbq)|]. by rewrite (inv_news _ _ _ _ HI q (Hnews q Hin)) in Hq.
  - intros q Hq. by apply (inv_news _ _ _ _ HI), Hnews.
Qed.
Lemma inv_serve Tk ph ph' outb s s' p a a' :
  Inv Tk ph outb s → procs s !! p = Some a → p ∈ busy ph → procs s' = <[p := a']> (procs s) →
  p_chain a' = p_chain a → p_unshared a' = p_unshared a →
  busy ph' = busy ph → news ph' = news ph → held Tk ph' → opened ph' s' →
  silent_or (said ph') (outb +:+ fifo_out s') → facts ph' s' → Inv Tk ph' outb s'.
Proof.
  intros HI Ha Hp Hps Hc Hu Hbusy Hnews ????. eapply (inv_turn Tk ph); try done; rewrite ?Hbusy, ?Hnews; auto. by intros [].
Qed.

Lemma step_sent Tk K j W c outb o s : Inv Tk (PSent K j W c) outb s → next Tk (PSent K j W c) outb (astep ev o W s).
Proof.
  intros HI. destruct (inv_facts _ _ _ _ HI) as (Hc & (c' & Hl) & a & Ha & (Hs & Hi & _) & Hb).
  pose proof (inv_open _ _ _ _ HI) as Hop.
  assert (∀ a' s', idle_ctl (p_ctl a') → p_state a' = Running → p_chain a' = p_chain a → p_unshared a' = p_unshared a →
    procs s' = <[W := a']> (procs s) → fifo_out s' = fifo_out s → out_open s' = out_open s → p_buf a' +:+ fifo_in s' = c →
    next Tk (PSent K j W c) outb s') as Hsame.
  { intros a' s' ? ? ? ? Hps ? ? ?. apply next_same. eapply (inv_put_in _ _ _ s _ W a a'); try done; [set_solver|].
    split_and!; [done|by exists c'|]. exists a'. rewrite Hps, lookup_insert_eq. done. }
  unfold astep. rewrite Ha, Hs. destruct (p_ctl a) as [|res q] eqn:Ec.
  { destruct (o_bool o); [by apply (Hsame (set_ctl (InHandler false (handler ev)) a))|].
    apply (Hsame (set_mem (o_mem o) a)); try done. simpl. by rewrite Ec. }
  destruct q as [r|e|R cl k]; [apply (Hsame (set_ctl (after_turn ev r) a)); try done; apply after_idle|by apply (Hsame (set_ctl InLoop a))|].
  simpl in Hi. destruct cl; try done.
  - destruct Hi as [Hk Hi]. unfold run_call. simpl. unfold read_ctrl.
    destruct (read_command K j c c' _ _ Hc Hl Hb) as [(buf' & fifo' & -> & Hb')|[-> Hfull]]; rewrite set_prog_in.
    + by apply (Hsame (set_ctl (InHandler res (k (Ok None))) (set_buf buf' a))).
    + eapply next_edge; [rewrite Hfull; apply (e_read _ _ _ (p_mem a))|].
      eapply (inv_serve _ _ _ _ s _ W a); try done; [set_solver| |..].
      * simpl. intros m' Hm. pose proof (inv_held _ _ _ _ HI) as Hh. simpl in Hh. congruence.
      * simpl. destruct (inv_out _ _ _ _ HI) as [Ho|[]]. by left.
      * split; [done|]. apply at_put_eq. unfold serving. simpl. split_and!; [done..|]. eexists _, _. split; [done|].
        rewrite Hk. by apply command_works.
  - destruct (may_fail_cont o tt s) as (r & Hr & Hok). rewrite (run_cont o s W a res _ k r) by done. apply (Hsame (set_ctl (InHandler res (k r)) a)); try done. apply Hi.
  - unfold run_call. simpl. destruct (wait_for W a pid s) as [[[q v]|]|e] eqn:Ew.
    + apply wait_for_spec in Ew as (b & Hb' & Hz). assert (q ≠ W) as Hqp by congruence.
      assert (procs (reaped q s) !! W = Some a) as Ha' by (simpl; by rewrite lookup_delete_ne).
      rewrite (set_prog_eq res _ W a) by done. apply next_same.
      eapply (inv_only _ _ _ s _ W a (set_ctl (InHandler res (k (Ok tt))) a)); try done; [set_solver| |].
      * split; [apply lookup_insert_eq|]. intros x Hx. simpl. rewrite lookup_insert_ne by done. destruct (decide (x = q)) as [->|].
        -- right. exists b. by rewrite lookup_delete_eq.
        -- left. by rewrite lookup_delete_ne.
      * split_and!; [done|by exists c'|]. eexists. split; [apply lookup_insert_eq|]. split; [|done]. split_and!; [done| |done]. apply Hi.
    + by apply next_same.
    + rewrite (set_prog_eq res _ W a) by done. apply (Hsame (set_ctl (InHandler res (k (Err e))) a)); try done. apply Hi.
Qed.

(** A template that was woken, or will not be before it stops. *)
Lemma step_wake Tk K j W m outb o s : Inv Tk (PWake K j W m) outb s → next Tk (PWake K j W m) outb (astep ev o W s).
Proof.
  intros HI. destruct (inv_facts _ _ _ _ HI) as (Hc & Hlen & Hf & a & Ha & Hm & Hw).
  assert (∀ a', p_mem a' = m → p_chain a' = p_chain a → p_unshared a' = p_unshared a → woken a' ∨ steady a' →
    next Tk (PWake K j W m) outb (put W a' s)) as Hsame.
  { intros a' ? ? ? ?. apply next_same. eapply (inv_put _ _ _ s); try done; [set_solver|]. split_and!; [done..|]. by apply at_put_eq. }
  destruct Hw as [(Hs & Hb & res & Hq)|Hp].
  - unfold astep. rewrite Ha, Hs. destruct Hq as [Hq|Hq]; rewrite Hq.
    + apply (Hsame (set_ctl (after_turn ev (Some ParentResumed)) a)); try done. left. split_and!; [done..|]. exists true. by right.
    + unfold run_call. simpl. unfold read_ctrl.
      assert (_read_ctrl_line (p_buf a) (fifo_in s) = (Some (dumps j), "", "")) as ->.
      { destruct (stake_all 4096 _ Hlen) as [H1 H2]. rewrite Hb, Hf. unfold _read_ctrl_line. change (split_line "") with (@None (string * string)).
        destruct (take_command K j (line_of j) "") as [[_ []]|[Ht _]]; [done|by rewrite string_app_nil_r|done|].
        rewrite bool_decide_false. 2: { unfold line_of. by destruct (dumps j). }
        change ("" +:+ ?x) with x. by rewrite H1, H2, Ht. }
      rewrite set_prog_in. eapply next_edge; [apply e_wake|]. eapply (inv_serve _ _ _ _ s _ W a); try done; [set_solver|..].
      * apply (inv_held _ _ _ _ HI).
      * apply (inv_open _ _ _ _ HI).
      * destruct (inv_out _ _ _ _ HI) as [Ho|[]]. by left.
      * split; [done|]. apply at_put_eq. unfold serving. simpl. split_and!; [done..|]. eexists _, _. split; [done|]. by apply command_works.
  - destruct (proj1 (inv_base _ _ _ _ HI) _ _ Ha) as (_ & _ & Hin & _).
    destruct (settle_step o s W a) as [->|(a' & -> & (Hch & Hu & Hmem & _) & Hst)]; [done|done|lia|by apply next_same|].
    apply Hsame; [by rewrite Hmem|done..|]. by right.
Qed.

(** ** A parent that replies *)

Lemma find_seen_spec a pid (m : gmap Z (proc V)) q b : find_seen a pid m = Some (q, b) → m !! q = Some b ∧ seen_by a b = Some pid.
Proof.
  unfold find_seen. intros H. apply find_some in H as [Hin Hs]. split; [|by apply bool_decide_eq_true in Hs].
  by apply elem_of_map_to_list, list_elem_of_In.
Qed.
(** With the same pid in the namespace, it is the same process. *)
Lemma find_seen_unique s p a pid q b c hp : base s → procs s !! p = Some a → procs s !! hp = Some c → inner c = pid →
  find_seen a pid (procs s) = Some (q, b) → q = hp.
Proof.
  intros [H1 H2] Ha Hc Hi H. apply find_seen_spec in H as [Hq Hs]. rewrite seen_inner in Hs; [|by eapply H1..].
  injection Hs as Hs. apply (H2 q hp b c); [done..|congruence].
Qed.
Lemma read_status_truthful o s p a c hp v : base s → procs s !! p = Some a → procs s !! hp = Some c → inner c = v →
  ∃ r, answer ev o s p a (ReadStatus (Some v)) = Cont r s ∧ truthful hp r.
Proof.
  intros Hb Ha Hc Hv. simpl. destruct (find_seen a v (procs s)) as [[q b]|] eqn:E; [|eexists; done].
  eexists. split; [done|]. pose proof (find_seen_unique s p a v q b c hp Hb Ha Hc Hv E) as ->.
  destruct (proj1 Hb p a Ha) as (Hl & _). apply find_seen_spec in E as [Hq _].
  destruct (proj1 Hb hp b Hq) as (Hlb & _ & _ & Hh). unfold truthful, status_of. simpl. destruct (o_bool o).
  - simpl. destruct (p_chain b) as [|x [|y l]]; try done. simpl in Hh. by injection Hh as ->.
  - rewrite Hl. unfold level in Hlb. rewrite <-Hlb. pose proof (length_drop (p_chain b) (length (p_chain b) - 1)) as Hlen.
    destruct (drop _ (p_chain b)) as [|x [|y l]]; try done. simpl in Hlen. lia.
Qed.

Lemma replies_step o s p a m hp v good nxt : base s → procs s !! p = Some a → out_open s = true →
  serving (replies (inner a) hp v good nxt) m a → at_proc s hp (fun c => inner c = v) →
  ∃ a', procs (astep ev o p s) = <[p := a']> (procs s) ∧ same a a' ∧ p_ppid a' = p_ppid a ∧
    fifo_in (astep ev o p s) = fifo_in s ∧ out_open (astep ev o p s) = true ∧
    ((serving (replies (inner a) hp v good nxt) m a' ∧ fifo_out (astep ev o p s) = fifo_out s) ∨
     (serving nxt m a' ∧ ∃ l, good l ∧ (fifo_out (astep ev o p s) = fifo_out s ∨ fifo_out (astep ev o p s) = fifo_out s +:+ l))).
Proof.
  intros Hb Ha Hop (Hs & Hbuf & Hm & res & q & Hq & Hr) (c & Hc & Hv). destruct q as [r|e|R cl k]; [done..|].
  rewrite (astep_vis o s p a res cl k) by done.
  assert (∀ r : result R, answer ev o s p a cl = Cont r s → replies (inner a) hp v good nxt (k r) →
    ∃ a', procs (run_call ev o s p a res cl k) = <[p := a']> (procs s) ∧ same a a' ∧ p_ppid a' = p_ppid a ∧
      fifo_in (run_call ev o s p a res cl k) = fifo_in s ∧ out_open (run_call ev o s p a res cl k) = true ∧
      ((serving (replies (inner a) hp v good nxt) m a' ∧ fifo_out (run_call ev o s p a res cl k) = fifo_out s) ∨
       (serving nxt m a' ∧ ∃ l, good l ∧ (fifo_out (run_call ev o s p a res cl k) = fifo_out s ∨
                                        fifo_out (run_call ev o s p a res cl k) = fifo_out s +:+ l)))) as Hstay.
  { intros r Hans Hk. rewrite (run_cont o s p a res _ k r) by done. eexists. split; [done|]. split_and!; [done..|].
    left. split; [|done]. split_and!; [done..|]. eauto. }
  destruct cl as [|l| | | | | | | | | | | | | | | | |pid| | | | | | | | |]; try done; simpl in Hr; [| | |destruct pid as [x|]; [|done]].
  - destruct Hr as [Hg Hn]. assert (∃ s', answer ev o s p a (Respond l) = Cont (Ok tt) s' ∧ procs s' = procs s ∧ fifo_in s' = fifo_in s ∧
      out_open s' = true ∧ (fifo_out s' = fifo_out s ∨ fifo_out s' = fifo_out s +:+ l)) as (s' & Hans & Hps & Hfi & Hoo & Hfo).
    { simpl. rewrite Hop. eexists. split; [done|]. destruct (o_bool o); split_and!; auto. }
    unfold run_call. rewrite Hans. rewrite (set_prog_eq res _ p a s') by (by rewrite Hps).
    eexists. simpl. rewrite Hps. split; [done|]. split_and!; try done. right. split; [|eauto]. split_and!; [done..|]. eauto.
  - by apply (Hstay (Ok (inner a))).
  - eapply Hstay; [done|]. apply Hr.
  - destruct Hr as [-> Hr]. destruct (read_status_truthful o s p a c hp v) as (r & Hans & Ht); [done..|]. eapply Hstay; [done|]. by apply Hr.
Qed.

Lemma not_said Tk ph outb s : Inv Tk ph outb s → (∀ l, ¬ said ph l) → outb +:+ fifo_out s = "".
Proof. intros HI Hn. destruct (inv_out _ _ _ _ HI) as [?|H]; [done|]. by apply Hn in H. Qed.
Lemma said_now outb x y l (good : string → Prop) : outb +:+ x = "" → good l → y = x ∨ y = x +:+ l → silent_or good (outb +:+ y).
Proof. intros [-> ->]%string_app_nil Hg [->| ->]; [by left|by right]. Qed.
Lemma serving_settle m a : serving settle m a → steady a.
Proof. intros (Hs & Hb & Hm & res & q & Hc & Hq). split; [done|]. right. eauto. Qed.
Lemma serving_exits m a : serving exits m a → leaving a.
Proof. intros (Hs & Hb & Hm & res & q & Hc & Hq). split; [done|]. right. eauto. Qed.
Lemma serving_idle m a : serving idle m a → idler "" a.
Proof. intros (Hs & Hb & Hm & res & q & Hc & Hq). unfold idler. by rewrite Hc. Qed.
Lemma serving_mem f m a : serving f m a → p_mem a = m.
Proof. by intros (_ & _ & ? & _). Qed.
Lemma at_insert_eq s p a (m : gmap Z (proc V)) (f : proc V → Prop) : procs s = <[p := a]> m → f a → at_proc s p f.
Proof. intros Hp H. exists a. by rewrite Hp, lookup_insert_eq. Qed.
Lemma at_insert_ne s s' p q a (f : proc V → Prop) : procs s' = <[p := a]> (procs s) → q ≠ p → at_proc s q f → at_proc s' q f.
Proof. intros Hp Hn. apply at_eq. by rewrite Hp, lookup_insert_ne. Qed.

Lemma step_fork_parent Tk W X v m outb o s : Inv Tk (PFork W X v m) outb s → next Tk (PFork W X v m) outb (astep ev o W s).
Proof.
  intros HI. destruct (inv_facts _ _ _ _ HI) as (Hf & Hne & (a & Ha & Hw) & HX).
  assert (at_proc s X (fun c => inner c = v)) as HX' by (eapply at_mono; [|done]; by intros c (_ & ? & _)).
  pose proof (not_said _ _ _ _ HI (fun _ H => H)) as Hout. pose proof (inv_held _ _ _ _ HI) as Hh. simpl in Hh.
  destruct (replies_step o s W a m X v _ _ (inv_base _ _ _ _ HI) Ha (inv_open _ _ _ _ HI) Hw HX')
    as (a' & Hps & Hsame & _ & Hfi & Hop & Hcase). pose proof Hsame as (Hc & Hu & _).
  destruct Hcase as [[Hs Hfo]|[Hs (l & Hl & Hfo)]].
  - apply next_same. eapply (inv_put_in _ _ _ s _ W a a'); try done; [set_solver|by rewrite Hop, (inv_open _ _ _ _ HI)|].
    split_and!; [by rewrite Hfi|done|by eapply at_insert_eq; [done|]; rewrite (same_inner a a')|by eapply at_insert_ne; [|apply not_eq_sym|]].
  - apply serving_settle in Hs as Hp. apply serving_mem in Hs. eapply next_edge; [apply e_forked|].
    eapply (inv_turn _ _ _ _ s _ W a a'); try done; [set_solver|set_solver| | |].
    + intros _. split; [by left|]. intros m' Hm'. by rewrite (Hh m' Hm').
    + eapply said_now; [done| |done]. exists (inner a). split; [|done]. by apply (proj1 (inv_base _ _ _ _ HI) W a).
    + split_and!; [by rewrite Hfi|done| |by eapply at_insert_ne; [|apply not_eq_sym|]].
      by eapply at_insert_eq.
Qed.
Lemma step_stash_parent Tk W T v m outb o s : Inv Tk (PStash W T v m) outb s → next Tk (PStash W T v m) outb (astep ev o W s).
Proof.
  intros HI. destruct (inv_facts _ _ _ _ HI) as (Hf & Hne & (a & Ha & Hw) & HT).
  assert (at_proc s T (fun c => inner c = v)) as HT' by (eapply at_mono; [|done]; by intros c (_ & ? & _)).
  pose proof (not_said _ _ _ _ HI (fun _ H => H)) as Hout.
  destruct (replies_step o s W a m T v _ _ (inv_base _ _ _ _ HI) Ha (inv_open _ _ _ _ HI) Hw HT')
    as (a' & Hps & Hsame & _ & Hfi & Hop & Hcase). pose proof Hsame as (Hc & Hu & _).
  destruct Hcase as [[Hs Hfo]|[Hs (l & Hl & Hfo)]].
  - apply next_same. eapply (inv_put_in _ _ _ s _ W a a'); try done; [set_solver|by rewrite Hop, (inv_open _ _ _ _ HI)|].
    split_and!; [by rewrite Hfi|done|by eapply at_insert_eq; [done|]; rewrite (same_inner a a')|by eapply at_insert_ne; [|apply not_eq_sym|]].
  - eapply next_edge; [apply e_stashed|]. eapply (inv_serve _ _ _ _ s _ W a a'); try done; [set_solver|by eapply said_now|].
    split_and!; [by rewrite Hfi|done|by eapply at_insert_eq; [done|]; eapply serving_idle|by eapply at_insert_ne; [|apply not_eq_sym|]].
Qed.
Lemma step_helper_reply Tk W H T v m outb o s : Inv Tk (PWait2 W H T v m) outb s → next Tk (PWait2 W H T v m) outb (astep ev o H s).
Proof.
  intros HI. destruct (inv_facts _ _ _ _ HI) as (Hf & H1 & H2 & H3 & HW & (a & Ha & Hw) & HT).
  assert (at_proc s T (fun c => inner c = v)) as HT' by (eapply at_mono; [|done]; by intros c (_ & ? & _)).
  pose proof (not_said _ _ _ _ HI (fun _ H => H)) as Hout.
  destruct (replies_step o s H a m T v _ _ (inv_base _ _ _ _ HI) Ha (inv_open _ _ _ _ HI) Hw HT')
    as (a' & Hps & Hsame & Hppid & Hfi & Hop & Hcase). pose proof Hsame as (Hc & Hu & _).
  assert (at_proc (astep ev o H s) W (idler "")) as HW' by by eapply at_insert_ne.
  assert (at_proc (astep ev o H s) T (new_template v m)) as HT2 by (by eapply at_insert_ne; [|apply not_eq_sym|]).
  destruct Hcase as [[Hs Hfo]|[Hs (l & Hl & Hfo)]].
  - apply next_same. eapply (inv_put_in _ _ _ s _ H a a'); try done; [set_solver|by rewrite Hop, (inv_open _ _ _ _ HI)|].
    split_and!; [by rewrite Hfi|done..| |done]. eapply at_insert_eq; [done|]. by rewrite (same_inner a a').
  - apply serving_exits in Hs as Hp. eapply next_edge; [apply e_wait3|].
    eapply (inv_turn _ _ _ _ s _ H a a'); try done; simpl.
    + set_solver.
    + set_solver.
    + set_solver.
    + intros _. split; [by right|]. intros m' Hm'. rewrite (inv_news _ _ _ _ HI H) in Hm'; [done|]. set_solver.
    + by eapply said_now.
    + split_and!; [by rewrite Hfi|done..].
Qed.

(** ** New processes *)

Lemma newborn_spec o p a ppid want s q b : base s → procs s !! p = Some a → newborn o a ppid false want s = Some (q, b) →
  procs s !! q = None ∧ proc_ok q b ∧ (∀ x c, procs s !! x = Some c → inner c ≠ inner b) ∧
  seen_by a b = Some (inner b) ∧ (∀ v, want = Some v → inner b = v) ∧
  p_ppid b = ppid ∧ p_state b = Running ∧ p_buf b = p_buf a ∧ p_mem b = p_mem a ∧ p_birth b = p_mem a.
Proof.
  intros Hbase Ha. destruct (proj1 Hbase p a Ha) as (Hl & _). unfold newborn.
  destruct (o_chain o !! (level a - 1)%nat) as [v|] eqn:Ev; [|done]. case_match eqn:E; [|done]. intros [= <- <-].
  rewrite !andb_true_iff, !bool_decide_eq_true, Z.ltb_lt in E. destruct E as ((((((Hlen & Hhd) & Hnew) & Hlt) & Hfresh) & _) & Hw).
  rewrite Nat.add_0_r, Hl in Hlen.
  set (b := Proc ppid (o_chain o) (p_ns a) Running InLoop (p_buf a) (p_mem a) false false (p_mem a)) in *.
  assert (inner b = v) as Hi. { assert (seen_by a b = Some (inner b)) as Hs by by apply seen_inner. unfold seen_by in Hs. simpl in Hs. congruence. }
  split_and!; try done.
  - split_and!; try done. by rewrite Hi.
  - intros x c Hc. rewrite Hi. intros Hcv. unfold fresh_seen in Hfresh. rewrite forallb_forall in Hfresh.
    assert (In (x, c) (map_to_list (procs s))) as Hin by by apply list_elem_of_In, elem_of_map_to_list.
    specialize (Hfresh _ Hin). apply negb_true_iff, bool_decide_eq_false in Hfresh. apply Hfresh. simpl.
    rewrite seen_inner; [by f_equal|done|]. by eapply Hbase.
  - by rewrite seen_inner.
  - intros w ->. by apply bool_decide_eq_true in Hw as ->.
Qed.

(** The child of a fork that will stop itself. *)
Lemma copy_template m b res q : p_buf b = "" → p_mem b = m → p_birth b = m → p_state b = Running → settle q →
  new_template (inner b) m (set_ctl (InHandler res q) b).
Proof. intros. split; [split; [split; [done|]|done]|done]. right. eauto. Qed.

(** Membership in lists of a few processes. *)
Ltac elems := simpl; let x := fresh "x" in let H := fresh in intros x H;
  repeat (apply elem_of_cons in H as [->|H]; [rewrite ?elem_of_cons; eauto|]); by apply elem_of_nil in H.

(** The phase after a fork by [p]. *)
Lemma inv_spawn Tk ph ph' outb s p a a' q b b' :
  Inv Tk ph outb s → procs s !! p = Some a → p ∈ busy ph → (∀ x, x ∈ busy ph → is_Some (procs s !! x)) →
  p_chain a' = p_chain a → p_unshared a' = p_unshared a →
  procs s !! q = None → proc_ok q b → (∀ x c, procs s !! x = Some c → inner c ≠ inner b) →
  p_chain b' = p_chain b → p_unshared b' = p_unshared b →
  (∀ x, x ∈ news ph' → x = q ∨ x ∈ news ph) → (∀ x, x ∈ busy ph → x ∈ busy ph') → q ∈ news ph' →
  (q ∉ busy ph' → passive b') → held Tk ph' → opened ph' s → silent_or (said ph') (outb +:+ fifo_out s) →
  facts ph' (put q b' (put p a' s)) → Inv Tk ph' outb (put q b' (put p a' s)).
Proof.
  intros HI Ha Hp Hbusy Hca Hua Hq Hok Hfresh Hcb Hub Hnews Hbusy' Hqn Hpas Hh Hop Hout Hf.
  pose proof (inv_base _ _ _ _ HI) as Hb. assert (q ≠ p) as Hqp by congruence.
  assert (Tk !! q = None) as HTk.
  { destruct (Tk !! q) as [m|] eqn:E; [|done]. destruct (inv_tracked _ _ _ _ HI q m E) as (c & Hc & _); [|congruence].
    intros Hin. destruct (Hbusy q Hin). congruence. }
  assert (base (put p a' s)) as Hb1 by by eapply base_put.
  apply (inv_move Tk ph ph' outb s); try done.
  - destruct Hb1 as [H1 H2].
    assert (∀ x c, procs (put p a' s) !! x = Some c → inner c ≠ inner b) as Hfr.
    { intros x c. simpl. rewrite lookup_insert_Some. intros [[<- <-]|[_ Hc]]; [|by eapply Hfresh].
      intros Heq. apply (Hfresh p a Ha). unfold inner in *. congruence. }
    assert (inner b' = inner b) as Hib by (unfold inner; by rewrite Hcb).
    split.
    + intros x c. change (procs (put q b' ?t)) with (<[q := b']> (procs t)). rewrite lookup_insert_Some.
      intros [[<- <-]|[_ Hc]]; [|by apply H1]. unfold proc_ok, level, inner in *. by rewrite Hcb, Hub.
    + intros x y c e. change (procs (put q b' ?t)) with (<[q := b']> (procs t)). rewrite !lookup_insert_Some.
      intros [[<- <-]|[Hx Hc]] [[<- <-]|[Hy He]] Heq; [done| | |by eapply H2].
      * exfalso. by apply (Hfr y e He); congruence.
      * exfalso. by apply (Hfr x c Hc); congruence.
  - intros x Hx. simpl. rewrite lookup_insert_ne by set_solver. rewrite lookup_insert_ne by set_solver. by destruct (procs s !! x).
  - intros x c Hx Hn Hc. apply elem_of_app in Hx as [Hx|Hx]; [by apply Hbusy' in Hx|].
    destruct (decide (x = q)) as [->|Hne]; [simpl in Hc; rewrite lookup_insert_eq in Hc; injection Hc as <-; auto|].
    destruct (Hnews x Hx) as [->|Hx']; [done|].
    assert (x ≠ p) as Hxp by (intros ->; by apply Hn, Hbusy').
    simpl in Hc. rewrite !lookup_insert_ne in Hc by done. apply (inv_rest _ _ _ _ HI x); [done|]. intros Hxb. by apply Hn, Hbusy'.
  - intros x m Hx Hn Hm. apply elem_of_app in Hx as [Hx|Hx]; [by apply Hbusy' in Hx|].
    destruct (Hnews x Hx) as [->|Hx']; [congruence|]. by rewrite (inv_news _ _ _ _ HI x) in Hm.
  - intros x Hx. destruct (Hnews x Hx) as [->|Hx']; [done|]. by apply (inv_news _ _ _ _ HI).
Qed.

(** A fork that is not refused. *)
Lemma fork_step o s p a res (k : result Z → prg) : base s → procs s !! p = Some a →
  run_call ev o s p a res Fork k = s ∨
  ∃ q b, newborn o a p false None s = Some (q, b) ∧
    run_call ev o s p a res Fork k = put q (set_ctl (InHandler res (k (Ok 0%Z))) b) (put p (set_ctl (InHandler res (k (Ok (inner b)))) a) s).
Proof.
  intros Hbase Ha. destruct (proj1 Hbase p a Ha) as (_ & Hu & _). destruct Hev as [_ Hff].
  unfold run_call. simpl. rewrite Hff, Hu. simpl. unfold spawn. destruct (o_fail o); [by left|].
  destruct (newborn o a p false None s) as [[q b]|] eqn:E; [|by left]. right. exists q, b. split; [done|]. simpl.
  destruct (newborn_spec o p a p None s q b) as (_ & _ & _ & Hs & _); [done..|]. rewrite Hs. simpl. by rewrite (set_prog_eq _ _ p a).
Qed.
Lemma clone_step o s p a res tid (k : result Z → prg) : base s → procs s !! p = Some a →
  run_call ev o s p a res (CloneSameNs tid) k = put p (set_ctl (InHandler res (k os_error)) a) s ∨
  ∃ q b, newborn o a (p_ppid a) false (Some tid) s = Some (q, b) ∧
    run_call ev o s p a res (CloneSameNs tid) k =
      put q (set_ctl (InHandler res (k (Ok 0%Z))) b) (put p (set_ctl (InHandler res (k (Ok tid))) a) s).
Proof.
  intros Hbase Ha. unfold run_call. simpl. unfold spawn. destruct (o_fail o); [left; by rewrite (set_prog_eq _ _ p a)|].
  destruct (newborn o a (p_ppid a) false (Some tid) s) as [[q b]|] eqn:E; [|left; by rewrite (set_prog_eq _ _ p a)].
  right. exists q, b. split; [done|]. destruct (newborn_spec o p a (p_ppid a) (Some tid) s q b) as (_ & _ & _ & Hs & Hv & _); [done..|].
  rewrite Hs. simpl. rewrite (Hv tid) by done. by rewrite (set_prog_eq _ _ p a).
Qed.

Lemma step_helper_fork Tk W H m outb o s : Inv Tk (PWait W H m) outb s → next Tk (PWait W H m) outb (astep ev o H s).
Proof.
  intros HI. destruct (inv_facts _ _ _ _ HI) as (Hf & Hne & HW & a & Ha & Hs). pose proof (inv_base _ _ _ _ HI) as Hbase.
  destruct Hs as (Hst & Hbuf & Hm & res & q & Hc & Hq). destruct q as [|?|R cl k]; [done..|]. destruct cl; try done.
  destruct Hq as [Hset Hrep]. rewrite (astep_vis o s H a res _ k) by done.
  destruct (fork_step o s H a res k) as [->|(T & b & Hnb & ->)]; [done..|by apply next_same|].
  destruct (newborn_spec _ _ _ _ _ _ _ _ Hbase Ha Hnb) as (Hnew & Hok & Hfresh & Hseen & _ & Hbp & Hbs & Hbb & Hbm & Hbb').
  destruct HW as (c & Hcw & Hidle). assert (T ≠ H ∧ T ≠ W) as [HTH HTW] by (split; congruence).
  eapply next_edge; [by apply (e_wait2 _ _ T (inner b))|].
  assert (new_template (inner b) m (set_ctl (InHandler res (k (Ok 0%Z))) b)) as Hnt
    by (apply copy_template; [by rewrite Hbb|by rewrite Hbm|by rewrite Hbb'|done|done]).
  eapply (inv_spawn _ _ _ _ s H a _ T b); try done; [set_solver|elems..|set_solver| | | |]; simpl.
  - intros _. left. apply Hnt.
  - apply (inv_open _ _ _ _ HI).
  - left. apply (not_said _ _ _ _ HI (fun _ H => H)).
  - split_and!; try (done || by apply not_eq_sym).
    + apply at_put_ne; [by apply not_eq_sym|]. apply at_put_ne; [done|]. by exists c.
    + apply at_put_ne; [by apply not_eq_sym|]. apply at_put_eq. split_and!; [done..|]. eexists _, _. split; [done|]. apply Hrep. by apply Hok.
    + by apply at_put_eq.
Qed.

(** ** The process that carries out the command *)

(** The two ends of a fork for a new agent and for a template. *)
Lemma fork_inv Tk outb s W a m X b res qp qc : Inv Tk (PWork KFork W m) outb s → procs s !! W = Some a →
  p_state a = Running → p_buf a = "" → p_mem a = m →
  procs s !! X = None → proc_ok X b → (∀ x c, procs s !! x = Some c → inner c ≠ inner b) →
  p_state b = Running → p_buf b = p_buf a → p_birth b = p_mem a →
  idle qc → replies (inner a) X (inner b) (fork_reply (inner a) X (inner b)) settle qp →
  next Tk (PWork KFork W m) outb (put X (set_ctl (InHandler res qc) b) (put W (set_ctl (InHandler res qp) a) s)).
Proof.
  intros HI Ha Hs Hbuf Hm Hnew Hok Hfresh Hbs Hbb Hbirth Hc Hp. assert (X ≠ W) as Hne by congruence.
  destruct (inv_facts _ _ _ _ HI) as (Hf & _).
  eapply next_edge; [by apply (e_fork _ X (inner b))|].
  eapply (inv_spawn _ _ _ _ s W a _ X b); try done; [set_solver|elems..|set_solver| | | | |]; simpl.
  - intros []. set_solver.
  - apply (inv_held _ _ _ _ HI).
  - apply (inv_open _ _ _ _ HI).
  - left. apply (not_said _ _ _ _ HI (fun _ H => H)).
  - split_and!; [done|by apply not_eq_sym| |].
    + apply at_put_ne; [by apply not_eq_sym|]. apply at_put_eq. split_and!; [done..|]. eauto.
    + apply at_put_eq. unfold new_agent, idler. simpl. by rewrite Hbs, Hbb, Hbirth, Hm.
Qed.
Lemma stash_inv Tk outb s W a m T b res qp qc : Inv Tk (PWork KStash W m) outb s → procs s !! W = Some a →
  p_state a = Running → p_buf a = "" → p_mem a = m →
  procs s !! T = None → proc_ok T b → (∀ x c, procs s !! x = Some c → inner c ≠ inner b) →
  p_state b = Running → p_buf b = p_buf a → p_mem b = p_mem a → p_birth b = p_mem a →
  settle qc → replies (inner a) T (inner b) (stash_reply T (inner b)) idle qp →
  next Tk (PWork KStash W m) outb (put T (set_ctl (InHandler res qc) b) (put W (set_ctl (InHandler res qp) a) s)).
Proof.
  intros HI Ha Hs Hbuf Hm Hnew Hok Hfresh Hbs Hbb Hbm Hbirth Hc Hp. assert (T ≠ W) as Hne by congruence.
  destruct (inv_facts _ _ _ _ HI) as (Hf & _).
  assert (new_template (inner b) m (set_ctl (InHandler res qc) b)) as Hnt
    by (apply copy_template; [by rewrite Hbb|by rewrite Hbm|by rewrite Hbirth|done|done]).
  eapply next_edge; [by apply (e_stash _ T (inner b))|].
  eapply (inv_spawn _ _ _ _ s W a _ T b); try done; [set_solver|elems..|set_solver| | | |]; simpl.
  - intros _. left. apply Hnt.
  - apply (inv_open _ _ _ _ HI).
  - left. apply (not_said _ _ _ _ HI (fun _ H => H)).
  - split_and!; [done|by apply not_eq_sym| |by apply at_put_eq].
    apply at_put_ne; [by apply not_eq_sym|]. apply at_put_eq. split_and!; [done..|]. eauto.
Qed.
Lemma helper_inv Tk outb s W a m H b res qp qc : Inv Tk (PWork KStash W m) outb s → procs s !! W = Some a →
  p_state a = Running → p_buf a = "" → p_mem a = m →
  procs s !! H = None → proc_ok H b → (∀ x c, procs s !! x = Some c → inner c ≠ inner b) →
  p_state b = Running → p_buf b = p_buf a → p_mem b = p_mem a →
  helper qc → idle qp →
  next Tk (PWork KStash W m) outb (put H (set_ctl (InHandler res qc) b) (put W (set_ctl (InHandler res qp) a) s)).
Proof.
  intros HI Ha Hs Hbuf Hm Hnew Hok Hfresh Hbs Hbb Hbm Hc Hp. assert (H ≠ W) as Hne by congruence.
  destruct (inv_facts _ _ _ _ HI) as (Hf & _).
  eapply next_edge; [by apply (e_wait _ H)|].
  eapply (inv_spawn _ _ _ _ s W a _ H b); try done; [set_solver|elems..|set_solver| | | |]; simpl.
  - intros []. set_solver.
  - apply (inv_open _ _ _ _ HI).
  - left. apply (not_said _ _ _ _ HI (fun _ H => H)).
  - split_and!; [done|by apply not_eq_sym|apply at_put_ne; [by apply not_eq_sym|by apply at_put_eq]|].
    apply at_put_eq. unfold serving. simpl. rewrite Hbs, Hbb, Hbm. split_and!; [done..|]. eauto.
Qed.

Lemma answers_next Tk K W m outb s s' a a' l q res : Inv Tk (PWork K W m) outb s → procs s !! W = Some a →
  p_state a = Running → p_buf a = "" → p_mem a = m → a' = set_ctl (InHandler res q) a →
  TemplateCmd.answers ev K l q → procs s' = <[W := a']> (procs s) → fifo_in s' = fifo_in s → out_open s' = true →
  fifo_out s' = fifo_out s ∨ fifo_out s' = fifo_out s +:+ l → next Tk (PWork K W m) outb s'.
Proof.
  intros HI Ha Hs Hbuf Hm -> Hl Hps Hfi Hoo Hfo. pose proof (not_said _ _ _ _ HI (fun _ H => H)) as Hout.
  destruct (inv_facts _ _ _ _ HI) as (Hf & _).
  assert (settle q → steady (set_ctl (InHandler res q) a)) as Hset.
  { intros Hq. apply (serving_settle m). split_and!; [done..|]. eauto. }
  destruct Hl as [[Hr Hq]|(-> & Hr & Hq)].
  - eapply next_edge; [apply e_fail|]. eapply (inv_serve _ _ _ _ s _ W a); try done; [set_solver|by eapply said_now|].
    split; [by rewrite Hfi|]. eapply at_insert_eq; [done|]. destruct Hq as [Hq|Hq]; [left|right; auto]. done.
  - eapply next_edge; [apply e_pause|]. eapply (inv_turn _ _ _ _ s _ W a); try done; [set_solver|elems| | | |].
    + intros _. split; [left; by apply Hset|]. intros m' Hm'. rewrite (inv_held _ _ _ _ HI m' Hm'). split; [by apply Hset|done].
    + apply (inv_held _ _ _ _ HI).
    + by eapply said_now.
    + split; [by rewrite Hfi|]. eapply at_insert_eq; [done|]. split; [by apply Hset|done].
Qed.

Lemma step_work Tk K W m outb o s : Inv Tk (PWork K W m) outb s → next Tk (PWork K W m) outb (astep ev o W s).
Proof.
  intros HI. destruct (inv_facts _ _ _ _ HI) as (Hf & a & Ha & Hs & Hbuf & Hm & res & q & Hc & Hq).
  pose proof (inv_base _ _ _ _ HI) as Hbase. pose proof (inv_open _ _ _ _ HI) as Hop.
  assert (∀ c', idle_ctl c' → next Tk (PWork K W m) outb (put W (set_ctl c' a) s)) as Hend.
  { intros c' Hi. eapply next_edge; [apply e_fail|]. eapply (inv_serve _ _ _ _ s _ W a); try done; [set_solver| |].
    - left. apply (not_said _ _ _ _ HI (fun _ H => H)).
    - split; [done|]. apply at_put_eq. by left. }
  destruct q as [r|e|R cl k].
  { unfold astep. rewrite Ha, Hs, Hc. apply Hend, after_idle. }
  { unfold astep. rewrite Ha, Hs, Hc. by apply Hend. }
  assert (∀ r, work (inner a) K (k r) → next Tk (PWork K W m) outb (put W (set_ctl (InHandler res (k r)) a) s)) as Hstay.
  { intros r Hr. apply next_same. eapply inv_put; [done|done|set_solver|done..|]. split; [done|]. apply at_put_eq. split_and!; [done..|]. eauto. }
  rewrite (astep_vis o s W a res cl k) by done.
  destruct cl as [|l| | | | | | | | | | | | | | | | |pid| | | | | | | | |]; try done; simpl in Hq.
  - unfold run_call. simpl. rewrite Hop. rewrite (set_prog_eq res _ W a) by (by destruct (o_bool o)).
    eapply (answers_next _ _ _ _ _ s); try done; by destruct (o_bool o); auto.
  - destruct (may_fail_cont o (o_int o) s) as (r & Hr & Hok). rewrite (run_cont o s W a res _ k r) by done. apply Hstay, Hq.
    destruct r as [?|e]; [done|]. unfold may_fail in Hr. destruct (o_fail o); [|done]. injection Hr as <-. done.
  - rewrite (run_cont o s W a res _ k (Ok (inner a))) by done. by apply Hstay.
  - destruct (fork_step o s W a res k) as [->|(X & b & Hnb & ->)]; [done..|by apply next_same|].
    destruct (newborn_spec _ _ _ _ _ _ _ _ Hbase Ha Hnb) as (Hnew & Hok & Hfresh & Hseen & _ & Hbp & Hbs & Hbb & Hbm & Hbb').
    assert (1 < inner b)%Z as Hlt by by apply Hok.
    destruct K; [| |done]; destruct Hq as [Hq1 Hq2]; [eapply fork_inv|eapply helper_inv]; try done; by apply Hq2.
  - destruct Hq as [He Hq]. destruct (clone_step o s W a res set_tid k) as [->|(X & b & Hnb & ->)]; [done..|by apply Hstay, He|].
    destruct (newborn_spec _ _ _ _ _ _ _ _ Hbase Ha Hnb) as (Hnew & Hok & Hfresh & Hseen & Hv & Hbp & Hbs & Hbb & Hbm & Hbb').
    assert (1 < inner b)%Z as Hlt by by apply Hok. rewrite <-(Hv set_tid) in * by done.
    destruct K; [| |done]; destruct Hq as [Hq1 Hq2]; [eapply fork_inv|eapply stash_inv]; try done; by apply Hq2.
Qed.

(** ** Every step *)

Lemma astep_next Tk ph outb o p s : Inv Tk ph outb s → next Tk ph outb (astep ev o p s).
Proof.
  intros HI. destruct (decide (p ∈ busy ph)) as [Hp|Hp].
  2: { destruct (procs s !! p) as [a|] eqn:Ha.
       - apply next_same. eapply astep_passive; [done|done| |done]. by eapply (inv_rest _ _ _ _ HI).
       - apply next_same. unfold astep. by rewrite Ha. }
  destruct ph; simpl in Hp; repeat (apply elem_of_cons in Hp as [->|Hp]); try by apply elem_of_nil in Hp.
  - by apply step_idle.
  - by apply step_sent.
  - by apply step_wake.
  - by apply step_work.
  - by apply step_failed.
  - by apply step_fork_parent.
  - by apply step_fork_child.
  - by apply step_forked.
  - by apply step_stash_parent.
  - by apply step_wait.
  - by apply step_helper_fork.
  - by apply step_wait2.
  - by apply step_helper_reply.
  - by apply step_stashed.
Qed.

(** The invariant of a phase or of a later one. *)
Definition from (Tk : gmap Z V) (ph : phase) (outb : string) s : Prop := ∃ ph', rtc edge ph ph' ∧ Inv Tk ph' outb s.
Lemma from_now Tk ph outb s : Inv Tk ph outb s → from Tk ph outb s.
Proof. intros H. by exists ph. Qed.
Lemma asteps_inv Tk ph outb l s : from Tk ph outb s → from Tk ph outb (asteps ev l s).
Proof.
  revert s. induction l as [|[p o] l IH]; intros s H; [done|]. apply (IH (astep ev o p s)). destruct H as (ph1 & H1 & HI).
  destruct (astep_next Tk ph1 outb o p s HI) as (ph2 & [->|He] & HI2); [by exists ph1|]. exists ph2. split; [|done].
  eapply rtc_r; eauto.
Qed.
Lemma settled Tk ph outb l s : (∀ ph', ¬ edge ph ph') → Inv Tk ph outb s → Inv Tk ph outb (asteps ev l s).
Proof.
  intros Hn HI. destruct (asteps_inv Tk ph outb l s (from_now _ _ _ _ HI)) as (ph' & H & HI'). by inversion H as [|? ? ? He]; subst; [|apply Hn in He].
Qed.
End inv.
End TemplateInv.
