(* ===== verification/TemplateRequests.v ===== *)
(** * The pool's requests against the invariant

    Weakest preconditions of the operations of [TemplatePool], whatever the
    agents do before each call: a reply that is accepted is the reply to this
    request, the pid taken from it is that of the process the request made
    ([wp_await], [wp_stash], [wp_pause]), and after the request one agent is
    active and all others are passive ([serve_ready]).  Requests may fail; then
    nothing is claimed. *)

From S2P Require Import Prelude Hoare PyStr PyDict PyInt Json JsonText Program Host Template TemplateSys TemplatePool TemplateCmd TemplateInv.
From Stdlib Require Import Ascii.

Module TemplateRequests.
Import Template TemplateSys TemplatePool TemplateCmd TemplateInv.

(** ** The FIFO of the controller stays open *)

Section opened.
Context {V : Type} (ev : env).
Implicit Types (s : sys V).

Definition outcome_open {R} (b : bool) (x : @outcome V R) : Prop :=
  match x with Blocked => True | Gone s | Cont _ s | Spawn _ _ _ _ s => out_open s = b end.
Lemma spawn_open {R} o a ppid newns want (ret : Z → R) s : outcome_open (out_open s) (spawn o a ppid newns want ret s).
Proof. unfold spawn. destruct (o_fail o); [done|]. by destruct (newborn _ _ _ _ _ _) as [[? ?]|]. Qed.
Lemma end_proc_open q s : out_open (end_proc q s) = out_open s.
Proof. unfold end_proc. by destruct (procs s !! q). Qed.
Lemma signal_proc_open sg q s : out_open (signal_proc sg q s) = out_open s.
Proof. destruct sg; simpl; first [apply end_proc_open|by destruct (procs s !! q)]. Qed.
Lemma answer_open o s p a {R} (c : agE R) : outcome_open (out_open s) (answer ev o s p a c).
Proof.
  destruct c; simpl; try done; try apply spawn_open; unfold may_fail; try by destruct (o_fail o).
  - unfold read_ctrl. by destruct (_read_ctrl_line _ _) as [[? ?] ?].
  - destruct (out_open s) eqn:E; [by destruct (o_bool o)|done].
  - by case_bool_decide.
  - by destruct (p_cont a).
  - apply end_proc_open.
  - destruct (negb _ && _); [done|apply spawn_open].
  - destruct (find_seen _ _ _) as [[? ?]|]; [apply signal_proc_open|done].
  - by destruct (wait_for _ _ _ _) as [[[? ?]|]|].
  - destruct (find_seen _ _ _) as [[? b]|]; [by destruct (p_state b)|done].
  - by destruct (wait_for _ _ _ _) as [[[? ?]|]|].
  - destruct pid; [|done]. by destruct (find_seen _ _ _) as [[? ?]|].
Qed.
Lemma run_call_open o s p a res {R} (c : agE R) k : out_open (run_call ev o s p a res c k) = out_open s.
Proof. unfold run_call. pose proof (answer_open o s p a c). by destruct (answer ev o s p a c). Qed.
Lemma astep_open o p s : out_open (astep ev o p s) = out_open s.
Proof.
  unfold astep. destruct (procs s !! p) as [a|]; [|done]. destruct (p_state a); try done.
  destruct (p_ctl a) as [|res [|?|]]; try done. apply run_call_open.
Qed.
Lemma asteps_open l s : out_open (asteps ev l s) = out_open s.
Proof. revert s. induction l as [|[p o] l IH]; intros s; [done|]. simpl. by rewrite (IH (astep ev o p s)), astep_open. Qed.
End opened.

(** ** Calls of the pool while the agents run *)

Section spec.
Context {V : Type} (ev : env) (d : nat).
Hypothesis (Hev : env_ok ev) (Hd : (1 <= d)%nat).
Implicit Types (s : sys V) (g : @gst V).
#[local] Abbreviation Inv := (TemplateInv.Inv ev d).
#[local] Abbreviation from := (TemplateInv.from ev d).
#[local] Abbreviation steady_phase ph := (∀ ph', ¬ edge (V:=V) ph ph').
#[local] Abbreviation any := (fun (_ : exn) (_ : @gst V) => True).

(** The phase [ph] of the request, or a later one, with the pool [pl]; [b]: the
    controller has opened the output FIFO. *)
Record on (Tk : gmap Z V) (ph : phase) (b : bool) (pl : pool) g : Prop := {
  at_from : from Tk ph (out_buf pl) (g_sys g);
  at_open : b = true → out_open (g_sys g) = true;
  at_pool : g_pool g = pl;
}.

(** The agents run before a call: it meets any state they can reach. *)
Lemma asteps_closed (J : sys V → Prop) l s : (∀ o p s, J s → J (astep ev o p s)) → J s → J (asteps ev l s).
Proof. intros Hc. revert s. induction l as [|[p o] l IH]; intros s Hs; [done|]. by apply (IH (astep ev o p s)), Hc. Qed.
Lemma wp_call_closed {A} (J : sys V → Prop) (f : tick → sys V → result A * sys V) (Q : A → @gst V → Prop) (E : exn → @gst V → Prop) g :
  (∀ o p s, J s → J (astep ev o p s)) → J (g_sys g) →
  (∀ t s sch, J s → match f t s with (Ok a, s') => Q a (Gst sch s' (g_pool g)) | (Err e, s') => E e (Gst sch s' (g_pool g)) end) →
  wp (call ev f) Q E g.
Proof.
  intros Hc HJ H. unfold call. apply wp_bind. unfold wp at 1, let_run. destruct (g_sched g) as [|t rest].
  - unfold wp. specialize (H no_tick (g_sys g) (g_sched g) HJ). by destruct (f no_tick (g_sys g)) as [[a|e] s'].
  - unfold wp. simpl. specialize (H t (asteps ev (t_steps t) (g_sys g)) rest (asteps_closed J _ _ Hc HJ)).
    by destruct (f t _) as [[a|e] s'].
Qed.
Lemma from_astep Tk ph outb o p s : from Tk ph outb s → from Tk ph outb (astep ev o p s).
Proof. apply (asteps_inv ev d Hev Hd Tk ph outb [(p, o)]). Qed.
Lemma wp_call {A} Tk ph b pl (f : tick → sys V → result A * sys V) (Q : A → @gst V → Prop) (E : exn → @gst V → Prop) g :
  on Tk ph b pl g →
  (∀ t s sch, from Tk ph (out_buf pl) s → (b = true → out_open s = true) →
     match f t s with (Ok a, s') => Q a (Gst sch s' pl) | (Err e, s') => E e (Gst sch s' pl) end) →
  wp (call ev f) Q E g.
Proof.
  intros [Hf Ho <-] H. apply (wp_call_closed (fun s => from Tk ph (out_buf (g_pool g)) s ∧ (b = true → out_open s = true))).
  - intros o p s [H1 H2]. split; [by apply from_astep|]. by rewrite astep_open.
  - done.
  - intros t s sch [H1 H2]. by apply H.
Qed.
Lemma wp_observe {A} Tk ph b pl (f : sys V → result A) (Q : A → @gst V → Prop) (E : exn → @gst V → Prop) g :
  on Tk ph b pl g → (∀ g', on Tk ph b pl g' → match f (g_sys g') with Ok a => Q a g' | Err e => E e g' end) →
  wp (observe ev f) Q E g.
Proof.
  intros Hon H. unfold observe. eapply wp_call; [done|]. intros t s sch Hf Ho.
  specialize (H (Gst sch s pl)). simpl in *. destruct (f s); by apply H.
Qed.
Lemma wp_try {A} (p : exn → bool) (m : M (@gst V) A) h (Q : A → @gst V → Prop) (E : exn → @gst V → Prop) g :
  wp m Q (fun e g' => if p e then wp (h e) Q E g' else E e g') g → wp (mtry p m h) Q E g.
Proof.
  intros H. unfold mtry. apply wp_catch. eapply wp_mono; [apply H|done|]. intros e g'. simpl. by destruct (p e).
Qed.
Lemma wp_the_pool Tk ph b pl (Q : pool → @gst V → Prop) E g : on Tk ph b pl g → Q pl g → wp the_pool Q E g.
Proof. intros [_ _ Hp] HQ. unfold wp, the_pool. by rewrite Hp. Qed.
Lemma wp_mod_pool Tk ph b pl (f : pool → pool) (Q : unit → @gst V → Prop) E g :
  on Tk ph b pl g → out_buf (f pl) = out_buf pl → (∀ g', on Tk ph b (f pl) g' → Q tt g') → wp (mod_pool f) Q E g.
Proof. intros [Hf Ho Hp] Hb HQ. apply HQ. split; [by rewrite Hb|done|]. unfold on_pool. simpl. by rewrite Hp. Qed.
Lemma on_weaken Tk ph b pl g : on Tk ph true pl g → on Tk ph b pl g.
Proof. intros [? ? ?]. split; auto. Qed.
Lemma from_steady Tk ph outb s : steady_phase ph → from Tk ph outb s → Inv Tk ph outb s.
Proof. intros Hn (ph' & H & HI). inversion H as [|? ? ? He]; subst; [done|]. by apply Hn in He. Qed.

(** ** Draining *)

(** Between requests there is nothing to drain. *)
Definition quiet (ph : phase (V:=V)) : Prop := ph = PNone "" ∨ ∃ A, ph = PIdle A.
Lemma quiet_steady ph : quiet ph → steady_phase ph.
Proof. intros [->|[A ->]] ph' H; inversion H. Qed.
Lemma quiet_empty Tk ph outb s : quiet ph → from Tk ph outb s → outb = "" ∧ fifo_out s = "" ∧ fifo_in s = "".
Proof.
  intros Hq Hf. apply from_steady in Hf as HI; [|by apply quiet_steady].
  destruct Hq as [->|[A ->]]; (destruct (inv_out _ _ _ _ _ _ HI) as [Ho|[]]; apply string_app_nil in Ho as [-> ->]);
    pose proof (inv_facts _ _ _ _ _ _ HI) as HF; simpl in HF; [done|by destruct HF].
Qed.
Lemma quiet_open Tk ph outb s b : quiet ph → from Tk ph outb s → from Tk ph outb (set_open b s).
Proof.
  intros Hq (ph' & H & HI). assert (ph' = ph) as -> by (inversion H as [|? ? ? He]; subst; [done|]; by apply quiet_steady in He).
  exists ph. split; [done|]. destruct HI as [? ? ? ? ? ? ? Hf]. split; try done; destruct Hq as [->|[A ->]]; done.
Qed.

Lemma wp_ensure_out Tk ph b pl g : quiet ph → on Tk ph b pl g → wp (_ensure_out_fd ev) (fun _ => on Tk ph true pl) any g.
Proof.
  intros Hq Hon. unfold wp, _ensure_out_fd. destruct (out_open (g_sys g)) eqn:E; [destruct Hon; by split|].
  change (wp (open_out ev) (fun _ => on Tk ph true pl) any g). unfold open_out. eapply wp_call; [done|].
  intros t s sch Hf Ho. destruct (t_fail t); [done|]. split; [by apply quiet_open|done|done].
Qed.
Lemma wp_drain Tk ph b pl g : quiet ph → on Tk ph b pl g → wp (_drain_pending ev) (fun _ => on Tk ph true pl) any g.
Proof.
  intros Hq Hon. unfold _drain_pending. apply wp_bind. destruct (quiet_empty _ _ _ _ Hq (at_from _ _ _ _ _ Hon)) as (Hb & _).
  assert (set_out_buf "" pl = pl) as Hpl by (destruct pl; simpl in *; by rewrite Hb).
  eapply wp_mod_pool; [done|by rewrite Hpl|]. rewrite Hpl. intros g1 H1. apply wp_bind. eapply wp_mono; [by eapply wp_ensure_out| |done].
  intros [] g2 H2. simpl. apply wp_bind, wp_bind. unfold read_out. eapply wp_call; [done|]. intros t s sch Hf Ho.
  destruct (quiet_empty _ _ _ _ Hq Hf) as (_ & Hfo & _). rewrite Hfo. simpl. apply wp_ret. split; [|done|done].
  simpl. rewrite <-Hfo. by destruct s.
Qed.
Lemma wp_open_in Tk ph b pl g : on Tk ph b pl g → wp (open_in ev) (fun _ => on Tk ph b pl) (fun _ => on Tk ph b pl) g.
Proof. intros Hon. unfold open_in. eapply wp_call; [done|]. intros t s sch Hf Ho. by destruct (t_fail t). Qed.
Lemma wp_opened Tk ph b pl g : on Tk ph b pl g →
  wp (mtry is_OSError (_ ← open_in ev; mret true) (fun _ => mret false)) (fun _ => on Tk ph b pl) any g.
Proof.
  intros Hon. apply wp_try, wp_bind. eapply wp_mono; [by apply wp_open_in|by intros|]. intros e g' Hg. by destruct (is_OSError e).
Qed.
Lemma wp_drain_commands Tk ph b pl g : quiet ph → on Tk ph b pl g → wp (_drain_pending_commands ev) (fun _ => on Tk ph b pl) any g.
Proof.
  intros Hq Hon. unfold _drain_pending_commands. apply wp_bind. eapply wp_mono; [by eapply wp_opened| |done].
  intros [] g1 H1; [|by apply wp_ret]. simpl. apply wp_bind, wp_bind. unfold read_in. eapply wp_call; [done|]. intros t s sch Hf Ho.
  destruct (quiet_empty _ _ _ _ Hq Hf) as (_ & _ & Hfi). rewrite Hfi. simpl. apply wp_ret. split; [|done|done].
  simpl. rewrite <-Hfi. by destruct s.
Qed.

(** ** After the reply *)

(** In the last phases of a request nothing is written any more. *)
Definition final (ph : phase (V:=V)) : Prop := match ph with PForked _ _ _ _ | PStashed _ _ _ _ | PPaused _ _ => True | _ => False end.
Lemma final_steady ph : final ph → steady_phase ph.
Proof. intros Hf ph' He. by destruct He. Qed.
Lemma passive_out o p s a : base d s → procs s !! p = Some a → passive a → fifo_out (astep ev o p s) = fifo_out s.
Proof.
  intros Hb Ha Hp. destruct (proj1 Hb p a Ha) as (_ & _ & Hi & _). destruct Hp as [Hp|Hp].
  - destruct (settle_step ev o s p a) as [->|(a' & -> & _)]; [done|done|lia|done|done].
  - destruct (exits_step ev o s p a) as [->|[-> _]]; [done..|]. apply end_proc_other.
Qed.
Lemma final_out Tk ph outb o p s : final ph → Inv Tk ph outb s → fifo_out (astep ev o p s) = fifo_out s.
Proof.
  intros Hf HI. destruct (procs s !! p) as [a|] eqn:Ha; [|unfold astep; by rewrite Ha].
  pose proof (inv_base _ _ _ _ _ _ HI) as Hb. destruct (decide (p ∈ busy ph)) as [Hp|Hp].
  - assert (idler ev "" a ∧ fifo_in s = "") as [Hi Hfi].
    { pose proof (inv_facts _ _ _ _ _ _ HI) as HF. destruct ph; try done; simpl in Hp;
        repeat (apply elem_of_cons in Hp as [->|Hp]); try by apply elem_of_nil in Hp.
      - destruct HF as (? & _ & _ & b & Hb' & Hi & _). by simplify_eq.
      - destruct HF as (? & _ & (b & Hb' & Hi) & _). by simplify_eq. }
    by destruct (idler_step ev o s p a) as (a' & _ & _ & _ & _ & _ & _ & ? & _).
  - eapply passive_out; [done|done|]. by eapply (inv_rest _ _ _ _ _ _ HI).
Qed.

(** A request whose reply has been read. *)
Record finished (Tk : gmap Z V) (ph : phase) (pl : pool) g : Prop := {
  fin_inv : Inv Tk ph "" (g_sys g);
  fin_buf : out_buf pl = "";
  fin_out : fifo_out (g_sys g) = "";
  fin_open : out_open (g_sys g) = true;
  fin_pool : g_pool g = pl;
}.
Lemma final_astep Tk ph o p s : final ph → Inv Tk ph "" s → Inv Tk ph "" (astep ev o p s).
Proof.
  intros Hf HI. destruct (astep_next ev d Hev Hd Tk ph "" o p s HI) as (ph' & [->|He] & H); [done|]. by apply final_steady in He.
Qed.
(** A call after the reply, with what else the agents keep. *)
Lemma wp_call_finished {A} Tk ph pl (J : sys V → Prop) (f : tick → sys V → result A * sys V) (Q : A → @gst V → Prop) (E : exn → @gst V → Prop) g :
  final ph → (∀ o p s, Inv Tk ph "" s → J s → J (astep ev o p s)) → finished Tk ph pl g → J (g_sys g) →
  (∀ t s sch, finished Tk ph pl (Gst sch s pl) → J s →
     match f t s with (Ok a, s') => Q a (Gst sch s' pl) | (Err e, s') => E e (Gst sch s' pl) end) →
  wp (call ev f) Q E g.
Proof.
  intros Hfin HJc [HI Hb Ho Hop <-] HJ H.
  apply (wp_call_closed (fun s => (Inv Tk ph "" s ∧ J s) ∧ fifo_out s = "" ∧ out_open s = true)).
  - intros o p s [[H1 H2] [H3 H4]]. split_and!; [by apply final_astep|by apply HJc|by rewrite (final_out Tk ph "")|by rewrite astep_open].
  - done.
  - intros t s sch [[H1 H2] [H3 H4]]. by apply H.
Qed.
Lemma wp_observe_finished Tk ph pl : final ph → ∀ A (f : sys V → result A) (Q : A → @gst V → Prop) (E : exn → @gst V → Prop) g,
  finished Tk ph pl g → (∀ g', finished Tk ph pl g' → match f (g_sys g') with Ok a => Q a g' | Err e => E e g' end) → wp (observe ev f) Q E g.
Proof.
  intros Hfin A f Q E g Hg H. unfold observe. apply (wp_call_finished Tk ph pl (fun _ => True)); try done.
  intros t s sch H' _. specialize (H _ H'). simpl in H. by destruct (f s).
Qed.

(** ** Reading the reply *)

Lemma said_line ph l : said (V:=V) ph l → ∃ j, l = line_of j ∧ plain j = true.
Proof.
  destruct ph; simpl; try done.
  - intros (j & -> & ? & _). eauto.
  - intros (w & _ & j & -> & (? & _) & _). eauto.
  - intros (j & -> & (? & _) & _). eauto.
  - intros (j & -> & ? & _). eauto.
Qed.
Lemma inv_heard Tk ph outb s : Inv Tk ph outb s → fifo_out s = "" → Inv Tk ph "" s.
Proof. intros [] Hf. split; try done. left. by rewrite Hf. Qed.
Lemma from_read Tk ph outb s n : from Tk ph outb s → from Tk ph (outb +:+ stake n (fifo_out s)) (set_out (sdrop n (fifo_out s)) s).
Proof.
  intros (ph' & He & HI). exists ph'. split; [done|]. destruct HI as [? ? ? ? ? Ho ? Hf]. split; try done.
  simpl. by rewrite string_app_assoc, stake_sdrop.
Qed.

(** The line that is accepted, in the phase that has written it. *)
Definition heard (Tk : gmap Z V) (ph : phase) (pl : pool) (expected : list string) (line : string) g : Prop :=
  ∃ ph' j, rtc edge ph ph' ∧ (final ph' → finished Tk ph' (set_out_buf "" pl) g) ∧ line = dumps j ∧ plain j = true ∧ said ph' (line_of j) ∧
    wanted expected line = Ok true.
Definition heard_or Tk ph pl expected (r : option string) g : Prop :=
  match r with Some line => heard Tk ph pl expected line g | None => ∃ ob, on Tk ph true (set_out_buf ob pl) g end.

Lemma wp_response_turn Tk ph pl expected g : on Tk ph true pl g → wp (response_turn ev expected) (heard_or Tk ph pl expected) any g.
Proof.
  intros Hon. unfold response_turn. apply wp_bind. eapply wp_the_pool; [done|]. destruct (split_line (out_buf pl)) as [[line rest]|] eqn:E.
  - destruct Hon as [(ph' & He & HI) Ho Hp]. specialize (Ho eq_refl).
    destruct (inv_out _ _ _ _ _ _ HI) as [Hs|Hs]; [apply string_app_nil in Hs as [Hs _]; by rewrite Hs in E|].
    apply said_line in Hs as Hj. destruct Hj as (j & Hj & Hpl).
    destruct (split_line_prefix (dumps j) (out_buf pl) (fifo_out (g_sys g))) as [[? _]|[Hsp Hfo]]; [apply one_line_dumps|done|congruence|].
    rewrite Hsp in E. injection E as <- <-. apply wp_bind. unfold mod_pool. apply wp_mod. apply wp_bind, wp_lift.
    destruct (wanted expected (dumps j)) as [[]|] eqn:Ew; [..|done]; apply wp_ret.
    + exists ph', j. split_and!; try done; [|by rewrite <-Hj]. intros _. split; [by eapply inv_heard|done..|by rewrite <-Hp].
    + exists "". split; [|done|by rewrite <-Hp]. exists ph'. split; [done|]. by eapply inv_heard.
  - apply wp_bind. unfold out_ready. eapply wp_observe; [done|]. intros g1 H1. destruct (negb _) eqn:Er.
    { destruct (negb _); [|done]. apply wp_ret. exists (out_buf pl). by destruct pl. }
    destruct (negb _); [done|]. apply wp_bind. unfold read_out. eapply wp_call; [done|]. intros t s sch Hf Ho.
    case_bool_decide as Hfo.
    + apply wp_bind, wp_ret, wp_ret. exists (out_buf pl). rewrite Hfo.
      replace (set_out (sdrop 4096 "") s) with s by (destruct s; simpl in *; by rewrite Hfo). split; [done|done|by destruct pl].
    + apply wp_bind. unfold mod_pool. apply wp_mod, wp_ret. exists (out_buf pl +:+ stake 4096 (fifo_out s)).
      split; [by apply from_read|by apply Ho|done].
Qed.
Lemma wp_response_loop Tk ph pl expected fuel g : on Tk ph true pl g → wp (response_loop ev fuel expected) (heard_or Tk ph pl expected) any g.
Proof.
  revert pl g. induction fuel as [|fuel IH]; intros pl g Hon; simpl.
  { apply wp_ret. exists (out_buf pl). by destruct pl. }
  apply wp_bind. eapply wp_mono; [by apply wp_response_turn| |done]. intros [line|] g1; simpl.
  - intros H. by apply wp_ret.
  - intros [ob H1]. eapply wp_mono; [by apply IH| |done]. intros [line|] g2; simpl.
    + done.
    + intros [ob' H]. by exists ob'.
Qed.
Lemma wp_read_response Tk ph pl expected g : on Tk ph true pl g →
  wp (_read_response_line ev expected) (heard_or Tk ph pl expected) any g.
Proof.
  intros Hon. unfold _read_response_line. apply wp_bind. unfold wp at 1, _ensure_out_fd. rewrite (at_open _ _ _ _ _ Hon) by done.
  by apply wp_response_loop.
Qed.

(** ** Finding a process by its pid in the agents' namespace *)

Section locate.
Context (pl : pool) (X v : Z) (here : @gst V → Prop).
Hypothesis (Hobserve : ∀ A (f : sys V → result A) (Q : A → @gst V → Prop) (E : exn → @gst V → Prop) g, here g →
  (∀ g', here g' → match f (g_sys g') with Ok a => Q a g' | Err e => E e g' end) → wp (observe ev f) Q E g).
Hypothesis (Hpool : ∀ g, here g → g_pool g = pl).
(** [X] is there and has the pid [v]. *)
Hypothesis (Hnames : ∀ g, here g → base d (g_sys g) ∧ at_proc (g_sys g) X (fun a => inner a = v)).
#[local] Abbreviation finds := (fun (r : option Z) g => here g ∧ ∀ p, r = Some p → p = X).

Lemma by_inner g p a : here g → procs (g_sys g) !! p = Some a → last (p_chain a) = Some v → p = X.
Proof.
  intros Hf Ha Hl. destruct (Hnames g Hf) as ([_ Hu] & b & Hb & Hi). apply (Hu p X a b); [done..|].
  rewrite Hi. unfold inner. by rewrite Hl.
Qed.

Lemma wp_first_that test l g : here g →
  (∀ x g, here g → wp (test x) (fun (b : bool) g' => here g' ∧ (b = true → x = X)) (fun _ => here) g) → wp (first_that test l) finds any g.
Proof.
  intros Hg Ht. revert g Hg. induction l as [|x l IH]; intros g Hg; simpl; [by apply wp_ret|].
  apply wp_bind, wp_try. eapply wp_mono; [by apply Ht|..].
  - intros [] g' [Hg' Hx]; [|by apply IH]. apply wp_ret. split; [done|]. intros p [= <-]. auto.
  - intros e g' Hg'. simpl. destruct (is_OSError e); [|done]. apply wp_ret. by apply IH.
Qed.

Lemma wp_read_status p g (Q : status → @gst V → Prop) : here g →
  (∀ st g', here g' → (∀ l, st_nspid st = Some l → last l = Some v → p = X) → Q st g') → wp (read_status ev p) Q (fun _ => here) g.
Proof.
  intros Hg HQ. unfold read_status. apply Hobserve; [done|]. intros g' Hg'. destruct (procs (g_sys g') !! p) as [b|] eqn:E; [|done].
  apply HQ; [done|]. intros l [= <-] Hl. by eapply by_inner.
Qed.
Lemma wp_nspids p g : here g → wp (_nspids_for_pid ev p) (fun l g' => here g' ∧ (last l = Some v → p = X)) (fun _ => here) g.
Proof.
  intros Hg. unfold _nspids_for_pid. apply wp_try, wp_bind.
  eapply wp_mono; [apply (wp_read_status p g (fun st g' => here g' ∧ ∀ l, st_nspid st = Some l → last l = Some v → p = X)); auto| |].
  - intros st g' [Hg' Hst]. apply wp_ret. split; [done|]. destruct (st_nspid st) as [l|]; [|done]. by apply Hst.
  - intros e g' Hg'. simpl. destruct (is_OSError e); [by apply wp_ret|done].
Qed.
Lemma wp_keep {A} (f : sys V → result A) g : here g → wp (observe ev f) (fun _ => here) (fun _ => here) g.
Proof. intros Hg. apply Hobserve; [done|]. intros g' Hg'. by destruct (f (g_sys g')). Qed.
Lemma wp_or {A} (m : M (@gst V) A) (a : A) (Q : A → Prop) g :
  wp m (fun a g' => here g' ∧ Q a) (fun _ => here) g → Q a → wp (mtry is_OSError m (fun _ => mret a)) (fun a g' => here g' ∧ Q a) (fun _ => here) g.
Proof.
  intros H Ha. apply wp_try. eapply wp_mono; [done|done|]. intros e g' Hg'. simpl. destruct (is_OSError e); [by apply wp_ret|done].
Qed.
Lemma wp_pid_state p g : here g → wp (_pid_state ev p) (fun _ => here) (fun _ => here) g.
Proof.
  intros Hg. unfold _pid_state. eapply wp_mono; [apply (wp_or _ _ (fun _ => True)); [|done]|by intros ? ? []|done].
  apply wp_bind. eapply wp_mono; [by apply wp_keep| |done]. intros st g' Hg'. by apply wp_ret.
Qed.
Lemma wp_ppid p g : here g → wp (_ppid_for_pid ev p) (fun _ => here) (fun _ => here) g.
Proof.
  intros Hg. unfold _ppid_for_pid. eapply wp_mono; [apply (wp_or _ _ (fun _ => True)); [|done]|by intros ? ? []|done].
  apply wp_bind. eapply wp_mono; [by apply wp_keep| |done]. intros st g' Hg'. by apply wp_ret.
Qed.

Lemma wp_find_child src excl g : here g → wp (_find_child_host_pid ev src v excl) finds any g.
Proof.
  intros Hg. unfold _find_child_host_pid. apply wp_bind. eapply wp_mono; [apply (wp_or _ _ (fun _ => True)); [|done]| |done].
  { eapply wp_mono; [by apply wp_keep|done|done]. }
  intros l g1 [H1 _]. apply wp_first_that; [done|]. clear g g1 Hg H1. intros x g Hg. destruct (mem x excl); [by apply wp_ret|].
  apply wp_bind. eapply wp_mono; [by apply wp_pid_state| |done]. intros st g1 H1. case_bool_decide; [by apply wp_ret|].
  apply wp_bind. eapply wp_read_status; [done|]. intros st' g2 H2 Hst. apply wp_ret. split; [done|].
  destruct (st_nspid st') as [l'|]; [|done]. rewrite bool_decide_eq_true. by apply Hst.
Qed.
Lemma wp_translate src g : here g → wp (_translate_ns_to_host ev v src) finds any g.
Proof.
  intros Hg. unfold _translate_ns_to_host. apply wp_bind. eapply wp_mono; [apply (wp_or _ _ (fun _ => True)); [|done]| |done].
  { apply wp_bind. eapply wp_mono; [by apply wp_keep| |done]. intros st g' Hg'. by apply wp_ret. }
  intros [ns|] g1 [H1 _]; [|by apply wp_ret]. apply wp_bind. eapply wp_mono; [by apply wp_keep| |done]. intros l g2 H2.
  apply wp_first_that; [done|]. clear g g1 Hg H1 g2 H2. intros x g Hg. apply wp_bind. eapply wp_mono; [by apply wp_keep| |done]. intros ns' g1 H1.
  destruct (negb _); [by apply wp_ret|]. apply wp_bind. eapply wp_read_status; [done|]. intros st' g2 H2 Hst. apply wp_ret. split; [done|].
  destruct (st_nspid st') as [l'|]; [|done]. rewrite bool_decide_eq_true. by apply Hst.
Qed.
Lemma wp_valid c src g : here g → wp (_valid_stash_host_pid ev c v src) (fun b g' => here g' ∧ (b = true → c = X)) any g.
Proof.
  intros Hg. unfold _valid_stash_host_pid. case_bool_decide; [by apply wp_ret|].
  eapply wp_mono; [apply (wp_or _ _ (fun b => b = true → c = X)); [|done]|done|done].
  apply wp_bind. eapply wp_mono; [by apply wp_nspids| |done]. intros l g1 [H1 Hl]. case_bool_decide; [|by apply wp_ret].
  apply wp_bind. eapply wp_mono; [by apply wp_keep| |done]. intros ns g2 H2.
  apply wp_bind. eapply wp_mono; [by apply wp_keep| |done]. intros ns' g3 H3. apply wp_ret. auto.
Qed.
Lemma wp_is_dir p g : here g → wp (is_dir ev p) (fun _ => here) any g.
Proof. intros Hg. eapply wp_mono; [by apply wp_keep|done|done]. Qed.

Lemma wp_locate_child src hint same excl g : here g → hint = JNull ∨ hint = JInt X →
  wp (locate_child ev src v hint same excl) finds any g.
Proof.
  intros Hg Hh. unfold locate_child. cbv zeta.
  assert (∀ c p, match c with Some p => if mem p excl then None else Some p | None => None end = Some p → c = Some p) as Hkeep
    by (intros [c|] p; [by destruct (mem c excl)|done]).
  apply wp_bind. apply (wp_mono _ finds _ any).
  { destruct Hh as [->| ->]; simpl; [by apply wp_ret|]. destruct (mem X excl); [by apply wp_ret|].
    apply wp_bind. eapply wp_mono; [by apply wp_is_dir| |done]. intros [] g1 H1; apply wp_ret; (split; [done|]); [by intros p [= <-]|done]. }
  2: done. intros c0 g0 [H0 Hc0]. apply wp_bind. apply (wp_mono _ finds _ any).
  { destruct c0 as [p|]; [apply wp_ret; auto|]. apply wp_bind. eapply wp_mono; [by apply wp_find_child| |done].
    intros c g1 [H1 Hc]. apply wp_ret. split; [done|]. intros p Hp. apply Hc. by apply Hkeep. }
  2: done. intros c1 g1 [H1 Hc1]. apply wp_bind. apply (wp_mono _ finds _ any).
  { destruct c1 as [p|]; [apply wp_ret; auto|]. destruct same; [|by apply wp_ret].
    apply wp_bind. eapply wp_mono; [by apply wp_ppid| |done]. intros [r|] g2 H2; [|by apply wp_ret]. destruct (r =? 0)%Z; [by apply wp_ret|].
    apply wp_bind. eapply wp_mono; [by apply wp_find_child| |done].
    intros c g3 [H3 Hc]. apply wp_ret. split; [done|]. intros p Hp. apply Hc. by apply Hkeep. }
  2: done. intros c2 g2 [H2 Hc2]. destruct c2 as [p|]; [by apply wp_ret|].
  apply wp_bind. eapply wp_mono; [by apply wp_translate| |done].
  intros c g3 [H3 Hc]. apply wp_ret. split; [done|]. intros p Hp. apply Hc. by apply Hkeep.
Qed.

(** Looking for another process leaves everything in place. *)
Lemma keeps_observe {A} (f : sys V → result A) : keeps here (observe ev f).
Proof. intros g Hg. by apply wp_keep. Qed.
Lemma keeps_mtry {A} (p : exn → bool) (m : M (@gst V) A) h : keeps here m → (∀ e, keeps here (h e)) → keeps here (mtry p m h).
Proof. intros Hm Hh. unfold mtry. apply keeps_catch; [done|]. intros e. destruct (p e); [apply Hh|apply keeps_throw]. Qed.
#[local] Hint Resolve keeps_observe : deltabox.
Lemma keeps_first_that test l : (∀ x, keeps here (test x)) → keeps here (first_that test l).
Proof.
  intros Ht. induction l as [|x l IH]; simpl; [apply keeps_ret|]. apply keeps_bind; [by apply keeps_mtry; auto with deltabox|].
  intros []; [apply keeps_ret|done].
Qed.
Lemma keeps_nspids p : keeps here (_nspids_for_pid ev p).
Proof. unfold _nspids_for_pid, read_status. apply keeps_mtry; [keeps_auto|intros e; apply keeps_ret]. Qed.
Lemma keeps_find_child src t excl : keeps here (_find_child_host_pid ev src t excl).
Proof.
  unfold _find_child_host_pid, list_children. apply keeps_bind; [apply keeps_mtry; [keeps_auto|intros e; apply keeps_ret]|]. intros l. apply keeps_first_that. intros x.
  unfold _pid_state, read_status. destruct (mem x excl); [apply keeps_ret|]. apply keeps_bind; [apply keeps_mtry; [keeps_auto|intros e; apply keeps_ret]|]. intros ?. keeps_auto.
Qed.
Lemma keeps_valid c t src : keeps here (_valid_stash_host_pid ev c t src).
Proof.
  unfold _valid_stash_host_pid, read_ns. case_bool_decide; [apply keeps_ret|]. apply keeps_mtry; [|intros e; apply keeps_ret].
  apply keeps_bind; [apply keeps_nspids|]. intros l. keeps_auto.
Qed.

(** A candidate that is checked. *)
Lemma wp_checked (m : M (@gst V) (option Z)) src g : wp m (fun _ => here) any g →
  wp (c ← m; match c with
             | Some candidate => v' ← _valid_stash_host_pid ev candidate v src; mret (if (v' : bool) then Some candidate else None)
             | None => mret None
             end) finds any g.
Proof.
  intros Hm. apply wp_bind. eapply wp_mono; [done| |done]. intros [c|] g1 H1; [|by apply wp_ret].
  apply wp_bind. eapply wp_mono; [by apply wp_valid| |done]. intros b g2 [H2 Hb]. apply wp_ret. split; [done|]. destruct b; [|done].
  intros p [= <-]. auto.
Qed.

Lemma wp_locate_template src resp g : here g → (∀ h, pget resp "child_host_pid" = Ok h → h = JNull ∨ h = JInt X) →
  wp (locate_template ev src v resp) finds any g.
Proof.
  intros Hg Hh. unfold locate_template. apply wp_bind, wp_lift. destruct (pget resp "mode") as [mode|]; [|done].
  apply wp_bind, wp_lift. destruct (pget resp "child_host_pid") as [hint|]; [|done]. specialize (Hh hint eq_refl). cbv zeta.
  apply wp_bind, (wp_mono _ finds _ any).
  { destruct Hh as [->| ->]; [by apply wp_ret|]. simpl. case_bool_decide; [by apply wp_ret|]. apply wp_bind, (wp_mono _ (fun _ => here) _ any).
    - destruct (is_string mode _); [|by apply wp_ret]. apply wp_bind. eapply wp_mono; [by apply wp_valid| |done]. intros b g1 [H1 _]. by apply wp_ret.
    - intros [] g1 H1; [by apply wp_ret|]. apply wp_bind. eapply wp_mono; [by apply wp_is_dir| |done]. intros [] g2 H2; apply wp_ret; (split; [done|]); [by intros p [= <-]|done].
    - done. }
  2: done. intros c1 g1 [H1 Hc1]. apply wp_bind, wp_lift. destruct (pget resp "helper") as [helper|]; [|done].
  apply wp_bind, (wp_mono _ finds _ any); [|clear c1 g1 H1 Hc1|done].
  { destruct c1 as [c1|]; [by apply wp_ret|]. destruct helper as [| |hn| | | |]; try by apply wp_ret. destruct (_ && _); [|by apply wp_ret].
    apply wp_bind. eapply wp_mono; [by apply keeps_find_child| |done]. intros [h|] g2 H2; [|by apply wp_ret].
    apply wp_bind. eapply wp_mono; [by apply keeps_valid| |done]. intros [] g3 H3; [|by apply wp_ret]. simpl.
    apply wp_checked. eapply wp_mono; [by apply keeps_find_child|done|done]. }
  intros c2 g2 [H2 Hc2]. apply wp_bind. unfold wp at 1, the_pool. rewrite (Hpool g2 H2). apply wp_bind, (wp_mono _ finds _ any); [|clear c2 g2 H2 Hc2|done].
  { destruct c2 as [c2|]; [by apply wp_ret|]. destruct (reaper_pid pl); [|by apply wp_ret]. destruct (is_string mode _); [|by apply wp_ret].
    apply wp_checked. eapply wp_mono; [by apply keeps_find_child|done|done]. }
  intros c3 g3 [H3 Hc3]. destruct c3; [by apply wp_ret|by apply wp_translate].
Qed.
End locate.

(** ** Forking from a template *)

Lemma line_of_inj i j : line_of i = line_of j → plain i = true → plain j = true → i = j.
Proof.
  intros H Hi Hj. assert (dumps i = dumps j) as Hd'.
  { pose proof (split_line_app (dumps i) "" (one_line_dumps i)) as H1. pose proof (split_line_app (dumps j) "" (one_line_dumps j)) as H2.
    unfold line_of in H. rewrite H in H1. congruence. }
  pose proof (loads_dumps i Hi) as H1. rewrite Hd', (loads_dumps j Hj) in H1. by injection H1.
Qed.
Lemma field_item j k v : field j k v → v ≠ JNull → pitem j k = Ok v.
Proof.
  unfold field, pget, pget_or, pitem. destruct j as [| | | | | |f]; try done. destruct (dget k f); [done|]. by intros [= <-].
Qed.

Lemma wp_write_fork Tk pl data g : (String.length data <= 4096)%nat → on Tk (PNone "") true pl g →
  wp (write_in ev data) (fun _ => on Tk (PNone data) true pl) any g.
Proof.
  intros Hlen Hon. unfold write_in. eapply wp_call; [done|]. intros t s sch Hf Ho. destruct (t_fail t); [done|].
  destruct (quiet_empty _ (PNone "") _ _ (or_introl eq_refl) Hf) as (_ & _ & Hfi). apply from_steady in Hf as HI; [|apply quiet_steady; by left].
  apply leb_correct in Hlen as ->. destruct (stake_all (String.length data) data (le_n _)) as [Hs _]. rewrite Hs, Hfi.
  split; [|done|done]. apply from_now. destruct HI as [? ? ? ? ? ? ? _]. by split.
Qed.

Lemma wake Tk T m K j outb s : Inv Tk (PNone (line_of j)) outb s → out_open s = true → Tk !! T = Some m → command K j →
  (String.length (line_of j) <= 4096)%nat → Inv Tk (PWake K j T m) outb (signal_proc SIGCONT T s).
Proof.
  intros HI Hop HT Hc Hlen. pose proof (inv_facts _ _ _ _ _ _ HI) as Hfi. simpl in Hfi.
  destruct (inv_tracked _ _ _ _ _ _ HI T m HT) as (t & Ht & Hst & Hm); [set_solver|]. simpl. rewrite Ht.
  assert (deliver SIGCONT t = set_cont true (TemplateSys.set_state Running t)) as Hdel.
  { unfold deliver. destruct Hst as (_ & [[-> _]|[-> _]]); done. }
  split; simpl.
  - eapply base_put; [apply HI|done|..]; by rewrite Hdel.
  - intros p a Ha Hp. rewrite lookup_insert_ne in Ha by set_solver. apply (inv_rest _ _ _ _ _ _ HI p); [done|set_solver].
  - intros T' m' HT' Hn. apply at_put_ne; [set_solver|]. apply (inv_tracked _ _ _ _ _ _ HI); [done|set_solver].
  - intros p Hp. set_solver.
  - intros m' Hm'. congruence.
  - apply HI.
  - done.
  - split_and!; try done. apply at_put_eq. rewrite Hdel. split; [done|]. destruct Hst as (Hb & [[Hs (res & Hq)]|[Hs (res & q & Hq & Hset)]]).
    + left. split_and!; [done..|]. exists res. by left.
    + right. split; [done|]. right. split; [done|]. exists res, q. done.
Qed.

Definition fork_command (fixed : option Z) : json := fork_payload ev false fixed.
Lemma fork_command_ok fixed : command KFork (fork_command fixed).
Proof. unfold fork_command, fork_payload. destruct Hev as [-> _]. apply c_fork. Qed.
(** The command fits in [PIPE_BUF] bytes, which a pipe takes whole. *)
Definition atomic (fixed : option Z) : Prop := (String.length (line_of (fork_command fixed)) <= 4096)%nat.

Lemma wp_dispatch Tk T m fixed pl g : atomic fixed → Tk !! T = Some m → ∀ b, on Tk (PNone "") b pl g →
  wp (dispatch_fork ev T false fixed)
     (fun sent g' => sent = true → on Tk (PWake KFork (fork_command fixed) T m) true pl g') any g.
Proof.
  intros Hlen HT b Hon. assert (quiet (PNone "")) as Hq by by left. unfold dispatch_fork.
  apply wp_bind. eapply wp_mono; [by eapply wp_drain| |done]. intros [] g1 H1.
  apply wp_bind. eapply wp_mono; [by eapply wp_drain_commands| |done]. intros [] g2 H2.
  apply wp_bind. eapply wp_mono; [by eapply wp_opened| |done]. intros opened g3 H3. destruct (negb opened); [by apply wp_ret|].
  apply wp_bind. eapply wp_mono; [eapply (wp_write_fork Tk pl); [exact Hlen|exact H3]| |done]. intros n g4 H4.
  apply wp_try, wp_bind. unfold os_kill. eapply wp_call; [exact H4|]. intros t s sch Hf Ho.
  apply from_steady in Hf as HI; [|intros ? He; inversion He].
  assert (Inv Tk (PWake KFork (fork_command fixed) T m) (out_buf pl) (signal_proc SIGCONT T s)) as HW
    by (apply wake; auto using fork_command_ok).
  destruct (inv_tracked _ _ _ _ _ _ HI T m HT) as (t' & Ht & _); [set_solver|]. rewrite Ht. apply wp_ret. intros _.
  split; [by apply from_now|intros _; change (out_open (signal_proc SIGCONT T s) = true); rewrite signal_proc_open; by apply Ho|done].
Qed.

(** What can have been said to a request. *)
Lemma reach_fork (j : json) T (m : V) ph l : rtc edge (PWake KFork j T m) ph → said ph l →
  refusal l ∨ ∃ X v, ph = PForked T X v m ∧ ∃ w, (1 < w)%Z ∧ fork_reply w X v l.
Proof.
  intros H. assert (ph = PWake KFork j T m ∨ ph = PWork KFork T m ∨ ph = PFailed T ∨
    ∃ X v, ph = PFork T X v m ∨ ph = PForked T X v m) as Hph.
  { revert ph H. apply rtc_ind_r; [by left|]. intros ph1 ph2 _ He [->|[->|[->|(X & v & [->| ->])]]]; inversion He; subst; eauto 10. }
  destruct Hph as [->|[->|[->|(X & v & [->| ->])]]]; simpl; try done; [by left|]. right. eauto.
Qed.

(** The child a fork reply is about. *)
Lemma forked_names Tk W X v m outb s : Inv Tk (PForked W X v m) outb s → base d s ∧ at_proc s X (fun a => inner a = v).
Proof.
  intros HI. split; [apply HI|]. destruct (inv_facts _ _ _ _ _ _ HI) as (_ & _ & _ & HX). eapply at_mono; [|done].
  by intros a (_ & ? & _).
Qed.
Lemma wp_await Tk T m fixed pl g : on Tk (PWake KFork (fork_command fixed) T m) true pl g →
  wp (await_fork ev T None)
     (fun r g' => ∀ src X, r = Some (src, X) → ∃ v pl', finished Tk (PForked T X v m) pl' g' ∧ templates pl' = templates pl) any g.
Proof.
  intros Hon. unfold await_fork. apply wp_bind. eapply wp_mono; [by apply wp_read_response| |done].
  intros [line|] g1; [|intros _; apply wp_bind, wp_mod; by apply wp_ret]. intros (ph & j & Hre & Hfin & -> & Hpl & Hsaid & _).
  rewrite loads_dumps by done. destruct (reach_fork _ _ _ _ _ Hre Hsaid) as [(j' & Hj & Hpl' & Hok)|(X & v & -> & w & Hw & j' & Hj & Hrep)].
  { apply line_of_inj in Hj as <-; [|done..]. apply wp_bind, wp_lift. rewrite Hok. apply wp_bind, wp_mod. simpl. by apply wp_ret. }
  destruct Hrep as ((Hpl' & Hok & _) & Hparent & Hchild & Hhint). apply line_of_inj in Hj as <-; [|done..]. specialize (Hfin I).
  apply wp_bind, wp_lift. rewrite Hok. apply wp_bind. unfold mod_pool. apply wp_mod.
  set (g2 := on_pool _ g1). set (pl2 := TemplatePool.set_meta j (set_out_buf "" pl)).
  assert (finished Tk (PForked T X v m) pl2 g2) as H2.
  { destruct Hfin as [? ? ? ? Hp]. split; try done. unfold g2. simpl. by rewrite Hp. }
  clearbody g2. clear g1 Hfin.
  apply wp_bind, wp_lift. rewrite (field_item _ _ _ Hparent) by done. simpl.
  apply wp_bind, wp_lift. rewrite (field_item _ _ _ Hchild) by done. simpl.
  assert ((w =? 1)%Z = false) as -> by (apply Z.eqb_neq; lia). apply wp_bind, wp_ret.
  apply wp_bind. unfold wp at 1, the_pool. rewrite (fin_pool _ _ _ _ H2).
  apply wp_bind, wp_lift. destruct (pget j "child_host_pid") as [hint|] eqn:Eh; [|done].
  apply wp_bind, wp_lift. destruct (pget j "same_pidns_set_tid") as [same|]; [|done].
  apply wp_bind. eapply wp_mono; [eapply (wp_locate_child X v (finished Tk (PForked T X v m) pl2))| |done].
  - by apply wp_observe_finished.
  - intros g' H'. eapply forked_names, H'.
  - done.
  - unfold hint_ok, field in Hhint. rewrite Eh in Hhint. by destruct Hhint as [[= ->]|[= ->]]; auto.
  - intros [p|] g3 [H3 Hp]; [|by apply wp_ret]. simpl. apply wp_bind, wp_ret, wp_ret. intros src X' [= _ <-]. rewrite (Hp p) by done.
    exists v, pl2. done.
Qed.
Lemma wp_request_fork Tk T m fixed pl b g : atomic fixed → Tk !! T = Some m → on Tk (PNone "") b pl g →
  wp (request_fork ev T None false fixed)
     (fun r g' => ∀ src X, r = Some (src, X) → ∃ v pl', finished Tk (PForked T X v m) pl' g' ∧ templates pl' = templates pl) any g.
Proof.
  intros Hlen HT Hon. unfold request_fork. apply wp_bind. eapply wp_mono; [by eapply wp_dispatch| |done].
  intros [] g1 H1; simpl; [|by apply wp_ret]. eapply wp_mono; [by apply (wp_await Tk T m fixed pl), H1|done|done].
Qed.

(** ** Requests to the active agent *)

(** The active agent [A] between requests, and the registry of the pool. *)
Definition registry (Tk : gmap Z V) (ts : list (string * Z)) : Prop :=
  (∀ sid T, dget sid ts = Some T → is_Some (Tk !! T)) ∧
  (∀ sid1 sid2 T, dget sid1 ts = Some T → dget sid2 ts = Some T → sid1 = sid2).
Record ready (Tk : gmap Z V) (A : Z) g : Prop := {
  rd_inv : Inv Tk (PIdle A) (out_buf (g_pool g)) (g_sys g);
  rd_free : Tk !! A = None;
  rd_registry : registry Tk (templates (g_pool g));
}.
Lemma ready_on Tk A g : ready Tk A g → on Tk (PIdle A) false (g_pool g) g.
Proof. intros [H _ _]. split; [by apply from_now|done|done]. Qed.

Lemma send Tk A K j s outb : Inv Tk (PIdle A) outb s → out_open s = true → Tk !! A = None → command K j → Inv Tk (PSent K j A "") outb s.
Proof.
  intros [? ? ? ? ? ? ? (Hf & a & Ha & Hi)] Hop HA Hc. split; try done. split_and!; [done|by eexists|]. exists a.
  destruct Hi as (? & ? & Hb). rewrite Hb, Hf. done.
Qed.
Lemma wp_write_all Tk K j A pl fuel : ∀ data c g, line_of j = c +:+ data → on Tk (PSent K j A c) true pl g →
  wp (TemplatePool._write_all ev fuel data) (fun _ => on Tk (PSent K j A (line_of j)) true pl) any g.
Proof.
  induction fuel as [|fuel IH]; intros data c g Hl Hon; simpl; (case_bool_decide as Hd'; [apply wp_ret; by rewrite Hl, Hd', string_app_nil_r|]).
  { done. }
  apply wp_bind. unfold write_in. eapply wp_call; [done|]. intros t s sch Hf Ho. set (n := if (_ <=? _)%nat then _ else _).
  destruct (t_fail t); [done|]. apply from_steady in Hf as HI.
  2: { intros ph' He. inversion He. subst. apply Hd'. apply (string_app_inj_l (line_of j)). by rewrite string_app_nil_r. }
  eapply (IH _ (c +:+ stake n data)); [by rewrite string_app_assoc, stake_sdrop|].
  split; [|done|done]. apply from_now. destruct HI as [? ? ? ? ? ? ? (Hc & Hx & a & Ha & Hi & Hb)]. split; try done.
  split_and!; [done|exists (sdrop n data); by rewrite string_app_assoc, stake_sdrop|]. exists a. split; [done|]. split; [done|].
  simpl. by rewrite <-string_app_assoc, Hb.
Qed.
(** A command written to the active agent, and what is read then. *)
Lemma wp_send Tk A K j pl g : command K j → Tk !! A = None → on Tk (PIdle A) true pl g →
  wp (TemplatePool._write_all ev (poll_limit ev) (line_of j)) (fun _ => on Tk (PSent K j A (line_of j)) true pl) any g.
Proof.
  intros Hc HA [Hf Ho Hp]. apply (wp_write_all Tk K j A pl _ _ ""); [done|]. split; [|done|done]. apply from_now, send; auto.
  apply from_steady; [|done]. apply quiet_steady. right. eauto.
Qed.

Lemma reach_stash (j : json) A ph l : rtc edge (PSent KStash j A (line_of j)) ph → said (V:=V) ph l →
  refusal l ∨ ∃ T v m, ph = PStashed A T v m ∧ stash_reply T v l.
Proof.
  intros H. assert (ph = PSent KStash j A (line_of j) ∨ ph = PFailed A ∨ (∃ m, ph = PWork KStash A m ∨ ∃ H, ph = PWait A H m) ∨
    ∃ T v m, ph = PStash A T v m ∨ ph = PStashed A T v m ∨ ∃ H, ph = PWait2 A H T v m) as Hph.
  { revert ph H. apply rtc_ind_r; [by left|]. intros ph1 ph2 _ He [->|[->|[(m & [->|[H ->]])|(T & v & m & [->|[->|[H ->]]])]]]; inversion He; subst; eauto 12. }
  destruct Hph as [->|[->|[(m & [->|[H0 ->]])|(T & v & m & [->|[->|[H0 ->]]])]]]; simpl; try done; [by left|]. right. eauto 6.
Qed.
Lemma reach_pause (j : json) A ph l : rtc edge (PSent KPause j A (line_of j)) ph → said (V:=V) ph l →
  refusal l ∨ ∃ m, ph = PPaused A m.
Proof.
  intros H. assert (ph = PSent KPause j A (line_of j) ∨ ph = PFailed A ∨ ∃ m, ph = PWork KPause A m ∨ ph = PPaused A m) as Hph.
  { revert ph H. apply rtc_ind_r; [by left|]. intros ph1 ph2 _ He [->|[->|(m & [->| ->])]]; inversion He; subst; eauto 12. }
  destruct Hph as [->|[->|(m & [->| ->])]]; simpl; try done; [by left|]. right. eauto.
Qed.

(** ** Stashing *)

Lemma stashed_names Tk W T v m outb s : Inv Tk (PStashed W T v m) outb s → base d s ∧ at_proc s T (fun a => inner a = v).
Proof.
  intros HI. split; [apply HI|]. destruct (inv_facts _ _ _ _ _ _ HI) as (_ & _ & _ & HT). eapply at_mono; [|done]. by intros a (_ & ? & _).
Qed.
Lemma stash_command setsid clear fixed : command KStash (stash_payload false setsid clear fixed None).
Proof. apply c_stash. Qed.

Lemma wp_stash Tk A sid setsid clear fixed g : ready Tk A g →
  wp (request_stash_template ev A (Some sid) (Some false) setsid clear fixed None)
     (fun r g' => ∀ T, r = Some T → ∃ v m pl', finished Tk (PStashed A T v m) pl' g' ∧ templates pl' = dset sid T (templates (g_pool g))) any g.
Proof.
  intros Hr. pose proof (ready_on _ _ _ Hr) as Hon. set (pl := g_pool g) in *.
  assert (quiet (PIdle A)) as Hq by (right; eauto). unfold request_stash_template.
  apply wp_bind. eapply wp_mono; [by eapply wp_drain| |done]. intros [] g1 H1.
  apply wp_bind. eapply wp_mono; [by eapply wp_drain_commands| |done]. intros [] g2 H2. simpl.
  apply wp_bind. eapply wp_mono; [by eapply wp_opened| |done]. intros opened g3 H3. destruct (negb opened); [by apply wp_ret|].
  apply wp_bind. eapply wp_mono; [eapply (wp_send Tk A KStash _ pl); [apply stash_command|exact (rd_free _ _ _ Hr)|exact H3]| |done]. intros [] g4 H4.
  apply wp_bind. eapply wp_mono; [by apply wp_read_response| |done]. intros [line|] g5; [|intros _; by apply wp_ret].
  intros (ph & j & Hre & Hfin & -> & Hpl & Hsaid & _). rewrite loads_dumps by done.
  destruct (reach_stash _ _ _ _ Hre Hsaid) as [(j' & Hj & Hpl' & Hok)|(T & v & m & -> & j' & Hj & (Hpl' & Hok & mode & Hmode & Hmem) & Hchild & Hhint)];
    (apply line_of_inj in Hj as <-; [|done..]).
  { apply wp_bind, wp_lift. rewrite Hok. by apply wp_ret. }
  specialize (Hfin I).
  apply wp_bind, wp_lift. rewrite Hok. simpl. apply wp_bind, wp_lift. rewrite (field_item _ _ _ Hchild) by done. simpl.
  apply wp_bind, wp_lift. rewrite Hmode. simpl. rewrite bool_decide_false.
  2: { intros ->. unfold ordinary_stash in Hmem. set_solver. }
  set (pl2 := set_out_buf "" pl) in *.
  apply wp_bind. eapply wp_mono; [eapply (wp_locate_template pl2 T v (finished Tk (PStashed A T v m) pl2))| |done].
  - by apply wp_observe_finished.
  - by intros g' [].
  - intros g' H'. eapply stashed_names, H'.
  - done.
  - intros h Hh. unfold hint_ok, field in Hhint. rewrite Hh in Hhint. by destruct Hhint as [[= ->]|[= ->]]; auto.
  - intros [p|] g6 [H6 Hp]; [|by apply wp_ret]. rewrite (Hp p) by done. case_bool_decide; [by apply wp_ret|].
    apply wp_bind. unfold remember, mod_pool. apply wp_mod, wp_ret. intros T' [= <-]. exists v, m, (set_templates (dset sid T (templates pl)) pl2).
    split; [|done]. destruct H6 as [? ? ? ? Hpool]. split; try done. simpl. by rewrite Hpool.
Qed.

(** ** Between requests again *)

Lemma forked_ready Tk W X v m pl g : finished Tk (PForked W X v m) pl g → registry Tk (templates pl) → ready Tk X g ∧ Tk !! X = None.
Proof.
  intros [HI Hb Ho Hop Hp] Hreg. assert (Tk !! X = None) as HX by (apply (inv_news _ _ _ _ _ _ HI); set_solver).
  split; [|done]. split; [|done|by rewrite Hp]. rewrite Hp, Hb. destruct HI as [? ? ? ? ? ? ? (Hf & _ & _ & (a & Ha & Hi & _))]. split; try done.
  - set_solver.
  - left. by rewrite Ho.
  - split; [done|]. by exists a.
Qed.
Lemma stashed_ready Tk W T v m pl g : finished Tk (PStashed W T v m) pl g → Tk !! W = None → registry (<[T := m]> Tk) (templates pl) →
  ready (<[T := m]> Tk) W g ∧ Tk !! T = None.
Proof.
  intros [HI Hb Ho Hop Hp] HW Hreg. assert (Tk !! T = None) as HT by (apply (inv_news _ _ _ _ _ _ HI); set_solver).
  split; [|done]. destruct HI as [? ? Htr ? ? ? ? (Hf & Hne & HWi & HTn)]. split; [|by rewrite lookup_insert_ne|by rewrite Hp].
  rewrite Hp, Hb. split; try done.
  - intros T' m' HT' Hn. apply lookup_insert_Some in HT' as [[<- <-]|[_ HT']]; [|by apply Htr].
    eapply at_mono; [|done]. by intros a [? _].
  - set_solver.
  - left. by rewrite Ho.
Qed.

(** ** Pausing for a checkpoint *)

Definition halted (a : proc V) : Prop := p_state a = Stopped.
Lemma halted_stays Tk W m o p s : Inv Tk (PPaused W m) "" s → at_proc s W halted → at_proc (astep ev o p s) W halted.
Proof.
  intros HI (w & Hw & Hs). pose proof (inv_base _ _ _ _ _ _ HI) as Hb. destruct (procs s !! p) as [a|] eqn:Ha.
  2: { exists w. unfold astep. by rewrite Ha. }
  destruct (decide (p = W)) as [->|Hn]. { exists w. unfold astep. rewrite Hw, Hs. done. }
  assert (passive a) as Hp by (eapply (inv_rest _ _ _ _ _ _ HI); [done|set_solver]).
  destruct (proj1 Hb p a Ha) as (_ & _ & Hi & _). destruct Hp as [Hp|Hp].
  - destruct (settle_step ev o s p a) as [->|(a' & -> & _)]; [done|done|lia|by exists w|]. apply at_put_ne; [done|]. by exists w.
  - destruct (exits_step ev o s p a) as [->|[-> _]]; [done..|by exists w|].
    eapply at_adopted; [by eapply end_proc_adopted| |by exists w]. by intros.
Qed.
Lemma resume Tk W m s : Inv Tk (PPaused W m) "" s → fifo_out s = "" → at_proc s W halted → Inv Tk (PIdle W) "" (signal_proc SIGCONT W s).
Proof.
  intros [Hb Hr Ht Hnews Hh Hout Hop (Hf & w & Hw & (Hbuf & Hst) & Hm)] Hfo (w' & Hw' & Hs). simplify_eq. unfold halted in Hs.
  destruct Hst as [[_ (res & Hq)]|[Hs' _]]; [|congruence].
  assert (deliver SIGCONT w = set_cont true (TemplateSys.set_state Running w)) as Hdel by (unfold deliver; by rewrite Hs).
  simpl. rewrite Hw, Hdel. split; simpl.
  - by eapply base_put.
  - intros p a Ha Hp. rewrite lookup_insert_ne in Ha by set_solver. apply (Hr p); [done|set_solver].
  - intros T m' HT Hn. apply at_put_ne; [set_solver|]. apply Ht; [done|set_solver].
  - set_solver.
  - done.
  - left. by rewrite Hfo.
  - done.
  - split; [done|]. apply at_put_eq. unfold idler. simpl. by rewrite Hq.
Qed.

Lemma wp_await_stopped Tk A m pl fuel : ∀ g, finished Tk (PPaused A m) pl g →
  wp (await_stopped ev fuel A) (fun _ g' => finished Tk (PPaused A m) pl g' ∧ at_proc (g_sys g') A halted) any g.
Proof.
  induction fuel as [|fuel IH]; intros g Hg; simpl; apply wp_bind; unfold proc_state; (eapply (wp_observe_finished Tk (PPaused A m) pl); [done|done|]);
    intros g' Hg'; destruct (procs (g_sys g') !! A) as [a|] eqn:Ea; try done; destruct (p_state a) eqn:Es; simpl; try done.
  - apply wp_ret. split; [done|]. by exists a.
  - by apply IH.
  - apply wp_ret. split; [done|]. by exists a.
Qed.

Lemma wp_pause Tk A token g : ready Tk A g → is_ascii token = true →
  wp (quiesce_for_checkpoint ev A token (mret tt)) (fun _ g' => ready Tk A g' ∧ templates (g_pool g') = templates (g_pool g)) any g.
Proof.
  intros Hr Htok. pose proof (ready_on _ _ _ Hr) as Hon. remember (g_pool g) as pl eqn:Epl.
  assert (quiet (PIdle A)) as Hq by (right; eauto). unfold quiesce_for_checkpoint.
  apply wp_bind. eapply wp_mono; [by eapply wp_drain| |done]. intros [] g1 H1.
  apply wp_bind. eapply wp_mono; [by eapply wp_drain_commands| |done]. intros [] g2 H2.
  apply wp_bind. eapply wp_mono; [by eapply wp_open_in| |done]. intros [] g3 H3.
  apply wp_bind. eapply wp_mono; [eapply (wp_send Tk A KPause _ pl); [by apply c_pause|exact (rd_free _ _ _ Hr)|exact H3]| |done]. intros [] g4 H4.
  apply wp_bind. eapply wp_mono; [by apply wp_read_response| |done]. intros [line|] g5; [|done].
  intros (ph & j & Hre & Hfin & -> & Hpl & Hsaid & _). rewrite loads_dumps by done. apply wp_bind, wp_lift.
  destruct (reach_pause _ _ _ _ Hre Hsaid) as [(j' & Hj & Hpl' & Hok)|[m ->]].
  { apply line_of_inj in Hj as <-; [|done..]. apply wp_bind, wp_lift. rewrite Hok. apply wp_bind, wp_lift. by destruct (pget j "token"). }
  specialize (Hfin I). apply wp_bind, wp_lift. destruct (pget j "ok") as [good|]; [|done].
  apply wp_bind, wp_lift. destruct (pget j "token") as [tok|]; [|done]. destruct (negb _); [done|].
  apply wp_bind. eapply wp_mono; [by apply wp_await_stopped| |done]. intros [] g6 [H6 Hs6].
  apply wp_finally, wp_ret. apply wp_try. unfold os_kill.
  eapply (wp_call_finished Tk (PPaused A m) _ (fun s => at_proc s A halted)); [done| |done|done|].
  { intros o p s. apply halted_stays. }
  intros t s sch [HI Hb Ho Hop Hp] Hs. simpl in *. destruct Hs as (a & Ha & Hsa). rewrite Ha.
  split; [|done]. split; [|exact (rd_free _ _ _ Hr)|].
  - assert (at_proc s A halted) as Hs' by by exists a. pose proof (resume _ _ _ _ HI Ho Hs') as Hres. simpl in Hres. by rewrite Ha in Hres.
  - rewrite Epl in *. apply (rd_registry _ _ _ Hr).
Qed.

(** ** Ends of agents and templates *)

Lemma kill_active Tk A s outb : Inv Tk (PIdle A) outb s → Tk !! A = None → Inv Tk (PNone "") outb (end_proc A s).
Proof.
  intros HI HA. destruct (end_proc_other A s) as (Hfi & Hfo & Hoo). pose proof HI as [Hb Hr Ht Hnews Hh Hout Hop (Hf & a & Ha & Hi)].
  pose proof (end_proc_gentle [A] A a s Ha (or_introl (proj2 (list_elem_of_singleton _ _) eq_refl))) as Hg. split; try done.
  - by eapply end_proc_base.
  - intros p b Hpb _. destruct (decide (p = A)) as [->|Hn].
    + rewrite (end_proc_lookup A a), decide_True in Hpb by done. injection Hpb as <-. destruct Hi as (_ & _ & Hbuf).
      right. unfold adopt. case_bool_decide; (split; [done|by left]).
    + specialize (Hg p ltac:(set_solver)). rewrite Hpb in Hg. destruct (procs s !! p) as [c|] eqn:E; [|done].
      apply Hg, (Hr p c E). set_solver.
  - intros T m HT _. assert (T ∉ [A]) by (intros ?%list_elem_of_singleton; congruence). eapply gentle_template; [done|done|by apply Ht].
  - by rewrite Hfo.
  - simpl. by rewrite Hfi.
Qed.
Lemma kill_template Tk A T m s outb : Inv Tk (PIdle A) outb s → Tk !! A = None → Tk !! T = Some m →
  Inv (delete T Tk) (PIdle A) outb (end_proc T s).
Proof.
  intros HI HA HT. destruct (end_proc_other T s) as (Hfi & Hfo & Hoo). pose proof HI as [Hb Hr Htr Hnews Hh Hout Hop (Hf & Hidle)].
  assert (T ≠ A) as Hne by congruence. destruct (Htr T m HT) as (t & Ht & Hst & _); [set_solver|].
  pose proof (end_proc_gentle [T] T t s Ht (or_introl (proj2 (list_elem_of_singleton _ _) eq_refl))) as Hg. split; try done.
  - by eapply end_proc_base.
  - intros p b Hpb Hn'. destruct (decide (p = T)) as [->|Hn].
    + rewrite (end_proc_lookup T t), decide_True in Hpb by done. injection Hpb as <-. destruct Hst as (Hbuf & _).
      right. unfold adopt. case_bool_decide; (split; [done|by left]).
    + specialize (Hg p ltac:(set_solver)). rewrite Hpb in Hg. destruct (procs s !! p) as [c|] eqn:E; [|done].
      by apply Hg, (Hr p c E).
  - intros T' m' [Hn HT']%lookup_delete_Some Hn'. eapply gentle_template; [done|set_solver|by apply Htr].
  - set_solver.
  - by rewrite Hfo.
  - simpl. rewrite Hfi. split; [done|]. eapply at_adopted; [eapply end_proc_adopted; [done|by apply not_eq_sym]| |done]. by intros.
Qed.

(** ** Histories *)

Inductive request :=
  | Stash (sid : string) (setsid clear : bool) (fixed : option Z)
  | Restore (sid : string) (fixed : option Z)
  | Pause (token : string)
  | Discard (sid : string).
Definition failed {A} : M (@gst V) A := mraise RuntimeError "request failed".

(** What the controller does with its active agent [A]; the new active agent.
    A warm restore ends the active agent before the template is woken. *)
Definition serve (A : Z) (r : request) : M (@gst V) Z :=
  match r with
  | Stash sid setsid clear fixed =>
      t ← request_stash_template ev A (Some sid) (Some false) setsid clear fixed None;
      match t with Some _ => mret A | None => failed end
  | Restore sid fixed =>
      t ← get ev sid;
      match t with
      | None => failed
      | Some T => _ ← os_kill ev A SIGKILL;
                  r ← request_fork ev T None false fixed;
                  match r with Some (_, X) => mret X | None => failed end
      end
  | Pause token => _ ← quiesce_for_checkpoint ev A token (mret tt); mret A
  | Discard sid => _ ← discard ev sid; mret A
  end.
Fixpoint serve_all (A : Z) (rs : list request) : M (@gst V) Z :=
  match rs with [] => mret A | r :: rs => A' ← serve A r; serve_all A' rs end.

(** A token is ASCII text, a fork command fits in the pipe. *)
Definition request_ok (r : request) : Prop :=
  match r with Restore _ fixed => atomic fixed | Pause token => is_ascii token = true | _ => True end.
(** Requests that leave the template of [sid] alone. *)
Definition spares (sid : string) (r : request) : Prop :=
  match r with Stash sid' _ _ _ | Discard sid' => sid' ≠ sid | _ => True end.

(** What a request keeps of the registered templates. *)
Definition kept (r : request) (Tk Tk' : gmap Z V) (ts ts' : list (string * Z)) : Prop := ∀ sid T m, spares sid r →
  dget sid ts = Some T → Tk !! T = Some m → dget sid ts' = Some T ∧ Tk' !! T = Some m.

Lemma registry_set Tk ts sid T m : registry Tk ts → Tk !! T = None → registry (<[T := m]> Tk) (dset sid T ts).
Proof.
  intros [H1 H2] HT.
  assert (∀ sid' T', dget sid' (dset sid T ts) = Some T' → (sid' = sid ∧ T' = T) ∨ (sid' ≠ sid ∧ T' ≠ T ∧ dget sid' ts = Some T')) as H.
  { intros sid' T'. destruct (decide (sid' = sid)) as [->|Hn]; [rewrite dget_dset_eq; intros [= ->]; by left|].
    rewrite dget_dset_ne by done. intros Hg. right. split_and!; try done. intros ->. destruct (H1 sid' T Hg). congruence. }
  split.
  - intros sid' T' [[-> ->]|(_ & Hn & Hg)]%H; [by rewrite lookup_insert_eq|]. rewrite lookup_insert_ne by done. by eapply H1.
  - intros s1 s2 T' [[-> ->]|(? & ? & ?)]%H [[-> ?]|(? & ? & ?)]%H; try done; try congruence. by eapply H2.
Qed.

Lemma serve_stash Tk A sid setsid clear fixed g : ready Tk A g →
  wp (serve A (Stash sid setsid clear fixed))
     (fun A' g' => ∃ Tk', ready Tk' A' g' ∧ kept (Stash sid setsid clear fixed) Tk Tk' (templates (g_pool g)) (templates (g_pool g'))) any g.
Proof.
  intros Hr. simpl. apply wp_bind. eapply wp_mono; [by apply wp_stash| |done]. intros [T|] g1 H1; [|done]. apply wp_ret.
  destruct (H1 T eq_refl) as (v & m & pl & Hfin & Hts). pose proof (rd_free _ _ _ Hr) as HA. pose proof (rd_registry _ _ _ Hr) as Hreg.
  assert (Tk !! T = None) as HT by (apply (inv_news _ _ _ _ _ _ (fin_inv _ _ _ _ Hfin)); set_solver).
  destruct (stashed_ready _ _ _ _ _ _ _ Hfin HA) as [Hr' _]; [rewrite Hts; by apply registry_set|].
  exists (<[T := m]> Tk). split; [done|]. rewrite (fin_pool _ _ _ _ Hfin), Hts. intros sid' T' m' Hs Hg Hm. simpl in Hs.
  rewrite dget_dset_ne, lookup_insert_ne by congruence. done.
Qed.

Lemma wp_template Tk A sid g : ready Tk A g →
  wp (get ev sid) (fun r g' => ∀ T, r = Some T → ready Tk A g' ∧ g_pool g' = g_pool g ∧ dget sid (templates (g_pool g)) = Some T) any g.
Proof.
  intros Hr. pose proof (ready_on _ _ _ Hr) as Hon. unfold get. apply wp_bind. eapply wp_the_pool; [done|].
  destruct (dget sid (templates (g_pool g))) as [T|] eqn:E; [|by apply wp_ret]. apply wp_bind. unfold is_dir. eapply wp_observe; [done|].
  intros g1 [Hf _ Hp]. case_bool_decide; [|by apply wp_bind, wp_mod, wp_ret]. apply wp_ret. intros T' [= <-]. split; [|done].
  destruct Hr as [? ? ?]. split; rewrite ?Hp; try done. apply from_steady; [|done]. apply quiet_steady. right. eauto.
Qed.

Lemma ready_idle Tk A outb s : from Tk (PIdle A) outb s → Inv Tk (PIdle A) outb s.
Proof. apply from_steady, quiet_steady. right. eauto. Qed.

Lemma wp_restore Tk A sid fixed g : ready Tk A g → atomic fixed →
  wp (serve A (Restore sid fixed))
     (fun X g' => ready Tk X g' ∧ templates (g_pool g') = templates (g_pool g) ∧
        ∃ T m v, dget sid (templates (g_pool g)) = Some T ∧ Tk !! T = Some m ∧ at_proc (g_sys g') X (new_agent ev v m)) any g.
Proof.
  intros Hr Hat. simpl. apply wp_bind. eapply wp_mono; [by apply wp_template| |done]. intros [T|] g1 H1; [|done].
  destruct (H1 T eq_refl) as (Hr1 & Hp1 & Hsid). clear H1. pose proof (rd_free _ _ _ Hr) as HA. pose proof (rd_registry _ _ _ Hr) as Hreg.
  destruct (proj1 Hreg sid T Hsid) as [m Hm].
  apply wp_bind. unfold os_kill. eapply wp_call; [by apply ready_on|]. intros t s sch Hf _. apply ready_idle in Hf as HI.
  destruct (inv_facts _ _ _ _ _ _ HI) as (_ & a & Ha & _). rewrite Ha.
  apply wp_bind. eapply wp_mono; [eapply (wp_request_fork Tk T m fixed (g_pool g1) false); [done|done|]| |done].
  { split; [|done|done]. apply from_now, kill_active; done. }
  intros [[src X]|] g2 H2; [|done]. destruct (H2 src X eq_refl) as (v & pl & Hfin & Hts). apply wp_ret.
  destruct (forked_ready _ _ _ _ _ _ _ Hfin) as [Hr2 _]; [by rewrite Hts, Hp1|].
  split; [done|]. split; [by rewrite (fin_pool _ _ _ _ Hfin), Hts, Hp1|]. exists T, m, v. split_and!; [done..|].
  by destruct (inv_facts _ _ _ _ _ _ (fin_inv _ _ _ _ Hfin)) as (_ & _ & _ & ?).
Qed.

Lemma serve_discard Tk A sid g : ready Tk A g →
  wp (serve A (Discard sid)) (fun A' g' => ∃ Tk', ready Tk' A' g' ∧ kept (Discard sid) Tk Tk' (templates (g_pool g)) (templates (g_pool g'))) any g.
Proof.
  intros Hr. pose proof (ready_on _ _ _ Hr) as Hon. destruct Hr as [HI HA [Hreg Hinj]]. simpl. apply wp_bind. unfold discard.
  apply wp_bind. eapply wp_the_pool; [done|]. destruct (dget sid (templates (g_pool g))) as [T|] eqn:E.
  2: { apply wp_ret, wp_ret. exists Tk. split; [by split|]. by intros ? ? ?. }
  destruct (Hreg sid T E) as [m Hm]. apply wp_bind. eapply wp_mod_pool; [done|done|]. intros g1 H1.
  apply wp_try. unfold os_kill. eapply wp_call; [done|]. intros t s sch Hf _. apply ready_idle in Hf as HI1.
  destruct (inv_tracked _ _ _ _ _ _ HI1 T m Hm) as (b & Hb & _). { intros ?%list_elem_of_singleton. congruence. }
  rewrite Hb. apply wp_ret. exists (delete T Tk). split.
  - split; simpl.
    + by apply (kill_template Tk A T m).
    + rewrite lookup_delete_None. by right.
    + assert (∀ sid' T', dget sid' (dpop sid (templates (g_pool g))) = Some T' → sid' ≠ sid ∧ dget sid' (templates (g_pool g)) = Some T') as H.
      { intros sid' T' Hg. destruct (decide (sid' = sid)) as [->|Hn]; [by rewrite dget_dpop_eq in Hg|]. rewrite dget_dpop_ne in Hg; auto. }
      split; [intros sid' T' [Hn Hg]%H|intros s1 s2 T' [_ ?]%H [_ ?]%H; by eapply Hinj].
      rewrite lookup_delete_ne; [by eapply Hreg|]. intros <-. apply Hn. by eapply Hinj.
  - intros sid' T' m' Hs Hg Hm'. simpl in *. rewrite dget_dpop_ne by congruence. split; [done|].
    rewrite lookup_delete_ne; [done|]. intros <-. apply Hs. by eapply Hinj.
Qed.

Lemma serve_ready Tk A r g : ready Tk A g → request_ok r →
  wp (serve A r) (fun A' g' => ∃ Tk', ready Tk' A' g' ∧ kept r Tk Tk' (templates (g_pool g)) (templates (g_pool g'))) any g.
Proof.
  intros Hr Hok. destruct r as [sid setsid clear fixed|sid fixed|token|sid].
  - by apply serve_stash.
  - eapply wp_mono; [by apply wp_restore| |done]. intros X g' (Hr' & Hts & _). exists Tk. rewrite Hts. split; [done|]. by intros ? ? ?.
  - simpl. apply wp_bind. eapply wp_mono; [by apply wp_pause| |done]. intros [] g' [Hr' Hts]. apply wp_ret. exists Tk. rewrite Hts. split; [done|]. by intros ? ? ?.
  - by apply serve_discard.
Qed.
Lemma serve_all_ready rs : ∀ Tk A g A' g', ready Tk A g → Forall request_ok rs → serve_all A rs g = (Ok A', g') →
  ∃ Tk', ready Tk' A' g' ∧ ∀ sid T m, Forall (spares sid) rs → dget sid (templates (g_pool g)) = Some T → Tk !! T = Some m →
    dget sid (templates (g_pool g')) = Some T ∧ Tk' !! T = Some m.
Proof.
  induction rs as [|r rs IH]; intros Tk A g A' g' Hr Hok Hrun.
  { injection Hrun as <- <-. exists Tk. auto. }
  apply Forall_cons in Hok as [Hok Hoks]. pose proof (serve_ready Tk A r g Hr Hok) as Hwp. unfold wp in Hwp. simpl in Hrun.
  unfold mbind, M_bind in Hrun. destruct (serve A r g) as [[A1|e] g1]; [|done]. destruct Hwp as (Tk1 & Hr1 & Hk1).
  destruct (IH Tk1 A1 g1 A' g' Hr1 Hoks Hrun) as (Tk2 & Hr2 & Hk2). exists Tk2. split; [done|].
  intros sid T m [Hs Hss]%Forall_cons Hg Hm. destruct (Hk1 sid T m Hs Hg Hm) as [Hg1 Hm1]. by apply Hk2.
Qed.
End spec.
End TemplateRequests.
