(* ===== verification/TemplateSpec.v ===== *)
(** * One active agent, and the memory a warm restore brings back

    Theorems about whole histories of stashes, warm restores, pauses for a
    checkpoint and discards, with a run of each as a witness.

    The pool's fork of an active agent is not among the requests: [dispatch_fork]
    wakes its source after it wrote the command, so a parent that was faster is
    woken again ([two_readers]).  With fresh pid namespaces, which the other
    theorems leave out, no fork succeeds ([fresh_fork_replies_skipped]). *)

From S2P Require Import Prelude Hoare PyStr PyDict PyInt Json JsonText Program Host Template TemplateSys TemplatePool TemplateCmd TemplateInv TemplateRequests.
From Stdlib Require Import Ascii.

Module TemplateSpec.
Import Template TemplateSys TemplatePool TemplateCmd TemplateInv TemplateRequests.

Section theorems.
Context {V : Type} (ev : env).
Implicit Types (s : sys V) (g : @gst V).

(** An agent in its main loop, alone with the FIFOs, and a new pool. *)
Definition launched (A : Z) g : Prop :=
  (∃ a, procs (g_sys g) = {[A := a]} ∧ p_state a = Running ∧ p_ctl a = InLoop ∧ p_buf a = "" ∧ p_unshared a = false ∧
        head (p_chain a) = Some A ∧ (1 < inner a)%Z) ∧
  fifo_in (g_sys g) = "" ∧ fifo_out (g_sys g) = "" ∧ templates (g_pool g) = [] ∧ out_buf (g_pool g) = "".

Lemma launched_ready A g : launched A g → ∃ d, (1 <= d)%nat ∧ ready ev d ∅ A g.
Proof.
  intros [(a & Hps & Hs & Hc & Hb & Hu & Hh & Hi) (Hfi & Hfo & Ht & Hob)]. exists (level a). split.
  { unfold level. destruct (p_chain a); [done|simpl; lia]. }
  assert (∀ p b, procs (g_sys g) !! p = Some b → p = A ∧ b = a) as Hone
    by (intros p b; rewrite Hps, lookup_singleton_Some; by intros [-> ->]).
  split; [|done|].
  - rewrite Hob. split; try done.
    + split; [by intros p b [-> ->]%Hone|]. by intros p q b c [-> ->]%Hone [-> ->]%Hone.
    + intros p b [-> ->]%Hone Hn. exfalso. apply Hn. by apply list_elem_of_singleton.
    + left. by rewrite Hfo.
    + split; [done|]. exists a. rewrite Hps, lookup_singleton_eq. split; [done|]. unfold idler. by rewrite Hc.
  - rewrite Ht. by split.
Qed.

(** Steps of the others do not touch the FIFO, whatever is in it. *)
Definition others_passive (d : nat) (A : Z) s : Prop := base d s ∧ ∀ p a, procs s !! p = Some a → p ≠ A → passive a.
Lemma others_step d A o p s : others_passive d A s → p ≠ A →
  others_passive d A (astep ev o p s) ∧ fifo_in (astep ev o p s) = fifo_in s.
Proof.
  intros [Hb Ho] Hp. destruct (procs s !! p) as [a|] eqn:Ha; [|unfold astep; by rewrite Ha].
  destruct (proj1 Hb p a Ha) as (_ & _ & Hi & _). specialize (Ho p a Ha Hp) as Hpas.
  assert (∀ s', base d s' → gentle [] s s' → others_passive d A s') as Hgentle.
  { intros s' Hb' Hg. split; [done|]. intros q c Hc Hq. specialize (Hg q ltac:(set_solver)). rewrite Hc in Hg.
    destruct (procs s !! q) as [c0|] eqn:E; [|done]. apply Hg. by eapply Ho. }
  destruct Hpas as [Hst|Hl].
  - destruct (settle_step ev o s p a) as [->|(a' & -> & Hsame & Hst')]; [done|done|lia|done|]. split; [|done].
    apply Hgentle; [by eapply base_put; [| |apply Hsame..]|]. eapply gentle_put; [done|]. right. by apply steady_sim.
  - destruct (exits_step ev o s p a) as [->|[-> Hns]]; [done..|]. destruct (end_proc_other p s) as (-> & _). split; [|done].
    apply Hgentle; [by eapply end_proc_base|]. eapply end_proc_gentle; eauto.
Qed.
Lemma others_steps d A l s : others_passive d A s → Forall (fun x => x.1 ≠ A) l → fifo_in (asteps ev l s) = fifo_in s.
Proof.
  intros Ho Hl. revert s Ho. induction Hl as [|[p o] l Hp _ IH]; intros s Ho; [done|].
  destruct (others_step d A o p s Ho Hp) as [Ho' Hf]. change (fifo_in (asteps ev l (astep ev o p s)) = fifo_in s). by rewrite IH, Hf.
Qed.

(** C11: After any history of stashes, warm restores, pauses and discards that
    succeeded, whatever the agents did in between, the process the controller
    takes for the active agent is running, and it is the only one that can take
    anything from the control FIFO: whatever is written there, no steps of the
    other processes read a byte of it. *)
Theorem single_reader A rs g A' g' : env_ok ev → launched A g → Forall (request_ok ev) rs → serve_all ev A rs g = (Ok A', g') →
  ∀ l, let s := asteps ev l (g_sys g') in
    (∃ a, procs s !! A' = Some a ∧ p_state a = Running) ∧
    ∀ c l', Forall (fun x => x.1 ≠ A') l' → fifo_in (asteps ev l' (set_in c s)) = c.
Proof.
  intros Hev Hl Hok Hrun l. destruct (launched_ready A g Hl) as (d & Hd & Hr).
  destruct (serve_all_ready ev d Hev Hd rs ∅ A g A' g' Hr Hok Hrun) as (Tk & [HI _ _] & _).
  apply (settled ev d Hev Hd _ _ _ l) in HI; [|intros ph' He; inversion He]. cbv zeta. split.
  - destruct (inv_facts _ _ _ _ _ _ HI) as (_ & a & Ha & Hs & _). eauto.
  - intros c l' Hl'. apply (others_steps d A'); [|done]. split; [apply HI|]. intros p a Ha Hn.
    apply (inv_rest _ _ _ _ _ _ HI p); [done|]. by intros ->%list_elem_of_singleton.
Qed.

(** C12: A warm restore brings back the memory of the template: the process it
    returns is running and was created with the memory the template of that
    checkpoint had when it was registered, whatever requests about other
    checkpoints came in between. *)
Theorem warm_restore_roundtrip A rs1 rs2 sid fixed g A1 g1 T t A2 g2 X g3 : env_ok ev → launched A g →
  Forall (request_ok ev) rs1 → serve_all ev A rs1 g = (Ok A1, g1) →
  dget sid (templates (g_pool g1)) = Some T → procs (g_sys g1) !! T = Some t →
  Forall (request_ok ev) rs2 → Forall (spares sid) rs2 → serve_all ev A1 rs2 g1 = (Ok A2, g2) →
  atomic ev fixed → serve ev A2 (Restore sid fixed) g2 = (Ok X, g3) →
  ∃ x, procs (g_sys g3) !! X = Some x ∧ p_state x = Running ∧ p_birth x = p_mem t ∧ X ≠ T.
Proof.
  intros Hev Hl Hok1 Hrun1 Hsid Ht Hok2 Hsp Hrun2 Hat Hrun3. destruct (launched_ready A g Hl) as (d & Hd & Hr).
  destruct (serve_all_ready ev d Hev Hd rs1 ∅ A g A1 g1 Hr Hok1 Hrun1) as (Tk1 & Hr1 & _).
  destruct (proj1 (rd_registry _ _ _ _ _ Hr1) sid T Hsid) as [m Hm].
  assert (p_mem t = m) as Hmem.
  { assert (T ≠ A1) as Hne by (intros ->; by rewrite (rd_free _ _ _ _ _ Hr1) in Hm).
    destruct (inv_tracked _ _ _ _ _ _ (rd_inv _ _ _ _ _ Hr1) T m Hm) as (t' & Ht' & _ & Hmt); [|by simplify_eq].
    by intros ->%list_elem_of_singleton. }
  destruct (serve_all_ready ev d Hev Hd rs2 Tk1 A1 g1 A2 g2 Hr1 Hok2 Hrun2) as (Tk2 & Hr2 & Hk2).
  destruct (Hk2 sid T m Hsp Hsid Hm) as [Hsid2 Hm2].
  pose proof (wp_restore ev d Hev Hd Tk2 A2 sid fixed g2 Hr2 Hat) as Hwp. unfold wp in Hwp. rewrite Hrun3 in Hwp.
  destruct Hwp as (Hr3 & _ & T' & m' & v & HT' & Hm' & x & Hx & (Hs & _) & _ & Hb). simplify_eq. exists x. split_and!; try done.
  intros ->. by rewrite (rd_free _ _ _ _ _ Hr3) in Hm2.
Qed.
End theorems.

(** ** Runs *)

Definition demo_env : env := Env false false false 8 false.
(** A step in which a flag is set, the call fails or not and the answer or the
    new pids are as given. *)
Definition orc (b : bool) (n : Z) (mem : nat) (chain : list Z) : oracle nat :=
  Oracle b false (Exn OSError "") n [] "" JNull (Status None None None) mem (hd 0%Z chain) chain 0.
Definition act (p : Z) : Z * oracle nat := (p, orc true 1 0 []).
Definition forks (p : Z) (chain : list Z) : Z * oracle nat := (p, orc true 1 0 chain).
Definition works (p : Z) (mem : nat) : Z * oracle nat := (p, orc false 1 mem []).
Definition quiet_calls (n : nat) : list (@tick nat) := replicate n no_tick.
Definition runs (l : list (Z * oracle nat)) : @tick nat := Tick l false 0.

Definition demo_agent : proc nat := Proc 50 [100; 2]%Z 7 Running InLoop "" 11 false false 11.
Definition demo_start (sched : list (@tick nat)) : @gst nat :=
  Gst sched (Sys {[100%Z := demo_agent]} "" "" false 50) (Pool [] None "" JNull).

(** The agent stashes itself; the helper is 101, the template 102. *)
Definition stash_ticks : list (@tick nat) :=
  quiet_calls 7 ++
  [runs ([act 100; act 100; act 100; forks 100 [101; 3]; forks 101 [102; 4]; act 101; act 101; act 101; act 102; act 101; act 100; act 100])]%Z ++ quiet_calls 6.
(** The agent works on, then the controller goes back: the new agent is 103. *)
Definition restore_ticks : list (@tick nat) :=
  [runs [works 100 22]]%Z ++ quiet_calls 7 ++
  [runs ([act 102; act 102; act 102; forks 102 [103; 5]; act 102; act 102; act 102; act 103; works 103 33])]%Z ++ quiet_calls 3.
Definition demo_requests : list request := [Stash "a" false false None; Restore "a" None].
Lemma demo_launched sched : launched 100 (demo_start sched).
Proof. split; [|done]. exists demo_agent. split_and!; done. Qed.
Lemma demo_ok : Forall (request_ok demo_env) demo_requests.
Proof.
  apply Forall_cons. split; [exact I|]. apply Forall_cons. split; [|apply Forall_nil_2]. apply Nat.leb_le. vm_compute. reflexivity.
Qed.

Lemma single_reader_witness : ∃ g', serve_all demo_env 100 demo_requests (demo_start (stash_ticks ++ restore_ticks)) = (Ok 103%Z, g') ∧
  ∀ l, let s := asteps demo_env l (g_sys g') in
    (∃ a, procs s !! 103%Z = Some a ∧ p_state a = Running) ∧
    ∀ c l', Forall (fun x => x.1 ≠ 103%Z) l' → fifo_in (asteps demo_env l' (set_in c s)) = c.
Proof.
  assert (∃ g', serve_all demo_env 100 demo_requests (demo_start (stash_ticks ++ restore_ticks)) = (Ok 103%Z, g')) as [g' H]
    by (eexists; vm_compute; reflexivity).
  exists g'. split; [exact H|].
  exact (single_reader demo_env 100 demo_requests _ 103 g' (conj eq_refl eq_refl) (demo_launched _) demo_ok H).
Defined.

Lemma warm_restore_roundtrip_witness : ∃ g1 t g3,
  serve_all demo_env 100 [Stash "a" false false None] (demo_start (stash_ticks ++ restore_ticks)) = (Ok 100%Z, g1) ∧
  procs (g_sys g1) !! 102%Z = Some t ∧ serve demo_env 100 (Restore "a" None) g1 = (Ok 103%Z, g3) ∧
  ∃ x, procs (g_sys g3) !! 103%Z = Some x ∧ p_state x = Running ∧ p_birth x = p_mem t ∧ 103%Z ≠ 102%Z.
Proof.
  assert (∃ g1 t g3, serve_all demo_env 100 [Stash "a" false false None] (demo_start (stash_ticks ++ restore_ticks)) = (Ok 100%Z, g1) ∧
    procs (g_sys g1) !! 102%Z = Some t ∧ dget "a" (templates (g_pool g1)) = Some 102%Z ∧
    serve demo_env 100 (Restore "a" None) g1 = (Ok 103%Z, g3)) as (g1 & t & g3 & H1 & Ht & Hsid & H3)
    by (eexists _, _, _; split; [vm_compute; reflexivity|]; split; [vm_compute; reflexivity|]; split; vm_compute; reflexivity).
  exists g1, t, g3. split; [exact H1|]. split; [exact Ht|]. split; [exact H3|].
  refine (warm_restore_roundtrip demo_env 100 [Stash "a" false false None] [] "a" None _ 100 g1 102 t 100 g1 103 g3
            (conj eq_refl eq_refl) (demo_launched _) _ H1 Hsid Ht (Forall_nil_2 _) (Forall_nil_2 _) eq_refl _ H3).
  - apply Forall_cons. split; [exact I|apply Forall_nil_2].
  - apply Nat.leb_le. vm_compute. reflexivity.
Defined.

(** ** Forking an active agent *)

(** The agent carries out the fork before it is sent SIGCONT. *)
Definition race_ticks : list (@tick nat) :=
  quiet_calls 6 ++
  [runs ([act 100; act 100; act 100; forks 100 [103; 5]; act 100; act 100; act 100]);
   runs ([act 100; act 100; act 100; act 103])]%Z.
(** The pool's fork of an agent that is active can leave two processes
    that read the control FIFO: when the agent forks and stops before the pool
    sends it SIGCONT, the signal that was meant to start it wakes it up again
    beside its child. *)
Theorem two_readers : ∃ sched g a b,
  request_fork demo_env 100 (Some "c") false None (demo_start sched) = (Ok (Some (100, 103)%Z), g) ∧
  procs (g_sys g) !! 100%Z = Some a ∧ p_state a = Running ∧ p_ctl a = InLoop ∧
  procs (g_sys g) !! 103%Z = Some b ∧ p_state b = Running ∧ p_ctl b = InLoop.
Proof. exists race_ticks. eexists _, _, _. split; [vm_compute; reflexivity|]. repeat (split; [vm_compute; reflexivity|]). vm_compute. reflexivity. Qed.

(** ** Forking into a fresh namespace *)

(** Every line a program can write, whatever its calls answer. *)
Fixpoint all_replies {A} (P : json → Prop) (p : Template.P A) : Prop :=
  match p with
  | Ret _ | Raise _ => True
  | Vis c k =>
      match c in agE R return (result R → Prop) → Prop with
      | Respond l => fun rec => (∃ j, l = line_of j ∧ P j) ∧ ∀ r, rec r
      | _ => fun rec => ∀ r, rec r
      end (fun r => all_replies P (k r))
  end.
Lemma replies_bind {A B} P (m : Template.P A) (k : A → Template.P B) :
  all_replies P m → (∀ a, all_replies P (k a)) → all_replies P (m ≫= k).
Proof.
  intros Hm Hk. induction m as [a|e|R c k' IH]; [apply Hk|done|]. simpl in *.
  destruct c; simpl in *; try (intros r; apply IH, Hm). destruct Hm as [Hj Hm]. split; [done|]. intros r. apply IH, Hm.
Qed.
Lemma replies_try {A} P p (m : Template.P A) h : all_replies P m → (∀ e, all_replies P (h e)) → all_replies P (ptry p m h).
Proof.
  intros Hm Hh. induction m as [a|e|R c k' IH]; [done|simpl; by destruct (p e)|]. simpl in *.
  destruct c; simpl in *; try (intros r; apply IH, Hm). destruct Hm as [Hj Hm]. split; [done|]. intros r. apply IH, Hm.
Qed.
Lemma replies_catch {A} P p (m : Template.P A) : all_replies P m → all_replies P (pcatch p m).
Proof. intros Hm. unfold pcatch. apply replies_try; [|done]. by apply replies_bind. Qed.
Lemma replies_result {A} P (r : result A) : all_replies P (of_result r : Template.P A).
Proof. by destruct r. Qed.
Lemma replies_known {A B} P (a : A) (k : A → Template.P B) : all_replies P (k a) → all_replies P (of_result (Ok a) ≫= k).
Proof. done. Qed.
Lemma replies_when P b (m : Template.P unit) : all_replies P m → all_replies P (pwhen b m).
Proof. by destruct b. Qed.

(** A reply of success without a mode. *)
Definition unmarked (j : json) : Prop := ∀ v, pget j "ok" = Ok v → truth v = true → pget j "mode" = Ok JNull.
Lemma respond_unmarked ok fields : (ok = true → dget "mode" fields = None) → all_replies unmarked (respond ok fields).
Proof.
  intros H. split; [|intros []; done]. eexists. split; [done|]. intros v. unfold pget, pget_or. simpl. intros [= <-]. simpl.
  intros ->. by rewrite H.
Qed.
Ltac replies_step :=
  match goal with
  | |- all_replies _ (_ ≫= _) => apply replies_bind; [|intros ?]
  | |- all_replies _ (pcatch _ _) => apply replies_catch
  | |- all_replies _ (ptry _ _ _) => apply replies_try; [|intros ?]
  | |- all_replies _ (pwhen _ _) => apply replies_when
  | |- all_replies _ (of_result _) => apply replies_result
  | |- all_replies _ (respond _ _) => apply respond_unmarked; done
  | |- all_replies _ (trigger _) => simpl; intros []; exact I
  | |- all_replies _ (match ?x with _ => _ end) => destruct x
  | |- all_replies _ (let '(_, _) := ?x in _) => destruct x
  | |- all_replies _ (Ret _) => exact I
  | |- all_replies _ (Raise _) => exact I
  end.
Ltac replies := repeat replies_step.

Lemma stop_unmarked : all_replies unmarked stop_resumed.
Proof. unfold stop_resumed, stop_self. replies. Qed.
Lemma setsid_unmarked : all_replies unmarked quiet_setsid.
Proof. unfold quiet_setsid. replies. Qed.
Lemma clear_unmarked : all_replies unmarked _clear_self_soft_dirty.
Proof. unfold _clear_self_soft_dirty. replies. Qed.
Lemma nspids_unmarked pid : all_replies unmarked (Template._nspids_for_pid pid).
Proof. unfold Template._nspids_for_pid. replies. Qed.
Lemma clone_parent_unmarked : all_replies unmarked fork_clone_parent.
Proof.
  unfold fork_clone_parent, exit. replies; first [apply setsid_unmarked|apply clear_unmarked|apply nspids_unmarked|apply stop_unmarked].
Qed.
Lemma own_child_unmarked pid : all_replies unmarked (_find_own_child_host_pid pid).
Proof.
  unfold _find_own_child_host_pid. replies. match goal with |- all_replies _ (own_child_loop ?l _) => induction l as [|x l IH] end; [done|].
  cbn [own_child_loop]. apply replies_bind; [unfold own_child_is, Template._pid_state; replies|]. intros []; [done|exact IH].
Qed.
Lemma read_line_unmarked fuel fd acc : all_replies unmarked (read_line fuel fd acc).
Proof.
  revert acc. induction fuel as [|fuel IH]; intros acc; [done|]. simpl. intros r. apply replies_bind; [apply replies_result|].
  intros chunk. replies. apply IH.
Qed.
Lemma fresh_helper_unmarked rfd wfd : all_replies unmarked (fresh_helper rfd wfd).
Proof.
  unfold fresh_helper, exit, _self_nspids. replies; try (simpl; intros []; try done; by intros []). all: try apply setsid_unmarked.
Qed.
Lemma fresh_fork_unmarked ev : all_replies unmarked (fork_fresh_helper ev).
Proof.
  unfold fork_fresh_helper. apply replies_bind; [replies|]. intros [rfd wfd]. apply replies_bind; [replies|]. intros helper.
  destruct (helper =? 0)%Z; [apply fresh_helper_unmarked|]. apply replies_bind; [replies|intros _].
  apply replies_bind; [apply read_line_unmarked|]. intros text. apply replies_bind; [replies|intros _]. apply replies_bind; [replies|intros _].
  destruct (loads (first_line text)) as [resp|e]; [|by replies]. destruct (pget resp "ok") as [good|e] eqn:E; [|done].
  apply (replies_known unmarked good). destruct (truth good) eqn:Et; cbn [negb]; [replies; apply stop_unmarked|].
  split; [|intros []; done]. eexists. split; [done|]. intros v Hv Ht. congruence.
Qed.
Lemma clone3_unmarked ev : all_replies unmarked (fork_clone3 ev).
Proof.
  unfold fork_clone3, _pidfd_nspids.
  replies; first [apply setsid_unmarked|apply clear_unmarked|apply own_child_unmarked|apply stop_unmarked|apply fresh_fork_unmarked|idtac].
Qed.

(** C13: With fresh pid namespaces a warm fork is never noticed: whatever its
    calls answer, no reply of success the agent writes carries a mode, and the
    pool, which waits for the modes of forks, skips a reply without one. *)
Theorem fresh_fork_replies_skipped ev msg : env_fresh_pidns ev = true → _fixed_active_pid msg = Ret None →
  all_replies unmarked (fork_active ev msg) ∧
  ∀ j, unmarked j → plain j = true → pget j "ok" = Ok (JBool true) → wanted fork_modes (dumps j) = Ok false.
Proof.
  intros He Hf. split.
  - unfold fork_active, _fresh_pidns_enabled, flag. rewrite Hf. apply (replies_known unmarked None).
    destruct (pget msg "fresh_pidns") as [v|e]; [|done]. cbn [mbind prog_bind pbind of_result]. rewrite He, orb_true_r.
    apply replies_bind; [replies|]. intros [].
    + apply clone_parent_unmarked.
    + destruct (env_clone3 ev); [apply clone3_unmarked|apply fresh_fork_unmarked].
  - intros j Hu Hp Hok. specialize (Hu _ Hok eq_refl). unfold wanted. rewrite loads_dumps, Hu by done. simpl.
    destruct (pget_ok j "ok" (JBool true) Hok) as [f ->]. unfold pget, pget_or in Hok. by destruct (dget "ok" f) as [v|]; simplify_eq.
Qed.
Lemma fresh_fork_replies_skipped_witness :
  all_replies unmarked (fork_active (Env true false false 8 true) (fork_payload (Env true false false 8 true) true None)) ∧
  wanted fork_modes (dumps (JObj [("ok", JBool true); ("parent", JInt 2); ("child", JInt 1); ("fresh_pidns", JBool true)])) = Ok false.
Proof.
  destruct (fresh_fork_replies_skipped (Env true false false 8 true) (fork_payload (Env true false false 8 true) true None) eq_refl eq_refl) as [H1 H2].
  split; [exact H1|]. apply H2; [|reflexivity|reflexivity]. intros v _ _. reflexivity.
Defined.
End TemplateSpec.
