(* ===== verification/Sim.v ===== *)
(** * A concrete host

    An executable [Host] over the state of [sim_kernel]: every process is
    alive, every image intact, every dump already finished.  Concrete runs of
    the model use it, and its existence shows that the laws of the interfaces
    can hold together. *)

From S2P Require Import Prelude Hoare PyStr PyDict Resources PageStats Registry Overlay RootOverlay Host.
From Stdlib Require Import Ascii.

Module Sim.
Import RootOverlay.

(** The id drawn depends on how many layer directories there are. *)
Definition sim_uuid (s : simw) : string := "id" +:+ pretty (size (k_dirs s.1)).

(** The /proc files of two workers stopped at their gates (pid 50, with the
    disposable copy 62 among its children, and pid 52, with a dead child only)
    and of a frozen disposable copy that is init of its own namespace (pid 62);
    other files hold a pid. *)
Definition nl : string := String (chr 10) "".
Definition sim_stat (pid st : string) : string :=
  pid +:+ " (python3) " +:+ st +:+ " 1 50 50 0 -1 4194560 1 0 0 0 1 1 0 0 20 0 1 0 777 0 0".
Definition worker_file (path name : string) : bool :=
  bool_decide (path = "/proc/50" +:+ name) || bool_decide (path = "/proc/52" +:+ name).
Definition sim_read (path : string) : string :=
  if bool_decide (path = "/proc/50/stat") then sim_stat "50" "T"
  else if bool_decide (path = "/proc/50/task/50/children") then "62 63 "
  else if bool_decide (path = "/proc/52/stat") then sim_stat "52" "T"
  else if bool_decide (path = "/proc/52/task/52/children") then "63 "
  else if bool_decide (path = "/proc/63/stat") then sim_stat "63" "Z"
  else if worker_file path "/fdinfo/3" then "pos: 0" +:+ nl +:+ "flags: 02004002" +:+ nl +:+ "mnt_id: 14" +:+ nl
  else if worker_file path "/fdinfo/0" then "pos: 0" +:+ nl +:+ "flags: 0100002" +:+ nl +:+ "mnt_id: 15" +:+ nl
  else if worker_file path "/maps" then
    "5500-5600 r-xp 00000000 08:01 11 /usr/bin/python3" +:+ nl +:+
    "7f00-7f10 r--s 00000000 08:01 12 /usr/lib/gconv/gconv-modules.cache" +:+ nl +:+
    "7fff-8fff rw-p 00000000 00:00 0 [stack]" +:+ nl
  else if bool_decide (path = "/proc/61/stat") then sim_stat "61" "T"
  else if bool_decide (path = "/proc/62/stat") then sim_stat "62" "T"
  else if bool_decide (path = "/proc/62/status") then "Name: python3" +:+ nl +:+ "NSpid:" +:+ String (chr 9) "62" +:+ String (chr 9) "1" +:+ nl
  else "51".
Definition sim_readlink (path : string) : string :=
  if worker_file path "/cwd" then "/"
  else if worker_file path "/exe" then "/usr/bin/python3"
  else if worker_file path "/fd/0" then "/dev/null"
  else if worker_file path "/fd/3" then "/tmp/agent.in"
  else "pid:[4026531836]".
Definition sim_listdir (path : string) : list string :=
  if bool_decide (path = "/proc/52/task") then ["52"] else
  if bool_decide (path = "/proc/50/task") then ["50"]
  else if worker_file path "/fd" then ["3"; "0"]
  else [].
Definition sim_stat_kind (path : string) : Resources.file_kind * Z :=
  if worker_file path "/fd/0" then (Resources.KChr, 5%Z) else (Resources.KFifo, 7%Z).

Definition sim_call {R} (c : sysE R) : M simw R := fun s =>
  (match c in sysE R return result R with
   | CheckCall _ _ => Ok tt
   | Popen _ _ => Ok 77%Z
   | ProcWait _ => Ok 0%Z
   | ProcPoll _ => Ok None
   | ProcStop _ => Ok tt
   | Kill _ _ => Ok tt
   | KillPidfd _ _ => Ok tt
   | Waitpid _ => Ok tt
   | WaitExit _ => Ok []
   | IsDir _ => Ok true
   | PathExists _ => Ok true
   | ReadFile p => Ok (sim_read p)
   | WriteFile _ _ => Ok tt
   | ReadLink p => Ok (sim_readlink p)
   | ListDir p => Ok (sim_listdir p)
   | ScanDir _ => Ok []
   | Unlink _ => Ok tt
   | Mkdir _ => Ok tt
   | Rmtree _ => Ok tt
   | Replace _ _ => Ok tt
   | Symlink _ _ => Ok tt
   | HardLink _ _ => Ok tt
   | Copy2 _ _ => Ok tt
   | RealPath p => Ok p
   | AbsPath p => Ok p
   | OpenFd _ => Ok 9%Z
   | WriteFd _ _ => Ok tt
   | CloseFd _ => Ok tt
   | Uuid _ => Ok (sim_uuid s)
   | UuidHex _ => Ok (sim_uuid s)
   | WalkError _ => Ok tt
   | InventoryUptime _ => Ok tt
   | StatKind p => Ok (sim_stat_kind p)
   | FstatKind _ => Ok Resources.KFifo
   | OpenFlags _ _ => Ok 12%Z
   | Dup2 _ _ _ => Ok tt
   | SetInheritable _ _ => Ok tt
   | MemoryDigest _ => Ok tt
   | Sleep => Ok false
   | SubmitDump _ _ => Ok tt
   | DumpDone _ => Ok true
   | DumpWait _ => Ok (Finished None, true)
   | ShutdownPool _ => Ok tt
   | SubmitWriter _ => Ok tt
   | WriterProgress => Ok []
   | ReadImages _ => Ok PageStats.sample_dir
   | MkdirNew _ => Ok tt
   | OpenPidfd p => Ok p
   | PidfdSignal _ _ => Ok tt
   | PidfdExited fd => Ok (bool_decide (fd = 62%Z))
   | TpPause _ => Ok tt
   | SubmitRestamp _ _ => Ok tt
   | RestampDone _ => Ok true
   | RestampCancel _ => Ok tt
   | RestampResult _ => Ok (Prepared true None None)
   | TpDispatch _ _ _ => Ok true
   | TpAwait _ _ => Ok (Some 60%Z)
   | TpStash _ fresh _ _ _ _ => Ok (Some (if bool_decide (fresh = Some true) then 62 else 61)%Z)
   | TpReapPid _ _ => Ok None
   | TpReapChildren _ => Ok None
   | TpReset => Ok tt
   | TpSetReaper _ => Ok tt
   | TpForkMeta => Ok (false, true)
   | SpawnLazy _ => Ok 70%Z
   | LazyPending _ => Ok []
   | ShutdownPrestart => Ok [("/s/b", Some 71%Z); ("/s/c", None)]
   | SubmitLazy _ => Ok true
   | Prewarm _ => Ok tt
   end, s).

Definition sim_nonempty (p : string) : M simw bool := fun s =>
  (Ok (bool_decide (dir_content s.1 p ≠ ∅)), s).

Definition sim_rmtree (p : string) : M simw unit := fun s =>
  (Ok tt, (KState (filter (fun kv => kv.1 ≠ p ∧ startswith kv.1 (p +:+ "/") = false) (k_dirs s.1)) (k_ovl s.1), s.2)).

#[export] Program Instance sim_host : Host simw := {|
  os_call := @sim_call; os_tree_nonempty := sim_nonempty; os_rmtree := sim_rmtree |}.
Next Obligation. done. Qed.
Next Obligation. done. Qed.
Next Obligation.
  intros p w. split_and!; [done|done|]. intros q Hq Hs. unfold sim_rmtree. cbn [snd fst k_dirs kabs sim_kernel].
  destruct (k_dirs w.1 !! q) as [l|] eqn:E.
  - by apply map_lookup_filter_Some.
  - apply map_lookup_filter_None. by left.
Qed.
Next Obligation.
  intros argv [k l]. cbn [os_run kabs sim_mount_host sim_kernel fst snd].
  unfold RootOverlay.sim_run. repeat case_match; reflexivity.
Qed.
Next Obligation. done. Qed.

(** A configuration for concrete runs. *)
Definition demo_cfg_with (asynchronous : bool) : config :=
  Config true true true false true None false false false false false false 2 asynchronous 5
  "/s" "/l" "/base" "/m" "/r" "criu" "criu" "/e" "/npd" 100 10
  false false false false false false false false false false true false false false false 4.
Definition demo_cfg : config := demo_cfg_with false.
(** The same with asynchronous incremental checkpoints. *)
Definition demo_acfg : config := demo_cfg_with true.
Definition demo_k0 : kstate := KState
  {[ "/base" := {[ "etc/passwd" := Some "root" ]}; "/l/up0" := {[ "a.txt" := Some "1" ]}; "/l/wk0" := ∅ ]}
  {[ 5%Z := Mount ["/base"] "/l/up0" ]}.
Definition demo_c0 : ctl :=
  Ctl 50 40 "/l/up0" "/l/wk0" [] ∅ None [] None 0 None None [] [] [] (Lazy [] [] [] [] false) ∅ (Async 4 None ∅ ∅ ∅).
Definition demo_s0 : ctl * simw := (demo_c0, (demo_k0, [])).
End Sim.
