(* ===== verification/Process.v ===== *)
(** * Processes of the sandbox ([sandbox_controller.py])

    Reading [/proc], finding and killing process trees, joining the dumps that
    still need them, and reaping the children of the warm templates.  All of
    it leaves the layer stack and the registered layers alone, which the last
    section states for each operation. *)

From S2P Require Import Prelude Hoare PyStr PyDict Registry Overlay RootOverlay Host.
From Stdlib Require Import Ascii.

Module Process.

(** Orders of [sorted(pending.items())] and of [sorted(child_pids)]. *)
Definition key_le (a b : Z * list (Z * Z)) : Prop := (a.1 <= b.1)%Z.
#[global] Instance key_le_dec a b : Decision (key_le a b).
Proof. unfold key_le. apply _. Defined.
Definition pair_le (a b : Z * Z) : Prop := (a.1 < b.1 ∨ (a.1 = b.1 ∧ a.2 <= b.2))%Z.
#[global] Instance pair_le_dec a b : Decision (pair_le a b).
Proof. unfold pair_le. apply _. Defined.

Section ops.
Context {W : Type} `{!KernelOverlay W} `{!MountHost W} `{!Host W} (cfg : config).
Abbreviation C := (M (ctl * W)).

Definition proc (pid : Z) (rest : string) : string := "/proc/" +:+ pretty pid +:+ rest.
Definition lines (text : string) : list string := split_char (chr 10) text.
Definition exn_text (e : exn) : string := "exception: " +:+ exn_msg e.

(** The first line with a prefix. *)
Definition line_with (pre : string) (text : string) : option string :=
  List.find (fun l => startswith l pre) (lines text).

(** ** Reading [/proc] *)

Definition pid_ns_inode (pid : Z) : C (option string) :=
  mtry is_OSError
    (target ← call (ReadLink (proc pid "/ns/pid"));
     mret (if startswith target "pid:[" && endswith target "]"
           then Some (sdrop_end 1 (sdrop 5 target)) else None))
    (fun _ => mret None).

Definition is_pidns_init (pid : Z) : C bool :=
  c ← getc;
  mtry is_OSError
    (status ← call (ReadFile (proc pid "/status"));
     mret (match line_with "NSpid:" status with
           | Some l => bool_decide (last (split_ws l) = Some "1")
           | None => bool_decide (pid = ns_init_pid c)
           end))
    (fun _ => mret (bool_decide (pid = ns_init_pid c))).

Definition parse_ints (ws : list string) : result (list Z) := mapM parse_int ws.

Definition pid_nspids (pid : Z) : C (list Z) :=
  mtry (fun e => is_OSError e || is_cls ValueError e)
    (status ← call (ReadFile (proc pid "/status"));
     match line_with "NSpid:" status with
     | Some l => lift_result (parse_ints (List.tl (split_ws l)))
     | None => mret []
     end)
    (fun _ => mret []).

Definition pid_ppid (pid : Z) : C (option Z) :=
  mtry (fun e => is_OSError e || is_cls ValueError e)
    (status ← call (ReadFile (proc pid "/status"));
     match line_with "PPid:" status with
     | Some l => match split_ws l with
                 | _ :: w :: _ => z ← lift_result (parse_int w); mret (Some z)
                 | _ => mret None                       (* IndexError *)
                 end
     | None => mret None
     end)
    (fun _ => mret None).

(** The state letter behind the last [)] of [stat]. *)
Definition stat_zombie (stat : string) : bool :=
  has_char ")" stat &&
  match split_ws (after_last ")" stat) with w :: _ => bool_decide (w = "Z") | [] => false end.
Definition pid_gone_or_zombie (pid : Z) : C bool :=
  mtry is_OSError (stat ← call (ReadFile (proc pid "/stat")); mret (stat_zombie stat)) (fun _ => mret true).

Definition parse_children (text : string) : list Z :=
  omap (fun w => match parse_int w with Ok z => Some z | Err _ => None end) (split_ws text).

(** [_child_pids]; the same reads are the body of [_collect_subtree_pids]. *)
Fixpoint children_of_tids (pid : Z) (tids : list string) : C (list Z) :=
  match tids with
  | [] => mret []
  | tid :: tids =>
      here ← mtry is_OSError
        (t ← call (ReadFile (proc pid ("/task/" +:+ tid +:+ "/children"))); mret (parse_children t))
        (fun _ => mret []);
      rest ← children_of_tids pid tids;
      mret (here ++ rest)
  end.
Definition child_pids (pid : Z) : C (list Z) :=
  tids ← call_or [] (ListDir (proc pid "/task"));
  children_of_tids pid tids.

(** [_collect_subtree_pids]: [to_visit] is a stack (last pushed first). *)
Fixpoint collect_loop (fuel : nat) (exclude : list Z) (to_visit seen found : list Z) : C (list Z) :=
  match to_visit with
  | [] => mret found
  | pid :: to_visit =>
      match fuel with
      | O => mraise OutOfFuel "process tree walk"
      | S fuel =>
          if mem pid seen || mem pid exclude then collect_loop fuel exclude to_visit seen found
          else
            kids ← child_pids pid;
            collect_loop fuel exclude (rev kids ++ to_visit) (pid :: seen) (found ++ [pid])
      end
  end.
Definition collect_subtree_pids (root_pid : Z) (exclude : list Z) : C (list Z) :=
  collect_loop (pid_limit cfg) exclude [root_pid] [] [].

Fixpoint collect_roots (roots : list Z) : C (list Z) :=
  match roots with
  | [] => mret []
  | r :: roots => here ← collect_subtree_pids r []; rest ← collect_roots roots; mret (here ++ rest)
  end.
Definition collect_descendant_pids (root_pid : Z) : C (list Z) :=
  kids ← child_pids root_pid; collect_roots kids.

(** [_translate_pid_in_ns]: the first host pid of the namespace with that
    namespace-local pid. *)
Fixpoint translate_loop (ns_inode : string) (target : Z) (entries : list string) : C (option Z) :=
  match entries with
  | [] => mret None
  | entry :: entries =>
      if negb (isdigit entry) then translate_loop ns_inode target entries
      else
        hit ← mtry (fun e => is_OSError e || is_cls ValueError e)
          (host_pid ← lift_result (parse_int entry);
           inode ← call (ReadLink ("/proc/" +:+ entry +:+ "/ns/pid"));
           if bool_decide (inode ≠ ns_inode) then mret None
           else
             nspids ← pid_nspids host_pid;
             mret (if bool_decide (last nspids = Some target) then Some host_pid else None))
          (fun _ => mret None);
        match hit with
        | Some p => mret (Some p)
        | None => translate_loop ns_inode target entries
        end
  end.
Definition translate_pid_in_ns (target_ns_pid ns_owner_pid : Z) : C (option Z) :=
  ino ← mtry is_OSError (i ← call (ReadLink (proc ns_owner_pid "/ns/pid")); mret (Some i)) (fun _ => mret None);
  match ino with
  | None => mret None
  | Some ino =>
      entries ← mtry is_OSError (e ← call (ListDir "/proc"); mret (Some e)) (fun _ => mret None);
      match entries with
      | None => mret None
      | Some entries => translate_loop ino target_ns_pid entries
      end
  end.

Definition pid_as_seen_by (pid ns_owner_pid : Z) : C Z :=
  target ← pid_nspids pid;
  owner ← pid_nspids ns_owner_pid;
  mret (if negb (bool_decide (owner = [])) && (length owner <=? length target)%nat
        then default pid (target !! (length owner - 1)%nat) else pid).

(** ** Which process is dumped, and how its namespace is named to CRIU *)

Definition current_dump_tree_pid : C Z :=
  c ← getc;
  mret (if enable_warm_template cfg
           && (checkpoint_stash_template cfg || async_template_full_dump cfg || env_fresh_pidns_active cfg)
        then agent_pid c else ns_init_pid c).

Definition agent_inner_pid : C (option Z) :=
  c ← getc; nspids ← pid_nspids (agent_pid c); mret (last nspids).

Definition need_fixed_dump_clone (strategy : string) : C bool :=
  if negb (restore_fastfork_dump_pid cfg && enable_warm_template cfg
           && negb (bool_decide (strategy = "lightweight"))) then mret false
  else
    inner ← agent_inner_pid;
    mret (match inner with Some p => negb (bool_decide (Some p = fixed_active_pid cfg)) | None => false end).

(** [_append_external_pidns]: the arguments it appends. *)
Definition external_pidns_args (dump_tree_pid : Z) : C (list string) :=
  init ← is_pidns_init dump_tree_pid;
  if init : bool then mret []
  else
    inode ← pid_ns_inode dump_tree_pid;
    mret (match inode with
          | Some i => if bool_decide (i = "") then [] else ["--external"; "pid[" +:+ i +:+ "]:deltabox_pidns"]
          | None => []
          end).

Definition is_external_pidns_dump (e : entry) : C bool :=
  match e_external_pidns e with
  | Some b => mret b
  | None =>
      match e_dump_tree_pid e, e_ns_init_pid e with
      | Some t, Some _ => init ← is_pidns_init t; mret (negb init)
      | _, _ => mret false
      end
  end.

Definition open_external_pidns_fd : C (option Z) :=
  c ← getc;
  mtry is_OSError (f ← call (OpenFd (proc (ns_init_pid c) "/ns/pid")); mret (Some f)) (fun _ => mret None).

Definition external_pidns_restore_args (fd : option Z) : list string :=
  match fd with
  | Some f => ["--inherit-fd"; "fd[" +:+ pretty f +:+ "]:deltabox_pidns"]
  | None => []
  end.

(** ** Waiting *)

Fixpoint wait_pid_stopped_loop (fuel : nat) (pid : Z) : C bool :=
  match fuel with
  | O => mret false
  | S fuel =>
      st ← mtry is_OSError (s ← call (ReadFile (proc pid "/stat")); mret (Some s)) (fun _ => mret None);
      match st with
      | None => mret false
      | Some s =>
          match split_ws s !! 2%nat with
          | Some f => if mem f ["T"; "t"] then mret true
                      else more ← call Sleep; if more : bool then wait_pid_stopped_loop fuel pid else mret false
          | None => more ← call Sleep; if more : bool then wait_pid_stopped_loop fuel pid else mret false
          end
      end
  end.
Definition wait_pid_stopped (pid : Z) : C bool := wait_pid_stopped_loop (poll_limit cfg) pid.

(** [_wait_pids_gone_or_zombie]: a timeout only warns. *)
Definition wait_pids_gone_or_zombie (pids : list Z) : C unit :=
  _ ← call (WaitExit pids); mret tt.

Fixpoint wait_slot_loop (fuel : nat) (fixed : Z) : C bool :=
  match fuel with
  | O => mret false
  | S fuel =>
      c ← getc;
      holder ← translate_pid_in_ns fixed (ns_init_pid c);
      match holder with
      | None => mret true
      | Some _ => more ← call Sleep; if more : bool then wait_slot_loop fuel fixed else mret false
      end
  end.
Definition wait_fixed_active_slot_free : C bool :=
  match fixed_active_pid cfg with
  | None => mret true
  | Some fixed => wait_slot_loop (poll_limit cfg) fixed
  end.

(** ** The warm-template pool ([template_fork.py], [TemplatePool]) *)

Definition template_pids (c : ctl) : list Z := dvals (templates c).

(** [await_fork]: a child that is itself a template is never accepted; on
    success the forked parent becomes the template of the snapshot. *)
Definition await_fork (source_pid : Z) (snapshot_id : option string) : C (option Z) :=
  c ← getc;
  child ← call (TpAwait source_pid (template_pids c));
  match child with
  | Some child =>
      _ ← match snapshot_id with
          | Some sid => modc (fun c => set_templates (dset sid source_pid (templates c)) c)
          | None => mret tt
          end;
      mret (Some child)
  | None => mret None
  end.

Definition request_fork (source_pid : Z) (snapshot_id : option string) (clone_parent_active : bool)
    : C (option (Z * Z)) :=
  ok ← call (TpDispatch source_pid clone_parent_active None);
  if ok : bool then
    child ← await_fork source_pid snapshot_id;
    mret ((fun k => (source_pid, k)) <$> child)
  else mret None.

Definition request_stash_template (source_pid : Z) (snapshot_id : option string) (fresh_pidns : option bool)
    (setsid clear_soft_dirty : bool) (fixed : option Z) : C (option Z) :=
  c ← getc;
  t ← call (TpStash source_pid fresh_pidns setsid clear_soft_dirty fixed (template_pids c));
  match t, snapshot_id with
  | Some pid, Some sid => _ ← modc (fun c => set_templates (dset sid pid (templates c)) c); mret t
  | _, _ => mret t
  end.

(** [TemplatePool.get]: a template whose process is gone is dropped. *)
Definition template_get (snapshot_id : string) : C (option Z) :=
  c ← getc;
  match dget snapshot_id (templates c) with
  | None => mret None
  | Some pid =>
      alive ← call (IsDir (proc pid ""));
      if alive : bool then mret (Some pid)
      else _ ← modc (fun c => set_templates (dpop snapshot_id (templates c)) c); mret None
  end.

(** [TemplatePool.discard] *)
Definition template_discard (snapshot_id : string) : C unit :=
  c ← getc;
  _ ← modc (fun c => set_templates (dpop snapshot_id (templates c)) c);
  match dget snapshot_id (templates c) with
  | Some pid => kill_quiet pid SIGKILL
  | None => mret tt
  end.

(** The loop that stops every template before a fork request. *)
Definition stop_templates : C unit :=
  c ← getc;
  mfor (template_pids c) (fun tpid =>
    if bool_decide (tpid = agent_pid c) then mret tt else kill_quiet tpid SIGSTOP).

(** ** Dumps in flight *)

(** [_record_dump], the completion callback: it runs on the dump worker. *)
Definition record_dump (ckpt : string) (exc : option exn) : C unit :=
  mfinally
    (match exc with
     | None => mret tt
     | Some e => modc (fun c => set_stat_err (<[ckpt := exn_text e]> (stat_err c)) c)
     end)
    (c ← getc;
     match callback_pids c !! ckpt with
     | Some pid =>
         if async_template_full_dump cfg && negb (bool_decide (pid = agent_pid c))
         then kill_quiet pid SIGKILL else mret tt
     | None => mret tt
     end).

(** [dump_future.result(timeout=30.0)]; the callback may run before the
    waiting thread resumes, or later ([Controller.step]). *)
Definition dump_result (ckpt : string) : C unit :=
  '(o, cb) ← call (DumpWait ckpt);
  match o with
  | TimedOut => mraise TimeoutError ""
  | Finished e =>
      _ ← mwhen cb (record_dump ckpt e);
      match e with Some e => mthrow e | None => mret tt end
  end.

Definition join_active_dump_before_kill : C unit :=
  c ← getc;
  match active_dump_owner_id c with
  | None => mret tt
  | Some ckpt_id =>
      match dget ckpt_id (reg c) with
      | None => mret tt
      | Some e =>
          if match e_async_dump_template_pid e with
             | Some p => negb (bool_decide (p = agent_pid c)) | None => false end
          then mret tt
          else if negb (e_has_future e) then mret tt
          else
            done_ ← call (DumpDone ckpt_id);
            if done_ : bool then mret tt
            else mtry any_exn (dump_result ckpt_id) (fun _ => mret tt)
      end
  end.

(** ** Killing and reaping *)

Definition kill_pids_and_wait {A} (pids : list Z) (during_exit : C A) : C A :=
  _ ← mfor (rev pids) (fun pid => mtry any_exn (call (Kill pid SIGKILL)) (fun _ => mret tt));
  _ ← mfor pids (fun pid => mtry (fun e => is_cls ChildProcessError e || is_cls ProcessLookupError e)
                       (call (Waitpid pid)) (fun _ => mret tt));
  mfinally during_exit (wait_pids_gone_or_zombie pids).

Definition queue_template_cleanup (template_pid dead_child_pid dead_child_host_pid : Z) : C unit :=
  mwhen (negb (template_pid =? 0)%Z && negb (dead_child_pid =? 0)%Z)
    (modc (fun c =>
       let old := default [] (dget template_pid (pending_reaps c)) in
       let item := (dead_child_pid, dead_child_host_pid) in
       set_pending_reaps (dset template_pid (if mem item old then old else item :: old) (pending_reaps c)) c)).

Definition dispose_fixed_dump_clone (pid : Z) : C unit :=
  parent ← pid_ppid pid;
  child ← match parent with Some p => pid_as_seen_by pid p | None => mret pid end;
  c ← getc;
  let active := agent_pid c in
  active_dir ← (if bool_decide (Some active = parent) then mret false else call (IsDir (proc active "")));
  stopped ← (if active_dir : bool then mtry is_OSError (_ ← call (Kill active SIGSTOP); mret true) (fun _ => mret false)
             else mret false);
  _ ← mfinally
    (_ ← kill_quiet pid SIGKILL;
     _ ← wait_pids_gone_or_zombie [pid];
     match parent with
     | Some p =>
         alive ← (if enable_warm_template cfg then call (IsDir (proc p "")) else mret false);
         mwhen alive
           (mtry any_exn
              (r ← call (TpReapPid p child);
               match r with
               | None | Some [] => _ ← call (TpReapChildren p); mret tt
               | _ => mret tt
               end)
              (fun _ => mret tt))
     | None => mret tt
     end)
    (if stopped : bool then
       alive ← call (IsDir (proc active ""));
       mwhen alive (kill_quiet active SIGCONT)
     else mret tt);
  _ ← wait_fixed_active_slot_free;
  mret tt.

Definition check_external_restore_pool_clear_allowed : result unit :=
  fail_if (negb (env_force_criu_restore cfg || env_allow_pool_clear cfg))
    DumpUnavailableError "external-pidns cold restore would clear warm-template pool" (Ok tt).

(** [_wait_external_restore_reaped]: only the disappearance of a task's [stat]
    file releases its pid; other read failures do not. *)
Fixpoint still_there (pids : list Z) : C (list Z) :=
  match pids with
  | [] => mret []
  | pid :: pids =>
      here ← mtry is_OSError
        (_ ← call (ReadFile (proc pid "/stat")); mret true)
        (fun e => mret (negb (is_cls FileNotFoundError e)));
      rest ← still_there pids;
      mret (if here : bool then pid :: rest else rest)
  end.
Fixpoint wait_reaped_loop (fuel : nat) (pending : list Z) : C unit :=
  match pending with
  | [] => mret tt
  | _ =>
      match fuel with
      | O => mraise RuntimeError "external restore blocked by unreaped host PIDs"
      | S fuel =>
          left ← still_there pending;
          match left with
          | [] => mret tt
          | _ =>
              more ← call Sleep;
              if more : bool then wait_reaped_loop fuel left
              else mraise RuntimeError "external restore blocked by unreaped host PIDs"
          end
      end
  end.
Definition wait_external_restore_reaped (pids : list Z) : C unit :=
  c ← getc;
  wait_reaped_loop (poll_limit cfg)
    (List.filter (fun pid => negb (pid =? 0)%Z && negb (bool_decide (pid = ns_init_pid c)))
       (remove_dups pids)).

(** The subtrees of the live templates, each pid once, without namespace init. *)
Fixpoint template_subtrees (ns_init : Z) (roots seen : list Z) : C (list Z) :=
  match roots with
  | [] => mret []
  | pid :: roots =>
      gone ← pid_gone_or_zombie pid;
      if gone : bool then template_subtrees ns_init roots seen
      else
        sub ← collect_subtree_pids pid [];
        let here := List.filter (fun p => negb (bool_decide (p = ns_init)) && negb (mem p seen)) (remove_dups sub) in
        rest ← template_subtrees ns_init roots (here ++ seen);
        mret (here ++ rest)
  end.

Definition clear_templates_for_external_restore : C unit :=
  _ ← lift_result check_external_restore_pool_clear_allowed;
  c ← getc;
  let tpids := if enable_warm_template cfg
               then List.filter (fun p => negb (p =? 0)%Z && negb (bool_decide (p = ns_init_pid c))) (template_pids c)
               else [] in
  let to_reap := last_killed c ++ tpids
                 ++ (if bool_decide (agent_pid c = ns_init_pid c) then [] else [agent_pid c]) in
  to_kill ← template_subtrees (ns_init_pid c) (merge_sort Z.le (remove_dups tpids)) [];
  _ ← (match to_kill with [] => mret tt | _ => kill_pids_and_wait to_kill (mret tt) end);
  _ ← modc (set_templates []);
  _ ← modc (set_pending_reaps []);
  _ ← (if enable_warm_template cfg && bool_decide (fixed_active_pid cfg = None) then
         alive ← call (IsDir (proc (ns_init_pid c) ""));
         if alive : bool then _ ← call (TpReapChildren (ns_init_pid c)); mret tt else mret tt
       else mret tt);
  wait_external_restore_reaped (to_reap ++ to_kill).

(** [_drain_pending_template_cleanup]; the sorted orders of the requests are
    those of the keys. *)
Definition drain_pending_template_cleanup : C unit :=
  c ← getc;
  match pending_reaps c with
  | [] => mret tt
  | pending =>
      _ ← modc (set_pending_reaps []);
      let active := agent_pid c in
      stopped ← mtry is_OSError (_ ← call (Kill active SIGSTOP); mret true) (fun _ => mret false);
      mfinally
        (if enable_warm_template cfg then
           mfor (merge_sort key_le pending) (fun p =>
             gone ← pid_gone_or_zombie p.1;
             if gone : bool then mret tt
             else mfor (merge_sort pair_le p.2) (fun k =>
                    _ ← call (TpReapPid p.1 k.1); mret tt))
         else mret tt)
        (if stopped : bool then
           alive ← call (IsDir (proc active "")); mwhen alive (kill_quiet active SIGCONT)
         else mret tt)
  end.

(** The live writers of unfinished detached dumps. *)
Fixpoint live_writers (r : registry) : C (list Z) :=
  match r with
  | [] => mret []
  | (rid, e) :: r =>
      here ← match e_async_dump_template_pid e with
             | Some pid =>
                 if negb (pid =? 0)%Z && e_has_future e then
                   d ← call (DumpDone rid); mret (if d : bool then [] else [pid])
                 else mret []
             | None => mret []
             end;
      rest ← live_writers r;
      mret (here ++ rest)
  end.

(** [_kill_active_subtree]; [during_exit] prepares the restore while the
    victims exit; its exception is raised only after all of the clean-up. *)
Definition kill_active_subtree (during_exit : C unit) : C unit :=
  c ← getc;
  let tpids := if enable_warm_template cfg then template_pids c else [] in
  _ ← join_active_dump_before_kill;
  c ← getc;
  writers ← live_writers (reg c);
  to_kill ← collect_subtree_pids (agent_pid c) (tpids ++ writers);
  _ ← modc (set_last_killed to_kill);
  reaper ← pid_ppid (agent_pid c);
  reaper_child ← match reaper with Some r => pid_as_seen_by (agent_pid c) r | None => mret (agent_pid c) end;
  let dead := agent_pid c in
  prepare_error ← kill_pids_and_wait to_kill (mcatch (_ ← during_exit; mret None) (fun e => mret (Some e)));
  let need_fixed_slot := bool_decide (is_Some (fixed_active_pid cfg)) && negb (restore_fastfork_dump_pid cfg) in
  let reapable := match reaper with
                  | Some r => enable_warm_template cfg && mem r tpids && mem dead to_kill
                  | None => false end in
  reaped_inline ←
    (if need_fixed_slot && reapable then
       holder ← match fixed_active_pid cfg with
                | Some f => translate_pid_in_ns f (ns_init_pid c) | None => mret None end;
       match holder, reaper with
       | Some _, Some r =>
           mtry any_exn
             (x ← call (TpReapPid r reaper_child);
              match x with
              | None | Some [] => y ← call (TpReapChildren r); mret (bool_decide (is_Some y))
              | Some _ => mret true
              end)
             (fun _ => mret false)
       | _, _ => mret false
       end
     else mret false);
  _ ← wait_fixed_active_slot_free;
  _ ← mwhen (negb reaped_inline && reapable)
        (queue_template_cleanup (default 0%Z reaper) reaper_child dead);
  match prepare_error with Some e => mthrow e | None => mret tt end.
End ops.

(** ** None of it touches the layer stack *)

Section frame.
Context {W : Type} `{!KernelOverlay W} `{!MountHost W} `{!Host W} {WT : Watch}.

Lemma fs_pid_ns_inode pid : fs_keeps (pid_ns_inode pid).
Proof. unfold pid_ns_inode. fs_auto. Qed.
Hint Resolve fs_pid_ns_inode : deltabox.
Lemma fs_is_pidns_init pid : fs_keeps (is_pidns_init pid).
Proof. unfold is_pidns_init. fs_auto. Qed.
Hint Resolve fs_is_pidns_init : deltabox.
Lemma fs_pid_nspids pid : fs_keeps (pid_nspids pid).
Proof. unfold pid_nspids. fs_auto. Qed.
Hint Resolve fs_pid_nspids : deltabox.
Lemma fs_pid_ppid pid : fs_keeps (pid_ppid pid).
Proof. unfold pid_ppid. fs_auto. Qed.
Hint Resolve fs_pid_ppid : deltabox.
Lemma fs_pid_gone_or_zombie pid : fs_keeps (pid_gone_or_zombie pid).
Proof. unfold pid_gone_or_zombie. fs_auto. Qed.
Hint Resolve fs_pid_gone_or_zombie : deltabox.
Lemma fs_children_of_tids pid tids : fs_keeps (children_of_tids pid tids).
Proof. induction tids; simpl; fs_auto. Qed.
Hint Resolve fs_children_of_tids : deltabox.
Lemma fs_child_pids pid : fs_keeps (child_pids pid).
Proof. unfold child_pids. fs_auto. Qed.
Hint Resolve fs_child_pids : deltabox.
Lemma fs_collect_loop fuel ex v s f : fs_keeps (collect_loop fuel ex v s f).
Proof. revert v s f. induction fuel; intros [|] ? ?; simpl; fs_auto. Qed.
Hint Resolve fs_collect_loop : deltabox.
Lemma fs_translate_loop i t es : fs_keeps (translate_loop i t es).
Proof. induction es; simpl; fs_auto. Qed.
Hint Resolve fs_translate_loop : deltabox.
Lemma fs_translate_pid_in_ns t o : fs_keeps (translate_pid_in_ns t o).
Proof. unfold translate_pid_in_ns. fs_auto. Qed.
Hint Resolve fs_translate_pid_in_ns : deltabox.
Lemma fs_pid_as_seen_by p o : fs_keeps (pid_as_seen_by p o).
Proof. unfold pid_as_seen_by. fs_auto. Qed.
Hint Resolve fs_pid_as_seen_by : deltabox.
Lemma fs_external_pidns_args p : fs_keeps (external_pidns_args p).
Proof. unfold external_pidns_args. fs_auto. Qed.
Hint Resolve fs_external_pidns_args : deltabox.
Lemma fs_is_external_pidns_dump e : fs_keeps (is_external_pidns_dump e).
Proof. unfold is_external_pidns_dump. fs_auto. Qed.
Hint Resolve fs_is_external_pidns_dump : deltabox.
Lemma fs_open_external_pidns_fd : fs_keeps open_external_pidns_fd.
Proof. unfold open_external_pidns_fd. fs_auto. Qed.
Hint Resolve fs_open_external_pidns_fd : deltabox.
Lemma fs_wait_pids_gone p : fs_keeps (wait_pids_gone_or_zombie p).
Proof. unfold wait_pids_gone_or_zombie. fs_auto. Qed.
Hint Resolve fs_wait_pids_gone : deltabox.
Lemma fs_await_fork s i : fs_keeps (await_fork s i).
Proof. unfold await_fork. fs_auto. Qed.
Hint Resolve fs_await_fork : deltabox.
Lemma fs_request_fork s i c : fs_keeps (request_fork s i c).
Proof. unfold request_fork. fs_auto. Qed.
Hint Resolve fs_request_fork : deltabox.
Lemma fs_request_stash s i a b c d : fs_keeps (request_stash_template s i a b c d).
Proof. unfold request_stash_template. fs_auto. Qed.
Hint Resolve fs_request_stash : deltabox.
Lemma fs_template_get i : fs_keeps (template_get i).
Proof. unfold template_get. fs_auto. Qed.
Hint Resolve fs_template_get : deltabox.
Lemma fs_template_discard i : fs_keeps (template_discard i).
Proof. unfold template_discard. fs_auto. Qed.
Hint Resolve fs_template_discard : deltabox.
Lemma fs_stop_templates : fs_keeps stop_templates.
Proof. unfold stop_templates. fs_auto. Qed.
Hint Resolve fs_stop_templates : deltabox.
Lemma fs_kill_pids_and_wait {A} l (m : M (ctl * W) A) : fs_keeps m → fs_keeps (kill_pids_and_wait l m).
Proof. intros. unfold kill_pids_and_wait. fs_auto. Qed.
Hint Resolve fs_kill_pids_and_wait : deltabox.
Lemma fs_queue a b c : fs_keeps (queue_template_cleanup a b c).
Proof. unfold queue_template_cleanup. fs_auto. Qed.
Hint Resolve fs_queue : deltabox.
Lemma fs_still_there l : fs_keeps (still_there l).
Proof. induction l; simpl; fs_auto. Qed.
Hint Resolve fs_still_there : deltabox.
Lemma fs_live_writers r : fs_keeps (live_writers r).
Proof. induction r as [|[? ?]]; simpl; fs_auto. Qed.
Hint Resolve fs_live_writers : deltabox.
End frame.

#[local] Hint Resolve fs_pid_ns_inode fs_is_pidns_init fs_pid_nspids fs_pid_ppid fs_pid_gone_or_zombie fs_children_of_tids
  fs_child_pids fs_collect_loop fs_translate_loop fs_translate_pid_in_ns fs_pid_as_seen_by
  fs_external_pidns_args fs_is_external_pidns_dump fs_open_external_pidns_fd fs_wait_pids_gone
  fs_await_fork fs_request_fork fs_request_stash fs_template_get fs_template_discard
  fs_stop_templates fs_kill_pids_and_wait fs_queue fs_still_there fs_live_writers : deltabox.

Section frame_cfg.
Context {W : Type} `{!KernelOverlay W} `{!MountHost W} `{!Host W} {WT : Watch} (cfg : config).

Lemma fs_collect_subtree_pids r ex : fs_keeps (collect_subtree_pids cfg r ex).
Proof. apply fs_collect_loop. Qed.
Hint Resolve fs_collect_subtree_pids : deltabox.
Lemma fs_current_dump_tree_pid : fs_keeps (current_dump_tree_pid cfg).
Proof. unfold current_dump_tree_pid. fs_auto. Qed.
Hint Resolve fs_current_dump_tree_pid : deltabox.
Lemma fs_need_fixed_dump_clone s : fs_keeps (need_fixed_dump_clone cfg s).
Proof. unfold need_fixed_dump_clone, agent_inner_pid. fs_auto. Qed.
Hint Resolve fs_need_fixed_dump_clone : deltabox.
Lemma fs_wait_pid_stopped p : fs_keeps (wait_pid_stopped cfg p).
Proof. unfold wait_pid_stopped. induction (poll_limit cfg); simpl; fs_auto. Qed.
Hint Resolve fs_wait_pid_stopped : deltabox.
Lemma fs_wait_slot : fs_keeps (wait_fixed_active_slot_free cfg).
Proof.
  unfold wait_fixed_active_slot_free. destruct (fixed_active_pid cfg); [|fs_auto].
  induction (poll_limit cfg); simpl; fs_auto.
Qed.
Hint Resolve fs_wait_slot : deltabox.
Lemma fs_record_dump i e : fs_keeps (record_dump cfg i e).
Proof. unfold record_dump. fs_auto. Qed.
Hint Resolve fs_record_dump : deltabox.
Lemma fs_dump_result i : fs_keeps (dump_result cfg i).
Proof. unfold dump_result. fs_auto. Qed.
Hint Resolve fs_dump_result : deltabox.
Lemma fs_join_active : fs_keeps (join_active_dump_before_kill cfg).
Proof. unfold join_active_dump_before_kill. fs_auto. Qed.
Hint Resolve fs_join_active : deltabox.
Lemma fs_dispose_fixed p : fs_keeps (dispose_fixed_dump_clone cfg p).
Proof. unfold dispose_fixed_dump_clone. fs_auto. Qed.
Hint Resolve fs_dispose_fixed : deltabox.
Lemma fs_wait_reaped l : fs_keeps (wait_external_restore_reaped cfg l).
Proof.
  unfold wait_external_restore_reaped. apply fs_keeps_bind; [apply fs_keeps_getc|intros c].
  generalize (List.filter (fun pid => negb (pid =? 0)%Z && negb (bool_decide (pid = ns_init_pid c)))
       (remove_dups l)) as p.
  induction (poll_limit cfg); intros [|]; simpl; fs_auto.
Qed.
Hint Resolve fs_wait_reaped : deltabox.
Lemma fs_template_subtrees i l s : fs_keeps (template_subtrees cfg i l s).
Proof. revert s. induction l; intros s; simpl; fs_auto. Qed.
Hint Resolve fs_template_subtrees : deltabox.
Lemma fs_clear_templates : fs_keeps (clear_templates_for_external_restore cfg).
Proof. unfold clear_templates_for_external_restore. fs_auto. Qed.
Hint Resolve fs_clear_templates : deltabox.
Lemma fs_drain_pending : fs_keeps (drain_pending_template_cleanup cfg).
Proof. unfold drain_pending_template_cleanup. fs_auto. Qed.
Hint Resolve fs_drain_pending : deltabox.
End frame_cfg.
End Process.
