(* ===== verification/AsyncResources.v ===== *)
(** * Inspection of a worker before an asynchronous dump ([async_resources.py])

    [validate_replay_resources] reads one process from /proc and accepts it
    only if nothing it holds could be changed by the sandbox behind the back
    of a checkpoint; the contract it returns is what the disposable dump child
    and a later restore work from. *)

From S2P Require Import Prelude Hoare PyStr PyDict Resources Registry Overlay RootOverlay Host Process.
From Stdlib Require Import Ascii.

Module AsyncResources.
Import Resources Process.

Section ops.
Context {W : Type} `{!KernelOverlay W} `{!MountHost W} `{!Host W}.
Abbreviation C := (M (ctl * W)).

(** [except (OSError, ValueError, KeyError) as error: raise Unsupported...] *)
Definition verifying {A} (m : C A) : C A :=
  mtry (fun e => is_OSError e || is_cls ValueError e || is_cls KeyError e) m
    (fun e => mraise UnsupportedAsyncResources "cannot verify async replay resources").

Definition identity_of (pid : Z) : C (string * Z) :=
  t ← call (ReadFile (proc pid "/stat")); lift_result (status_identity t).

(** The loop over the children that are not allowed: those alive, those gone. *)
Fixpoint children_loop (pids : list Z) : C (list Z * list Z) :=
  match pids with
  | [] => mret ([], [])
  | child :: pids =>
      st ← mtry (is_cls FileNotFoundError) (i ← identity_of child; mret (Some i.1)) (fun _ => mret None);
      '(live, gone) ← children_loop pids;
      match st with
      | None => mret (live, child :: gone)
      | Some s => if mem s ["Z"; "X"] then mret (live, child :: gone) else mret (child :: live, gone)
      end
  end.

Definition validate_replay_children (pid : Z) (allowed : list Z) : C (list Z) :=
  verifying
    (text ← call (ReadFile (proc pid ("/task/" +:+ pretty pid +:+ "/children")));
     children ← lift_result (parse_ints (split_ws text));
     '(live, gone) ← children_loop (List.filter (fun c => negb (mem c allowed)) (remove_dups children));
     if bool_decide (live = []) then mret gone
     else mraise UnsupportedAsyncResources "live/unowned worker children").

(** [sorted((p.name for p in (proc / "fd").iterdir()), key=int)] *)
Definition by_number (a b : Z * string) : Prop := (a.1 <= b.1)%Z.
#[local] Instance by_number_dec a b : Decision (by_number a b).
Proof. unfold by_number. apply _. Defined.
Definition fd_names (pid : Z) : C (list string) :=
  names ← call (ListDir (proc pid "/fd"));
  keys ← lift_result (mapM (fun n => k ← parse_int n; Ok (k, n)) names);
  mret ((merge_sort by_number keys).*2).

Fixpoint fds_loop (pid : Z) (fifos stdio : list string) (names seen : list string) : C (list fd_item) :=
  match names with
  | [] => mret []
  | name :: names =>
      fd ← lift_result (parse_int name);
      path ← call (ReadLink (proc pid ("/fd/" +:+ name)));
      info ← call (ReadFile (proc pid ("/fdinfo/" +:+ name)));
      flags_text ← lift_result (info_lookup info "flags");
      flags ← lift_result (parse_uint 8 (strip flags_text));
      '(kind, _) ← call (StatKind (proc pid ("/fd/" +:+ name)));
      '(k, seen) ← lift_result (check_fd fifos stdio seen fd path flags kind);
      '(_, inode) ← call (StatKind (proc pid ("/fd/" +:+ name)));
      mnt_text ← lift_result (info_lookup info "mnt_id");
      mnt ← lift_result (parse_int mnt_text);
      rest ← fds_loop pid fifos stdio names seen;
      mret (FdItem fd path flags k (has_flag flags O_CLOEXEC) (Some (inode, mnt)) :: rest)
  end.

Definition validate_replay_resources (pid : Z) (overlay_mount_point : string) (allowed : list Z)
    (allowed_fifos allowed_stdio : list string) : C contract :=
  overlay ← lift_result (_absolute overlay_mount_point);
  fifos ← lift_result (mapM _absolute allowed_fifos);
  stdio ← lift_result (mapM _absolute allowed_stdio);
  verifying
    ('(_, identity) ← identity_of pid;
     tasks ← call (ListDir (proc pid "/task"));
     if negb (bool_decide (tasks = [pretty pid])) then mraise UnsupportedAsyncResources "worker must be single-threaded"
     else
       exited ← validate_replay_children pid allowed;
       cwd ← call (ReadLink (proc pid "/cwd"));
       if negb (startswith cwd "/") || deleted cwd then mraise UnsupportedAsyncResources "unsupported cwd"
       else if _within cwd overlay then mraise UnsupportedAsyncResources "cwd refers to mutable task overlay"
       else
         exe ← call (ReadLink (proc pid "/exe"));
         if deleted exe || _within exe overlay || negb (immutable_path exe)
         then mraise UnsupportedAsyncResources "executable outside the immutable image contract"
         else
           names ← fd_names pid;
           fds ← fds_loop pid fifos stdio names [];
           maps ← call (ReadFile (proc pid "/maps"));
           mappings ← lift_result (check_mappings overlay (splitlines maps));
           '(_, identity') ← identity_of pid;
           names' ← (if bool_decide (identity = identity') then fd_names pid else mret []);
           if negb (bool_decide (identity = identity')) || negb (bool_decide (names = names'))
           then mraise UnsupportedAsyncResources "worker resources changed during inspection"
           else
             mret (Contract 1 overlay cwd true false fds
                     (Some (Evidence pid identity exe mappings exited)))).

(** ** The disposable child *)

(** Replaces one permitted transport by an open file description of its own. *)
Definition reopen_fd (item : fd_item) : C unit :=
  newfd ← call (OpenFlags (fi_path item) (Z.ldiff (fi_flags item) O_CLOEXEC));
  mfinally
    (if bool_decide (newfd ≠ fi_fd item) then call (Dup2 newfd (fi_fd item) (negb (fi_cloexec item)))
     else call (SetInheritable newfd (negb (fi_cloexec item))))
    (mwhen (bool_decide (newfd ≠ fi_fd item)) (call (CloseFd newfd))).

Definition freeze_dump_view (c : contract) (lower_layers : list string) : C (string * list string) :=
  target ← lift_result (_validate_contract c);
  if _within (ct_cwd c) target then mraise UnsupportedAsyncResources "guard-only replay cannot freeze an overlay cwd"
  else
    lowers ← lift_result (mapM _absolute lower_layers);
    _ ← mfor (ct_fds c) reopen_fd;
    mret (target, lowers).

(** ** Restoring the transports *)

Definition close_fds (fds : list Z) : C unit := mfor fds (fun fd => call (CloseFd fd)).

(** Up to the [yield] of [protocol_restore_fds]; an exception closes what was
    opened ([fds], newest last). *)
Fixpoint protocol_loop (items : list fd_item) (seen : list string) (args : list string) (fds : list Z)
    : C (list string * list Z) :=
  match items with
  | [] => mret (args, fds)
  | item :: items =>
      if negb (bool_decide (fi_kind item = protocol_fifo) || bool_decide (fi_kind item = diagnostic_stdio))
         || mem (fi_path item) seen
      then protocol_loop items seen args fds
      else
        fd ← mcatch (call (OpenFlags (fi_path item) (Z.ldiff (fi_flags item) O_CLOEXEC)))
               (fun e => _ ← close_fds fds; mthrow e);
        let fds := fds ++ [fd] in
        kind ← mcatch (call (FstatKind fd)) (fun e => _ ← close_fds fds; mthrow e);
        if bool_decide (fi_kind item = protocol_fifo) && negb (bool_decide (kind = KFifo))
           || bool_decide (fi_kind item = diagnostic_stdio) && negb (bool_decide (kind = KReg))
        then _ ← close_fds fds; mraise UnsupportedAsyncResources "external replay transport replaced"
        else protocol_loop items (fi_path item :: seen)
               (args ++ ["--inherit-fd"; "fd[" +:+ pretty fd +:+ "]:" +:+ lstrip_by (ch_eq "/") (fi_path item)]) fds
  end.
Definition protocol_restore_fds (c : contract) : C (list string * list Z) :=
  _ ← lift_result (_validate_contract c);
  protocol_loop (ct_fds c) [] [] [].
End ops.

(** ** What acceptance means *)

(** A descriptor that carries no rollback state. *)
Definition fd_ok (fifos stdio : list string) (i : fd_item) : Prop :=
  deleted (fi_path i) = false ∧
  match fi_kind i with
  | protocol_fifo => fi_path i ∈ fifos ∧ Z.land (fi_flags i) O_ACCMODE = O_RDWR ∧ has_flag (fi_flags i) O_NONBLOCK = true
  | null_stdio => fi_path i = "/dev/null" ∧ fi_fd i ∈ [0; 1; 2]%Z
  | diagnostic_stdio => fi_path i ∈ stdio ∧ fi_fd i ∈ [1; 2]%Z ∧ has_flag (fi_flags i) O_APPEND = true
  end.
Definition fifo_paths (fds : list fd_item) : list string :=
  omap (fun i => if bool_decide (fi_kind i = protocol_fifo) then Some (fi_path i) else None) fds.
(** A mapping of the immutable image, outside the task's overlay. *)
Definition mapping_ok (overlay : string) (m : mapping) : Prop :=
  immutable_path (mp_path m) = true ∧ _within (mp_path m) overlay = false ∧ deleted (mp_path m) = false ∧
  (String.get 3 (mp_perms m) = Some "p"%char ∨ mp_perms m = "r--s").

Record accepted (pid : Z) (fifos stdio : list string) (c : contract) : Prop := {
  acc_valid : _validate_contract c = _absolute (ct_overlay c);
  acc_cwd : startswith (ct_cwd c) "/" = true ∧ _within (ct_cwd c) (ct_overlay c) = false ∧ deleted (ct_cwd c) = false;
  acc_fds : Forall (fd_ok fifos stdio) (ct_fds c);
  acc_fifos : NoDup (fifo_paths (ct_fds c));
  acc_image : ∃ ev, ct_evidence c = Some ev ∧ ev_pid ev = pid ∧ Forall (mapping_ok (ct_overlay c)) (ev_mappings ev) ∧
    immutable_path (ev_executable ev) = true ∧ _within (ev_executable ev) (ct_overlay c) = false ∧ deleted (ev_executable ev) = false;
}.

Section proofs.
Context {W : Type} `{!KernelOverlay W} `{!MountHost W} `{!Host W} {WT : Watch}.

Lemma check_fd_ok fifos stdio seen fd path flags kind k seen' cx ev :
  check_fd fifos stdio seen fd path flags kind = Ok (k, seen') →
  fd_ok fifos stdio (FdItem fd path flags k cx ev) ∧
  (if bool_decide (k = protocol_fifo) then path ∉ seen ∧ seen' = path :: seen else seen' = seen).
Proof.
  unfold check_fd, fd_ok. cbn [fi_path fi_kind fi_flags fi_fd]. destruct (deleted path); [done|].
  destruct (bool_decide (kind = KFifo) && mem path fifos) eqn:E1.
  { apply andb_true_iff in E1 as [_ E1%mem_true].
    destruct (_ || _) eqn:E2; [done|]. apply orb_false_iff in E2 as [E2 E3]. apply negb_false_iff in E2, E3.
    destruct (mem path seen) eqn:E4; [done|]. intros [= <- <-]. apply mem_false in E4.
    apply Z.eqb_eq in E2. split; [done|]. by rewrite bool_decide_eq_true_2. }
  destruct (bool_decide (kind = KChr) && _ && _) eqn:E2.
  { intros [= <- <-]. apply andb_true_iff in E2 as [E2 E3%mem_true]. apply andb_true_iff in E2 as [_ E2%bool_decide_eq_true].
    done. }
  destruct (_ && has_flag flags O_APPEND) eqn:E3; [|done]. intros [= <- <-].
  apply andb_true_iff in E3 as [E3 E4]. apply andb_true_iff in E3 as [E3 E5%mem_true].
  apply andb_true_iff in E3 as [_ E6%mem_true]. done.
Qed.

Lemma fds_loop_ok pid fifos stdio names seen :
  NoDup seen →
  rets (S:=ctl * W) (fds_loop pid fifos stdio names seen)
    (fun fds => Forall (fd_ok fifos stdio) fds ∧ NoDup (fifo_paths fds) ∧ (∀ p, p ∈ fifo_paths fds → p ∉ seen)).
Proof.
  revert seen. induction names as [|name names IH]; intros seen Hs; simpl.
  { apply rets_ret. split_and!; [constructor|constructor|]. intros p Hp. by apply elem_of_nil in Hp. }
  apply rets_then; intros fd. apply rets_then; intros path. apply rets_then; intros info.
  apply rets_then; intros ft. apply rets_then; intros flags. apply rets_then; intros [kind ino].
  eapply (rets_bind (fun r => check_fd fifos stdio seen fd path flags kind = Ok r)); [by apply rets_lift|].
  intros [k seen'] Hc. apply rets_then; intros [k2 inode]. apply rets_then; intros mt. apply rets_then; intros mnt.
  destruct (check_fd_ok _ _ _ _ _ _ _ _ _ (has_flag flags O_CLOEXEC) (Some (inode, mnt)) Hc) as [Hok Hseen].
  assert (NoDup seen') as Hs' by (case_bool_decide; [destruct Hseen as [? ->]; by constructor|by subst]).
  eapply rets_bind; [by apply IH|]. intros rest (H1 & H2 & H3). apply rets_ret.
  split; [by constructor|]. unfold fifo_paths in *. cbn [omap list_omap]. cbn [fi_kind fi_path].
  case_bool_decide; [|by subst]. destruct Hseen as [Hn ->]. split.
  - constructor; [|done]. intros Hp. apply (H3 _ Hp). left.
  - intros p [->|Hp]%elem_of_cons; [done|]. intros Hin. apply (H3 p Hp). by right.
Qed.

Lemma check_mapping_ok overlay line r :
  check_mapping overlay line = Ok r → match r with Some m => mapping_ok overlay m | None => True end.
Proof.
  unfold check_mapping. destruct (split_ws_max 5 line) as [|address [|perms [|? [|? [|? rest]]]]]; try done.
  destruct (negb (_ =? 4)%nat); [done|]. cbv zeta. set (path := List.hd "" rest).
  destruct (vdso_path path); [by intros [= <-]|].
  destruct (_ && negb _) eqn:E1; [done|]. destruct (deleted path) eqn:E2; [done|].
  destruct (startswith path "/") eqn:E3.
  - destruct (_within path overlay) eqn:E4; [done|]. destruct (immutable_path path) eqn:E5; [|done]. cbn [negb].
    intros [= <-]. split_and!; [done..|]. cbn [mp_perms]. apply andb_false_iff in E1 as [E1|E1]; apply negb_false_iff in E1.
    + left. by apply bool_decide_eq_true in E1.
    + right. repeat (apply andb_true_iff in E1 as [E1 _]). by apply bool_decide_eq_true in E1.
  - match goal with |- (if ?b then _ else _) = _ → _ => destruct b end; intros H; [done|].
    injection H as <-. done.
Qed.

Lemma check_mappings_ok overlay ls ms : check_mappings overlay ls = Ok ms → Forall (mapping_ok overlay) ms.
Proof.
  revert ms. induction ls as [|l ls IH]; simpl; intros ms; [by intros [= <-]|].
  destruct (check_mapping overlay l) as [m|] eqn:E; [|done]. simpl. destruct (check_mappings overlay ls) as [ms'|]; [|done].
  simpl. apply check_mapping_ok in E. intros [= <-]. specialize (IH ms' eq_refl). destruct m; [by constructor|done].
Qed.

Lemma fs_close_fds fds : fs_keeps (W:=W) (close_fds fds).
Proof. unfold close_fds. fs_auto. Qed.
Lemma fs_protocol_loop items seen args fds : fs_keeps (W:=W) (protocol_loop items seen args fds).
Proof. revert seen args fds. pose proof fs_close_fds. induction items; intros; simpl; fs_auto. Qed.
Lemma fs_protocol_restore_fds c : fs_keeps (W:=W) (protocol_restore_fds c).
Proof. unfold protocol_restore_fds. pose proof fs_protocol_loop. fs_auto. Qed.
Lemma fs_children_loop pids : fs_keeps (W:=W) (children_loop pids).
Proof. unfold identity_of. induction pids; simpl; unfold identity_of; fs_auto. Qed.
Lemma fs_validate_children pid allowed : fs_keeps (W:=W) (validate_replay_children pid allowed).
Proof. unfold validate_replay_children, verifying. pose proof fs_children_loop. fs_auto. Qed.
Lemma fs_fds_loop pid fifos stdio names seen : fs_keeps (W:=W) (fds_loop pid fifos stdio names seen).
Proof. revert seen. induction names; intros; simpl; fs_auto. Qed.
Lemma fs_validate_resources pid mount allowed a b : fs_keeps (W:=W) (validate_replay_resources pid mount allowed a b).
Proof.
  unfold validate_replay_resources, verifying, identity_of, fd_names.
  pose proof fs_validate_children. pose proof fs_fds_loop. fs_auto.
Qed.

Lemma rets_verifying {A} (m : M (ctl * W) A) R : rets m R → rets (verifying m) R.
Proof. intros H. apply rets_try; [done|]. intros e. apply rets_raise. Qed.

(** Whatever the host answers, a contract that is returned is sound. *)
Lemma accepted_contract pid mount allowed allowed_fifos allowed_stdio s c s' :
  validate_replay_resources (W:=W) pid mount allowed allowed_fifos allowed_stdio s = (Ok c, s') →
  ∃ fifos stdio, mapM _absolute allowed_fifos = Ok fifos ∧ mapM _absolute allowed_stdio = Ok stdio ∧
    _absolute mount = Ok (ct_overlay c) ∧ accepted pid fifos stdio c.
Proof.
  intros Hrun.
  enough (rets (S:=ctl * W) (validate_replay_resources pid mount allowed allowed_fifos allowed_stdio)
    (fun c => ∃ fifos stdio, mapM _absolute allowed_fifos = Ok fifos ∧ mapM _absolute allowed_stdio = Ok stdio ∧
      _absolute mount = Ok (ct_overlay c) ∧ accepted pid fifos stdio c)) as H
    by (specialize (H s); unfold wp in H; by rewrite Hrun in H).
  unfold validate_replay_resources.
  eapply (rets_bind (fun r => _absolute mount = Ok r)); [by apply rets_lift|]. intros overlay Ho.
  eapply (rets_bind (fun r => mapM _absolute allowed_fifos = Ok r)); [by apply rets_lift|]. intros fifos Hfi.
  eapply (rets_bind (fun r => mapM _absolute allowed_stdio = Ok r)); [by apply rets_lift|]. intros stdio Hst.
  apply rets_verifying. apply rets_then; intros [? identity]. apply rets_then; intros tasks.
  destruct (negb (bool_decide (tasks = _))); [apply rets_raise|]. apply rets_then; intros exited.
  apply rets_then; intros cwd. destruct (negb (startswith cwd "/")) eqn:Ec1; cbn [orb]; [apply rets_raise|].
  destruct (deleted cwd) eqn:Ec2; [apply rets_raise|]. destruct (_within cwd overlay) eqn:Ec3; [apply rets_raise|].
  apply rets_then; intros exe. destruct (deleted exe || _ || _) eqn:Ex; [apply rets_raise|].
  apply orb_false_iff in Ex as [Ex Ex3]. apply orb_false_iff in Ex as [Ex1 Ex2]. apply negb_false_iff in Ex3, Ec1.
  apply rets_then; intros names. eapply rets_bind; [apply fds_loop_ok; constructor|]. intros fds (Hf1 & Hf2 & _).
  apply rets_then; intros maps.
  eapply (rets_bind (fun ms => Forall (mapping_ok overlay) ms)).
  { apply rets_lift. intros ms Hm. by eapply check_mappings_ok. }
  intros ms Hms. apply rets_then; intros [? identity']. apply rets_then; intros names'.
  destruct (_ || _); [apply rets_raise|]. apply rets_ret. exists fifos, stdio.
  split_and!; [done|done|done|]. constructor; cbn [ct_overlay ct_cwd ct_fds ct_evidence]; [done|done|done|done|].
  by eexists.
Qed.

End proofs.

End AsyncResources.
