(* ===== verification/ResourcesSpec.v ===== *)
(** * What the inspection of a worker accepts

    [AsyncResources] says how [validate_replay_resources] reads /proc.  Here is
    what it accepts, of a worker that holds still while it is inspected (its
    caller sees to that): exactly the processes that hold nothing a checkpoint
    would have to roll back ([harmless]). *)

From S2P Require Import Prelude Hoare PyStr PyDict Resources Registry Overlay RootOverlay Host Sim Process AsyncResources.
From Stdlib Require Import Ascii.

Module ResourcesSpec.
Import Resources Process AsyncResources.

(** What /proc shows of a worker that holds still. *)
Record procfs := Procfs {
  pf_stat : string; pf_tasks : list string; pf_children : string;
  pf_child : Z → result string;          (* the stat of another process *)
  pf_cwd : string; pf_exe : string; pf_fds : list string;
  pf_link : string → string; pf_info : string → string; pf_kind : string → file_kind * Z;
  pf_maps : string;
}.

(** A child that has exited. *)
Definition child_gone (P : procfs) (child : Z) : Prop :=
  (∃ e, pf_child P child = Err e ∧ exn_cls e = FileNotFoundError) ∨
  ∃ text st t, pf_child P child = Ok text ∧ status_identity text = Ok (st, t) ∧ st ∈ ["Z"; "X"].

(** An open file without rollback state. *)
Definition carries_nothing (fifos stdio : list string) (fd : Z) (path : string) (flags : Z) (kind : file_kind) : Prop :=
  (kind = KFifo ∧ path ∈ fifos ∧ Z.land flags O_ACCMODE = O_RDWR ∧ has_flag flags O_NONBLOCK = true) ∨
  (kind = KChr ∧ path = "/dev/null" ∧ fd ∈ [0; 1; 2]%Z) ∨
  (kind = KReg ∧ path ∈ stdio ∧ fd ∈ [1; 2]%Z ∧ has_flag flags O_APPEND = true).
Definition fd_harmless (fifos stdio : list string) (P : procfs) (name : string) : Prop :=
  ∃ fd flags_text flags mnt_text mnt, parse_int name = Ok fd ∧
    info_lookup (pf_info P name) "flags" = Ok flags_text ∧ parse_uint 8 (strip flags_text) = Ok flags ∧
    info_lookup (pf_info P name) "mnt_id" = Ok mnt_text ∧ parse_int mnt_text = Ok mnt ∧
    deleted (pf_link P name) = false ∧ carries_nothing fifos stdio fd (pf_link P name) flags (pf_kind P name).1.
(** The protocol FIFOs that are open, one for each descriptor. *)
Definition open_fifos (fifos : list string) (P : procfs) (names : list string) : list string :=
  omap (fun n => if bool_decide ((pf_kind P n).1 = KFifo) && mem (pf_link P n) fifos then Some (pf_link P n) else None) names.

(** A line of [maps]: kernel pages, or private or read-only memory of the image,
    or private anonymous memory. *)
Definition memory_harmless (overlay perms path : string) : Prop :=
  let private := String.get 3 perms = Some "p"%char in
  String.length perms = 4 ∧
  (vdso_path path = true ∨
   deleted path = false ∧
     ((startswith path "/" = true ∧ _within path overlay = false ∧ immutable_path path = true ∧ (private ∨ perms = "r--s")) ∨
      (startswith path "/" = false ∧ private ∧ (path = "" ∨ path ∈ ["[heap]"; "[stack]"] ∨ startswith path "[anon:" = true)))).
Definition line_harmless (overlay line : string) : Prop :=
  match split_ws_max 5 line with
  | _ :: perms :: _ :: _ :: _ :: rest => memory_harmless overlay perms (List.hd "" rest)
  | _ => False
  end.

(** Nothing the process holds could be changed behind the back of a checkpoint. *)
Record harmless (pid : Z) (allowed : list Z) (overlay : string) (fifos stdio : list string) (P : procfs) : Prop := {
  hl_identity : is_Ok (status_identity (pf_stat P)) = true;
  hl_single : pf_tasks P = [pretty pid];
  hl_children : ∃ children, parse_ints (split_ws (pf_children P)) = Ok children ∧
    ∀ child, child ∈ children → child ∈ allowed ∨ child_gone P child;
  hl_cwd : startswith (pf_cwd P) "/" = true ∧ deleted (pf_cwd P) = false ∧ _within (pf_cwd P) overlay = false;
  hl_exe : deleted (pf_exe P) = false ∧ _within (pf_exe P) overlay = false ∧ immutable_path (pf_exe P) = true;
  hl_fds : ∀ name, name ∈ pf_fds P → fd_harmless fifos stdio P name;
  hl_fifos : NoDup (open_fifos fifos P (pf_fds P));
  hl_maps : ∀ line, line ∈ splitlines (pf_maps P) → line_harmless overlay line;
}.

(** What the contract records of an open file. *)
Definition recorded (P : procfs) (name : string) (i : fd_item) : Prop :=
  parse_int name = Ok (fi_fd i) ∧ fi_path i = pf_link P name ∧ fi_cloexec i = has_flag (fi_flags i) O_CLOEXEC ∧
  ∃ flags_text, info_lookup (pf_info P name) "flags" = Ok flags_text ∧ parse_uint 8 (strip flags_text) = Ok (fi_flags i).

(** ** One descriptor, one mapping *)

Lemma check_fd_iff fifos stdio seen fd path flags kind :
  is_Ok (check_fd fifos stdio seen fd path flags kind) = true ↔
  deleted path = false ∧ carries_nothing fifos stdio fd path flags kind ∧
  (bool_decide (kind = KFifo) && mem path fifos = true → path ∉ seen).
Proof.
  unfold check_fd, carries_nothing, unsupported, raise. destruct (deleted path); [naive_solver|].
  pose proof (mem_true path seen) as Hs. pose proof (mem_true path fifos) as Hf. pose proof (mem_true path stdio) as Hd.
  pose proof (mem_true fd [0; 1; 2]%Z) as H0. pose proof (mem_true fd [1; 2]%Z) as H1.
  pose proof (bool_decide_eq_true (path = "/dev/null")) as Hn. pose proof (Z.eqb_eq (Z.land flags O_ACCMODE) O_RDWR) as Ha.
  destruct kind; cbn.
  - destruct (mem path fifos); [destruct (_ =? _)%Z, (has_flag flags O_NONBLOCK), (mem path seen)|]; cbn; naive_solver.
  - destruct (bool_decide (path = "/dev/null")), (mem fd [0; 1; 2]%Z); cbn; naive_solver.
  - destruct (mem fd [1; 2]%Z); [destruct (mem path stdio); [destruct (has_flag flags O_APPEND)|]|]; cbn; naive_solver.
  - naive_solver.
Qed.
Lemma check_fd_seen fifos stdio seen fd path flags kind k seen' :
  check_fd fifos stdio seen fd path flags kind = Ok (k, seen') →
  seen' = if bool_decide (kind = KFifo) && mem path fifos then path :: seen else seen.
Proof.
  unfold check_fd, unsupported, raise. destruct (deleted path); [done|].
  destruct (bool_decide (kind = KFifo) && mem path fifos); repeat case_match; naive_solver.
Qed.

Lemma check_mapping_iff overlay line : is_Ok (check_mapping overlay line) = true ↔ line_harmless overlay line.
Proof.
  unfold check_mapping, line_harmless, unsupported, raise.
  destruct (split_ws_max 5 line) as [|address [|perms [|f3 [|f4 [|f5 rest]]]]]; try done.
  unfold memory_harmless. set (path := List.hd "" rest). cbv zeta.
  pose proof (Nat.eqb_eq (String.length perms) 4) as Hl. pose proof (bool_decide_eq_true (String.get 3 perms = Some "p"%char)) as Hp.
  pose proof (bool_decide_eq_true (perms = "r--s")) as Hr. pose proof (bool_decide_eq_true (path = "")) as He.
  pose proof (mem_true path ["[heap]"; "[stack]"]) as Hh.
  destruct (String.length perms =? 4)%nat; cbn [negb]; [|naive_solver]. destruct (vdso_path path); [naive_solver|].
  revert Hp Hr He Hh. generalize (bool_decide (String.get 3 perms = Some "p"%char)), (bool_decide (perms = "r--s")), (bool_decide (path = "")),
    (mem path ["[heap]"; "[stack]"]), (startswith path "[anon:").
  generalize (String.get 3 perms = Some "p"%char) as Private, (perms = "r--s") as Shared, (path = "") as Empty, (path ∈ ["[heap]"; "[stack]"]) as Heap.
  intros Private Shared Empty Heap bp br be bh ba Hp Hr He Hh.
  destruct (deleted path); [destruct (negb bp && _); naive_solver|].
  destruct (startswith path "/").
  - destruct bp; [|destruct br]; destruct (_within path overlay); try destruct (immutable_path path); cbn [negb andb]; intuition congruence.
  - destruct bp; cbn [negb andb]; [|rewrite andb_false_r; cbn [negb andb]; intuition congruence].
    destruct be; [|destruct bh; [|destruct ba]]; cbn [negb andb orb]; intuition congruence.
Qed.
Lemma check_mappings_iff overlay ls :
  is_Ok (check_mappings overlay ls) = true ↔ ∀ line, line ∈ ls → line_harmless overlay line.
Proof.
  induction ls as [|l ls IH]; cbn [check_mappings]; [split; [by intros _ ? ?%elem_of_nil|done]|].
  pose proof (check_mapping_iff overlay l) as Hl. unfold mbind, result_bind.
  destruct (check_mapping overlay l) as [m|e]; cbn in *; [|split; [done|]; intros H; by apply Hl, H; left].
  destruct (check_mappings overlay ls) as [ms|e]; cbn in *.
  - split; [|done]. intros _ line [->|Hin]%elem_of_cons; [by apply Hl|by apply IH].
  - split; [done|]. intros H. apply IH. intros line Hin. apply H. by right.
Qed.

(** Refused: some field of [harmless] does not hold. *)
Ltac refuse H := eexists; split_and!; [reflexivity| |done]; split; [done|intros H].

(** ** The loops on a process that holds still *)

Section still.
Context {W : Type} `{!KernelOverlay W} `{!MountHost W} `{!Host W}.
Context (pid : Z) (P : procfs) (s : ctl * W).

(** The calls of the inspection answer with [P] and change nothing. *)
Record shows : Prop := {
  sh_stat : call (ReadFile (proc pid "/stat")) s = (Ok (pf_stat P), s);
  sh_tasks : call (ListDir (proc pid "/task")) s = (Ok (pf_tasks P), s);
  sh_children : call (ReadFile (proc pid ("/task/" +:+ pretty pid +:+ "/children"))) s = (Ok (pf_children P), s);
  sh_child child : child ≠ pid → call (ReadFile (proc child "/stat")) s = (pf_child P child, s);
  sh_self : pf_child P pid = Ok (pf_stat P);
  sh_cwd : call (ReadLink (proc pid "/cwd")) s = (Ok (pf_cwd P), s);
  sh_exe : call (ReadLink (proc pid "/exe")) s = (Ok (pf_exe P), s);
  sh_fds : call (ListDir (proc pid "/fd")) s = (Ok (pf_fds P), s);
  sh_link name : name ∈ pf_fds P → call (ReadLink (proc pid ("/fd/" +:+ name))) s = (Ok (pf_link P name), s);
  sh_info name : name ∈ pf_fds P → call (ReadFile (proc pid ("/fdinfo/" +:+ name))) s = (Ok (pf_info P name), s);
  sh_kind name : name ∈ pf_fds P → call (StatKind (proc pid ("/fd/" +:+ name))) s = (Ok (pf_kind P name), s);
  sh_maps : call (ReadFile (proc pid "/maps")) s = (Ok (pf_maps P), s);
}.
Context (Hshows : shows).

(** A step whose answer is known. *)
Lemma bind_known {A B} (m : M (ctl * W) A) (k : A → M (ctl * W) B) v : m s = (v, s) →
  (m ≫= k) s = match v with Ok a => k a s | Err e => (Err e, s) end.
Proof. intros E. unfold mbind, M_bind. rewrite E. by destruct v. Qed.
Lemma lift_known {A} (v : result A) : lift_result v s = (v, s).
Proof. done. Qed.

Lemma identity_known child : identity_of child s = (t ← pf_child P child; status_identity t, s).
Proof.
  unfold identity_of. assert (call (ReadFile (proc child "/stat")) s = (pf_child P child, s)) as E.
  { destruct (decide (child = pid)) as [->|]; [rewrite (sh_self Hshows); apply Hshows|by apply Hshows]. }
  rewrite (bind_known _ _ _ E). by destruct (pf_child P child).
Qed.

Lemma status_identity_err text e : status_identity text = Err e → exn_cls e ≠ FileNotFoundError.
Proof.
  unfold status_identity, unsupported, raise. destruct (after_paren text) as [tail|]; [|by intros [= <-]].
  destruct (split_ws tail !! 0) as [st|]; [|by intros [= <-]]. destruct (split_ws tail !! 19) as [t|]; [|by intros [= <-]].
  unfold parse_int, parse_uint, raise, mbind, result_bind. repeat case_match; try done; intros [= <-]; simplify_eq; try done.
Qed.

(** What the loop makes of one child: its state, [None] when it is gone. *)
Definition child_state (child : Z) : result (option string) :=
  match (t ← pf_child P child; status_identity t) with
  | Ok i => Ok (Some i.1)
  | Err e => if is_cls FileNotFoundError e then Ok None else Err e
  end.
Lemma child_state_run child :
  mtry (is_cls FileNotFoundError) (i ← identity_of child; mret (Some i.1)) (fun _ => mret None) s = (child_state child, s).
Proof.
  unfold mtry, mcatch, child_state. rewrite (bind_known _ _ _ (identity_known child)).
  destruct (t ← pf_child P child; status_identity t) as [i|e]; [done|]. by destruct (is_cls FileNotFoundError e).
Qed.
Lemma child_state_gone child :
  child_gone P child ↔ child_state child = Ok None ∨ ∃ st, child_state child = Ok (Some st) ∧ mem st ["Z"; "X"] = true.
Proof.
  unfold child_gone, child_state, is_cls. destruct (pf_child P child) as [text|e]; cbn [mbind result_bind].
  - destruct (status_identity text) as [[st t]|e] eqn:E; cbn [fst].
    + split.
      * intros [(e & [=] & _)|(text' & st' & t' & [= <-] & E' & Hin)]. right. rewrite E in E'. injection E' as <- <-.
        exists st. split; [done|]. by apply mem_true.
      * intros [[=]|(st' & [= <-] & Hm)]. right. exists text, st, t. split_and!; [done..|]. by apply mem_true.
    + rewrite bool_decide_eq_false_2 by (by eapply status_identity_err). split.
      * intros [(? & [=] & _)|(text' & st & t & [= <-] & E' & _)]. congruence.
      * by intros [[=]|(? & [=] & _)].
  - case_bool_decide as Ec; split.
    + auto.
    + intros _. left. eauto.
    + by intros [(? & [= <-] & ?)|(? & ? & ? & [=] & _)].
    + by intros [[=]|(? & [=] & _)].
Qed.

(** Only exited children: nothing that lives is left. *)
Lemma children_run pids :
  ∃ v, children_loop pids s = (v, s) ∧ ((∃ gone, v = Ok ([], gone)) ↔ ∀ child, child ∈ pids → child_gone P child).
Proof.
  induction pids as [|child pids (v & Hv & IH)]; cbn [children_loop].
  { eexists. split; [done|]. split; [by intros _ ? ?%elem_of_nil|]. by eexists. }
  rewrite (bind_known _ _ _ (child_state_run child)).
  assert ((∀ c, c ∈ child :: pids → child_gone P c) ↔ child_gone P child ∧ ∀ c, c ∈ pids → child_gone P c) as Hcons by set_solver.
  pose proof (child_state_gone child) as Hst. revert IH Hcons Hst.
  generalize (∀ c, c ∈ child :: pids → child_gone P c) as All', (∀ c, c ∈ pids → child_gone P c) as All, (child_gone P child) as Gone.
  intros All' All Gone IH Hcons Hst.
  destruct (child_state child) as [[st|]|e].
  - rewrite (bind_known _ _ _ Hv). destruct v as [[live gone]|e].
    + destruct (mem st ["Z"; "X"]) eqn:Em; eexists; (split; [reflexivity|]); rewrite Hcons, <- IH, Hst; clear -Em.
      * split; [intros [? [= -> _]]; eauto 10|]. intros [_ [? [= -> _]]]. by eexists.
      * split; [by intros [? [=]]|]. intros [[[=]|(? & [= <-] & ?)] _]. congruence.
    + exists (Err e). split; [done|]. rewrite Hcons, <- IH. clear. split; [by intros [? [=]]|]. by intros (_ & ? & [=]).
  - rewrite (bind_known _ _ _ Hv). destruct v as [[live gone]|e]; eexists; (split; [reflexivity|]); rewrite Hcons, <- IH, Hst; clear.
    + split; [intros [? [= -> _]]; eauto 10|]. intros [_ [? [= -> _]]]. by eexists.
    + split; [by intros [? [=]]|]. by intros (_ & ? & [=]).
  - exists (Err e). split; [done|]. rewrite Hcons, Hst. clear. split; [by intros [? [=]]|]. by intros [[[=]|(? & [=] & _)] _].
Qed.

(** [verifying] only renames exceptions. *)
Lemma verifying_run {A} (m : M (ctl * W) A) (Q : Prop) (R : A → Prop) :
  (∃ v, m s = (v, s) ∧ (is_Ok v = true ↔ Q) ∧ ∀ a, v = Ok a → R a) →
  ∃ v, verifying m s = (v, s) ∧ (is_Ok v = true ↔ Q) ∧ ∀ a, v = Ok a → R a.
Proof.
  intros (v & E & Hiff & HR). unfold verifying, mtry, mcatch. rewrite E.
  destruct v as [a|e]; [eexists; by split_and!|]. by destruct (_ || _); eexists; split_and!.
Qed.

Lemma validate_children_run allowed :
  ∃ v, validate_replay_children pid allowed s = (v, s) ∧
    (is_Ok v = true ↔ ∃ children, parse_ints (split_ws (pf_children P)) = Ok children ∧
                        ∀ child, child ∈ children → child ∈ allowed ∨ child_gone P child) ∧
    ∀ gone, v = Ok gone → True.
Proof.
  apply verifying_run. rewrite (bind_known _ _ _ (sh_children Hshows)), (bind_known _ _ _ (lift_known _)).
  destruct (parse_ints _) as [children|e]; [|eexists; split_and!; [done| |done]; split; [done|by intros (? & [=] & _)]].
  destruct (children_run (List.filter (fun c => negb (mem c allowed)) (remove_dups children))) as (v & Hv & Hiff).
  rewrite (bind_known _ _ _ Hv).
  assert ((∀ child, child ∈ List.filter (fun c => negb (mem c allowed)) (remove_dups children) → child_gone P child) ↔
          ∀ child, child ∈ children → child ∈ allowed ∨ child_gone P child) as Hset.
  { setoid_rewrite list_elem_of_In. setoid_rewrite List.filter_In. setoid_rewrite <- list_elem_of_In. setoid_rewrite elem_of_remove_dups.
    setoid_rewrite negb_true_iff. setoid_rewrite mem_false. split; intros H child Hin.
    - destruct (decide (child ∈ allowed)); [by left|right; by apply H].
    - destruct Hin as [Hin Hn]. by destruct (H _ Hin). }
  rewrite Hset in Hiff. destruct v as [[live gone]|e].
  - case_bool_decide as El; eexists; (split_and!; [reflexivity| |done]); cbn [is_Ok]; (split; [intros H|intros (? & [= <-] & Hall)]); try done.
    + exists children. split; [done|]. apply Hiff. subst. by eexists.
    + apply Hiff in Hall as [? [= -> _]]. done.
  - eexists. split_and!; [done| |done]. split; [done|]. intros (? & [= <-] & Hall). by apply Hiff in Hall as [? [=]].
Qed.

#[local] Existing Instance by_number_dec.
(** The descriptors, by number. *)
Definition shown_names : result (list string) :=
  keys ← mapM (fun n => k ← parse_int n; Ok (k, n)) (pf_fds P); Ok ((merge_sort by_number keys).*2).
Lemma fd_names_run : fd_names pid s = (shown_names, s).
Proof.
  unfold fd_names, shown_names. rewrite (bind_known _ _ _ (sh_fds Hshows)), (bind_known _ _ _ (lift_known _)).
  by destruct (mapM _ (pf_fds P)).
Qed.
Lemma keys_names names keys :
  mapM (fun n => k ← parse_int n; Ok (k, n)) names = Ok keys → keys.*2 = names.
Proof.
  revert keys. induction names as [|n names IH]; intros keys; cbn [mapM]; [by intros [= <-]|].
  destruct (parse_int n) as [k|]; [|done]. unfold mbind, result_bind in *. destruct (mapM _ names) as [ks|]; [|done].
  intros [= <-]. cbn. by rewrite (IH ks).
Qed.
Lemma shown_names_perm names : shown_names = Ok names → names ≡ₚ pf_fds P.
Proof.
  unfold shown_names. destruct (mapM _ (pf_fds P)) as [keys|] eqn:E; [|done]. intros [= <-].
  rewrite <- (keys_names _ _ E). by rewrite merge_sort_Permutation.
Qed.
Lemma shown_names_ok : (∀ name, name ∈ pf_fds P → ∃ fd, parse_int name = Ok fd) → ∃ names, shown_names = Ok names.
Proof.
  intros H. unfold shown_names.
  assert (∃ keys, mapM (fun n => k ← parse_int n; Ok (k, n)) (pf_fds P) = Ok keys) as [keys ->]; [|by eexists].
  induction (pf_fds P) as [|n names IH]; [by eexists|]. destruct (H n) as [k Hk]; [left|].
  destruct IH as [ks IH]; [intros m Hm; apply H; by right|]. exists ((k, n) :: ks). cbn [mapM]. rewrite Hk.
  unfold mbind, result_bind in *. by rewrite IH.
Qed.

Section fds.
Context (fifos stdio : list string).

(** One descriptor, as [fds_loop] reads it. *)
Definition head_fd (seen : list string) (name : string) : result (fd_item * list string) :=
  fd ← parse_int name;
  flags_text ← info_lookup (pf_info P name) "flags";
  flags ← parse_uint 8 (strip flags_text);
  '(k, seen) ← check_fd fifos stdio seen fd (pf_link P name) flags (pf_kind P name).1;
  mnt_text ← info_lookup (pf_info P name) "mnt_id";
  mnt ← parse_int mnt_text;
  Ok (FdItem fd (pf_link P name) flags k (has_flag flags O_CLOEXEC) (Some ((pf_kind P name).2, mnt)), seen).
Definition fifo_open (name : string) : bool := bool_decide ((pf_kind P name).1 = KFifo) && mem (pf_link P name) fifos.

Lemma fds_loop_cons seen name names : name ∈ pf_fds P →
  fds_loop pid fifos stdio (name :: names) seen s =
  match head_fd seen name with
  | Ok (i, seen') => (rest ← fds_loop pid fifos stdio names seen'; mret (i :: rest)) s
  | Err e => (Err e, s)
  end.
Proof.
  intros Hin. cbn [fds_loop]. unfold head_fd. rewrite (bind_known _ _ _ (lift_known _)).
  destruct (parse_int name) as [fd|e]; [|done]. cbn [mbind result_bind].
  rewrite (bind_known _ _ _ (sh_link Hshows _ Hin)), (bind_known _ _ _ (sh_info Hshows _ Hin)), (bind_known _ _ _ (lift_known _)).
  destruct (info_lookup _ "flags") as [ft|e]; [|done]. rewrite (bind_known _ _ _ (lift_known _)). cbn [mbind result_bind].
  destruct (parse_uint 8 _) as [flags|e]; [|done]. rewrite (bind_known _ _ _ (sh_kind Hshows _ Hin)).
  pose proof (sh_kind Hshows _ Hin) as Hkind. destruct (pf_kind P name) as [kind ino].
  rewrite (bind_known _ _ _ (lift_known _)). cbn [mbind result_bind fst snd].
  destruct (check_fd _ _ _ _ _ _ _) as [[k seen']|e]; [|done]. cbn [mbind result_bind]. rewrite (bind_known _ _ _ Hkind), (bind_known _ _ _ (lift_known _)).
  destruct (info_lookup _ "mnt_id") as [mt|e]; [|done]. rewrite (bind_known _ _ _ (lift_known _)). cbn [mbind result_bind].
  by destruct (parse_int mt).
Qed.

Lemma head_fd_iff seen name :
  is_Ok (head_fd seen name) = true ↔
  fd_harmless fifos stdio P name ∧ (fifo_open name = true → pf_link P name ∉ seen).
Proof.
  unfold head_fd, fd_harmless, fifo_open. cbn [mbind result_bind].
  destruct (parse_int name) as [fd|e]; cbn [mbind result_bind]; [|split; [done|]; intros [(? & ? & ? & ? & ? & [=] & _) _]].
  destruct (info_lookup _ "flags") as [ft|e]; cbn [mbind result_bind]; [|split; [done|]; by intros [(? & ? & ? & ? & ? & _ & [=] & _) _]].
  destruct (parse_uint 8 _) as [flags|e] eqn:Ef; cbn [mbind result_bind];
    [|split; [done|]; intros [(? & ? & ? & ? & ? & _ & [= <-] & Hf & _) _]; congruence].
  pose proof (check_fd_iff fifos stdio seen fd (pf_link P name) flags (pf_kind P name).1) as Hc.
  destruct (check_fd _ _ _ _ _ _ _) as [[k seen']|e]; cbn [mbind result_bind is_Ok] in *.
  2: { split; [done|]. intros [(fd' & ft' & flags' & ? & ? & [= <-] & [= <-] & Hf & _ & _ & Hd & Hn) Hs].
       rewrite Ef in Hf. injection Hf as <-. by apply Hc. }
  destruct Hc as [Hc _]. destruct (Hc eq_refl) as (Hd & Hn & Hs). clear Hc.
  destruct (info_lookup _ "mnt_id") as [mt|e]; cbn [mbind result_bind];
    [|split; [done|]; by intros [(? & ? & ? & ? & ? & _ & _ & _ & [=] & _) _]].
  destruct (parse_int mt) as [mnt|e] eqn:Em; cbn [mbind result_bind is_Ok].
  - split; [|done]. intros _. split; [|done]. by exists fd, ft, flags, mt, mnt.
  - split; [done|]. intros [(? & ? & ? & ? & ? & _ & _ & _ & [= <-] & Hm & _) _]. congruence.
Qed.
Lemma head_fd_keeps seen name i seen' : head_fd seen name = Ok (i, seen') →
  recorded P name i ∧ seen' = if fifo_open name then pf_link P name :: seen else seen.
Proof.
  unfold head_fd, fifo_open, recorded. cbn [mbind result_bind]. destruct (parse_int name) as [fd|]; [|done]. cbn [mbind result_bind].
  destruct (info_lookup _ "flags") as [ft|]; [|done]. cbn [mbind result_bind].
  destruct (parse_uint 8 _) as [flags|] eqn:Ef; [|done]. cbn [mbind result_bind].
  destruct (check_fd _ _ _ _ _ _ _) as [[k seen1]|] eqn:E; [|done]. cbn [mbind result_bind].
  destruct (info_lookup _ "mnt_id") as [mt|]; [|done]. cbn [mbind result_bind].
  destruct (parse_int mt) as [mnt|]; [|done]. cbn [mbind result_bind].
  intros [= <- <-]. split; [split_and!; [done..|by eexists]|]. by apply check_fd_seen in E.
Qed.

(** Every descriptor is harmless and no protocol FIFO is open twice. *)
Lemma fds_loop_run names seen : (∀ name, name ∈ names → name ∈ pf_fds P) →
  ∃ v, fds_loop pid fifos stdio names seen s = (v, s) ∧
    (is_Ok v = true ↔ (∀ name, name ∈ names → fd_harmless fifos stdio P name) ∧
                      NoDup (open_fifos fifos P names) ∧ ∀ p, p ∈ open_fifos fifos P names → p ∉ seen) ∧
    ∀ fds, v = Ok fds → Forall2 (recorded P) names fds.
Proof.
  revert seen. induction names as [|name names IH]; intros seen Hsub.
  { exists (Ok []). split_and!; [done| |intros fds [= <-]; constructor]. split; [|done]. intros _.
    split_and!; [by intros ? ?%elem_of_nil|constructor|by intros ? ?%elem_of_nil]. }
  rewrite fds_loop_cons by (apply Hsub; left). pose proof (head_fd_iff seen name) as Hh. pose proof (head_fd_keeps seen name) as Hk.
  assert (open_fifos fifos P (name :: names) = (if fifo_open name then [pf_link P name] else []) ++ open_fifos fifos P names) as Ho.
  { unfold open_fifos, fifo_open. cbn [omap list_omap]. by destruct (_ && _). }
  rewrite Ho. clear Ho.
  destruct (head_fd seen name) as [[i seen']|e].
  2: { exists (Err e). split_and!; [done| |done]. split; [done|]. intros (H1 & H2 & H3). apply Hh. split; [apply H1; left|].
       intros Hc. apply H3. rewrite Hc. left. }
  destruct (Hk _ _ eq_refl) as [Hp Hseen]. destruct Hh as [Hh _]. destruct (Hh eq_refl) as [Hharm Hnot]. clear Hk Hh.
  destruct (IH seen') as (v & Hv & Hiff & Hpaths); [intros n Hn; apply Hsub; by right|].
  rewrite (bind_known _ _ _ Hv). destruct v as [fds|e].
  - exists (Ok (i :: fds)). split_and!; [done| |intros ? [= <-]; constructor; by auto].
    split; [|done]. intros _. destruct Hiff as [Hiff _]. destruct (Hiff eq_refl) as (H1 & H2 & H3). split_and!.
    + by intros n [->|Hn]%elem_of_cons; [|apply H1].
    + destruct (fifo_open name); [|done]. constructor; [|done]. intros Hin. apply (H3 _ Hin). rewrite Hseen. left.
    + intros p Hin. destruct (fifo_open name).
      * apply elem_of_cons in Hin as [->|Hin]; [by apply Hnot|]. intros Hs. apply (H3 _ Hin). rewrite Hseen. by right.
      * rewrite <- Hseen. by apply H3.
  - exists (Err e). split_and!; [done| |done]. split; [done|]. intros (H1 & H2 & H3). apply Hiff. split_and!.
    + intros n Hn. apply H1. by right.
    + destruct (fifo_open name); [by apply NoDup_cons in H2 as [_ H2]|done].
    + intros p Hin. rewrite Hseen. destruct (fifo_open name); [|by apply H3].
      cbn in H2, H3. apply NoDup_cons in H2 as [H2 _]. intros [->|Hs]%elem_of_cons; [done|]. apply (H3 p); [by right|done].
Qed.
End fds.

(** What an accepted process is recorded as. *)
Definition describes (overlay : string) (c : contract) : Prop :=
  ct_overlay c = overlay ∧ ct_cwd c = pf_cwd P ∧
  (∃ names, names ≡ₚ pf_fds P ∧ Forall2 (recorded P) names (ct_fds c)) ∧
  ∃ ev, ct_evidence c = Some ev ∧ ev_executable ev = pf_exe P.

Lemma inspection_run mount allowed allowed_fifos allowed_stdio overlay fifos stdio :
  _absolute mount = Ok overlay → mapM _absolute allowed_fifos = Ok fifos → mapM _absolute allowed_stdio = Ok stdio →
  ∃ r, validate_replay_resources pid mount allowed allowed_fifos allowed_stdio s = (r, s) ∧
    (is_Ok r = true ↔ harmless pid allowed overlay fifos stdio P) ∧ ∀ c, r = Ok c → describes overlay c.
Proof.
  intros Ho Hf Hd. unfold validate_replay_resources.
  rewrite (bind_known _ _ _ (lift_known _)), Ho, (bind_known _ _ _ (lift_known _)), Hf, (bind_known _ _ _ (lift_known _)), Hd.
  apply verifying_run. rewrite (bind_known _ _ _ (identity_known pid)), (sh_self Hshows). cbn [mbind result_bind].
  destruct (status_identity (pf_stat P)) as [[st0 identity]|e] eqn:Ei; [|refuse H; pose proof (hl_identity _ _ _ _ _ _ H) as Hi; by rewrite Ei in Hi].
  rewrite (bind_known _ _ _ (sh_tasks Hshows)). case_bool_decide as Et; cbn [negb]; [|refuse H; by destruct Et; apply H].
  destruct (validate_children_run allowed) as (vc & Hvc & Hc & _). rewrite (bind_known _ _ _ Hvc).
  destruct vc as [exited|e]; [|refuse H; by apply Hc, H].
  rewrite (bind_known _ _ _ (sh_cwd Hshows)).
  destruct (startswith (pf_cwd P) "/") eqn:Ec1; cbn [negb orb]; [|refuse H; destruct (hl_cwd _ _ _ _ _ _ H) as (? & ? & ?); congruence].
  destruct (deleted (pf_cwd P)) eqn:Ec2; [refuse H; destruct (hl_cwd _ _ _ _ _ _ H) as (? & ? & ?); congruence|].
  destruct (_within (pf_cwd P) overlay) eqn:Ec3; [refuse H; destruct (hl_cwd _ _ _ _ _ _ H) as (? & ? & ?); congruence|].
  rewrite (bind_known _ _ _ (sh_exe Hshows)).
  destruct (deleted (pf_exe P)) eqn:Ex1; cbn [orb]; [refuse H; destruct (hl_exe _ _ _ _ _ _ H) as (? & ? & ?); congruence|].
  destruct (_within (pf_exe P) overlay) eqn:Ex2; cbn [orb]; [refuse H; destruct (hl_exe _ _ _ _ _ _ H) as (? & ? & ?); congruence|].
  destruct (immutable_path (pf_exe P)) eqn:Ex3; cbn [negb]; [|refuse H; destruct (hl_exe _ _ _ _ _ _ H) as (? & ? & ?); congruence].
  rewrite (bind_known _ _ _ fd_names_run).
  destruct shown_names as [names|e] eqn:En.
  2: { refuse H. destruct shown_names_ok as [? ?]; [|congruence]. intros n Hn.
       destruct (hl_fds _ _ _ _ _ _ H n Hn) as (fd & ? & ? & ? & ? & ? & _). by eexists. }
  pose proof (shown_names_perm _ En) as Hperm.
  destruct (fds_loop_run fifos stdio names []) as (vf & Hvf & Hfds & Hrec); [intros n Hn; by rewrite <- Hperm|].
  rewrite (bind_known _ _ _ Hvf).
  assert (open_fifos fifos P names ≡ₚ open_fifos fifos P (pf_fds P)) as Hop by (unfold open_fifos; by rewrite Hperm).
  destruct vf as [fds|e].
  2: { refuse H. apply Hfds. split_and!; [intros n Hn; apply H; by rewrite <- Hperm|rewrite Hop; apply H|].
       by intros p _ ?%elem_of_nil. }
  rewrite (bind_known _ _ _ (sh_maps Hshows)), (bind_known _ _ _ (lift_known _)).
  pose proof (check_mappings_iff overlay (splitlines (pf_maps P))) as Hm.
  destruct (check_mappings overlay _) as [ms|e]; [|refuse H; by apply Hm, H].
  rewrite (bind_known _ _ _ (identity_known pid)), (sh_self Hshows). cbn [mbind result_bind]. rewrite Ei.
  rewrite bool_decide_eq_true_2 by done. rewrite (bind_known _ _ _ fd_names_run), En.
  rewrite bool_decide_eq_true_2 by done. cbn [negb orb].
  eexists. split_and!; [reflexivity| |].
  - split; [intros _|done]. destruct Hfds as [Hfds _]. destruct (Hfds eq_refl) as (H1 & H2 & _).
    constructor; [by rewrite Ei|done|by apply Hc|done|done| |by rewrite <- Hop|by apply Hm].
    intros n Hn. apply H1. by rewrite Hperm.
  - intros c [= <-]. split_and!; [done|done| |by eexists]. exists names. split; [done|by apply Hrec].
Qed.
End still.

(** ** The inspection *)

(** C24: While the files of /proc show a process that holds still, [validate_replay_resources] returns a contract exactly
    when the process is harmless: one thread, its children allowed or exited, cwd outside the overlay and not deleted,
    an immutable executable that is not deleted, every open file and every mapping without rollback state, and no
    protocol FIFO open twice.  It changes nothing.  The contract is then valid, records every open file with its
    number, path and flags, and the cwd and executable. *)
Theorem validated_resources {W} `{!KernelOverlay W} `{!MountHost W} `{!Host W}
    pid P (s : ctl * W) mount allowed allowed_fifos allowed_stdio :
  shows pid P s →
  ∃ r, validate_replay_resources pid mount allowed allowed_fifos allowed_stdio s = (r, s) ∧
    (is_Ok r = true ↔ ∃ overlay fifos stdio,
       _absolute mount = Ok overlay ∧ mapM _absolute allowed_fifos = Ok fifos ∧ mapM _absolute allowed_stdio = Ok stdio ∧
       harmless pid allowed overlay fifos stdio P) ∧
    ∀ c, r = Ok c → ∃ overlay fifos stdio,
       _absolute mount = Ok overlay ∧ mapM _absolute allowed_fifos = Ok fifos ∧ mapM _absolute allowed_stdio = Ok stdio ∧
       accepted pid fifos stdio c ∧ describes P overlay c.
Proof.
  intros Hshows.
  destruct (_absolute mount) as [overlay|e] eqn:Ho.
  2: { unfold validate_replay_resources. rewrite (bind_known _ _ _ _ (lift_known _ _)), Ho. refuse H. by destruct H as (? & ? & ? & [=] & _). }
  destruct (mapM _absolute allowed_fifos) as [fifos|e] eqn:Hf.
  2: { unfold validate_replay_resources. rewrite (bind_known _ _ _ _ (lift_known _ _)), Ho, (bind_known _ _ _ _ (lift_known _ _)), Hf.
       refuse H. by destruct H as (? & ? & ? & _ & [=] & _). }
  destruct (mapM _absolute allowed_stdio) as [stdio|e] eqn:Hd.
  2: { unfold validate_replay_resources.
       rewrite (bind_known _ _ _ _ (lift_known _ _)), Ho, (bind_known _ _ _ _ (lift_known _ _)), Hf, (bind_known _ _ _ _ (lift_known _ _)), Hd.
       refuse H. by destruct H as (? & ? & ? & _ & _ & [=] & _). }
  destruct (inspection_run _ _ _ Hshows mount allowed allowed_fifos allowed_stdio _ _ _ Ho Hf Hd) as (r & Hr & Hiff & Hc).
  exists r. split; [done|]. split.
  - rewrite Hiff. split; [intros H; by exists overlay, fifos, stdio|]. by intros (? & ? & ? & [= <-] & [= <-] & [= <-] & H).
  - intros c ->. destruct (accepted_contract _ _ _ _ _ _ _ _ Hr) as (fi & st & E1 & E2 & _ & Hacc).
    exists overlay, fi, st. split_and!; [done|congruence|congruence|done|by apply Hc].
Qed.

Section demo.
Import Sim.
#[local] Existing Instance RootOverlay.sim_mount_host.
Definition demo_contract : contract :=
  Contract 1 "/m" "/" true false
    [FdItem 0 "/dev/null" 32770 null_stdio false (Some (5, 15)%Z);
     FdItem 3 "/tmp/agent.in" 526338 protocol_fifo true (Some (7, 14)%Z)]
    (Some (Evidence 50 777 "/usr/bin/python3"
       [Mapping "5500-5600" "r-xp" "/usr/bin/python3";
        Mapping "7f00-7f10" "r--s" "/usr/lib/gconv/gconv-modules.cache"] [63%Z])).
Definition demo_s : ctl * simw := (demo_c0, (demo_k0, [])).
Definition demo_P : procfs :=
  Procfs (sim_stat "50" "T") ["50"] "62 63 " (fun c => Ok (sim_read (proc c "/stat"))) "/" "/usr/bin/python3" ["3"; "0"]
    (fun n => sim_readlink (proc 50 ("/fd/" +:+ n))) (fun n => sim_read (proc 50 ("/fdinfo/" +:+ n)))
    (fun n => sim_stat_kind (proc 50 ("/fd/" +:+ n))) (sim_read "/proc/50/maps").
Lemma demo_shows : shows 50 demo_P demo_s.
Proof. constructor; try (by vm_compute); by intros. Qed.

(** The worker of the concrete host, whose disposable copy 62 is allowed, is
    accepted; were the copy not allowed, it would not be. *)
Example validated_resources_witness :
  (harmless 50 [62%Z] "/m" DEFAULT_FIFOS DEFAULT_STDIO demo_P ∧ describes demo_P "/m" demo_contract) ∧
  ¬ harmless 50 [] "/m" DEFAULT_FIFOS DEFAULT_STDIO demo_P.
Proof.
  split.
  - destruct (validated_resources 50 demo_P demo_s "/m/." [62%Z] DEFAULT_FIFOS DEFAULT_STDIO demo_shows) as (r & Hr & Hiff & Hc).
    assert (r = Ok demo_contract) as -> by (revert Hr; vm_compute; by intros [= <-]). split.
    + destruct Hiff as [Hiff _]. destruct (Hiff eq_refl) as (o & f & d & Ho & Hf & Hd & H).
      vm_compute in Ho, Hf, Hd. by simplify_eq.
    + destruct (Hc _ eq_refl) as (o & f & d & Ho & _ & _ & _ & H). vm_compute in Ho. by simplify_eq.
  - intros H. destruct (validated_resources 50 demo_P demo_s "/m" [] DEFAULT_FIFOS DEFAULT_STDIO demo_shows) as (r & Hr & Hiff & _).
    assert (is_Ok r = true) as E by (apply Hiff; by exists "/m", DEFAULT_FIFOS, DEFAULT_STDIO).
    vm_compute in Hr. injection Hr as <-. done.
Defined.
End demo.

End ResourcesSpec.
