(* ===== verification/Checkpoint.v ===== *)
(** * Checkpoints ([SandboxController._checkpoint_legacy])

    A checkpoint chooses a strategy, prepares the process to dump (bootstrap
    fork, pre-fork, fixed-pid clone or detached stash), submits the dump of
    that process, sinks a dirty upper directory into the layer chain, makes a
    warm template, and registers an entry.  Each phase is one definition and
    [checkpoint_legacy] composes them in the order of the code. *)

From S2P Require Import Prelude Hoare PyStr PyDict Registry Overlay RootOverlay SemanticParser.
From S2P Require Import MemoryClassifier Host Process.
From Stdlib Require Import Ascii.

Module Checkpoint.
Import Process.

(** Truth value of an optional string. *)
Definition truthy (o : option string) : bool :=
  match o with Some s => negb (bool_decide (s = "")) | None => false end.
Definition is_some {A} (o : option A) : bool := match o with Some _ => true | None => false end.

(** [Some pid] that Python takes as true. *)
Definition pid_set (o : option Z) : bool := match o with Some p => negb (p =? 0)%Z | None => false end.

(** ** The parent image of an incremental dump *)

Record prev := Prev { pv_id : string; pv_mem : string; pv_cross : bool; pv_mode : string }.

(** Whether the image of [e] can be the parent of a dump of [dump_tree]. *)
Definition same_tree (dump_tree : Z) (e : entry) : bool := bool_decide (e_dump_tree_pid e = Some dump_tree).
Definition fixed_pid_lineage (cfg : config) (ns_init : Z) (e : entry) : bool :=
  is_some (fixed_active_pid cfg) && bool_decide (e_fixed_active_pid e = fixed_active_pid cfg)
  && bool_decide (e_ns_init_pid e = Some ns_init) && bool_decide (e_external_pidns e = Some true).
Definition cross_pid_probe (cfg : config) : bool := env_probe_cross_pid cfg || env_fresh_pidns_active cfg.
Definition usable_parent (cfg : config) (ns_init dump_tree : Z) (errs : gmap string string)
    (walk_id : string) (e : entry) : bool :=
  negb (bool_decide (e_strategy e = "lightweight"))
  && (same_tree dump_tree e || fixed_pid_lineage cfg ns_init e || cross_pid_probe cfg)
  && negb (truthy (e_dump_error e)) && negb (truthy (errs !! walk_id)).
Definition pid_mode (cfg : config) (ns_init dump_tree : Z) (e : entry) : string :=
  if same_tree dump_tree e then "same-host-pid"
  else if fixed_pid_lineage cfg ns_init e then "fixed-active-pid" else "cross-pid-probe".

(** [while walk_id and walk_id in self.registry]: [None] when the fuel is too
    small for the chain, [Some None] when no ancestor qualifies. *)
Fixpoint prev_walk (fuel : nat) (cfg : config) (ns_init dump_tree : Z) (errs : gmap string string)
    (r : registry) (walk : option string) : option (option prev) :=
  match walk with
  | None => Some None
  | Some walk_id =>
      if bool_decide (walk_id = "") then Some None
      else
        match dget walk_id r with
        | None => Some None
        | Some e =>
            match fuel with
            | O => None
            | S fuel =>
                if usable_parent cfg ns_init dump_tree errs walk_id e
                then Some (Some (Prev walk_id (e_mem_path e) (negb (same_tree dump_tree e))
                                      (pid_mode cfg ns_init dump_tree e)))
                else prev_walk fuel cfg ns_init dump_tree errs r (e_parent_id e)
            end
        end
  end.

Section ops.
Context {W : Type} `{!KernelOverlay W} `{!MountHost W} `{!Host W} (cfg : config).
Abbreviation C := (M (ctl * W)).

(** ** Overlay *)

(** [_apply_overlay_switch]; the message of an [OSError] is its errno name. *)
Definition apply_overlay_switch (layers : list string) (upper_path work_path kind : string) : C unit :=
  mtry is_OSError
    (onw (os_ioctl (mount_fd cfg) OVL_IOCTL_CHECKPOINT_CMD (switch_options layers upper_path work_path kind)))
    (fun e => if bool_decide (exn_msg e = "ENOTTY")
              then mraise OverlaySwitchUnsupportedError "DeltaBox OverlayFS layer switching is unavailable"
              else mthrow e).

Definition all_ext_mount_map_args : C (list string) :=
  c ← getc;
  mret (["--ext-mount-map"; overlay_mount_point cfg +:+ ":" +:+ overlay_mount_point cfg]
        ++ match root_overlays c with
           | Some os => RootOverlay.criu_ext_mount_map_args os
           | None => []
           end).

(** [self.root_overlays.<op>(id)] when configured. *)
Definition on_root_overlays (op : list RootOverlay.ro → W → result unit * (list RootOverlay.ro * W)) : C unit :=
  fun s => match root_overlays s.1 with
           | Some os => let '(r, (os, w)) := op os s.2 in (r, (set_root_overlays (Some os) s.1, w))
           | None => (Ok tt, s)
           end.

(** ** Strategy *)

Definition choose_strategy (raw_command : string) : C string :=
  if mem raw_command ["lightweight"; "standard"; "predump"] then mret raw_command
  else if enable_adaptive cfg && negb (bool_decide (raw_command = "")) then
    match SemanticParser.parse_strategy raw_command with
    | None => mraise OutOfFuel "parse_strategy"
    | Some strategy =>
        if bool_decide (strategy = "standard") && negb (env_disable_hot_predump cfg) then
          mtry any_exn
            (c ← getc;
             maps ← call (ReadFile (proc (agent_pid c) "/maps"));
             smaps ← call (ReadFile (proc (agent_pid c) "/smaps"));
             r ← lift_result (MemoryClassifier.classify_vmas maps smaps);
             mret (match MemoryClassifier.hot r with [] => strategy | _ => "predump" end))
            (fun _ => mret strategy)
        else mret strategy
    end
  else mret "standard".

(** ** Soft-dirty resets *)

Definition probe_clear_soft_dirty (pid : Z) : C unit :=
  if negb (env_probe_cross_pid cfg || env_fresh_pidns_active cfg || is_some (fixed_active_pid cfg)) then mret tt
  else mtry is_OSError (call (WriteFile (proc pid "/clear_refs") "4")) (fun _ => mret tt).

Definition clear_soft_dirty_after_fork (pid : Z) : C unit :=
  '(preserve, self_cleared) ← call TpForkMeta;
  if preserve && env_preserve_soft_dirty cfg then mret tt
  else if self_cleared : bool then mret tt
  else probe_clear_soft_dirty pid.

(** ** Restamped parent images *)

Definition copy_restamp_entry (src_dir dst_dir : string) (d : string * dirent_kind) : C unit :=
  let '(name, kind) := d in
  let path := path_join src_dir name in
  let dst := path_join dst_dir name in
  if bool_decide (name = "_restamped_parent") then mret tt
  else match kind with
       | DSymlink => target ← call (RealPath path); call (Symlink target dst)
       | DDir => if bool_decide (name = "parent")
                 then target ← call (AbsPath path); call (Symlink target dst) else mret tt
       | DFile => mtry is_OSError (call (HardLink path dst)) (fun _ => call (Copy2 path dst))
       | DOther => mret tt
       end.
Definition copy_restamp_image_dir (src_dir dst_dir : string) : C unit :=
  _ ← call (Mkdir dst_dir);
  entries ← call (ScanDir src_dir);
  mfor entries (copy_restamp_entry src_dir dst_dir).

Definition finalize_restamped_parent_inventory (parent_mem_path stamp_dir : string) : C string :=
  let inv_path := path_join stamp_dir "inventory.img" in
  let tmp := path_join stamp_dir "inventory.img.tmp" in
  _ ← call (Copy2 (path_join parent_mem_path "inventory.img") tmp);
  _ ← call (Replace tmp inv_path);
  _ ← call (InventoryUptime inv_path);
  mret stamp_dir.

Definition restamp_parent_inventory_sync (parent_mem_path curr_dir : string) : C string :=
  let stamp_dir := path_join curr_dir "_restamped_parent" in
  here ← call (PathExists stamp_dir);
  _ ← mwhen here (call (Rmtree stamp_dir));
  _ ← copy_restamp_image_dir parent_mem_path stamp_dir;
  finalize_restamped_parent_inventory parent_mem_path stamp_dir.

(** One older entry of [_restamp_cache]: a finished copy is deleted, a running
    one that cannot be cancelled stays. *)
Definition retire_restamp (ckpt_id : string) (p : string * restamp) : C unit :=
  let '(old_id, old) := p in
  if bool_decide (old_id = ckpt_id) then mret tt
  else
    running ← (if r_future old then
                 d ← call (RestampDone old_id);
                 if d : bool then mret false
                 else _ ← call (RestampCancel old_id); d ← call (RestampDone old_id); mret (negb d)
               else mret false);
    if running : bool then mret tt
    else
      _ ← (if truthy (r_cache_dir old)
           then call (Rmtree (default "" (r_cache_dir old))) else mret tt);
      modc (fun c => set_restamps (dpop old_id (restamps c)) c).

Definition schedule_async_parent_restamp (ckpt_id : string) : C unit :=
  c ← getc;
  if negb (env_restamp_parent cfg) then mret tt
  else if negb (is_some (fixed_active_pid cfg) && enable_incremental_dump cfg) then mret tt
  else
    match dget ckpt_id (reg c) with
    | None => mret tt
    | Some e =>
        if bool_decide (e_strategy e = "lightweight") then mret tt
        else if truthy (e_dump_error e) || truthy (stat_err c !! ckpt_id) then mret tt
        else if bool_decide (e_mem_path e = "") then mret tt
        else
          _ ← mfor (restamps c) (retire_restamp ckpt_id);
          c ← getc;
          if match dget ckpt_id (restamps c) with
             | Some r => r_future r || truthy (r_cache_dir r) | None => false end
          then mret tt
          else
            _ ← call (SubmitRestamp ckpt_id (e_mem_path e));
            modc (fun c => set_restamps (dset ckpt_id (Restamp true (e_mem_path e) None true) (restamps c)) c)
    end.

(** The [finally] of the hit drops the cache entry even when finishing raises. *)
Definition consume_async_parent_restamp (ckpt_id parent_mem_path curr_dir : string) : C (option string) :=
  c ← getc;
  match dget ckpt_id (restamps c) with
  | None => mret None
  | Some cached =>
      pending ← (if r_future cached then d ← call (RestampDone ckpt_id); mret (negb d) else mret false);
      if pending : bool then mret None
      else
        cached ←
          (if r_future cached then
             p ← call (RestampResult ckpt_id);
             let cur := Restamp false parent_mem_path (p_cache_dir p) (p_ok p) in
             _ ← modc (fun c => set_restamps (dset ckpt_id cur (restamps c)) c);
             mret cur
           else mret cached);
        let cache_dir := default "" (r_cache_dir cached) in
        usable ← (if r_ok cached && negb (bool_decide (cache_dir = "")) then call (IsDir cache_dir) else mret false);
        if negb usable then mret None
        else
          let stamp_dir := path_join curr_dir "_restamped_parent" in
          here ← call (PathExists stamp_dir);
          _ ← mwhen here (call (Rmtree stamp_dir));
          _ ← call (Replace cache_dir stamp_dir);
          mfinally
            (s ← finalize_restamped_parent_inventory parent_mem_path stamp_dir; mret (Some s))
            (modc (fun c => set_restamps (dpop ckpt_id (restamps c)) c))
  end.

Definition restamp_parent_inventory_for_checkpoint (ckpt_id parent_mem_path curr_dir : string) : C string :=
  if negb (env_restamp_parent cfg) then mret parent_mem_path
  else
    prepared ← consume_async_parent_restamp ckpt_id parent_mem_path curr_dir;
    match prepared with
    | Some p => mret p
    | None => restamp_parent_inventory_sync parent_mem_path curr_dir
    end.

(** ** The process to dump *)

(** Locals of [_checkpoint_legacy] about the forked processes. *)
Record forks := Forks {
  f_template : option Z;              (* template_pid *)
  f_dump_tree : Z;                    (* dump_tree_pid *)
  f_boot : bool;                      (* bootstrap_attempted_before_dump *)
  f_prefork : option Z;               (* pre_dump_template_pid *)
  f_clone : option Z;                 (* fixed_dump_clone_pid *)
  f_async : option Z;                 (* async_template_dump_pid *)
}.

(** [_bootstrap_active_before_dump]: (template, attempted). *)
Definition bootstrap_active_before_dump (snapshot_id : string) : C (option Z * bool) :=
  if is_some (fixed_active_pid cfg) then mret (None, false)
  else
    c ← getc;
    if negb (enable_warm_template cfg && bool_decide (agent_pid c = ns_init_pid c)
             && (checkpoint_stash_template cfg || env_fresh_pidns_active cfg)) then mret (None, false)
    else
      r ← request_fork (agent_pid c) (Some snapshot_id) false;
      match r with
      | Some (parent_pid, child_pid) =>
          _ ← modc (set_agent_pid child_pid);
          _ ← clear_soft_dirty_after_fork child_pid;
          mret (Some parent_pid, true)
      | None => mret (None, true)
      end.

(** Phase 0. *)
Definition predump (tag new_id : string) (dump_tree : Z) : C unit :=
  let predump_dir := path_join (snapshot_store cfg) (tag +:+ "_" +:+ new_id +:+ "_predump") in
  _ ← call (Mkdir predump_dir);
  ext ← external_pidns_args dump_tree;
  c ← getc;
  let prev_args := match last_predump c with
                   | Some (d, t) => if negb (bool_decide (d = "")) && bool_decide (t = dump_tree)
                                    then ["--prev-images-dir"; relpath d predump_dir] else []
                   | None => [] end in
  _ ← call (CheckCall ([criu_dump_bin cfg; "pre-dump"; "--tree"; pretty dump_tree; "-D"; predump_dir; "--track-mem"]
                       ++ ext ++ prev_args) []);
  _ ← kill_quiet dump_tree SIGCONT;
  modc (set_last_predump (Some (predump_dir, dump_tree))).

Definition prefork_template (new_id strategy : string) (f : forks) : C forks :=
  if negb (prefork_template_dump cfg && enable_warm_template cfg
           && negb (bool_decide (strategy = "lightweight")) && negb (f_boot f)) then mret f
  else
    _ ← stop_templates;
    c ← getc;
    r ← request_fork (agent_pid c) (Some new_id) true;
    match r with
    | Some (parent_pid, child_pid) =>
        _ ← modc (set_agent_pid child_pid);
        _ ← clear_soft_dirty_after_fork child_pid;
        mret (Forks (Some parent_pid) parent_pid (f_boot f) (Some parent_pid) (f_clone f) (f_async f))
    | None =>
        if negb (env_prefork_allow_fallback cfg)
        then mraise RuntimeError "Warm-template prefork-fork failed"
        else mret f
    end.

Definition fixed_dump_clone (strategy : string) (f : forks) : C forks :=
  need ← need_fixed_dump_clone cfg strategy;
  if negb (need && negb (prefork_template_dump cfg) && negb (async_template_full_dump cfg) && negb (f_boot f))
  then mret f
  else
    free ← wait_fixed_active_slot_free cfg;
    if negb free then mraise RuntimeError "fixed dump PID is not free"
    else
      c ← getc;
      r ← request_stash_template (agent_pid c) None (Some false) true false (fixed_active_pid cfg);
      match r with
      | None => mraise RuntimeError "fixed dump clone set_tid failed"
      | Some pid => mret (Forks (f_template f) pid (f_boot f) (f_prefork f) (Some pid) (f_async f))
      end.

Definition async_template (new_id strategy : string) (f : forks) : C forks :=
  if negb (async_template_full_dump cfg && enable_warm_template cfg
           && negb (bool_decide (strategy = "lightweight"))) then mret f
  else
    c ← getc;
    gone ← pid_gone_or_zombie (agent_pid c);
    if gone : bool then mraise RuntimeError "async-template active pid is gone"
    else
      _ ← stop_templates;
      warm ← request_stash_template (agent_pid c) (Some new_id) (Some false) false
               (is_some (fixed_active_pid cfg)) None;
      match warm with
      | None => mraise RuntimeError "async-template warm stash failed"
      | Some warm_pid =>
          dump ← request_stash_template (agent_pid c) None (Some false) true false None;
          match dump with
          | None =>
              _ ← modc (fun c => set_templates (dpop new_id (templates c)) c);
              _ ← kill_quiet warm_pid SIGKILL;
              mraise RuntimeError "async-template full-dump stash failed"
          | Some dump_pid =>
              mret (Forks (Some warm_pid) dump_pid (f_boot f) (f_prefork f) (f_clone f) (Some dump_pid))
          end
      end.

(** ** The dump *)

Definition dump_args (dump_tree : Z) (image_dir : string) : C (list string) :=
  ext ← all_ext_mount_map_args;
  mret ([criu_dump_bin cfg; "dump"; "--tree"; pretty dump_tree; "-D"; image_dir]
        ++ ["--shell-job"; "--tcp-close"; "--ext-unix-sk"; "--manage-cgroups"] ++ ext ++ ["--link-remap"]).

Definition debug_args : list string := if env_criu_debug cfg then ["-v4"] else [].

(** [_dump_validation_full_twin]: id and image directory of the twin. *)
Definition dump_validation_full_twin (ckpt_id tag : string) (dump_tree : Z) : C (string * string) :=
  let full_dir := path_join (snapshot_store cfg) (tag +:+ "_" +:+ ckpt_id +:+ "_full_twin_mem") in
  here ← call (PathExists full_dir);
  _ ← mwhen here (call (Rmtree full_dir));
  _ ← call (Mkdir full_dir);
  ext ← all_ext_mount_map_args;
  pidns ← external_pidns_args dump_tree;
  _ ← call (CheckCall ([criu_dump_bin cfg; "dump"; "--tree"; pretty dump_tree; "-D"; full_dir;
                        "--shell-job"; "--leave-stopped"; "--tcp-close"; "--ext-unix-sk"; "--manage-cgroups"]
                       ++ ext ++ ["--link-remap"] ++ pidns ++ debug_args) []);
  mret (ckpt_id +:+ "_full", full_dir).

(** [_dump_full_fallback_image] *)
Definition dump_full_fallback_image (image_dir : string) (dump_tree : Z) : C unit :=
  if env_disable_full_fallback cfg
  then mraise RuntimeError "full fallback on incremental dump failure disabled"
  else
    here ← call (PathExists image_dir);
    _ ← mwhen here (call (Rmtree image_dir));
    _ ← call (Mkdir image_dir);
    args ← dump_args dump_tree image_dir;
    pidns ← external_pidns_args dump_tree;
    call (CheckCall (args ++ (if enable_incremental_dump cfg then ["--track-mem"] else [])
                     ++ pidns ++ debug_args ++ ["--leave-running"]) []).

(** What the dump phase leaves in the locals. *)
Record dumped := Dumped {
  d_future : bool;                    (* dump_future is not None *)
  d_prev : option string;             (* prev_ckpt_id *)
  d_cross : bool;                     (* prev_cross_pid *)
  d_mode : option string;             (* prev_pid_mode *)
  d_twin : option (string * string);  (* validation_full_twin *)
}.
Definition no_dump : dumped := Dumped false None false None None.

(** The parent of the new image, if incremental dumping finds one. *)
Definition find_prev (parent : option string) (dump_tree : Z) : C (option prev) :=
  c ← getc;
  if enable_incremental_dump cfg && truthy parent && dhas (default "" parent) (reg c) then
    match prev_walk (length (reg c)) cfg (ns_init_pid c) dump_tree (stat_err c) (reg c) parent with
    | None => mraise OutOfFuel "prev_walk"
    | Some p => mret p
    end
  else mret None.

(** The validation oracle: the task stays stopped while its full twin is
    dumped.  Its failures are only recorded. *)
Definition validate_dump (new_id tag : string) (f : forks) : C (option (string * string)) :=
  mfinally
    (mtry any_exn
       (_ ← dump_result cfg new_id;
        _ ← mwhen (env_validate_digests cfg) (call (MemoryDigest (f_dump_tree f)));
        t ← dump_validation_full_twin new_id tag (f_dump_tree f);
        mret (Some t))
       (fun _ => mret None))
    (if negb (pid_set (f_prefork f)) && negb (pid_set (f_clone f))
     then kill_quiet (f_dump_tree f) SIGCONT else mret tt).

Definition run_dump (parent : option string) (tag new_id curr_dir : string) (f : forks) : C dumped :=
  args ← dump_args (f_dump_tree f) curr_dir;
  pidns ← external_pidns_args (f_dump_tree f);
  pv ← find_prev parent (f_dump_tree f);
  prev_args ← match pv with
              | Some p =>
                  if bool_decide (pv_mem p = "") then mret []
                  else mem ← restamp_parent_inventory_for_checkpoint (pv_id p) (pv_mem p) curr_dir;
                       mret ["--prev-images-dir"; relpath mem curr_dir]
              | None => mret []
              end;
  c ← getc;
  let validation_needed := env_validate_equiv cfg && negb (bool_decide (prev_args = []))
                           && bool_decide (last_restore_target_id c = pv_id <$> pv) in
  let leave := if validation_needed || pid_set (f_prefork f) || pid_set (f_async f) || pid_set (f_clone f)
               then "--leave-stopped" else "--leave-running" in
  let cmd := args ++ (if enable_incremental_dump cfg then ["--track-mem"] else [])
             ++ pidns ++ debug_args ++ prev_args ++ [leave] in
  _ ← mwhen (validation_needed && env_validate_digests cfg)
        (mtry any_exn
           (_ ← call (Kill (f_dump_tree f) SIGSTOP);
            _ ← wait_pid_stopped cfg (f_dump_tree f);
            call (MemoryDigest (f_dump_tree f)))
           (fun _ => mret tt));
  _ ← call (SubmitDump new_id cmd);
  _ ← match f_async f with
      | Some pid => modc (fun c => set_callback_pids (<[new_id := pid]> (callback_pids c)) c)
      | None => mret tt
      end;
  twin ← (if validation_needed : bool then validate_dump new_id tag f else mret None);
  _ ← mwhen (f_boot f && negb (is_some (f_template f)))
        (mtry any_exn (dump_result cfg new_id)
           (fun e => modc (fun c => set_stat_err (<[new_id := exn_text e]> (stat_err c)) c)));
  mret (Dumped true (pv_id <$> pv) (default false (pv_cross <$> pv)) (pv_mode <$> pv) twin).

(** ** Phase 2: sinking the upper directory *)

Definition sink (new_id : string) (parent_layers : list string) : C (list string * bool) :=
  c ← getc;
  dirty ← mtry is_OSError (onw (os_tree_nonempty (current_upper c))) (fun _ => mret true);
  if dirty : bool then
    let sunk_layer_path := path_join (layers_root cfg) ("layer_" +:+ new_id) in
    let next_upper := path_join (layers_root cfg) ("upper_" +:+ new_id +:+ "_next") in
    let next_work := path_join (layers_root cfg) ("work_" +:+ new_id +:+ "_next") in
    _ ← onw (os_rename (current_upper c) sunk_layer_path);
    _ ← onw (os_makedirs next_upper);
    _ ← onw (os_makedirs next_work);
    _ ← apply_overlay_switch parent_layers next_upper next_work "ckpt";
    _ ← modc (fun c => set_current_work next_work (set_current_upper next_upper c));
    mret (sunk_layer_path :: parent_layers, true)
  else mret (parent_layers, false).

Definition parent_layers_of (parent : option string) (r : registry) : list string :=
  match parent with
  | Some p => if bool_decide (p = "") then [base_layer cfg]
              else match dget p r with Some e => e_layers e | None => [base_layer cfg] end
  | None => [base_layer cfg]
  end.

(** ** Phase 3: the warm template *)

(** [skip]: neither image is durable; the locals about the parent are those
    of a full image after a fallback. *)
Definition join_or_fallback (new_id curr_dir : string) (f : forks) (d : dumped) : C (dumped * bool) :=
  if negb (d_future d) then mret (d, false)
  else
    mtry any_exn
      (_ ← dump_result cfg new_id; mret (d, false))
      (fun e =>
         mtry any_exn
           (_ ← dump_full_fallback_image curr_dir (f_dump_tree f);
            _ ← modc (fun c => set_stat_err (delete new_id (stat_err c)) c);
            mret (Dumped false None false (Some "full-fallback") (d_twin d), false))
           (fun e' =>
              _ ← modc (fun c => set_stat_err (<[new_id := exn_text e']> (stat_err c)) c);
              mret (d, true))).

Definition warm_template (new_id curr_dir strategy : string) (f : forks) (d : dumped) : C (option Z * dumped) :=
  if negb (enable_warm_template cfg && negb (bool_decide (strategy = "lightweight")) && negb (f_boot f)
           && negb (pid_set (f_prefork f)) && negb (pid_set (f_async f)))
  then mret (f_template f, d)
  else
    '(d, skip) ← join_or_fallback new_id curr_dir f d;
    if skip : bool then mret (None, d)
    else
      _ ← match f_clone f with Some pid => dispose_fixed_dump_clone cfg pid | None => mret tt end;
      _ ← stop_templates;
      c ← getc;
      if checkpoint_stash_template cfg then
        t ← request_stash_template (agent_pid c) (Some new_id) None (is_some (fixed_active_pid cfg))
              (is_some (fixed_active_pid cfg)) None;
        mret (t, d)
      else
        r ← request_fork (agent_pid c) (Some new_id) false;
        match r with
        | Some (parent_pid, child_pid) =>
            _ ← modc (set_agent_pid child_pid);
            _ ← clear_soft_dirty_after_fork child_pid;
            mret (Some parent_pid, d)
        | None => mret (f_template f, d)
        end.

(** ** Registration *)

(** The extra keys of a lightweight entry. *)
Definition lightweight_keys (parent : option string) (tag raw_command : string) (ops : list string) (r : registry)
    : option string * list replay_item :=
  let item := ReplayItem tag raw_command ops in
  match p ← parent; dget p r with
  | Some e => (match e_effective_restore_id e with Some v => v | None => parent end, e_replay_cmds e ++ [item])
  | None => (parent, [item])
  end.

Definition twin_entry (full_id full_path : string) (layers : list string) (dirty : bool) (f : forks)
    (ns_init : Z) (ext : bool) : entry :=
  {| e_id := full_id; e_mem_path := full_path; e_parent_id := None; e_prev_ckpt_id := None;
     e_layers := layers; e_strategy := "validation_full_twin"; e_template_pid := None;
     e_async_dump_template_pid := None; e_dump_tree_pid := Some (f_dump_tree f);
     e_ns_init_pid := Some ns_init; e_external_pidns := Some ext;
     e_fixed_active_pid := fixed_active_pid cfg; e_has_future := false; e_dump_error := None;
     e_upper_dirty := dirty; e_prev_cross_pid := false; e_prev_pid_mode := None;
     e_effective_restore_id := None; e_replay_cmds := []; e_memory_protocol := None; e_resources := None |}.

Definition new_entry (new_id curr_dir tag raw_command strategy : string) (ops : list string)
    (parent : option string) (layers : list string) (dirty : bool) (template : option Z) (f : forks) (d : dumped)
    (ext : bool) (c : ctl) : entry :=
  let lw := bool_decide (strategy = "lightweight") in
  let keys := lightweight_keys parent tag raw_command ops (reg c) in
  {| e_id := new_id; e_mem_path := curr_dir; e_parent_id := parent; e_prev_ckpt_id := d_prev d;
     e_layers := layers; e_strategy := strategy; e_template_pid := template;
     e_async_dump_template_pid := f_async f; e_dump_tree_pid := Some (f_dump_tree f);
     e_ns_init_pid := Some (ns_init_pid c); e_external_pidns := Some ext;
     e_fixed_active_pid := fixed_active_pid cfg; e_has_future := d_future d;
     e_dump_error := stat_err c !! new_id;
     e_upper_dirty := dirty; e_prev_cross_pid := d_cross d; e_prev_pid_mode := d_mode d;
     e_effective_restore_id := if lw then Some keys.1 else None;
     e_replay_cmds := if lw then keys.2 else [];
     e_memory_protocol := None; e_resources := None |}.

Definition register (new_id curr_dir tag raw_command strategy : string) (ops : list string) (parent : option string)
    (layers : list string) (dirty : bool) (template : option Z) (f : forks) (d : dumped) : C entry :=
  c ← getc;
  init ← is_pidns_init (f_dump_tree f);
  let info := new_entry new_id curr_dir tag raw_command strategy ops parent layers dirty template f d (negb init) c in
  _ ← modc (fun c => set_reg (dset new_id info (reg c)) c);
  _ ← match d_twin d with
      | Some (full_id, full_path) =>
          c ← getc;
          init ← is_pidns_init (f_dump_tree f);
          modc (fun c => set_reg (dset full_id (twin_entry full_id full_path layers dirty f (ns_init_pid c) (negb init)) (reg c)) c)
      | None => mret tt
      end;
  _ ← mwhen (negb (bool_decide (strategy = "lightweight")) && negb (pid_set (f_prefork f)) && negb (pid_set (f_async f)))
        (modc (set_active_dump_owner_id (Some new_id)));
  mret info.

(** ** The whole checkpoint *)

Definition join_parent_dump (parent : option string) : C unit :=
  c ← getc;
  match parent with
  | Some p =>
      if prefork_template_dump cfg && negb (bool_decide (p = "")) then
        match dget p (reg c) with
        | Some e => if e_has_future e then
                      d ← call (DumpDone p); if d : bool then mret tt else dump_result cfg p
                    else mret tt
        | None => mret tt
        end
      else mret tt
  | None => mret tt
  end.

(** From the strategy to the submitted dump (or the lightweight marker). *)
Definition memory_phase (parent : option string) (tag new_id curr_dir strategy : string) : C (forks * dumped) :=
  let lw := bool_decide (strategy = "lightweight") in
  '(template, boot) ← (if lw then mret (None, false) else bootstrap_active_before_dump new_id);
  dump_tree ← current_dump_tree_pid cfg;
  _ ← mwhen (bool_decide (strategy = "predump")) (predump tag new_id dump_tree);
  f ← prefork_template new_id strategy (Forks template dump_tree boot None None None);
  f ← fixed_dump_clone strategy f;
  f ← async_template new_id strategy f;
  d ← (if lw then
         _ ← call (WriteFile (path_join curr_dir "lightweight_marker.txt")
                     ("parent=" +:+ default "None" parent +:+ " action=" +:+ tag));
         mret no_dump
       else run_dump parent tag new_id curr_dir f);
  mret (f, d).

Definition checkpoint_legacy (parent : option string) (tag raw_command : string) (ops : list string) : C entry :=
  _ ← mwhen (negb (async_template_full_dump cfg)) (drain_pending_template_cleanup cfg);
  _ ← join_parent_dump parent;
  new_id ← call (Uuid 8);
  let curr_dir := path_join (snapshot_store cfg) (tag +:+ "_" +:+ new_id +:+ "_mem") in
  _ ← call (Mkdir curr_dir);
  strategy ← choose_strategy raw_command;
  '(f, d) ← memory_phase parent tag new_id curr_dir strategy;
  c ← getc;
  '(layers, dirty) ← sink new_id (parent_layers_of parent (reg c));
  _ ← on_root_overlays (RootOverlay.set_checkpoint new_id);
  '(template, d) ← warm_template new_id curr_dir strategy f d;
  register new_id curr_dir tag raw_command strategy ops parent layers dirty template f d.
End ops.
End Checkpoint.
