(* ===== verification/LazyPages.v ===== *)
(** * Lazy-pages daemons ([sandbox_controller.py])

    A cold restore may run beside a CRIU lazy-pages daemon that serves the
    image's pages on demand.  Daemons can be started ahead of the restore by a
    background worker: [prestart_body] is the job of that worker, split where
    it releases the lock; the other definitions run on the caller's thread.
    The theorems: at most one idle daemon per image and never more than the
    limit; a retired image never gets an idle daemon again. *)

From S2P Require Import Prelude Hoare PyStr PyDict Registry Overlay RootOverlay Host Sim.
From Stdlib Require Import Ascii.

Module LazyPages.

Definition set_readers r (z : lazy_state) := Lazy r (prestarted z) (queued z) (retired z) (closing z).
Definition set_prestarted p (z : lazy_state) := Lazy (readers z) p (queued z) (retired z) (closing z).
Definition set_queued q (z : lazy_state) := Lazy (readers z) (prestarted z) q (retired z) (closing z).
Definition set_retired r (z : lazy_state) := Lazy (readers z) (prestarted z) (queued z) r (closing z).
Definition set_closing b (z : lazy_state) := Lazy (readers z) (prestarted z) (queued z) (retired z) b.

Section ops.
Context {W : Type} `{!KernelOverlay W} `{!MountHost W} `{!Host W} (cfg : config).
Abbreviation C := (M (ctl * W)).

Definition mod_lazy (f : lazy_state → lazy_state) : C unit := modc (fun c => set_lazy (f (lazy c)) c).
Definition get_lazy : C lazy_state := c ← getc; mret (lazy c).

(** [_stop_lazy_daemon_process]: nothing is sent to a process that ended. *)
Definition stop_lazy_daemon_process (h : Z) : C unit :=
  rc ← call (ProcPoll h);
  match rc with None => call (ProcStop h) | Some _ => mret tt end.

(** [_reap_lazy_page_daemons] *)
Fixpoint alive_readers (rs : list (Z * string)) : C (list (Z * string)) :=
  match rs with
  | [] => mret []
  | (h, path) :: rs =>
      rc ← call (ProcPoll h);
      rest ← alive_readers rs;
      mret (match rc with None => (h, path) :: rest | Some _ => rest end)
  end.
Definition reap_lazy_page_daemons : C unit :=
  z ← get_lazy;
  alive ← alive_readers (readers z);
  mod_lazy (set_readers alive).

Definition stop_lazy_pages_daemon (h : Z) : C unit :=
  _ ← stop_lazy_daemon_process h; reap_lazy_page_daemons.

(** [_lazy_reader_ids]: a live reader pins the entries of its image. *)
Definition lazy_reader_ids : C (list string) :=
  _ ← reap_lazy_page_daemons;
  c ← getc;
  let paths := (readers (lazy c)).*2 in
  mret ((List.filter (fun p => mem (e_mem_path p.2) paths) (reg c)).*1).

Definition start_lazy_pages_daemon (mem_path : string) : C Z :=
  _ ← reap_lazy_page_daemons;
  h ← call (SpawnLazy mem_path);
  _ ← mod_lazy (fun z => set_readers (readers z ++ [(h, mem_path)]) z);
  mret h.

(** [_schedule_lazy_prestart] *)
Definition schedule_lazy_prestart (mem_path : string) : C unit :=
  z ← get_lazy;
  if negb (lazy_prestart cfg) || bool_decide (mem_path = "") then mret tt
  else if closing z || mem mem_path (retired z) || dhas mem_path (prestarted z) || mem mem_path (queued z)
  then mret tt
  else
    ok ← call (SubmitLazy mem_path);
    if ok : bool then mod_lazy (fun z => set_queued (mem_path :: queued z) z) else mret tt.

(** [_on_durable_image], the completion callback of a dump. *)
Definition on_durable_image (rid : string) (e : entry) (failed : bool) : C unit :=
  c ← getc;
  if failed then mret tt
  else if negb (match m_state <$> a_marks (async c) !! rid with None | Some DURABLE_READY => true | _ => false end)
          || match e_dump_error e with Some s => negb (bool_decide (s = "")) | None => false end
          || bool_decide (is_Some (stat_err c !! rid)) then mret tt
  else schedule_lazy_prestart (e_mem_path e).

(** Eviction of the oldest idle daemons down to below the limit. *)
Fixpoint evict (fuel : nat) (limit : Z) (idle : list (string * Z)) : list (string * Z) * list Z :=
  match fuel, idle with
  | S fuel, (_, h) :: idle' =>
      if (limit <=? Z.of_nat (length idle))%Z
      then let '(rest, hs) := evict fuel limit idle' in (rest, h :: hs)
      else (idle, [])
  | _, _ => (idle, [])
  end.

(** First locked section of [_prestart_lazy_pages_daemon]: [None] when the
    image is retired or the pool closes, otherwise the evicted daemons. *)
Definition prestart_enter (mem_path : string) : C (option (list Z)) :=
  z ← get_lazy;
  if closing z || mem mem_path (retired z) then mret None
  else
    let '(rest, hs) := evict (length (prestarted z)) (lazy_prestart_max cfg) (prestarted z) in
    _ ← mod_lazy (set_prestarted rest);
    mret (Some hs).

(** Last locked section: whether the new daemon is kept. *)
Definition prestart_publish (mem_path : string) (h : Z) : C bool :=
  z ← get_lazy;
  let keep := negb (closing z || mem mem_path (retired z)) in
  _ ← mwhen keep (mod_lazy (fun z => set_prestarted (dset mem_path h (prestarted z)) z));
  mret keep.

(** The job of the worker, given how it gets a daemon. *)
Definition prestart_with (spawn : C (option Z)) (mem_path : string) : C unit :=
  mfinally
    (mtry any_exn
       (evicted ← prestart_enter mem_path;
        match evicted with
        | None => mret tt
        | Some hs =>
            _ ← mfor hs stop_lazy_daemon_process;
            h ← spawn;
            match h with
            | None => mret tt
            | Some h =>
                keep ← prestart_publish mem_path h;
                if keep : bool then mret tt else stop_lazy_daemon_process h
            end
        end)
       (fun _ => mret tt))
    (mod_lazy (fun z => set_queued (List.filter (fun p => negb (bool_decide (p = mem_path))) (queued z)) z)).

(** [_prestart_lazy_pages_daemon] *)
Definition prestart_body (mem_path : string) : C unit :=
  prestart_with
    (here ← call (IsDir mem_path);
     if negb here then mret None else h ← call (SpawnLazy mem_path); mret (Some h)) mem_path.

(** A job the worker completed while another thread waited for it. *)
Definition prestart_job (job : string * option Z) : C unit := prestart_with (mret job.2) job.1.

(** [_take_lazy_pages_daemon]: the daemon and where it came from. *)
Definition take_lazy_pages_daemon (mem_path : string) : C (Z * string) :=
  z ← get_lazy;
  let first := dget mem_path (prestarted z) in
  _ ← mod_lazy (fun z => set_prestarted (dpop mem_path (prestarted z)) z);
  '(h, source) ←
    (if negb (bool_decide (is_Some first)) && mem mem_path (queued z) then
       jobs ← call (LazyPending mem_path);
       _ ← mfor jobs prestart_job;
       z ← get_lazy;
       _ ← mod_lazy (fun z => set_prestarted (dpop mem_path (prestarted z)) z);
       mret (dget mem_path (prestarted z), "prestart-wait")
     else mret (first, "prestarted"));
  taken ←
    match h with
    | None => mret None
    | Some h =>
        rc ← call (ProcPoll h);
        match rc with
        | None => _ ← mod_lazy (fun z => set_readers (readers z ++ [(h, mem_path)]) z); mret (Some (h, source))
        | Some _ => _ ← stop_lazy_daemon_process h; mret None
        end
    end;
  match taken with
  | Some r => mret r
  | None => h ← start_lazy_pages_daemon mem_path; mret (h, "synchronous")
  end.

(** [_retire_lazy_prestart] *)
Definition retire_lazy_prestart (mem_path : string) : C unit :=
  if bool_decide (mem_path = "") then mret tt
  else
    z ← get_lazy;
    _ ← mod_lazy (fun z => set_prestarted (dpop mem_path (prestarted z)) (set_retired (mem_path :: retired z) z));
    match dget mem_path (prestarted z) with
    | Some h => stop_lazy_daemon_process h
    | None => mret tt
    end.

(** [_close_lazy_prestart]: the worker may still complete queued starts while
    the pool is shut down. *)
Definition close_lazy_prestart : C unit :=
  _ ← mod_lazy (set_closing true);
  jobs ← (if lazy_prestart cfg then call ShutdownPrestart else mret []);
  _ ← mfor jobs prestart_job;
  z ← get_lazy;
  _ ← mod_lazy (set_prestarted []);
  mfor (dvals (prestarted z)) stop_lazy_daemon_process.
End ops.

Section proofs.
Context {W : Type} `{!KernelOverlay W} `{!MountHost W} `{!Host W} {WT : Watch} (cfg : config).

Lemma fs_alive_readers rs : fs_keeps (alive_readers rs).
Proof. induction rs as [|[? ?]]; simpl; fs_auto. Qed.
Hint Resolve fs_alive_readers : deltabox.
Lemma fs_mod_lazy f : fs_keeps (mod_lazy f).
Proof. unfold mod_lazy. fs_auto. Qed.
Hint Resolve fs_mod_lazy : deltabox.
Lemma fs_reap : fs_keeps reap_lazy_page_daemons.
Proof. unfold reap_lazy_page_daemons, get_lazy. fs_auto. Qed.
Lemma fs_stop_process h : fs_keeps (stop_lazy_daemon_process h).
Proof. unfold stop_lazy_daemon_process. fs_auto. Qed.
Hint Resolve fs_reap fs_stop_process : deltabox.
Lemma fs_stop_daemon h : fs_keeps (stop_lazy_pages_daemon h).
Proof. unfold stop_lazy_pages_daemon. fs_auto. Qed.
Lemma fs_reader_ids : fs_keeps lazy_reader_ids.
Proof. unfold lazy_reader_ids. fs_auto. Qed.
Lemma fs_start p : fs_keeps (start_lazy_pages_daemon p).
Proof. unfold start_lazy_pages_daemon. fs_auto. Qed.
Hint Resolve fs_stop_daemon fs_reader_ids fs_start : deltabox.
Lemma fs_prestart_with sp p : fs_keeps sp → fs_keeps (prestart_with cfg sp p).
Proof.
  intros Hsp. unfold prestart_with, prestart_enter, prestart_publish, get_lazy. repeat (fs_step || exact Hsp).
Qed.
Lemma fs_prestart_job j : fs_keeps (prestart_job cfg j).
Proof. apply fs_prestart_with, fs_keeps_ret. Qed.
Hint Resolve fs_prestart_job : deltabox.
Lemma fs_take p : fs_keeps (take_lazy_pages_daemon cfg p).
Proof. unfold take_lazy_pages_daemon, get_lazy. fs_auto. Qed.
Lemma fs_schedule_lazy p : fs_keeps (schedule_lazy_prestart cfg p).
Proof. unfold schedule_lazy_prestart, get_lazy. fs_auto. Qed.
Lemma fs_retire_lazy p : fs_keeps (retire_lazy_prestart p).
Proof. unfold retire_lazy_prestart, get_lazy. fs_auto. Qed.
End proofs.

(** ** Idle daemons *)

(** What the caller's threads may do to the idle daemons: forget some, retire
    images that have none, close. *)
Definition shrink (z z' : lazy_state) : Prop :=
  prestarted z' `sublist_of` prestarted z ∧ retired z ⊆ retired z' ∧
  (∀ p, p ∈ retired z' → p ∈ retired z ∨ p ∉ dkeys (prestarted z')) ∧
  (closing z = true → closing z' = true).

Lemma dkeys_sublist {V} (d d' : list (string * V)) : d `sublist_of` d' → dkeys d `sublist_of` dkeys d'.
Proof. induction 1; simpl; by constructor. Qed.
Lemma list_filter_sublist {A} (f : A → bool) l : List.filter f l `sublist_of` l.
Proof. induction l as [|x l IH]; simpl; [constructor|]. destruct (f x); by constructor. Qed.

Lemma shrink_refl z : shrink z z.
Proof. split_and!; try done. intros p. by left. Qed.
Lemma shrink_trans z1 z2 z3 : shrink z1 z2 → shrink z2 z3 → shrink z1 z3.
Proof.
  intros (A1 & A2 & A3 & A4) (B1 & B2 & B3 & B4). split_and!; [by etrans|by etrans| |auto].
  intros p [Hp|Hp]%B3; [|by right]. apply A3 in Hp as [Hp|Hp]; [by left|right].
  intros Hin. apply Hp. by eapply elem_of_sublist; [exact Hin|apply dkeys_sublist].
Qed.
Lemma shrink_same z z' : prestarted z' = prestarted z → retired z' = retired z → closing z' = closing z → shrink z z'.
Proof. intros H1 H2 H3. unfold shrink. rewrite H1, H2, H3. split_and!; try done. intros p. by left. Qed.
Lemma shrink_pop p z : shrink z (set_prestarted (dpop p (prestarted z)) z).
Proof. split_and!; try done; [apply list_filter_sublist|]. intros q. by left. Qed.

Section idle.
Context {W : Type} `{!KernelOverlay W} `{!MountHost W} `{!Host W} (cfg : config).
Implicit Types (s : ctl * W).

(** One idle daemon per image, a bounded number, none for a retired image. *)
Definition lazy_ok (z : lazy_state) : Prop :=
  NoDup (dkeys (prestarted z)) ∧
  (Z.of_nat (length (prestarted z)) <= lazy_prestart_max cfg)%Z ∧
  (∀ p, p ∈ retired z → p ∉ dkeys (prestarted z)).
Definition closed (z : lazy_state) : Prop := closing z = true ∧ prestarted z = [].
Definition room (z : lazy_state) : Prop := (Z.of_nat (length (prestarted z)) < lazy_prestart_max cfg)%Z.

Lemma shrink_ok z z' : shrink z z' → lazy_ok z → lazy_ok z'.
Proof.
  intros (A1 & A2 & A3 & A4) (B1 & B2 & B3). pose proof (dkeys_sublist _ _ A1) as Hk. split_and!.
  - by eapply sublist_NoDup.
  - apply sublist_length in A1. lia.
  - intros p Hp Hin. destruct (A3 p Hp) as [Hr|Hr]; [|done]. apply (B3 p Hr). by eapply elem_of_sublist; [exact Hin|exact Hk].
Qed.
Lemma shrink_closed z z' : shrink z z' → closed z → closed z'.
Proof. intros (A1 & _ & _ & A4) [B1 B2]. split; [auto|]. rewrite B2 in A1. by apply sublist_nil_r in A1. Qed.
Lemma shrink_room z z' : shrink z z' → room z → room z'.
Proof. intros (A1 & _) H. apply sublist_length in A1. unfold room in *. lia. Qed.

(** Computations that only shrink. *)
Definition shrinks {A} (m : M (ctl * W) A) : Prop := ∀ z, keeps (fun s => shrink z (lazy s.1)) m.

Lemma shrinks_call {R} (c : sysE R) : shrinks (call c).
Proof. intros z [c0 w] H. unfold wp, call, onw. cbn [fst snd]. by destruct (os_call c w) as [[?|?] ?]. Qed.
Lemma shrinks_bind {A B} (m : M (ctl * W) A) (k : A → M (ctl * W) B) :
  shrinks m → (∀ a, shrinks (k a)) → shrinks (m ≫= k).
Proof. intros Hm Hk z. apply keeps_bind; [apply Hm|]. intros a. apply Hk. Qed.
Lemma shrinks_ret {A} (a : A) : shrinks (mret a).
Proof. intros z. apply keeps_ret. Qed.
Lemma shrinks_getc : shrinks getc.
Proof. by intros z s Hs. Qed.
Lemma shrinks_for {A} (l : list A) (b : A → M (ctl * W) unit) : (∀ x, shrinks (b x)) → shrinks (mfor l b).
Proof. intros H z. apply keeps_for. intros x _. apply H. Qed.
Lemma shrinks_mod f : (∀ z, shrink z (f z)) → shrinks (mod_lazy f).
Proof. intros H z [c w] Hs. unfold wp, mod_lazy, modc. cbn [fst snd lazy set_lazy]. by eapply shrink_trans. Qed.
Lemma shrinks_stop h : shrinks (stop_lazy_daemon_process h).
Proof. apply shrinks_bind; [apply shrinks_call|]. intros []; [apply shrinks_ret|apply shrinks_call]. Qed.
Lemma shrinks_alive rs : shrinks (alive_readers rs).
Proof.
  induction rs as [|[h p] rs IH]; [apply shrinks_ret|].
  apply shrinks_bind; [apply shrinks_call|]. intros rc. apply shrinks_bind; [exact IH|]. intros. apply shrinks_ret.
Qed.
Lemma shrinks_reap : shrinks reap_lazy_page_daemons.
Proof.
  apply shrinks_bind; [apply shrinks_bind; [apply shrinks_getc|intros; apply shrinks_ret]|]. intros z.
  apply shrinks_bind; [apply shrinks_alive|]. intros a. apply shrinks_mod. intros z'. by apply shrink_same.
Qed.
Lemma shrinks_start p : shrinks (start_lazy_pages_daemon p).
Proof.
  apply shrinks_bind; [apply shrinks_reap|]. intros _. apply shrinks_bind; [apply shrinks_call|]. intros h.
  apply shrinks_bind; [|intros; apply shrinks_ret]. apply shrinks_mod. intros z. by apply shrink_same.
Qed.
Lemma shrinks_schedule p : shrinks (schedule_lazy_prestart cfg p).
Proof.
  apply shrinks_bind; [apply shrinks_bind; [apply shrinks_getc|intros; apply shrinks_ret]|]. intros z.
  destruct (_ || _); [apply shrinks_ret|]. destruct (_ || _); [apply shrinks_ret|].
  apply shrinks_bind; [apply shrinks_call|]. intros []; [|apply shrinks_ret]. apply shrinks_mod.
  intros z'. by apply shrink_same.
Qed.

(** Operations that read the state and then replace a part of it. *)
Lemma wp_get_lazy (Q : lazy_state → ctl * W → Prop) E s : Q (lazy s.1) s → wp get_lazy Q E s.
Proof. done. Qed.
Lemma wp_mod_lazy f (Q : unit → ctl * W → Prop) E s : Q tt (set_lazy (f (lazy s.1)) s.1, s.2) → wp (mod_lazy f) Q E s.
Proof. done. Qed.

Lemma shrinks_retire p : shrinks (retire_lazy_prestart p).
Proof.
  intros z s Hs. unfold retire_lazy_prestart. case_bool_decide; [by apply wp_ret|].
  apply wp_bind, wp_get_lazy, wp_bind, wp_mod_lazy. cbn [fst snd lazy set_lazy].
  assert (shrink z (set_prestarted (dpop p (prestarted (lazy s.1))) (set_retired (p :: retired (lazy s.1)) (lazy s.1)))) as H1.
  { eapply shrink_trans; [exact Hs|]. split_and!; cbn [prestarted retired closing set_prestarted set_retired]; try done.
    - apply list_filter_sublist.
    - set_solver.
    - intros q [->|Hq]%elem_of_cons; [right|by left]. rewrite elem_of_dkeys_dpop. by intros [_ ?]. }
  destruct (dget p _); [by apply shrinks_stop|by apply wp_ret].
Qed.

(** ** The worker *)

Lemma evict_spec limit l :
  (1 <= limit)%Z →
  (evict (length l) limit l).1 `sublist_of` l ∧ (Z.of_nat (length (evict (length l) limit l).1) < limit)%Z.
Proof.
  intros Hl. induction l as [|[p h] l [IH1 IH2]]; simpl; [split; [done|lia]|].
  destruct (limit <=? Z.of_nat (S (length l)))%Z eqn:E.
  - destruct (evict (length l) limit l) as [rest hs]. simpl in *. split; [by constructor|done].
  - simpl. split; [done|]. apply Z.leb_gt in E. lia.
Qed.

Lemma enter_spec p s :
  (1 <= lazy_prestart_max cfg)%Z →
  wp (prestart_enter cfg p)
     (fun r s' => shrink (lazy s.1) (lazy s'.1) ∧ (r ≠ None → room (lazy s'.1) ∧ closing (lazy s.1) = false))
     (fun _ _ => False) s.
Proof.
  intros Hmax. unfold prestart_enter. apply wp_bind, wp_get_lazy.
  destruct (closing (lazy s.1) || _) eqn:E; [apply wp_ret; split; [apply shrink_refl|done]|].
  apply orb_false_iff in E as [E _].
  pose proof (evict_spec _ (prestarted (lazy s.1)) Hmax) as [H1 H2].
  destruct (evict _ _ _) as [rest hs]. cbn [fst] in *. apply wp_bind, wp_mod_lazy, wp_ret.
  cbn [fst snd lazy set_lazy]. split; [|done]. split_and!; try done. intros q. by left.
Qed.

Lemma publish_spec p h s :
  wp (prestart_publish p h)
     (fun _ s' => (lazy_ok (lazy s.1) → room (lazy s.1) → lazy_ok (lazy s'.1)) ∧
        retired (lazy s'.1) = retired (lazy s.1) ∧ (closed (lazy s.1) → closed (lazy s'.1)) ∧
        (closing (lazy s.1) = true → lazy s'.1 = lazy s.1))
     (fun _ _ => False) s.
Proof.
  unfold prestart_publish. apply wp_bind, wp_get_lazy. cbv zeta.
  destruct (closing (lazy s.1)) eqn:Ec; cbn [orb negb].
  { apply wp_bind, wp_when, wp_ret. split_and!; done. }
  destruct (mem p (retired (lazy s.1))) eqn:Er; cbn [negb].
  { apply wp_bind, wp_when, wp_ret. split_and!; done. }
  apply wp_bind, wp_when, wp_mod_lazy, wp_ret. cbn [fst snd lazy set_lazy]. apply mem_false in Er.
  split_and!; [|done|by intros [? _]; congruence|done].
  intros (H1 & H2 & H3) Hr. unfold room in Hr. split_and!; cbn [prestarted set_prestarted retired].
  - by apply dkeys_dset_NoDup.
  - assert (length (dset p h (prestarted (lazy s.1))) ≤ S (length (prestarted (lazy s.1))))%nat; [|lia].
    pose proof (dkeys_dset p h (prestarted (lazy s.1))) as Hk. apply (f_equal length) in Hk.
    unfold dkeys in Hk. rewrite length_fmap in Hk. rewrite Hk. case_decide; rewrite ?length_app, length_fmap; simpl; lia.
  - intros q Hq Hin. rewrite dkeys_dset in Hin. case_decide; [by eapply H3|].
    apply elem_of_app in Hin as [Hin|Hin]; [by eapply H3|]. apply list_elem_of_singleton in Hin. by subst.
Qed.
(** What a worker that is not between its locked sections keeps. *)
Definition settled (z0 z : lazy_state) : Prop :=
  lazy_ok z ∧ retired z0 ⊆ retired z ∧ (closed z0 → closed z) ∧ (closing z0 = true → closing z = true ∧
    prestarted z `sublist_of` prestarted z0).

Lemma shrink_settled z0 z z' : shrink z z' → settled z0 z → settled z0 z'.
Proof.
  intros Hs (A1 & A2 & A3 & A4). pose proof Hs as (B1 & B2 & B3 & B4). split_and!.
  - by eapply shrink_ok.
  - by etrans.
  - intros Hc. eapply shrink_closed; [exact Hs|auto].
  - intros Hc. destruct (A4 Hc) as [C1 C2]. split; [auto|]. by etrans.
Qed.

Lemma shrinks_settled {A} (m : M (ctl * W) A) z0 : shrinks m → keeps (fun s => settled z0 (lazy s.1)) m.
Proof.
  intros Hm s Hs. eapply wp_mono; [apply (Hm (lazy s.1)), shrink_refl| |]; intros ? s' H;
    (eapply shrink_settled; [exact H|exact Hs]).
Qed.

Lemma settled_publish z0 p h s :
  settled z0 (lazy s.1) → room (lazy s.1) →
  wp (prestart_publish p h) (fun _ s' => settled z0 (lazy s'.1)) (fun _ s' => settled z0 (lazy s'.1)) s.
Proof.
  intros (A1 & A2 & A3 & A4) Hr. eapply wp_mono; [apply publish_spec| |by intros].
  intros keep s' (B1 & B2 & B3 & B4). split_and!; [auto|by rewrite B2|auto|].
  intros Hc. destruct (A4 Hc) as [C1 C2]. by rewrite B4.
Qed.

Lemma job_spec z0 j : (1 <= lazy_prestart_max cfg)%Z → keeps (fun s => settled z0 (lazy s.1)) (prestart_job cfg j).
Proof.
  intros Hmax. unfold prestart_job, prestart_with. apply keeps_finally.
  2: { apply shrinks_settled, shrinks_mod. intros z. by apply shrink_same. }
  apply keeps_catch; [|intros e; apply keeps_ret].
  intros s Hs. apply wp_bind. eapply wp_mono; [by apply enter_spec| |by intros].
  intros [hs|] s1 [H1 H2]; [|by eapply wp_ret, shrink_settled].
  destruct H2 as [H2 _]; [done|].
  set (P := fun s => settled z0 (lazy s.1) ∧ room (lazy s.1)).
  assert (P s1) as HP by (split; [by eapply shrink_settled|done]).
  apply wp_bind. eapply (wp_mono _ (fun _ s' => P s') _ (fun _ s' => P s')); [| |by intros ? ? []].
  { apply keeps_for; [|done]. intros h _ s' [G1 G2].
    eapply wp_mono; [apply (shrinks_stop h (lazy s'.1)), shrink_refl| |]; intros ? s'' G;
      (split; [eapply shrink_settled; [exact G|exact G1]|eapply shrink_room; [exact G|exact G2]]). }
  intros [] s2 [G1 G2]. apply wp_bind, wp_ret. destruct j.2 as [h|]; [|by apply wp_ret].
  apply wp_bind. eapply wp_mono; [by apply settled_publish| |done].
  intros [] s3 G3; [by apply wp_ret|]. by apply (shrinks_settled _ z0 (shrinks_stop h)).
Qed.

Lemma take_settled z0 p :
  (1 <= lazy_prestart_max cfg)%Z → keeps (fun s => settled z0 (lazy s.1)) (take_lazy_pages_daemon cfg p).
Proof.
  intros Hmax s Hs. unfold take_lazy_pages_daemon. set (P := fun s : ctl * W => settled z0 (lazy s.1)).
  assert (∀ A (m : M (ctl * W) A), shrinks m → keeps P m) as HP by (intros; by apply shrinks_settled).
  apply wp_bind, wp_get_lazy. cbv zeta. apply wp_bind, wp_mod_lazy.
  match goal with |- wp _ _ _ ?s1 => assert (P s1) as H1 end.
  { unfold P. cbn [fst snd lazy set_lazy]. eapply shrink_settled; [|exact Hs]. apply shrink_pop. }
  revert H1. generalize (set_lazy (set_prestarted (dpop p (prestarted (lazy s.1))) (lazy s.1)) s.1, s.2).
  intros s1 H1. apply wp_bind, (wp_mono _ (fun _ => P) _ (fun _ => P)); [| |done].
  { destruct (_ && _); [|by apply wp_ret]. apply wp_bind. eapply (wp_mono _ (fun _ => P) _ (fun _ => P)); [| |done].
    { by apply HP; [apply shrinks_call|]. }
    intros jobs s2 H2. apply wp_bind. eapply (wp_mono _ (fun _ => P) _ (fun _ => P)); [| |done].
    { apply keeps_for; [|done]. intros j _. by apply job_spec. }
    intros [] s3 H3. apply wp_bind, wp_get_lazy, wp_bind, wp_mod_lazy, wp_ret.
    unfold P. cbn [fst snd lazy set_lazy]. eapply shrink_settled; [|exact H3]. apply shrink_pop. }
  intros [h source] s2 H2. apply wp_bind, (wp_mono _ (fun _ => P) _ (fun _ => P)); [| |done].
  { destruct h as [h|]; [|by apply wp_ret]. apply HP; [|done]. apply shrinks_bind; [apply shrinks_call|].
    intros [rc|].
    - apply shrinks_bind; [apply shrinks_stop|intros; apply shrinks_ret].
    - apply shrinks_bind; [|intros; apply shrinks_ret]. apply shrinks_mod. intros z. by apply shrink_same. }
  intros [[? ?]|] s3 H3; [by apply wp_ret|]. apply HP; [|done].
  apply shrinks_bind; [apply shrinks_start|intros; apply shrinks_ret].
Qed.

Lemma close_spec z0 s :
  (1 <= lazy_prestart_max cfg)%Z → settled z0 (lazy s.1) →
  wp (close_lazy_prestart cfg) (fun _ s' => settled z0 (lazy s'.1) ∧ closed (lazy s'.1))
     (fun _ s' => settled z0 (lazy s'.1)) s.
Proof.
  intros Hmax Hs. unfold close_lazy_prestart. apply wp_bind, wp_mod_lazy.
  set (s1 := (set_lazy (set_closing true (lazy s.1)) s.1, s.2)).
  assert (shrink (lazy s.1) (lazy s1.1)) as H1.
  { cbn. split_and!; try done. intros p. by left. }
  assert (settled z0 (lazy s1.1) ∧ settled (lazy s1.1) (lazy s1.1)) as [H2 H3].
  { split; [by eapply shrink_settled|]. destruct Hs as (A1 & _). split_and!; try done; by eapply shrink_ok. }
  set (P := fun s => settled z0 (lazy s.1) ∧ settled (lazy s1.1) (lazy s.1)).
  apply wp_bind. eapply (wp_mono _ (fun _ => P) _ (fun _ => P)); [| |by intros ? ? []].
  { destruct (lazy_prestart cfg); [|by apply wp_ret].
    pose proof (shrinks_settled (call ShutdownPrestart) z0 (shrinks_call _) s1 H2) as J1.
    pose proof (shrinks_settled (call ShutdownPrestart) (lazy s1.1) (shrinks_call _) s1 H3) as J2.
    unfold wp, P in *. by destruct (call ShutdownPrestart s1) as [[?|?] ?]. }
  intros jobs s1' Hs1'. apply wp_bind. eapply (wp_mono _ (fun _ => P) _ (fun _ => P)); [| |by intros ? ? []].
  { apply keeps_for; [|done]. intros j _ s' [G1 G2]. pose proof (job_spec z0 j Hmax s' G1) as J1.
    pose proof (job_spec (lazy s1.1) j Hmax s' G2) as J2. unfold wp, P in *.
    by destruct (prestart_job cfg j s') as [[?|?] ?]. }
  intros [] s2 [G1 G2]. apply wp_bind, wp_get_lazy, wp_bind, wp_mod_lazy.
  set (Q := fun s => settled z0 (lazy s.1) ∧ closed (lazy s.1)).
  eapply (wp_mono _ (fun _ => Q) _ (fun _ => Q)); [|done|by intros ? ? []].
  apply keeps_for.
  - intros h _ s' [K1 K2]. eapply wp_mono; [apply (shrinks_stop h (lazy s'.1)), shrink_refl| |]; intros ? s'' K;
      (split; [eapply shrink_settled; [exact K|exact K1]|eapply shrink_closed; [exact K|exact K2]]).
  - split; cbn [fst snd lazy set_lazy].
    + eapply shrink_settled; [|exact G1]. split_and!; cbn [prestarted retired closing set_prestarted]; try done.
      * apply sublist_nil_l.
      * intros p. by left.
    + split; [|done]. destruct G2 as (_ & _ & _ & G2). by apply G2.
Qed.

(** ** The worker beside the caller *)

(** One locked section of the worker or one operation of another thread.  The
    second component is the image the worker is starting a daemon for. *)
Inductive lstep : (ctl * W) * option string → (ctl * W) * option string → Prop :=
  | l_enter p hs s s' : prestart_enter cfg p s = (Ok (Some hs), s') → lstep (s, None) (s', Some p)
  | l_refuse p s s' : prestart_enter cfg p s = (Ok None, s') → lstep (s, None) (s', None)
  | l_publish p h s : lstep (s, Some p) ((prestart_publish p h s).2, None)
  | l_abandon p s : lstep (s, Some p) (s, None)
  | l_schedule p s w : lstep (s, w) ((schedule_lazy_prestart cfg p s).2, w)
  | l_retire p s w : lstep (s, w) ((retire_lazy_prestart p s).2, w)
  | l_stop h s w : lstep (s, w) ((stop_lazy_pages_daemon h s).2, w)
  | l_take p s w : lstep (s, w) ((take_lazy_pages_daemon cfg p s).2, None)
  | l_close s w : lstep (s, w) ((close_lazy_prestart cfg s).2, None)
  | l_other s s' w : lazy s'.1 = lazy s.1 → lstep (s, w) (s', w).

Definition linv (z0 : lazy_state) (x : (ctl * W) * option string) : Prop :=
  settled z0 (lazy x.1.1) ∧ (x.2 ≠ None → room (lazy x.1.1)).

Lemma run_keeps {A} P (m : M (ctl * W) A) s : keeps P m → P s → P (m s).2.
Proof. intros H Hs. specialize (H s Hs). unfold wp in H. by destruct (m s) as [[?|?] ?]. Qed.

Lemma shrinks_linv {A} (m : M (ctl * W) A) z0 s w : shrinks m → linv z0 (s, w) → linv z0 ((m s).2, w).
Proof.
  intros Hm [H1 H2]. pose proof (run_keeps (fun s' => shrink (lazy s.1) (lazy s'.1)) m s (Hm _) (shrink_refl _)) as H.
  split; cbn [fst snd] in *; [by eapply shrink_settled|]. intros Hw. by eapply shrink_room, H2.
Qed.

Lemma lstep_inv z0 x x' : (1 <= lazy_prestart_max cfg)%Z → linv z0 x → lstep x x' → linv z0 x'.
Proof.
  intros Hmax Hi Hs. destruct Hs as [p hs s s' E|p s s' E|p h s|p s|p s w|p s w|h s w|p s w|s w|s s' w E].
  - destruct Hi as [H _]. pose proof (enter_spec p s Hmax) as He. unfold wp in He. rewrite E in He.
    destruct He as [H1 H2]. destruct H2 as [H2 _]; [done|]. split; [by eapply shrink_settled|done].
  - destruct Hi as [H _]. pose proof (enter_spec p s Hmax) as He. unfold wp in He. rewrite E in He.
    destruct He as [H1 _]. split; [by eapply shrink_settled|done].
  - destruct Hi as [H1 H2]. split; [|done]. pose proof (settled_publish z0 p h s H1 (H2 ltac:(done))) as H.
    unfold wp in H. cbn [fst]. by destruct (prestart_publish p h s) as [[?|?] ?].
  - by destruct Hi.
  - by apply shrinks_linv; [apply shrinks_schedule|].
  - by apply shrinks_linv; [apply shrinks_retire|].
  - apply shrinks_linv; [|done]. apply shrinks_bind; [apply shrinks_stop|intros; apply shrinks_reap].
  - destruct Hi as [H1 _]. split; [|done].
    by apply (run_keeps (fun s => settled z0 (lazy s.1))); [apply take_settled|].
  - destruct Hi as [H1 _]. split; [|done]. pose proof (close_spec z0 s Hmax H1) as H. unfold wp in H. cbn [fst].
    destruct (close_lazy_prestart cfg s) as [[?|?] ?]; [by destruct H|done].
  - unfold linv. cbn [fst snd] in *. by rewrite E.
Qed.

(** C6: whatever the order in which the prestart worker, the completion
    callbacks, restores and garbage collections act, there is at most one idle
    lazy-pages daemon per image and never more than the limit; an image that
    garbage collection retired never has an idle daemon again; and after
    closing no idle daemon appears. *)
Theorem idle_daemons_safe s0 s w :
  (1 <= lazy_prestart_max cfg)%Z → lazy_ok (lazy s0.1) → rtc lstep (s0, None) (s, w) →
  lazy_ok (lazy s.1) ∧
  (∀ p, p ∈ retired (lazy s0.1) → p ∈ retired (lazy s.1) ∧ dget p (prestarted (lazy s.1)) = None) ∧
  (closed (lazy s0.1) → closed (lazy s.1)).
Proof.
  intros Hmax Hok Hr.
  assert (linv (lazy s0.1) (s, w)) as [(H1 & H2 & H3 & _) _].
  { assert (linv (lazy s0.1) (s0, None)) as H0 by (split; [split_and!|]; done).
    revert H0. induction Hr as [x|x y z Hxy Hr IH]; intros H0; [done|]. apply IH. by eapply lstep_inv. }
  split; [done|]. split; [|done]. intros p Hp. split; [by apply H2|]. apply dget_None.
  destruct H1 as (_ & _ & H1). apply H1, H2, Hp.
Qed.

End idle.

(** ** A concrete run *)

Section demo.
Import Sim.
#[local] Existing Instance RootOverlay.sim_mount_host.

(** An idle daemon for one image; the worker starts a second one while garbage
    collection retires the first. *)
Definition demo_lazy (z : lazy_state) : ctl * simw := (set_lazy z demo_c0, (demo_k0, [])).
Definition demo_l0 := demo_lazy (Lazy [] [("/s/a", 70%Z)] ["/s/b"] ["/s/z"] false).
Definition demo_l1 := (prestart_enter demo_cfg "/s/b" demo_l0).2.
Definition demo_l2 := (retire_lazy_prestart "/s/a" demo_l1).2.
Definition demo_l3 := (prestart_publish "/s/b" 71 demo_l2).2.

Lemma demo_lazy_ok : lazy_ok demo_cfg (lazy demo_l0.1).
Proof.
  split_and!.
  - apply NoDup_singleton.
  - vm_compute. discriminate.
  - intros p Hp%list_elem_of_singleton Hq%list_elem_of_singleton. subst. discriminate.
Qed.

Example idle_daemons_safe_witness :
  prestarted (lazy demo_l3.1) = [("/s/b", 71%Z)] ∧ lazy_ok demo_cfg (lazy demo_l3.1) ∧
  (∀ p, p ∈ retired (lazy demo_l0.1) → p ∈ retired (lazy demo_l3.1) ∧ dget p (prestarted (lazy demo_l3.1)) = None) ∧
  (closed (lazy demo_l0.1) → closed (lazy demo_l3.1)).
Proof.
  split; [by vm_compute|].
  apply (idle_daemons_safe demo_cfg demo_l0 demo_l3 None); [vm_compute; discriminate|apply demo_lazy_ok|].
  eapply rtc_l; [apply (l_enter demo_cfg "/s/b" [] demo_l0 demo_l1); by vm_compute|].
  eapply rtc_l; [apply (l_retire demo_cfg "/s/a")|].
  eapply rtc_l; [apply (l_publish demo_cfg "/s/b" 71)|]. apply rtc_refl.
Defined.
End demo.
End LazyPages.
