(* ===== verification/AsyncCheckpoint.v ===== *)
(** * Asynchronous incremental checkpoints ([async_checkpoint.py])

    A standard checkpoint returns as soon as a warm template and a frozen,
    disposable copy of the worker exist; a writer dumps the copy afterwards,
    comparing pages with the image of the physical parent.  [async_checkpoint]
    is the transaction on the caller's thread; the writer is split at the
    points where other threads can run: [writer_start] (waits for the parent),
    [writer_dump], [writer_finish] (disposes of the copy and resolves the
    future).  Waiting for writers ([wait_writers]) runs the steps they make
    meanwhile. *)

From S2P Require Import Prelude Hoare PyStr PyDict Resources Registry Overlay RootOverlay Host Process.
From S2P Require Import AsyncResources Checkpoint LazyPages PageStats.
From Stdlib Require Import Ascii.

Module AsyncCheckpoint.
Import Resources Process AsyncResources Checkpoint LazyPages.

Definition PROTOCOL : string := "exact-parent-v1".

Definition set_slots v (a : async_state) := Async v (a_failed a) (a_futs a) (a_marks a) (a_jobs a).
Definition set_failed v (a : async_state) := Async (a_slots a) v (a_futs a) (a_marks a) (a_jobs a).
Definition set_fut i v (a : async_state) := Async (a_slots a) (a_failed a) (<[i := v]> (a_futs a)) (a_marks a) (a_jobs a).
Definition set_mark i v (a : async_state) := Async (a_slots a) (a_failed a) (a_futs a) (<[i := v]> (a_marks a)) (a_jobs a).
Definition set_job i v (a : async_state) := Async (a_slots a) (a_failed a) (a_futs a) (a_marks a) (<[i := v]> (a_jobs a)).
Definition drop_job i (a : async_state) := Async (a_slots a) (a_failed a) (a_futs a) (a_marks a) (delete i (a_jobs a)).

(** An entry's future, when it has one. *)
Definition fut_of (a : async_state) (id : string) : fut := default (FDone None) (a_futs a !! id).
Definition committed (a : async_state) (id : string) : bool :=
  match a_marks a !! id with Some m => bool_decide (m_state m = DURABLE_READY) | None => false end.

Definition is_some_exn (e : option exn) : bool := match e with Some _ => true | None => false end.

Section ops.
Context {W : Type} `{!KernelOverlay W} `{!MountHost W} `{!Host W} (cfg : config).
Abbreviation C := (M (ctl * W)).

Definition get_async : C async_state := c ← getc; mret (async c).
Definition mod_async (f : async_state → async_state) : C unit := modc (fun c => set_async (f (async c)) c).
Definition update_mark (id : string) (f : mark → mark) : C unit :=
  mod_async (fun a => match a_marks a !! id with Some m => set_mark id (f m) a | None => a end).

(** ** The writer *)

(** [_dispose] *)
Definition dispose (pid : Z) (pidfd : option Z) : C unit :=
  match pidfd with
  | None => kill_quiet pid SIGKILL
  | Some fd =>
      mfinally
        (mtry (is_cls ProcessLookupError)
           (_ ← call (PidfdSignal fd SIGKILL);
            gone ← call (PidfdExited fd);
            if gone : bool then mret tt else mraise TimeoutError "dump task did not exit after SIGKILL")
           (fun _ => mret tt))
        (call (CloseFd fd))
  end.

(** The entry failed: its state and its error, which [dump_stats] repeats. *)
Definition writer_failed (id : string) (j : job) (e : exn) : C unit :=
  _ ← update_mark id (fun m => Mark DURABLE_FAILED (m_dispose m) (m_cleanup m));
  _ ← modc (fun c => set_stat_err (<[id := exn_text e]> (stat_err c)) c);
  mod_async (set_job id (Job (j_entry j) (j_parent j) (j_staging j) (j_final j) (j_pidfd j) (Disposing (Some e)))).
Definition writer_phase (id : string) (j : job) (p : phase) : C unit :=
  mod_async (set_job id (Job (j_entry j) (j_parent j) (j_staging j) (j_final j) (j_pidfd j) p)).

(** [_run] up to [state = "DUMPING"]; [timed_out]: the wait for the parent's
    future gave up. *)
Definition writer_start (id : string) (timed_out : bool) : C unit :=
  a ← get_async;
  match a_jobs a !! id with
  | Some j =>
      if negb (match j_phase j with Queued => true | _ => false end) then mret tt
      else
        match j_parent j with
        | None =>
            _ ← update_mark id (fun m => Mark DUMPING (m_dispose m) (m_cleanup m));
            writer_phase id j Dumping
        | Some p =>
            match fut_of a (e_id p) with
            | FPending => if timed_out : bool then writer_failed id j (Exn TimeoutError "") else mret tt
            | FDone (Some e) => writer_failed id j e
            | FDone None =>
                if negb (committed a (e_id p)) then writer_failed id j (Exn RuntimeError "physical parent did not commit")
                else
                  _ ← update_mark id (fun m => Mark DUMPING (m_dispose m) (m_cleanup m));
                  writer_phase id j Dumping
            end
        end
  | None => mret tt
  end.

Definition writer_cmd (j : job) : C (list string) :=
  ext ← all_ext_mount_map_args cfg;
  mret ([criu_dump_bin cfg; "dump"; "--tree"; pretty (default 0%Z (e_dump_tree_pid (j_entry j))); "-D"; j_staging j;
         "--shell-job"; "--leave-stopped"; "--tcp-close"; "--ext-unix-sk"; "--manage-cgroups"; "--link-remap"]
        ++ ext ++ ["-o"; "dump.log"]
        ++ match j_parent j with Some p => ["--prev-images-dir"; relpath (e_mem_path p) (j_staging j)] | None => [] end).

(** The dump itself and its publication. *)
Definition writer_dump (id : string) : C unit :=
  a ← get_async;
  match a_jobs a !! id with
  | Some j =>
      if negb (match j_phase j with Dumping => true | _ => false end) then mret tt
      else
        mcatch
          (cmd ← writer_cmd j;
           _ ← call (CheckCall cmd []);
           images ← call (ReadImages (j_staging j));
           _ ← lift_result (PageStats.collect_page_stats images 4096);
           _ ← call (Replace (j_staging j) (j_final j));
           _ ← update_mark id (fun m => Mark DURABLE_READY (m_dispose m) (m_cleanup m));
           writer_phase id j (Disposing None))
          (writer_failed id j)
  | None => mret tt
  end.

(** The [finally] of [_run]. *)
Definition writer_finish (id : string) : C unit :=
  a ← get_async;
  match a_jobs a !! id with
  | Some j =>
      match j_phase j with
      | Disposing error =>
          final ← mcatch
            (_ ← dispose (default 0%Z (e_dump_tree_pid (j_entry j))) (Some (j_pidfd j));
             _ ← update_mark id (fun m => Mark (m_state m) true (m_cleanup m));
             mret error)
            (fun e =>
               _ ← update_mark id (fun m => Mark DURABLE_FAILED false (Some (exn_text e)));
               match error with
               | None => _ ← modc (fun c => set_stat_err (<[id := "disposal: " +:+ exn_msg e]> (stat_err c)) c);
                         mret (Some e)
               | Some e0 => mret (Some e0)
               end);
          _ ← mod_async (fun a => set_slots (a_slots a + 1)%Z a);
          _ ← mod_async (fun a => drop_job id (set_fut id (FDone final) a));
          (* the callback of [_watch_lazy_prestart] *)
          mwhen (lazy_prestart cfg)
            (mcatch (on_durable_image cfg id (j_entry j) (is_some_exn final)) (fun _ => mret tt))
      | _ => mret tt
      end
  | None => mret tt
  end.

(** What writers do while this thread waits for them. *)
Definition writer_step (e : writer_event) : C unit :=
  match e with
  | WStart id timed_out => writer_start id timed_out
  | WDump id => writer_dump id
  | WFinish id => writer_finish id
  end.
Definition wait_writers : C unit := evs ← call WriterProgress; mfor evs writer_step.

(** ** The transaction *)

(** [_parent] *)
Definition physical_parent (parent_id : option string) : C (option entry) :=
  if negb (truthy parent_id) then mret None
  else
    c ← getc;
    let pid := default "" parent_id in
    match dget pid (reg c) with
    | None => mraise ValueError "unknown checkpoint parent"
    | Some e =>
        match match e_effective_restore_id e with Some v => v | None => Some pid end with
        | None => mraise KeyError "None"
        | Some effective =>
            match dget effective (reg c) with
            | None => mraise KeyError effective
            | Some p =>
                if negb (bool_decide (e_memory_protocol p = Some PROTOCOL))
                then mraise ValueError "cannot attach exact-parent dump to a different checkpoint protocol"
                else mret (Some p)
            end
        end
    end.

(** [_sink]: the walk's errors are raised; the new directories are made before
    the rename (their names are unused, so [exist_ok] makes no difference). *)
Definition async_sink (checkpoint_id : string) (parent : option entry) : C (list string * bool) :=
  c ← getc;
  let layers := match parent with Some p => e_layers p | None => [base_layer cfg] end in
  here ← call (IsDir (current_upper c));
  if negb here then mraise FileNotFoundError (current_upper c)
  else
    _ ← call (WalkError (current_upper c));
    dirty ← onw (os_tree_nonempty (current_upper c));
    layers ←
      (if dirty : bool then
         let frozen := path_join (layers_root cfg) ("layer_" +:+ checkpoint_id) in
         let upper := path_join (layers_root cfg) ("upper_" +:+ checkpoint_id +:+ "_next") in
         let work := path_join (layers_root cfg) ("work_" +:+ checkpoint_id +:+ "_next") in
         _ ← onw (os_makedirs upper);
         _ ← onw (os_makedirs work);
         _ ← onw (os_rename (current_upper c) frozen);
         _ ← apply_overlay_switch cfg layers upper work "ckpt";
         _ ← modc (fun c => set_current_work work (set_current_upper upper c));
         mret (frozen :: layers)
       else mret layers);
    _ ← on_root_overlays (RootOverlay.set_checkpoint checkpoint_id);
    mret (layers, dirty).

(** Disposable copies whose writers are still at work. *)
Definition protected_pids (c : ctl) : list Z :=
  omap (fun p => match e_async_dump_template_pid p.2 with
                 | Some pid => if negb (pid =? 0)%Z && e_has_future p.2 && negb (fut_done (fut_of (async c) p.1))
                               then Some pid else None
                 | None => None end) (reg c).

(** [TemplatePool.quiesce_for_checkpoint]: the worker is stopped during [body]
    and continued afterwards, through a handle on the process itself. *)
Fixpoint wait_quiet (fuel : nat) (pid pidfd : Z) : C unit :=
  match fuel with
  | O => mraise TimeoutError "checkpoint worker failed to stop"
  | S fuel =>
      gone ← call (PidfdExited pidfd);
      if gone : bool then mraise ProcessLookupError "checkpoint worker exited before quiescence"
      else
        text ← call (ReadFile (proc pid "/stat"));
        match split_ws (after_last ")" text) with
        | [] => mraise KeyError "0"                       (* IndexError *)
        | st :: _ =>
            if bool_decide (st = "T") then mret tt
            else more ← call Sleep;
                 if more : bool then wait_quiet fuel pid pidfd
                 else mraise TimeoutError "checkpoint worker failed to stop"
        end
  end.
Definition quiesce_for_checkpoint {A} (source_pid : Z) (body : C A) : C A :=
  pidfd ← call (OpenPidfd source_pid);
  mfinally
    (_ ← call (TpPause source_pid);
     _ ← wait_quiet (poll_limit cfg) source_pid pidfd;
     mfinally body (mtry (is_cls ProcessLookupError) (call (PidfdSignal pidfd SIGCONT)) (fun _ => mret tt)))
    (call (CloseFd pidfd)).

(** The local variables the exception handler looks at. *)
Record locals := Locals { l_warm : option Z; l_dump : option Z; l_pidfd : option Z; l_future : bool }.

(** The [except BaseException] and [finally] clauses. *)
Definition release_slot : C unit := mod_async (fun a => set_slots (a_slots a + 1)%Z a).
Definition abandon_registered (id : string) (l : locals) (e : exn) : C unit :=
  _ ← mod_async (set_failed (Some (exn_text e)));
  _ ← mwhen (l_future l)
        (mod_async (fun a => if fut_done (fut_of a id) then a else set_fut id (FDone (Some e)) a));
  _ ← modc (fun c => set_reg (dpop id (reg c)) c);
  c ← getc;
  match l_warm l with
  | Some w => mwhen (negb (bool_decide (w = ns_init_pid c))) (template_discard id)
  | None => mret tt
  end.
Definition abandon_copy (staging : string) (l : locals) (e : exn) : C unit :=
  _ ← match l_dump l with
      | Some pid => mcatch (dispose pid (l_pidfd l))
                      (fun e' => mod_async (fun a => set_failed (Some (default "" (a_failed a) +:+ "; cleanup: " +:+ exn_msg e')) a))
      | None => mret tt
      end;
  here ← call (PathExists staging);
  mwhen here (call (Rmtree staging)).
Definition abandon {A} (id staging : string) (l : locals) (e : exn) : C A :=
  r ← mcatch (_ ← abandon_registered id l e; mret None) (fun e' => mret (Some e'));
  match r with
  | Some e' =>
      _ ← match l_pidfd l with Some fd => call (CloseFd fd) | None => mret tt end;
      _ ← release_slot;
      mthrow e'
  | None => mfinally (_ ← abandon_copy staging l e; mthrow e) release_slot
  end.

Definition async_entry (id final : string) (parent_id : option string) (parent : option entry) (layers : list string)
    (dirty : bool) (warm dump_pid : Z) (resources : contract) (c : ctl) : entry :=
  {| e_id := id; e_mem_path := final; e_parent_id := parent_id; e_prev_ckpt_id := e_id <$> parent;
     e_layers := layers; e_strategy := "standard"; e_template_pid := Some warm;
     e_async_dump_template_pid := Some dump_pid; e_dump_tree_pid := Some dump_pid;
     e_ns_init_pid := Some (ns_init_pid c); e_external_pidns := Some false; e_fixed_active_pid := None;
     e_has_future := true; e_dump_error := None; e_upper_dirty := dirty;
     e_prev_cross_pid := is_some parent;
     e_prev_pid_mode := Some (if is_some parent then "exact-page-content" else "full-seed");
     e_effective_restore_id := None; e_replay_cmds := []; e_memory_protocol := Some PROTOCOL;
     e_resources := Some resources |}.

(** The [try] block: each stage runs under the handler with the locals that
    are set when it runs. *)
Definition transaction (parent_id : option string) (parent : option entry) (id final staging : string) : C entry :=
  let guard {A} (l : locals) (m : C A) : C A := mcatch m (abandon id staging l) in
  let l0 := Locals None None None false in
  '(warm, attempted) ← guard l0
    (c ← getc;
     if is_some (root_overlays c) then mraise RuntimeError "multiple root overlays are not supported"
     else
       init ← is_pidns_init (agent_pid c);
       _ ← mwhen init (_ ← validate_replay_children (agent_pid c) (protected_pids c); mret tt);
       bootstrap_active_before_dump cfg id);
  let l1 := Locals warm None None false in
  '(resources, child, (layers, dirty)) ← guard l1
    (if attempted && negb (is_some warm) then mraise RuntimeError "failed to move active off PID namespace init"
     else
       c ← getc;
       init ← is_pidns_init (agent_pid c);
       if init : bool then mraise RuntimeError "writers cannot be children of an active PID namespace init"
       else
         '(resources, sunk) ← quiesce_for_checkpoint (agent_pid c)
           (c ← getc;
            resources ← validate_replay_resources (agent_pid c) (overlay_mount_point cfg) (protected_pids c)
                          DEFAULT_FIFOS DEFAULT_STDIO;
            c ← getc;
            logical ← match parent_id with
                      | Some p => if bool_decide (p = "") then mret None
                                  else match dget p (reg c) with Some e => mret (Some e) | None => mraise KeyError p end
                      | None => mret None
                      end;
            sunk ← async_sink id logical;
            mret (resources, sunk));
         child ← lift_result (dump_child_contract resources);
         mret (resources, child, sunk));
  warm ← guard l1
    (match warm with
     | Some w => mret (Some w)
     | None => c ← getc; request_stash_template (agent_pid c) (Some id) (Some false) false false None
     end);
  let l2 := Locals warm None None false in
  dump_pid ← guard l2
    (_ ← match warm with
         | None => mraise RuntimeError "warm template failed to stop"
         | Some w => stopped ← wait_pid_stopped cfg w;
                     if stopped : bool then mret tt else mraise RuntimeError "warm template failed to stop"
         end;
     c ← getc;
     request_stash_template (agent_pid c) None (Some true) false false None);
  let l3 := Locals warm dump_pid None false in
  pidfd ← guard l3
    (match dump_pid with
     | None => mraise RuntimeError "disposable dump task failed to stop"
     | Some d =>
         stopped ← wait_pid_stopped cfg d;
         if negb stopped then mraise RuntimeError "disposable dump task failed to stop"
         else
           init ← is_pidns_init d;
           if negb init then mraise RuntimeError "exact-parent writer must have virtual PID 1"
           else call (OpenPidfd d)
     end);
  let l4 := Locals warm dump_pid (Some pidfd) false in
  _ ← guard l4 (call (MkdirNew staging));
  let l5 := Locals warm dump_pid (Some pidfd) true in
  guard l5
    (_ ← mod_async (fun a => set_mark id (Mark WARM_READY false None) (set_fut id FPending a));
     c ← getc;
     let entry := async_entry id final parent_id parent layers dirty (default 0%Z warm) (default 0%Z dump_pid) resources c in
     _ ← modc (fun c => set_reg (dset id entry (reg c)) c);
     _ ← call (SubmitWriter id);
     _ ← mod_async (set_job id (Job entry parent staging final pidfd Queued));
     mret entry).

Definition async_checkpoint (parent_id : option string) (tag raw_command : string) (ops : list string) : C entry :=
  a ← get_async;
  if truthy (a_failed a) then mraise RuntimeError "async checkpoint transaction previously failed"
  else if bool_decide (raw_command = "predump") then mraise ValueError "predump checkpoints are not supported"
  else
    parent ← physical_parent parent_id;
    if bool_decide (raw_command = "lightweight") then
      match parent with
      | None => mraise ValueError "lightweight checkpoint requires a physical parent"
      | Some _ => checkpoint_legacy cfg parent_id tag raw_command ops
      end
    else
      _ ← (if (0 <? a_slots a)%Z then mret tt else wait_writers);
      a ← get_async;
      if negb (0 <? a_slots a)%Z then mraise TimeoutError "async checkpoint admission timed out"
      else
        _ ← mod_async (fun a => set_slots (a_slots a - 1)%Z a);
        id ← call (UuidHex 12);
        let final := path_join (snapshot_store cfg) (tag +:+ "_" +:+ id +:+ "_mem") in
        transaction parent_id parent id final (final +:+ ".pending").

(** ** The barrier before a namespace is torn down *)

Definition drain_one (id : string) : C unit :=
  a ← get_async;
  _ ← (if fut_done (fut_of a id) then mret tt else wait_writers);
  a ← get_async;
  if negb (fut_done (fut_of a id)) then mraise TimeoutError "dump has not finished disposal"
  else
    match a_marks a !! id with
    | Some m => if m_dispose m then mret tt
                else mraise RuntimeError "cannot tear down namespace: dump cleanup incomplete"
    | None => mraise RuntimeError "cannot tear down namespace: dump cleanup incomplete"
    end.
Definition drain_ids (r : registry) : list string :=
  (List.filter (fun p => bool_decide (e_memory_protocol p.2 = Some PROTOCOL) && e_has_future p.2) r).*1.
Definition drain_before_namespace_teardown : C unit :=
  c ← getc; mfor (drain_ids (reg c)) drain_one.

(** [checkpoint_action] *)
Definition checkpoint_action (parent_id : option string) (tag raw_command : string) (ops : list string) : C entry :=
  if async_incremental cfg then async_checkpoint parent_id tag raw_command ops
  else checkpoint_legacy cfg parent_id tag raw_command ops.
End ops.
End AsyncCheckpoint.
