(* ===== verification/Restore.v ===== *)
(** * Restores ([SandboxController.restore_action]) and garbage collection

    A restore redirects a lightweight target to the entry that has its memory
    image, refuses what it can refuse before it changes anything, kills the
    active processes, switches the overlay to the layers of the image, and
    brings the processes back from the warm template or, failing that, from
    the durable image.  [restore_action] composes the phases in the order of
    the code; [gc_obsolete_snapshots] prunes the registry. *)

From S2P Require Import Prelude Hoare PyStr PyDict Registry Overlay RootOverlay Host Process AsyncResources Checkpoint.
From S2P Require Import LazyPages AsyncCheckpoint.
From Stdlib Require Import Ascii.

Module Restore.
Import Process AsyncResources Checkpoint LazyPages AsyncCheckpoint.

Section ops.
Context {W : Type} `{!KernelOverlay W} `{!MountHost W} `{!Host W} (cfg : config).
Abbreviation C := (M (ctl * W)).

(** ** Epochs: in-flight model requests of the abandoned branch *)

Definition persist_epoch : C unit :=
  c ← getc;
  let tmp := npd_epoch_file cfg +:+ ".tmp" in
  mtry is_OSError
    (_ ← call (WriteFile tmp (pretty (current_epoch c))); call (Replace tmp (npd_epoch_file cfg)))
    (fun _ => mret tt).

Definition bump_epoch : C unit :=
  _ ← modc (fun c => set_current_epoch (current_epoch c + 1)%Z c);
  persist_epoch.

Definition unlink_pending_resp_files : C unit :=
  names ← call_or [] (ListDir (npd_resp_dir cfg));
  mfor names (fun name =>
    if endswith name ".json" then call_or tt (Unlink (path_join (npd_resp_dir cfg) name)) else mret tt).

Definition quoted (s : string) : string := String (chr 34) s +:+ String (chr 34) "".
Definition abort_message (epoch : Z) : string :=
  (if env_replay_strict_epoch cfg then String (chr 30) "" else "")
  +:+ "{" +:+ quoted "ctrl" +:+ ": " +:+ quoted "abort_pending_all" +:+ ", "
  +:+ quoted "_replay_epoch" +:+ ": " +:+ pretty epoch +:+ "}" +:+ String (chr 10) "".

Definition write_ctrl_abort_pending_all : C unit :=
  c ← getc;
  fd ← mtry is_OSError (f ← call (OpenFd "/tmp/agent.in"); mret (Some f)) (fun _ => mret None);
  match fd with
  | None => mret tt
  | Some f =>
      mfinally
        (mtry is_OSError (call (WriteFd f (abort_message (current_epoch c)))) (fun _ => mret tt))
        (call (CloseFd f))
  end.

Definition invalidate_inflight_llm : C unit :=
  _ ← bump_epoch;
  _ ← unlink_pending_resp_files;
  write_ctrl_abort_pending_all.

(** ** What is restored *)

Record plan := Plan {
  effective_id : string;
  physical : entry;                   (* physical_target *)
  replay_cmds : list replay_item;
  warm : option Z;                    (* template_pid *)
}.

(** Up to [physical_target]: nothing outside the controller has changed. *)
Definition resolve_target (target_ckpt_id : string) (allow_cold_fallback : bool) : C plan :=
  c ← getc;
  match dget target_ckpt_id (reg c) with
  | None => mraise ValueError ("Unknown ID: " +:+ target_ckpt_id)
  | Some target =>
      _ ← modc (set_last_restore_target_id (Some target_ckpt_id));
      let effective := match e_effective_restore_id target with Some v => v | None => Some target_ckpt_id end in
      t ← match effective with
          | Some eff => if enable_warm_template cfg then template_get eff else mret None
          | None => mret None
          end;
      let t := if env_force_criu_restore cfg then None else t in
      if negb (is_some t) && negb allow_cold_fallback
      then mraise RuntimeError "Restore requires its live template; durable fallback is prohibited"
      else
        match effective with
        | None => mraise KeyError "None"
        | Some eff =>
            if bool_decide (eff = target_ckpt_id) then mret (Plan eff target (e_replay_cmds target) t)
            else match dget eff (reg c) with
                 | Some p => mret (Plan eff p (e_replay_cmds target) t)
                 | None => mraise KeyError eff
                 end
        end
  end.

(** [_join_durable_dump] *)
Definition join_durable_dump (p : plan) : C unit :=
  if negb (e_has_future (physical p)) then mret tt
  else mtry any_exn (dump_result cfg (effective_id p))
         (fun e => mraise DumpUnavailableError ("dump unavailable: " +:+ exn_text e)).

Definition check_dump_error (p : plan) : C unit :=
  c ← getc;
  if truthy (e_dump_error (physical p)) || truthy (stat_err c !! effective_id p)
  then mraise DumpUnavailableError "durable dump unavailable" else mret tt.

(** The prerequisites of a known cold restore: [external_pidns_restore]. *)
Definition cold_prerequisites (p : plan) : C (option bool) :=
  match warm p with
  | Some _ => mret None
  | None =>
      _ ← join_durable_dump p;
      _ ← check_dump_error p;
      ext ← is_external_pidns_dump (physical p);
      _ ← mwhen ext (lift_result (check_external_restore_pool_clear_allowed cfg));
      mret (Some ext)
  end.

(** ** The slow path *)

Definition restore_cmd (p : plan) (pidfile : string) (ext_args : list string) (ext exact : bool) (r : registry)
    (fd : option Z) : list string :=
  let mem := e_mem_path (physical p) in
  let shell_job := if ext then env_external_shell_job cfg else true in
  [criu_restore_bin cfg; "restore"; "-D"; mem]
  ++ (if shell_job then ["--shell-job"] else [])
  ++ ["--restore-detached"; "--tcp-close"; "--ext-unix-sk"; "--pidfile"; pidfile] ++ ext_args
  ++ debug_args cfg
  ++ (if env_restore_leave_stopped cfg || exact then ["--leave-stopped"] else [])
  ++ match e_prev_ckpt_id (physical p) with
     | Some pid =>
         if bool_decide (pid = "") then []
         else match dget pid r with
              | Some e => if bool_decide (e_mem_path e = "") then []
                          else ["--prev-images-dir"; relpath (e_mem_path e) mem]
              | None => []
              end
     | None => []
     end
  ++ external_pidns_restore_args fd.

(** Legacy full-namespace images: the old namespace is torn down. *)
Definition kill_namespace : C unit :=
  _ ← mwhen (async_incremental cfg) (drain_before_namespace_teardown cfg);
  c ← getc;
  _ ← mtry any_exn (call (Kill (ns_init_pid c) SIGKILL)) (fun _ => mret tt);
  mtry any_exn (call (Waitpid (ns_init_pid c))) (fun _ => mret tt).

Definition switch_layers (layers : list string) (new_upper new_work : string) : C unit :=
  _ ← apply_overlay_switch cfg layers new_upper new_work "restore";
  modc (fun c => set_current_work new_work (set_current_upper new_upper c)).

(** The [try] around CRIU: whether a lazy-pages daemon serves the image. *)
Definition run_criu (p : plan) (cmd : list string) (exact switched : bool) (layers : list string)
    (new_upper new_work : string) (fd : option Z) : C bool :=
  let pass := match fd with Some f => [f] | None => [] end in
  mfinally
    ('(rargs, rfds) ← (if exact then
                          match e_resources (physical p) with
                          | Some ct => protocol_restore_fds ct
                          | None => mraise KeyError "resources"
                          end
                        else mret ([], []));
     mfinally
       (daemon ← (if enable_criu_lazy_restore cfg then
                    '(h, _) ← take_lazy_pages_daemon cfg (e_mem_path (physical p)); mret (Some h)
                  else mret None);
        let cmd := cmd ++ rargs ++ (if enable_criu_lazy_restore cfg then ["--lazy-pages"] else []) in
        mcatch
          (_ ← (if enable_criu_lazy_restore cfg && parallel_lazy_restore cfg then
                  proc ← call (Popen cmd (pass ++ rfds));
                  _ ← mwhen (negb switched) (switch_layers layers new_upper new_work);
                  rc ← call (ProcWait proc);
                  if (rc =? 0)%Z then mret tt else mraise CalledProcessError "criu restore"
                else call (CheckCall cmd (pass ++ rfds)));
           mret (is_some daemon))
          (fun e => _ ← match daemon with Some h => stop_lazy_pages_daemon h | None => mret tt end; mthrow e))
       (mwhen exact (close_fds rfds)))
    (match fd with Some f => call (CloseFd f) | None => mret tt end).

(** Reading the pid file and resuming the restored root. *)
Definition resume_restored (exact : bool) (pid : Z) : C unit :=
  if enable_criu_lazy_restore cfg || exact then
    if exact then call (KillPidfd pid SIGCONT)
    else mtry is_OSError (call (Kill pid SIGCONT)) (fun _ => mret tt)
  else mret tt.

Definition adopt_restored (p : plan) (pidfile : string) (exact ext : bool) : C unit :=
  mtry (fun e => is_OSError e || is_cls ValueError e)
    (text ← call (ReadFile pidfile);
     pid ← lift_result (parse_int text);
     _ ← (if exact then
            init ← (if (pid <=? 1)%Z then mret false else is_pidns_init pid);
            if init : bool then mret tt
            else mraise RuntimeError "exact-parent restore did not publish a live namespace init"
          else mret tt);
     _ ← modc (set_agent_pid pid);
     _ ← modc (set_active_dump_owner_id (Some (effective_id p)));
     _ ← mwhen (negb ext)
           (_ ← modc (set_ns_init_pid pid);
            mwhen (enable_warm_template cfg) (call (TpSetReaper pid)));
     _ ← resume_restored exact pid;
     _ ← probe_clear_soft_dirty cfg pid;
     schedule_async_parent_restamp cfg (effective_id p))
    (fun e => if exact then mraise RuntimeError "exact-parent restore activation failed" else mret tt).

Definition slow_restore (p : plan) (ext : option bool) (switched : bool) (layers : list string)
    (new_upper new_work : string) : C string :=
  ext ← match ext with Some b => mret b | None => is_external_pidns_dump (physical p) end;
  fd ← (if ext : bool then
          _ ← clear_templates_for_external_restore cfg;
          fd ← open_external_pidns_fd;
          match fd with
          | None => mraise DumpUnavailableError "external pid namespace is unavailable"
          | Some f => mret (Some f)
          end
        else _ ← kill_namespace; mret None);
  let pidfile := path_join (e_mem_path (physical p)) "restored.pid" in
  _ ← call_or tt (Unlink pidfile);
  ext_args ← all_ext_mount_map_args cfg;
  c ← getc;
  let exact := bool_decide (e_memory_protocol (physical p) = Some "exact-parent-v1") in
  lazy_used ← run_criu p (restore_cmd p pidfile ext_args ext exact (reg c) fd) exact switched layers new_upper new_work fd;
  _ ← adopt_restored p pidfile exact ext;
  _ ← mwhen (enable_warm_template cfg && negb ext)
        (_ ← modc (set_templates []); call TpReset);
  _ ← invalidate_inflight_llm;
  _ ← mwhen lazy_used (schedule_lazy_prestart cfg (e_mem_path (physical p)));
  mret (if enable_criu_lazy_restore cfg then "criu-lazy" else "criu").

(** ** The fast path *)

(** Fork from the warm template while the overlay is switched: the new active
    process, if the fork succeeded. *)
Definition warm_fork (template_pid : Z) (layers : list string) (new_upper new_work : string) : C (option Z) :=
  dispatched ← call (TpDispatch template_pid false
                 (if restore_fastfork_dump_pid cfg then None else fixed_active_pid cfg));
  _ ← switch_layers layers new_upper new_work;
  if dispatched : bool then await_fork template_pid None else mret None.

Definition adopt_fork (p : plan) (child_pid : Z) : C unit :=
  _ ← modc (set_agent_pid child_pid);
  _ ← modc (set_active_dump_owner_id (Some (effective_id p)));
  _ ← schedule_async_parent_restamp cfg (effective_id p);
  _ ← bump_epoch;
  _ ← clear_soft_dirty_after_fork cfg child_pid;
  mwhen (enable_prewarm cfg) (call (Prewarm child_pid)).

Definition restore_root_overlays (id : string) : C unit :=
  c ← getc;
  match root_overlays c with
  | Some os => if RootOverlay.set_has_checkpoint id os
               then on_root_overlays (RootOverlay.set_restore id) else mret tt
  | None => mret tt
  end.

(** The new backing directories, made while the killed processes exit. *)
Definition prepare_restore (new_upper new_work : string) : C unit :=
  _ ← onw (os_makedirs new_upper); onw (os_makedirs new_work).

(** Everything after the prerequisites: from here the current branch of the
    sandbox is given up. *)
Definition perform_restore (p : plan) (ext : option bool) (allow_cold_fallback : bool) : C (string * list replay_item) :=
  _ ← mwhen (negb (is_some (warm p)) && negb (default false ext) && async_incremental cfg) (drain_before_namespace_teardown cfg);
  _ ← join_active_dump_before_kill cfg;
  _ ← restore_root_overlays (effective_id p);
  let layers := e_layers (physical p) in
  restore_id ← call (Uuid 6);
  let new_upper := path_join (layers_root cfg) ("restore_" +:+ restore_id +:+ "_upper") in
  let new_work := path_join (layers_root cfg) ("restore_" +:+ restore_id +:+ "_work") in
  _ ← kill_active_subtree cfg (prepare_restore new_upper new_work);
  match warm p with
  | Some template_pid =>
      child ← warm_fork template_pid layers new_upper new_work;
      match child with
      | Some child_pid => _ ← adopt_fork p child_pid; mret ("warm-template", replay_cmds p)
      | None =>
          if negb allow_cold_fallback
          then mraise RuntimeError "template fork failed; durable fallback is prohibited"
          else
            _ ← join_durable_dump p;
            _ ← check_dump_error p;
            path ← slow_restore p ext true layers new_upper new_work;
            mret (path, replay_cmds p)
      end
  | None =>
      let parallel := enable_criu_lazy_restore cfg && parallel_lazy_restore cfg in
      _ ← mwhen (negb parallel) (switch_layers layers new_upper new_work);
      path ← slow_restore p ext (negb parallel) layers new_upper new_work;
      mret (path, replay_cmds p)
  end.

Definition restore_action (target_ckpt_id : string) (allow_cold_fallback : bool) : C (string * list replay_item) :=
  p ← resolve_target target_ckpt_id allow_cold_fallback;
  ext ← cold_prerequisites p;
  perform_restore p ext allow_cold_fallback.

(** ** Garbage collection *)

(** The futures that are not done, asked one by one. *)
Fixpoint poll_futures (r : registry) : C (gmap string fut) :=
  match r with
  | [] => mret ∅
  | (rid, e) :: r =>
      here ← (if e_has_future e then call (DumpDone rid) else mret true);
      rest ← poll_futures r;
      mret (if here : bool then rest else <[rid := FPending]> rest)
  end.

(** The base set: [keep_ids] when given, else the last [keep_n] entries. *)
Definition base_keep (keep_n : Z) (keep_ids : option (list string)) (r : registry) : list string :=
  match keep_ids with
  | Some ids => List.filter (fun rid => dhas rid r) ids
  | None =>
      let all_ids := dkeys r in
      let n := Z.of_nat (length all_ids) in
      if (n <=? keep_n)%Z then all_ids
      else if (keep_n =? 0)%Z then all_ids                       (* all_ids[-0:] *)
      else if (keep_n <? 0)%Z then drop (Z.to_nat (- keep_n)) all_ids
      else drop (Z.to_nat (n - keep_n)) all_ids
  end.

Definition discard_entry (keep : gset string) (rid : string) : C unit :=
  if bool_decide (rid ∈ keep) then mret tt
  else
    c ← getc;
    match dget rid (reg c) with
    | None => mret tt
    | Some e =>
        _ ← modc (fun c => set_reg (dpop rid (reg c)) c);
        _ ← mwhen (enable_warm_template cfg) (template_discard rid);
        _ ← retire_lazy_prestart (e_mem_path e);
        if bool_decide (e_mem_path e = "") then mret tt
        else here ← call (IsDir (e_mem_path e)); mwhen here (call (Rmtree (e_mem_path e)))
    end.

Definition keep_dirs (c : ctl) : list string :=
  current_upper c :: current_work c :: mjoin ((fun p => e_layers p.2) <$> reg c).

Definition prune_dir (keep : list string) (name : string) : C unit :=
  if negb (startswith name "restore_") then mret tt
  else
    let full := path_join (layers_root cfg) name in
    if mem full keep then mret tt
    else here ← call (IsDir full); mwhen here (onw (os_rmtree full)).

Definition prune_restore_dirs : C unit :=
  c ← getc;
  mtry is_OSError
    (names ← call (ListDir (layers_root cfg)); mfor names (prune_dir (keep_dirs c)))
    (fun _ => mret tt).

(** The set of ids to keep: the base set, entries whose template is the active
    process or namespace init, entries with a live reader, and all they need. *)
Definition gc_keep (keep_n : Z) (keep_ids : option (list string)) : C (gset string) :=
  c ← getc;
  let base := base_keep keep_n keep_ids (reg c) in
  let pinned := (List.filter (fun p => match e_template_pid p.2 with
                                       | Some t => mem t [agent_pid c; ns_init_pid c] | None => false end)
                             (reg c)).*1 in
  rd ← (match readers (lazy c) with [] => mret [] | _ => lazy_reader_ids end);
  futs ← poll_futures (reg c);
  c ← getc;
  match retained_ids futs (reg c) (list_to_set (base ++ pinned ++ rd)) with
  | None => mraise OutOfFuel "retained_ids"
  | Some keep => mret keep
  end.

Definition gc_body (keep_n : Z) (keep_ids : option (list string)) : C unit :=
  keep ← gc_keep keep_n keep_ids;
  c ← getc;
  _ ← mfor (dkeys (reg c)) (discard_entry keep);
  prune_restore_dirs.

(** The pruning never raises. *)
Definition gc_obsolete_snapshots (keep_n : Z) (keep_ids : option (list string)) : C unit :=
  mtry any_exn (gc_body keep_n keep_ids) (fun _ => mret tt).

(** ** Shutdown *)

(** [shutdown]: a failing pool or cache directory is only reported; a daemon
    that cannot be stopped is not. *)
Definition shutdown : C unit :=
  _ ← mtry any_exn (call (ShutdownPool "criu-dump")) (fun _ => mret tt);
  _ ← close_lazy_prestart cfg;
  z ← get_lazy;
  _ ← mfor ((readers z).*1) stop_lazy_pages_daemon;
  _ ← mtry any_exn (call (ShutdownPool "criu-restamp")) (fun _ => mret tt);
  _ ← mtry any_exn (call (Rmtree (restamp_cache_root cfg))) (fun _ => mret tt);
  c ← getc;
  match root_overlays c with
  | Some _ => mtry any_exn (on_root_overlays RootOverlay.set_teardown) (fun _ => mret tt)
  | None => mret tt
  end.
End ops.
End Restore.
