(* ===== verification/Incremental.v ===== *)
(** * The parent image of an incremental dump

    [prev_walk] climbs the checkpoint tree to the nearest ancestor whose image
    can serve as the parent of a new dump.  The walk has no bound in the code;
    here it ends because parents are registered before their children. *)

From S2P Require Import Prelude Hoare PyStr PyDict Registry Overlay RootOverlay Host Process Checkpoint.
From S2P Require Import Sim.
From Stdlib Require Import Ascii.

Module Incremental.
Import Checkpoint.

(** Parents come before children: a rank that falls along registered parents. *)
Definition ranked (r : registry) (rank : string → nat) : Prop :=
  ∀ i e p, dget i r = Some e → e_parent_id e = Some p → dhas p r = true → (rank p < rank i)%nat.
Definition forest (r : registry) : Prop := ∃ rank, ranked r rank.

Section walk.
Context (cfg : config) (ns_init dump_tree : Z) (errs : gmap string string) (r : registry).
Abbreviation usable := (usable_parent cfg ns_init dump_tree errs).

(** [a] is passed over on the way to [b]. *)
Definition skip (a b : string) : Prop :=
  a ≠ "" ∧ ∃ e, dget a r = Some e ∧ usable a e = false ∧ e_parent_id e = Some b.

(** With parents before children, one step of fuel per entry is enough. *)
Lemma prev_walk_fuel rank fuel visited walk :
  ranked r rank → NoDup visited → visited ⊆ dkeys r →
  (∀ v w, v ∈ visited → walk = Some w → dhas w r = true → (rank w < rank v)%nat) →
  (length (dkeys r) ≤ fuel + length visited)%nat →
  is_Some (prev_walk fuel cfg ns_init dump_tree errs r walk).
Proof.
  intros Hrank. revert visited walk. induction fuel as [|fuel IH]; intros visited walk Hnd Hsub Hlt Hlen;
    (destruct walk as [w|]; [|by eexists]); simpl; (case_bool_decide; [by eexists|]);
    destruct (dget w r) as [e|] eqn:He; try by eexists.
  all: assert (dhas w r = true) as Hw by (apply dhas_true; by eexists).
  all: assert (w ∉ visited) as Hnew by (intros Hv; specialize (Hlt w w Hv eq_refl Hw); lia).
  all: assert (w ∈ dkeys r) as Hin by (apply dget_is_Some; by eexists).
  - exfalso. assert (length (w :: visited) ≤ length (dkeys r))%nat; [|simpl in *; lia].
    apply submseteq_length, NoDup_submseteq; [by constructor|]. set_solver.
  - destruct (usable w e); [by eexists|]. apply (IH (w :: visited)); [by constructor|set_solver| |simpl; lia].
    intros v p [->|Hv]%elem_of_cons Hp Hr; [by eapply Hrank|].
    etrans; [by eapply Hrank|]. by apply Hlt.
Qed.

Lemma prev_walk_spec fuel walk res :
  prev_walk fuel cfg ns_init dump_tree errs r (Some walk) = Some res →
  match res with
  | Some p => rtc skip walk (pv_id p) ∧ pv_id p ≠ "" ∧ ∃ e, dget (pv_id p) r = Some e ∧ usable (pv_id p) e = true ∧
      pv_mem p = e_mem_path e ∧ pv_cross p = negb (same_tree dump_tree e) ∧ pv_mode p = pid_mode cfg ns_init dump_tree e
  | None => ∀ a e, rtc skip walk a → a ≠ "" → dget a r = Some e → usable a e = false
  end.
Proof.
  revert walk. induction fuel as [|fuel IH]; intros walk; simpl.
  - case_bool_decide as Hw.
    + intros [= <-] a e [->|(b & Hs & _)]%rtc_inv Ha; [done|]. by destruct Hs.
    + destruct (dget walk r) as [e0|] eqn:He; [done|]. intros [= <-] a e [->|(b & (_ & e' & He' & _) & _)]%rtc_inv Ha; congruence.
  - case_bool_decide as Hw.
    + intros [= <-] a e [->|(b & Hs & _)]%rtc_inv Ha; [done|]. by destruct Hs.
    + destruct (dget walk r) as [e0|] eqn:He.
      2: { intros [= <-] a e [->|(b & (_ & e' & He' & _) & _)]%rtc_inv Ha; congruence. }
      destruct (usable walk e0) eqn:Hu.
      { intros [= <-]. simpl. split; [constructor|]. split; [done|]. by exists e0. }
      destruct (e_parent_id e0) as [p|] eqn:Hp.
      2: { intros Hres. assert (res = None) as -> by (destruct fuel; simpl in Hres; congruence).
           intros a e [->|(b & (_ & e' & He' & _ & Hb) & _)]%rtc_inv Ha; congruence. }
      intros Hres%IH. assert (skip walk p) as Hs by (split; [done|]; by exists e0). destruct res as [pv|].
      * destruct Hres as (H1 & H2). split; [by eapply rtc_l|done].
      * intros a e [<-|(b & (_ & e' & He' & _ & Hb) & Hr)]%rtc_inv Ha Hd; [congruence|].
        apply (Hres a e); [|done|done]. congruence.
Qed.

(** C5: when parents are registered before their children the walk returns,
    and it returns the nearest usable ancestor: every checkpoint it passes
    over is unusable (lightweight, of another process tree, or with a failed
    dump), and it answers "none" only if no ancestor is usable. *)
Theorem prev_walk_nearest walk :
  forest r →
  ∃ res, prev_walk (length r) cfg ns_init dump_tree errs r (Some walk) = Some res ∧
    match res with
    | Some p => rtc skip walk (pv_id p) ∧ ∃ e, dget (pv_id p) r = Some e ∧ usable (pv_id p) e = true ∧
        pv_mem p = e_mem_path e ∧ (pv_cross p = false ↔ e_dump_tree_pid e = Some dump_tree)
    | None => ∀ a e, rtc skip walk a → a ≠ "" → dget a r = Some e → usable a e = false
    end.
Proof.
  intros [rank Hr]. destruct (prev_walk_fuel rank (length r) [] (Some walk) Hr) as [res Hres]; [constructor|set_solver| | |].
  { intros v w Hv. by apply elem_of_nil in Hv. }
  { unfold dkeys. rewrite length_fmap. lia. }
  exists res. split; [done|]. pose proof (prev_walk_spec _ _ _ Hres) as H. destruct res as [p|]; [|done].
  destruct H as (H1 & _ & e & H2 & H3 & H4 & H5 & _). split; [done|]. exists e. split_and!; [done..|].
  rewrite H5. unfold same_tree. rewrite negb_false_iff. by rewrite bool_decide_eq_true.
Qed.
End walk.

(** The order survives a deletion and a registration under a new id. *)
Lemma forest_sub r r' :
  (∀ i e, dget i r' = Some e → dget i r = Some e) → forest r → forest r'.
Proof.
  intros Hs [rank Hr]. exists rank. intros i e p He Hp [e' He']%dhas_true. apply (Hr i e); [by apply Hs|done|].
  apply dhas_true. eexists. by apply Hs.
Qed.

Lemma forest_add r r' (news : list string) :
  forest r →
  (∀ i e, dget i r' = Some e → dget i r = Some e ∨ (i ∈ news ∧ ∀ p, e_parent_id e = Some p → p ∉ news)) →
  (∀ i e n, dget i r = Some e → n ∈ news → i ≠ n ∧ e_parent_id e ≠ Some n) →
  forest r'.
Proof.
  intros [rank Hr] Hn Hold.
  assert (∃ top, ∀ i, i ∈ dkeys r → (rank i < top)%nat) as [top Htop].
  { induction (dkeys r) as [|k l [t IH]]; [exists O; intros i Hi; by apply elem_of_nil in Hi|].
    exists (S (rank k) + t)%nat. intros i [->|Hi]%elem_of_cons; [lia|]. specialize (IH i Hi). lia. }
  exists (λ i, if bool_decide (i ∈ news) then top else if bool_decide (i ∈ dkeys r) then rank i else O).
  intros i e p He Hp [ep Hep]%dhas_true.
  destruct (Hn _ _ He) as [He0|[Hi Hpn]].
  - destruct (Hn _ _ Hep) as [Hep0|[Hpn _]].
    + rewrite (bool_decide_eq_false_2 (p ∈ news)) by (intros Hin; by destruct (Hold p ep p Hep0 Hin)).
      rewrite (bool_decide_eq_false_2 (i ∈ news)) by (intros Hin; by destruct (Hold i e i He0 Hin)).
      rewrite !bool_decide_eq_true_2 by (apply dget_is_Some; by eexists).
      apply (Hr i e); [done|done|]. apply dhas_true. by eexists.
    + exfalso. by destruct (Hold i e p He0 Hpn).
  - specialize (Hpn p Hp). rewrite (bool_decide_eq_true_2 _ Hi), (bool_decide_eq_false_2 _ Hpn).
    destruct (Hn _ _ Hep) as [Hep0|[? _]]; [|done].
    assert (p ∈ dkeys r) as Hin by (apply dget_is_Some; by eexists).
    rewrite (bool_decide_eq_true_2 _ Hin). by apply Htop.
Qed.

(** ** A concrete walk *)

Definition demo_entry (id : string) (parent : option string) (strategy : string) (tree : Z) : entry :=
  {| e_id := id; e_mem_path := "/s/" +:+ id; e_parent_id := parent; e_prev_ckpt_id := None; e_layers := ["/base"];
     e_strategy := strategy; e_template_pid := None; e_async_dump_template_pid := None; e_dump_tree_pid := Some tree;
     e_ns_init_pid := Some 40%Z; e_external_pidns := Some false; e_fixed_active_pid := None; e_has_future := true;
     e_dump_error := None; e_upper_dirty := true; e_prev_cross_pid := false; e_prev_pid_mode := None;
     e_effective_restore_id := None; e_replay_cmds := []; e_memory_protocol := None; e_resources := None |}.
Definition demo_reg : registry :=
  [("a", demo_entry "a" None "standard" 50); ("b", demo_entry "b" (Some "a") "standard" 60);
   ("c", demo_entry "c" (Some "b") "lightweight" 50)].

Example prev_walk_nearest_witness :
  ∃ res, prev_walk 3 Sim.demo_cfg 40 50 ∅ demo_reg (Some "c") = Some res ∧ pv_id <$> res = Some "a" ∧
    match res with
    | Some p => rtc (skip Sim.demo_cfg 40 50 ∅ demo_reg) "c" (pv_id p) ∧ ∃ e, dget (pv_id p) demo_reg = Some e ∧
        usable_parent Sim.demo_cfg 40 50 ∅ (pv_id p) e = true ∧ pv_mem p = e_mem_path e ∧
        (pv_cross p = false ↔ e_dump_tree_pid e = Some 50%Z)
    | None => False
    end.
Proof.
  destruct (prev_walk_nearest Sim.demo_cfg 40 50 ∅ demo_reg "c") as (res & H1 & H2).
  { exists (λ i, if bool_decide (i = "a") then 0 else if bool_decide (i = "b") then 1 else 2)%nat.
    intros i e p He. apply dget_Some_elem in He. repeat (apply elem_of_cons in He as [He|He]; [injection He as -> ->|]);
      [..|by apply elem_of_nil in He]; intros [= <-] _; vm_compute; lia. }
  exists res. split; [exact H1|]. vm_compute in H1. injection H1 as <-. split; [done|]. exact H2.
Defined.
End Incremental.
