(* ===== verification/FsSpec.v ===== *)
(** * The file system across checkpoints and restores

    The abstract promise of the controller: every registered checkpoint stands
    for a view of the sandbox's files, no later operation changes that view,
    a checkpoint registers the view of the moment, and a restore brings back
    the view of the checkpoint whose image it uses.  [fs] is the part of the
    state this is about; [fs_ok] is its invariant, which also failing
    operations keep, and [at_layers] says that the mount shows exactly a given
    chain below the current upper directory. *)

From S2P Require Import Prelude Hoare PyStr PyDict Registry Overlay RootOverlay Host Process AsyncResources Checkpoint.
From S2P Require Import LazyPages AsyncCheckpoint Restore.
From Stdlib Require Import Ascii.

Module FsSpec.
Import Process AsyncResources Checkpoint LazyPages AsyncCheckpoint Restore.

Record fs := Fs { f_k : kstate; f_upper : string; f_work : string; f_reg : registry }.
(** The layers of the registered checkpoints. *)
Definition f_saved (x : fs) : list (string * list string) := dmap e_layers (f_reg x).
Definition fs_of (x : kstate * string * string * registry * option (list RootOverlay.ro)) : fs :=
  let '(k, u, w, r, _) := x in Fs k u w r.

Section spec.
Context (cfg : config).

(** Names derived from an id. *)
Definition layer_name (id : string) := path_join (layers_root cfg) ("layer_" +:+ id).
Definition next_upper_name (id : string) := path_join (layers_root cfg) ("upper_" +:+ id +:+ "_next").
Definition next_work_name (id : string) := path_join (layers_root cfg) ("work_" +:+ id +:+ "_next").
Definition restore_upper_name (id : string) := path_join (layers_root cfg) ("restore_" +:+ id +:+ "_upper").
Definition restore_work_name (id : string) := path_join (layers_root cfg) ("restore_" +:+ id +:+ "_work").

(** Every layer a registered checkpoint refers to, and the base layer. *)
Definition layers_of (x : fs) : list string := base_layer cfg :: mjoin (dvals (f_saved x)).

Definition layer_ok (x : fs) (p : string) : Prop :=
  path_ok p ∧ is_Some (k_dirs (f_k x) !! p) ∧ p ≠ f_upper x ∧
  (∀ m, k_ovl (f_k x) !! mount_fd cfg = Some m → p ≠ m_upper m) ∧
  (p = base_layer cfg ∨ ∃ id, p = layer_name id).

(** A directory that is not inside a [restore_*] directory. *)
Definition upper_apart (u : string) : Prop :=
  ∀ name, startswith name "restore_" = true → startswith u (path_join (layers_root cfg) name +:+ "/") = false.

Record fs_ok (x : fs) : Prop := {
  ok_root : path_ok (layers_root cfg);
  ok_mount : is_Some (k_ovl (f_k x) !! mount_fd cfg);
  ok_layers p : p ∈ layers_of x → layer_ok x p;
  ok_nonempty ls : ls ∈ dvals (f_saved x) → ls ≠ [];
  ok_upper : upper_apart (f_upper x);
}.

Definition at_layers (x : fs) (ls : list string) : Prop :=
  k_ovl (f_k x) !! mount_fd cfg = Some (Mount ls (f_upper x)) ∧ is_Some (k_dirs (f_k x) !! f_upper x).

(** The view of a chain of layers, of a registered checkpoint, of the mount. *)
Definition chain_view (x : fs) (ls : list string) : string → option string :=
  view_lookup (dir_content (f_k x) <$> ls).
Definition saved_view (x : fs) (id : string) : option (string → option string) :=
  chain_view x <$> dget id (f_saved x).
Definition current_view (x : fs) : string → option string := view_at (f_k x) (mount_fd cfg).

(** The directories of the layers keep their content. *)
Definition keeps_layers (x x' : fs) : Prop :=
  ∀ p, p ∈ layers_of x → k_dirs (f_k x') !! p = k_dirs (f_k x) !! p.

(** An id that has not been used. *)
Definition id_fresh (x : fs) (id : string) : Prop :=
  (path_ok id ∧ has_char "/" id = false) ∧ id ∉ dkeys (f_saved x) ∧ (id +:+ "_full") ∉ dkeys (f_saved x) ∧
  ∀ p, p ∈ [layer_name id; next_upper_name id; next_work_name id; restore_upper_name id; restore_work_name id] →
       k_dirs (f_k x) !! p = None ∧ f_upper x ≠ p ∧
       (∀ m, k_ovl (f_k x) !! mount_fd cfg = Some m → m_upper m ≠ p).

(** ** Names *)

Lemma path_ok_app a b : path_ok a → path_ok b → path_ok (a +:+ b).
Proof. intros [H1 H2] [H3 H4]. unfold path_ok. by rewrite !has_char_app, H1, H2, H3, H4. Qed.
Lemma path_ok_path_join a b : path_ok a → path_ok b → path_ok (path_join a b).
Proof.
  intros Ha Hb. unfold path_join. repeat case_match; [done|done|by apply path_ok_app|].
  by apply path_ok_app, path_ok_app.
Qed.
Lemma path_ok_lit s : has_char "," s = false → has_char ":" s = false → path_ok s.
Proof. done. Qed.

Lemma names_distinct id :
  layer_name id ≠ next_upper_name id ∧ layer_name id ≠ next_work_name id ∧
  next_upper_name id ≠ next_work_name id ∧ restore_upper_name id ≠ restore_work_name id.
Proof.
  unfold layer_name, next_upper_name, next_work_name, restore_upper_name, restore_work_name.
  split_and!; intros H%path_join_inj; try done.
  change ("restore_" +:+ id +:+ "_upper") with ("restore_" +:+ (id +:+ "_upper")) in H.
  apply string_app_inj_l, string_app_inj_l in H. done.
Qed.

Lemma startswith_app_l a b c : startswith (a +:+ b) (a +:+ c) = startswith b c.
Proof.
  unfold startswith, String.app. induction a as [|x a IH]; simpl; [done|].
  destruct (Ascii.ascii_dec x x); [exact IH|done].
Qed.

(** A name under a directory starts with a prefix that depends on the
    directory only. *)
Lemma path_join_prefix a : ∃ pre, ∀ b, startswith b "/" = false → path_join a b = pre +:+ b.
Proof.
  unfold path_join. destruct (decide (a = "")) as [->|Ha].
  - exists "". intros b ->. done.
  - destruct (endswith a "/").
    + exists a. intros b ->. by rewrite bool_decide_eq_false_2.
    + exists (a +:+ "/"). intros b ->. rewrite bool_decide_eq_false_2 by done. by rewrite string_app_assoc.
Qed.

Lemma upper_apart_join nm : has_char "/" nm = false → upper_apart (path_join (layers_root cfg) nm).
Proof.
  intros Hn name Hr. destruct (path_join_prefix (layers_root cfg)) as [pre Hpre].
  assert (startswith nm "/" = false) as Hs.
  { apply not_true_iff_false. intros [t ->]%startswith_spec. by rewrite has_char_app in Hn. }
  apply startswith_spec in Hr as [t ->]. rewrite !Hpre by done. rewrite string_app_assoc, startswith_app_l.
  apply not_true_iff_false. intros [t' ->]%startswith_spec. rewrite !has_char_app in Hn.
  by rewrite orb_true_r in Hn.
Qed.

(** ** Facts about the kernel state *)

Lemma keeps_layers_view x x' ls y :
  keeps_layers x x' → (∀ p, p ∈ ls → p ∈ layers_of x) → chain_view x' ls y = chain_view x ls y.
Proof. intros H Hs. apply view_lookup_dirs_ext. intros p Hp. apply H. auto. Qed.

Lemma saved_in_layers x id ls p : dget id (f_saved x) = Some ls → p ∈ ls → p ∈ layers_of x.
Proof.
  intros Hd Hp. right. apply list_elem_of_join. exists ls. split; [done|].
  apply dget_Some_elem in Hd. change ls with (id, ls).2. by apply list_elem_of_fmap_2.
Qed.

Lemma spec_makedirs_lookup p k q :
  k_dirs k !! q ≠ None ∨ q ≠ p → k_dirs (spec_makedirs p k) !! q = k_dirs k !! q.
Proof.
  unfold spec_makedirs. destruct (k_dirs k !! p) eqn:E; [done|]. simpl. intros [H|H].
  - rewrite lookup_insert_ne; [done|]. intros ->. done.
  - by rewrite lookup_insert_ne.
Qed.
Lemma spec_makedirs_new p k : k_dirs k !! p = None → k_dirs (spec_makedirs p k) !! p = Some ∅.
Proof. unfold spec_makedirs. intros ->. simpl. by rewrite lookup_insert_eq. Qed.
Lemma spec_makedirs_ovl p k : k_ovl (spec_makedirs p k) = k_ovl k.
Proof. unfold spec_makedirs. by destruct (k_dirs k !! p). Qed.

(** An operation that only makes new directories under fresh names. *)
Lemma makedirs_keeps_layers x p :
  fs_ok x → keeps_layers x (Fs (spec_makedirs p (f_k x)) (f_upper x) (f_work x) (f_reg x)).
Proof.
  intros Hok q Hq. simpl. apply spec_makedirs_lookup. left. destruct (ok_layers _ Hok q Hq) as (_ & [l ->] & _).
  done.
Qed.

Lemma makedirs_ok x p : fs_ok x → fs_ok (Fs (spec_makedirs p (f_k x)) (f_upper x) (f_work x) (f_reg x)).
Proof.
  intros Hok. pose proof (makedirs_keeps_layers x p Hok) as Hk. destruct Hok as [H1 H2 H3 H4 H5].
  constructor; simpl; try done; rewrite ?spec_makedirs_ovl; [done|].
  intros q Hq. destruct (H3 q Hq) as (? & ? & ? & ? & ?). specialize (Hk q Hq). simpl in Hk.
  split_and!; simpl; rewrite ?Hk, ?spec_makedirs_ovl; done.
Qed.

Lemma rename_ok x b :
  fs_ok x → k_dirs (f_k x) !! b = None → f_upper x ≠ b →
  let x' := Fs (spec_rename (f_upper x) b (f_k x)) (f_upper x) (f_work x) (f_reg x) in
  fs_ok x' ∧ keeps_layers x x'.
Proof.
  intros Hok Hb Hne x'. unfold x', spec_rename. clear x'.
  destruct (k_dirs (f_k x) !! f_upper x) as [l|] eqn:Hu; [|by destruct x].
  destruct Hok as [H1 H2 H3 H4 H5].
  assert (∀ q, q ∈ layers_of x → <[b:=l]> (delete (f_upper x) (k_dirs (f_k x))) !! q = k_dirs (f_k x) !! q) as Hk.
  { intros q Hq. destruct (H3 q Hq) as (_ & [l' Hl'] & Hqu & _).
    rewrite lookup_insert_ne by congruence. by rewrite lookup_delete_ne. }
  split; [|exact Hk]. constructor; simpl; try done.
  - rewrite lookup_fmap, fmap_is_Some. done.
  - intros q Hq. destruct (H3 q Hq) as (? & Hs & ? & Hm & ?). split_and!; simpl; [done| |done| |done].
    + by rewrite Hk.
    + intros m. rewrite lookup_fmap, fmap_Some. intros (m0 & Hm0 & ->). simpl. unfold rename_path.
      case_decide; [|by apply Hm]. intros ->. rewrite Hb in Hs. by destruct Hs.
Qed.

Lemma switch_ok x chain nu nw kind :
  fs_ok x → upper_apart nu → (∀ p, p ∈ layers_of x → p ≠ nu) →
  let x' := Fs (spec_switch (mount_fd cfg) chain nu kind (f_k x)) nu nw (f_reg x) in
  fs_ok x' ∧ keeps_layers x x'.
Proof.
  intros Hok Hap Hnu x'. unfold x', spec_switch. clear x'. destruct Hok as [H1 [m Hm] H3 H4 H5].
  rewrite Hm. split; [|done]. constructor; simpl; try done.
  - rewrite lookup_insert_eq. by eexists.
  - intros q Hq. destruct (H3 q Hq) as (? & ? & ? & ? & ?). split_and!; simpl; try done; [by apply Hnu|].
    intros m'. rewrite lookup_insert_eq. intros [= <-]. simpl. by apply Hnu.
Qed.

(** The same promises on the state of the controller. *)
Context {W : Type} `{!KernelOverlay W} `{!MountHost W} `{!Host W}.
Definition fst_of (s : ctl * W) : fs := fs_of (fs_part s).

Lemma wp_onw {A} (m : M W A) (Q : A → ctl * W → Prop) (E : exn → ctl * W → Prop) c w :
  wp m (fun a w' => Q a (c, w')) (fun e w' => E e (c, w')) w → wp (onw m) Q E (c, w).
Proof. unfold wp, onw. simpl. by destruct (m w) as [[a|e] w']. Qed.

(** A computation that leaves the layer stack alone, followed by anything. *)
Definition same_fs (s s' : ctl * W) : Prop :=
  fst_of s' = fst_of s ∧ root_overlays s'.1 = root_overlays s.1.
Lemma wp_fs {WT : Watch} {A} (m : M (ctl * W) A) (Q : A → ctl * W → Prop) (E : exn → ctl * W → Prop) s :
  fs_keeps m → (∀ a s', same_fs s s' → Q a s') → (∀ e s', same_fs s s' → E e s') → wp m Q E s.
Proof.
  intros Hm HQ HE. eapply wp_mono; [apply (Hm (fs_part s, async_part s)); done| |];
    intros ? s' Hs%(f_equal fst); cbn [fst] in Hs; [apply HQ|apply HE]; unfold same_fs, fst_of; rewrite Hs; (split; [done|]);
    unfold fs_part in Hs; congruence.
Qed.

Lemma keeps_layers_refl x : keeps_layers x x.
Proof. by intros p Hp. Qed.
Lemma keeps_layers_trans x y z : f_reg y = f_reg x → keeps_layers x y → keeps_layers y z → keeps_layers x z.
Proof.
  intros Hs H1 H2 p Hp. rewrite H2; [by apply H1|]. unfold layers_of, f_saved. by rewrite Hs.
Qed.

(** The two exits shared by everything that moves layers. *)
Definition layers_kept (x : fs) (s : ctl * W) : Prop :=
  fs_ok (fst_of s) ∧ keeps_layers x (fst_of s) ∧ f_reg (fst_of s) = f_reg x ∧ root_overlays s.1 = None.

Lemma wp_switch x chain nu nw kind c w (Q : unit → ctl * W → Prop) (E : exn → ctl * W → Prop) :
  chain ≠ [] → Forall path_ok chain → path_ok nu → path_ok nw → path_ok kind →
  (∀ w', kabs w' = spec_switch (mount_fd cfg) chain nu kind (kabs w) → Q tt (c, w')) →
  (∀ e w', kabs w' = kabs w → E e (c, w')) →
  x = fst_of (c, w) → wp (apply_overlay_switch cfg chain nu nw kind) Q E (c, w).
Proof.
  intros Hne Hch Hnu Hnw Hk HQ HE ->. unfold apply_overlay_switch, mtry. apply wp_catch, wp_onw.
  eapply wp_mono; [by apply law_switch| |].
  - intros [] w' Hw. by apply HQ.
  - intros e w' Hw. destruct (is_OSError e); [case_bool_decide|]; by apply HE.
Qed.

Lemma sink_clean x pl :
  at_layers x pl → dir_content (f_k x) (f_upper x) = ∅ → ∀ y, chain_view x pl y = current_view x y.
Proof.
  intros [Hm _] He y. unfold chain_view, current_view, view_at. rewrite Hm. unfold view. simpl.
  by rewrite He, lookup_empty.
Qed.

(** The state in the middle of a dirty sink: the upper directory renamed to a
    layer and two new empty directories. *)
Definition sunk_kernel (x : fs) (id : string) : kstate :=
  spec_makedirs (next_work_name id) (spec_makedirs (next_upper_name id)
    (spec_rename (f_upper x) (layer_name id) (f_k x))).

Lemma sunk_kernel_facts x id l pl :
  fs_ok x → id_fresh x id → k_dirs (f_k x) !! f_upper x = Some l →
  let k := sunk_kernel x id in
  k_dirs k !! layer_name id = Some l ∧ k_dirs k !! next_upper_name id = Some ∅ ∧
  (k_ovl (f_k x) !! mount_fd cfg = Some (Mount pl (f_upper x)) → (∀ p, p ∈ pl → p ∈ layers_of x) →
   k_ovl k !! mount_fd cfg = Some (Mount pl (layer_name id))).
Proof.
  intros Hok (_ & _ & _ & Hfr) Hl k. destruct (names_distinct id) as (Hlu & Hlw & Huw & _).
  destruct (Hfr (layer_name id)) as (HL & HuL & _); [set_solver|].
  destruct (Hfr (next_upper_name id)) as (HU & HuU & _); [set_solver|].
  destruct (Hfr (next_work_name id)) as (HW & HuW & _); [set_solver|].
  unfold k, sunk_kernel, spec_rename. rewrite Hl. split_and!.
  - rewrite spec_makedirs_lookup by auto. rewrite spec_makedirs_lookup by auto. simpl. by rewrite lookup_insert_eq.
  - rewrite spec_makedirs_lookup by auto. apply spec_makedirs_new. simpl.
    rewrite lookup_insert_ne by done. rewrite lookup_delete_ne by done. done.
  - intros Hm Hpl. rewrite !spec_makedirs_ovl. simpl. rewrite lookup_fmap, Hm. simpl. unfold rename_mount. simpl.
    unfold rename_path at 2. rewrite decide_True by done. repeat f_equal.
    transitivity ((fun q : string => q) <$> pl); [|apply list_fmap_id].
    apply list_fmap_ext. intros i p Hp. unfold rename_path. rewrite decide_False; [done|].
    apply list_elem_of_lookup_2, Hpl in Hp. by destruct (ok_layers _ Hok p Hp) as (_ & _ & ? & _).
Qed.

Lemma sunk_kernel_ok x id :
  fs_ok x → id_fresh x id →
  let x' := Fs (sunk_kernel x id) (f_upper x) (f_work x) (f_reg x) in fs_ok x' ∧ keeps_layers x x'.
Proof.
  intros Hok (_ & _ & _ & Hfr). destruct (Hfr (layer_name id)) as (HL & HuL & _); [set_solver|].
  destruct (rename_ok x (layer_name id) Hok HL HuL) as [H1 K1].
  pose proof (makedirs_keeps_layers _ (next_upper_name id) H1) as K2.
  apply (makedirs_ok _ (next_upper_name id)) in H1 as H2.
  pose proof (makedirs_keeps_layers _ (next_work_name id) H2) as K3.
  apply (makedirs_ok _ (next_work_name id)) in H2 as H3. simpl in *.
  split; [exact H3|]. eapply keeps_layers_trans; [|exact K1|eapply keeps_layers_trans; [|exact K2|exact K3]]; done.
Qed.

Lemma layer_path_fresh x p q :
  fs_ok x → p ∈ layers_of x → k_dirs (f_k x) !! q = None → p ≠ q.
Proof. intros Hok Hp Hq ->. destruct (ok_layers _ Hok q Hp) as (_ & Hs & _). rewrite Hq in Hs. by destruct Hs. Qed.

(** What a completed dirty sink leaves. *)
Lemma sunk_switched x id pl nw l :
  fs_ok x → id_fresh x id → (∀ p, p ∈ pl → p ∈ layers_of x) → k_dirs (f_k x) !! f_upper x = Some l →
  let nu := next_upper_name id in
  let x' := Fs (spec_switch (mount_fd cfg) pl nu "ckpt" (sunk_kernel x id)) nu nw (f_reg x) in
  fs_ok x' ∧ keeps_layers x x' ∧ (∀ p, p ∈ layer_name id :: pl → layer_ok x' p) ∧
  (at_layers x pl → at_layers x' (layer_name id :: pl) ∧
     (∀ y, current_view x' y = current_view x y) ∧ ∀ y, chain_view x' (layer_name id :: pl) y = current_view x y).
Proof.
  intros Hok Hid Hpl Hl nu x'. destruct (sunk_kernel_ok x id Hok Hid) as [Hok1 Hk1].
  destruct (sunk_kernel_facts x id l pl Hok Hid Hl) as (HL & HU & Hmt).
  pose proof Hid as ([Hidp Hidok] & _ & _ & Hfr). destruct (names_distinct id) as (Hlu & _ & _ & _).
  destruct (Hfr nu) as (HU0 & _ & _); [set_solver|].
  destruct (switch_ok _ pl nu nw "ckpt" Hok1) as [Hok2 Hk2].
  { apply upper_apart_join. by rewrite !has_char_app, Hidok. }
  { intros p Hp. simpl in Hp. by apply (layer_path_fresh x). }
  simpl in Hok2, Hk2. fold x' in Hok2, Hk2.
  assert (keeps_layers x x') as Hk by (eapply keeps_layers_trans; [|exact Hk1|exact Hk2]; done).
  assert (∃ m, k_ovl (sunk_kernel x id) !! mount_fd cfg = Some m) as [m Hm] by apply (ok_mount _ Hok1).
  assert (k_ovl (f_k x') !! mount_fd cfg = Some (Mount (m_upper m :: pl) nu)) as Hm'.
  { unfold x', spec_switch. simpl. rewrite Hm. simpl. by rewrite lookup_insert_eq. }
  assert (k_dirs (f_k x') = k_dirs (sunk_kernel x id)) as Hd.
  { unfold x', spec_switch. simpl. by rewrite Hm. }
  assert (layer_ok x' (layer_name id)) as HLok.
  { unfold layer_ok. rewrite Hd, HL. split_and!; [|by eexists|done| |right; by eexists].
    - apply path_ok_path_join; [apply Hok|]. by apply path_ok_app.
    - intros m' Hm2. rewrite Hm' in Hm2. by injection Hm2 as <-. }
  split_and!; [done|done| |].
  - intros p [->|Hp]%elem_of_cons; [done|]. by apply (ok_layers _ Hok2), Hpl.
  - intros [Hmnt _]. pose proof (Hmt Hmnt Hpl) as Hm3. rewrite Hm in Hm3. injection Hm3 as ->.
    cbn [m_upper] in Hm'.
    assert (∀ y, chain_view x' (layer_name id :: pl) y = current_view x y) as Hcv.
    { intros y. unfold current_view, view_at. rewrite Hmnt. unfold chain_view, view. rewrite !fmap_cons.
      simpl m_upper. simpl m_lowers.
      assert (dir_content (f_k x') (layer_name id) = dir_content (f_k x) (f_upper x)) as ->.
      { unfold dir_content. by rewrite Hd, HL, Hl. }
      cbn [view_lookup]. case_match; [done|]. exact (keeps_layers_view x x' pl y Hk Hpl). }
    split; [split; [done|]; rewrite Hd; exists ∅; exact HU|]. split; [|done].
    intros y. rewrite <- Hcv. unfold current_view, view_at. rewrite Hm'. unfold view, chain_view.
    rewrite fmap_cons. simpl m_upper.
    assert (dir_content (f_k x') nu = ∅) as ->
      by (unfold dir_content; rewrite Hd; unfold nu; by rewrite HU).
    simpl. by rewrite lookup_empty.
Qed.

Lemma layers_kept_makedirs x p c w w' :
  layers_kept x (c, w) → kabs w' = spec_makedirs p (kabs w) → layers_kept x (c, w').
Proof.
  intros (Hok & Hk & Hs & Hr) Hw. pose proof (makedirs_keeps_layers _ p Hok) as K.
  apply (makedirs_ok _ p) in Hok. unfold layers_kept, fst_of, fs_part in *. simpl in *. rewrite Hw.
  split_and!; [done|eapply keeps_layers_trans; [|exact Hk|exact K]; done|done|done].
Qed.
Lemma layers_kept_same x c w w' : layers_kept x (c, w) → kabs w' = kabs w → layers_kept x (c, w').
Proof. unfold layers_kept, fst_of, fs_part. simpl. by intros H ->. Qed.

Definition sink_post (x : fs) (pl : list string) (r : list string * bool) (s : ctl * W) : Prop :=
  layers_kept x s ∧ r.1 ≠ [] ∧ (∀ p, p ∈ r.1 → layer_ok (fst_of s) p) ∧
  (at_layers x pl → at_layers (fst_of s) r.1 ∧ (∀ y, current_view (fst_of s) y = current_view x y) ∧
     ∀ y, chain_view (fst_of s) r.1 y = current_view x y).

Lemma sink_spec c w id pl :
  root_overlays c = None → fs_ok (fst_of (c, w)) → id_fresh (fst_of (c, w)) id → pl ≠ [] →
  (∀ p, p ∈ pl → p ∈ layers_of (fst_of (c, w))) →
  wp (sink cfg id pl) (sink_post (fst_of (c, w)) pl) (fun _ s => layers_kept (fst_of (c, w)) s) (c, w).
Proof.
  intros Hro Hok Hid Hne Hpl. set (x := fst_of (c, w)) in *.
  assert (layers_kept x (c, w)) as H0 by (split_and!; [done|apply keeps_layers_refl|done|done]).
  unfold sink. apply wp_bind. unfold wp at 1, getc. cbn [fst]. apply wp_bind, wp_catch, wp_onw.
  unfold wp at 1. rewrite law_nonempty. case_bool_decide as Hdirty.
  2: { apply wp_ret. split_and!; try done.
       - intros p Hp. by apply (ok_layers _ Hok), Hpl.
       - intros Hat. split; [done|]. split; [done|]. apply sink_clean; [done|].
         destruct (decide (dir_content (f_k x) (f_upper x) = ∅)); [done|]. by destruct Hdirty. }
  destruct (k_dirs (kabs w) !! current_upper c) as [l|] eqn:Hl.
  2: { exfalso. apply Hdirty. unfold dir_content. by rewrite Hl. }
  pose proof Hid as ([Hidp Hidok] & _ & _ & Hfr). destruct (Hfr (layer_name id)) as (HL & HuL & _); [set_solver|].
  apply wp_bind, wp_onw. eapply wp_mono; [by apply law_rename|intros [] w1 [_ H1]|].
  2: { intros e w1 H1. by eapply layers_kept_same. }
  destruct (rename_ok x (layer_name id) Hok HL HuL) as [Hok1 Hk1].
  assert (layers_kept x (c, w1)) as K1.
  { unfold layers_kept, fst_of, fs_part. simpl. by rewrite H1. }
  apply wp_bind, wp_onw. eapply wp_mono; [apply law_makedirs|intros [] w2 H2|].
  2: { intros e w2 H2. by eapply layers_kept_same. }
  assert (layers_kept x (c, w2)) as K2 by by eapply layers_kept_makedirs.
  apply wp_bind, wp_onw. eapply wp_mono; [apply law_makedirs|intros [] w3 H3|].
  2: { intros e w3 H3. by eapply layers_kept_same. }
  assert (layers_kept x (c, w3)) as K3 by by eapply layers_kept_makedirs.
  assert (kabs w3 = sunk_kernel x id) as Hk3.
  { unfold sunk_kernel. rewrite H3, H2, H1. done. }
  assert (∀ s, path_ok s → path_ok (path_join (layers_root cfg) s)) as Hp by (intros; apply path_ok_path_join; [apply Hok|done]).
  apply wp_bind. eapply wp_switch; [done| |apply Hp|apply Hp|done| | |done].
  { apply Forall_forall. intros p Hin. by apply (ok_layers _ Hok), Hpl. }
  1,2: apply path_ok_app; [done|]; by apply path_ok_app.
  2: { intros e w4 H4. by eapply layers_kept_same. }
  intros w4 H4. apply wp_bind. unfold wp at 1, modc. cbn [fst snd]. apply wp_ret.
  destruct (sunk_switched x id pl (next_work_name id) l Hok Hid Hpl Hl) as (G1 & G2 & G3 & G4).
  unfold sink_post, layers_kept, fst_of, fs_part. cbn [fst snd fs_of current_upper current_work reg set_current_work
    set_current_upper root_overlays]. rewrite H4, Hk3. split_and!; try done.
Qed.
End spec.

(** ** The phases of a checkpoint around the sink *)

Section phases.
Context {W : Type} `{!KernelOverlay W} `{!MountHost W} `{!Host W} {WT : Watch} (cfg : config).

#[local] Hint Resolve fs_pid_ns_inode fs_is_pidns_init fs_pid_nspids fs_pid_ppid fs_pid_gone_or_zombie
  fs_current_dump_tree_pid fs_need_fixed_dump_clone fs_external_pidns_args fs_is_external_pidns_dump
  fs_open_external_pidns_fd fs_wait_pid_stopped fs_wait_pids_gone fs_wait_slot fs_await_fork fs_request_fork
  fs_request_stash fs_template_get fs_template_discard fs_stop_templates fs_record_dump fs_dump_result
  fs_join_active fs_dispose_fixed fs_clear_templates fs_drain_pending fs_live_writers
  fs_collect_subtree_pids fs_pid_as_seen_by fs_translate_pid_in_ns fs_queue
  fs_take fs_schedule_lazy fs_retire_lazy fs_stop_daemon fs_reader_ids : deltabox.

Lemma fs_probe_clear p : fs_keeps (probe_clear_soft_dirty cfg p).
Proof. unfold probe_clear_soft_dirty. fs_auto. Qed.
Hint Resolve fs_probe_clear : deltabox.
Lemma fs_clear_after_fork p : fs_keeps (clear_soft_dirty_after_fork cfg p).
Proof. unfold clear_soft_dirty_after_fork. fs_auto. Qed.
Lemma fs_ext_mount_args : fs_keeps (all_ext_mount_map_args cfg).
Proof. unfold all_ext_mount_map_args. fs_auto. Qed.
Lemma fs_choose_strategy r : fs_keeps (choose_strategy cfg r).
Proof. unfold choose_strategy. fs_auto. Qed.
Hint Resolve fs_clear_after_fork fs_ext_mount_args fs_choose_strategy : deltabox.
Lemma fs_copy_restamp a b : fs_keeps (copy_restamp_image_dir a b).
Proof. unfold copy_restamp_image_dir, copy_restamp_entry. fs_auto. Qed.
Lemma fs_finalize a b : fs_keeps (finalize_restamped_parent_inventory a b).
Proof. unfold finalize_restamped_parent_inventory. fs_auto. Qed.
Hint Resolve fs_copy_restamp fs_finalize : deltabox.
Lemma fs_restamp_sync a b : fs_keeps (restamp_parent_inventory_sync a b).
Proof. unfold restamp_parent_inventory_sync. fs_auto. Qed.
Lemma fs_retire_restamp a b : fs_keeps (retire_restamp a b).
Proof. unfold retire_restamp. fs_auto. Qed.
Hint Resolve fs_restamp_sync fs_retire_restamp : deltabox.
Lemma fs_schedule_restamp i : fs_keeps (schedule_async_parent_restamp cfg i).
Proof. unfold schedule_async_parent_restamp. fs_auto. Qed.
Lemma fs_consume a b c : fs_keeps (consume_async_parent_restamp a b c).
Proof. unfold consume_async_parent_restamp. fs_auto. Qed.
Hint Resolve fs_schedule_restamp fs_consume : deltabox.
Lemma fs_restamp_for a b c : fs_keeps (restamp_parent_inventory_for_checkpoint cfg a b c).
Proof. unfold restamp_parent_inventory_for_checkpoint. fs_auto. Qed.
Lemma fs_bootstrap i : fs_keeps (bootstrap_active_before_dump cfg i).
Proof. unfold bootstrap_active_before_dump. fs_auto. Qed.
Lemma fs_predump a b c : fs_keeps (predump cfg a b c).
Proof. unfold predump. fs_auto. Qed.
Lemma fs_prefork a b f : fs_keeps (prefork_template cfg a b f).
Proof. unfold prefork_template. fs_auto. Qed.
Lemma fs_fixed_clone a f : fs_keeps (fixed_dump_clone cfg a f).
Proof. unfold fixed_dump_clone. fs_auto. Qed.
Lemma fs_async_template a b f : fs_keeps (async_template cfg a b f).
Proof. unfold async_template. fs_auto. Qed.
Lemma fs_dump_args a b : fs_keeps (dump_args cfg a b).
Proof. unfold dump_args. fs_auto. Qed.
Hint Resolve fs_restamp_for fs_bootstrap fs_predump fs_prefork fs_fixed_clone fs_async_template fs_dump_args : deltabox.
Lemma fs_full_twin a b c : fs_keeps (dump_validation_full_twin cfg a b c).
Proof. unfold dump_validation_full_twin. fs_auto. Qed.
Lemma fs_full_fallback a b : fs_keeps (dump_full_fallback_image cfg a b).
Proof. unfold dump_full_fallback_image. fs_auto. Qed.
Lemma fs_find_prev a b : fs_keeps (find_prev cfg a b).
Proof. unfold find_prev. fs_auto. Qed.
Hint Resolve fs_full_twin fs_full_fallback fs_find_prev : deltabox.
Lemma fs_validate_dump a b f : fs_keeps (validate_dump cfg a b f).
Proof. unfold validate_dump. fs_auto. Qed.
Hint Resolve fs_validate_dump : deltabox.
Lemma fs_run_dump a b c d f : fs_keeps (run_dump cfg a b c d f).
Proof. unfold run_dump. fs_auto. Qed.
Hint Resolve fs_run_dump : deltabox.
Lemma fs_memory_phase a b c d e : fs_keeps (memory_phase cfg a b c d e).
Proof. unfold memory_phase. fs_auto. Qed.
Lemma fs_join_or_fallback a b f d : fs_keeps (join_or_fallback cfg a b f d).
Proof. unfold join_or_fallback. fs_auto. Qed.
Hint Resolve fs_join_or_fallback : deltabox.
Lemma fs_warm_template a b c f d : fs_keeps (warm_template cfg a b c f d).
Proof. unfold warm_template. fs_auto. Qed.
Lemma fs_join_parent p : fs_keeps (join_parent_dump cfg p).
Proof. unfold join_parent_dump. fs_auto. Qed.

(** Those of a restore. *)
Lemma fs_resolve_target i a : fs_keeps (resolve_target cfg i a).
Proof. unfold resolve_target. fs_auto. Qed.
Lemma fs_join_durable p : fs_keeps (join_durable_dump cfg p).
Proof. unfold join_durable_dump. fs_auto. Qed.
Lemma fs_check_dump_error p : fs_keeps (check_dump_error p).
Proof. unfold check_dump_error. fs_auto. Qed.
Hint Resolve fs_join_durable fs_check_dump_error : deltabox.
Lemma fs_cold_prerequisites p : fs_keeps (cold_prerequisites cfg p).
Proof. unfold cold_prerequisites. fs_auto. Qed.
Lemma fs_persist_epoch : fs_keeps (persist_epoch cfg).
Proof. unfold persist_epoch. fs_auto. Qed.
Hint Resolve fs_persist_epoch : deltabox.
Lemma fs_bump_epoch : fs_keeps (bump_epoch cfg).
Proof. unfold bump_epoch. fs_auto. Qed.
Hint Resolve fs_bump_epoch : deltabox.
Lemma fs_invalidate : fs_keeps (invalidate_inflight_llm cfg).
Proof. unfold invalidate_inflight_llm, unlink_pending_resp_files, write_ctrl_abort_pending_all. fs_auto. Qed.
Lemma fs_on_durable i e b : fs_keeps (on_durable_image cfg i e b).
Proof. unfold on_durable_image. fs_auto. Qed.
Lemma fs_dispose p f : fs_keeps (dispose p f).
Proof. unfold dispose. fs_auto. Qed.
Hint Resolve fs_on_durable fs_dispose : deltabox.
Lemma fs_adopt_restored p a b c : fs_keeps (adopt_restored cfg p a b c).
Proof. unfold adopt_restored, resume_restored. fs_auto. Qed.
Lemma fs_adopt_fork p c : fs_keeps (adopt_fork cfg p c).
Proof. unfold adopt_fork. fs_auto. Qed.
End phases.

(** The lemmas of the phases, for the files below. *)
#[export] Hint Resolve fs_pid_ns_inode fs_is_pidns_init fs_pid_nspids fs_pid_ppid fs_pid_gone_or_zombie fs_children_of_tids
  fs_child_pids fs_collect_loop fs_translate_loop fs_translate_pid_in_ns fs_pid_as_seen_by
  fs_external_pidns_args fs_is_external_pidns_dump fs_open_external_pidns_fd fs_wait_pids_gone fs_await_fork
  fs_request_fork fs_request_stash fs_template_get fs_template_discard fs_stop_templates fs_queue fs_still_there
  fs_live_writers fs_collect_subtree_pids fs_current_dump_tree_pid fs_need_fixed_dump_clone fs_wait_pid_stopped
  fs_wait_slot fs_record_dump fs_dump_result fs_join_active fs_dispose_fixed fs_wait_reaped fs_template_subtrees
  fs_clear_templates fs_drain_pending fs_close_fds fs_protocol_loop fs_protocol_restore_fds fs_children_loop
  fs_validate_children fs_fds_loop fs_validate_resources fs_alive_readers fs_mod_lazy fs_reap fs_stop_process
  fs_stop_daemon fs_reader_ids fs_start fs_prestart_job fs_take fs_schedule_lazy fs_retire_lazy fs_probe_clear
  fs_clear_after_fork fs_ext_mount_args fs_choose_strategy fs_copy_restamp fs_finalize fs_restamp_sync
  fs_retire_restamp fs_schedule_restamp fs_consume fs_restamp_for fs_bootstrap fs_predump fs_prefork
  fs_fixed_clone fs_async_template fs_dump_args fs_full_twin fs_full_fallback fs_find_prev fs_validate_dump
  fs_run_dump fs_memory_phase fs_join_or_fallback fs_warm_template fs_join_parent fs_resolve_target
  fs_join_durable fs_check_dump_error fs_cold_prerequisites fs_persist_epoch fs_bump_epoch fs_invalidate
  fs_on_durable fs_dispose fs_adopt_restored fs_adopt_fork : deltabox.

(** What writers do meanwhile changes the state of the asynchronous dumps. *)
Section writers.
Context {W : Type} `{!KernelOverlay W} `{!MountHost W} `{!Host W} (cfg : config).
#[local] Existing Instance layers_only.
#[local] Hint Resolve fs_on_durable fs_dispose fs_ext_mount_args : deltabox.
Lemma fs_writer_step e : fs_keeps (writer_step cfg e).
Proof.
  destruct e; unfold writer_step, writer_start, writer_dump, writer_finish, writer_cmd, writer_failed, writer_phase,
    update_mark, mod_async, get_async; fs_auto.
Qed.
Hint Resolve fs_writer_step : deltabox.
Lemma fs_wait_writers : fs_keeps (wait_writers cfg).
Proof. unfold wait_writers. fs_auto. Qed.
Hint Resolve fs_wait_writers : deltabox.
Lemma fs_drain_teardown : fs_keeps (drain_before_namespace_teardown cfg).
Proof. unfold drain_before_namespace_teardown, drain_one, get_async. fs_auto. Qed.
Hint Resolve fs_drain_teardown : deltabox.
Lemma fs_kill_namespace : fs_keeps (kill_namespace cfg).
Proof. unfold kill_namespace. fs_auto. Qed.
End writers.


(** ** Checkpoint *)

Section ops.
Context {W : Type} `{!KernelOverlay W} `{!MountHost W} `{!Host W} (cfg : config).
#[local] Existing Instance layers_only.
Implicit Types (s : ctl * W) (x : fs).

Definition fs_closed (P : ctl * W → Prop) : Prop := ∀ s s', same_fs s s' → P s → P s'.

Lemma wp_bind_fs {A B} (P : ctl * W → Prop) (m : M (ctl * W) A) (k : A → M (ctl * W) B) Q E s :
  fs_keeps m → fs_closed P → P s →
  (∀ a s', P s' → wp (k a) Q E s') → (∀ e s', P s' → E e s') → wp (m ≫= k) Q E s.
Proof.
  intros Hm HP Hs Hk HE. apply wp_bind. apply wp_fs; [done| |].
  - intros a s' Hsame. apply Hk. by eapply HP.
  - intros e s' Hsame. apply HE. by eapply HP.
Qed.
Lemma wp_end_fs {A} (P : ctl * W → Prop) (m : M (ctl * W) A) (Q : A → ctl * W → Prop) (E : exn → ctl * W → Prop) s :
  fs_keeps m → fs_closed P → P s → (∀ a s', P s' → Q a s') → (∀ e s', P s' → E e s') → wp m Q E s.
Proof.
  intros Hm HP Hs Hk HE. apply wp_fs; [done| |].
  - intros a s' Hsame. apply Hk. by eapply HP.
  - intros e s' Hsame. apply HE. by eapply HP.
Qed.

Lemma same_fs_refl s : same_fs s s.
Proof. done. Qed.
Lemma same_fs_closed s0 : fs_closed (same_fs s0).
Proof. intros s s' [H1 H2] [H3 H4]. split; congruence. Qed.

(** The ids handed out from the present file system are unused. *)
Definition draws_id (c : sysE string) : Prop := ∃ n, c = Uuid n ∨ c = UuidHex n.
Definition ids_fresh s : Prop :=
  ∀ c w1 id w2, draws_id c → kabs w1 = kabs s.2 → os_call c w1 = (Ok id, w2) → id_fresh cfg (fst_of s) id.
Lemma draws_Uuid n : draws_id (Uuid n).
Proof. exists n. by left. Qed.
Lemma draws_UuidHex n : draws_id (UuidHex n).
Proof. exists n. by right. Qed.

(** Drawing an id changes nothing and gives an unused one. *)
Lemma wp_draw d s s0 :
  draws_id d → ids_fresh s → same_fs s s0 →
  wp (call d) (fun id s' => same_fs s s' ∧ id_fresh cfg (fst_of s) id) (fun _ s' => same_fs s s') s0.
Proof.
  intros Hd Hf H0. destruct s0 as [c w]. pose proof (law_frame d w) as Hfr.
  assert (kabs w = kabs s.2) as Hk. { destruct H0 as [E _]. apply (f_equal f_k) in E. destruct s. exact E. }
  assert (∀ w', kabs w' = kabs w → same_fs s (c, w')) as Hsame.
  { intros w' E. eapply same_fs_closed; [|exact H0]. unfold same_fs, fst_of, fs_part. simpl. by rewrite E. }
  unfold wp, call, onw. cbn [fst snd].
  destruct (os_call d w) as [[id|e] w'] eqn:Eid; cbn [snd] in Hfr; [|auto].
  split; [auto|]. by eapply (Hf d).
Qed.

(** What every operation keeps, returning or raising. *)
Definition grows x s : Prop :=
  fs_ok cfg (fst_of s) ∧ keeps_layers cfg x (fst_of s) ∧ root_overlays s.1 = None ∧
  ∀ i e, dget i (f_reg x) = Some e → dget i (f_reg (fst_of s)) = Some e.

Lemma grows_closed x : fs_closed (grows x).
Proof. intros s s' [H1 H2] (G1 & G2 & G3 & G4). unfold grows. rewrite H1, H2. done. Qed.

Lemma layers_kept_grows x s : layers_kept cfg x s → grows x s.
Proof. intros (H1 & H2 & H3 & Hr). split_and!; try done. intros i e. by rewrite H3. Qed.

(** The layers a checkpoint under [parent] builds on. *)
Definition node_layers x (parent : option string) : list string :=
  match parent with
  | Some p => if bool_decide (p = "") then [base_layer cfg] else default [base_layer cfg] (dget p (f_saved x))
  | None => [base_layer cfg]
  end.

Lemma node_layers_of parent c w : parent_layers_of cfg parent (reg c) = node_layers (fst_of (c, w)) parent.
Proof.
  unfold parent_layers_of, node_layers, f_saved, fst_of, fs_part. simpl. destruct parent as [p|]; [|done].
  case_bool_decide; [done|]. rewrite dget_dmap. by destruct (dget p (reg c)).
Qed.

Lemma node_layers_ok x parent :
  fs_ok cfg x → node_layers x parent ≠ [] ∧ ∀ p, p ∈ node_layers x parent → p ∈ layers_of cfg x.
Proof.
  intros Hok. unfold node_layers.
  assert ([base_layer cfg] ≠ [] ∧ ∀ p, p ∈ [base_layer cfg] → p ∈ layers_of cfg x) as Hb.
  { split; [done|]. intros p ->%list_elem_of_singleton. left. }
  destruct parent as [p|]; [|done]. case_bool_decide; [done|].
  destruct (dget p (f_saved x)) as [ls|] eqn:E; [|done]. simpl. split.
  - apply (ok_nonempty _ _ Hok). apply dget_Some_elem in E. change ls with (p, ls).2. by apply list_elem_of_fmap_2.
  - intros q Hq. by eapply saved_in_layers.
Qed.

(** The registry after a checkpoint: the new entry, perhaps its validation
    twin, and nothing else. *)
Definition added x (parent : option string) (info : entry) s : Prop :=
  (∀ i e, dget i (f_reg (fst_of s)) = Some e →
     dget i (f_reg x) = Some e ∨ (i = e_id info ∧ e = info) ∨
     (i = e_id info +:+ "_full" ∧ e_effective_restore_id e = None ∧ e_parent_id e = None)) ∧
  (e_id info ∉ dkeys (f_reg x) ∧ (e_id info +:+ "_full") ∉ dkeys (f_reg x)) ∧
  e_parent_id info = parent ∧
  e_effective_restore_id info =
    if bool_decide (e_strategy info = "lightweight") then Some (lightweight_keys parent "" "" [] (f_reg x)).1 else None.

(** What a returning checkpoint adds. *)
Definition captured x (parent : option string) (info : entry) s : Prop :=
  grows x s ∧ dget (e_id info) (f_reg (fst_of s)) = Some info ∧ added x parent info s ∧
  (at_layers cfg x (node_layers x parent) →
     at_layers cfg (fst_of s) (e_layers info) ∧ (∀ y, current_view cfg (fst_of s) y = current_view cfg x y) ∧
     ∀ y, chain_view (fst_of s) (e_layers info) y = current_view cfg x y).

(** Registering an entry whose layers are fine keeps everything. *)
Lemma register_one x c w id e :
  grows x (c, w) → id ∉ dkeys (f_saved x) → e_layers e ≠ [] →
  (∀ p, p ∈ e_layers e → layer_ok cfg (fst_of (c, w)) p) →
  grows x (set_reg (dset id e (reg c)) c, w).
Proof.
  intros (Hok & Hk & Hr & Hs) Hid Hne Hls. unfold grows, fst_of, fs_part in *. simpl in *.
  split_and!; try done.
  - destruct Hok as [H1 H2 H3 H4 H5]. unfold layers_of, f_saved in *. constructor; simpl in *;
      unfold layers_of, f_saved in *; simpl in *; try done; rewrite dmap_dset.
    + intros p Hp. apply elem_of_cons in Hp as [->|Hp]; [apply H3; left|].
      apply list_elem_of_join in Hp as (ls & Hp & Hls'). apply elem_of_dvals_dset in Hls' as [->|Hls']; [by apply Hls|].
      apply H3. right. apply list_elem_of_join. by exists ls.
    + intros ls Hl. apply elem_of_dvals_dset in Hl as [->|Hl]; [done|by apply H4].
  - intros i e' Hi. rewrite dget_dset_ne; [by apply Hs|]. intros <-.
    apply Hid. unfold f_saved. rewrite dkeys_dmap. apply dget_is_Some. by eexists.
Qed.

Lemma same_fs_reg c c' w : reg c' = reg c → current_upper c' = current_upper c → current_work c' = current_work c →
  root_overlays c' = root_overlays c → same_fs (c, w) (c', w).
Proof. intros H1 H2 H3 H4. unfold same_fs, fst_of, fs_part. simpl. by rewrite H1, H2, H3. Qed.

Lemma string_full_ne a : a ≠ a +:+ "_full".
Proof. intros H. apply (f_equal String.length) in H. rewrite string_app_length in H. simpl in H. lia. Qed.

(** The registration, from a state whose new layers are in place. *)
Lemma register_spec x parent pl new_id curr_dir tag raw strategy ops dirty template f d layers c w :
  grows x (c, w) → reg c = f_reg x → id_fresh cfg x new_id → layers ≠ [] → (∀ p, p ∈ layers → layer_ok cfg (fst_of (c, w)) p) →
  (∀ full path, d_twin d = Some (full, path) → full = new_id +:+ "_full") →
  (at_layers cfg x pl → at_layers cfg (fst_of (c, w)) layers ∧
     (∀ y, current_view cfg (fst_of (c, w)) y = current_view cfg x y) ∧
     ∀ y, chain_view (fst_of (c, w)) layers y = current_view cfg x y) →
  pl = node_layers x parent →
  wp (register cfg new_id curr_dir tag raw strategy ops parent layers dirty template f d)
     (captured x parent) (fun _ s => grows x s) (c, w).
Proof.
  intros Hg Hreg Hid Hne Hls Htw Hat ->. pose proof Hid as (_ & Hi1 & Hi2 & _).
  unfold register. apply wp_bind. unfold wp at 1, getc. cbn [fst].
  set (P := fun s => same_fs (c, w) s).
  apply (wp_bind_fs P); [apply fs_is_pidns_init|apply same_fs_closed|apply same_fs_refl| |].
  2: { intros e s' Hs. by eapply grows_closed. }
  intros init [c1 w1] Hs1. cbv zeta.
  set (info := new_entry _ _ _ _ _ _ _ _ _ _ _ _ _ _ _).
  assert (grows x (c1, w1)) as Hg1 by by eapply grows_closed.
  pose proof (register_one x c1 w1 new_id info Hg1 Hi1 Hne) as Hg2.
  assert (∀ p, p ∈ layers → layer_ok cfg (fst_of (c1, w1)) p) as Hls1 by (destruct Hs1 as [-> _]; done).
  specialize (Hg2 Hls1).
  apply wp_bind. unfold wp at 1, modc. cbn [fst snd]. set (c2 := set_reg _ c1) in *.
  assert (e_layers info = layers) as Hil by done.
  assert (dget new_id (f_reg (fst_of (c2, w1))) = Some info) as Hd.
  { unfold fst_of, fs_part. simpl. apply dget_dset_eq. }
  assert (reg c1 = f_reg x) as Hreg1 by (destruct Hs1 as [E _]; apply (f_equal f_reg) in E; by rewrite <- Hreg).
  assert (added x parent info (c2, w1)) as Hadd.
  { split_and!; [| | |done|].
    2,3: unfold f_saved in Hi1, Hi2; rewrite dkeys_dmap in Hi1, Hi2; done.
    - intros i e. change (f_reg (fst_of (c2, w1))) with (dset new_id info (reg c1)).
      destruct (decide (new_id = i)) as [<-|Hni]; [rewrite dget_dset_eq; intros [= <-]; auto|].
      rewrite dget_dset_ne, Hreg1 by done. auto.
    - unfold info, new_entry. cbn [e_effective_restore_id e_strategy]. case_match; [|done].
      rewrite <- Hreg1. destruct Hs1 as [E _]. apply (f_equal f_reg) in E. change (reg c1) with (f_reg (fst_of (c1, w1))).
      rewrite E. unfold lightweight_keys. change (f_reg (fst_of (c, w))) with (reg c). by destruct (p ← parent; dget p (reg c)). }
  assert (∀ s' : ctl * W, f_k (fst_of s') = f_k (fst_of (c, w)) → f_upper (fst_of s') = f_upper (fst_of (c, w)) →
     dget new_id (f_reg (fst_of s')) = Some info → added x parent info s' → grows x s' → captured x parent info s') as Hcap.
  { intros s' Hk Hu Hs Hadd' Hgs. split_and!; [done|done|done|]. intros H. specialize (Hat H).
    destruct Hat as ((A1 & A2) & A3 & A4). unfold at_layers, current_view, chain_view in *. rewrite Hk, Hu, Hil. done. }
  assert (fst_of (c1, w1) = fst_of (c, w)) as E1 by by destruct Hs1.
  apply (f_equal f_k) in E1 as Ek1. apply (f_equal f_upper) in E1 as Eu1.
  assert (f_k (fst_of (c2, w1)) = f_k (fst_of (c, w)) ∧ f_upper (fst_of (c2, w1)) = f_upper (fst_of (c, w))) as [Ek2 Eu2].
  { rewrite <- Ek1, <- Eu1. done. }
  set (R := fun s : ctl * W => grows x s ∧ captured x parent info s).
  assert (fs_closed R) as HR.
  { intros s s' Hs [G (_ & C2 & C3 & C4)]. pose proof (grows_closed x _ _ Hs G) as G'.
    split; [done|]. destruct Hs as [E _]. unfold captured, added in *. rewrite E. done. }
  assert (∀ s', R s' → wp (_ ← mwhen (negb (bool_decide (strategy = "lightweight")) && negb (pid_set (f_prefork f))
           && negb (pid_set (f_async f))) (modc (set_active_dump_owner_id (Some new_id))); mret info)
        (captured x parent) (fun _ s => grows x s) s') as Hend.
  { intros s' HRs. apply (wp_bind_fs R); [apply fs_keeps_when, fs_keeps_modc; done|done|done| |].
    - intros [] s2 [G C]. by apply wp_ret.
    - intros e s2 [G C]. done. }
  apply wp_bind. destruct (d_twin d) as [[full path]|] eqn:Et.
  2: { unfold wp at 1, mret, M_ret. apply Hend. split; [done|]. by apply Hcap. }
  apply wp_bind. unfold wp at 1, getc. cbn [fst].
  apply (wp_bind_fs R); [apply fs_is_pidns_init|done|split; [done|by apply Hcap]| |by intros e s' [G _]].
  intros init2 [c3 w3] [G3 C3]. unfold wp at 1, modc. cbn [fst snd]. apply Hend.
  rewrite (Htw _ _ eq_refl).
  assert (∀ p, p ∈ layers → layer_ok cfg (fst_of (c3, w3)) p) as Hls3.
  { intros p Hp. destruct G3 as (Hok3 & _). apply (ok_layers _ _ Hok3). destruct C3 as (_ & Hd3 & _).
    eapply (saved_in_layers _ _ (e_id info)); [|exact Hp]. unfold f_saved. rewrite dget_dmap, Hd3. done. }
  assert (∀ e, e_layers e = layers → grows x (set_reg (dset (new_id +:+ "_full") e (reg c3)) c3, w3)) as Hg3.
  { intros e He. apply register_one; rewrite ?He; done. }
  split; [by apply Hg3|].
  destruct C3 as (_ & Hd3 & Hadd3 & Hat3). split_and!; [by apply Hg3| | |].
  2: { destruct Hadd3 as (A1 & A2). split; [|exact A2]. intros i e.
       match goal with |- dget i (f_reg (fst_of (set_reg (dset ?k ?v _) _, _))) = _ → _ =>
         change (dget i (dset k v (reg c3)) = Some e → dget i (f_reg x) = Some e ∨ (i = e_id info ∧ e = info) ∨
                   (i = e_id info +:+ "_full" ∧ e_effective_restore_id e = None ∧ e_parent_id e = None));
         destruct (decide (k = i)) as [<-|Hni] end; [rewrite dget_dset_eq; intros [= <-]; auto|].
       rewrite dget_dset_ne by done. apply A1. }
  - unfold fst_of, fs_part in *. simpl in *. rewrite dget_dset_ne; [done|].
    intros E. symmetry in E. by apply string_full_ne in E.
  - exact Hat3.
Qed.

(** ** Properties of the answer of a phase *)

Lemma wp_fs_rets {A} (m : M (ctl * W) A) R (Q : A → ctl * W → Prop) (E : exn → ctl * W → Prop) s :
  fs_keeps m → rets m R → (∀ a s', same_fs s s' → R a → Q a s') → (∀ e s', same_fs s s' → E e s') → wp m Q E s.
Proof.
  intros Hm Hr HQ HE.
  assert (wp m (fun _ s' => same_fs s s') (fun _ s' => same_fs s s') s) as H1 by (apply wp_fs; auto).
  pose proof (Hr s) as H2. unfold wp in *. destruct (m s) as [[a|e] s']; auto.
Qed.

(** The validation twin of a checkpoint is named after it. *)
Definition twin_named (new_id : string) (d : dumped) : Prop :=
  ∀ full path, d_twin d = Some (full, path) → full = new_id +:+ "_full".

Lemma rets_full_twin id tag t : rets (dump_validation_full_twin cfg id tag t) (fun r => r.1 = id +:+ "_full").
Proof. unfold dump_validation_full_twin. repeat (apply rets_then; intros ?). by apply rets_ret. Qed.

Lemma rets_validate id tag f :
  rets (validate_dump cfg id tag f) (fun t => ∀ full path, t = Some (full, path) → full = id +:+ "_full").
Proof.
  unfold validate_dump. apply rets_finally, rets_try; [|intros e; by apply rets_ret].
  apply rets_then; intros ?. apply rets_then; intros ?.
  eapply rets_bind; [apply rets_full_twin|]. intros [full path] H. apply rets_ret. intros ? ? [= <- <-]. done.
Qed.

Lemma rets_memory_phase parent tag id dir st :
  rets (memory_phase cfg parent tag id dir st) (fun r => twin_named id r.2).
Proof.
  unfold memory_phase. apply rets_then. intros [? ?]. do 5 (apply rets_then; intros ?).
  eapply (rets_bind (twin_named id)).
  - destruct (bool_decide (st = "lightweight")).
    + apply rets_then; intros _. by apply rets_ret.
    + unfold run_dump. do 5 (apply rets_then; intros ?). cbv zeta. do 3 (apply rets_then; intros ?).
      eapply rets_bind.
      { instantiate (1 := fun t => ∀ full path, t = Some (full, path) → full = id +:+ "_full").
        match goal with |- rets (if ?b then _ else _) _ => destruct b end; [apply rets_validate|by apply rets_ret]. }
      intros t Ht. apply rets_then; intros _. by apply rets_ret.
  - intros d Hd. by apply rets_ret.
Qed.

Lemma rets_warm_template id dir st f d :
  twin_named id d → rets (warm_template cfg id dir st f d) (fun r => twin_named id r.2).
Proof.
  intros Hd. unfold warm_template. case_match; [by apply rets_ret|].
  eapply (rets_bind (fun r => twin_named id r.1)).
  - unfold join_or_fallback. case_match; [by apply rets_ret|]. apply rets_try.
    + apply rets_then; intros _. by apply rets_ret.
    + intros e. apply rets_try.
      * do 2 (apply rets_then; intros _). by apply rets_ret.
      * intros e'. apply rets_then; intros _. by apply rets_ret.
  - intros [d' skip] Hd'. destruct skip; [by apply rets_ret|]. do 3 (apply rets_then; intros ?).
    case_match; apply rets_then; intros r; [by apply rets_ret|].
    destruct r as [[? ?]|]; [|by apply rets_ret]. do 2 (apply rets_then; intros ?). by apply rets_ret.
Qed.

(** ** The checkpoint *)

Lemma on_root_none op s Q E : root_overlays s.1 = None → Q tt s → wp (on_root_overlays op) Q E s.
Proof. intros H HQ. unfold wp, on_root_overlays. by rewrite H. Qed.

(** A checkpoint keeps all that is registered; if it returns while the mount
    shows its parent's layers, it has captured the current view, and the mount
    shows the layers of the new entry. *)
Lemma checkpoint_spec parent tag raw ops s :
  fs_ok cfg (fst_of s) → root_overlays s.1 = None → ids_fresh s →
  wp (checkpoint_legacy cfg parent tag raw ops) (captured (fst_of s) parent) (fun _ s' => grows (fst_of s) s') s.
Proof.
  intros Hok Hro Hfresh. set (x := fst_of s) in *.
  assert (grows x s) as Hg by (split_and!; try done; apply keeps_layers_refl).
  assert (∀ s', same_fs s s' → grows x s') as Hsg by (intros s' Hs; by eapply grows_closed).
  unfold checkpoint_legacy.
  apply (wp_bind_fs (same_fs s)); [apply fs_keeps_when, fs_drain_pending|apply same_fs_closed|done| |auto].
  intros _ s1 H1. apply (wp_bind_fs (same_fs s)); [apply fs_join_parent|apply same_fs_closed|done| |auto].
  intros _ s2 H2. apply wp_bind.
  eapply wp_mono; [by apply (wp_draw _ s); [apply draws_Uuid|..]| |auto]. intros id s3 [H3 Hid]. cbv zeta.
  apply (wp_bind_fs (same_fs s)); [apply fs_keeps_call|apply same_fs_closed|done| |auto]. intros _ s4 H4.
  apply (wp_bind_fs (same_fs s)); [apply fs_choose_strategy|apply same_fs_closed|done| |auto]. intros st s5 H5.
  apply wp_bind. eapply wp_fs_rets; [apply fs_memory_phase|apply rets_memory_phase| |].
  2: { intros e s' H. apply Hsg. by eapply same_fs_closed. }
  intros [f d] s6 H6 Htw. cbn [snd] in Htw.
  assert (same_fs s s6) as H6' by by eapply same_fs_closed. destruct s6 as [c6 w6].
  apply wp_bind. unfold wp at 1, getc. cbn [fst]. rewrite (node_layers_of parent c6 w6).
  assert (fst_of (c6, w6) = x) as E6 by by destruct H6'. rewrite E6.
  destruct (node_layers_ok x parent Hok) as [Hne Hin].
  assert (root_overlays c6 = None) as Hro6 by (destruct H6' as [_ E]; simpl in E; congruence).
  apply wp_bind. eapply wp_mono.
  { apply sink_spec; rewrite ?E6; done. }
  2: { intros e [c7 w7] H7. rewrite E6 in H7. by apply layers_kept_grows. }
  intros [layers dirty] [c7 w7] (Hlk & Hne7 & Hls7 & Hat7). rewrite E6 in Hlk, Hat7.
  assert (root_overlays c7 = None) as Hr7 by apply Hlk. cbn [fst snd] in *.
  assert (grows x (c7, w7)) as Hg7 by by apply layers_kept_grows.
  apply wp_bind, on_root_none; [done|]. apply wp_bind.
  eapply wp_fs_rets; [apply fs_warm_template|by apply rets_warm_template| |].
  2: { intros e s' H. by eapply grows_closed. }
  intros [template d'] [c8 w8] H8 Htw8. cbn [snd] in Htw8.
  assert (fst_of (c8, w8) = fst_of (c7, w7)) as E8 by by destruct H8.
  eapply (register_spec x parent (node_layers x parent)); rewrite ?E8; try done; [by eapply grows_closed|].
  change (reg c8) with (f_reg (fst_of (c8, w8))). rewrite E8. apply Hlk.
Qed.

(** ** The restore *)

Lemma layers_kept_closed x : fs_closed (layers_kept cfg x).
Proof. intros s s' [H1 H2] (G1 & G2 & G3 & G4). unfold layers_kept. rewrite H1, H2. done. Qed.

(** The new upper directory exists and is empty. *)
Definition prepared x id s : Prop :=
  layers_kept cfg x s ∧ k_dirs (f_k (fst_of s)) !! restore_upper_name cfg id = Some ∅.
(** The mount shows the layers [ls] as they were in [x]. *)
Definition restored x ls s : Prop :=
  layers_kept cfg x s ∧ at_layers cfg (fst_of s) ls ∧ ∀ y, current_view cfg (fst_of s) y = chain_view x ls y.

Lemma prepared_closed x id : fs_closed (prepared x id).
Proof. intros s s' Hs [H1 H2]. split; [by eapply layers_kept_closed|]. destruct Hs as [-> _]. done. Qed.
Lemma restored_closed x ls : fs_closed (restored x ls).
Proof. intros s s' Hs (H1 & H2 & H3). split; [by eapply layers_kept_closed|]. destruct Hs as [-> _]. done. Qed.

Lemma wp_kill_active (P Q E0 : ctl * W → Prop) during s :
  fs_closed P → fs_closed Q → fs_closed E0 → (∀ s, P s → E0 s) → (∀ s, Q s → E0 s) → P s →
  (∀ s', P s' → wp during (fun _ s'' => Q s'') (fun _ s'' => E0 s'') s') →
  wp (kill_active_subtree cfg during) (fun _ s' => Q s') (fun _ s' => E0 s') s.
Proof.
  intros HP HQ HE PE QE Hs Hd. unfold kill_active_subtree.
  apply (wp_bind_fs P); [apply fs_keeps_getc|done|done| |auto]. intros c0 s0 H0. cbv zeta.
  apply (wp_bind_fs P); [apply fs_join_active|done|done| |auto]. intros _ s1 H1.
  apply (wp_bind_fs P); [apply fs_keeps_getc|done|done| |auto]. intros c2 s2 H2.
  apply (wp_bind_fs P); [apply fs_live_writers|done|done| |auto]. intros ws s3 H3.
  apply (wp_bind_fs P); [apply fs_collect_subtree_pids|done|done| |auto]. intros tk s4 H4.
  apply (wp_bind_fs P); [apply fs_keeps_modc; done|done|done| |auto]. intros _ s5 H5.
  apply (wp_bind_fs P); [apply fs_pid_ppid|done|done| |auto]. intros rp s6 H6.
  apply (wp_bind_fs P); [destruct rp; [apply fs_pid_as_seen_by|apply fs_keeps_ret]|done|done| |auto]. intros rc s7 H7.
  set (R := fun (r : option exn) s => match r with None => Q s | Some _ => E0 s end).
  assert (∀ r, fs_closed (R r)) as HR by (intros []; done).
  assert (∀ r s, R r s → E0 s) as RE by (intros []; auto).
  apply wp_bind, (wp_mono _ R _ (fun _ s' => E0 s')); [| |done].
  { unfold kill_pids_and_wait.
    apply (wp_bind_fs P); [apply fs_keeps_for; intros; apply fs_keeps_try; auto with deltabox|done|done| |auto]. intros _ s8 H8.
    apply (wp_bind_fs P); [apply fs_keeps_for; intros; apply fs_keeps_try; auto with deltabox|done|done| |auto]. intros _ s9 H9.
    apply wp_finally. apply (wp_mono _ R _ (fun _ s' => E0 s')).
    - apply wp_catch, wp_bind. eapply wp_mono; [by apply Hd| |].
      + intros a s' Hq. by apply wp_ret.
      + intros e s' He. by apply wp_ret.
    - intros r s' Hr. apply (wp_end_fs (R r)); [apply fs_wait_pids_gone|done|done|done|eauto].
    - intros e s' Hr. apply (wp_end_fs E0); [apply fs_wait_pids_gone|done|done|done|done]. }
  intros r s8 H8.
  apply (wp_bind_fs (R r)); [|done|done| |eauto].
  { pose proof fs_translate_pid_in_ns. fs_auto. }
  intros ri s9 H9. apply (wp_bind_fs (R r)); [apply fs_wait_slot|done|done| |eauto]. intros _ s10 H10.
  apply (wp_bind_fs (R r)); [apply fs_keeps_when, fs_queue|done|done| |eauto]. intros _ s11 H11.
  destruct r as [e|]; [by apply wp_throw|by apply wp_ret].
Qed.

Lemma prepare_spec x id s :
  id_fresh cfg x id → layers_kept cfg x s → f_k (fst_of s) = f_k x →
  wp (prepare_restore (restore_upper_name cfg id) (restore_work_name cfg id))
     (fun _ s' => prepared x id s') (fun _ s' => layers_kept cfg x s') s.
Proof.
  destruct s as [c w]. intros (_ & _ & _ & Hfr) Hk Hfk.
  destruct (Hfr (restore_upper_name cfg id)) as (HU & _); [set_solver|].
  assert (kabs w = f_k x) as Hkw by done.
  unfold prepare_restore. apply wp_bind, wp_onw. eapply wp_mono; [apply law_makedirs|intros [] w1 H1|].
  2: { intros e w1 H1. by eapply layers_kept_same. }
  assert (layers_kept cfg x (c, w1)) as K1 by by eapply layers_kept_makedirs.
  apply wp_onw. eapply wp_mono; [apply law_makedirs|intros [] w2 H2|].
  2: { intros e w2 H2. by eapply layers_kept_same. }
  split; [by eapply layers_kept_makedirs|]. unfold fst_of, fs_part. simpl. rewrite H2, H1, Hkw.
  destruct (names_distinct cfg id) as (_ & _ & _ & Hne).
  rewrite spec_makedirs_lookup by auto. by apply spec_makedirs_new.
Qed.

Lemma switch_layers_spec x id ls s :
  id_fresh cfg x id → prepared x id s → ls ≠ [] → (∀ p, p ∈ ls → p ∈ layers_of cfg x) →
  wp (switch_layers cfg ls (restore_upper_name cfg id) (restore_work_name cfg id))
     (fun _ s' => restored x ls s') (fun _ s' => layers_kept cfg x s') s.
Proof.
  destruct s as [c w]. intros Hid [Hk Hu] Hne Hls. pose proof Hid as ([Hidp Hidok] & _ & _ & Hfr).
  pose proof Hk as (Hok & Hkl & Hsv & Hro).
  destruct (Hfr (restore_upper_name cfg id)) as (HU0 & _); [set_solver|].
  assert (∀ t, path_ok t → path_ok (path_join (layers_root cfg) t)) as Hpj
    by (intros; apply path_ok_path_join; [apply Hok|done]).
  assert (layers_of cfg (fst_of (c, w)) = layers_of cfg x) as HL by (unfold layers_of, f_saved; by rewrite Hsv).
  unfold switch_layers. apply wp_bind. eapply wp_switch; [done| |apply Hpj|apply Hpj|done| | |done].
  { apply Forall_forall. intros p Hin. apply (ok_layers _ _ Hok). rewrite HL. auto. }
  1,2: by repeat apply path_ok_app.
  2: { intros e w4 H4. by eapply layers_kept_same. }
  intros w1 H1. unfold wp, modc. cbn [fst snd].
  assert (∀ p, p ∈ layers_of cfg (fst_of (c, w)) → p ≠ restore_upper_name cfg id) as Hneq.
  { intros p Hp ->. rewrite HL in Hp. destruct (Hok.(ok_layers _ _) (restore_upper_name cfg id)) as (_ & _ & _).
    - by rewrite HL.
    - specialize (Hkl _ Hp). rewrite HU0, Hu in Hkl. done. }
  assert (upper_apart cfg (restore_upper_name cfg id)) as Hap.
  { apply upper_apart_join. by rewrite !has_char_app, Hidok. }
  destruct (switch_ok cfg (fst_of (c, w)) ls (restore_upper_name cfg id) (restore_work_name cfg id) "restore" Hok Hap Hneq)
    as [Hok2 Hk2].
  assert (fst_of (set_current_work (restore_work_name cfg id) (set_current_upper (restore_upper_name cfg id) c), w1)
    = Fs (spec_switch (mount_fd cfg) ls (restore_upper_name cfg id) "restore" (kabs w))
         (restore_upper_name cfg id) (restore_work_name cfg id) (f_reg (fst_of (c, w)))) as E.
  { unfold fst_of, fs_part. simpl. by rewrite H1. }
  unfold restored, layers_kept. rewrite E. cbn [f_k f_saved].
  destruct (ok_mount _ _ Hok) as [m Hm]. cbn [f_k fst_of fs_part fs_of fst snd] in Hm.
  assert (spec_switch (mount_fd cfg) ls (restore_upper_name cfg id) "restore" (kabs w)
    = KState (k_dirs (kabs w)) (<[mount_fd cfg := Mount ls (restore_upper_name cfg id)]> (k_ovl (kabs w)))) as Es.
  { unfold spec_switch. change (kabs w) with (f_k (fst_of (c, w))) in *. by rewrite Hm. }
  split; [split_and!; [exact Hok2| |done|done]|split].
  - eapply keeps_layers_trans; [|exact Hkl|exact Hk2]. done.
  - unfold at_layers. cbn [f_k f_upper]. rewrite Es. cbn [k_ovl k_dirs]. rewrite lookup_insert_eq.
    split; [done|]. eexists. exact Hu.
  - intros y. unfold current_view, view_at. cbn [f_k]. rewrite Es. cbn [k_ovl]. rewrite lookup_insert_eq.
    unfold view. cbn [m_upper m_lowers k_dirs]. rewrite fmap_cons. unfold dir_content at 1. cbn [k_dirs].
    change (k_dirs (kabs w)) with (k_dirs (f_k (fst_of (c, w)))). rewrite Hu.
    simpl default. rewrite view_empty_upper.
    apply (keeps_layers_view cfg x (fst_of (c, w)) ls y Hkl Hls).
Qed.

(** Before the switch the state is [prepared], after it [restored]; a phase
    that may or may not switch is told by [switched]. *)
Definition stage x id ls (switched : bool) s : Prop :=
  if switched then restored x ls s else prepared x id s.
Lemma stage_closed x id ls b : fs_closed (stage x id ls b).
Proof. destruct b; [apply restored_closed|apply prepared_closed]. Qed.
Lemma stage_kept x id ls b s : stage x id ls b s → layers_kept cfg x s.
Proof. destruct b; by intros [? _]. Qed.

Lemma fs_restore_cmd_tail (h : option Z) :
  fs_keeps (match h with Some h => stop_lazy_pages_daemon h | None => mret tt end).
Proof. destruct h; [apply fs_stop_daemon|apply fs_keeps_ret]. Qed.

Lemma run_criu_spec x id ls p cmd exact switched fd s :
  id_fresh cfg x id → ls ≠ [] → (∀ q, q ∈ ls → q ∈ layers_of cfg x) →
  (switched = false → enable_criu_lazy_restore cfg && parallel_lazy_restore cfg = true) →
  stage x id ls switched s →
  wp (run_criu cfg p cmd exact switched ls (restore_upper_name cfg id) (restore_work_name cfg id) fd)
     (fun _ s' => restored x ls s') (fun _ s' => layers_kept cfg x s') s.
Proof.
  intros Hid Hne Hls Hsw Hs. unfold run_criu. cbv zeta.
  set (K := layers_kept cfg x). set (R := restored x ls). set (S := stage x id ls switched).
  assert (fs_closed K) as HK by apply layers_kept_closed.
  assert (fs_closed R) as HR by apply restored_closed.
  assert (fs_closed S) as HS by apply stage_closed.
  assert (∀ s, R s → K s) as RK by by intros ? [? _].
  assert (∀ s, S s → K s) as SK by (intros ?; apply stage_kept).
  assert (∀ (f : option Z) s, K s → wp (match f with Some f => call (CloseFd f) | None => mret tt end)
            (fun _ s' => K s') (fun _ s' => K s') s) as HcK.
  { intros f s1 H1. apply (wp_end_fs K); [destruct f; auto using fs_keeps_call, fs_keeps_ret|done|done|done|done]. }
  apply wp_finally, (wp_mono _ (fun _ s' => R s') _ (fun _ s' => K s')); [| |auto].
  2: { intros b s1 H1. apply (wp_end_fs R); [destruct fd; auto using fs_keeps_call, fs_keeps_ret|done|done|done|auto]. }
  apply (wp_bind_fs S); [|done|done| |auto].
  { destruct exact; [|apply fs_keeps_ret].
    destruct (e_resources (physical p)); [apply fs_protocol_restore_fds|apply fs_keeps_raise]. }
  intros [rargs rfds] s1 H1.
  apply wp_finally, (wp_mono _ (fun _ s' => R s') _ (fun _ s' => K s')).
  2: { intros b s2 H2. apply (wp_end_fs R); [apply fs_keeps_when, fs_close_fds|done|done|done|auto]. }
  2: { intros e s2 H2. apply (wp_end_fs K); [apply fs_keeps_when, fs_close_fds|done|done|done|done]. }
  apply (wp_bind_fs S); [|done|done| |auto].
  { destruct (enable_criu_lazy_restore cfg); [|apply fs_keeps_ret].
    apply fs_keeps_bind; [apply fs_take|intros [? ?]; apply fs_keeps_ret]. }
  intros daemon s2 H2. apply wp_catch, (wp_mono _ (fun _ s' => R s') _ (fun _ s' => K s')); [|done|].
  2: { intros e s3 H3. apply (wp_bind_fs K); [apply fs_restore_cmd_tail|done|done| |done].
       intros _ s4 H4. by apply wp_throw. }
  apply wp_bind, (wp_mono _ (fun _ s' => R s') _ (fun _ s' => K s')); [| |done].
  2: { intros _ s3 H3. by apply wp_ret. }
  destruct (enable_criu_lazy_restore cfg && parallel_lazy_restore cfg) eqn:Hpar.
  - apply (wp_bind_fs S); [apply fs_keeps_call|done|done| |auto]. intros pr s3 H3.
    apply wp_bind, (wp_mono _ (fun _ s' => R s') _ (fun _ s' => K s')); [| |done].
    { apply wp_when. unfold S, stage in H3. destruct switched; cbn [negb]; [done|].
      by apply switch_layers_spec. }
    intros _ s4 H4. apply (wp_bind_fs R); [apply fs_keeps_call|done|done| |auto]. intros rc s5 H5.
    destruct (rc =? 0)%Z; [by apply wp_ret|apply wp_raise; auto].
  - destruct switched; [|specialize (Hsw eq_refl); congruence].
    apply (wp_end_fs R); [apply fs_keeps_call|done|done|done|auto].
Qed.

Lemma slow_restore_spec x id ls p ext switched s :
  id_fresh cfg x id → ls ≠ [] → (∀ q, q ∈ ls → q ∈ layers_of cfg x) →
  (switched = false → enable_criu_lazy_restore cfg && parallel_lazy_restore cfg = true) →
  stage x id ls switched s →
  wp (slow_restore cfg p ext switched ls (restore_upper_name cfg id) (restore_work_name cfg id))
     (fun _ s' => restored x ls s') (fun _ s' => layers_kept cfg x s') s.
Proof.
  intros Hid Hne Hls Hsw Hs. unfold slow_restore.
  set (K := layers_kept cfg x). set (R := restored x ls). set (S := stage x id ls switched).
  assert (fs_closed R) as HR by apply restored_closed.
  assert (fs_closed S) as HS by apply stage_closed.
  assert (∀ s, R s → K s) as RK by by intros ? [? _].
  assert (∀ s, S s → K s) as SK by (intros ?; apply stage_kept).
  apply (wp_bind_fs S); [destruct ext; [apply fs_keeps_ret|apply fs_is_external_pidns_dump]|done|done| |auto].
  intros ext' s1 H1.
  apply (wp_bind_fs S); [|done|done| |auto].
  { destruct ext'.
    - apply fs_keeps_bind; [apply fs_clear_templates|intros _].
      apply fs_keeps_bind; [apply fs_open_external_pidns_fd|intros [f|]]; [apply fs_keeps_ret|apply fs_keeps_raise].
    - apply fs_keeps_bind; [apply fs_kill_namespace|intros _; apply fs_keeps_ret]. }
  intros fd s2 H2. cbv zeta.
  apply (wp_bind_fs S); [apply fs_keeps_call_or|done|done| |auto]. intros _ s3 H3.
  apply (wp_bind_fs S); [apply fs_ext_mount_args|done|done| |auto]. intros ea s4 H4.
  apply (wp_bind_fs S); [apply fs_keeps_getc|done|done| |auto]. intros c s5 H5.
  apply wp_bind. eapply wp_mono; [by apply (run_criu_spec x id)| |done]. intros lazy_used s6 H6.
  apply (wp_bind_fs R); [apply fs_adopt_restored|done|done| |auto]. intros _ s7 H7.
  apply (wp_bind_fs R); [|done|done| |auto].
  { apply fs_keeps_when, fs_keeps_bind; [apply fs_keeps_modc; done|intros; apply fs_keeps_call]. }
  intros _ s8 H8. apply (wp_bind_fs R); [apply fs_invalidate|done|done| |auto]. intros _ s9 H9.
  apply (wp_bind_fs R); [apply fs_keeps_when, fs_schedule_lazy|done|done| |auto]. intros _ s10 H10.
  by apply wp_ret.
Qed.

Lemma perform_restore_spec p ext allow s :
  let x := fst_of s in
  fs_ok cfg x → root_overlays s.1 = None → ids_fresh s →
  dget (effective_id p) (f_saved x) = Some (e_layers (physical p)) →
  wp (perform_restore cfg p ext allow)
     (fun _ s' => restored x (e_layers (physical p)) s') (fun _ s' => layers_kept cfg x s') s.
Proof.
  intros x Hok Hro Hfresh Hp. set (ls := e_layers (physical p)).
  assert (ls ≠ []) as Hne.
  { apply (ok_nonempty _ _ Hok). apply dget_Some_elem in Hp. change ls with (effective_id p, ls).2.
    by apply list_elem_of_fmap_2. }
  assert (∀ q, q ∈ ls → q ∈ layers_of cfg x) as Hls by (intros q; by eapply saved_in_layers).
  assert (layers_kept cfg x s) as Hk by (split_and!; [done|apply keeps_layers_refl|done|done]).
  set (K := layers_kept cfg x). set (R := restored x ls).
  assert (fs_closed K) as HK by apply layers_kept_closed.
  assert (fs_closed R) as HR by apply restored_closed.
  assert (∀ s, R s → K s) as RK by by intros ? [? _].
  assert (∀ s', same_fs s s' → K s') as SK by (intros s' H; by eapply HK).
  pose proof (same_fs_closed s) as HS.
  unfold perform_restore.
  apply (wp_bind_fs (same_fs s)); [apply fs_keeps_when, fs_drain_teardown|done|done| |auto]. intros _ s1 H1.
  apply (wp_bind_fs (same_fs s)); [apply fs_join_active|done|done| |auto]. intros _ s2 H2.
  apply wp_bind. unfold restore_root_overlays. apply wp_bind. unfold wp at 1, getc.
  assert (root_overlays s2.1 = None) as Hr2 by (destruct H2 as [_ H2]; congruence).
  rewrite Hr2. apply wp_ret. cbv zeta. fold ls. apply wp_bind.
  eapply wp_mono; [by apply (wp_draw _ s); [apply draws_Uuid|..]| |auto].
  intros id s3 [H3 Hid].
  apply wp_bind. eapply wp_mono; [apply (wp_kill_active (same_fs s) (prepared x id) K)| |done]; try done.
  { apply prepared_closed. }
  { by intros ? [? _]. }
  { intros s' Hs'. apply prepare_spec; [done|by apply SK|]. destruct Hs' as [E _]. by rewrite E. }
  intros [] s4 H4. cbv beta in H4.
  change (path_join (layers_root cfg) ("restore_" +:+ id +:+ "_upper")) with (restore_upper_name cfg id).
  change (path_join (layers_root cfg) ("restore_" +:+ id +:+ "_work")) with (restore_work_name cfg id).
  assert (fs_closed (prepared x id)) as HPc by apply prepared_closed.
  assert (∀ s, prepared x id s → K s) as PK by by intros ? [? _].
  destruct (warm p) as [tp|].
  - apply wp_bind, (wp_mono _ (fun _ s' => R s') _ (fun _ s' => K s')); [| |done].
    { unfold warm_fork. apply (wp_bind_fs (prepared x id)); [apply fs_keeps_call|done|done| |auto].
      intros disp s5 H5. apply wp_bind. eapply wp_mono; [by apply (switch_layers_spec x id)| |done].
      intros [] s6 H6. apply (wp_end_fs R); [destruct disp; [apply fs_await_fork|apply fs_keeps_ret]|done|done|done|auto]. }
    intros child s5 H5. destruct child as [ch|].
    + apply (wp_bind_fs R); [apply fs_adopt_fork|done|done| |auto]. intros _ s6 H6. by apply wp_ret.
    + destruct (negb allow); [apply wp_raise; auto|].
      apply (wp_bind_fs R); [apply fs_join_durable|done|done| |auto]. intros _ s6 H6.
      apply (wp_bind_fs R); [apply (fs_check_dump_error cfg)|done|done| |auto]. intros _ s7 H7.
      apply wp_bind. eapply wp_mono; [by apply (slow_restore_spec x id ls p ext true)| |done].
      intros path s8 H8. by apply wp_ret.
  - apply wp_bind, (wp_mono _ (fun _ s' => stage x id ls (negb (enable_criu_lazy_restore cfg && parallel_lazy_restore cfg)) s')
                            _ (fun _ s' => K s')); [| |done].
    { apply wp_when. destruct (enable_criu_lazy_restore cfg && parallel_lazy_restore cfg); cbn [negb]; [done|].
      by apply switch_layers_spec. }
    intros _ s5 H5. apply wp_bind. eapply wp_mono; [apply (slow_restore_spec x id ls p ext); [done..| |done]| |done].
    { intros E. by apply negb_false_iff in E. }
    intros path s6 H6. by apply wp_ret.
Qed.

(** The target of a restore in the abstract state. *)
Definition restore_target (r : registry) (id : string) : option string :=
  e ← dget id r;
  match e_effective_restore_id e with Some v => v | None => Some id end.

Lemma resolve_spec i allow s :
  wp (resolve_target cfg i allow)
    (fun p s' => same_fs s s' ∧ reg s'.1 = reg s.1 ∧ restore_target (reg s.1) i = Some (effective_id p) ∧
       dget (effective_id p) (reg s.1) = Some (physical p))
    (fun _ s' => same_fs s s') s.
Proof.
  unfold resolve_target, restore_target. apply wp_bind. unfold wp at 1, getc.
  destruct (dget i (reg s.1)) as [t|] eqn:Ht; [|by apply wp_raise]. simpl.
  set (P := fun s' : ctl * W => same_fs s s' ∧ reg s'.1 = reg s.1).
  apply wp_bind. unfold wp at 1, modc. set (eff := match e_effective_restore_id t with Some v => v | None => Some i end).
  assert (P (set_last_restore_target_id (Some i) s.1, s.2)) as HP by (by destruct s).
  apply wp_bind, (wp_mono _ (fun _ => P) _ (fun _ => P)).
  { destruct eff as [e|]; [|by apply wp_ret]. destruct (enable_warm_template cfg); [|by apply wp_ret].
    unfold template_get. apply wp_bind. unfold wp at 1, getc. cbn [fst].
    destruct (dget e (templates _)) as [pid|]; [|by apply wp_ret].
    apply wp_bind. unfold wp at 1, call, onw. cbn [fst snd].
    pose proof (law_frame (IsDir (proc pid "")) s.2) as Hf.
    assert (∀ w', kabs w' = kabs s.2 → P (set_last_restore_target_id (Some i) s.1, w')) as HP'.
    { intros w' E. destruct HP as [[H1 H2] H3]. split; [|done]. split; [|done].
      destruct s. unfold fst_of, fs_part in *. simpl in *. by rewrite E. }
    destruct (os_call _ s.2) as [[alive|er] w']; cbn [snd] in Hf; [|by apply HP'].
    specialize (HP' w' Hf). destruct alive; [by apply wp_ret|].
    apply wp_bind. unfold wp at 1, modc. cbn [fst snd]. apply wp_ret. destruct s. done. }
  2: { by intros e s' [? _]. }
  intros tp s' [H1 H2]. cbv zeta.
  match goal with |- wp (if ?b then _ else _) _ _ _ => destruct b end; [by apply wp_raise|].
  destruct eff as [e|] eqn:Heff; [|by apply wp_raise].
  case_bool_decide as Hei.
  - apply wp_ret. cbn [effective_id physical]. subst e. done.
  - destruct (dget e (reg s.1)) as [ph|] eqn:Hph; [by apply wp_ret|by apply wp_raise].
Qed.

(** Which entry a restore of [i] uses, and what the mount then shows. *)
Lemma restore_spec i allow s :
  let x := fst_of s in
  fs_ok cfg x → root_overlays s.1 = None → ids_fresh s →
  wp (restore_action cfg i allow)
     (fun _ s' => ∃ eff ls, restore_target (reg s.1) i = Some eff ∧ dget eff (f_saved x) = Some ls ∧ restored x ls s')
     (fun _ s' => layers_kept cfg x s') s.
Proof.
  intros x Hok Hro Hfresh. unfold restore_action.
  assert (∀ s', same_fs s s' → layers_kept cfg x s') as SK.
  { intros s' H. eapply layers_kept_closed; [done|]. split_and!; [done|apply keeps_layers_refl|done|done]. }
  apply wp_bind. eapply wp_mono; [apply resolve_spec| |auto].
  intros p s1 (H1 & Hr1 & Ht & Hph).
  apply (wp_bind_fs (same_fs s)); [apply fs_cold_prerequisites|apply same_fs_closed|done| |auto]. intros ext s2 H2.
  assert (fst_of s2 = x) as E2 by by destruct H2.
  assert (dget (effective_id p) (f_saved x) = Some (e_layers (physical p))) as Hsv.
  { destruct s as [c w]. unfold x, f_saved, fst_of, fs_part. simpl. rewrite dget_dmap. simpl in Hph. by rewrite Hph. }
  eapply wp_mono; [apply perform_restore_spec; rewrite ?E2; try done| |].
  - destruct H2 as [_ H2]. congruence.
  - intros d w1 id w2 Hd Hk. rewrite E2. apply (Hfresh d w1 id w2 Hd).
    rewrite Hk. destruct H2 as [E _]. apply (f_equal f_k) in E. destruct s, s2. exact E.
  - intros a s' HR. rewrite E2 in HR. by eexists _, _.
  - intros e s'. by rewrite E2.
Qed.
End ops.
End FsSpec.
