(* ===== verification/GcSpec.v ===== *)
(** * Garbage collection keeps what is needed

    [gc_body] drops the registry entries outside the retention closure and the
    unreferenced [restore_*] directories.  Nothing it does changes what the
    sandbox sees or what a remaining checkpoint restores to, and when it
    completes the remaining entries are closed under their dependencies. *)

From S2P Require Import Prelude Hoare PyStr PyDict Registry Overlay RootOverlay Host Process Checkpoint.
From S2P Require Import LazyPages Restore FsSpec.
From Stdlib Require Import Ascii.

Module GcSpec.
Import Process Checkpoint LazyPages Restore FsSpec.

Section gc.
Context {W : Type} `{!KernelOverlay W} `{!MountHost W} `{!Host W} (cfg : config).
#[local] Existing Instance layers_only.
Implicit Types (s : ctl * W) (x : fs).

(** The base layer lies outside the [restore_*] directories. *)
Definition base_apart : Prop :=
  ∀ name, startswith name "restore_" = true →
    base_layer cfg ≠ path_join (layers_root cfg) name ∧
    startswith (base_layer cfg) (path_join (layers_root cfg) name +:+ "/") = false.

Lemma layer_name_apart id name :
  startswith name "restore_" = true →
  layer_name cfg id ≠ path_join (layers_root cfg) name ∧
  startswith (layer_name cfg id) (path_join (layers_root cfg) name +:+ "/") = false.
Proof.
  intros Hn. destruct (path_join_prefix (layers_root cfg)) as [pre Hpre].
  apply startswith_spec in Hn as [t ->]. unfold layer_name. rewrite !Hpre by done. split.
  - intros E. by apply string_app_inj_l in E.
  - rewrite string_app_assoc. by rewrite startswith_app_l.
Qed.

(** ** Dropping entries *)

(** Only registry entries outside [keep] are gone; the rest of the watched
    state is as before. *)
Definition dropped (keep : gset string) s0 s : Prop :=
  kabs s.2 = kabs s0.2 ∧ current_upper s.1 = current_upper s0.1 ∧ current_work s.1 = current_work s0.1 ∧
  root_overlays s.1 = root_overlays s0.1 ∧
  ((∀ i e, dget i (reg s.1) = Some e → dget i (reg s0.1) = Some e) ∧ reg s.1 ⊆ reg s0.1) ∧
  (∀ i, i ∈ keep → dget i (reg s.1) = dget i (reg s0.1)).

Lemma same_fs_fields s s' : same_fs s s' → 
  kabs s'.2 = kabs s.2 ∧ current_upper s'.1 = current_upper s.1 ∧ current_work s'.1 = current_work s.1 ∧
  reg s'.1 = reg s.1.
Proof. destruct s, s'. unfold same_fs, fst_of, fs_part. simpl. intros [[= -> -> -> ->] _]. done. Qed.

Lemma dropped_refl keep s : dropped keep s s.
Proof. by split_and!. Qed.

Lemma dropped_closed keep s0 : fs_closed (dropped keep s0).
Proof.
  intros s s' Hs (H1 & H2 & H3 & H4 & H5 & H6). destruct (same_fs_fields _ _ Hs) as (E1 & E2 & E3 & E4).
  destruct Hs as [_ Er]. unfold dropped. rewrite E1, E2, E3, E4, Er. done.
Qed.

Lemma dropped_pop keep s0 c w rid :
  rid ∉ keep → dropped keep s0 (c, w) → dropped keep s0 (set_reg (dpop rid (reg c)) c, w).
Proof.
  intros Hr (H1 & H2 & H3 & H4 & H5 & H6). split_and!; simpl in *; try done.
  - intros i e. destruct (decide (rid = i)) as [<-|Hne]; [by rewrite dget_dpop_eq|].
    rewrite dget_dpop_ne by done. apply H5.
  - intros p Hp. apply H5. unfold dpop in Hp. by apply list_elem_of_In, filter_In in Hp as [Hp%list_elem_of_In _].
  - intros i Hi. rewrite dget_dpop_ne by (intros ->; done). auto.
Qed.

Lemma discard_spec keep s0 rid s :
  dropped keep s0 s →
  wp (discard_entry cfg keep rid)
     (fun _ s' => dropped keep s0 s' ∧ (∀ i, dget i (reg s.1) = None → dget i (reg s'.1) = None) ∧
        (rid ∉ keep → dget rid (reg s'.1) = None))
     (fun _ s' => dropped keep s0 s') s.
Proof.
  intros Hd. destruct s as [c w]. unfold discard_entry. case_bool_decide as Hk; [by apply wp_ret|].
  apply wp_bind. unfold wp at 1, getc. cbn [fst].
  destruct (dget rid (reg c)) as [e|] eqn:He; [|by apply wp_ret].
  apply wp_bind. unfold wp at 1, modc. cbn [fst snd].
  set (P := fun s => dropped keep s0 s ∧ reg s.1 = dpop rid (reg c)).
  assert (fs_closed P) as HP.
  { intros s s' Hs [H1 H2]. split; [by eapply dropped_closed|]. destruct (same_fs_fields _ _ Hs) as (_ & _ & _ & ->). done. }
  apply (wp_bind_fs P); [apply fs_keeps_when, fs_template_discard|done|split; [by apply dropped_pop|done]| |by intros ? ? []].
  intros _ s1 H1. apply (wp_bind_fs P); [apply fs_retire_lazy|done|done| |by intros ? ? []]. intros _ s2 H2.
  assert (∀ s, P s → dropped keep s0 s ∧ (∀ i, dget i (reg c) = None → dget i (reg s.1) = None) ∧
     (rid ∉ keep → dget rid (reg s.1) = None)) as Hend.
  { intros s [Hs Hr]. split; [done|]. rewrite Hr. split; [|by rewrite dget_dpop_eq].
    intros i Hi. destruct (decide (rid = i)) as [->|Hne]; [by rewrite dget_dpop_eq|by rewrite dget_dpop_ne]. }
  case_bool_decide; [by apply wp_ret, Hend|].
  apply (wp_bind_fs P); [apply fs_keeps_call|done|done| |by intros ? ? []]. intros here s3 H3.
  apply (wp_end_fs P); [apply fs_keeps_when, fs_keeps_call|done|done|by intros; apply Hend|by intros ? ? []].
Qed.

Lemma discards_spec keep s0 ids s :
  dropped keep s0 s →
  wp (mfor ids (discard_entry cfg keep))
     (fun _ s' => dropped keep s0 s' ∧ (∀ i, dget i (reg s.1) = None → dget i (reg s'.1) = None) ∧
        ∀ i, i ∈ ids → i ∉ keep → dget i (reg s'.1) = None)
     (fun _ s' => dropped keep s0 s') s.
Proof.
  revert s. induction ids as [|rid ids IH]; intros s Hd; cbn [mfor].
  { apply wp_ret. split_and!; [done|done|]. intros i Hi. by apply elem_of_nil in Hi. }
  apply wp_bind. eapply wp_mono; [by apply discard_spec| |done]. intros [] s1 (H1 & H2 & H3).
  eapply wp_mono; [by apply IH| |done]. intros [] s2 (G1 & G2 & G3). split_and!; [done|auto|].
  intros i [->|Hi]%elem_of_cons Hk; auto.
Qed.

(** ** Pruning directories *)

(** The directories that stay, with their content. *)
Definition protected (c : ctl) (p : string) : Prop :=
  p = base_layer cfg ∨ (∃ id, p = layer_name cfg id) ∨ p = current_upper c.

Definition pruned (c0 : ctl) (k0 : kstate) s : Prop :=
  s.1 = c0 ∧ k_ovl (kabs s.2) = k_ovl k0 ∧ ∀ p, protected c0 p → k_dirs (kabs s.2) !! p = k_dirs k0 !! p.

Lemma pruned_call {R} (q : sysE R) c0 k0 s :
  pruned c0 k0 s → wp (call q) (fun _ s' => pruned c0 k0 s') (fun _ s' => pruned c0 k0 s') s.
Proof.
  destruct s as [c w]. intros (H1 & H2 & H3). pose proof (law_frame q w) as Hf.
  unfold wp, call, onw. cbn [fst snd]. destruct (os_call q w) as [[a|e] w']; cbn [snd] in Hf; unfold pruned; cbn [fst snd];
    rewrite Hf; done.
Qed.

Lemma prune_dir_spec c0 k0 name s :
  base_apart → upper_apart cfg (current_upper c0) → pruned c0 k0 s →
  wp (prune_dir cfg (keep_dirs c0) name) (fun _ s' => pruned c0 k0 s') (fun _ s' => pruned c0 k0 s') s.
Proof.
  intros Hb Hu Hs. unfold prune_dir. destruct (startswith name "restore_") eqn:Hn; cbn [negb]; [|by apply wp_ret].
  destruct (mem (path_join (layers_root cfg) name) (keep_dirs c0)) eqn:Hm; [by apply wp_ret|].
  apply wp_bind. eapply wp_mono; [by apply pruned_call| |done]. intros here s1 H1. apply wp_when.
  destruct here; [|done]. destruct s1 as [c w]. apply wp_onw.
  destruct (law_rmtree (path_join (layers_root cfg) name) w) as (Hr & Ho & Hd). unfold wp.
  destruct (os_rmtree _ w) as [r w'] eqn:E. cbn [fst snd] in *. subst r.
  destruct H1 as (G1 & G2 & G3). cbn [fst snd] in *. unfold pruned. cbn [fst snd]. rewrite Ho.
  split_and!; [done|done|]. intros p Hp. rewrite <- G3 by done.
  apply mem_false in Hm. assert (p ≠ path_join (layers_root cfg) name ∧
    startswith p (path_join (layers_root cfg) name +:+ "/") = false) as [??]; [|by apply Hd].
  destruct Hp as [->|[[id ->]| ->]].
  - by apply Hb.
  - by apply layer_name_apart.
  - split; [|by apply Hu]. intros Ec. apply Hm. rewrite <- Ec. left.
Qed.

Lemma prune_spec c0 k0 s :
  base_apart → upper_apart cfg (current_upper c0) → pruned c0 k0 s →
  wp (prune_restore_dirs cfg) (fun _ s' => pruned c0 k0 s') (fun _ s' => pruned c0 k0 s') s.
Proof.
  intros Hb Hu Hs. unfold prune_restore_dirs. apply wp_bind. unfold wp at 1, getc.
  assert (s.1 = c0) as -> by apply Hs. apply wp_catch.
  apply wp_bind. eapply wp_mono; [by apply pruned_call| |].
  2: { intros e s' H. destruct (is_OSError e); [by apply wp_ret|by apply wp_throw]. }
  intros names s1 H1. eapply wp_mono; [apply (wp_for (pruned c0 k0) names _ (fun _ => pruned c0 k0)); [done|]| |].
  - intros name s' _ H. by apply prune_dir_spec.
  - done.
  - intros e s' H. destruct (is_OSError e); [by apply wp_ret|by apply wp_throw].
Qed.

(** ** The closure *)

Lemma fs_poll_futures r : fs_keeps (poll_futures r).
Proof. induction r as [|[? ?]]; simpl; fs_auto. Qed.

(** The kept set contains the base set and is closed under the links of the
    registry. *)
Lemma gc_keep_spec n ids s :
  wp (gc_keep n ids)
    (fun keep s' => same_fs s s' ∧ (∀ i, i ∈ base_keep n ids (reg s.1) → i ∈ keep) ∧
       ∀ i j, i ∈ keep → link (reg s.1) i j → j ∈ keep)
    (fun _ s' => same_fs s s') s.
Proof.
  unfold gc_keep. apply wp_bind. unfold wp at 1, getc. cbv zeta.
  apply (wp_bind_fs (same_fs s)); [|apply same_fs_closed|by destruct s| |done].
  { destruct (readers _); [apply fs_keeps_ret|apply fs_reader_ids]. }
  intros rd s1 H1. apply (wp_bind_fs (same_fs s)); [apply fs_poll_futures|apply same_fs_closed|done| |done].
  intros futs s2 H2. apply wp_bind. unfold wp at 1, getc.
  assert (reg s2.1 = reg s.1) as Hr by by destruct (same_fs_fields _ _ H2) as (_ & _ & _ & ->).
  rewrite Hr. destruct (retained_ids _ _ _) as [keep|] eqn:E; [|apply wp_raise; by destruct s2].
  apply wp_ret. split; [by destruct s2|].
  pose proof (fun i => retained_ids_closure _ _ _ _ i E) as Hc. split.
  - intros i Hi. apply Hc. exists i. split; [|constructor]. unfold initial_keep.
    apply elem_of_union_l, elem_of_list_to_set, elem_of_app. by left.
  - intros i j Hi Hl. apply Hc in Hi as (a & Ha & Hai). apply Hc. exists a. split; [done|]. by eapply rtc_r.
Qed.

(** ** The whole collection *)

(** What a collection, complete or cut short by an exception, leaves. *)
Definition collected s s' : Prop :=
  k_ovl (kabs s'.2) = k_ovl (kabs s.2) ∧
  (∀ p, protected s.1 p → k_dirs (kabs s'.2) !! p = k_dirs (kabs s.2) !! p) ∧
  current_upper s'.1 = current_upper s.1 ∧ root_overlays s'.1 = root_overlays s.1 ∧
  (∀ i e, dget i (reg s'.1) = Some e → dget i (reg s.1) = Some e) ∧ reg s'.1 ⊆ reg s.1.

Lemma dropped_collected keep s s' : dropped keep s s' → collected s s'.
Proof. intros (H1 & H2 & H3 & H4 & H5 & H6). unfold collected. rewrite H1. done. Qed.

Lemma gc_body_spec n ids s :
  base_apart → upper_apart cfg (current_upper s.1) →
  wp (gc_body cfg n ids)
    (fun _ s' => collected s s' ∧ (∀ i, i ∈ base_keep n ids (reg s.1) → dget i (reg s'.1) = dget i (reg s.1)) ∧
       ∀ i j, dhas i (reg s'.1) = true → link (reg s.1) i j → dhas j (reg s'.1) = true)
    (fun _ s' => collected s s') s.
Proof.
  intros Hb Hu. unfold gc_body. apply wp_bind. eapply wp_mono; [apply gc_keep_spec| |].
  2: { intros e s' H. apply (dropped_collected ∅). eapply dropped_closed; [exact H|apply dropped_refl]. }
  intros keep s1 (H1 & Hbase & Hclo). apply wp_bind. unfold wp at 1, getc.
  assert (dropped keep s s1) as Hd by (eapply dropped_closed; [exact H1|apply dropped_refl]).
  assert (reg s1.1 = reg s.1) as Hr by by destruct (same_fs_fields _ _ H1) as (_ & _ & _ & ->).
  apply wp_bind. eapply wp_mono; [by apply discards_spec| |].
  2: { intros e s' H. exact (dropped_collected _ _ _ H). }
  intros [] s2 (H2 & Hnone & Hgone).
  assert (∀ i, dhas i (reg s2.1) = true ↔ dhas i (reg s.1) = true ∧ i ∈ keep) as Hdom.
  { intros i. rewrite !dhas_true. destruct H2 as (_ & _ & _ & _ & [Hs _] & Hk). split.
    - intros [e He]. split; [eexists; by apply Hs|]. destruct (decide (i ∈ keep)); [done|].
      rewrite Hgone in He; [done| |done]. rewrite Hr. apply dget_is_Some. eexists. by apply Hs.
    - intros [[e He] Hi]. rewrite Hk by done. by eexists. }
  assert (upper_apart cfg (current_upper s2.1)) as Hu2 by (destruct H2 as (_ & -> & _); done).
  assert (∀ p, protected s2.1 p ↔ protected s.1 p) as Hpr by (intros p; unfold protected; destruct H2 as (_ & -> & _); done).
  assert (∀ s', pruned s2.1 (kabs s2.2) s' → collected s s') as Hpc.
  { intros s' (G1 & G2 & G3). destruct H2 as (E1 & E2 & E3 & E4 & E5 & E6). unfold collected.
    rewrite G1, G2, E1, E2. split; [done|]. split; [|by destruct E5].
    intros p Hp. rewrite G3 by (by apply Hpr). by rewrite E1. }
  eapply wp_mono; [apply (prune_spec s2.1 (kabs s2.2)); [done|done|by split_and!]| |].
  - intros [] s3 H3. split; [by apply Hpc|]. destruct H3 as (-> & _). split.
    + intros i Hi. destruct H2 as (_ & _ & _ & _ & _ & Hk). auto.
    + intros i j [Hi1 Hi2]%Hdom Hl. apply Hdom. split; [|by eapply Hclo].
      destruct Hl as [_ Hj]. apply dhas_true. by apply dget_is_Some.
  - intros e s3 H3. by apply Hpc.
Qed.

(** The promises about views survive a collection. *)
Lemma collected_ok s s' :
  fs_ok cfg (fst_of s) → collected s s' → fs_ok cfg (fst_of s') ∧
  ∀ p, p ∈ layers_of cfg (fst_of s') → p ∈ layers_of cfg (fst_of s).
Proof.
  intros [H1 H2 H3 H4 H5] (C1 & C2 & C3 & C4 & C5 & C6). destruct s as [c w], s' as [c' w'].
  unfold fst_of, fs_part, protected, layer_ok, layers_of, f_saved in *.
  cbn [fs_of f_k f_upper f_work f_reg fst snd] in *.
  assert (∀ ls, ls ∈ dvals (dmap e_layers (reg c')) → ls ∈ dvals (dmap e_layers (reg c))) as Hls.
  { intros ls. unfold dvals, dmap. rewrite <- !list_fmap_compose, !list_elem_of_fmap.
    intros (p & -> & Hp). exists p. auto. }
  assert (∀ p, p ∈ base_layer cfg :: mjoin (dvals (dmap e_layers (reg c'))) →
               p ∈ base_layer cfg :: mjoin (dvals (dmap e_layers (reg c)))) as Hin.
  { intros p [->|Hp]%elem_of_cons; [left|right]. apply list_elem_of_join in Hp as (ls & Hp & Hl).
    apply list_elem_of_join. exists ls. auto. }
  split; [|done]. constructor; cbn [f_k f_upper f_reg]; unfold layers_of, f_saved, layer_ok; cbn [f_k f_upper f_reg]; try done.
  - by rewrite C1.
  - intros p Hp. destruct (H3 p (Hin p Hp)) as (G1 & G2 & G3 & G4 & G5). rewrite C1, C2, C3 by (destruct G5; auto).
    done.
  - intros ls Hl. apply H4. auto.
  - by rewrite C3.
Qed.

Lemma collected_views s s' ls :
  collected s s' → (∀ p, p ∈ ls → protected s.1 p) →
  (∀ y, chain_view (fst_of s') ls y = chain_view (fst_of s) ls y) ∧
  (at_layers cfg (fst_of s) ls → at_layers cfg (fst_of s') ls ∧
     ∀ y, current_view cfg (fst_of s') y = current_view cfg (fst_of s) y).
Proof.
  intros (C1 & C2 & C3 & C4 & C5 & C6) Hls. destruct s as [c w], s' as [c' w'].
  unfold at_layers, current_view, view_at, chain_view, fst_of, fs_part, protected in *.
  cbn [fs_of f_k f_upper f_work f_reg fst snd] in *. split.
  - intros y. apply view_lookup_dirs_ext. intros p Hp. apply C2. by apply Hls.
  - intros [Hm Hu]. rewrite C1, C3, C2 by auto. split; [done|]. intros y. rewrite Hm. unfold view.
    apply view_lookup_dirs_ext. cbn [m_upper m_lowers]. intros p [->|Hp]%elem_of_cons; apply C2; auto.
Qed.

Lemma layers_protected s p : fs_ok cfg (fst_of s) → p ∈ layers_of cfg (fst_of s) → protected s.1 p.
Proof. intros Hok Hp. destruct (ok_layers _ _ Hok p Hp) as (_ & _ & _ & _ & [?|?]); unfold protected; auto. Qed.

End gc.
End GcSpec.
