(* ===== verification/AsyncSpec.v ===== *)
(** * What asynchronous checkpoints promise

    The transaction of [AsyncCheckpoint] keeps the promise of [FsSpec]: it
    captures the view of the sandbox when it returns, and keeps every
    registered view when it fails, having taken its own entry back. *)

From S2P Require Import Prelude Hoare PyStr PyDict Resources Registry Overlay RootOverlay Host Process AsyncResources Checkpoint.
From S2P Require Import LazyPages AsyncCheckpoint Restore FsSpec Sim.
From Stdlib Require Import Ascii.

Module AsyncSpec.
Import Resources Process AsyncResources Checkpoint LazyPages AsyncCheckpoint FsSpec.

(** ** Renaming and making directories commute *)

Lemma makedirs_rename a b p k :
  p ≠ a → p ≠ b → spec_rename a b (spec_makedirs p k) = spec_makedirs p (spec_rename a b k).
Proof.
  intros Ha Hb. unfold spec_rename, spec_makedirs. destruct (k_dirs k !! p) as [lp|] eqn:Ep.
  - destruct (k_dirs k !! a) as [l|] eqn:Ea; [|by rewrite Ep]. cbn [k_dirs].
    rewrite lookup_insert_ne by done. rewrite lookup_delete_ne by done. by rewrite Ep.
  - cbn [k_dirs k_ovl]. rewrite lookup_insert_ne by done. destruct (k_dirs k !! a) as [l|] eqn:Ea; [|by rewrite Ep].
    cbn [k_dirs k_ovl]. rewrite lookup_insert_ne by done. rewrite lookup_delete_ne by done. rewrite Ep.
    f_equal. rewrite delete_insert_ne by done. by rewrite insert_insert_ne.
Qed.

Section fs.
Context {W : Type} `{!KernelOverlay W} `{!MountHost W} `{!Host W} (cfg : config).
#[local] Existing Instance layers_only.
Implicit Types (s : ctl * W) (x : fs).

Lemma layers_kept_rename x b c w w' :
  layers_kept cfg x (c, w) → k_dirs (kabs w) !! b = None → current_upper c ≠ b →
  kabs w' = spec_rename (current_upper c) b (kabs w) → layers_kept cfg x (c, w').
Proof.
  intros (Hok & Hk & Hs & Hr) Hb Hne Hw. destruct (rename_ok cfg (fst_of (c, w)) b Hok Hb Hne) as [H1 K1].
  unfold layers_kept, fst_of, fs_part in *. simpl in *. rewrite Hw.
  split_and!; [done|eapply keeps_layers_trans; [|exact Hk|exact K1]; done|done|done].
Qed.

Lemma sink_post_closed x pl r : fs_closed (sink_post cfg x pl r).
Proof.
  intros s s' Hs (H1 & H2 & H3 & H4). pose proof (layers_kept_closed cfg x _ _ Hs H1) as H1'.
  destruct Hs as [E _]. unfold sink_post. rewrite E. done.
Qed.

(** The layers an asynchronous checkpoint builds on. *)
Definition sink_base (parent : option entry) : list string :=
  match parent with Some p => e_layers p | None => [base_layer cfg] end.

Lemma async_sink_dirty x id parent s l :
  fst_of s = x → root_overlays s.1 = None → fs_ok cfg x → id_fresh cfg x id → sink_base parent ≠ [] →
  (∀ p, p ∈ sink_base parent → p ∈ layers_of cfg x) → k_dirs (f_k x) !! f_upper x = Some l →
  wp (_ ← onw (os_makedirs (next_upper_name cfg id));
      _ ← onw (os_makedirs (next_work_name cfg id));
      _ ← onw (os_rename (f_upper x) (layer_name cfg id));
      _ ← apply_overlay_switch cfg (sink_base parent) (next_upper_name cfg id) (next_work_name cfg id) "ckpt";
      _ ← modc (fun c => set_current_work (next_work_name cfg id) (set_current_upper (next_upper_name cfg id) c));
      mret (layer_name cfg id :: sink_base parent))
     (fun ls s' => sink_post cfg x (sink_base parent) (ls, true) s') (fun _ s' => layers_kept cfg x s') s.
Proof.
  intros Hx Hro Hok Hid Hne Hpl Hl. set (pl := sink_base parent) in *.
  assert (layers_kept cfg x s) as K0 by (rewrite <- Hx in Hok |- *; split_and!; [done|apply keeps_layers_refl|done|done]).
  destruct s as [c w]. pose proof Hid as ([Hidp Hidok] & _ & _ & Hfr).
  destruct (names_distinct cfg id) as (Hlu & Hlw & Huw & _).
  destruct (Hfr (layer_name cfg id)) as (HL & HuL & _); [set_solver|].
  destruct (Hfr (next_upper_name cfg id)) as (HU & HuU & _); [set_solver|].
  destruct (Hfr (next_work_name cfg id)) as (HW & HuW & _); [set_solver|].
  assert (f_k x = kabs w ∧ f_upper x = current_upper c) as [Ek Eu] by by rewrite <- Hx.
  apply wp_bind, wp_onw. eapply wp_mono; [apply law_makedirs|intros [] w1 H1|].
  2: { intros e w1 H1. by eapply layers_kept_same. }
  assert (layers_kept cfg x (c, w1)) as K1 by by eapply layers_kept_makedirs.
  apply wp_bind, wp_onw. eapply wp_mono; [apply law_makedirs|intros [] w2 H2|].
  2: { intros e w2 H2. by eapply layers_kept_same. }
  assert (layers_kept cfg x (c, w2)) as K2 by by eapply layers_kept_makedirs.
  assert (k_dirs (kabs w2) !! layer_name cfg id = None) as HL2.
  { rewrite H2, H1, <- Ek. rewrite !spec_makedirs_lookup by auto. done. }
  apply wp_bind, wp_onw. eapply wp_mono; [by apply law_rename|intros [] w3 [_ H3]|].
  2: { intros e w3 H3. by eapply layers_kept_same. }
  assert (kabs w3 = sunk_kernel cfg x id) as Hk3.
  { rewrite H3, H2, H1. unfold sunk_kernel. by rewrite !makedirs_rename, Ek by done. }
  assert (layers_kept cfg x (c, w3)) as K3.
  { eapply layers_kept_rename; [exact K2|exact HL2|by rewrite <- Eu|by rewrite H3, Eu]. }
  assert (∀ n, path_ok n → path_ok (path_join (layers_root cfg) n)) as Hp by (intros; apply path_ok_path_join; [apply Hok|done]).
  apply wp_bind. eapply wp_switch; [done| |apply Hp|apply Hp|done| | |done].
  { apply Forall_forall. intros p Hin. by apply (ok_layers _ _ Hok), Hpl. }
  1,2: apply path_ok_app; [done|]; by apply path_ok_app.
  2: { intros e w4 H4. by eapply layers_kept_same. }
  intros w4 H4. apply wp_bind. unfold wp at 1, modc. cbn [fst snd]. apply wp_ret.
  destruct (sunk_switched cfg x id pl (next_work_name cfg id) l Hok Hid Hpl Hl) as (G1 & G2 & G3 & G4).
  assert (reg c = f_reg x) as Er by by rewrite <- Hx.
  unfold sink_post, layers_kept, fst_of, fs_part. cbn [fst snd fs_of current_upper current_work reg set_current_work
    set_current_upper root_overlays]. rewrite H4, Hk3, Er. split_and!; try done.
Qed.

Lemma async_sink_spec x id parent s :
  fst_of s = x → root_overlays s.1 = None → fs_ok cfg x → id_fresh cfg x id → sink_base parent ≠ [] →
  (∀ p, p ∈ sink_base parent → p ∈ layers_of cfg x) →
  wp (async_sink cfg id parent) (sink_post cfg x (sink_base parent)) (fun _ s' => layers_kept cfg x s') s.
Proof.
  intros Hx Hro Hok Hid Hne Hpl.
  assert (layers_kept cfg x s) as K0 by (rewrite <- Hx in Hok |- *; split_and!; [done|apply keeps_layers_refl|done|done]).
  assert (∀ s', same_fs s s' → layers_kept cfg x s') as SK by (intros s' H; by eapply layers_kept_closed).
  pose proof (same_fs_closed s) as HS. unfold async_sink. apply wp_bind. unfold wp at 1, getc. cbv zeta.
  change (match parent with Some p => e_layers p | None => [base_layer cfg] end) with (sink_base parent).
  assert (current_upper s.1 = f_upper x) as -> by (rewrite <- Hx; by destruct s).
  apply (wp_bind_fs (same_fs s)); [apply fs_keeps_call|done|done| |auto]. intros [] s1 H1; cbn [negb]; [|by apply wp_raise, SK].
  apply (wp_bind_fs (same_fs s)); [apply fs_keeps_call|done|done| |auto]. intros _ s2 H2.
  assert (fst_of s2 = x) as Hx2 by (destruct H2 as [E _]; congruence).
  assert (root_overlays s2.1 = None) as Hro2 by (destruct H2 as [_ E]; congruence).
  destruct s2 as [c w]. cbn [fst] in *. apply wp_bind, wp_onw. unfold wp at 1. rewrite law_nonempty.
  assert (dir_content (kabs w) (f_upper x) = dir_content (f_k x) (f_upper x)) as -> by by rewrite <- Hx2.
  apply wp_bind, (wp_mono _ (fun ls s' => sink_post cfg x (sink_base parent) (ls, bool_decide (dir_content (f_k x) (f_upper x) ≠ ∅)) s')
    _ (fun _ s' => layers_kept cfg x s')); [| |done].
  2: { intros ls s' H. pose proof H as (K & _). apply wp_bind, on_root_none; [by destruct K as (_ & _ & _ & ?)|]. by apply wp_ret. }
  case_bool_decide as Hdirty.
  - destruct (k_dirs (f_k x) !! f_upper x) as [l|] eqn:Hl.
    + by apply (async_sink_dirty x id parent (c, w) l).
    + exfalso. apply Hdirty. unfold dir_content. by rewrite Hl.
  - apply wp_ret. split_and!; [by apply SK|done| |].
    + intros p Hp. rewrite Hx2. by apply (ok_layers _ _ Hok), Hpl.
    + rewrite Hx2. intros Hat. split; [done|]. split; [done|]. apply sink_clean; [done|].
      destruct (decide (dir_content (f_k x) (f_upper x) = ∅)); [done|]. by destruct Hdirty.
Qed.

(** ** The transaction *)

Lemma wp_mod_async (f : async_state → async_state) (Q : unit → ctl * W → Prop) E s :
  Q tt (set_async (f (async s.1)) s.1, s.2) → wp (mod_async f) Q E s.
Proof. done. Qed.

(** The state after the handler has taken the entry back. *)
Definition popped (id : string) s : ctl * W := (set_reg (dpop id (reg s.1)) s.1, s.2).
Definition undone x (id : string) s : Prop := grows cfg x (popped id s).

Lemma undone_closed x id : fs_closed (undone x id).
Proof.
  intros [c w] [c' w'] [E1 E2] H. eapply grows_closed; [|exact H].
  unfold same_fs, popped, fst_of, fs_part in *. simpl in *. injection E1 as -> -> -> ->. done.
Qed.
Lemma popped_fresh id s : id ∉ dkeys (reg s.1) → popped id s = s.
Proof. intros H. unfold popped. rewrite dpop_fresh by done. by destruct s as [[] ?]. Qed.
Lemma kept_undone x id s : id ∉ dkeys (f_reg x) → layers_kept cfg x s → undone x id s.
Proof.
  intros Hid H. unfold undone. rewrite popped_fresh; [by apply layers_kept_grows|].
  destruct H as (_ & _ & E & _), s. change (reg _) with (f_reg (fst_of (c, w))). by rewrite E.
Qed.

Lemma abandon_spec {A} x id staging l e s (Q : A → ctl * W → Prop) :
  undone x id s → wp (abandon id staging l e) Q (fun _ s' => grows cfg x s') s.
Proof.
  intros H. unfold abandon. pose proof (grows_closed cfg x) as HG.
  apply wp_bind, (wp_mono _ (fun _ s' => grows cfg x s') _ (fun _ s' => grows cfg x s')); [| |done].
  - apply wp_catch, wp_bind. unfold abandon_registered. apply wp_bind, wp_mod_async.
    set (s1 := (_, _)). assert (undone x id s1) as H1 by (eapply undone_closed; [|exact H]; by destruct s).
    clearbody s1. clear H. apply wp_bind, (wp_mono _ (fun _ s' => undone x id s') _ (fun _ s' => False)); [| |done].
    { apply wp_when. destruct (l_future l); [|done]. apply wp_mod_async. eapply undone_closed; [|exact H1]. by destruct s1. }
    intros _ s2 H2. apply wp_bind. unfold wp at 1, modc. change (set_reg _ s2.1, s2.2) with (popped id s2).
    apply wp_bind. unfold wp at 1, getc.
    apply (wp_end_fs (grows cfg x)); [|done|exact H2|intros ? ? ?; by apply wp_ret|intros ? ? ?; by apply wp_ret].
    pose proof fs_template_discard. fs_auto.
  - intros r s1 H1.
    assert (∀ s', grows cfg x s' → wp release_slot (fun _ s'' => grows cfg x s'') (fun _ s'' => grows cfg x s'') s') as Hrel.
    { intros s' Hs'. apply wp_mod_async. eapply HG; [|exact Hs']. by destruct s'. }
    destruct r as [e'|].
    + apply (wp_bind_fs (grows cfg x)); [destruct (l_pidfd l); fs_auto|done|done| |done]. intros _ s2 H2.
      apply wp_bind. eapply wp_mono; [by apply Hrel| |done]. intros [] s3 H3. by apply wp_throw.
    + apply wp_finally, (wp_mono _ (fun _ _ => False) _ (fun _ s' => grows cfg x s')); [|done|auto].
      apply (wp_bind_fs (grows cfg x)); [|done|done| |done].
      * unfold abandon_copy, mod_async. pose proof fs_dispose. fs_auto.
      * intros _ s2 H2. by apply wp_throw.
Qed.

Lemma wp_guarded {A} x id staging l (m : M (ctl * W) A) Q s :
  wp m Q (fun _ s' => undone x id s') s →
  wp (mcatch m (abandon id staging l)) Q (fun _ s' => grows cfg x s') s.
Proof. intros H. apply wp_catch. eapply wp_mono; [exact H|done|]. intros e s' He. by apply abandon_spec. Qed.

Lemma wp_finally_fs {A} (m : M (ctl * W) A) f (Q : A → ctl * W → Prop) (E0 : ctl * W → Prop) s :
  fs_keeps f → (∀ a, fs_closed (Q a)) → fs_closed E0 → (∀ a s', Q a s' → E0 s') →
  wp m Q (fun _ s' => E0 s') s → wp (mfinally m f) Q (fun _ s' => E0 s') s.
Proof.
  intros Hf HQ HE HQE H. apply wp_finally. eapply wp_mono; [exact H| |].
  - intros a s' Hs'. by apply (wp_end_fs (Q a)); eauto.
  - intros e s' Hs'. by apply (wp_end_fs E0); eauto.
Qed.

Lemma wp_quiesce {A} (P E0 : ctl * W → Prop) (Q : A → ctl * W → Prop) pid body s :
  fs_closed P → (∀ a, fs_closed (Q a)) → fs_closed E0 → (∀ s', P s' → E0 s') → (∀ a s', Q a s' → E0 s') → P s →
  (∀ s', P s' → wp body Q (fun _ s'' => E0 s'') s') →
  wp (quiesce_for_checkpoint cfg pid body) Q (fun _ s' => E0 s') s.
Proof.
  intros HP HQ HE HPE HQE Hs Hb. unfold quiesce_for_checkpoint.
  apply (wp_bind_fs P); [auto with deltabox|done|done| |auto]. intros fd s1 H1.
  apply wp_finally_fs; [auto with deltabox|done..|].
  apply (wp_bind_fs P); [auto with deltabox|done|done| |auto]. intros _ s2 H2.
  apply (wp_bind_fs P); [induction (poll_limit cfg); simpl; fs_auto|done|done| |auto]. intros _ s3 H3.
  apply wp_finally_fs; [fs_auto|done..|]. by apply Hb.
Qed.

Lemma captured_closed x parent info : fs_closed (captured cfg x parent info).
Proof.
  intros s s' Hs (C1 & C2 & C3 & C4). pose proof (grows_closed cfg x _ _ Hs C1) as G.
  destruct Hs as [E _]. unfold captured, added in *. rewrite E. done.
Qed.

(** The entry is registered from a state whose new layers are in place. *)
Lemma register_async x parent_id parent id final layers dirty warm dump_pid rs s :
  fs_ok cfg x → id_fresh cfg x id → sink_post cfg x (node_layers cfg x parent_id) (layers, dirty) s →
  let info := async_entry id final parent_id parent layers dirty warm dump_pid rs s.1 in
  let s' := (set_reg (dset id info (reg s.1)) s.1, s.2) in
  captured cfg x parent_id info s' ∧ undone x id s'.
Proof.
  intros Hok Hid Hsp info s'. pose proof Hid as (_ & Hi1 & Hi2 & _). pose proof Hsp as (Hk & Hne & Hls & Hat). cbn [fst] in *.
  assert (reg s.1 = f_reg x) as Hreg by (destruct Hk as (_ & _ & E & _); by destruct s).
  assert (id ∉ dkeys (f_reg x)) as Hi1' by (unfold f_saved in Hi1; by rewrite dkeys_dmap in Hi1).
  assert (dget id (f_reg (fst_of s')) = Some info) as Hd.
  { change (f_reg (fst_of s')) with (dset id info (reg s.1)). apply dget_dset_eq. }
  assert (grows cfg x s') as Hg.
  { destruct s as [c w]. apply (register_one cfg x c w id info); [by apply layers_kept_grows|done..]. }
  split.
  - split; [done|]. split; [done|]. split; [|].
    + split_and!; [| |unfold f_saved in Hi2; by rewrite dkeys_dmap in Hi2|done|done].
      * intros i e. change (f_reg (fst_of s')) with (dset id info (reg s.1)).
        destruct (decide (id = i)) as [<-|Hn]; [rewrite dget_dset_eq; intros [= <-]; auto|].
        rewrite dget_dset_ne, Hreg by done. auto.
      * done.
    + intros H. specialize (Hat H). destruct s as [c w]. exact Hat.
  - unfold undone. assert (popped id s' = (set_reg (reg s.1) s.1, s.2)) as ->.
    { unfold popped, s'. cbn [fst snd reg set_reg]. rewrite dpop_dset_fresh by by rewrite Hreg. by destruct s as [[] ?]. }
    destruct s as [[] w]. by apply layers_kept_grows.
Qed.

Hint Resolve fs_is_pidns_init fs_bootstrap fs_request_stash fs_wait_pid_stopped fs_validate_resources
  fs_validate_children : deltabox.

(** The sunk layers, from the worker being stopped to its being continued. *)
Lemma quiesced_spec x parent_id id s allowed :
  fst_of s = x → root_overlays s.1 = None → fs_ok cfg x → id_fresh cfg x id →
  wp (quiesce_for_checkpoint cfg allowed
        (c ← getc;
         resources ← validate_replay_resources (agent_pid c) (overlay_mount_point cfg) (protected_pids c)
                       DEFAULT_FIFOS DEFAULT_STDIO;
         c ← getc;
         logical ← match parent_id with
                   | Some p => if bool_decide (p = "") then mret None
                               else match dget p (reg c) with Some e => mret (Some e) | None => mraise KeyError p end
                   | None => mret None
                   end;
         sunk ← async_sink cfg id logical;
         mret (resources, sunk)))
     (fun r s' => sink_post cfg x (node_layers cfg x parent_id) r.2 s') (fun _ s' => layers_kept cfg x s') s.
Proof.
  intros Hx Hro Hok Hid.
  assert (layers_kept cfg x s) as K0 by (rewrite <- Hx in Hok |- *; split_and!; [done|apply keeps_layers_refl|done|done]).
  assert (∀ s', same_fs s s' → layers_kept cfg x s') as SK by (intros s' H; by eapply layers_kept_closed).
  pose proof (same_fs_closed s) as HS.
  apply (wp_quiesce (same_fs s)); [done|intros a; apply sink_post_closed|apply layers_kept_closed|done| |done|].
  { intros a s' H. by destruct H. }
  intros s1 H1. apply wp_bind. unfold wp at 1, getc.
  apply (wp_bind_fs (same_fs s)); [auto with deltabox|done|done| |auto]. intros rs s2 H2. apply wp_bind. unfold wp at 1, getc.
  assert (reg s2.1 = f_reg x) as Hr by (destruct H2 as [E _]; apply (f_equal f_reg) in E; rewrite Hx in E; by destruct s2).
  rewrite Hr. destruct (node_layers_ok cfg x parent_id Hok) as [Hne Hin].
  apply wp_bind, (wp_mono _ (fun lo s' => same_fs s s' ∧ sink_base lo = node_layers cfg x parent_id)
                    _ (fun _ s' => layers_kept cfg x s')); [| |done].
  - unfold node_layers. destruct parent_id as [p|]; [|by apply wp_ret]. case_bool_decide; [by apply wp_ret|].
    unfold f_saved. rewrite dget_dmap. destruct (dget p (f_reg x)); [by apply wp_ret|]. apply wp_raise. by apply SK.
  - intros lo s3 [H3 Hlo]. rewrite <- Hlo. rewrite <- Hlo in Hne, Hin.
    assert (fst_of s3 = x) as Hx3 by (destruct H3 as [E _]; congruence).
    apply wp_bind. eapply wp_mono; [apply (async_sink_spec x id lo s3); try done| |done].
    { destruct H3 as [_ E]. congruence. }
    intros r s4 H4. by apply wp_ret.
Qed.

Lemma transaction_spec x parent_id parent id final staging s :
  fst_of s = x → root_overlays s.1 = None → fs_ok cfg x → id_fresh cfg x id →
  wp (transaction cfg parent_id parent id final staging) (captured cfg x parent_id) (fun _ s' => grows cfg x s') s.
Proof.
  intros Hx Hro Hok Hid.
  assert (id ∉ dkeys (f_reg x)) as Hi by (destruct Hid as (_ & Hi1 & _); unfold f_saved in Hi1; by rewrite dkeys_dmap in Hi1).
  assert (layers_kept cfg x s) as K0 by (rewrite <- Hx in Hok |- *; split_and!; [done|apply keeps_layers_refl|done|done]).
  assert (∀ s', layers_kept cfg x s' → undone x id s') as KU by (intros; by apply kept_undone).
  assert (∀ s', same_fs s s' → undone x id s') as SU by (intros s' H; by apply KU, (layers_kept_closed cfg x s)).
  pose proof (same_fs_closed s) as HS. pose proof (undone_closed x id) as HU.
  unfold transaction. cbv zeta.
  apply wp_bind, (wp_mono _ (fun _ s' => same_fs s s') _ (fun _ s' => grows cfg x s')); [| |done].
  { apply wp_guarded. apply (wp_end_fs (same_fs s)); [fs_auto|done|done|done|auto]. }
  intros [warm attempted] s1 H1.
  apply wp_bind, (wp_mono _ (fun r s' => sink_post cfg x (node_layers cfg x parent_id) r.2 s') _ (fun _ s' => grows cfg x s')); [| |done].
  { apply wp_guarded. destruct (_ && _); [apply wp_raise; auto|]. apply wp_bind. unfold wp at 1, getc.
    apply (wp_bind_fs (same_fs s)); [auto with deltabox|done|done| |auto]. intros [] s2 H2; [apply wp_raise; auto|].
    apply wp_bind. eapply wp_mono; [apply (quiesced_spec x parent_id id s2); try done| |auto].
    1,2: destruct H2 as [E1 E2]; congruence.
    intros [rs sunk] s3 H3. cbn [snd] in H3. apply wp_bind, wp_lift. destruct (dump_child_contract rs); [by apply wp_ret|].
    apply KU. by destruct H3. }
  intros [[rs child] [layers dirty]] s2 H2. cbn [snd] in H2.
  set (SP := sink_post cfg x (node_layers cfg x parent_id) (layers, dirty)) in *.
  assert (fs_closed SP) as HSP by apply sink_post_closed.
  assert (∀ s', SP s' → undone x id s') as PU by (intros s' H; apply KU; by destruct H).
  apply wp_bind, (wp_mono _ (fun _ => SP) _ (fun _ s' => grows cfg x s')); [| |done].
  { apply wp_guarded. apply (wp_end_fs SP); [fs_auto|done..|auto]. }
  intros warm2 s3 H3. apply wp_bind, (wp_mono _ (fun _ => SP) _ (fun _ s' => grows cfg x s')); [| |done].
  { apply wp_guarded. apply (wp_end_fs SP); [fs_auto|done..|auto]. }
  intros dump_pid s4 H4. apply wp_bind, (wp_mono _ (fun _ => SP) _ (fun _ s' => grows cfg x s')); [| |done].
  { apply wp_guarded. apply (wp_end_fs SP); [fs_auto|done..|auto]. }
  intros fd s5 H5. apply wp_bind, (wp_mono _ (fun _ => SP) _ (fun _ s' => grows cfg x s')); [| |done].
  { apply wp_guarded. apply (wp_end_fs SP); [fs_auto|done..|auto]. }
  intros _ s6 H6. apply wp_guarded. apply wp_bind, wp_mod_async. set (s7 := (set_async _ _, _)).
  assert (SP s7) as H7 by (eapply HSP; [|exact H6]; by destruct s6). clearbody s7. clear H6.
  apply wp_bind. unfold wp at 1, getc. cbv zeta. apply wp_bind. unfold wp at 1, modc.
  destruct (register_async x parent_id parent id final layers dirty (default 0%Z warm2) (default 0%Z dump_pid) rs s7 Hok Hid H7)
    as [Hc Hu]. cbv zeta in Hc, Hu.
  set (info := async_entry _ _ _ _ _ _ _ _ _ _) in *. set (s8 := (set_reg _ _, _)) in *.
  set (R := fun s' => captured cfg x parent_id info s' ∧ undone x id s').
  assert (fs_closed R) as HR by (intros t t' Ht [G1 G2]; split; [by eapply captured_closed|by eapply HU]).
  apply (wp_bind_fs R); [auto with deltabox|done|done| |by intros ? ? []]. intros _ s9 H9.
  apply wp_bind, wp_mod_async, wp_ret. assert (R (set_async (set_job id (Job info parent staging final fd Queued) (async s9.1)) s9.1, s9.2))
    as [H10 _] by (eapply HR; [|exact H9]; by destruct s9). exact H10.
Qed.

(** What a checkpoint of either kind promises. *)
Lemma async_checkpoint_spec parent_id tag raw ops s :
  fs_ok cfg (fst_of s) → root_overlays s.1 = None → ids_fresh cfg s →
  wp (async_checkpoint cfg parent_id tag raw ops) (captured cfg (fst_of s) parent_id)
     (fun _ s' => grows cfg (fst_of s) s') s.
Proof.
  intros Hok Hro Hfresh. set (x := fst_of s) in *.
  assert (layers_kept cfg x s) as K0 by (split_and!; [done|apply keeps_layers_refl|done|done]).
  assert (∀ s', same_fs s s' → grows cfg x s') as SG.
  { intros s' H. apply layers_kept_grows. by eapply layers_kept_closed. }
  pose proof (same_fs_closed s) as HS. unfold async_checkpoint, get_async.
  apply (wp_bind_fs (same_fs s)); [fs_auto|done|done| |auto]. intros a s1 H1.
  destruct (truthy _); [apply wp_raise; auto|]. case_bool_decide; [apply wp_raise; auto|].
  apply (wp_bind_fs (same_fs s)); [unfold physical_parent; fs_auto|done|done| |auto]. intros parent s2 H2.
  assert (fst_of s2 = x ∧ root_overlays s2.1 = None) as [Hx2 Hro2] by (destruct H2 as [E1 E2]; rewrite E1, E2; done).
  case_bool_decide.
  { destruct parent as [p|]; [|apply wp_raise; auto]. rewrite <- Hx2. apply checkpoint_spec; rewrite ?Hx2; try done.
    intros d w1 n w2 Hd Hk. rewrite Hx2. apply (Hfresh d); [done|]. rewrite Hk. destruct H2 as [E _].
    apply (f_equal f_k) in E. destruct s, s2. exact E. }
  apply (wp_bind_fs (same_fs s)); [|done|done| |auto].
  { destruct (0 <? a_slots a)%Z; [fs_auto|apply fs_wait_writers]. }
  intros _ s3 H3. apply (wp_bind_fs (same_fs s)); [fs_auto|done|done| |auto]. intros a' s4 H4.
  destruct (negb _); [apply wp_raise; auto|].
  apply wp_bind, wp_mod_async. set (s5 := (set_async _ _, _)). assert (same_fs s s5) as H5 by (eapply HS; [|exact H4]; by destruct s4).
  clearbody s5. apply wp_bind. eapply wp_mono; [by apply (wp_draw cfg _ s); [apply draws_UuidHex|..]| |auto].
  intros id s6 [H6 Hid]. cbv zeta. apply transaction_spec; [by destruct H6|by destruct H6; congruence|done|done].
Qed.

Lemma checkpoint_action_spec parent_id tag raw ops s :
  fs_ok cfg (fst_of s) → root_overlays s.1 = None → ids_fresh cfg s →
  wp (checkpoint_action cfg parent_id tag raw ops) (captured cfg (fst_of s) parent_id)
     (fun _ s' => grows cfg (fst_of s) s') s.
Proof.
  intros. unfold checkpoint_action. destruct (async_incremental cfg); [by apply async_checkpoint_spec|by apply checkpoint_spec].
Qed.

(** A drawn id has no future yet. *)
Definition futs_fresh s : Prop :=
  ∀ d w1 id w2, draws_id d → kabs w1 = kabs s.2 → os_call d w1 = (Ok id, w2) → a_futs (async s.1) !! id = None.
End fs.
End AsyncSpec.
