(* ===== verification/Controller.v ===== *)
(** * The controller as a whole

    The operations of [SandboxController] as steps of one transition system,
    interleaved with what runs beside them: processes that write through the
    mount, the writers of asynchronous dumps, and background threads (dump
    callbacks, template deaths, lazy daemons) that leave the layer stack and
    the asynchronous dumps alone.  Operations may raise at any
    point.  The theorems say what a client may rely on: a restore brings back
    the files of the checkpoint, in whatever order other operations come
    between; redirections of lightweight checkpoints always lead to an entry
    with an image of its own; a refused restore has changed nothing. *)

From S2P Require Import Prelude Hoare PyStr PyDict Registry Overlay RootOverlay Host Process Checkpoint.
From S2P Require Import LazyPages AsyncCheckpoint Restore FsSpec GcSpec AsyncSpec Incremental Sim.
From Stdlib Require Import Ascii.

Module Controller.
Import Process Checkpoint LazyPages AsyncCheckpoint Restore FsSpec GcSpec AsyncSpec Incremental.

Section system.
Context {W : Type} `{!KernelOverlay W} `{!MountHost W} `{!Host W} (cfg : config).
#[local] Existing Instance layers_only.
Implicit Types (s : ctl * W).

(** One event.  The ids drawn by a checkpoint or a restore are unused. *)
Inductive step : ctl * W → ctl * W → Prop :=
  | step_checkpoint parent tag raw ops s : ids_fresh cfg s → futs_fresh s →
      step s (checkpoint_action cfg parent tag raw ops s).2
  | step_restore i allow s : ids_fresh cfg s → step s (restore_action cfg i allow s).2
  | step_gc n ids s : step s (gc_body cfg n ids s).2
  | step_write c w w' : RootOverlay.proc_write (mount_fd cfg) (kabs w) (kabs w') → step (c, w) (c, w')
  | step_writer e s : step s (writer_step cfg e s).2
  | step_other s s' : same_fs s s' → async s'.1 = async s.1 → step s s'.

(** What every event keeps. *)
Definition inv s : Prop := fs_ok cfg (fst_of s) ∧ root_overlays s.1 = None.

(** An entry that stays keeps its layers' content. *)
Definition preserved s s' : Prop :=
  ∀ i e, dget i (reg s.1) = Some e → dhas i (reg s'.1) = true →
    dget i (reg s'.1) = Some e ∧ ∀ y, chain_view (fst_of s') (e_layers e) y = chain_view (fst_of s) (e_layers e) y.

Lemma f_reg_of s : f_reg (fst_of s) = reg s.1.
Proof. by destruct s. Qed.
Lemma f_saved_of s i : dget i (f_saved (fst_of s)) = e_layers <$> dget i (reg s.1).
Proof. unfold f_saved. by rewrite dget_dmap, f_reg_of. Qed.
Lemma reg_layers s i e p : dget i (reg s.1) = Some e → p ∈ e_layers e → p ∈ layers_of cfg (fst_of s).
Proof. intros He Hp. apply (saved_in_layers cfg _ i (e_layers e)); [|done]. by rewrite f_saved_of, He. Qed.

Lemma preserved_refl s : preserved s s.
Proof. done. Qed.

Lemma grows_preserved s s' : grows cfg (fst_of s) s' → preserved s s'.
Proof.
  intros (_ & Hk & _ & Hg) i e He _. rewrite !f_reg_of in Hg. split; [by apply Hg|].
  intros y. apply (keeps_layers_view cfg); [done|]. intros p. by apply (reg_layers s i).
Qed.

Lemma same_preserved s s' : same_fs s s' → inv s → inv s' ∧ preserved s s'.
Proof.
  intros [E1 E2] Hi. unfold inv. rewrite E1, E2. split; [done|]. intros i e He _.
  rewrite <- f_reg_of, E1, f_reg_of. done.
Qed.

Lemma step_keeps s s' : base_apart cfg → inv s → step s s' → inv s' ∧ preserved s s'.
Proof.
  intros Hb Hi H. revert Hi.
  destruct H as [parent tag raw ops s1 Hf _|i allow s1 Hf|n ids s1|c w w' Hw|e s1|s1 s2 Hs _]; intros [Hok Hro].
  - pose proof (checkpoint_action_spec cfg parent tag raw ops s1 Hok Hro Hf) as H. unfold wp in H.
    assert (grows cfg (fst_of s1) (checkpoint_action cfg parent tag raw ops s1).2) as Hg.
    { destruct (checkpoint_action _ _ _ _ _ _) as [[a|e] s']; [by destruct H|done]. }
    split; [by destruct Hg as (? & _ & ? & _)|by apply grows_preserved].
  - pose proof (restore_spec cfg i allow s1 Hok Hro Hf) as H. unfold wp in H.
    assert (layers_kept cfg (fst_of s1) (restore_action cfg i allow s1).2) as Hg.
    { destruct (restore_action _ _ _ _) as [[a|e] s']; [|done]. by destruct H as (? & ? & _ & _ & ? & _). }
    apply layers_kept_grows in Hg.
    split; [by destruct Hg as (? & _ & ? & _)|by apply grows_preserved].
  - assert (upper_apart cfg (current_upper s1.1)) as Hu by (destruct s1; apply (ok_upper _ _ Hok)).
    pose proof (gc_body_spec cfg n ids s1 Hb Hu) as H. unfold wp in H.
    assert (collected cfg s1 (gc_body cfg n ids s1).2) as Hc by by destruct (gc_body _ _ _ _) as [[a|e] s']; [destruct H|].
    split; [split; [by apply (collected_ok cfg s1)|]; destruct Hc as (_ & _ & _ & E & _); by rewrite E|].
    intros i e He Hi. apply dhas_true in Hi as [e' He']. pose proof Hc as (_ & _ & _ & _ & C5 & _).
    pose proof (C5 _ _ He') as He2. rewrite He in He2. injection He2 as <-. split; [done|].
    apply (collected_views cfg); [done|]. intros p Hp. apply layers_protected; [done|]. by eapply reg_layers.
  - destruct Hw as (Ho & m & l & Hm & Hd).
    assert (∀ p, p ∈ layers_of cfg (fst_of (c, w)) → k_dirs (kabs w') !! p = k_dirs (kabs w) !! p) as Hkeep.
    { intros p Hp. destruct (ok_layers _ _ Hok p Hp) as (_ & _ & _ & Hmu & _). rewrite Hd, lookup_insert_ne; [done|].
      intros <-. by apply (Hmu m). }
    split; [split; [|done]|].
    + destruct Hok as [H1 H2 H3 H4 H5]. constructor; try done; cbn [fst_of fs_part fs_of f_k fst snd] in *.
      * by rewrite Ho.
      * intros p Hp. destruct (H3 p Hp) as (G1 & G2 & G3 & G4 & G5). unfold layer_ok.
        cbn [fst_of fs_part fs_of f_k f_upper fst snd] in *. rewrite Ho, Hkeep by done. done.
    + intros i e He _. split; [done|]. intros y. apply (keeps_layers_view cfg); [exact Hkeep|]. intros p. by eapply (reg_layers (c, w)).
  - pose proof (wp_fs (writer_step cfg e) (fun _ => same_fs s1) (fun _ => same_fs s1) s1 (fs_writer_step cfg e)) as H.
    unfold wp in H. apply same_preserved; [|done]. by destruct (writer_step cfg e s1) as [[?|?] ?]; apply H.
  - by apply same_preserved.
Qed.

(** Events after each of which [id] is still registered. *)
Definition kstep (id : string) s s' : Prop := step s s' ∧ dhas id (reg s'.1) = true.

Lemma ksteps_keep id s s' e :
  base_apart cfg → inv s → rtc (kstep id) s s' → dget id (reg s.1) = Some e →
  inv s' ∧ dget id (reg s'.1) = Some e ∧ ∀ y, chain_view (fst_of s') (e_layers e) y = chain_view (fst_of s) (e_layers e) y.
Proof.
  intros Hb Hi Hr. revert Hi. induction Hr as [s|s1 s2 s3 [Hs Hd] Hr IH]; intros Hi He; [done|].
  destruct (step_keeps s1 s2 Hb Hi Hs) as [Hi2 Hp]. destruct (Hp id e He Hd) as [He2 Hv2].
  destruct (IH Hi2 He2) as (G1 & G2 & G3). split_and!; [done|done|]. intros y. by rewrite G3.
Qed.

(** The strategy decides whether an entry redirects. *)
Lemma checkpoint_run parent tag raw ops s info s1 :
  inv s → ids_fresh cfg s → checkpoint_action cfg parent tag raw ops s = (Ok info, s1) →
  captured cfg (fst_of s) parent info s1.
Proof.
  intros [Hok Hro] Hf Hrun. pose proof (checkpoint_action_spec cfg parent tag raw ops s Hok Hro Hf) as H.
  unfold wp in H. by rewrite Hrun in H.
Qed.
Lemma restore_run i allow s path s1 :
  inv s → ids_fresh cfg s → restore_action cfg i allow s = (Ok path, s1) →
  ∃ eff ls, restore_target (reg s.1) i = Some eff ∧ dget eff (f_saved (fst_of s)) = Some ls ∧ restored cfg (fst_of s) ls s1.
Proof.
  intros [Hok Hro] Hf Hrun. pose proof (restore_spec cfg i allow s Hok Hro Hf) as H.
  unfold wp in H. by rewrite Hrun in H.
Qed.

(** C1: the promise of the controller.  Take a checkpoint with an image of its
    own (any strategy but "lightweight"), synchronous or asynchronous, while the mount shows the parent's
    layers; let any events follow, further checkpoints, restores, garbage
    collections, writes by the sandboxed processes, background activity,
    completed or cut short by exceptions, as long as the checkpoint stays
    registered; when a restore to it then returns, the mount shows exactly the
    files of the moment of the checkpoint, and the next checkpoint may build on
    the restored node. *)
Theorem checkpoint_restore_roundtrip parent tag raw ops allow s info s1 s2 path s3 :
  base_apart cfg → inv s → ids_fresh cfg s → at_layers cfg (fst_of s) (node_layers cfg (fst_of s) parent) →
  checkpoint_action cfg parent tag raw ops s = (Ok info, s1) →
  e_strategy info ≠ "lightweight" →
  rtc (kstep (e_id info)) s1 s2 → ids_fresh cfg s2 →
  restore_action cfg (e_id info) allow s2 = (Ok path, s3) →
  (∀ y, current_view cfg (fst_of s3) y = current_view cfg (fst_of s) y) ∧
  at_layers cfg (fst_of s3) (e_layers info).
Proof.
  intros Hb Hi Hf Hat Hrun Hst Hr Hf2 Hrun2.
  destruct (checkpoint_run _ _ _ _ _ _ _ Hi Hf Hrun) as (Hg & Hd & (_ & _ & _ & Heff) & Hcap).
  destruct (Hcap Hat) as (_ & _ & Hv). rewrite f_reg_of in Hd.
  assert (inv s1) as Hi1 by (destruct Hg as (? & _ & ? & _); done).
  destruct (ksteps_keep _ _ _ _ Hb Hi1 Hr Hd) as (Hi2 & Hd2 & Hv2).
  destruct (restore_run _ _ _ _ _ Hi2 Hf2 Hrun2) as (eff & ls & Ht & Hls & _ & Hat3 & Hv3).
  rewrite bool_decide_eq_false_2 in Heff by done.
  unfold restore_target in Ht. rewrite Hd2 in Ht. simpl in Ht. rewrite Heff in Ht. injection Ht as <-.
  rewrite f_saved_of, Hd2 in Hls. injection Hls as <-. split; [|done].
  intros y. by rewrite Hv3, Hv2.
Qed.

(** ** Redirections *)

(** Every entry that redirects leads to a registered entry that does not. *)
Definition redirects_ok (r : registry) : Prop :=
  ∀ i e, dget i r = Some e →
    match e_effective_restore_id e with
    | None => True
    | Some None => False
    | Some (Some t) => ∃ et, dget t r = Some et ∧ e_effective_restore_id et = None
    end.

Lemma redirects_same r r' : (∀ i, dget i r' = dget i r) → redirects_ok r → redirects_ok r'.
Proof. intros E H i e He. rewrite E in He. specialize (H i e He). repeat case_match; try done. by setoid_rewrite E. Qed.

(** A redirection that leads to a registered entry with an image of its own. *)
Definition whole (r : registry) (e : entry) : Prop :=
  match e_effective_restore_id e with
  | None => True
  | Some None => False
  | Some (Some t) => ∃ et, dget t r = Some et ∧ e_effective_restore_id et = None
  end.

Lemma redirects_whole r : redirects_ok r ↔ ∀ i e, dget i r = Some e → whole r e.
Proof. done. Qed.

(** A restore of an entry whose redirection dangles fails, before anything
    outside the controller changes. *)
Lemma dangling_restore i e allow s :
  dget i (reg s.1) = Some e →
  match e_effective_restore_id e with Some (Some t) => t ≠ i ∧ dget t (reg s.1) = None | Some None => True | None => False end →
  is_Ok (restore_action cfg i allow s).1 = false.
Proof.
  intros He Hd. assert (is_Ok (resolve_target cfg i allow s).1 = false) as H.
  { pose proof (resolve_spec cfg i allow s) as H. unfold wp in H.
    destruct (resolve_target cfg i allow s) as [[p|x] s']; [|done]. exfalso. destruct H as (_ & _ & Ht & Hp).
    unfold restore_target in Ht. rewrite He in Ht. simpl in Ht.
    destruct (e_effective_restore_id e) as [[t|]|]; [|done|done]. injection Ht as Ht. rewrite Ht in Hd. destruct Hd. congruence. }
  unfold restore_action, mbind, M_bind. by destruct (resolve_target cfg i allow s) as [[p|x] s'].
Qed.

(** C3: what a checkpoint does to redirections.  Those that were whole stay
    whole.  A checkpoint that is not lightweight does not redirect.  A
    lightweight one under a registered parent redirects, in one hop, to the
    parent if that has an image of its own and else to where the parent
    redirects, so that it is whole if the parent is.  The code does not check
    that the parent is registered: without one the new entry redirects to the
    parent id as it was given, and as long as no entry of that name appears
    every restore of it fails. *)
Theorem checkpoint_redirects parent tag raw ops s info s1 :
  inv s → ids_fresh cfg s → checkpoint_action cfg parent tag raw ops s = (Ok info, s1) →
  (∀ i e, dget i (reg s.1) = Some e → whole (reg s.1) e → dget i (reg s1.1) = Some e ∧ whole (reg s1.1) e) ∧
  (e_strategy info ≠ "lightweight" → e_effective_restore_id info = None) ∧
  (e_strategy info = "lightweight" →
     match (p ← parent; ep ← dget p (reg s.1); Some (p, ep)) with
     | Some (p, ep) => e_effective_restore_id info = Some (default (Some p) (e_effective_restore_id ep)) ∧
                       (whole (reg s.1) ep → whole (reg s1.1) info)
     | None => e_effective_restore_id info = Some parent ∧
               ∀ allow, parent ≠ Some (e_id info) → (∀ p, parent = Some p → dget p (reg s1.1) = None) →
                 is_Ok (restore_action cfg (e_id info) allow s1).1 = false
     end).
Proof.
  intros Hi Hf Hrun.
  destruct (checkpoint_run _ _ _ _ _ _ _ Hi Hf Hrun) as ((_ & _ & _ & Hmono) & Hd & (Hnew & _ & _ & Heff) & _).
  rewrite !f_reg_of in Hmono, Hd, Hnew, Heff.
  assert (∀ e, whole (reg s.1) e → whole (reg s1.1) e) as Hw.
  { intros e. unfold whole. destruct (e_effective_restore_id e) as [[t|]|]; try done. intros (et & ? & ?). eauto. }
  split; [intros i e He Hwe; eauto|]. split; intros Hl; rewrite Heff; [by rewrite bool_decide_eq_false_2|].
  rewrite bool_decide_eq_true_2 by done. unfold lightweight_keys. destruct parent as [p|]; cbn [mbind option_bind] in *.
  2: { split; [done|]. intros allow _ _. eapply dangling_restore; [exact Hd|]. rewrite Heff, bool_decide_eq_true_2 by done. done. }
  destruct (dget p (reg s.1)) as [ep|] eqn:Hp; cbn [mbind option_bind].
  - split; [by destruct (e_effective_restore_id ep)|]. intros Hwe. unfold whole. rewrite Heff, bool_decide_eq_true_2 by done.
    unfold lightweight_keys. cbn [mbind option_bind]. rewrite Hp. cbn [fst]. unfold whole in Hwe.
    destruct (e_effective_restore_id ep) as [[t|]|] eqn:Ee; [|done|by eauto]. destruct Hwe as (et & ? & ?). eauto.
  - split; [done|]. intros allow Hne Hno. eapply dangling_restore; [exact Hd|]. rewrite Heff, bool_decide_eq_true_2 by done.
    unfold lightweight_keys. cbn [mbind option_bind]. rewrite Hp. cbn [fst]. split; [congruence|auto].
Qed.

(** So under a registered parent the redirections of all entries stay whole. *)
Lemma redirects_kept parent tag raw ops s info s1 :
  inv s → ids_fresh cfg s → redirects_ok (reg s.1) →
  checkpoint_action cfg parent tag raw ops s = (Ok info, s1) →
  (e_strategy info = "lightweight" → ∃ p, parent = Some p ∧ dhas p (reg s.1) = true) →
  redirects_ok (reg s1.1).
Proof.
  intros Hi Hf Hred Hrun Hpar.
  destruct (checkpoint_run _ _ _ _ _ _ _ Hi Hf Hrun) as ((_ & _ & _ & Hmono) & _ & (Hnew & _ & _ & Heff) & _).
  rewrite !f_reg_of in Hmono, Hnew, Heff. intros i e He. apply Hnew in He as [He|[[_ ->]|(_ & -> & _)]]; [| |done].
  - specialize (Hred i e He). destruct (e_effective_restore_id e) as [[t|]|]; try done.
    destruct Hred as (et & ? & ?). eauto.
  - rewrite Heff. case_bool_decide as Hl; [|done]. destruct (Hpar Hl) as (p & -> & [ep Hp]%dhas_true).
    unfold lightweight_keys. simpl. rewrite Hp. cbn [fst]. specialize (Hred p ep Hp).
    destruct (e_effective_restore_id ep) as [[t|]|] eqn:Ee; [|done|by eauto].
    destruct Hred as (et & ? & ?). eauto.
Qed.

(** A garbage collection that completes keeps the redirections whole. *)
Theorem gc_redirects n ids s s' :
  base_apart cfg → fs_ok cfg (fst_of s) → redirects_ok (reg s.1) →
  gc_body cfg n ids s = (Ok tt, s') → redirects_ok (reg s'.1).
Proof.
  intros Hb Hok Hred Hrun.
  assert (upper_apart cfg (current_upper s.1)) as Hu by (destruct s; apply (ok_upper _ _ Hok)).
  pose proof (gc_body_spec cfg n ids s Hb Hu) as H. unfold wp in H. rewrite Hrun in H.
  destruct H as ((_ & _ & _ & _ & Hsub & _) & _ & Hclo). intros i e He. pose proof (Hsub _ _ He) as He0.
  specialize (Hred i e He0). destruct (e_effective_restore_id e) as [[t|]|] eqn:Ee; [|done|done].
  destruct Hred as (et & Het & Hn). assert (dhas t (reg s'.1) = true) as Ht.
  { apply (Hclo i); [apply dhas_true; by eexists|]. split.
    - unfold links_of. rewrite He0. unfold entry_links. rewrite Ee. cbn. set_solver.
    - apply dget_is_Some. by eexists. }
  apply dhas_true in Ht as [et' Het']. pose proof (Hsub _ _ Het') as E. rewrite Het in E. injection E as <-.
  by exists et.
Qed.

(** C2: under that invariant a restore of a lightweight checkpoint brings back
    the files of the entry it redirects to, which is registered and has an
    image of its own. *)
Theorem lightweight_restore i e t allow s path s' :
  inv s → ids_fresh cfg s → redirects_ok (reg s.1) →
  dget i (reg s.1) = Some e → e_effective_restore_id e = Some (Some t) →
  restore_action cfg i allow s = (Ok path, s') →
  ∃ et, dget t (reg s.1) = Some et ∧ e_effective_restore_id et = None ∧
    at_layers cfg (fst_of s') (e_layers et) ∧
    ∀ y, current_view cfg (fst_of s') y = chain_view (fst_of s) (e_layers et) y.
Proof.
  intros Hi Hf Hred He Heff Hrun. pose proof (Hred i e He) as H. rewrite Heff in H. destruct H as (et & Het & Hn).
  destruct (restore_run _ _ _ _ _ Hi Hf Hrun) as (eff & ls & Ht & Hls & _ & Hat & Hv).
  unfold restore_target in Ht. rewrite He in Ht. simpl in Ht. rewrite Heff in Ht. injection Ht as <-.
  rewrite f_saved_of, Het in Hls. injection Hls as <-. by exists et.
Qed.
(** ** The tree of checkpoints *)

(** The order that makes the search for a parent image terminate is kept
    by a checkpoint under a registered parent (or none) whose new id no entry
    names as its parent. *)
Theorem checkpoint_forest parent tag raw ops s info s1 :
  inv s → ids_fresh cfg s → forest (reg s.1) →
  checkpoint_action cfg parent tag raw ops s = (Ok info, s1) →
  (∀ p, parent = Some p → dhas p (reg s.1) = true) →
  (∀ i e, dget i (reg s.1) = Some e → e_parent_id e ≠ Some (e_id info) ∧ e_parent_id e ≠ Some (e_id info +:+ "_full")) →
  forest (reg s1.1).
Proof.
  intros Hi Hf Hfo Hrun Hpar Hment.
  destruct (checkpoint_run _ _ _ _ _ _ _ Hi Hf Hrun) as (_ & _ & (Hnew & (Hn1 & Hn2) & Hp & _) & _).
  rewrite !f_reg_of in Hnew, Hn1, Hn2.
  assert (∀ n, n ∈ [e_id info; e_id info +:+ "_full"] → n ∉ dkeys (reg s.1)) as Hfr.
  { intros n Hn. apply elem_of_cons in Hn as [Hn|Hn]; [by subst|]. apply list_elem_of_singleton in Hn. by subst. }
  apply (forest_add (reg s.1) _ [e_id info; e_id info +:+ "_full"] Hfo).
  - intros i e He. apply Hnew in He as [He|[[-> ->]|(-> & _ & E)]]; [by left|right..].
    + split; [left|]. intros p Hpp Hin. rewrite Hp in Hpp. apply Hfr in Hin. apply Hin.
      apply dget_is_Some, dhas_true. by apply Hpar.
    + split; [right; left|]. intros p. by rewrite E.
  - intros i e n He Hin. pose proof (Hfr n Hin) as Hn. split.
    + intros ->. apply Hn, dget_is_Some. by eexists.
    + destruct (Hment i e He). apply elem_of_cons in Hin as [Hin|Hin]; [by subst|].
      apply list_elem_of_singleton in Hin. by subst.
Qed.

(** ** Refusals *)

(** The dump of [ph], the image of [eff], is known to have failed. *)
Definition known_failed (c : ctl) (eff : string) (ph : entry) : Prop :=
  e_has_future ph = false ∧ truthy (e_dump_error ph) || truthy (stat_err c !! eff) = true.

(** a cold restore of a checkpoint whose dump is known to have failed is
    refused before anything happens to the sandbox: no process is signalled,
    no directory made, no layer switched; the only trace is the id of the last
    restore target. *)
Theorem restore_refuses_failed_image i eff ph allow s :
  restore_target (reg s.1) i = Some eff → dget eff (reg s.1) = Some ph →
  dget eff (templates s.1) = None → known_failed s.1 eff ph →
  ∃ e, restore_action cfg i allow s = (Err e, (set_last_restore_target_id (Some i) s.1, s.2)) ∧
       exn_cls e = if allow then DumpUnavailableError else RuntimeError.
Proof.
  destruct s as [c w]. unfold restore_target, restore_action, resolve_target. cbn [fst snd].
  destruct (dget i (reg c)) as [t|] eqn:Ht; [|done]. cbn [mbind option_bind].
  intros Heff Hph Htp [Hfut Herr].
  assert (template_get eff (set_last_restore_target_id (Some i) c, w) = (Ok None, (set_last_restore_target_id (Some i) c, w))) as Etg.
  { unfold template_get, mbind, M_bind, getc. cbn [fst templates set_last_restore_target_id]. by rewrite Htp. }
  assert ((if enable_warm_template cfg then template_get eff else mret None) (set_last_restore_target_id (Some i) c, w)
          = (Ok None, (set_last_restore_target_id (Some i) c, w))) as Et by by destruct (enable_warm_template cfg).
  unfold mbind, M_bind, getc at 1. cbn [fst snd]. rewrite Ht. unfold modc at 1. cbn [fst snd].
  assert (match e_effective_restore_id t with Some v => v | None => Some i end = Some eff) as -> by done.
  unfold mbind, M_bind in Et. rewrite Et.
  replace (if env_force_criu_restore cfg then None else None) with (@None Z) by by destruct (env_force_criu_restore cfg).
  destruct allow; [|by eexists]. cbn [negb is_some andb].
  match goal with |- context [ (if bool_decide (eff = i) then ?a else ?b) ] =>
    assert ((if bool_decide (eff = i) then a else b) = mret (Plan eff ph (e_replay_cmds t) None)) as -> end.
  { case_bool_decide as E; [|by rewrite Hph]. subst eff. rewrite Ht in Hph. by injection Hph as ->. }
  unfold cold_prerequisites, join_durable_dump, check_dump_error, mbind, M_bind, mret, M_ret, getc.
  cbn [warm physical effective_id fst snd stat_err set_last_restore_target_id]. rewrite Hfut. cbn [negb].
  change (stat_err (set_last_restore_target_id (Some i) c, w).1) with (stat_err c). rewrite Herr.
  by eexists.
Qed.

(** ** Shutdown *)

Lemma shrinks_root op : shrinks (on_root_overlays (W:=W) op).
Proof.
  intros z [c w] Hs. unfold wp, on_root_overlays. cbn [fst snd]. destruct (root_overlays c) as [os|]; [|done].
  destruct (op os w) as [[?|?] [? ?]]; done.
Qed.
Lemma shrinks_try {A} (m : M (ctl * W) A) h : shrinks m → (∀ e, shrinks (h e)) → shrinks (mtry any_exn m h).
Proof. intros Hm Hh z. apply keeps_catch; [apply Hm|]. intros e. apply Hh. Qed.

(** a shutdown that completes leaves no idle lazy-pages daemon behind,
    even when the prestart worker still completes queued starts while it is
    waited for, and whatever else fails on the way. *)
Theorem shutdown_leaves_no_idle s s' :
  (1 <= lazy_prestart_max cfg)%Z → lazy_ok cfg (lazy s.1) → shutdown cfg s = (Ok tt, s') →
  closing (lazy s'.1) = true ∧ prestarted (lazy s'.1) = [].
Proof.
  intros Hmax Hok Hrun. set (z0 := lazy s.1).
  set (P := fun s : ctl * W => settled cfg z0 (lazy s.1)). set (Q := fun s : ctl * W => closed (lazy s.1)).
  assert (P s) as HP by by split_and!.
  assert (∀ A (m : M (ctl * W) A) s, shrinks m → Q s → wp m (fun _ => Q) (fun _ => Q) s) as HQ.
  { intros A m s1 Hm H1. eapply wp_mono; [apply (Hm (lazy s1.1)), shrink_refl| |]; intros ? s2 H;
      (eapply shrink_closed; [exact H|exact H1]). }
  enough (wp (shutdown cfg) (fun _ => Q) (fun _ _ => True) s) as H by (unfold wp in H; by rewrite Hrun in H).
  unfold shutdown. apply wp_bind. eapply (wp_mono _ (fun _ => P) _ (fun _ => P)); [|intros _ s1 H1|done].
  { apply shrinks_settled; [|done]. apply shrinks_try; [apply shrinks_call|intros; apply shrinks_ret]. }
  apply wp_bind. eapply wp_mono; [by apply (close_spec cfg z0)|intros [] s2 [_ H2]|done].
  assert (shrinks (z ← get_lazy (W:=W);
    _ ← mfor ((readers z).*1) stop_lazy_pages_daemon;
    _ ← mtry any_exn (call (ShutdownPool "criu-restamp")) (fun _ => mret tt);
    _ ← mtry any_exn (call (Rmtree (restamp_cache_root cfg))) (fun _ => mret tt);
    c ← getc;
    match root_overlays c with
    | Some _ => mtry any_exn (on_root_overlays RootOverlay.set_teardown) (fun _ => mret tt)
    | None => mret tt
    end)) as Hs.
  { apply shrinks_bind; [apply shrinks_bind; [apply shrinks_getc|intros; apply shrinks_ret]|]. intros z.
    apply shrinks_bind; [|intros _].
    { apply shrinks_for. intros h. apply shrinks_bind; [apply shrinks_stop|intros; apply shrinks_reap]. }
    apply shrinks_bind; [apply shrinks_try; [apply shrinks_call|intros; apply shrinks_ret]|intros _].
    apply shrinks_bind; [apply shrinks_try; [apply shrinks_call|intros; apply shrinks_ret]|intros _].
    apply shrinks_bind; [apply shrinks_getc|]. intros c. destruct (root_overlays c); [|apply shrinks_ret].
    apply shrinks_try; [apply shrinks_root|intros; apply shrinks_ret]. }
  eapply wp_mono; [by apply HQ|done|done].
Qed.

(** ** Garbage collection *)

(** C4: a collection that completes leaves a registry that is closed under the
    links between entries (every parent, image parent and effective target of a
    remaining entry that was registered still is) and contains every id of the
    base set; and the sandbox sees the same files as before. *)
Theorem gc_keeps_dependencies n ids s s' ls :
  base_apart cfg → inv s → at_layers cfg (fst_of s) ls →
  (∀ p, p ∈ ls → p ∈ layers_of cfg (fst_of s)) →
  gc_body cfg n ids s = (Ok tt, s') →
  (∀ i, i ∈ base_keep n ids (reg s.1) → dget i (reg s'.1) = dget i (reg s.1)) ∧
  (∀ i j, dhas i (reg s'.1) = true → link (reg s.1) i j → dhas j (reg s'.1) = true) ∧
  (∀ i e, dget i (reg s'.1) = Some e → dget i (reg s.1) = Some e ∧
     ∀ y, chain_view (fst_of s') (e_layers e) y = chain_view (fst_of s) (e_layers e) y) ∧
  ∀ y, current_view cfg (fst_of s') y = current_view cfg (fst_of s) y.
Proof.
  intros Hb [Hok _] Hat Hls Hrun.
  assert (upper_apart cfg (current_upper s.1)) as Hu by (destruct s; apply (ok_upper _ _ Hok)).
  pose proof (gc_body_spec cfg n ids s Hb Hu) as H. unfold wp in H. rewrite Hrun in H.
  destruct H as (Hc & Hbase & Hclo). split_and!; [done|done| |].
  - intros i e He. pose proof Hc as (_ & _ & _ & _ & C5 & _). apply C5 in He as He0. split; [done|].
    apply (collected_views cfg s s' (e_layers e) Hc). intros p Hp. apply (layers_protected cfg); [done|].
    apply (saved_in_layers cfg _ i (e_layers e)); [|done]. unfold f_saved. rewrite dget_dmap.
    destruct s. simpl in *. by rewrite He0.
  - apply (collected_views cfg s s' ls Hc); [|done]. intros p Hp. apply (layers_protected cfg); auto.
Qed.
End system.

(** ** A concrete run *)

Section demo.
Import Sim.
#[local] Existing Instance RootOverlay.sim_mount_host.

Definition demo_run {A} (m : M (ctl * simw) A) (s : ctl * simw) : ctl * simw := (m s).2.
(** A standard checkpoint, a write, a lightweight checkpoint on top of it, a
    restore of the first. *)
Definition demo_write (k : kstate) (u : string) : kstate := KState (<[ u := {[ "a.txt" := Some "2" ]} ]> (k_dirs k)) (k_ovl k).
Definition demo_s1 := demo_run (checkpoint_action demo_cfg None "t" "standard" []) demo_s0.
Definition demo_s2 : ctl * simw := (demo_s1.1, (demo_write demo_s1.2.1 (current_upper demo_s1.1), demo_s1.2.2)).
Definition demo_s3 := demo_run (restore_action demo_cfg "id3" true) demo_s2.
Definition demo_s2l := demo_run (checkpoint_action demo_cfg (Some "id3") "u" "lightweight" []) demo_s2.
Definition demo_s3l := demo_run (restore_action demo_cfg "id5" true) demo_s2l.
Definition demo_s3g := demo_run (gc_body demo_cfg 1 (Some ["id5"])) demo_s2l.

Lemma demo_apart : base_apart demo_cfg.
Proof.
  intros name [t ->]%startswith_spec. split; [|reflexivity]. intros H. discriminate H.
Qed.

Lemma demo_inv : inv demo_cfg demo_s0.
Proof.
  split; [|done]. constructor; [done| | | |].
  - exists (Mount ["/base"] "/l/up0"). by vm_compute.
  - intros p Hp. apply list_elem_of_singleton in Hp as ->. split_and!; [done| |done| |by left].
    + eexists. by vm_compute.
    + intros m Hm. vm_compute in Hm. injection Hm as <-. discriminate.
  - intros ls Hls. by apply elem_of_nil in Hls.
  - apply (upper_apart_join demo_cfg "up0"). reflexivity.
Qed.

Lemma demo_at : at_layers demo_cfg (fst_of demo_s0) ["/base"].
Proof. split; [by vm_compute|]. eexists. by vm_compute. Qed.

(** The id the host draws is unused. *)
Definition demo_fresh_b (s : ctl * simw) : bool :=
  let id := sim_uuid s.2 in
  let x := fst_of s in
  bool_decide (has_char "," id = false ∧ has_char ":" id = false ∧ has_char "/" id = false ∧
    id ∉ dkeys (f_saved x) ∧ (id +:+ "_full") ∉ dkeys (f_saved x) ∧
    Forall (λ p, k_dirs (f_k x) !! p = None ∧ f_upper x ≠ p ∧
              (m_upper <$> k_ovl (f_k x) !! mount_fd demo_cfg) ≠ Some p)
      [layer_name demo_cfg id; next_upper_name demo_cfg id; next_work_name demo_cfg id;
       restore_upper_name demo_cfg id; restore_work_name demo_cfg id]).
Lemma demo_fresh s : demo_fresh_b s = true → ids_fresh demo_cfg s.
Proof.
  intros H%bool_decide_eq_true d w1 id w2 [n Hd] Hk Hu.
  assert (id = sim_uuid s.2) as ->.
  { destruct Hd as [-> | ->]; cbn [os_call sim_host sim_call] in Hu; injection Hu as <- _; unfold sim_uuid;
      cbn [kabs sim_kernel] in Hk; by rewrite Hk. }
  destruct H as (H1 & H2 & H3 & H4 & H5 & H6). split; [done|]. split_and!; [done|done|].
  intros p Hp. rewrite Forall_forall in H6. destruct (H6 p Hp) as (G1 & G2 & G3). split_and!; [done|done|].
  intros m Hm E. apply G3. by rewrite Hm, <- E.
Qed.

Definition demo_info (i : string) (s : ctl * simw) : entry :=
  default (twin_entry demo_cfg "" "" [] false (Forks None 0 false None None None) 0 false) (dget i (reg s.1)).

Lemma demo_steps : rtc (kstep demo_cfg "id3") demo_s1 demo_s2.
Proof.
  apply rtc_once. split; [|by vm_compute]. unfold demo_s2. rewrite (surjective_pairing demo_s1) at 1. apply step_write.
  split; [done|]. eexists _, {[ "a.txt" := Some "2" ]}. split; [by vm_compute|by vm_compute].
Qed.

Example checkpoint_restore_roundtrip_witness :
  current_view demo_cfg (fst_of demo_s2) "a.txt" = Some "2" ∧
  (∀ y, current_view demo_cfg (fst_of demo_s3) y = current_view demo_cfg (fst_of demo_s0) y) ∧
  at_layers demo_cfg (fst_of demo_s3) ["/l/layer_id3"; "/base"].
Proof.
  split; [by vm_compute|].
  apply (checkpoint_restore_roundtrip demo_cfg None "t" "standard" [] true demo_s0 (demo_info "id3" demo_s1) demo_s1
    demo_s2 ("warm-template", []) demo_s3 demo_apart demo_inv).
  - apply demo_fresh. by vm_compute.
  - apply demo_at.
  - by vm_compute.
  - by vm_compute.
  - apply demo_steps.
  - apply demo_fresh. by vm_compute.
  - by vm_compute.
Defined.

Lemma demo_inv2 : inv demo_cfg demo_s2.
Proof.
  destruct (ksteps_keep demo_cfg "id3" demo_s1 demo_s2 (demo_info "id3" demo_s1) demo_apart) as [H _]; [|exact demo_steps|by vm_compute|done].
  apply (step_keeps demo_cfg demo_s0 demo_s1 demo_apart demo_inv).
  apply step_checkpoint; [apply demo_fresh; by vm_compute|by intros d w1 id w2 _ _ _].
Qed.
Lemma demo_inv2l : inv demo_cfg demo_s2l.
Proof.
  apply (step_keeps demo_cfg demo_s2 demo_s2l demo_apart demo_inv2).
  apply step_checkpoint; [apply demo_fresh; by vm_compute|by intros d w1 id w2 _ _ _].
Qed.
Lemma demo_redirects2 : redirects_ok (reg demo_s2.1).
Proof.
  intros i e He. apply dget_Some_elem in He. vm_compute in He.
  apply list_elem_of_singleton in He. by injection He as -> ->.
Qed.
Lemma demo_redirects2l : redirects_ok (reg demo_s2l.1).
Proof.
  intros i e He. apply dget_Some_elem in He.
  vm_compute in He. apply elem_of_cons in He as [He|He]; [by injection He as -> ->|].
  apply list_elem_of_singleton in He. injection He as -> ->. cbn [e_effective_restore_id].
  exists (demo_info "id3" demo_s2l). split; by vm_compute.
Qed.

(** A lightweight checkpoint below one with an image, and one below nothing. *)
Definition demo_orphan := demo_run (checkpoint_action demo_cfg None "u" "lightweight" []) demo_s2.
Example checkpoint_redirects_witness :
  e_effective_restore_id (demo_info "id5" demo_s2l) = Some (Some "id3") ∧ whole (reg demo_s2l.1) (demo_info "id5" demo_s2l) ∧
  is_Ok (restore_action demo_cfg "id5" true demo_orphan).1 = false.
Proof.
  split; [by vm_compute|]. split.
  - destruct (checkpoint_redirects demo_cfg (Some "id3") "u" "lightweight" [] demo_s2 (demo_info "id5" demo_s2l) demo_s2l
      demo_inv2) as (_ & _ & H); [apply demo_fresh; by vm_compute|by vm_compute|].
    specialize (H ltac:(vm_compute; reflexivity)).
    assert (∃ ep, dget "id3" (reg demo_s2.1) = Some ep) as [ep Hep] by (eexists; vm_compute; reflexivity).
    cbn [mbind option_bind] in H. rewrite Hep in H. cbn [mbind option_bind] in H. apply H. exact (demo_redirects2 _ _ Hep).
  - destruct (checkpoint_redirects demo_cfg None "u" "lightweight" [] demo_s2 (demo_info "id5" demo_orphan) demo_orphan
      demo_inv2) as (_ & _ & H); [apply demo_fresh; by vm_compute|by vm_compute|].
    specialize (H ltac:(vm_compute; reflexivity)). cbn [mbind option_bind] in H. destruct H as [_ H].
    assert (e_id (demo_info "id5" demo_orphan) = "id5") as E by (vm_compute; reflexivity). rewrite E in H.
    apply H; [discriminate|discriminate].
Defined.

Lemma demo_forest2 : forest (reg demo_s2.1).
Proof.
  exists (λ _, O). intros i e p He. apply dget_Some_elem in He. vm_compute in He.
  apply list_elem_of_singleton in He. injection He as -> ->. cbn [e_parent_id]. intros H. discriminate H.
Qed.

Example checkpoint_forest_witness : forest (reg demo_s2l.1).
Proof.
  apply (checkpoint_forest demo_cfg (Some "id3") "u" "lightweight" [] demo_s2 (demo_info "id5" demo_s2l) demo_s2l
    demo_inv2).
  - apply demo_fresh. by vm_compute.
  - apply demo_forest2.
  - by vm_compute.
  - intros p [= <-]. by vm_compute.
  - intros i e He. apply dget_Some_elem in He. vm_compute in He.
    apply list_elem_of_singleton in He. injection He as -> ->. split; vm_compute; discriminate.
Defined.

Definition demo_failed : ctl * simw :=
  (set_stat_err {[ "v" := "criu failed" ]}
     (set_reg [("v", twin_entry demo_cfg "v" "/s/v" ["/base"] false (Forks None 50 false None None None) 40 true)] demo_c0),
   (demo_k0, [])).
Example restore_refuses_failed_image_witness :
  ∃ e, restore_action demo_cfg "v" true demo_failed =
         (Err e, (set_last_restore_target_id (Some "v") demo_failed.1, demo_failed.2)) ∧
       exn_cls e = DumpUnavailableError.
Proof.
  apply (restore_refuses_failed_image demo_cfg "v" "v" (demo_info "v" demo_failed) true demo_failed); by vm_compute.
Defined.

Definition demo_busy : ctl * simw :=
  (set_lazy (Lazy [(75%Z, "/s/r")] [("/s/a", 70%Z)] ["/s/b"; "/s/c"] [] false) demo_c0, (demo_k0, [])).
Example shutdown_leaves_no_idle_witness :
  closing (lazy (shutdown demo_cfg demo_busy).2.1) = true ∧ prestarted (lazy (shutdown demo_cfg demo_busy).2.1) = [].
Proof.
  apply (shutdown_leaves_no_idle demo_cfg demo_busy); [vm_compute; discriminate| |by vm_compute].
  split_and!; [apply NoDup_singleton|vm_compute; discriminate|]. intros p Hp. by apply elem_of_nil in Hp.
Defined.

Example gc_redirects_witness : dkeys (reg demo_s3g.1) = ["id3"; "id5"] ∧ redirects_ok (reg demo_s3g.1).
Proof.
  split; [by vm_compute|].
  apply (gc_redirects demo_cfg 1 (Some ["id5"]) demo_s2l demo_s3g demo_apart (proj1 demo_inv2l) demo_redirects2l).
  by vm_compute.
Defined.

Example lightweight_restore_witness :
  ∃ et, dget "id3" (reg demo_s2l.1) = Some et ∧ e_effective_restore_id et = None ∧
    at_layers demo_cfg (fst_of demo_s3l) (e_layers et) ∧
    ∀ y, current_view demo_cfg (fst_of demo_s3l) y = chain_view (fst_of demo_s2l) (e_layers et) y.
Proof.
  eapply (lightweight_restore demo_cfg "id5" (demo_info "id5" demo_s2l) "id3" true demo_s2l _ demo_s3l demo_inv2l).
  - apply demo_fresh. by vm_compute.
  - apply demo_redirects2l.
  - by vm_compute.
  - by vm_compute.
  - by vm_compute.
Defined.

Example gc_keeps_dependencies_witness :
  dkeys (reg demo_s3g.1) = ["id3"; "id5"] ∧
  ∀ y, current_view demo_cfg (fst_of demo_s3g) y = current_view demo_cfg (fst_of demo_s2l) y.
Proof.
  split; [by vm_compute|].
  refine (proj2 (proj2 (proj2 (gc_keeps_dependencies demo_cfg 1 (Some ["id5"]) demo_s2l demo_s3g
    (e_layers (demo_info "id5" demo_s2l)) demo_apart demo_inv2l _ _ _)))).
  - split; [by vm_compute|]. vm_compute. by eexists.
  - intros p Hp. apply (reg_layers demo_cfg demo_s2l "id5" (demo_info "id5" demo_s2l)); [by vm_compute|done].
  - by vm_compute.
Defined.
End demo.
End Controller.
