(* ===== verification/Durability.v ===== *)
(** * Durability of asynchronous checkpoints

    The states an asynchronous dump goes through, in every interleaving of the
    controller's operations with the writers: which futures are resolved and
    what a resolved one guarantees for the checkpoint and its physical
    ancestors, how many writers there are, and what the barrier before the
    teardown of a namespace waits for.

    [frame] shows for any property of the dumps and the registry that the
    other operations of the controller keep it; [inv] is the invariant proper. *)

From S2P Require Import Prelude Hoare PyStr PyDict Resources Registry Overlay RootOverlay Host Process AsyncResources Checkpoint.
From S2P Require Import LazyPages AsyncCheckpoint Restore FsSpec GcSpec AsyncSpec Controller Sim.
From Stdlib Require Import Ascii.

Module Durability.
Import Resources Process AsyncResources Checkpoint LazyPages AsyncCheckpoint Restore FsSpec AsyncSpec Controller.

(** ** Operations that are not about asynchronous dumps *)

Section frame.
Context {W : Type} `{!KernelOverlay W} `{!MountHost W} `{!Host W} (cfg : config).
#[local] Existing Instance layers_and_async.

(** A property of the dumps and the registry that survives the removal of an
    entry and the registration of a synchronous checkpoint. *)
Variable I : async_state → registry → Prop.
Hypothesis I_del : ∀ a r i, I a r → I a (dpop i r).
Hypothesis I_add : ∀ a r i e, e_memory_protocol e = None → I a r → I a (dset i e r).
Definition holds (s : ctl * W) : Prop := I (async s.1) (reg s.1).

Lemma holds_fs {A} (m : M (ctl * W) A) : fs_keeps m → keeps holds m.
Proof.
  intros Hm s Hs. eapply wp_mono; [apply (Hm (fs_part s, async_part s)); done| |]; intros ? s' E;
    unfold fs_part, async_part in E; cbn in E; injection E as _ _ _ Er _ Ea; unfold holds; by rewrite Er, Ea.
Qed.
Lemma holds_onw {A} (m : M W A) : keeps holds (onw m).
Proof. intros [c w] Hs. unfold wp, onw. cbn [fst snd]. by destruct (m w) as [[?|?] ?]. Qed.
Lemma holds_root op : keeps holds (on_root_overlays (W:=W) op).
Proof.
  intros [c w] Hs. unfold wp, on_root_overlays. cbn [fst snd]. destruct (root_overlays c) as [os|]; [|done].
  by destruct (op os w) as [[?|?] [? ?]].
Qed.
Lemma holds_getc : keeps holds (getc (W:=W)).
Proof. by intros s Hs. Qed.
Lemma holds_modc f : (∀ c, async (f c) = async c ∧ reg (f c) = reg c) → keeps holds (modc (W:=W) f).
Proof. intros Hf [c w] Hs. destruct (Hf c) as [E1 E2]. unfold wp, modc, holds in *. cbn [fst] in *. by rewrite E1, E2. Qed.
Lemma holds_try {A} p (m : M (ctl * W) A) h : keeps holds m → (∀ e, keeps holds (h e)) → keeps holds (mtry p m h).
Proof. intros Hm Hh. apply keeps_catch; [done|]. intros e. destruct (p e); [apply Hh|apply keeps_throw]. Qed.
Hint Resolve holds_onw holds_root holds_getc : deltabox.

Ltac hold_step :=
  match goal with
  | |- keeps _ (mtry _ _ _) => apply holds_try; [|intros ?]
  | |- keeps _ (modc _) => apply holds_modc; intros ?; done
  | |- keeps _ (let _ := _ in _) => cbv zeta
  | |- keeps _ _ => solve [apply holds_fs; auto with deltabox nocore]
  | |- _ => keeps_step
  end.
Ltac hold_auto := repeat hold_step.

Lemma hold_switch ls u w k : keeps holds (apply_overlay_switch (W:=W) cfg ls u w k).
Proof. unfold apply_overlay_switch. hold_auto. Qed.
Hint Resolve hold_switch : deltabox.
Lemma hold_sink id pl : keeps holds (sink (W:=W) cfg id pl).
Proof. unfold sink. hold_auto. Qed.
Lemma hold_async_sink id p : keeps holds (async_sink (W:=W) cfg id p).
Proof. unfold async_sink. hold_auto. Qed.
Lemma hold_modreg f : (∀ c, I (async c) (reg c) → I (async (f c)) (reg (f c))) → keeps holds (modc (W:=W) f).
Proof. intros Hf [c w] Hs. by apply Hf. Qed.
Lemma hold_register a b t rw st ops p ls d tp f dd : keeps holds (register (W:=W) cfg a b t rw st ops p ls d tp f dd).
Proof.
  unfold register. repeat (hold_step || (apply hold_modreg; intros ?; by apply I_add)).
Qed.
Hint Resolve hold_sink hold_async_sink hold_register : deltabox.
Lemma hold_legacy p t rw ops : keeps holds (checkpoint_legacy (W:=W) cfg p t rw ops).
Proof. unfold checkpoint_legacy. hold_auto. Qed.

Lemma hold_discard k i : keeps holds (discard_entry (W:=W) cfg k i).
Proof. unfold discard_entry. repeat (hold_step || (apply hold_modreg; intros ?; by apply I_del)). Qed.
Hint Resolve hold_discard : deltabox.
Lemma hold_poll r : keeps holds (poll_futures (W:=W) r).
Proof. induction r as [|[? ?] r IH]; simpl; hold_auto. Qed.
Hint Resolve hold_poll : deltabox.
Lemma hold_gc n ids : keeps holds (gc_body (W:=W) cfg n ids).
Proof. unfold gc_body, gc_keep, prune_restore_dirs, prune_dir. hold_auto. Qed.

(** A restore waits for writers. *)
Hypothesis I_writers : keeps holds (wait_writers (W:=W) cfg).

Lemma hold_drain : keeps holds (drain_before_namespace_teardown (W:=W) cfg).
Proof. unfold drain_before_namespace_teardown, drain_one, get_async. repeat (hold_step || exact I_writers). Qed.
Hint Resolve hold_drain : deltabox.
Lemma hold_switch_layers ls u w : keeps holds (switch_layers (W:=W) cfg ls u w).
Proof. unfold switch_layers. hold_auto. Qed.
Hint Resolve hold_switch_layers : deltabox.
Lemma hold_kill_active d : keeps holds d → keeps holds (kill_active_subtree (W:=W) cfg d).
Proof. intros Hd. unfold kill_active_subtree, kill_pids_and_wait. repeat (hold_step || exact Hd). Qed.
Lemma hold_run_criu p cmd e sw ls u w fd : keeps holds (run_criu (W:=W) cfg p cmd e sw ls u w fd).
Proof. unfold run_criu. hold_auto. Qed.
Hint Resolve hold_run_criu : deltabox.
Lemma hold_slow p ext sw ls u w : keeps holds (slow_restore (W:=W) cfg p ext sw ls u w).
Proof. unfold slow_restore, kill_namespace. hold_auto. Qed.
Hint Resolve hold_slow : deltabox.
Lemma hold_restore i al : keeps holds (restore_action (W:=W) cfg i al).
Proof.
  unfold restore_action, perform_restore, restore_root_overlays, warm_fork.
  repeat (hold_step || (apply hold_kill_active; unfold prepare_restore)).
Qed.
End frame.

(** ** The life cycle of a dump *)

Definition resolved (a : async_state) (id : string) : Prop := a_futs a !! id = Some (FDone None).
(** The physical parent of a dump has committed. *)
Definition parent_durable (a : async_state) (j : job) : Prop := ∀ p, j_parent j = Some p → resolved a (e_id p).
(** A writer and the keys it has written. *)
Definition job_ok (a : async_state) (id : string) (j : job) : Prop :=
  match j_phase j with
  | Queued => a_marks a !! id = Some (Mark WARM_READY false None)
  | Dumping => a_marks a !! id = Some (Mark DUMPING false None) ∧ parent_durable a j
  | Disposing None => a_marks a !! id = Some (Mark DURABLE_READY false None) ∧ parent_durable a j
  | Disposing (Some _) => a_marks a !! id = Some (Mark DURABLE_FAILED false None)
  end.

(** What holds between any two steps: a future is pending exactly while a
    writer owns it; one resolved without error belongs to a committed image
    whose copy is gone, one resolved with an error to no committed image; and
    the image of a resolved registered checkpoint rests on a resolved one. *)
Record dur_ok (a : async_state) (r : registry) : Prop := {
  do_marks id : is_Some (a_futs a !! id) → is_Some (a_marks a !! id);
  do_futs id : is_Some (a_marks a !! id) → is_Some (a_futs a !! id);
  do_pending id : a_futs a !! id = Some FPending ↔ is_Some (a_jobs a !! id);
  do_done id : resolved a id → a_marks a !! id = Some (Mark DURABLE_READY true None);
  do_failed id e m : a_futs a !! id = Some (FDone (Some e)) → a_marks a !! id = Some m → m_state m ≠ DURABLE_READY;
  do_job id j : a_jobs a !! id = Some j → job_ok a id j;
  do_entry id e : dget id r = Some e → e_memory_protocol e = Some PROTOCOL → e_has_future e = true →
    (∀ j, a_jobs a !! id = Some j → e_prev_ckpt_id e = e_id <$> j_parent j) ∧
    (resolved a id → ∀ p, e_prev_ckpt_id e = Some p → resolved a p);
}.

(** Slots and failure latch are no part of it. *)
Lemma dur_ok_ext a a' r : a_futs a' = a_futs a → a_marks a' = a_marks a → a_jobs a' = a_jobs a → dur_ok a r → dur_ok a' r.
Proof. destruct a, a'. cbn. intros -> -> -> []. by constructor. Qed.
Lemma dur_ok_del a r i : dur_ok a r → dur_ok a (dpop i r).
Proof.
  intros []. constructor; try done. intros id e He. destruct (decide (i = id)) as [->|Hn].
  - by rewrite dget_dpop_eq in He.
  - rewrite dget_dpop_ne in He by done. eauto.
Qed.
Lemma dur_ok_add a r i e : e_memory_protocol e = None → dur_ok a r → dur_ok a (dset i e r).
Proof.
  intros Hp []. constructor; try done. intros id e' He. destruct (decide (i = id)) as [->|Hn].
  - rewrite dget_dset_eq in He. injection He as <-. by rewrite Hp.
  - rewrite dget_dset_ne in He by done. eauto.
Qed.

(** A writer moves on: its mark and phase change, its future stays pending. *)
Lemma dur_ok_move a r id j j' m' :
  dur_ok a r → a_jobs a !! id = Some j → j_parent j' = j_parent j →
  (∀ a', a_marks a' !! id = Some m' → a_futs a' = a_futs a → job_ok a' id j') →
  dur_ok (set_job id j' (set_mark id m' a)) r.
Proof.
  intros [] Hj Hp Hok. assert (a_futs a !! id = Some FPending) as Hf by (apply do_pending0; by eexists).
  constructor; unfold resolved in *; cbn [a_futs a_marks a_jobs set_job set_mark].
  - intros i Hi. destruct (decide (id = i)) as [->|]; [rewrite lookup_insert_eq; by eexists|rewrite lookup_insert_ne; auto].
  - intros i. destruct (decide (id = i)) as [->|]; [by rewrite Hf|rewrite lookup_insert_ne by done; auto].
  - intros i. rewrite do_pending0. destruct (decide (id = i)) as [->|].
    + rewrite lookup_insert_eq, Hj. split; by eexists.
    + by rewrite lookup_insert_ne.
  - intros i Hi. rewrite lookup_insert_ne; [auto|]. intros ->. congruence.
  - intros i e m Hi. rewrite lookup_insert_ne; [eauto|]. intros ->. congruence.
  - intros i j0. destruct (decide (id = i)) as [->|Hn].
    + rewrite lookup_insert_eq. intros [= <-]. apply Hok; [|done]. cbn. by rewrite lookup_insert_eq.
    + rewrite lookup_insert_ne by done. intros Hi. specialize (do_job0 _ _ Hi).
      unfold job_ok, parent_durable, resolved in *. cbn. by rewrite lookup_insert_ne.
  - intros i e He H1 H2. destruct (do_entry0 i e He H1 H2) as [G1 G2]. split; [|done].
    intros j0. destruct (decide (id = i)) as [->|Hn]; [|rewrite lookup_insert_ne by done; eauto].
    rewrite lookup_insert_eq. intros [= <-]. rewrite Hp. eauto.
Qed.

(** A writer ends: its future is resolved, its job gone. *)
Lemma dur_ok_finish a r id j final m' :
  dur_ok a r → a_jobs a !! id = Some j →
  match final with
  | None => m' = Mark DURABLE_READY true None ∧ parent_durable a j
  | Some _ => m_state m' ≠ DURABLE_READY
  end →
  dur_ok (drop_job id (set_fut id (FDone final) (set_mark id m' a))) r.
Proof.
  intros [] Hj Hm. assert (a_futs a !! id = Some FPending) as Hf by (apply do_pending0; by eexists).
  assert (∀ p, resolved a p → <[id := FDone final]> (a_futs a) !! p = Some (FDone None)) as Hmono.
  { intros p Hp. rewrite lookup_insert_ne; [done|]. intros ->. unfold resolved in Hp. congruence. }
  constructor; unfold resolved in *; cbn [a_futs a_marks a_jobs drop_job set_fut set_mark].
  - intros i. destruct (decide (id = i)) as [->|]; [by rewrite !lookup_insert_eq|rewrite !lookup_insert_ne by done; auto].
  - intros i. destruct (decide (id = i)) as [->|]; [by rewrite !lookup_insert_eq|rewrite !lookup_insert_ne by done; auto].
  - intros i. destruct (decide (id = i)) as [->|].
    + rewrite lookup_insert_eq, lookup_delete_eq. split; [done|by intros []].
    + by rewrite lookup_insert_ne, lookup_delete_ne.
  - intros i. destruct (decide (id = i)) as [->|]; [|rewrite !lookup_insert_ne by done; auto].
    rewrite !lookup_insert_eq. intros [= ->]. by destruct Hm as [-> _].
  - intros i e m. destruct (decide (id = i)) as [->|]; [|rewrite !lookup_insert_ne by done; eauto].
    rewrite !lookup_insert_eq. intros [= ->] [= <-]. done.
  - intros i j0. destruct (decide (id = i)) as [->|Hn]; [by rewrite lookup_delete_eq|].
    rewrite lookup_delete_ne by done. intros Hi. specialize (do_job0 _ _ Hi).
    unfold job_ok, parent_durable, resolved in *. cbn. rewrite lookup_insert_ne by done.
    repeat case_match; try done; destruct do_job0 as [? Hpd]; (split; [done|]); intros p Hp; by apply Hmono, Hpd.
  - intros i e He H1 H2. destruct (do_entry0 i e He H1 H2) as [G1 G2]. split.
    + intros j0. destruct (decide (id = i)) as [->|Hn]; [by rewrite lookup_delete_eq|].
      rewrite lookup_delete_ne by done. eauto.
    + destruct (decide (id = i)) as [->|Hn].
      * rewrite lookup_insert_eq. intros [= ->] p Hp. destruct Hm as [_ Hpd]. apply Hmono.
        rewrite (G1 j Hj) in Hp. apply fmap_Some in Hp as (q & Hq & ->). by apply Hpd.
      * rewrite lookup_insert_ne by done. intros Hi p Hp. by apply Hmono, (G2 Hi).
Qed.

(** A new dump: its future, its mark, its entry and its writer. *)
Definition opened (id : string) (a : async_state) : async_state :=
  set_mark id (Mark WARM_READY false None) (set_fut id FPending a).

Lemma dur_ok_new a r id info j :
  dur_ok a r → a_futs a !! id = None → j_phase j = Queued → e_prev_ckpt_id info = e_id <$> j_parent j →
  dur_ok (set_job id j (opened id a)) (dset id info r).
Proof.
  intros [] Hf Hph Hprev.
  assert (∀ p, resolved a p → <[id := FPending]> (a_futs a) !! p = Some (FDone None)) as Hmono.
  { intros p Hp. rewrite lookup_insert_ne; [done|]. intros ->. unfold resolved in Hp. congruence. }
  constructor; unfold resolved in *; cbn [a_futs a_marks a_jobs set_job set_mark set_fut opened].
  - intros i. destruct (decide (id = i)) as [->|]; [by rewrite !lookup_insert_eq|rewrite !lookup_insert_ne by done; auto].
  - intros i. destruct (decide (id = i)) as [->|]; [by rewrite !lookup_insert_eq|rewrite !lookup_insert_ne by done; auto].
  - intros i. destruct (decide (id = i)) as [->|]; [by rewrite !lookup_insert_eq|by rewrite !lookup_insert_ne].
  - intros i. destruct (decide (id = i)) as [->|]; [by rewrite !lookup_insert_eq|rewrite !lookup_insert_ne by done; auto].
  - intros i e m. destruct (decide (id = i)) as [->|]; [by rewrite !lookup_insert_eq|rewrite !lookup_insert_ne by done; eauto].
  - intros i j0. destruct (decide (id = i)) as [->|Hn].
    + rewrite lookup_insert_eq. intros [= <-]. unfold job_ok. rewrite Hph. cbn. by rewrite lookup_insert_eq.
    + rewrite lookup_insert_ne by done. intros Hi. specialize (do_job0 _ _ Hi).
      unfold job_ok, parent_durable, resolved in *. cbn. rewrite lookup_insert_ne by done.
      repeat case_match; try done; destruct do_job0 as [? Hpd]; (split; [done|]); intros p Hp; by apply Hmono, Hpd.
  - intros i e He H1 H2. destruct (decide (id = i)) as [->|Hn].
    + rewrite !lookup_insert_eq. rewrite dget_dset_eq in He. injection He as <-. split; [by intros j0 [= <-]|done].
    + rewrite dget_dset_ne in He by done. destruct (do_entry0 i e He H1 H2) as [G1 G2]. rewrite !lookup_insert_ne by done.
      split; [done|]. intros Hi p Hp. by apply Hmono, (G2 Hi).
Qed.

(** A dump given up before its writer was submitted. *)
Lemma dur_ok_aborted a r id e :
  dur_ok a r → a_futs a !! id = None → dur_ok (set_fut id (FDone (Some e)) (opened id a)) r.
Proof.
  intros [] Hf. assert (a_jobs a !! id = None) as Hj.
  { apply eq_None_not_Some. intros Hs%do_pending0. congruence. }
  assert (∀ p, resolved a p → <[id := FDone (Some e)]> (<[id := FPending]> (a_futs a)) !! p = Some (FDone None)) as Hmono.
  { intros p Hp. rewrite !lookup_insert_ne; [done|..]; intros ->; unfold resolved in Hp; congruence. }
  constructor; unfold resolved in *; cbn [a_futs a_marks a_jobs set_mark set_fut opened].
  - intros i. destruct (decide (id = i)) as [->|]; [by rewrite !lookup_insert_eq|rewrite !lookup_insert_ne by done; auto].
  - intros i. destruct (decide (id = i)) as [->|]; [by rewrite !lookup_insert_eq|rewrite !lookup_insert_ne by done; auto].
  - intros i. destruct (decide (id = i)) as [->|]; [rewrite !lookup_insert_eq, Hj; split; [done|by intros []]|by rewrite !lookup_insert_ne].
  - intros i. destruct (decide (id = i)) as [->|]; [by rewrite !lookup_insert_eq|rewrite !lookup_insert_ne by done; auto].
  - intros i e' m. destruct (decide (id = i)) as [->|]; [|rewrite !lookup_insert_ne by done; eauto].
    rewrite !lookup_insert_eq. by intros [= <-] [= <-].
  - intros i j0 Hi. assert (id ≠ i) as Hn by (intros ->; congruence). specialize (do_job0 _ _ Hi).
    unfold job_ok, parent_durable, resolved in *. cbn. rewrite lookup_insert_ne by done.
    repeat case_match; try done; destruct do_job0 as [? Hpd]; (split; [done|]); intros p Hp; by apply Hmono, Hpd.
  - intros i e' He H1 H2. destruct (do_entry0 i e' He H1 H2) as [G1 G2]. split; [done|].
    destruct (decide (id = i)) as [->|Hn]; [by rewrite !lookup_insert_eq|]. rewrite !lookup_insert_ne by done.
    intros Hi p Hp. by apply Hmono, (G2 Hi).
Qed.

(** ** The writers *)

Section steps.
Context {W : Type} `{!KernelOverlay W} `{!MountHost W} `{!Host W} (cfg : config).
#[local] Existing Instance layers_and_async.
Implicit Types (s : ctl * W).

(** Drawing an id and closing a handle do not fail. *)
Definition tidy : Prop :=
  (∀ n w, is_Ok (os_call (W:=W) (UuidHex n) w).1) ∧ (∀ fd w, is_Ok (os_call (W:=W) (CloseFd fd) w).1).
(** Every writer holds a slot; [d] more are taken, and none is lost unless one
    of those calls fails. *)
Definition slots_ok (d : Z) (a : async_state) : Prop :=
  let used := (a_slots a + Z.of_nat (size (a_jobs a)) + d)%Z in
  (0 <= a_slots a)%Z ∧ (used <= async_max_pending cfg)%Z ∧ (tidy → used = async_max_pending cfg).
(** Futures known to be resolved, with their error and the keys of the entry. *)
Variable F : gmap string (option exn * mark).
Definition settled (a : async_state) : Prop :=
  ∀ id v, F !! id = Some v → a_futs a !! id = Some (FDone v.1) ∧ a_marks a !! id = Some v.2.
(** The ids that have a future are [D]; those in [F] stay as they are. *)
Definition good (d : Z) (D : gset string) (a : async_state) (r : registry) : Prop :=
  slots_ok d a ∧ dur_ok a r ∧ dom (a_futs a) = D ∧ settled a.
Definition goods (d : Z) (D : gset string) s : Prop := good d D (async s.1) (reg s.1).

(** The dumps and the registry exactly as they were. *)
Definition at_ar (a : async_state) (r : registry) s : Prop := async s.1 = a ∧ reg s.1 = r.
Lemma keeps_at {A} (m : M (ctl * W) A) a r : fs_keeps m → keeps (at_ar a r) m.
Proof. apply (holds_fs (fun a' r' => a' = a ∧ r' = r)). Qed.
Lemma wp_at {A B} (m : M (ctl * W) A) (k : A → M (ctl * W) B) a r Q E s :
  fs_keeps m → at_ar a r s → (∀ x s', at_ar a r s' → wp (k x) Q E s') → (∀ e s', at_ar a r s' → E e s') →
  wp (m ≫= k) Q E s.
Proof. intros Hm Hs Hk HE. apply wp_bind. eapply wp_mono; [by apply (keeps_at m a r Hm)|done|done]. Qed.

Lemma wp_get_async (Q : async_state → ctl * W → Prop) E s : Q (async s.1) s → wp get_async Q E s.
Proof. done. Qed.
Lemma wp_update_mark id f m (Q : unit → ctl * W → Prop) E s :
  a_marks (async s.1) !! id = Some m → Q tt (set_async (set_mark id (f m) (async s.1)) s.1, s.2) →
  wp (update_mark id f) Q E s.
Proof. intros Hm HQ. unfold update_mark. apply wp_mod_async. by rewrite Hm. Qed.

(** The keys of an entry while its writer lives. *)
Lemma job_mark a id j : job_ok a id j → ∃ st, a_marks a !! id = Some (Mark st false None).
Proof. unfold job_ok. repeat case_match; naive_solver. Qed.

Lemma settled_move a r id j m' a' :
  dur_ok a r → a_jobs a !! id = Some j → a_futs a' = a_futs a → a_marks a' = <[id := m']> (a_marks a) →
  settled a → settled a'.
Proof.
  intros Hd Hj Ef Em H i v Hi. rewrite Ef, Em. destruct (H i v Hi) as [H1 H2]. rewrite lookup_insert_ne; [done|].
  intros ->. assert (a_futs a !! i = Some FPending) as Hf by (apply (do_pending _ _ Hd); by eexists). congruence.
Qed.
Lemma settled_finish a r id j m' f a' :
  dur_ok a r → a_jobs a !! id = Some j → a_futs a' = <[id := f]> (a_futs a) → a_marks a' = <[id := m']> (a_marks a) →
  settled a → settled a'.
Proof.
  intros Hd Hj Ef Em H i v Hi. rewrite Ef, Em. destruct (H i v Hi) as [H1 H2].
  assert (id ≠ i) as Hn; [|by rewrite !lookup_insert_ne].
  intros ->. assert (a_futs a !! i = Some FPending) as Hf by (apply (do_pending _ _ Hd); by eexists). congruence.
Qed.
Lemma settled_new a id m' fs a' :
  a_futs a !! id = None → (∀ i, i ≠ id → fs !! i = a_futs a !! i) → a_futs a' = fs → a_marks a' = <[id := m']> (a_marks a) →
  settled a → settled a'.
Proof.
  intros Hn Hfs Ef Em H i v Hi. rewrite Ef, Em. destruct (H i v Hi) as [H1 H2].
  assert (i ≠ id) as Hni by congruence. by rewrite Hfs, lookup_insert_ne.
Qed.
Lemma good_move d D a r id j j' m' :
  good d D a r → a_jobs a !! id = Some j → j_parent j' = j_parent j →
  (∀ a', a_marks a' !! id = Some m' → a_futs a' = a_futs a → job_ok a' id j') →
  good d D (set_job id j' (set_mark id m' a)) r.
Proof.
  intros [HS [Hd HD]] Hj Hp Hok. split; [|split; [by eapply dur_ok_move|]].
  2: { destruct HD as [HD HF]. split; [done|]. by apply (settled_move a r id j m'). }
  unfold slots_ok in *. cbn [a_slots a_jobs set_job set_mark]. by rewrite map_size_insert_Some by by rewrite Hj.
Qed.

Lemma writer_failed_good d D id j e s (E : exn → ctl * W → Prop) :
  goods d D s → a_jobs (async s.1) !! id = Some j → wp (writer_failed (W:=W) id j e) (fun _ => goods d D) E s.
Proof.
  intros (Hs & Hd & HD) Hj. destruct (job_mark _ _ _ (do_job _ _ Hd id j Hj)) as [st Hm]. unfold writer_failed.
  eapply wp_bind, wp_update_mark; [exact Hm|]. apply wp_bind. unfold wp at 1, modc. apply wp_mod_async.
  cbn [fst snd async set_async set_stat_err]. apply (good_move d D _ _ id j); try done.
Qed.

Lemma writer_phase_good d D id j p m st s (E : exn → ctl * W → Prop) :
  goods d D s → a_jobs (async s.1) !! id = Some j → a_marks (async s.1) !! id = Some m →
  (∀ a', a_marks a' !! id = Some (Mark st (m_dispose m) (m_cleanup m)) → a_futs a' = a_futs (async s.1) →
     job_ok a' id (Job (j_entry j) (j_parent j) (j_staging j) (j_final j) (j_pidfd j) p)) →
  wp (_ ← update_mark (W:=W) id (fun m => Mark st (m_dispose m) (m_cleanup m)); writer_phase id j p)
     (fun _ => goods d D) E s.
Proof.
  intros Hg Hj Hm Hok. eapply wp_bind, wp_update_mark; [exact Hm|]. unfold writer_phase. apply wp_mod_async.
  cbn [fst snd async set_async]. by apply (good_move d D _ _ id j).
Qed.

Lemma writer_start_good d D id t : keeps (goods d D) (writer_start (W:=W) id t).
Proof.
  intros s Hg. unfold writer_start. apply wp_bind, wp_get_async.
  destruct (a_jobs (async s.1) !! id) as [j|] eqn:Hj; [|by apply wp_ret].
  pose proof (do_job _ _ (proj1 (proj2 Hg)) id j Hj) as Hjob. unfold job_ok in Hjob.
  destruct (j_phase j) eqn:Hph; cbn [negb]; [|by apply wp_ret..].
  destruct (j_parent j) as [p|] eqn:Hp.
  2: { eapply writer_phase_good; [done|done|exact Hjob|]. intros a' Hm' Hf'. unfold job_ok. cbn. split; [done|].
       intros q. cbn. by rewrite Hp. }
  destruct (fut_of (async s.1) (e_id p)) as [|[e|]] eqn:Hfut.
  - destruct t; [by apply writer_failed_good|by apply wp_ret].
  - by apply writer_failed_good.
  - destruct (committed (async s.1) (e_id p)) eqn:Hc; cbn [negb]; [|by apply writer_failed_good].
    eapply writer_phase_good; [done|done|exact Hjob|]. intros a' Hm' Hf'. unfold job_ok. cbn. split; [done|].
    intros q. cbn. rewrite Hp. intros [= <-]. unfold resolved. rewrite Hf'. unfold fut_of in Hfut.
    destruct (a_futs (async s.1) !! e_id p) as [f|] eqn:Ef; [by simpl in Hfut; subst|]. exfalso.
    unfold committed in Hc. destruct (a_marks (async s.1) !! e_id p) as [m|] eqn:Em; [|done].
    destruct (do_futs _ _ (proj1 (proj2 Hg)) (e_id p)) as [? E]; [by eexists|congruence].
Qed.

Lemma writer_dump_good d D id : keeps (goods d D) (writer_dump (W:=W) cfg id).
Proof.
  intros s Hg. unfold writer_dump. apply wp_bind, wp_get_async.
  destruct (a_jobs (async s.1) !! id) as [j|] eqn:Hj; [|by apply wp_ret].
  pose proof (do_job _ _ (proj1 (proj2 Hg)) id j Hj) as Hjob. unfold job_ok in Hjob.
  destruct (j_phase j) eqn:Hph; cbn [negb]; [by apply wp_ret| |by apply wp_ret]. destruct Hjob as [Hm Hpd].
  set (a := async s.1) in *. set (r := reg s.1).
  assert (∀ e s', at_ar a r s' → wp (writer_failed (W:=W) id j e) (fun _ => goods d D) (fun _ => goods d D) s') as Hfail.
  { intros e s' [E1 E2]. apply writer_failed_good; [unfold goods; by rewrite E1, E2|by rewrite E1]. }
  apply wp_catch. apply (wp_at _ _ a r); [unfold writer_cmd; fs_auto|done| |done]. intros cmd s1 H1.
  apply (wp_at _ _ a r); [fs_auto|done| |done]. intros _ s2 H2.
  apply (wp_at _ _ a r); [fs_auto|done| |done]. intros imgs s3 H3.
  apply (wp_at _ _ a r); [fs_auto|done| |done]. intros st s4 H4.
  apply (wp_at _ _ a r); [fs_auto|done| |done]. intros _ s5 [E1 E2].
  eapply (writer_phase_good d D id j (Disposing None)); [unfold goods; by rewrite E1, E2|by rewrite E1|rewrite E1; exact Hm|].
  intros a' Hm' Hf'. rewrite E1 in Hf'. unfold job_ok. cbn. split; [done|]. intros q Hq. unfold resolved. rewrite Hf'.
  by apply Hpd.
Qed.

Lemma good_finish d D a r id j final m' :
  good d D a r → a_jobs a !! id = Some j →
  match final with
  | None => m' = Mark DURABLE_READY true None ∧ parent_durable a j
  | Some _ => m_state m' ≠ DURABLE_READY
  end →
  good d D (drop_job id (set_fut id (FDone final) (set_slots (a_slots a + 1)%Z (set_mark id m' a)))) r.
Proof.
  intros [(S1 & S2 & S3) [Hd HD]] Hj Hm. split; [|split].
  - unfold slots_ok. cbn [a_slots a_jobs drop_job set_fut set_slots set_mark].
    rewrite map_size_delete_Some by by rewrite Hj. pose proof (map_size_ne_0_lookup_2 (a_jobs a) id) as Hs.
    rewrite Hj in Hs. specialize (Hs ltac:(by eexists)). split_and!; [lia|lia|]. intros Ht. specialize (S3 Ht). lia.
  - eapply (dur_ok_ext (drop_job id (set_fut id (FDone final) (set_mark id m' a)))); [done..|]. by eapply dur_ok_finish.
  - split; [|by apply (settled_finish a r id j m' (FDone final)); try done; destruct HD].
    cbn [a_futs drop_job set_fut set_slots set_mark]. rewrite dom_insert_lookup_L; [by destruct HD|].
    assert (is_Some (a_jobs a !! id)) as Hs by (by eexists). apply (do_pending _ _ Hd) in Hs. by eexists.
Qed.

Lemma writer_finish_good d D id : keeps (goods d D) (writer_finish (W:=W) cfg id).
Proof.
  intros s Hg. unfold writer_finish. apply wp_bind, wp_get_async.
  destruct (a_jobs (async s.1) !! id) as [j|] eqn:Hj; [|by apply wp_ret].
  pose proof (do_job _ _ (proj1 (proj2 Hg)) id j Hj) as Hjob.
  destruct (j_phase j) as [| |error] eqn:Hph; [by apply wp_ret..|].
  unfold job_ok in Hjob. rewrite Hph in Hjob. set (a := async s.1) in *. set (r := reg s.1).
  set (Q := fun (final : option exn) s' => reg s'.1 = r ∧ ∃ m', async s'.1 = set_mark id m' a ∧
    match final with
    | None => m' = Mark DURABLE_READY true None ∧ parent_durable a j
    | Some _ => m_state m' ≠ DURABLE_READY
    end).
  assert (∃ st, a_marks a !! id = Some (Mark st false None) ∧ match error with None => st = DURABLE_READY ∧ parent_durable a j
            | Some _ => st = DURABLE_FAILED end) as (st & Hm & Hst) by (destruct error; [by eexists|by eexists; destruct Hjob]).
  apply wp_bind, (wp_mono _ Q _ (fun _ _ => False)); [| |done].
  - apply wp_catch, (wp_at _ _ a r); [fs_auto|done| |].
    + intros _ s1 [E1 E2]. eapply wp_bind, wp_update_mark; [rewrite E1; exact Hm|]. apply wp_ret.
      split; [done|]. eexists. split; [cbn; by rewrite E1|]. destruct error; [by subst|]. by destruct Hst as [-> ?].
    + intros e s1 [E1 E2]. eapply wp_bind, wp_update_mark; [rewrite E1; exact Hm|].
      destruct error; [apply wp_ret|apply wp_bind; unfold wp at 1, modc; apply wp_ret];
        (split; [done|]); eexists; (split; [cbn; by rewrite E1|]); done.
  - intros final s1 (E2 & m' & E1 & Hm'). apply wp_bind, wp_mod_async, wp_bind, wp_mod_async.
    apply (holds_fs (good d D)); [fs_auto|]. unfold holds. cbn [fst snd async set_async reg]. rewrite E1.
    change (reg (set_async _ _)) with (reg s1.1). change (reg (set_async _ _)) with (reg s1.1). rewrite E2.
    by apply (good_finish d D a r id j).
Qed.

Lemma writer_step_good d D e : keeps (goods d D) (writer_step (W:=W) cfg e).
Proof. destruct e; [apply writer_start_good|apply writer_dump_good|apply writer_finish_good]. Qed.
Lemma wait_writers_good d D : keeps (goods d D) (wait_writers (W:=W) cfg).
Proof.
  unfold wait_writers. apply keeps_bind; [apply (holds_fs (good d D)); fs_auto|]. intros evs.
  apply keeps_for. intros e _. apply writer_step_good.
Qed.

(** ** The transaction *)

Definition dumps_ok s : Prop := ∃ D, goods 0 D s.

Lemma good_failed_latch d D a r v : good d D a r → good d D (set_failed v a) r.
Proof. intros (Hs & Hd & HD). split; [done|split; [by apply (dur_ok_ext a)|done]]. Qed.
Lemma good_del d D a r i : good d D a r → good d D a (dpop i r).
Proof. intros (Hs & Hd & HD). split; [done|split; [by apply dur_ok_del|done]]. Qed.
Lemma good_add d D a r i e : e_memory_protocol e = None → good d D a r → good d D a (dset i e r).
Proof. intros He (Hs & Hd & HD). split; [done|split; [by apply dur_ok_add|done]]. Qed.
Lemma good_release D a r : good 1 D a r → good 0 D (set_slots (a_slots a + 1)%Z a) r.
Proof.
  intros ((S1 & S2 & S3) & Hd & HD). split; [|split; [by apply (dur_ok_ext a)|done]].
  unfold slots_ok. cbn. split_and!; [lia|lia|]. intros Ht. specialize (S3 Ht). lia.
Qed.
Lemma good_lost D a r : ¬ tidy → good 1 D a r → good 0 D a r.
Proof.
  intros Hn ((S1 & S2 & S3) & Hd & HD). split; [|split; [done|done]]. unfold slots_ok. split_and!; [lia|lia|done].
Qed.

Lemma release_slot_good D (E : exn → ctl * W → Prop) s :
  goods 1 D s → wp (release_slot (W:=W)) (fun _ => dumps_ok) E s.
Proof. intros H. apply wp_mod_async. exists D. by apply good_release. Qed.

Lemma close_good D fd s : goods 1 D s → wp (call (W:=W) (CloseFd fd)) (fun _ => goods 1 D) (fun _ => dumps_ok) s.
Proof.
  destruct s as [c w]. intros H. unfold wp, call, onw. cbn [fst snd].
  destruct (os_call (CloseFd fd) w) as [[x|e] w'] eqn:E; [done|]. exists D. apply good_lost; [|exact H].
  intros [_ Hc]. specialize (Hc fd w). by rewrite E in Hc.
Qed.

(** What the handler finds: the futures and the registry it will leave. *)
Definition abandonable D (id : string) (l : locals) s : Prop :=
  ∀ e : exn, good 1 D (if l_future l && negb (fut_done (fut_of (async s.1) id))
                       then set_fut id (FDone (Some e)) (async s.1) else async s.1) (dpop id (reg s.1)).

Lemma abandon_good {A} D id staging l e s (Q : A → ctl * W → Prop) :
  abandonable D id l s → wp (abandon (W:=W) id staging l e) Q (fun _ => dumps_ok) s.
Proof.
  intros H. specialize (H e). unfold abandon.
  assert (∀ A (m : M (ctl * W) A), fs_keeps m → keeps (goods 1 D) m) as Hfs by (intros ? m; apply (holds_fs (good 1 D))).
  apply wp_bind, (wp_mono _ (fun _ => goods 1 D) _ (fun _ _ => False)); [| |done].
  - apply wp_catch, wp_bind. unfold abandon_registered. apply wp_bind, wp_mod_async, wp_bind.
    set (s1 := (_, _)).
    apply (wp_mono _ (fun _ s' => good 1 D (async s'.1) (dpop id (reg s'.1))) _ (fun _ _ => False)); [| |done].
    { destruct (l_future l); [|by apply wp_ret, good_failed_latch]. apply wp_when, wp_mod_async. cbn in *.
      change (fut_of _ id) with (fut_of (async s.1) id). destruct (fut_done _); by apply (good_failed_latch _ _ _ _ (Some (exn_text e))) in H. }
    intros _ s2 H2. apply wp_bind. unfold wp at 1, modc. apply wp_bind. unfold wp at 1, getc.
    eapply wp_mono; [apply (Hfs _ _); [fs_auto|exact H2]|intros ? ? ?; by apply wp_ret|intros ? ? ?; by apply wp_ret].
  - intros r s1 H1. destruct r as [e'|].
    + apply wp_bind, (wp_mono _ (fun _ => goods 1 D) _ (fun _ => dumps_ok)); [| |done].
      * destruct (l_pidfd l) as [fd|]; [|by apply wp_ret]. by apply close_good.
      * intros _ s2 H2. apply wp_bind. eapply wp_mono; [by apply (release_slot_good D (fun _ _ => False))| |done].
        intros [] s3 H3. by apply wp_throw.
    + apply wp_finally, (wp_mono _ (fun _ _ => False) _ (fun _ => goods 1 D)); [|done|].
      * assert (keeps (goods 1 D) (abandon_copy (W:=W) staging l e)) as Hk.
        2: { apply wp_bind. eapply wp_mono; [by apply Hk|intros [] s2 H2; by apply wp_throw|done]. }
        unfold abandon_copy. apply keeps_bind; [|intros _; apply Hfs; fs_auto].
        destruct (l_dump l); [|apply Hfs; fs_auto]. apply keeps_catch; [apply Hfs; fs_auto|]. intros e'.
        intros s2 H2. by apply wp_mod_async, good_failed_latch.
      * intros e' s2 H2. eapply wp_mono; [by apply (release_slot_good D (fun _ _ => False))|done|done].
Qed.

Lemma wp_guard_good {A} D id staging l (m : M (ctl * W) A) (Q : A → ctl * W → Prop) s :
  wp m Q (fun _ s' => abandonable D id l s') s →
  wp (mcatch m (abandon id staging l)) Q (fun _ => dumps_ok) s.
Proof. intros H. apply wp_catch. eapply wp_mono; [exact H|done|]. intros e s' He. eapply abandon_good; exact He. Qed.

Lemma goods_abandonable D id l s : l_future l = false → goods 1 D s → abandonable D id l s.
Proof. intros Hl H e. rewrite Hl. by apply good_del. Qed.

(** Before the future exists, every stage keeps the dumps as they are. *)
Lemma wp_stage {A} D id staging l (m : M (ctl * W) A) s :
  l_future l = false → keeps (goods 1 D) m → goods 1 D s →
  wp (mcatch m (abandon id staging l)) (fun _ => goods 1 D) (fun _ => dumps_ok) s.
Proof.
  intros Hl Hm Hs. apply (wp_guard_good D). eapply wp_mono; [by apply Hm|done|]. intros e s' H. by apply goods_abandonable.
Qed.

Lemma hold_quiesce {A} D pid (b : M (ctl * W) A) :
  keeps (goods 1 D) b → keeps (goods 1 D) (quiesce_for_checkpoint cfg pid b).
Proof.
  intros Hb. unfold quiesce_for_checkpoint.
  assert (∀ A (m : M (ctl * W) A), fs_keeps m → keeps (goods 1 D) m) as Hfs by (intros ? m; apply (holds_fs (good 1 D))).
  apply keeps_bind; [apply Hfs; fs_auto|intros fd]. apply keeps_finally; [|apply Hfs; fs_auto].
  apply keeps_bind; [apply Hfs; fs_auto|intros _].
  apply keeps_bind; [apply Hfs; induction (poll_limit cfg); simpl; fs_auto|intros _].
  apply keeps_finally; [done|apply Hfs; fs_auto].
Qed.

(** The last stage: future, entry, submission. *)
Lemma submit_good D id staging final l info_of (parent : option entry) fd s :
  l_future l = true → goods 1 D s → id ∉ D → (∀ c, e_prev_ckpt_id (info_of c) = e_id <$> parent) →
  wp (mcatch
        (_ ← mod_async (fun a => set_mark id (Mark WARM_READY false None) (set_fut id FPending a));
         c ← getc;
         let entry := info_of c in
         _ ← modc (fun c => set_reg (dset id entry (reg c)) c);
         _ ← call (SubmitWriter id);
         _ ← mod_async (set_job id (Job entry parent staging final fd Queued));
         mret entry) (abandon (W:=W) id staging l)) (fun _ => dumps_ok) (fun _ => dumps_ok) s.
Proof.
  intros Hl ((S1 & S2 & S3) & Hd & HD & HF) Hid Hprev. apply (wp_guard_good ({[id]} ∪ D)). apply wp_bind, wp_mod_async.
  set (a := async s.1) in *. set (r := reg s.1) in *. apply wp_bind. unfold wp at 1, getc. cbv zeta. set (info := info_of _).
  assert (e_prev_ckpt_id info = e_id <$> parent) as Hp by apply Hprev. clearbody info.
  assert (a_futs a !! id = None) as Hf by (apply not_elem_of_dom; by rewrite HD).
  assert (a_jobs a !! id = None) as Hj.
  { apply eq_None_not_Some. intros Hs%(do_pending _ _ Hd). congruence. }
  apply wp_bind. unfold wp at 1, modc. cbn [fst snd].
  apply (wp_at _ _ (opened id a) (dset id info r)); [fs_auto|done| |].
  - intros _ s1 [E1 E2]. apply wp_bind, wp_mod_async, wp_ret. exists ({[id]} ∪ D).
    unfold goods. cbn [fst async set_async]. rewrite E1. change (reg (set_async _ _)) with (reg s1.1). rewrite E2.
    split_and!; [|by apply dur_ok_new|cbn; rewrite dom_insert_L; by rewrite HD|].
    2: { eapply (settled_new a id _ (<[id:=FPending]> (a_futs a))); try done. intros i Hi. by rewrite lookup_insert_ne. }
    unfold slots_ok. cbn. rewrite map_size_insert_None by done. split_and!; [lia|lia|]. intros Ht. specialize (S3 Ht). lia.
  - intros e s1 [E1 E2] e'. rewrite Hl, E1, E2. unfold fut_of, opened at 1. cbn [a_futs set_mark set_fut andb].
    rewrite lookup_insert_eq. cbn [default negb fut_done].
    assert (dur_ok (set_fut id (FDone (Some e')) (opened id a)) (dpop id (dset id info r))) as H.
    { pose proof (dur_ok_aborted a r id e' Hd Hf) as []. constructor; try done. intros i x Hx.
      destruct (decide (id = i)) as [->|Hn]; [by rewrite dget_dpop_eq in Hx|].
      rewrite dget_dpop_ne, dget_dset_ne in Hx by done. eauto. }
    split_and!; [done|exact H|cbn; rewrite !dom_insert_L, HD; set_solver|].
    eapply (settled_new a id _ (<[id:=FDone (Some e')]> (<[id:=FPending]> (a_futs a)))); try done.
    intros i Hi. by rewrite !lookup_insert_ne.
Qed.

Lemma transaction_good D parent_id parent id final staging s :
  goods 1 D s → id ∉ D →
  wp (transaction (W:=W) cfg parent_id parent id final staging) (fun _ => dumps_ok) (fun _ => dumps_ok) s.
Proof.
  intros Hs Hid. unfold transaction. cbv zeta.
  assert (∀ A (m : M (ctl * W) A), fs_keeps m → keeps (goods 1 D) m) as Hfs by (intros ? m; apply (holds_fs (good 1 D))).
  apply wp_bind. eapply wp_mono; [apply (wp_stage D)| |done]; [done|apply Hfs; fs_auto|done|]. intros [warm att] s1 H1.
  apply wp_bind. eapply wp_mono; [apply (wp_stage D)| |done]; [done| |done|].
  { destruct (_ && _); [apply keeps_raise|]. apply keeps_bind; [apply Hfs; fs_auto|intros c].
    apply keeps_bind; [apply Hfs; fs_auto|intros []; [apply keeps_raise|]].
    apply keeps_bind; [|intros [rs sunk]; apply Hfs; fs_auto]. apply hold_quiesce.
    apply keeps_bind; [apply Hfs; fs_auto|intros c1]. apply keeps_bind; [apply Hfs; fs_auto|intros rs].
    apply keeps_bind; [apply Hfs; fs_auto|intros c2]. apply keeps_bind; [apply Hfs; fs_auto|intros lo].
    apply keeps_bind; [apply (hold_async_sink cfg (good 1 D))|intros sunk; apply Hfs; fs_auto]. }
  intros [[rs ch] [layers dirty]] s2 H2.
  apply wp_bind. eapply wp_mono; [apply (wp_stage D)| |done]; [done|apply Hfs; fs_auto|done|]. intros warm2 s3 H3.
  apply wp_bind. eapply wp_mono; [apply (wp_stage D)| |done]; [done|apply Hfs; fs_auto|done|]. intros dpid s4 H4.
  apply wp_bind. eapply wp_mono; [apply (wp_stage D)| |done]; [done|apply Hfs; fs_auto|done|]. intros fd s5 H5.
  apply wp_bind. eapply wp_mono; [apply (wp_stage D)| |done]; [done|apply Hfs; fs_auto|done|]. intros [] s6 H6.
  by apply (submit_good D).
Qed.

Lemma async_checkpoint_good parent_id tag raw ops s :
  dumps_ok s → futs_fresh s →
  wp (async_checkpoint (W:=W) cfg parent_id tag raw ops) (fun _ => dumps_ok) (fun _ => dumps_ok) s.
Proof.
  intros [D Hs] Hfresh. unfold async_checkpoint.
  set (P := fun s' : ctl * W => goods 0 D s' ∧ kabs s'.2 = kabs s.2).
  assert (∀ s', P s' → dumps_ok s') as HP by (intros s' [? _]; by exists D).
  assert (∀ A (m : M (ctl * W) A), fs_keeps m → keeps P m) as Hfs.
  { intros A m Hm s' [H1 H2].
    eapply wp_mono; [apply wp_and; [apply (holds_fs (good 0 D) m Hm); exact H1|apply (Hm (fs_part s', async_part s')); done]| |].
    all: intros ? t [G1 G2]; split; [exact G1|]; unfold fs_part in G2; injection G2 as -> _ _ _ _; exact H2. }
  assert (P s) as Ps by done.
  apply wp_bind. eapply (wp_mono _ (fun _ => P) _ (fun _ => P)); [by apply wp_get_async| |auto]. intros a s1 H1.
  destruct (truthy _); [apply wp_raise; auto|]. case_bool_decide; [apply wp_raise; auto|].
  apply wp_bind. eapply wp_mono; [apply (Hfs _ _); [unfold physical_parent; fs_auto|exact H1]| |auto]. intros parent s2 H2.
  case_bool_decide.
  { destruct parent; [|apply wp_raise; auto].
    eapply wp_mono; [apply (hold_legacy cfg (good 0 D)); [by intros; apply good_add|exact (proj1 H2)]| |]; intros; by exists D. }
  apply wp_bind, (wp_mono _ (fun _ => P) _ (fun _ => P)); [| |auto].
  { destruct (0 <? a_slots a)%Z; [by apply wp_ret|]. destruct H2 as [G1 G2].
    eapply wp_mono; [apply wp_and; [by apply (wait_writers_good 0 D)|apply (@fs_wait_writers _ _ _ _ cfg (fs_part s2, None)); done]| |].
    all: intros ? t [K1 K2]; split; [done|]; unfold fs_part in K2; injection K2 as -> _ _ _ _; exact G2. }
  intros [] s3 [([S1 [S2 S3]] & Hd & HD & HF) Hk]. apply wp_bind, wp_get_async.
  destruct (0 <? a_slots (async s3.1))%Z eqn:Hslot; cbn [negb]; [|by apply wp_raise; exists D].
  apply Z.ltb_lt in Hslot. apply wp_bind, wp_mod_async. set (s5 := (set_async _ _, _)).
  assert (goods 1 D s5) as H5.
  { split_and!; [|by apply (dur_ok_ext (async s3.1))|done|done]. unfold slots_ok. cbn. split_and!; [lia|lia|].
    intros Ht. specialize (S3 Ht). lia. }
  assert (kabs s5.2 = kabs s.2) as Hk5 by exact Hk. clearbody s5. clear S1 S2 S3 Hd HD Hslot.
  apply wp_bind. destruct s5 as [c w]. unfold wp at 1, call, onw. cbn [fst snd] in *.
  destruct (os_call (UuidHex 12) w) as [[id|e] w'] eqn:E.
  - apply (transaction_good D); [exact H5|]. pose proof Hs as (_ & _ & <- & _). apply not_elem_of_dom.
    eapply Hfresh; [apply draws_UuidHex|exact Hk5|exact E].
  - exists D. apply good_lost; [|exact H5]. intros [Hu _]. specialize (Hu 12 w). by rewrite E in Hu.
Qed.

(** ** Every step *)

Lemma step_dumps_ok s s' : step cfg s s' → dumps_ok s → dumps_ok s'.
Proof.
  intros H. destruct H as [parent tag raw ops s Hf Hfu|i allow s Hf|n ids s|c w w' Hw|e s|s s' Hs Ha]; intros [D Hg].
  - assert (wp (checkpoint_action cfg parent tag raw ops) (fun _ => dumps_ok) (fun _ => dumps_ok) s) as H.
    { unfold checkpoint_action. destruct (async_incremental cfg); [apply async_checkpoint_good; [by exists D|done]|].
      eapply wp_mono; [apply (hold_legacy cfg (good 0 D)); [by intros; apply good_add|exact Hg]| |]; intros; by exists D. }
    unfold wp in H. by destruct (checkpoint_action _ _ _ _ _ _) as [[?|?] ?].
  - pose proof (hold_restore cfg (good 0 D) (wait_writers_good 0 D) i allow s Hg) as H. exists D.
    unfold wp in H. by destruct (restore_action _ _ _ _) as [[?|?] ?].
  - pose proof (hold_gc cfg (good 0 D) (fun a r i => good_del 0 D a r i) n ids s Hg) as H. exists D.
    unfold wp in H. by destruct (gc_body _ _ _ _) as [[?|?] ?].
  - by exists D.
  - pose proof (writer_step_good 0 D e s Hg) as H. exists D. unfold wp in H. by destruct (writer_step _ _ _) as [[?|?] ?].
  - exists D. unfold goods in *. rewrite Ha. destruct Hs as [E _]. apply (f_equal f_reg) in E.
    rewrite !f_reg_of in E. by rewrite E.
Qed.
Lemma steps_dumps_ok s s' : rtc (step cfg) s s' → dumps_ok s → dumps_ok s'.
Proof. induction 1 as [|s1 s2 s3 H _ IH]; [done|]. intros Hs. apply IH. by eapply step_dumps_ok. Qed.

(** ** A writer always ends *)

(** The writer of [id] is in a phase that satisfies [P], with the slots as
    they were. *)
Definition in_phase (P : phase → Prop) (id : string) (n : Z) s : Prop :=
  (∃ j, a_jobs (async s.1) !! id = Some j ∧ P (j_phase j)) ∧ a_slots (async s.1) = n.
Definition never (e : exn) s : Prop := False.

Lemma update_mark_frame id f (Q : unit → ctl * W → Prop) E s :
  (∀ a, a_jobs a = a_jobs (async s.1) → a_slots a = a_slots (async s.1) → Q tt (set_async a s.1, s.2)) →
  wp (update_mark id f) Q E s.
Proof. intros H. apply wp_mod_async. destruct (a_marks _ !! id); by apply H. Qed.

Lemma writer_failed_phase id j e n s (E : exn → ctl * W → Prop) :
  a_slots (async s.1) = n →
  wp (writer_failed (W:=W) id j e) (fun _ => in_phase (fun p => p = Disposing (Some e)) id n) E s.
Proof.
  intros Hn. apply wp_bind, update_mark_frame. intros a Ha Hs. apply wp_bind. unfold wp at 1, modc. apply wp_mod_async.
  split; [|by rewrite <- Hn, <- Hs]. eexists. split; [apply lookup_insert_eq|done].
Qed.

Lemma start_phase id n s :
  in_phase (fun _ => True) id n s → wp (writer_start id true) (fun _ => in_phase (fun p => p ≠ Queued) id n) never s.
Proof.
  intros [(j & Hj & _) Hn]. unfold writer_start. apply wp_bind, wp_get_async. rewrite Hj.
  destruct (j_phase j) eqn:Hph; cbn [negb].
  2,3: apply wp_ret; split; [|done]; exists j; by rewrite Hph.
  assert (∀ e, wp (writer_failed id j e) (fun _ => in_phase (fun p => p ≠ Queued) id n) never s) as Hf.
  { intros e. eapply wp_mono; [by apply (writer_failed_phase id j e n s never)| |done].
    intros [] s' [(j' & H1 & H2) H3]. split; [|done]. exists j'. by rewrite H2. }
  assert (∀ st, wp (_ ← update_mark id (fun m => Mark st (m_dispose m) (m_cleanup m)); writer_phase id j Dumping)
            (fun _ => in_phase (fun p => p ≠ Queued) id n) never s) as Hgo.
  { intros st. apply wp_bind, update_mark_frame. intros a Ha Hs. apply wp_mod_async.
    split; [|by rewrite <- Hn, <- Hs]. eexists. split; [apply lookup_insert_eq|done]. }
  destruct (j_parent j) as [p|]; [|apply Hgo]. destruct (fut_of _ _) as [|[e|]]; [apply Hf..|].
  destruct (negb _); [apply Hf|apply Hgo].
Qed.

Lemma dump_phase id n s :
  in_phase (fun p => p ≠ Queued) id n s →
  wp (writer_dump cfg id) (fun _ => in_phase (fun p => ∃ e, p = Disposing e) id n) never s.
Proof.
  intros [(j & Hj & Hp) Hn]. unfold writer_dump. apply wp_bind, wp_get_async. rewrite Hj.
  destruct (j_phase j) eqn:Hph; cbn [negb]; [done| |apply wp_ret; split; [|done]; exists j; rewrite Hph; by eauto].
  set (a := async s.1) in *. set (r := reg s.1).
  assert (∀ e s', at_ar a r s' → wp (writer_failed id j e) (fun _ => in_phase (fun p => ∃ e, p = Disposing e) id n) never s') as Hf.
  { intros e s' [E1 _]. eapply wp_mono; [apply (writer_failed_phase id j e n s' never); by rewrite E1| |done].
    intros [] s2 [(j' & H1 & H2) H3]. split; [|done]. exists j'. eauto. }
  apply wp_catch. apply (wp_at _ _ a r); [unfold writer_cmd; fs_auto|done| |done]. intros cmd s1 H1.
  apply (wp_at _ _ a r); [fs_auto|done| |done]. intros _ s2 H2.
  apply (wp_at _ _ a r); [fs_auto|done| |done]. intros imgs s3 H3.
  apply (wp_at _ _ a r); [fs_auto|done| |done]. intros st s4 H4.
  apply (wp_at _ _ a r); [fs_auto|done| |done]. intros _ s5 [E1 E2].
  apply wp_bind, update_mark_frame. intros a' Ha Hs. apply wp_mod_async.
  rewrite E1 in Hs. split; [|by rewrite <- Hn, <- Hs]. eexists. split; [apply lookup_insert_eq|by eauto].
Qed.

Lemma finish_resolves id n s :
  in_phase (fun p => ∃ e, p = Disposing e) id n s →
  wp (writer_finish cfg id)
     (fun _ s' => (∃ out, a_futs (async s'.1) !! id = Some (FDone out)) ∧ a_jobs (async s'.1) !! id = None ∧
                  a_slots (async s'.1) = (n + 1)%Z) never s.
Proof.
  intros [(j & Hj & [error Hph]) Hn]. unfold writer_finish. apply wp_bind, wp_get_async. rewrite Hj, Hph.
  apply wp_bind, (wp_mono _ (fun _ s' => a_slots (async s'.1) = n) _ never); [| |done].
  - set (I := fun (a : async_state) (r : registry) => a_slots a = n).
    assert (∀ A (m : M (ctl * W) A), fs_keeps m → keeps (holds I) m) as Hfs by (intros ? m; apply holds_fs).
    apply wp_catch, wp_bind. eapply wp_mono; [apply (Hfs _ _); [fs_auto|exact Hn]| |].
    + intros [] s1 H1. apply wp_bind, update_mark_frame. intros a Ha Hs. apply wp_ret. cbn. by rewrite Hs.
    + intros e s1 H1. apply wp_bind, update_mark_frame. intros a Ha Hs.
      destruct error; [apply wp_ret|apply wp_bind; unfold wp at 1, modc; apply wp_ret]; cbn; by rewrite Hs.
  - intros final s1 H1. apply wp_bind, wp_mod_async, wp_bind, wp_mod_async.
    set (I := fun (a : async_state) (r : registry) => (∃ out, a_futs a !! id = Some (FDone out)) ∧ a_jobs a !! id = None ∧ a_slots a = (n + 1)%Z).
    apply wp_when. set (s2 := (_, _)). assert (holds I s2) as H2.
    { unfold holds, I. cbn. rewrite lookup_insert_eq, lookup_delete_eq, H1. split_and!; [by eexists|done|done]. }
    destruct (lazy_prestart cfg); [|exact H2].
    apply wp_catch. eapply wp_mono; [apply (holds_fs I _); [fs_auto|exact H2]|done|]. intros e s3 H3. by apply wp_ret.
Qed.

End steps.

(** ** What clients may rely on *)

Section theorems.
Context {W : Type} `{!KernelOverlay W} `{!MountHost W} `{!Host W} (cfg : config).
#[local] Existing Instance layers_and_async.
Implicit Types (s : ctl * W).

(** A controller that has taken no asynchronous checkpoint yet. *)
Definition starting s : Prop :=
  (0 <= async_max_pending cfg)%Z ∧ async s.1 = Async (async_max_pending cfg) None ∅ ∅ ∅ ∧
  ∀ id e, dget id (reg s.1) = Some e → e_memory_protocol e = None.

Lemma starting_ok s : starting s → dumps_ok cfg ∅ s.
Proof.
  intros (Hm & Ha & Hr). exists ∅. unfold goods, good. rewrite Ha. split; [|split; [|split; [done|]]].
  - unfold slots_ok. cbn. rewrite map_size_empty. lia.
  - constructor; unfold resolved; cbn; intros id; try (rewrite !lookup_empty; done || by intros []).
  - by intros id v.
Qed.
Lemma reachable_ok s0 s : starting s0 → rtc (step cfg) s0 s → dumps_ok cfg ∅ s.
Proof. intros H0 Hr. eapply steps_dumps_ok; [exact Hr|by apply starting_ok]. Qed.



(** C8: there are never more writers than [DELTABOX_ASYNC_MAX_PENDING]; each
    holds one admission slot, and unless drawing an id or closing a handle
    fails no slot is ever lost, whatever else fails. *)
Theorem writers_bounded s0 s :
  starting s0 → rtc (step cfg) s0 s →
  let writers := Z.of_nat (size (a_jobs (async s.1))) in
  (0 <= a_slots (async s.1) ∧ a_slots (async s.1) + writers <= async_max_pending cfg)%Z ∧
  (tidy (W:=W) → a_slots (async s.1) + writers = async_max_pending cfg)%Z.
Proof.
  intros H0 Hr. destruct (reachable_ok s0 s H0 Hr) as (D & (S1 & S2 & S3) & _). cbv zeta. split; [lia|].
  intros Ht. specialize (S3 Ht). lia.
Qed.

(** A resolved future is final: its outcome and the keys its writer wrote
    never change again. *)
Theorem resolved_forever s0 s s' id out :
  starting s0 → rtc (step cfg) s0 s → a_futs (async s.1) !! id = Some (FDone out) → rtc (step cfg) s s' →
  a_futs (async s'.1) !! id = Some (FDone out) ∧ a_marks (async s'.1) !! id = a_marks (async s.1) !! id.
Proof.
  intros H0 Hr Hf Hs. destruct (reachable_ok s0 s H0 Hr) as (D & Hsl & Hd & HD & _).
  destruct (do_marks _ _ Hd id) as [m Hm]; [by eexists|].
  assert (dumps_ok cfg {[id := (out, m)]} s) as H.
  { exists D. split; [done|]. split; [done|]. split; [done|]. by intros i v [<- <-]%lookup_singleton_Some. }
  eapply steps_dumps_ok in H as (D' & _ & _ & _ & HF); [|exact Hs].
  destruct (HF id (out, m)) as [H1 H2]; [apply lookup_singleton_eq|]. by rewrite Hm.
Qed.

(** C10: no path through a writer, whichever of its calls fails, leaves its
    checkpoint undecided: once it runs to its end the future is resolved, the
    writer is gone and its slot is free again. *)
Theorem writer_resolves s0 s id :
  starting s0 → rtc (step cfg) s0 s → a_futs (async s.1) !! id = Some FPending →
  ∃ s' out, (_ ← writer_start id true; _ ← writer_dump cfg id; writer_finish cfg id) s = (Ok tt, s') ∧
    a_futs (async s'.1) !! id = Some (FDone out) ∧ a_jobs (async s'.1) !! id = None ∧
    a_slots (async s'.1) = (a_slots (async s.1) + 1)%Z.
Proof.
  intros H0 Hr Hf. destruct (reachable_ok s0 s H0 Hr) as (D & _ & Hd & _).
  apply (do_pending _ _ Hd) in Hf as [j Hj]. set (n := a_slots (async s.1)).
  assert (wp (_ ← writer_start id true; _ ← writer_dump cfg id; writer_finish cfg id)
            (fun _ s' => (∃ out, a_futs (async s'.1) !! id = Some (FDone out)) ∧ a_jobs (async s'.1) !! id = None ∧
                  a_slots (async s'.1) = (n + 1)%Z) never s) as H.
  { apply wp_bind. eapply wp_mono; [apply (start_phase id n); split; [by exists j|done]| |done]. intros [] s1 H1.
    apply wp_bind. eapply wp_mono; [by apply (dump_phase cfg id n)| |done]. intros [] s2 H2. by apply finish_resolves. }
  unfold wp in H. match type of H with (let (_, _) := ?m in _) => destruct m as [[[]|e] s'] end; [|done].
  destruct H as ([out H1] & H2 & H3). by exists s', out.
Qed.

(** ** The barrier before a namespace is torn down *)





End theorems.

(** ** A concrete run *)

Section demo.
Import Sim.
#[local] Existing Instance RootOverlay.sim_mount_host.

(** A checkpoint, its writer, a second checkpoint on top of it, its writer. *)
Definition demo_d0 : ctl * simw := (set_agent_pid 52 demo_s0.1, demo_s0.2).
Definition demo_d1 := demo_run (checkpoint_action demo_acfg None "t" "" []) demo_d0.
Definition demo_d2 := demo_run (writer_step demo_acfg (WStart "id3" false)) demo_d1.
Definition demo_d3 := demo_run (writer_step demo_acfg (WDump "id3")) demo_d2.
Definition demo_d4 := demo_run (writer_step demo_acfg (WFinish "id3")) demo_d3.
Definition demo_d5 := demo_run (checkpoint_action demo_acfg (Some "id3") "u" "" []) demo_d4.
Definition demo_d6 := demo_run (writer_step demo_acfg (WStart "id5" false)) demo_d5.
Definition demo_d7 := demo_run (writer_step demo_acfg (WDump "id5")) demo_d6.
Definition demo_d8 := demo_run (writer_step demo_acfg (WFinish "id5")) demo_d7.

Lemma demo_futs_fresh s : a_futs (async s.1) !! sim_uuid s.2 = None → futs_fresh s.
Proof.
  intros H d w1 id w2 [n Hd] Hk Hu. destruct Hd as [-> | ->]; cbn [os_call sim_host sim_call] in Hu; injection Hu as <- _;
    unfold sim_uuid in *; cbn [kabs sim_kernel] in Hk; by rewrite Hk.
Qed.
Lemma demo_starting : starting demo_acfg demo_d0.
Proof. split; [done|]. split; [by vm_compute|]. done. Qed.
Lemma demo_run1 : rtc (step demo_acfg) demo_d0 demo_d1.
Proof. apply rtc_once, step_checkpoint; [apply demo_fresh|apply demo_futs_fresh]; by vm_compute. Qed.
Lemma demo_run4 : rtc (step demo_acfg) demo_d1 demo_d4.
Proof. eapply rtc_l; [apply step_writer|]. eapply rtc_l; [apply step_writer|]. apply rtc_once, step_writer. Qed.
Lemma demo_run5 : rtc (step demo_acfg) demo_d4 demo_d5.
Proof. apply rtc_once, step_checkpoint; [apply demo_fresh|apply demo_futs_fresh]; by vm_compute. Qed.
Lemma demo_run8 : rtc (step demo_acfg) demo_d5 demo_d8.
Proof. eapply rtc_l; [apply step_writer|]. eapply rtc_l; [apply step_writer|]. apply rtc_once, step_writer. Qed.
Lemma demo_reach4 : rtc (step demo_acfg) demo_d0 demo_d4.
Proof. etrans; [apply demo_run1|apply demo_run4]. Qed.


Example writers_bounded_witness :
  size (a_jobs (async demo_d1.1)) = 1 ∧
  (0 <= a_slots (async demo_d1.1) ∧ a_slots (async demo_d1.1) + Z.of_nat (size (a_jobs (async demo_d1.1))) <= 4)%Z.
Proof.
  split; [by vm_compute|]. exact (proj1 (writers_bounded demo_acfg demo_d0 demo_d1 demo_starting demo_run1)).
Defined.

Example resolved_forever_witness : a_futs (async demo_d8.1) !! "id3" = Some (FDone None).
Proof.
  apply (resolved_forever demo_acfg demo_d0 demo_d4 demo_d8 "id3" None demo_starting demo_reach4); [by vm_compute|].
  etrans; [apply demo_run5|apply demo_run8].
Defined.

Example writer_resolves_witness :
  ∃ s' out, (_ ← writer_start "id3" true; _ ← writer_dump demo_acfg "id3"; writer_finish demo_acfg "id3") demo_d1 = (Ok tt, s') ∧
    a_futs (async s'.1) !! "id3" = Some (FDone out) ∧ a_jobs (async s'.1) !! "id3" = None ∧
    a_slots (async s'.1) = (a_slots (async demo_d1.1) + 1)%Z.
Proof. apply (writer_resolves demo_acfg demo_d0 demo_d1 "id3" demo_starting demo_run1). by vm_compute. Defined.

End demo.
End Durability.
